(* ===== verification/_CoqProject ===== *)
-Q . S2P
Prelude.v
Encoding.v
IntervalSet.v
MDSTable.v
TableServer.v
TableClient.v
SnapServer.v
SnapTable.v
SnapTypes.v
TableProtocol.v
TableSafety.v
TableAgreement.v
TableLiveness.v
SnapProtocol.v
InoTable.v
InoRecovery.v
Frag.v
FragTree.v
FragSet.v
Flock.v
Double.v
PathUtil.v
ReqTracer.v
HitCount.v
Load.v
StrHash.v
CacheDir.v
CacheDirFacts.v
DirSplit.v
DirFragment.v
DirMerge.v
Refragment.v
DirTheorems.v
Fragmenting.v
FragmentRun.v
FragmentWait.v
FragmentTheorems.v
SplitQueue.v
Matching.v
Exports.v
IfBeat.v
Heartbeat.v
