(* ===== verification/Prelude.v ===== *)
(** * Verification of the Lunule metadata server

    Lunule is a fork of Ceph whose metadata server (MDS, src/mds) balances the
    load of the directory tree among its ranks.  This library models the data
    structures of the MDS and the balancer, and proves what they do.

    ** The program and its parts

    A rank owns directory fragments and the inode numbers it hands out.  The
    balancer counts the requests to each fragment, rank 0 begins an epoch by a
    heartbeat, gathers the loads of all ranks and decides how much each busy
    rank exports, and every rank chooses which fragments to export.

    - [Prelude], this file: machine integers, assertions, ordered maps, loops
      and the lemmas and tactics that the components share.
    - [Encoding] (include/encoding.h, denc.h): bytes of integers, containers
      and versioned structures.
    - [IntervalSet] (include/interval_set.h): sets of integers as intervals.
    - [MDSTable] and [InoTable] (mds/MDSTable.cc, InoTable.cc): the journalled
      table of free inode numbers, projected, applied, saved and replayed;
      [InoRecovery] (mds/Server.cc, journal.cc) is what requests, sessions, the
      journal and a daemon that takes over do with it.
    - [TableServer], [TableClient] and [SnapServer] (mds/MDSTableServer.cc,
      MDSTableClient.cc, SnapServer.cc, journal.cc): a table that one rank
      serves to the others, with updates prepared and then committed or rolled
      back, and the table of snapshots, the one that is served so.  A handler
      gives the new state and its effects: messages, journal entries with what
      runs when they are on disk.  [TableServerOps] is the virtual functions,
      [TableServerLaws] what the base class relies on, which [snap_laws] proves.
    - [SnapTable] and [SnapTypes]: purging, ids, widths and encodings of the
      snapshot table.
    - [TableProtocol]: the server, its clients, their journals and the messages
      between them as one system of events; [TableSafety] is its invariant for
      one client and one update, [TableAgreement] for the whole system with the
      theorems, [TableLiveness] its progress, [SnapProtocol] runs of it with the
      snapshot table.
    - [Frag], [FragTree] and [FragSet] (include/frag.h, ceph_frag.h): how the
      hash space of a directory is split into fragments.
    - [Flock] (mds/flock.cc, flock.h): byte-range locks.
    - [Double]: the doubles of the balancer, as binary64 and as rationals.
    - [PathUtil] and [ReqTracer] (mds/adsl): workloads and requests per path.
    - [HitCount] (mds/adsl/ReqCounter.cc, mdstypes.cc, CInode.cc, CDir.cc): hits
      per epoch, potential load, subtree sizes, the load of a fragment.
    - [Load] (common/DecayCounter.cc, mds/mdstypes.h, MDBalancer.cc): popularity.
    - [StrHash] (common/ceph_hash.cc): the hashes that place a name.
    - [CacheDir] (mds/CDir.cc, CInode.cc, MDSCacheObject.h): a directory and the
      fragments of it that are in the cache, with their pins, waiters, dentries
      and statistics; [Refragment] (mds/MDCache.cc) changes them.  The lemmas
      follow the code: [CacheDirFacts] pins and freezing, [DirSplit] the pieces
      of a split, [DirFragment] the whole split and the closing of a fragment,
      [DirMerge] the merge, [DirTheorems] what holds, with an example.
    - [Fragmenting] (mds/MDCache.cc): the requests to split or merge, from
      [split_dir] and [merge_dir] over freezing, locking and journalling to
      [_fragment_finish], and how they wait and are given up; what they ask of
      others is a list of effects.  [FragmentRun] follows a request to its end,
      [FragmentWait] one that has to wait; [FragmentTheorems] is what holds.
    - [SplitQueue] (mds/MDBalancer.cc, CDir.cc): when the balancer asks for them,
      and the contexts that do it later.
    - [Matching] (MDBalancer::prep_rebalance, try_match, calc_mds_load).
    - [Exports] (find_exports, find_exports_wrapper, simple_determine_rebalance).
    - [IfBeat] (handle_ifbeat, messages/MIFBeat.h): the imbalance factor.
    - [Heartbeat] (send_heartbeat, handle_heartbeat, send_ifbeat): epochs.

    ** How the code is modelled

    A class is a [Record], a method a function from the record to the record
    and its result.  [None] is an abort, a failed assertion or undefined
    behaviour.  Integers are [Z] with the wrap of their width written out.  A
    [std::map] is the list of its pairs in key order.  Pointers to fragments are
    numbers.  Doubles are a class: definitions are generic, examples run in
    binary64, and theorems about arithmetic are of exact rationals, so they say
    what the formulas mean, not how rounding affects them.  [exp], [sqrt],
    [pow], [std::hash] and the order [std::sort] gives equal elements are
    parameters.  In [Matching] and [Exports] what [CDir::get_load] answers for a
    fragment is a field of the fragment; [HitCount] models the function.

    ** What the theorems show

    The tables never hand out a number twice, converge, and are rebuilt by
    replay, from whatever was saved and was on disk.  The two-phase protocol
    never fails an assertion, commits an update only if its client has decided so
    and rolls it back only if not, through crashes of the server and orderly
    restarts of clients, and comes to rest when messages are delivered; the
    snapshot table, asked to destroy and rename only what is there and not both
    at once, never asks for the removal of a snapshot in use, and keeps every
    number within its width.  Fragment trees tile the hash space and their
    operations keep it.
    Splitting, merging and forcing the fragments of a directory fail no
    assertion, lose no dentry, statistic or waiter and leave every name where it
    is looked up; the counts that the fragments above keep are lost.  A request
    to do so that gets its locks and is not disturbed between its steps runs to
    its end and leaves fragments that are ready for the next; it goes on when the
    last of any number of auth pins is dropped, and one that is aborted or
    found stale leaves the fragments as they were.  The balancer forgets no
    split or merge that is due, and merges as far up as fragments are small.
    Locks are set exactly when nothing conflicts, below byte 2^31, where an [int]
    of the code would cut their end, and removed exactly, below byte 2^63.
    Counters, once their members are set, answer as the full record of hits
    would.  In exact arithmetic the matching of ranks ends, conserves load and
    respects every rank's excess and deficit.  Exports are of exportable
    fragments, none twice and none in another.  Rank 0's decisions for itself
    are bounded, and no rank runs ahead of the epochs that rank 0 has begun,
    whichever ranks fail and come back.  Examples show where
    the code does not do what it means to.

    ** Loops

    Recursion over data is structural.  Other loops run under a bound that the
    theorems show is enough: [loop n] makes up to [2 ^ n] turns, and
    [while_ends] turns a decreasing measure below that bound into a result.
    [Matching.match_pairs] takes the lengths of both lists as [n].  The loops of
    [CacheDir] that take dentries away turn once for each; those of [Refragment]
    that go up from a fragment, and that of [SplitQueue], have 256 turns, and it
    has at most 24 ancestors.

    The protocol of the tables has no bound: its theorems are by induction on
    runs, and [TableLiveness.weight] bounds the deliveries.

    ** Assumptions of the table protocol

    Messages between two ranks arrive once and in order while both run; clients
    learn of the server's failure before they hear from its successor; callers
    commit an update once it is in their journal.  A client may restart at any
    time in the system; the theorems are of the runs in which it does so only
    when no PREPARE or COMMIT entry of its and no ROLLBACK entry waits for the
    server's disk ([TableProtocol.orderly]).  The code does not ensure that, and
    [SnapProtocol] has runs without it that fail an assertion, lose an
    acknowledged update, and take the answer to one update for another's.  The
    data pools are the same in
    operation and in replay, and counters do not reach 2^64.

    ** What is not modelled

    Of the cache all but one directory and its fragments: the subtree map, the
    freezing of trees, fetching and committing, projected inodes and fnodes; the
    functions of [CacheDir] and [Refragment] return [None] where they would
    reach these, and the theorems on them exclude it.  Of the requests to
    refragment what a replica does when it is told and the rollback after a
    crash, as they read journal entries and create fragments that other ranks
    send.  The migrator, the distributed locks, of which [Fragmenting] takes the
    answer, sessions, the journal beyond what entries say of tables, and the daemon;
    of the balancer [try_rebalance], [mantle_prep_rebalance], export pins and the
    spreading of potential load in [hit_dir]; printing, dumping and logging; and
    the other daemons of Ceph. *)

From stdpp Require Export base option list gmap.
From Stdlib Require Export ZArith Lia Bool.

#[global] Open Scope Z_scope.

(** ** Machine integers

    A C++ integer is a [Z] kept in range by an explicit wrap. *)

Definition u64 (x : Z) : Z := x mod 2 ^ 64.
Definition u32 (x : Z) : Z := x mod 2 ^ 32.
Definition s64 (x : Z) : Z := (x + 2 ^ 63) mod 2 ^ 64 - 2 ^ 63.
Definition s32 (x : Z) : Z := (x + 2 ^ 31) mod 2 ^ 32 - 2 ^ 31.

Declare Scope mds_scope.
Delimit Scope mds_scope with mds.
Notation "a +u64 b" := (u64 (a + b)) (at level 50, left associativity) : mds_scope.
Notation "a -u64 b" := (u64 (a - b)) (at level 50, left associativity) : mds_scope.
Notation "a +s64 b" := (s64 (a + b)) (at level 50, left associativity) : mds_scope.
Notation "a -s64 b" := (s64 (a - b)) (at level 50, left associativity) : mds_scope.

(** ** Assertions

    [assert(cond)] and [ceph_abort()] end the process; an operation that can
    reach one returns an [option], [None] being the abort. *)

Definition assert (b : bool) : option unit := if b then Some tt else None.
Notation "'assert!' b ; k" := (if b then k else None)
  (at level 100, b at level 99, k at level 200, right associativity, only parsing) : mds_scope.

#[global] Open Scope mds_scope.

(** ** std::map and std::multimap

    A [std::map] keyed by integers is the list of its pairs in key order; an
    iterator is an index of that list and [end()] its length. *)

Fixpoint map_lower_bound {V} (m : list (Z * V)) (k : Z) : nat :=
  match m with
  | [] => 0
  | (k', _) :: m' => if k' <? k then S (map_lower_bound m' k) else 0%nat
  end.

Fixpoint map_upper_bound {V} (m : list (Z * V)) (k : Z) : nat :=
  match m with
  | [] => 0
  | (k', _) :: m' => if k' <=? k then S (map_upper_bound m' k) else 0%nat
  end.

(** [m[k] = v] *)
Fixpoint map_set {V} (m : list (Z * V)) (k : Z) (v : V) : list (Z * V) :=
  match m with
  | [] => [(k, v)]
  | (k', v') :: m' =>
      if k' <? k then (k', v') :: map_set m' k v
      else if k' =? k then (k, v) :: m'
      else (k, v) :: m
  end.

(** [m.insert(pair(k, v))]: an existing key is left alone *)
Fixpoint map_emplace {V} (m : list (Z * V)) (k : Z) (v : V) : list (Z * V) :=
  match m with
  | [] => [(k, v)]
  | (k', v') :: m' =>
      if k' <? k then (k', v') :: map_emplace m' k v
      else if k' =? k then m
      else (k, v) :: m
  end.

Fixpoint map_find {V} (m : list (Z * V)) (k : Z) : option V :=
  match m with
  | [] => None
  | (k', v') :: m' => if k' =? k then Some v' else map_find m' k
  end.

Definition map_erase {V} (m : list (Z * V)) (k : Z) : list (Z * V) :=
  List.filter (fun p => negb (p.1 =? k)) m.

(** Strictly increasing keys, all at least [lo]. *)
Fixpoint keys_from {V} (lo : Z) (m : list (Z * V)) : Prop :=
  match m with
  | [] => True
  | (k, _) :: m' => lo <= k /\ keys_from (k + 1) m'
  end.

(** The position of the first element satisfying [f]. *)
Fixpoint find_first {A} (f : A -> bool) (l : list A) : nat :=
  match l with
  | [] => 0
  | x :: l' => if f x then 0%nat else S (find_first f l')
  end.

(** ** Integer lemmas *)

Lemma u64_small x : 0 <= x < 2 ^ 64 -> u64 x = x.
Proof. intros; unfold u64; apply Z.mod_small; lia. Qed.

Lemma u64_range x : 0 <= u64 x < 2 ^ 64.
Proof. unfold u64; apply Z.mod_pos_bound; lia. Qed.

Lemma u32_small x : 0 <= x < 2 ^ 32 -> u32 x = x.
Proof. intros; unfold u32; apply Z.mod_small; lia. Qed.

Lemma u32_range x : 0 <= u32 x < 2 ^ 32.
Proof. unfold u32; apply Z.mod_pos_bound; lia. Qed.

Lemma s64_small x : - 2 ^ 63 <= x < 2 ^ 63 -> s64 x = x.
Proof. intros; unfold s64; rewrite Z.mod_small; lia. Qed.

Lemma s32_small x : - 2 ^ 31 <= x < 2 ^ 31 -> s32 x = x.
Proof. intros; unfold s32; rewrite Z.mod_small; lia. Qed.

(** [wrap] drops the wraps whose argument is in range. *)
Ltac wrap :=
  repeat match goal with
  | |- context [u64 ?x] => rewrite (u64_small x) by lia
  | |- context [u32 ?x] => rewrite (u32_small x) by lia
  | |- context [s64 ?x] => rewrite (s64_small x) by lia
  | |- context [s32 ?x] => rewrite (s32_small x) by lia
  end.

Ltac wrap_in H :=
  repeat match type of H with
  | context [u64 ?x] => rewrite (u64_small x) in H by lia
  | context [u32 ?x] => rewrite (u32_small x) in H by lia
  | context [s64 ?x] => rewrite (s64_small x) in H by lia
  | context [s32 ?x] => rewrite (s32_small x) in H by lia
  end.

(** [zcase] splits on the integer comparisons of the goal. *)
Ltac zcase_one :=
  match goal with
  | |- context [?x <? ?y] => destruct (Z.ltb_spec x y)
  | |- context [?x <=? ?y] => destruct (Z.leb_spec x y)
  | |- context [?x =? ?y] => destruct (Z.eqb_spec x y)
  end.
Ltac zcase := repeat (zcase_one; simpl; try lia).

Ltac zcase_in H :=
  repeat match type of H with
  | context [?x <? ?y] => destruct (Z.ltb_spec x y)
  | context [?x <=? ?y] => destruct (Z.leb_spec x y)
  | context [?x =? ?y] => destruct (Z.eqb_spec x y)
  end; simpl in H; try discriminate H; try lia.

(** [obind] reduces the binds whose first step is known. *)
Ltac obind := cbn [mbind option_bind].

(** ** Lists and maps *)

Create HintDb mds.
Create Rewrite HintDb mds.

Lemma find_first_spec {A} (f : A -> bool) l :
  exists l1 l2, l = l1 ++ l2 /\ find_first f l = length l1 /\
    Forall (fun x => f x = false) l1 /\
    match l2 with [] => True | x :: _ => f x = true end.
Proof.
  induction l as [|x l (l1 & l2 & -> & Hn & H1 & H2)]; simpl.
  - by exists [], [].
  - destruct (f x) eqn:E.
    + exists [], (x :: l1 ++ l2). auto.
    + exists (x :: l1), l2. simpl. rewrite Hn. auto.
Qed.

Lemma find_first_split {A} (f : A -> bool) l1 l2 :
  Forall (fun x => f x = false) l1 ->
  match l2 with [] => True | x :: _ => f x = true end ->
  find_first f (l1 ++ l2) = length l1.
Proof.
  intros H1 H2. induction H1 as [|x l1 E _ IH]; simpl.
  - destruct l2; simpl; [done|]. by rewrite H2.
  - by rewrite E, IH.
Qed.

(** A weaker test stops no later, and strictly earlier at an element that
    only it accepts. *)
Lemma find_first_mono {A} (f g : A -> bool) l :
  (forall x, g x = true -> f x = true) -> (find_first f l <= find_first g l)%nat.
Proof.
  intros Hfg. induction l as [|x l IH]; simpl; [lia|].
  specialize (Hfg x). destruct (f x), (g x); lia.
Qed.

Lemma find_first_mono_lt {A} (f g : A -> bool) l x :
  (forall x, g x = true -> f x = true) ->
  l !! find_first f l = Some x -> g x = false -> (find_first f l < find_first g l)%nat.
Proof.
  intros Hfg. induction l as [|y l IH]; simpl; [done|].
  destruct (f y) eqn:Ef; simpl.
  - intros [= ->] ->. lia.
  - intros Hx Hg. specialize (IH Hx Hg). destruct (g y) eqn:Eg; [|lia].
    apply Hfg in Eg. congruence.
Qed.

Lemma map_lower_bound_first {V} (m : list (Z * V)) k :
  map_lower_bound m k = find_first (fun p => k <=? p.1) m.
Proof.
  induction m as [|[k' v] m IH]; simpl; [done|].
  rewrite IH. zcase; done.
Qed.

Lemma map_set_split {V} (m1 m2 : list (Z * V)) k v :
  Forall (fun p => p.1 < k) m1 ->
  match m2 with [] => True | p :: _ => k < p.1 end ->
  map_set (m1 ++ m2) k v = m1 ++ (k, v) :: m2.
Proof.
  intros H1 H2. induction H1 as [|[k' v'] m1 Hk _ IH]; simpl.
  - destruct m2 as [|[k' v'] m2]; simpl in *; [done|]. zcase; done.
  - simpl in Hk. rewrite IH. zcase; done.
Qed.

Lemma map_emplace_split {V} (m1 m2 : list (Z * V)) k v :
  Forall (fun p => p.1 < k) m1 ->
  match m2 with [] => True | p :: _ => k < p.1 end ->
  map_emplace (m1 ++ m2) k v = m1 ++ (k, v) :: m2.
Proof.
  intros H1 H2. induction H1 as [|[k' v'] m1 Hk _ IH]; simpl.
  - destruct m2 as [|[k' v'] m2]; simpl in *; [done|]. zcase; done.
  - simpl in Hk. rewrite IH. zcase; done.
Qed.

Lemma list_get_middle {A} (l1 l2 : list A) x : (l1 ++ x :: l2) !! length l1 = Some x.
Proof. by apply list_lookup_middle. Qed.

Lemma list_get_next {A} (l1 l2 : list A) x : (l1 ++ x :: l2) !! S (length l1) = head l2.
Proof.
  rewrite lookup_app_r by lia.
  replace (S (length l1) - length l1)%nat with 1%nat by lia. by destruct l2.
Qed.

Lemma list_get_end {A} (l : list A) : l !! length l = None.
Proof. by apply lookup_ge_None. Qed.

Lemma list_set_middle {A} (l1 l2 : list A) x y :
  <[length l1 := y]> (l1 ++ x :: l2) = l1 ++ y :: l2.
Proof. induction l1; simpl; [done|]. by f_equal. Qed.

Lemma list_delete_middle {A} (l1 l2 : list A) x :
  delete (length l1) (l1 ++ x :: l2) = l1 ++ l2.
Proof. induction l1; simpl; [done|]. by f_equal. Qed.

Lemma list_delete_next {A} (l1 l2 : list A) x y :
  delete (S (length l1)) (l1 ++ x :: y :: l2) = l1 ++ x :: l2.
Proof. induction l1; simpl; [done|]. by f_equal. Qed.

Lemma list_drop_middle {A} (l1 l2 : list A) : drop (length l1) (l1 ++ l2) = l2.
Proof. by rewrite drop_app_length. Qed.

#[export] Hint Rewrite @list_get_middle @list_get_next @list_get_end @list_set_middle
  @list_delete_middle @list_delete_next @list_drop_middle : mds.

Lemma keys_from_weaken {V} lo lo' (m : list (Z * V)) :
  lo' <= lo -> keys_from lo m -> keys_from lo' m.
Proof. destruct m as [|[k v] m]; simpl; [done|]. intuition lia. Qed.

Lemma keys_from_app {V} lo (m1 m2 : list (Z * V)) :
  keys_from lo (m1 ++ m2) -> keys_from lo m1 /\ keys_from lo m2.
Proof.
  revert lo. induction m1 as [|[k v] m1 IH]; intros lo; simpl; [done|].
  intros [? [? ?]%IH]. split; [done|]. eapply keys_from_weaken; [|done]. lia.
Qed.

Lemma keys_from_ge {V} lo (m : list (Z * V)) : keys_from lo m -> Forall (fun p => lo <= p.1) m.
Proof.
  revert lo. induction m as [|[k v] m IH]; intros lo; simpl; [constructor|].
  intros [? H]. constructor; [done|]. eapply Forall_impl; [by apply IH|]. simpl. lia.
Qed.

Lemma keys_nodup {V} lo (m : list (Z * V)) : keys_from lo m -> NoDup (map fst m).
Proof.
  revert lo. induction m as [|[k v] m IH]; intros lo; cbn; [constructor|]. intros [Hk Hm].
  apply NoDup_cons. split; [|by eapply IH]. intros (p & -> & Hp)%list_elem_of_fmap.
  apply keys_from_ge in Hm. rewrite Forall_forall in Hm. specialize (Hm p Hp). cbn in *. lia.
Qed.

Lemma map_set_keys {V} lo (m : list (Z * V)) k v :
  keys_from lo m -> lo <= k -> keys_from lo (map_set m k v).
Proof.
  revert lo. induction m as [|[k' v'] m IH]; intros lo; simpl; [lia|].
  intros [? H] ?. zcase; subst; (split; [lia|]); auto; try (split; [lia|done]).
  apply IH; [done|lia].
Qed.

Lemma map_set_Forall {V} (P : Z * V -> Prop) (m : list (Z * V)) k v :
  Forall P m -> P (k, v) -> Forall P (map_set m k v).
Proof.
  intros H Hk. induction H as [|[k' v'] m ? ? IH]; simpl; [by constructor|].
  zcase; repeat (constructor; auto).
Qed.

(** The key's old entry, if any, is the only thing [map_set] replaces. *)
Lemma map_set_find {V} lo (m : list (Z * V)) k v :
  keys_from lo m ->
  exists m1 m2 o, m = m1 ++ o ++ m2 /\ map_set m k v = m1 ++ (k, v) :: m2 /\
    match map_find m k with Some w => o = [(k, w)] | None => o = [] end.
Proof.
  revert lo. induction m as [|[k' v'] m IH]; intros lo; simpl.
  { intros _. by exists [], [], []. }
  intros [? H]. destruct (Z.eqb_spec k' k) as [->|Hne].
  - rewrite Z.ltb_irrefl. by exists [], m, [(k, v')].
  - destruct (Z.ltb_spec k' k).
    + destruct (IH _ H) as (m1 & m2 & o & -> & -> & Ho).
      by exists ((k', v') :: m1), m2, o.
    + assert (map_find m k = None) as ->.
      { assert (E : Forall (fun p => k < p.1) m).
        { eapply Forall_impl; [by apply keys_from_ge|]. simpl. lia. }
        clear -E. induction E as [|[k'' ?] m ? ? IH]; simpl in *; [done|]. by zcase. }
      by exists [], ((k', v') :: m), [].
Qed.

(** ** Lookups in ordered maps *)

Lemma map_find_below {V} lo (m : list (Z * V)) k : keys_from lo m -> k < lo -> map_find m k = None.
Proof.
  revert lo. induction m as [|[k' v'] m IH]; intros lo; simpl; [done|].
  intros [? H] ?. zcase. eapply IH; [done|lia].
Qed.

(** Lookups after a change do not need the order. *)
Lemma map_find_set_any {V} (m : list (Z * V)) k v k' :
  map_find (map_set m k v) k' = if k' =? k then Some v else map_find m k'.
Proof.
  induction m as [|[k0 v0] m IH]; simpl; [by rewrite Z.eqb_sym|].
  destruct (Z.ltb_spec k0 k); simpl; [rewrite IH; zcase; done|].
  destruct (Z.eqb_spec k0 k); simpl; zcase; done.
Qed.

Lemma map_find_set {V} lo (m : list (Z * V)) k v k' :
  keys_from lo m -> map_find (map_set m k v) k' = if k' =? k then Some v else map_find m k'.
Proof. intros _. apply map_find_set_any. Qed.

Lemma map_erase_keys {V} lo (m : list (Z * V)) k : keys_from lo m -> keys_from lo (map_erase m k).
Proof.
  unfold map_erase. revert lo. induction m as [|[k0 v0] m IH]; intros lo; simpl; [done|].
  intros [? H]. destruct (k0 =? k); simpl; [|by auto].
  eapply keys_from_weaken; [|by apply IH]. lia.
Qed.

Lemma map_find_erase_any {V} (m : list (Z * V)) k k' :
  map_find (map_erase m k) k' = if k' =? k then None else map_find m k'.
Proof.
  unfold map_erase. induction m as [|[k0 v0] m IH]; simpl; [by destruct (k' =? k)|].
  destruct (Z.eqb_spec k0 k); simpl; rewrite IH; zcase; done.
Qed.

Lemma map_find_erase {V} lo (m : list (Z * V)) k k' :
  keys_from lo m -> map_find (map_erase m k) k' = if k' =? k then None else map_find m k'.
Proof. intros _. apply map_find_erase_any. Qed.

Lemma map_erase_Forall {V} (Q : Z * V -> Prop) (m : list (Z * V)) k :
  Forall Q m -> Forall Q (map_erase m k).
Proof.
  unfold map_erase. induction 1 as [|x m ? ? IH]; simpl; [constructor|].
  destruct (negb _); [by constructor|done].
Qed.

Lemma map_find_elem {V} lo (m : list (Z * V)) k v :
  keys_from lo m -> (k, v) ∈ m -> map_find m k = Some v.
Proof.
  revert lo. induction m as [|[k0 v0] m IH]; intros lo; simpl; [by intros _ ?%elem_of_nil|].
  intros [? Hk] [E|Hin]%elem_of_cons; [simplify_eq; by rewrite Z.eqb_refl|].
  pose proof (keys_from_ge _ _ Hk) as Hf. rewrite Forall_forall in Hf. specialize (Hf _ Hin).
  simpl in Hf. rewrite (proj2 (Z.eqb_neq _ _)) by lia. by eapply IH.
Qed.

(** An ordered map is determined by its lookups. *)
Lemma map_find_ext {V} lo (m1 m2 : list (Z * V)) :
  keys_from lo m1 -> keys_from lo m2 -> (forall k, map_find m1 k = map_find m2 k) -> m1 = m2.
Proof.
  revert lo m2. induction m1 as [|[k1 v1] m1 IH]; intros lo [|[k2 v2] m2]; simpl; intros K1 K2 Hf.
  - done.
  - specialize (Hf k2). by rewrite Z.eqb_refl in Hf.
  - specialize (Hf k1). by rewrite Z.eqb_refl in Hf.
  - destruct K1 as [? K1], K2 as [? K2].
    assert (k1 = k2) as ->.
    { pose proof (Hf k1) as H1. pose proof (Hf k2) as H2. rewrite Z.eqb_refl in H1, H2.
      destruct (Z.lt_trichotomy k1 k2) as [Hlt|[->|Hlt]]; [|done|].
      - rewrite (proj2 (Z.eqb_neq _ _)), (map_find_below (k2 + 1)) in H1 by (done || lia). done.
      - rewrite (proj2 (Z.eqb_neq _ _)), (map_find_below (k1 + 1)) in H2 by (done || lia). done. }
    pose proof (Hf k2) as H1. rewrite Z.eqb_refl in H1. simplify_eq. f_equal.
    apply (IH (k2 + 1)); [done..|]. intros k. specialize (Hf k).
    destruct (Z.eqb_spec k2 k); [|done]. subst.
    by rewrite !(map_find_below (k + 1)) by (done || lia).
Qed.

(** ** Loops

    [loop n step s] runs [step] from [s] until it answers [inr], at most
    [2 ^ n] times. *)
Fixpoint loop {S R} (n : nat) (step : S -> S + R) (s : S) : S + R :=
  match n with
  | O => step s
  | Datatypes.S n => match loop n step s with inl s => loop n step s | inr r => inr r end
  end.

Lemma loop_progress {S R} (I : S -> Prop) (mu : S -> Z) (Q : R -> Prop) (step : S -> S + R) n s :
  (forall s, I s -> match step s with inl s' => I s' /\ mu s' < mu s | inr r => Q r end) ->
  I s ->
  match loop n step s with inl s' => I s' /\ mu s' <= mu s - 2 ^ Z.of_nat n | inr r => Q r end.
Proof.
  intros Hs. revert s. induction n as [|n IH]; intros s Hi; cbn [loop].
  { specialize (Hs s Hi). destruct (step s); [|done]. rewrite Z.pow_0_r. intuition lia. }
  rewrite Nat2Z.inj_succ, Z.pow_succ_r by lia.
  specialize (IH s Hi) as H1. destruct (loop n step s) as [s'|]; [|done].
  destruct H1 as [Hi' ?]. specialize (IH s' Hi'). destruct (loop n step s'); [|done].
  intuition lia.
Qed.

(** A change of the state that every step respects. *)
Lemma loop_map {S R} (phi : S -> S) (psi : R -> R) (step : S -> S + R) n s :
  (forall s, step (phi s) = match step s with inl s' => inl (phi s') | inr r => inr (psi r) end) ->
  loop n step (phi s) = match loop n step s with inl s' => inl (phi s') | inr r => inr (psi r) end.
Proof.
  intros Hs. revert s. induction n as [|n IH]; intros s; cbn [loop]; [apply Hs|].
  rewrite IH. destruct (loop n step s); [apply IH|done].
Qed.

(** A loop with an invariant and a decreasing measure that its bound covers
    ends with a result. *)
Lemma loop_ends {S R} (I : S -> Prop) (mu : S -> Z) (Q : R -> Prop) (step : S -> S + R) n s :
  (forall s, I s -> match step s with inl s' => I s' /\ mu s' < mu s | inr r => Q r end) ->
  (forall s, I s -> 0 <= mu s) -> I s -> mu s < 2 ^ Z.of_nat n ->
  exists r, loop n step s = inr r /\ Q r.
Proof.
  intros Hs Hp Hi Hm. pose proof (loop_progress I mu Q step n s Hs Hi) as H.
  destruct (loop n step s) as [s'|r]; [|eauto]. destruct H as [Hi' ?]. pose proof (Hp _ Hi'). lia.
Qed.

(** The loop's result; [None] also when the bound is too small. *)
Definition while {S R} (n : nat) (step : S -> S + option R) (s : S) : option R :=
  match loop n step s with inr r => r | inl _ => None end.

Lemma while_ends {S R} (I : S -> Prop) (mu : S -> Z) (Q : R -> Prop) (step : S -> S + option R) n s :
  (forall s, I s ->
     match step s with
     | inl s' => I s' /\ mu s' < mu s
     | inr r => exists x, r = Some x /\ Q x
     end) ->
  (forall s, I s -> 0 <= mu s) -> I s -> mu s < 2 ^ Z.of_nat n ->
  exists r, while n step s = Some r /\ Q r.
Proof.
  intros Hs Hp Hi Hm. unfold while.
  destruct (loop_ends I mu (fun r => exists x, r = Some x /\ Q x) step n s Hs Hp Hi Hm)
    as (r & -> & x & -> & ?). eauto.
Qed.
