(* ===== verification/Encoding.v ===== *)
(** * The wire encoding of src/include/encoding.h

    A [bufferlist] is the list of its bytes, each a [Z] below 256; a decoding
    iterator is the list of the bytes it still has to read.  A decoder returns
    [None] where the C++ throws [buffer::end_of_buffer] or
    [buffer::malformed_input].

    The class [Codec] is what the components that encode state rely on: a
    decoder that reads back what the encoder wrote, whatever follows it. *)

From S2P Require Import Prelude.

Module Encoding.

Abbreviation bytes := (list Z).

(** ** Base types *)

(** [encode_raw] of an integer of [n] bytes in little-endian order. *)
Fixpoint le_bytes (n : nat) (z : Z) : bytes :=
  match n with
  | O => []
  | S n => z mod 256 :: le_bytes n (z / 256)
  end.

Fixpoint le_value (l : bytes) : Z :=
  match l with
  | [] => 0
  | b :: l => b + 256 * le_value l
  end.

(** [p.copy(n, ...)] *)
Fixpoint take_bytes (n : nat) (p : bytes) : option (bytes * bytes) :=
  match n with
  | O => Some ([], p)
  | S n =>
      match p with
      | [] => None
      | b :: p => '(l, r) ← take_bytes n p; Some (b :: l, r)
      end
  end.

Definition encode_uint (n : nat) (z : Z) : bytes := le_bytes n z.
Definition decode_uint (n : nat) (p : bytes) : option (Z * bytes) :=
  '(l, r) ← take_bytes n p; Some (le_value l, r).

#[global] Arguments encode_uint : simpl never.
#[global] Arguments decode_uint : simpl never.

Definition encode_u8 := encode_uint 1.
Definition decode_u8 := decode_uint 1.
Definition encode_u16 := encode_uint 2.
Definition decode_u16 := decode_uint 2.
Definition encode_u32 := encode_uint 4.
Definition decode_u32 := decode_uint 4.
Definition encode_u64 := encode_uint 8.
Definition decode_u64 := decode_uint 8.

(** [encode(int32_t)] and [encode(int64_t)]: the same bytes, read back with
    the sign. *)
Definition encode_s32 := encode_uint 4.
Definition decode_s32 (p : bytes) : option (Z * bytes) :=
  '(v, r) ← decode_uint 4 p; Some (s32 v, r).
Definition encode_s64 := encode_uint 8.
Definition decode_s64 (p : bytes) : option (Z * bytes) :=
  '(v, r) ← decode_uint 8 p; Some (s64 v, r).

Definition encode_bool (v : bool) : bytes := encode_u8 (if v then 1 else 0).
Definition decode_bool (p : bytes) : option (bool * bytes) :=
  '(v, r) ← decode_u8 p; Some (negb (v =? 0), r).

(** [encode(std::string)] and [encode(bufferlist)] *)
Definition encode_string (s : bytes) : bytes :=
  encode_u32 (Z.of_nat (length s)) ++ s.
Definition decode_string (p : bytes) : option (bytes * bytes) :=
  '(len, p) ← decode_u32 p; take_bytes (Z.to_nat len) p.

(** ** Containers *)

Section Containers.
Context {A B : Type}.
Context (enc_a : A -> bytes) (dec_a : bytes -> option (A * bytes)).
Context (enc_b : B -> bytes) (dec_b : bytes -> option (B * bytes)).

Definition encode_pair (p : A * B) : bytes := enc_a p.1 ++ enc_b p.2.
Definition decode_pair (p : bytes) : option ((A * B) * bytes) :=
  '(a, p) ← dec_a p; '(b, p) ← dec_b p; Some ((a, b), p).

Definition encode_optional (o : option A) : bytes :=
  match o with
  | None => encode_u8 0
  | Some a => encode_u8 1 ++ enc_a a
  end.
Definition decode_optional (p : bytes) : option (option A * bytes) :=
  '(present, p) ← decode_u8 p;
  if negb (present =? 0) then '(a, p) ← dec_a p; Some (Some a, p)
  else Some (None, p).

(** the elements of a list, vector, set or map in order, after their number *)
Definition encode_list (l : list A) : bytes :=
  encode_u32 (Z.of_nat (length l)) ++ concat (map enc_a l).

(** [while (n--) { decode(v, p); push_back(v); }] *)
Fixpoint decode_n (n : nat) (p : bytes) : option (list A * bytes) :=
  match n with
  | O => Some ([], p)
  | S n => '(a, p) ← dec_a p; '(l, p) ← decode_n n p; Some (a :: l, p)
  end.
Definition decode_list (p : bytes) : option (list A * bytes) :=
  '(n, p) ← decode_u32 p; decode_n (Z.to_nat n) p.
End Containers.

(** [encode(std::map)]: the pairs in key order; [decode] stores each pair with
    [m[k]], so a repeated key keeps its last value. *)
Section Maps.
Context {V : Type}.
Context (enc_k : Z -> bytes) (dec_k : bytes -> option (Z * bytes)).
Context (enc_v : V -> bytes) (dec_v : bytes -> option (V * bytes)).

Definition encode_map (mm : list (Z * V)) : bytes :=
  encode_list (encode_pair enc_k enc_v) mm.
Definition decode_map (p : bytes) : option (list (Z * V) * bytes) :=
  '(l, p) ← decode_list (decode_pair dec_k dec_v) p;
  Some (foldl (fun mm kv => map_set mm kv.1 kv.2) [] l, p).
(** [denc] of a map, src/include/denc.h: each pair is emplaced, so a repeated
    key keeps its first value. *)
Definition denc_encode_map (mm : list (Z * V)) : bytes :=
  encode_list (encode_pair enc_k enc_v) mm.
Definition denc_decode_map (p : bytes) : option (list (Z * V) * bytes) :=
  '(l, p) ← decode_list (decode_pair dec_k dec_v) p;
  Some (foldl (fun mm kv => map_emplace mm kv.1 kv.2) [] l, p).
End Maps.

(** ** Versioned structures *)

(** [ENCODE_START(v, compat, bl); body; ENCODE_FINISH(bl)] *)
Definition encode_struct (v compat : Z) (body : bytes) : bytes :=
  encode_u8 v ++ encode_u8 compat ++ encode_u32 (Z.of_nat (length body)) ++ body.

(** [DECODE_FINISH(bl)]: [struct_end] is given as the number of bytes that
    remain after the structure, [None] being the 0 of a legacy encoding. *)
Definition decode_finish {A} (struct_end : option nat) (r : A * bytes) : option (A * bytes) :=
  match struct_end with
  | None => Some r
  | Some e =>
      if (length r.2 <? e)%nat then None
      else Some (r.1, drop (length r.2 - e) r.2)
  end.

(** [DECODE_START(v, bl); body; DECODE_FINISH(bl)] *)
Definition decode_struct {A} (v : Z) (body : Z -> bytes -> option (A * bytes)) (p : bytes)
  : option (A * bytes) :=
  '(struct_v, p) ← decode_u8 p;
  '(struct_compat, p) ← decode_u8 p;
  if v <? struct_compat then None
  else
    '(struct_len, p) ← decode_u32 p;
    if Z.of_nat (length p) <? struct_len then None
    else
      let struct_end := (length p - Z.to_nat struct_len)%nat in
      r ← body struct_v p;
      decode_finish (Some struct_end) r.

(** [__DECODE_START_LEGACY_COMPAT_LEN(v, compatv, lenv, skip_v, bl)] *)
Definition decode_struct_legacy {A} (v compatv lenv : Z) (skip_v : nat)
  (body : Z -> bytes -> option (A * bytes)) (p : bytes) : option (A * bytes) :=
  '(struct_v, p) ← decode_u8 p;
  p ← (if compatv <=? struct_v then
         '(struct_compat, p) ← decode_u8 p;
         if v <? struct_compat then None else Some p
       else if (length p <? skip_v)%nat then None
       else Some (drop skip_v p));
  '(struct_end, p) ←
    (if lenv <=? struct_v then
       '(struct_len, p) ← decode_u32 p;
       if Z.of_nat (length p) <? struct_len then None
       else Some (Some (length p - Z.to_nat struct_len)%nat, p)
     else Some (None, p));
  r ← body struct_v p;
  decode_finish struct_end r.

(** ** The interface *)

(** [codable x] says the value fits its encoded width. *)
Class Codec (A : Type) := {
  enc : A -> bytes;
  dec : bytes -> option (A * bytes);
  codable : A -> Prop;
  dec_enc : forall x rest, codable x -> dec (enc x ++ rest) = Some (x, rest)
}.

(** ** Round trips *)

Lemma le_bytes_length n z : length (le_bytes n z) = n.
Proof. revert z. induction n; intros z; simpl; auto. Qed.

Lemma take_bytes_app l rest : take_bytes (length l) (l ++ rest) = Some (l, rest).
Proof. induction l as [|b l IH]; simpl; [done|]. rewrite IH. done. Qed.

Lemma le_value_bytes n z : le_value (le_bytes n z) = z mod 256 ^ Z.of_nat n.
Proof.
  revert z. induction n as [|n IH]; intros z.
  - simpl. by rewrite Z.mod_1_r.
  - cbn [le_bytes le_value]. rewrite IH, Nat2Z.inj_succ, Z.pow_succ_r by lia.
    rewrite Z.rem_mul_r by lia. lia.
Qed.

Lemma decode_uint_app n z rest :
  decode_uint n (encode_uint n z ++ rest) = Some (z mod 256 ^ Z.of_nat n, rest).
Proof.
  unfold decode_uint, encode_uint. rewrite <- (le_bytes_length n z) at 1.
  rewrite take_bytes_app. simpl. by rewrite le_value_bytes.
Qed.

Lemma decode_uint_small n z rest :
  0 <= z < 256 ^ Z.of_nat n -> decode_uint n (encode_uint n z ++ rest) = Some (z, rest).
Proof. intros. by rewrite decode_uint_app, Z.mod_small. Qed.

Lemma decode_s32_app z rest :
  - 2 ^ 31 <= z < 2 ^ 31 -> decode_s32 (encode_s32 z ++ rest) = Some (z, rest).
Proof.
  intros. unfold decode_s32, encode_s32. rewrite decode_uint_app. obind. do 2 f_equal.
  unfold s32. change (256 ^ Z.of_nat 4) with (2 ^ 32).
  rewrite Zplus_mod_idemp_l, Z.mod_small; lia.
Qed.

Lemma decode_s64_app z rest :
  - 2 ^ 63 <= z < 2 ^ 63 -> decode_s64 (encode_s64 z ++ rest) = Some (z, rest).
Proof.
  intros. unfold decode_s64, encode_s64. rewrite decode_uint_app. obind. do 2 f_equal.
  unfold s64. change (256 ^ Z.of_nat 8) with (2 ^ 64).
  rewrite Zplus_mod_idemp_l, Z.mod_small; lia.
Qed.

Lemma decode_bool_app b rest : decode_bool (encode_bool b ++ rest) = Some (b, rest).
Proof. by destruct b. Qed.

Lemma decode_string_app s rest :
  Z.of_nat (length s) < 2 ^ 32 -> decode_string (encode_string s ++ rest) = Some (s, rest).
Proof.
  intros. unfold decode_string, encode_string. rewrite <- app_assoc.
  unfold decode_u32, encode_u32. rewrite decode_uint_small by (simpl; lia). obind.
  by rewrite Nat2Z.id, take_bytes_app.
Qed.

Lemma decode_n_app {A} (enc_a : A -> bytes) dec_a (l : list A) rest :
  Forall (fun x => forall r, dec_a (enc_a x ++ r) = Some (x, r)) l ->
  decode_n dec_a (length l) (concat (map enc_a l) ++ rest) = Some (l, rest).
Proof.
  induction 1 as [|x l Hx _ IH]; simpl; [done|].
  rewrite <- app_assoc, Hx. simpl. by rewrite IH.
Qed.

Lemma decode_list_app {A} (enc_a : A -> bytes) dec_a (l : list A) rest :
  Z.of_nat (length l) < 2 ^ 32 ->
  Forall (fun x => forall r, dec_a (enc_a x ++ r) = Some (x, r)) l ->
  decode_list dec_a (encode_list enc_a l ++ rest) = Some (l, rest).
Proof.
  intros Hl H. unfold decode_list, encode_list. rewrite <- app_assoc.
  unfold decode_u32, encode_u32. rewrite decode_uint_small by (simpl; lia). obind.
  by rewrite Nat2Z.id, decode_n_app.
Qed.

(** Storing the pairs of an ordered map in order rebuilds it. *)
Lemma map_store_snoc {V} (store : list (Z * V) -> Z -> V -> list (Z * V)) l acc lo :
  (forall mm k v, Forall (fun p => p.1 < k) mm -> store mm k v = mm ++ [(k, v)]) ->
  keys_from lo l -> Forall (fun p => p.1 < lo) acc ->
  foldl (fun mm kv => store mm kv.1 kv.2) acc l = acc ++ l.
Proof.
  intros Hst. revert acc lo. induction l as [|[k v] l IH]; intros acc lo Hk Ha; simpl.
  - by rewrite app_nil_r.
  - destruct Hk as [? Hk]. rewrite Hst by (eapply Forall_impl; [exact Ha|]; simpl; lia).
    rewrite (IH _ (k + 1)); [by rewrite <- app_assoc|done|].
    apply Forall_app_2; [|by repeat constructor; simpl; lia].
    eapply Forall_impl; [exact Ha|]. simpl. lia.
Qed.

Lemma map_set_snoc {V} (mm : list (Z * V)) k v :
  Forall (fun p => p.1 < k) mm -> map_set mm k v = mm ++ [(k, v)].
Proof. intros H. rewrite <- (app_nil_r mm) at 1. by apply map_set_split. Qed.

Lemma map_emplace_snoc {V} (mm : list (Z * V)) k v :
  Forall (fun p => p.1 < k) mm -> map_emplace mm k v = mm ++ [(k, v)].
Proof. intros H. rewrite <- (app_nil_r mm) at 1. by apply map_emplace_split. Qed.

Section MapRoundTrip.
Context {V : Type} (enc_k : Z -> bytes) (dec_k : bytes -> option (Z * bytes)).
Context (enc_v : V -> bytes) (dec_v : bytes -> option (V * bytes)).
Context (mm : list (Z * V)) (rest : bytes) (lo : Z).
Context (Hlen : Z.of_nat (length mm) < 2 ^ 32) (Hkeys : keys_from lo mm).
Context (Helts : Forall (fun x => (forall r, dec_k (enc_k x.1 ++ r) = Some (x.1, r)) /\
                                  (forall r, dec_v (enc_v x.2 ++ r) = Some (x.2, r))) mm).

Lemma decode_pairs_app :
  decode_list (decode_pair dec_k dec_v) (encode_list (encode_pair enc_k enc_v) mm ++ rest)
    = Some (mm, rest).
Proof.
  apply decode_list_app; [done|]. eapply Forall_impl; [exact Helts|].
  intros [k v] [H1 H2] r. simpl in *. unfold encode_pair, decode_pair. simpl.
  rewrite <- app_assoc, H1. simpl. by rewrite H2.
Qed.

Lemma decode_map_app :
  decode_map dec_k dec_v (encode_map enc_k enc_v mm ++ rest) = Some (mm, rest).
Proof.
  unfold decode_map, encode_map. rewrite decode_pairs_app. simpl.
  by rewrite (map_store_snoc map_set mm [] lo) by (done || apply map_set_snoc).
Qed.

Lemma denc_decode_map_app :
  denc_decode_map dec_k dec_v (denc_encode_map enc_k enc_v mm ++ rest) = Some (mm, rest).
Proof.
  unfold denc_decode_map, denc_encode_map. rewrite decode_pairs_app. simpl.
  by rewrite (map_store_snoc map_emplace mm [] lo) by (done || apply map_emplace_snoc).
Qed.
End MapRoundTrip.

(** ** Versioned structures: old readers skip what newer writers append *)

Lemma decode_struct_app {A} v nv compat (body : Z -> bytes -> option (A * bytes)) x b extra rest :
  0 <= nv < 256 -> 0 <= compat <= v -> compat < 256 ->
  Z.of_nat (length (b ++ extra)) < 2 ^ 32 ->
  body nv (b ++ extra ++ rest) = Some (x, extra ++ rest) ->
  decode_struct v body (encode_struct nv compat (b ++ extra) ++ rest) = Some (x, rest).
Proof.
  intros Hv Hc Hc' Hl Hb. unfold decode_struct, encode_struct, decode_u8, encode_u8.
  rewrite <- !app_assoc.
  rewrite decode_uint_small by (simpl; lia). obind.
  rewrite decode_uint_small by (simpl; lia). obind.
  rewrite (proj2 (Z.ltb_ge v compat)) by lia.
  unfold decode_u32, encode_u32. rewrite decode_uint_small by (simpl; lia). obind.
  rewrite (proj2 (Z.ltb_ge _ _)) by (rewrite !length_app; lia).
  rewrite Hb. cbn [mbind option_bind decode_finish fst snd]. rewrite Nat2Z.id.
  replace (length (b ++ extra ++ rest) - length (b ++ extra))%nat with (length rest)
    by (rewrite !length_app; lia).
  rewrite (proj2 (Nat.ltb_ge _ _)) by (rewrite !length_app; lia).
  replace (length (extra ++ rest) - length rest)%nat with (length extra)
    by (rewrite !length_app; lia).
  by rewrite drop_app_length.
Qed.

Lemma decode_struct_legacy_app {A} v compatv lenv skip nv compat
  (body : Z -> bytes -> option (A * bytes)) x b extra rest :
  0 <= nv < 256 -> compatv <= nv -> lenv <= nv -> 0 <= compat <= v -> compat < 256 ->
  Z.of_nat (length (b ++ extra)) < 2 ^ 32 ->
  body nv (b ++ extra ++ rest) = Some (x, extra ++ rest) ->
  decode_struct_legacy v compatv lenv skip body
    (encode_struct nv compat (b ++ extra) ++ rest) = Some (x, rest).
Proof.
  intros Hv Hcv Hlv Hc Hc' Hl Hb.
  rewrite <- (decode_struct_app v nv compat body x b extra rest) by done.
  unfold decode_struct_legacy, decode_struct, encode_struct, decode_u8, encode_u8.
  rewrite <- !app_assoc.
  rewrite decode_uint_small by (simpl; lia). obind.
  rewrite (proj2 (Z.leb_le compatv nv)), (proj2 (Z.leb_le lenv nv)) by lia.
  rewrite decode_uint_small by (simpl; lia). obind.
  rewrite (proj2 (Z.ltb_ge v compat)) by lia.
  unfold decode_u32, encode_u32. obind. rewrite decode_uint_small by (simpl; lia). obind.
  rewrite (proj2 (Z.ltb_ge _ _)) by (rewrite !length_app; lia). done.
Qed.

Lemma decode_struct_old {A} v nv compat (body : Z -> bytes -> option (A * bytes)) b rest :
  0 <= nv < 256 -> v < compat < 256 -> 0 <= compat ->
  decode_struct v body (encode_struct nv compat b ++ rest) = None.
Proof.
  intros. unfold decode_struct, encode_struct, decode_u8, encode_u8. rewrite <- !app_assoc.
  rewrite decode_uint_small by (simpl; lia). obind.
  rewrite decode_uint_small by (simpl; lia). obind.
  by rewrite (proj2 (Z.ltb_lt v compat)) by lia.
Qed.

(** A structure written by version [nv] that declares itself readable from
    version [compat] on is read by every reader from that version on, the
    fields a newer writer appended ([extra]) being skipped and what follows
    left untouched, by the legacy reader too; an older reader refuses it. *)
Theorem struct_versioning {A} v nv compat (body : Z -> bytes -> option (A * bytes)) x b extra rest :
  0 <= nv < 256 -> 0 <= compat < 256 -> Z.of_nat (length (b ++ extra)) < 2 ^ 32 ->
  body nv (b ++ extra ++ rest) = Some (x, extra ++ rest) ->
  let p := encode_struct nv compat (b ++ extra) ++ rest in
  (compat <= v -> decode_struct v body p = Some (x, rest) /\
     forall compatv lenv skip, compatv <= nv -> lenv <= nv ->
       decode_struct_legacy v compatv lenv skip body p = Some (x, rest)) /\
  (v < compat -> decode_struct v body p = None).
Proof.
  intros Hn Hc Hl Hb p. split; intros Hv.
  - split; [by apply decode_struct_app; [..|done|done]; lia|].
    intros. by apply decode_struct_legacy_app; [..|done|done]; lia.
  - apply decode_struct_old; lia.
Qed.

(** Two 8-bit fields, the second of which the reader does not know. *)
Lemma struct_versioning_witness :
  decode_struct 1 (fun _ => decode_u8) (encode_struct 2 1 ([7] ++ [9]) ++ [1; 2]) = Some (7, [1; 2]) /\
  decode_struct 0 (fun _ => decode_u8) (encode_struct 2 1 ([7] ++ [9]) ++ [1; 2]) = None.
Proof.
  split.
  - apply (struct_versioning 1 2 1 (fun _ => decode_u8) 7 [7] [9] [1; 2]);
      [lia|lia|reflexivity|reflexivity|lia].
  - apply (struct_versioning 0 2 1 (fun _ => decode_u8) 7 [7] [9] [1; 2]);
      [lia|lia|reflexivity|reflexivity|lia].
Defined.

End Encoding.
