(* ===== verification/IntervalSet.v ===== *)
(** * interval_set<T> of src/include/interval_set.h

    The set is the [std::map] of its intervals, start to length, in key order,
    and the running total [_size].  [T] is [inodeno_t], an unsigned 64-bit
    integer, so every sum of a start and a length wraps at [2 ^ 64]; [_size]
    is an [int64_t].

    Data and operations come first, then the well-formedness invariant
    [wf] (disjoint, non-adjacent, non-empty intervals below [2 ^ 64], and a
    [_size] that is their total), the set [mem] an interval set denotes, and
    for every operation the proof that it preserves the first and computes the
    second. *)

From S2P Require Import Prelude.

Module IntervalSet.

Abbreviation imap := (list (Z * Z)).

Record interval_set := Mk { size : Z; m : imap }.

Definition empty_set : interval_set := Mk 0 [].

(** [interval_set(Map& other)]: [_size] is recomputed from the map. *)
Definition of_map (other : imap) : interval_set :=
  Mk (foldl (fun acc i => acc +s64 i.2) 0 other) other.

Definition num_intervals (s : interval_set) : nat := length (m s).
Definition empty (s : interval_set) : bool :=
  match m s with [] => true | _ => false end.
Definition clear (s : interval_set) : interval_set := empty_set.

(** [p->first + p->second] *)
Definition iend (p : Z * Z) : Z := p.1 +u64 p.2.

(** ** Searching *)

Definition find_inc (mm : imap) (start : Z) : nat :=
  let p := map_lower_bound mm start in
  if negb (p =? 0)%nat &&
     match mm !! p with None => true | Some (f, _) => start <? f end
  then
    let p' := (p - 1)%nat in
    match mm !! p' with
    | Some q => if iend q <=? start then p else p'
    | None => p'
    end
  else p.

Definition find_adj (mm : imap) (start : Z) : nat :=
  let p := map_lower_bound mm start in
  if negb (p =? 0)%nat &&
     match mm !! p with None => true | Some (f, _) => start <? f end
  then
    let p' := (p - 1)%nat in
    match mm !! p' with
    | Some q => if iend q <? start then p else p'
    | None => p'
    end
  else p.

(** [contains(T i, T *pstart, T *plen)], with the interval found. *)
Definition contains_at (s : interval_set) (i : Z) : option (Z * Z) :=
  match m s !! find_inc (m s) i with
  | None => None
  | Some p => if i <? p.1 then None else if iend p <=? i then None else Some p
  end.
Definition contains (s : interval_set) (i : Z) : bool :=
  match contains_at s i with Some _ => true | None => false end.

(** [contains(T start, T len)] *)
Definition contains_range (s : interval_set) (start len : Z) : bool :=
  match m s !! find_inc (m s) start with
  | None => false
  | Some p =>
      if start <? p.1 then false
      else if iend p <=? start then false
      else if iend p <? start +u64 len then false
      else true
  end.

Definition range_start (s : interval_set) : option Z :=
  match m s with [] => None | p :: _ => Some p.1 end.

Definition range_end (s : interval_set) : option Z :=
  match last (m s) with None => None | Some p => Some (iend p) end.

Definition starts_after (s : interval_set) (i : Z) : option bool :=
  assert! negb (contains s i);
  Some (match m s !! find_inc (m s) i with None => false | Some _ => true end).

(** Dereferencing [end()] is undefined behaviour, shown as [None]. *)
Definition start_after (s : interval_set) (i : Z) : option Z :=
  assert! negb (contains s i);
  match m s !! find_inc (m s) i with None => None | Some p => Some p.1 end.

Definition end_after (s : interval_set) (start : Z) : option Z :=
  assert! contains s start;
  match m s !! find_inc (m s) start with None => None | Some p => Some (iend p) end.

(** ** Inserting and erasing *)

(** [insert(T start, T len, T *pstart, T *plen)]; the second component is
    what is stored through [pstart] and [plen]. *)
Definition insert_out (s : interval_set) (start len : Z)
  : option (interval_set * (Z * Z)) :=
  assert! 0 <? len;
  let sz := size s +s64 len in
  let mm := m s in
  let p := find_adj mm start in
  match mm !! p with
  | None => Some (Mk sz (map_set mm start len), (start, len))
  | Some (f, l) =>
      if f <? start then
        assert! (iend (f, l) =? start);
        let l' := l +u64 len in
        let mm1 := <[p := (f, l')]> mm in
        match mm1 !! S p with
        | Some (nf, nl) =>
            if start +u64 len =? nf then
              let l'' := l' +u64 nl in
              Some (Mk sz (delete (S p) (<[p := (f, l'')]> mm1)), (f, l''))
            else Some (Mk sz mm1, (f, l'))
        | None => Some (Mk sz mm1, (f, l'))
        end
      else if start +u64 len =? f then
        Some (Mk sz (map_set (delete p mm) start (len +u64 l)), (start, len +u64 l))
      else
        assert! (start +u64 len <? f);
        Some (Mk sz (map_set mm start len), (start, len))
  end.

Definition insert (s : interval_set) (start len : Z) : option interval_set :=
  fst <$> insert_out s start len.

(** [insert(T val)] *)
Definition insert_one (s : interval_set) (val : Z) : option interval_set :=
  insert s val 1.

(** [erase(T start, T len)] without a [post_process]. *)
Definition erase (s : interval_set) (start len : Z) : option interval_set :=
  let mm := m s in
  let p := find_inc mm start in
  let sz := size s -s64 len in
  assert! 0 <=? sz;
  match mm !! p with
  | None => None
  | Some (f, l) =>
      assert! f <=? start;
      let before := start -u64 f in
      assert! before +u64 len <=? l;
      let after := l -u64 before -u64 len in
      let mm1 := if negb (before =? 0) then <[p := (f, before)]> mm
                 else delete p mm in
      let mm2 := if negb (after =? 0) then map_set mm1 (start +u64 len) after
                 else mm1 in
      Some (Mk sz mm2)
  end.

Definition erase_one (s : interval_set) (val : Z) : option interval_set :=
  erase s val 1.

Fixpoint erase_all (s : interval_set) (l : imap) : option interval_set :=
  match l with
  | [] => Some s
  | p :: l' => s' ← erase s p.1 p.2; erase_all s' l'
  end.
Definition subtract (s a : interval_set) : option interval_set := erase_all s (m a).

Fixpoint insert_all (s : interval_set) (l : imap) : option interval_set :=
  match l with
  | [] => Some s
  | p :: l' => s' ← insert s p.1 p.2; insert_all s' l'
  end.
Definition insert_set (s a : interval_set) : option interval_set := insert_all s (m a).

(** ** Intersection *)

(** [mi = m.insert(mi, p); _size += p.second] *)
Definition out_insert (o : interval_set) (p : Z * Z) : interval_set :=
  Mk (size o +s64 p.2) (map_emplace (m o) p.1 p.2).

(** the [do ... while] over equal intervals *)
Fixpoint equal_run (pa pb : imap) (o : interval_set) : imap * imap * interval_set :=
  match pa, pb with
  | a :: pa', b :: pb' =>
      if (a.1 =? b.1) && (a.2 =? b.2)
      then equal_run pa' pb' (out_insert o a)
      else (pa, pb, o)
  | _, _ => (pa, pb, o)
  end.

(** the sequential merge of [intersection_of] *)
Fixpoint intersection_loop (fuel : nat) (pa pb : imap) (o : interval_set)
  : option interval_set :=
  match fuel with
  | O => None
  | S fuel =>
      match pa, pb with
      | a :: pa', b :: pb' =>
          if iend a <=? b.1 then intersection_loop fuel pa' pb o
          else if iend b <=? a.1 then intersection_loop fuel pa pb' o
          else if (a.1 =? b.1) && (a.2 =? b.2) then
            let '(pa1, pb1, o1) := equal_run pa pb o in
            intersection_loop fuel pa1 pb1 o1
          else
            let start := Z.max a.1 b.1 in
            let en := Z.min (iend a) (iend b) in
            assert! start <? en;
            let o' := out_insert o (start, en -u64 start) in
            if iend b <? iend a then intersection_loop fuel pa pb' o'
            else intersection_loop fuel pa' pb o'
      | _, _ => Some o
      end
  end.

(** [while (ps != s.m.end() && ps->first + ps->second <= pl->first) ++ps] *)
Fixpoint skip_before (ps : imap) (x : Z) : imap :=
  match ps with
  | [] => []
  | p :: ps' => if iend p <=? x then skip_before ps' x else ps
  end.

(** [intersection_size_asym]: walk the smaller set, search the larger.
    [prev] is [None] on the first iteration. *)
Fixpoint asym_loop (fuel : nat) (l : imap) (ps : imap) (offset : Z)
  (prev : option Z) (o : interval_set) : option interval_set :=
  match fuel with
  | O => None
  | S fuel =>
      assert! match prev with None => true | Some po => po <? offset end;
      match drop (find_inc l offset) l with
      | [] => Some o
      | pl :: lrest =>
          match skip_before ps pl.1 with
          | [] => Some o
          | p :: ps' =>
              let prev' := Some offset in
              let offset' := iend pl in
              if offset' <=? p.1 then asym_loop fuel l (p :: ps') p.1 prev' o
              else if (p.1 =? pl.1) && (p.2 =? pl.2) then
                let '(ps1, _, o1) := equal_run (p :: ps') (pl :: lrest) o in
                match ps1 with
                | [] => Some o1
                | q :: _ => asym_loop fuel l ps1 q.1 prev' o1
                end
              else
                let start := Z.max p.1 pl.1 in
                let en := Z.min (iend p) offset' in
                assert! start <? en;
                let o1 := out_insert o (start, en -u64 start) in
                if iend p <=? offset' then
                  match ps' with
                  | [] => Some o1
                  | q :: _ => asym_loop fuel l ps' q.1 prev' o1
                  end
                else asym_loop fuel l (p :: ps') offset' prev' o1
          end
      end
  end.

Definition intersection_size_asym (s l : interval_set) : option interval_set :=
  match m s with
  | [] => None
  | p :: _ =>
      asym_loop (S (length (m s) + length (m l))) (m l) (m s) p.1 None empty_set
  end.

Definition intersection_of (a b : interval_set) : option interval_set :=
  let '(s, l) := if size a <? size b then (a, b) else (b, a) in
  if size s =? 0 then Some empty_set
  else if 10 <=? Z.quot (size l) (size s) then intersection_size_asym s l
  else intersection_loop (S (length (m a) + length (m b))) (m a) (m b) empty_set.

Definition intersects (s : interval_set) (start len : Z) : option bool :=
  a ← insert empty_set start len;
  i ← intersection_of s a;
  Some (negb (empty i)).

(** ** Union *)

Definition union_of (a b : interval_set) : option interval_set :=
  ab ← intersection_of a b;
  s ← subtract a ab;
  insert_set s b.

Definition union_insert (s : interval_set) (off len : Z) : option interval_set :=
  a ← insert empty_set off len;
  union_of s a.

(** ** Subsets *)

Fixpoint skip_equal (pa pb : imap) : imap * imap :=
  match pa, pb with
  | a :: pa', b :: pb' =>
      if (a.1 =? b.1) && (a.2 =? b.2) then skip_equal pa' pb' else (pa, pb)
  | _, _ => (pa, pb)
  end.

Fixpoint subset_loop (fuel : nat) (pa pb : imap) : option bool :=
  match fuel with
  | O => None
  | S fuel =>
      match pa, pb with
      | a :: pa', _ :: _ =>
          match skip_before pb a.1 with
          | [] => Some false
          | b :: pb' =>
              if (a.1 =? b.1) && (a.2 =? b.2) then
                let '(pa1, pb1) := skip_equal pa (b :: pb') in
                subset_loop fuel pa1 pb1
              else if a.1 <? b.1 then Some false
              else if iend b <? iend a then Some false
              else subset_loop fuel pa' (b :: pb')
          end
      | [], _ => Some true
      | _, [] => Some false
      end
  end.

Definition subset_size_sym (a b : interval_set) : option bool :=
  subset_loop (S (length (m a))) (m a) (m b).

Definition subset_of (s big : interval_set) : option bool :=
  if size s =? 0 then Some true
  else if size big <? size s then Some false
  else
    e ← range_end s;
    eb ← range_end big;
    if eb <? e then Some false
    else if Z.quot (size big) (size s) <? 10 then subset_size_sym s big
    else Some (forallb (fun p => contains_range big p.1 p.2) (m s)).

Fixpoint subset_range_loop (p : imap) (o : interval_set) (start en : Z)
  : option interval_set :=
  match p with
  | [] => Some o
  | q :: p' =>
      assert! start <=? q.1;
      if en <=? q.1 then Some o
      else if en <=? iend q then insert o q.1 (en -u64 q.1)
      else o' ← insert o q.1 q.2; subset_range_loop p' o' start en
  end.

(** [subset_of(other, start, end)] *)
Definition subset_range (other : interval_set) (start en : Z) : option interval_set :=
  assert! start <=? en;
  if en =? start then Some empty_set
  else
    match drop (find_inc (m other) start) (m other) with
    | [] => Some empty_set
    | p :: rest =>
        if p.1 <? start then
          if en <=? iend p then insert empty_set start (en -u64 start)
          else o ← insert empty_set start (iend p -u64 start);
               subset_range_loop rest o start en
        else subset_range_loop (p :: rest) empty_set start en
    end.

Fixpoint span_loop (p : imap) (o : interval_set) (len : Z) : option interval_set :=
  match p with
  | [] => Some o
  | q :: p' =>
      if 0 <? len then
        if q.2 <? len then o' ← insert o q.1 q.2; span_loop p' o' (len -u64 q.2)
        else insert o q.1 len
      else Some o
  end.

Definition span_of (other : interval_set) (start len : Z) : option interval_set :=
  match drop (find_inc (m other) start) (m other) with
  | [] => Some empty_set
  | p :: rest =>
      if p.1 <? start then
        if iend p <? start then Some empty_set
        else if iend p <? start +u64 len then
          let howmuch := p.2 -u64 (start -u64 p.1) in
          o ← insert empty_set start howmuch;
          span_loop rest o (len -u64 howmuch)
        else insert empty_set start len
      else span_loop (p :: rest) empty_set len
  end.

(** ** The set an interval map denotes *)

Definition mem (mm : imap) (x : Z) : Prop :=
  Exists (fun p => p.1 <= x < p.1 + p.2) mm.

Fixpoint total (mm : imap) : Z :=
  match mm with [] => 0 | p :: mm' => p.2 + total mm' end.

(** Non-empty, disjoint and non-adjacent intervals inside [[lo, 2 ^ 64)]. *)
Fixpoint wf_map (lo : Z) (mm : imap) : Prop :=
  match mm with
  | [] => True
  | p :: mm' => lo <= p.1 /\ 0 < p.2 /\ p.1 + p.2 < 2 ^ 64 /\ wf_map (p.1 + p.2 + 1) mm'
  end.

(** The least start allowed after the intervals of [mm]. *)
Fixpoint hi (lo : Z) (mm : imap) : Z :=
  match mm with [] => lo | p :: mm' => hi (p.1 + p.2 + 1) mm' end.

Record wf (s : interval_set) : Prop := {
  wf_intervals : wf_map 0 (m s);
  wf_size : size s = total (m s);
  wf_small : total (m s) < 2 ^ 63
}.

(** ** Lemmas on well-formed maps *)

#[export] Instance mem_dec mm x : Decision (mem mm x).
Proof. unfold mem. apply _. Defined.

Lemma mem_nil x : mem [] x <-> False.
Proof. unfold mem. by rewrite Exists_nil. Qed.
Lemma mem_cons p mm x : mem (p :: mm) x <-> p.1 <= x < p.1 + p.2 \/ mem mm x.
Proof. unfold mem. by rewrite Exists_cons. Qed.
Lemma mem_app m1 m2 x : mem (m1 ++ m2) x <-> mem m1 x \/ mem m2 x.
Proof. unfold mem. by rewrite Exists_app. Qed.

Ltac mem := rewrite ?mem_app, ?mem_cons, ?mem_nil; simpl.

Lemma total_app m1 m2 : total (m1 ++ m2) = total m1 + total m2.
Proof. induction m1; simpl; lia. Qed.

Lemma wf_map_weaken lo lo' mm : lo' <= lo -> wf_map lo mm -> wf_map lo' mm.
Proof. destruct mm as [|p mm]; simpl; [done|]. intuition lia. Qed.

Lemma wf_map_app lo m1 m2 :
  wf_map lo (m1 ++ m2) <-> wf_map lo m1 /\ wf_map (hi lo m1) m2.
Proof. revert lo. induction m1; intros lo; simpl; [tauto|]. rewrite IHm1. tauto. Qed.

Lemma hi_app lo m1 m2 : hi lo (m1 ++ m2) = hi (hi lo m1) m2.
Proof. revert lo. by induction m1; intros lo; simpl. Qed.

Lemma hi_ge lo mm : wf_map lo mm -> lo <= hi lo mm.
Proof.
  revert lo. induction mm as [|p mm IH]; intros lo; simpl; [lia|].
  intros (?&?&?&H). apply IH in H. lia.
Qed.

(** Every interval of a well-formed map lies inside [[lo, hi - 1)]. *)
Lemma wf_map_elem lo mm :
  wf_map lo mm ->
  Forall (fun p => lo <= p.1 /\ 0 < p.2 /\ p.1 + p.2 < 2 ^ 64 /\ p.1 + p.2 < hi lo mm) mm.
Proof.
  revert lo. induction mm as [|p mm IH]; intros lo; simpl; [constructor|].
  intros (?&?&?&H). constructor.
  - apply hi_ge in H. lia.
  - eapply Forall_impl; [by apply IH|]. simpl. intros q. lia.
Qed.

Lemma wf_map_mem lo mm x : wf_map lo mm -> mem mm x -> lo <= x < 2 ^ 64 /\ x + 1 < hi lo mm.
Proof.
  intros H%wf_map_elem Hx. unfold mem in Hx. rewrite Exists_exists in Hx.
  destruct Hx as (p & Hp & ?). rewrite Forall_forall in H. specialize (H p Hp). lia.
Qed.

Lemma total_nonneg lo mm : wf_map lo mm -> 0 <= total mm.
Proof.
  revert lo. induction mm as [|p mm IH]; intros lo; simpl; [lia|].
  intros (?&?&?&H%IH). lia.
Qed.

Lemma total_zero lo mm : wf_map lo mm -> total mm = 0 -> mm = [].
Proof.
  destruct mm as [|p mm]; simpl; [done|]. intros (?&?&?&H%total_nonneg). lia.
Qed.

Lemma iend_wf lo mm : wf_map lo mm -> 0 <= lo -> Forall (fun p => iend p = p.1 + p.2) mm.
Proof.
  intros H%wf_map_elem Hlo. eapply Forall_impl; [exact H|]. simpl. intros p Hp.
  unfold iend. apply u64_small. lia.
Qed.

(** Well-formed maps are canonical: the set determines the intervals. *)
Lemma wf_map_ext lo1 lo2 m1 m2 :
  wf_map lo1 m1 -> wf_map lo2 m2 -> (forall x, mem m1 x <-> mem m2 x) -> m1 = m2.
Proof.
  revert lo1 lo2 m2. induction m1 as [|[a l] m1 IH]; intros lo1 lo2 [|[b k] m2]; simpl.
  - done.
  - intros _ (?&?&?&_) Hm. specialize (Hm b). revert Hm. mem. lia.
  - intros (?&?&?&_) _ Hm. specialize (Hm a). revert Hm. mem. lia.
  - intros (?&?&?&W1) (?&?&?&W2) Hm.
    assert (Hn1 : forall x, mem m1 x -> a + l + 1 <= x) by (intros x Hx; by apply (wf_map_mem _ _ _ W1)).
    assert (Hn2 : forall x, mem m2 x -> b + k + 1 <= x) by (intros x Hx; by apply (wf_map_mem _ _ _ W2)).
    setoid_rewrite mem_cons in Hm. simpl in Hm.
    assert (a = b).
    { destruct (Hm a) as [Ha _], (Hm b) as [_ Hb].
      destruct Ha as [Ha|Ha%Hn2]; [lia| |];
      (destruct Hb as [Hb|Hb%Hn1]; [lia| |]); lia. }
    subst b.
    assert (l = k).
    { destruct (Hm (a + l)) as [_ Hl], (Hm (a + k)) as [Hk _].
      destruct (Z.lt_trichotomy l k) as [?|[?|?]]; [|done|].
      - destruct Hl as [Hl|Hl%Hn1]; lia.
      - destruct Hk as [Hk|Hk%Hn2]; lia. }
    subst k. f_equal. eapply IH; [exact W1|exact W2|].
    intros x. destruct (Hm x) as [Hy Hz]. split; intros Hx.
    + pose proof (Hn1 x Hx). destruct Hy as [Hy|Hy]; [by right|lia|done].
    + pose proof (Hn2 x Hx). destruct Hz as [Hz|Hz]; [by right|lia|done].
Qed.

(** ** The searches find what a linear scan would *)

Lemma wf_map_last lo m1 q m2 :
  wf_map lo (m1 ++ q :: m2) ->
  Forall (fun p => p.1 + p.2 < q.1) m1 /\ lo <= q.1 /\ 0 < q.2 /\ q.1 + q.2 < 2 ^ 64 /\
  wf_map (q.1 + q.2 + 1) m2.
Proof.
  rewrite wf_map_app. simpl. intros (H1 & ? & ? & ? & ?).
  pose proof (hi_ge _ _ H1). repeat split; try lia; [|done].
  eapply Forall_impl; [by apply wf_map_elem|]. simpl. intros p. lia.
Qed.

Lemma search_first (strict : bool) lo mm start :
  wf_map lo mm -> 0 <= lo ->
  (if strict then find_adj mm start else find_inc mm start) =
  find_first (fun p => if strict then start <=? p.1 + p.2 else start <? p.1 + p.2) mm.
Proof.
  intros Hwf Hlo.
  assert (Hend := iend_wf _ _ Hwf Hlo).
  unfold find_adj, find_inc. cbv zeta. rewrite !map_lower_bound_first.
  destruct (find_first_spec (fun p : Z * Z => start <=? p.1) mm)
    as (m1 & m2 & -> & -> & H1 & H2).
  assert (Hhd : match m2 with [] => True
    | x :: _ => (if strict then start <=? x.1 + x.2 else start <? x.1 + x.2) = true end).
  { destruct m2 as [|x m2]; [done|]. apply wf_map_last in Hwf.
    apply Z.leb_le in H2. destruct strict; zcase. }
  destruct m1 as [|q m1 _] using rev_ind.
  - simpl. rewrite (find_first_split _ [] m2) by done. by destruct strict.
  - rewrite <- app_assoc in *. simpl in *. apply wf_map_last in Hwf as Hq.
    destruct Hq as (Hm1 & ? & ? & ? & Hm2).
    rewrite Forall_app, Forall_cons in H1. destruct H1 as (_ & Hqs & _).
    apply Z.leb_gt in Hqs.
    rewrite length_app. simpl.
    replace (length m1 + 1 - 1)%nat with (length m1) by lia.
    replace (length m1 + 1 =? 0)%nat with false by (symmetry; apply Nat.eqb_neq; lia). simpl.
    rewrite (list_lookup_middle m1 m2 q (length m1)) by done.
    replace ((m1 ++ q :: m2) !! (length m1 + 1)%nat) with (head m2)
      by (rewrite lookup_app_r by lia;
          replace (length m1 + 1 - length m1)%nat with 1%nat by lia; by destruct m2).
    assert (Hqe : iend q = q.1 + q.2).
    { rewrite Forall_app, Forall_cons in Hend. tauto. }
    rewrite Hqe.
    assert (Hfalse : Forall (fun p => (if strict then start <=? p.1 + p.2 else start <? p.1 + p.2) = false) m1).
    { eapply Forall_impl; [exact Hm1|]. simpl. intros p ?. destruct strict; zcase. }
    destruct (decide ((if strict then start <=? q.1 + q.2 else start <? q.1 + q.2) = true)) as [E|E].
    + rewrite (find_first_split _ m1 (q :: m2)) by (done || apply E).
      destruct m2 as [|[f ?] m2]; simpl in *.
      * destruct strict; zcase_in E; zcase; done.
      * destruct Hm2 as (?&_). destruct strict; zcase_in E; zcase; done.
    + apply not_true_is_false in E.
      change (q :: m2) with ([q] ++ m2). rewrite app_assoc.
      rewrite (find_first_split _ (m1 ++ [q]) m2); [|by apply Forall_app_2; auto|done].
      rewrite length_app. simpl.
      destruct m2 as [|[f ?] m2]; simpl in *; destruct strict; zcase_in E; zcase; done.
Qed.

Lemma find_inc_first lo mm start :
  wf_map lo mm -> 0 <= lo ->
  find_inc mm start = find_first (fun p => start <? p.1 + p.2) mm.
Proof. apply (search_first false). Qed.

Lemma find_adj_first lo mm start :
  wf_map lo mm -> 0 <= lo ->
  find_adj mm start = find_first (fun p => start <=? p.1 + p.2) mm.
Proof. apply (search_first true). Qed.

(** Case analysis on the position found: [m1] ends before [start]. *)
Lemma find_inc_split lo mm start :
  wf_map lo mm -> 0 <= lo ->
  exists m1 m2, mm = m1 ++ m2 /\ find_inc mm start = length m1 /\
    Forall (fun p => p.1 + p.2 <= start) m1 /\
    match m2 with [] => True | p :: _ => start < p.1 + p.2 end.
Proof.
  intros Hwf Hlo. rewrite (find_inc_first lo) by done.
  destruct (find_first_spec (fun p : Z * Z => start <? p.1 + p.2) mm) as (m1 & m2 & E & Hl & H1 & H2).
  exists m1, m2. split_and!; [done..| |].
  - eapply Forall_impl; [exact H1|]. simpl. intros p ?%Z.ltb_ge. done.
  - destruct m2; [done|]. by apply Z.ltb_lt.
Qed.

Lemma find_adj_split lo mm start :
  wf_map lo mm -> 0 <= lo ->
  exists m1 m2, mm = m1 ++ m2 /\ find_adj mm start = length m1 /\
    Forall (fun p => p.1 + p.2 < start) m1 /\
    match m2 with [] => True | p :: _ => start <= p.1 + p.2 end.
Proof.
  intros Hwf Hlo. rewrite (find_adj_first lo) by done.
  destruct (find_first_spec (fun p : Z * Z => start <=? p.1 + p.2) mm) as (m1 & m2 & E & Hl & H1 & H2).
  exists m1, m2. split_and!; [done..| |].
  - eapply Forall_impl; [exact H1|]. simpl. intros p ?%Z.leb_gt. done.
  - destruct m2; [done|]. by apply Z.leb_le.
Qed.

(** ** Membership queries *)

Lemma mem_split lo m1 m2 x :
  wf_map lo (m1 ++ m2) ->
  Forall (fun p => p.1 + p.2 <= x) m1 ->
  match m2 with [] => True | p :: _ => x < p.1 + p.2 end ->
  mem (m1 ++ m2) x <-> match m2 with [] => False | p :: _ => p.1 <= x end.
Proof.
  intros Hwf H1 H2. rewrite mem_app.
  assert (Hn : ~ mem m1 x).
  { unfold mem. rewrite Exists_exists. intros (p & Hp & ?).
    rewrite Forall_forall in H1. specialize (H1 p Hp). lia. }
  destruct m2 as [|p m2]; [rewrite mem_nil; tauto|].
  apply wf_map_last in Hwf. destruct Hwf as (_&_&_&_&Hwf).
  rewrite mem_cons. split; [|tauto].
  intros [?|[?|Hx]]; [done|lia|]. apply (wf_map_mem _ _ _ Hwf) in Hx. lia.
Qed.

Lemma contains_at_spec lo s x :
  wf_map lo (m s) -> 0 <= lo ->
  match contains_at s x with
  | Some p => In p (m s) /\ p.1 <= x < p.1 + p.2
  | None => ~ mem (m s) x
  end.
Proof.
  intros Hwf Hlo. unfold contains_at.
  destruct (find_inc_split lo (m s) x) as (m1 & m2 & E & -> & H1 & H2); [done..|].
  rewrite E in Hwf |- *. pose proof (mem_split _ _ _ _ Hwf H1 H2) as Hm.
  pose proof (iend_wf _ _ Hwf Hlo) as He. rewrite Forall_app in He.
  destruct m2 as [|p m2].
  - rewrite app_nil_r in *. rewrite list_get_end. tauto.
  - rewrite list_get_middle. rewrite Forall_cons in He. destruct He as (_ & -> & _).
    destruct (Z.ltb_spec x p.1); [rewrite Hm; lia|].
    destruct (Z.leb_spec (p.1 + p.2) x); [lia|].
    split; [|lia]. apply in_app_iff. right. by left.
Qed.

Lemma contains_spec lo s x :
  wf_map lo (m s) -> 0 <= lo -> contains s x = true <-> mem (m s) x.
Proof.
  intros Hwf Hlo. unfold contains. pose proof (contains_at_spec lo s x Hwf Hlo) as H.
  destruct (contains_at s x) as [p|]; [|by split].
  split; [|done]. intros _. unfold mem. rewrite Exists_exists.
  exists p. rewrite list_elem_of_In. done.
Qed.

Lemma contains_range_spec lo s start len :
  wf_map lo (m s) -> 0 <= lo -> 0 <= start -> 0 < len -> start + len < 2 ^ 64 ->
  contains_range s start len = true <-> (forall x, start <= x < start + len -> mem (m s) x).
Proof.
  intros Hwf Hlo Hs Hl Hb. unfold contains_range.
  destruct (find_inc_split lo (m s) start) as (m1 & m2 & E & -> & H1 & H2); [done..|].
  rewrite E in Hwf |- *. pose proof (mem_split _ _ _ _ Hwf H1 H2) as Hm.
  pose proof (iend_wf _ _ Hwf Hlo) as He. rewrite Forall_app in He.
  destruct m2 as [|p m2].
  - rewrite app_nil_r in *. rewrite list_get_end. split; [done|].
    intros H. exfalso. apply Hm, H. lia.
  - rewrite list_get_middle. rewrite Forall_cons in He. destruct He as (_ & -> & _).
    wrap. destruct (Z.ltb_spec start p.1).
    { split; [done|]. intros H'. specialize (H' start). rewrite Hm in H'. lia. }
    destruct (Z.leb_spec (p.1 + p.2) start); [lia|].
    destruct (Z.ltb_spec (p.1 + p.2) (start + len)).
    + split; [done|]. intros H'. exfalso.
      specialize (H' (p.1 + p.2)). apply wf_map_last in Hwf as (_&_&_&_&Hw).
      rewrite mem_app, mem_cons in H'. destruct H' as [Hx|[Hx|Hx]]; [lia| |lia|].
      * unfold mem in Hx. rewrite Exists_exists in Hx. destruct Hx as (q & Hq & ?).
        rewrite Forall_forall in H1. specialize (H1 q Hq). lia.
      * apply (wf_map_mem _ _ _ Hw) in Hx. lia.
    + split; [|done]. intros _ x Hx. mem. right. left. lia.
Qed.

Lemma range_start_spec lo s start :
  wf_map lo (m s) -> range_start s = Some start ->
  mem (m s) start /\ (forall x, mem (m s) x -> start <= x).
Proof.
  unfold range_start. destruct (m s) as [|p mm]; [done|].
  simpl. intros (?&?&?&Hw) [= <-]. split; [mem; left; lia|].
  intros x. rewrite mem_cons. intros [?|Hx%(wf_map_mem _ _ _ Hw)]; lia.
Qed.

Lemma end_after_spec lo s start :
  wf_map lo (m s) -> 0 <= lo -> mem (m s) start ->
  exists e, end_after s start = Some e /\ start < e < 2 ^ 64 /\
    (forall x, start <= x < e -> mem (m s) x) /\ ~ mem (m s) e.
Proof.
  intros Hwf Hlo Hmem. unfold end_after.
  rewrite (proj2 (contains_spec _ _ _ Hwf Hlo) Hmem).
  destruct (find_inc_split lo (m s) start) as (m1 & m2 & E & -> & H1 & H2); [done..|].
  rewrite E in *. rewrite (mem_split _ _ _ _ Hwf H1 H2) in Hmem.
  destruct m2 as [|p m2]; [done|]. rewrite list_get_middle.
  pose proof (iend_wf _ _ Hwf Hlo) as He. rewrite Forall_app, Forall_cons in He.
  destruct He as (_ & -> & _). apply wf_map_last in Hwf as (Hm1 & ? & ? & ? & Hw).
  exists (p.1 + p.2). split_and!; [done|lia..| |].
  - intros x Hx. mem. right. left. lia.
  - rewrite mem_app, mem_cons. intros [Hx|[?|Hx]]; [|lia|].
    + unfold mem in Hx. rewrite Exists_exists in Hx. destruct Hx as (q & Hq & ?).
      rewrite Forall_forall in Hm1. specialize (Hm1 q Hq). lia.
    + apply (wf_map_mem _ _ _ Hw) in Hx. lia.
Qed.

(** ** insert *)

Lemma hi_bound lo mm b : lo <= b -> Forall (fun p => p.1 + p.2 < b) mm -> hi lo mm <= b.
Proof.
  intros Hlo H. revert lo Hlo. induction H as [|p mm ? _ IH]; intros lo Hlo; simpl; [done|].
  apply IH. lia.
Qed.

Lemma ends_lt_keys lo mm b :
  wf_map lo mm -> Forall (fun p => p.1 + p.2 < b) mm -> Forall (fun p => p.1 < b) mm.
Proof.
  intros Hwf%wf_map_elem H. rewrite Forall_forall in *. intros p Hp.
  specialize (Hwf p Hp). specialize (H p Hp). lia.
Qed.

Lemma wf_middle sz m1 ps pl m2 :
  wf_map 0 m1 -> Forall (fun p => p.1 + p.2 < ps) m1 ->
  0 <= ps -> 0 < pl -> ps + pl < 2 ^ 64 -> wf_map (ps + pl + 1) m2 ->
  sz = total m1 + pl + total m2 -> sz < 2 ^ 63 -> wf (Mk sz (m1 ++ (ps, pl) :: m2)).
Proof.
  intros Hw1 H1 ? ? ? Hw2 -> Hb. pose proof (hi_bound 0 m1 ps ltac:(lia) H1).
  split; simpl; rewrite ?wf_map_app, ?total_app; simpl; [|lia..].
  split_and!; done || lia.
Qed.

(** What [insert] does to the intervals [m2] from the insertion point on, in
    each of the five ways the new range can meet them. *)
Lemma insert_at s start len m1 m2 :
  m s = m1 ++ m2 -> wf_map 0 m1 -> wf_map (hi 0 m1) m2 ->
  find_adj (m s) start = length m1 -> Forall (fun p => p.1 + p.2 < start) m1 ->
  match m2 with [] => True | p :: _ => start <= p.1 + p.2 end ->
  0 <= start -> 0 < len -> start + len < 2 ^ 64 ->
  (forall x, start <= x < start + len -> ~ mem m2 x) ->
  exists ps pl m2',
    insert_out s start len = Some (Mk (size s +s64 len) (m1 ++ (ps, pl) :: m2'), (ps, pl)) /\
    Forall (fun p => p.1 + p.2 < ps) m1 /\
    0 <= ps /\ ps <= start /\ start + len <= ps + pl < 2 ^ 64 /\ wf_map (ps + pl + 1) m2' /\
    pl + total m2' = len + total m2 /\
    (forall x, ps <= x < ps + pl \/ mem m2' x <-> start <= x < start + len \/ mem m2 x).
Proof.
  intros E Hw1 Hw2 Hfind H1 H2 Hs Hl Hb Hd. unfold insert_out.
  rewrite (proj2 (Z.ltb_lt 0 len) Hl), Hfind, E.
  pose proof (ends_lt_keys _ _ _ Hw1 H1) as Hk1. pose proof (hi_ge _ _ Hw1) as Hhi0.
  destruct m2 as [|[f l] m2]; simpl in H2.
  { rewrite app_nil_r, list_get_end.
    replace (map_set m1 start len) with (m1 ++ [(start, len)])
      by (symmetry; rewrite <- (app_nil_r m1) at 1; by rewrite map_set_split).
    exists start, len, []. simpl; split_and!; done || lia || (intros; mem; tauto). }
  rewrite list_get_middle. simpl in Hw2. destruct Hw2 as (Hf0 & Hl0 & Hfl & Hw2).
  setoid_rewrite mem_cons in Hd. simpl in Hd.
  destruct (Z.ltb_spec f start).
  - assert (f + l = start) by (specialize (Hd start); lia).
    assert (Forall (fun p => p.1 + p.2 < f) m1).
    { eapply Forall_impl; [by apply wf_map_elem|]. simpl. intros p. lia. }
    unfold iend. simpl. rewrite (u64_small (f + l)), (proj2 (Z.eqb_eq (f + l) start)) by lia.
    rewrite list_set_middle, list_get_next, (u64_small (l + len)) by lia.
    destruct m2 as [|[nf nl] m2]; simpl.
    { exists f, (l + len), []. simpl; split_and!; done || lia || (intros; mem; intuition lia). }
    simpl in Hw2. destruct Hw2 as (? & ? & ? & Hw2).
    assert (start + len <= nf).
    { destruct (Z.le_gt_cases (start + len) nf); [done|].
      exfalso. apply (Hd nf); [lia|]. right. mem. lia. }
    rewrite (u64_small (start + len)) by lia. destruct (Z.eqb_spec (start + len) nf).
    + rewrite list_set_middle, list_delete_next, (u64_small (l + len + nl)) by lia.
      exists f, (l + len + nl), m2. simpl; split_and!; try done; try lia.
      * eapply wf_map_weaken; [|exact Hw2]. lia.
      * intros x. mem. intuition lia.
    + exists f, (l + len), ((nf, nl) :: m2).
      simpl; split_and!; done || lia || (intros; mem; intuition lia).
  - assert (start + len <= f).
    { destruct (Z.le_gt_cases (start + len) f); [done|]. specialize (Hd f). lia. }
    rewrite (u64_small (start + len)) by lia. destruct (Z.eqb_spec (start + len) f).
    + rewrite list_delete_middle, (u64_small (len + l)), map_set_split; [|done| |lia].
      2: { destruct m2 as [|q m2]; simpl in *; lia. }
      exists start, (len + l), m2. simpl; split_and!; try done; try lia.
      * eapply wf_map_weaken; [|exact Hw2]. lia.
      * intros x. mem. intuition lia.
    + rewrite (proj2 (Z.ltb_lt (start + len) f)), map_set_split by (done || simpl; lia).
      exists start, len, ((f, l) :: m2).
      simpl; split_and!; done || lia || (intros; mem; tauto).
Qed.

Lemma insert_out_spec s start len :
  wf s -> 0 <= start -> 0 < len -> start + len < 2 ^ 64 ->
  total (m s) + len < 2 ^ 63 ->
  (forall x, start <= x < start + len -> ~ mem (m s) x) ->
  exists s' ps pl, insert_out s start len = Some (s', (ps, pl)) /\
    wf s' /\ size s' = size s + len /\
    (forall x, mem (m s') x <-> start <= x < start + len \/ mem (m s) x) /\
    In (ps, pl) (m s') /\ ps <= start /\ start + len <= ps + pl.
Proof.
  intros [Hwf Hsz Hsm] Hs Hl Hb Ht Hd.
  pose proof (total_nonneg _ _ Hwf) as Hnn.
  destruct (find_adj_split 0 (m s) start) as (m1 & m2 & E & Hf & H1 & H2); [done..|].
  assert (Hw : wf_map 0 m1 /\ wf_map (hi 0 m1) m2) by (rewrite <- wf_map_app, <- E; done).
  destruct Hw as [Hw1 Hw2].
  destruct (insert_at s start len m1 m2) as (ps & pl & m2' & -> & ? & ? & ? & ? & ? & Htot & Hm);
    try done.
  { intros x Hx ?. apply (Hd x Hx). rewrite E. mem. by right. }
  rewrite s64_small by lia.
  rewrite E in Hsz, Ht. rewrite total_app in *.
  exists (Mk (size s + len) (m1 ++ (ps, pl) :: m2')), ps, pl.
  simpl; split_and!; try lia; [done| | |].
  - apply wf_middle; done || lia.
  - intros x. rewrite E. specialize (Hm x). mem. tauto.
  - apply in_app_iff. right. by left.
Qed.

Lemma insert_spec s start len :
  wf s -> 0 <= start -> 0 < len -> start + len < 2 ^ 64 ->
  total (m s) + len < 2 ^ 63 ->
  (forall x, start <= x < start + len -> ~ mem (m s) x) ->
  exists s', insert s start len = Some s' /\ wf s' /\ size s' = size s + len /\
    (forall x, mem (m s') x <-> start <= x < start + len \/ mem (m s) x).
Proof.
  intros. destruct (insert_out_spec s start len) as (s' & ps & pl & E & ? & ? & ? & _); try done.
  exists s'. unfold insert. by rewrite E.
Qed.

(** ** erase *)

Lemma erase_at s start len m1 f l m2 :
  m s = m1 ++ (f, l) :: m2 -> wf_map 0 (m1 ++ (f, l) :: m2) ->
  find_inc (m s) start = length m1 ->
  f <= start -> 0 < len -> start + len <= f + l -> 0 <= size s -s64 len ->
  exists m', erase s start len = Some (Mk (size s -s64 len) m') /\
    wf_map 0 m' /\ total m' = total (m s) - len /\
    (forall x, mem m' x <-> mem (m s) x /\ ~ start <= x < start + len).
Proof.
  intros E Hwf Hf ? ? ? Hsz. unfold erase. rewrite Hf, E, list_get_middle.
  apply wf_map_last in Hwf as Hq. simpl in Hq. destruct Hq as (Hm1 & ? & ? & ? & Hw2).
  rewrite wf_map_app in Hwf. destruct Hwf as [Hw1 _].
  assert (Hn1 : forall x, mem m1 x -> x < f).
  { intros x Hx. unfold mem in Hx. rewrite Exists_exists in Hx. destruct Hx as (q & Hq & ?).
    rewrite Forall_forall in Hm1. specialize (Hm1 q Hq). lia. }
  assert (Hn2 : forall x, mem m2 x -> f + l < x).
  { intros x Hx. apply (wf_map_mem _ _ _ Hw2) in Hx. lia. }
  pose proof (hi_bound 0 m1 f ltac:(lia) Hm1). pose proof (hi_ge _ _ Hw1).
  pose proof (ends_lt_keys _ _ f Hw1 Hm1) as Hk1.
  rewrite (proj2 (Z.leb_le 0 _) Hsz), (proj2 (Z.leb_le f start)) by lia.
  rewrite (u64_small (start - f)), (u64_small (start - f + len)) by lia.
  rewrite (proj2 (Z.leb_le (start - f + len) l)) by lia.
  rewrite (u64_small (l - (start - f))), (u64_small (l - (start - f) - len)), (u64_small (start + len)) by lia.
  rewrite list_set_middle, list_delete_middle.
  eexists. split; [done|]. rewrite total_app. simpl.
  destruct (Z.eqb_spec (start - f) 0); simpl; destruct (Z.eqb_spec (l - (start - f) - len) 0); simpl.
  - rewrite wf_map_app, total_app. split_and!; try done; try lia.
    + eapply wf_map_weaken; [|exact Hw2]. lia.
    + intros x. specialize (Hn1 x). specialize (Hn2 x). mem. intuition lia.
  - rewrite map_set_split.
    2: { eapply Forall_impl; [exact Hk1|]. simpl. lia. }
    2: { destruct m2; simpl in *; lia. }
    rewrite wf_map_app, total_app. simpl. split_and!; try done; try lia.
    + eapply wf_map_weaken; [|exact Hw2]. lia.
    + intros x. specialize (Hn1 x). specialize (Hn2 x). mem. intuition lia.
  - rewrite wf_map_app, total_app. simpl. split_and!; try done; try lia.
    + eapply wf_map_weaken; [|exact Hw2]. lia.
    + intros x. specialize (Hn1 x). specialize (Hn2 x). mem. intuition lia.
  - change (m1 ++ (f, start - f) :: m2) with (m1 ++ [(f, start - f)] ++ m2). rewrite app_assoc.
    rewrite map_set_split.
    2: { apply Forall_app_2; [|by repeat constructor; simpl; lia].
         eapply Forall_impl; [exact Hk1|]. simpl. lia. }
    2: { destruct m2; simpl in *; lia. }
    rewrite <- app_assoc, wf_map_app, total_app. simpl. split_and!; try done; try lia.
    + eapply wf_map_weaken; [|exact Hw2]. lia.
    + intros x. specialize (Hn1 x). specialize (Hn2 x). mem. intuition lia.
Qed.

Lemma total_range lo mm start len :
  wf_map lo mm -> 0 < len -> (forall x, start <= x < start + len -> mem mm x) -> len <= total mm.
Proof.
  revert lo. induction mm as [|p mm IH]; intros lo; simpl.
  - intros _ ? H. exfalso. eapply mem_nil, (H start). lia.
  - intros (? & ? & ? & Hw) Hl Hr. pose proof (total_nonneg _ _ Hw).
    pose proof (Hr start ltac:(lia)) as Hst. rewrite mem_cons in Hst.
    destruct Hst as [Hst|Hst].
    + destruct (Z.le_gt_cases (start + len) (p.1 + p.2)); [lia|].
      specialize (Hr (p.1 + p.2) ltac:(lia)). rewrite mem_cons in Hr.
      destruct Hr as [?|Hx%(wf_map_mem _ _ _ Hw)]; lia.
    + apply (wf_map_mem _ _ _ Hw) in Hst as ?. enough (len <= total mm) by lia.
      eapply IH; [done..|]. intros x Hx. specialize (Hr x Hx). rewrite mem_cons in Hr.
      destruct Hr; [lia|done].
Qed.

(** [erase] succeeds exactly when the range is contained in the set. *)
Lemma erase_spec s start len :
  wf s -> 0 <= start -> 0 < len -> start + len < 2 ^ 64 ->
  if contains_range s start len
  then exists s', erase s start len = Some s' /\ wf s' /\ size s' = size s - len /\
    (forall x, mem (m s') x <-> mem (m s) x /\ ~ start <= x < start + len)
  else erase s start len = None.
Proof.
  intros [Hwf Hsz Hsm] Hs Hl Hb.
  pose proof (contains_range_spec 0 s start len Hwf ltac:(lia) Hs Hl Hb) as Hc.
  unfold contains_range in *.
  destruct (find_inc_split 0 (m s) start) as (m1 & m2 & E & Hf & H1 & H2); [done..|].
  rewrite Hf in *. pose proof (total_nonneg _ _ Hwf) as Hnn.
  destruct m2 as [|[f l] m2].
  { rewrite E, app_nil_r, list_get_end. unfold erase.
    rewrite Hf, E, app_nil_r, list_get_end. by destruct (0 <=? _). }
  assert (He : iend (f, l) = f + l).
  { pose proof (iend_wf _ _ Hwf ltac:(lia)) as He. rewrite E, Forall_app, Forall_cons in He. tauto. }
  assert (Hg : m s !! length m1 = Some (f, l)) by (rewrite E; apply list_get_middle).
  rewrite Hg in *. rewrite He in *. simpl in *. rewrite (u64_small (start + len)) in * by lia.
  pose proof Hwf as Hwf'. rewrite E in Hwf'.
  destruct (Z.ltb_spec start f).
  { unfold erase. rewrite Hf, Hg. destruct (0 <=? _); [|done].
    by rewrite (proj2 (Z.leb_gt f start)) by lia. }
  destruct (Z.leb_spec (f + l) start); [lia|].
  apply wf_map_last in Hwf' as Hq. simpl in Hq.
  destruct (Z.ltb_spec (f + l) (start + len)).
  - unfold erase. rewrite Hf, Hg. destruct (0 <=? _); [|done].
    rewrite (proj2 (Z.leb_le f start)) by lia.
    rewrite (u64_small (start - f)), (u64_small (start - f + len)) by lia.
    by rewrite (proj2 (Z.leb_gt (start - f + len) l)) by lia.
  - assert (len <= total (m s)).
    { apply (total_range 0 _ start); [done..|]. by apply Hc. }
    destruct (erase_at s start len m1 f l m2) as (m' & -> & ? & Htot & ?); try done.
    { rewrite s64_small; lia. }
    rewrite s64_small by lia. exists (Mk (size s - len) m').
    split_and!; simpl; try done. split; simpl; done || lia.
Qed.

(** ** Whole-set difference and disjoint union *)

Lemma mem_head lo p mm x : wf_map lo (p :: mm) -> p.1 <= x < p.1 + p.2 -> ~ mem mm x.
Proof. simpl. intros (?&?&?&Hw) ? Hx%(wf_map_mem _ _ _ Hw). lia. Qed.

Lemma erase_all_spec lo a s :
  wf s -> wf_map lo a -> 0 <= lo -> (forall x, mem a x -> mem (m s) x) ->
  exists s', erase_all s a = Some s' /\ wf s' /\ size s' = size s - total a /\
    (forall x, mem (m s') x <-> mem (m s) x /\ ~ mem a x).
Proof.
  revert lo s. induction a as [|p a IH]; intros lo s Hs Ha Hlo Hsub; simpl.
  { exists s. split_and!; try done; [lia|]. intros x. rewrite mem_nil. tauto. }
  pose proof (fun x => mem_head lo p a x Ha) as Hh. destruct Ha as (? & ? & ? & Hw).
  pose proof (erase_spec s p.1 p.2 Hs ltac:(lia) ltac:(lia) ltac:(lia)) as He.
  rewrite (proj2 (contains_range_spec 0 s p.1 p.2 (wf_intervals s Hs) ltac:(lia) ltac:(lia)
    ltac:(lia) ltac:(lia))) in He by (intros x Hx; apply Hsub; mem; by left).
  destruct He as (s1 & -> & Hs1 & Hz1 & Hm1). simpl.
  destruct (IH (p.1 + p.2 + 1) s1) as (s2 & -> & Hs2 & Hz2 & Hm2); [done..|lia| |].
  { intros x Hx. apply Hm1. split; [apply Hsub; mem; by right|].
    intros ?. by apply (Hh x). }
  exists s2. split_and!; try done; [lia|]. intros x. rewrite Hm2, Hm1, mem_cons. tauto.
Qed.

Lemma insert_all_spec lo a s :
  wf s -> wf_map lo a -> 0 <= lo -> total (m s) + total a < 2 ^ 63 ->
  (forall x, mem a x -> ~ mem (m s) x) ->
  exists s', insert_all s a = Some s' /\ wf s' /\ size s' = size s + total a /\
    (forall x, mem (m s') x <-> mem a x \/ mem (m s) x).
Proof.
  revert lo s. induction a as [|p a IH]; intros lo s Hs Ha Hlo Ht Hd; simpl.
  { exists s. split_and!; try done; [lia|]. intros x. rewrite mem_nil. tauto. }
  pose proof (fun x => mem_head lo p a x Ha) as Hh. destruct Ha as (? & ? & ? & Hw).
  simpl in Ht. pose proof (total_nonneg _ _ Hw).
  destruct (insert_spec s p.1 p.2) as (s1 & -> & Hs1 & Hz1 & Hm1); [done|lia..| |].
  { intros x Hx. apply Hd. mem. by left. }
  simpl. rewrite (wf_size _ Hs), (wf_size _ Hs1) in Hz1.
  destruct (IH (p.1 + p.2 + 1) s1) as (s2 & -> & Hs2 & Hz2 & Hm2); [done..|lia|lia| |].
  { intros x Hx. rewrite Hm1. intros [Hp|Hp].
    - by apply (Hh x).
    - apply (Hd x); [mem; by right|done]. }
  exists s2. split_and!; try done.
  - rewrite Hz2, (wf_size _ Hs), (wf_size _ Hs1). lia.
  - intros x. rewrite Hm2, Hm1, mem_cons. tauto.
Qed.

Lemma total_subset lo m1 m2 :
  wf_map lo m1 -> 0 <= lo -> wf_map 0 m2 -> total m2 < 2 ^ 63 ->
  (forall x, mem m1 x -> mem m2 x) -> total m1 <= total m2.
Proof.
  intros H1 Hlo H2 Hb Hsub.
  destruct (erase_all_spec lo m1 (Mk (total m2) m2)) as (s' & _ & Hw & Hz & _); try done.
  rewrite (wf_size _ Hw) in Hz. simpl in Hz.
  pose proof (total_nonneg _ _ (wf_intervals _ Hw)). lia.
Qed.

(** ** intersection_of *)

Section Intersection.

(** [A] bounds the result: one of the two arguments. *)
Context (A : imap) (HA : wf_map 0 A) (HAt : total A < 2 ^ 63).

(** The state of a merge: what is left of both sides and the output. *)
Record merging (la lb : Z) (pa pb : imap) (o : interval_set) : Prop := {
  mg_a : wf_map la pa;  mg_la : 0 <= la;
  mg_b : wf_map lb pb;  mg_lb : 0 <= lb;
  mg_o : wf o;
  mg_next : forall x, mem pa x -> mem pb x -> hi 0 (m o) <= x;
  mg_bound : forall x, mem (m o) x \/ (mem pa x /\ mem pb x) -> mem A x
}.

Lemma out_insert_spec o start len :
  wf o -> hi 0 (m o) <= start -> 0 < len -> start + len < 2 ^ 64 ->
  (forall x, mem (m o) x \/ start <= x < start + len -> mem A x) ->
  wf (out_insert o (start, len)) /\ hi 0 (m (out_insert o (start, len))) = start + len + 1 /\
  (forall x, mem (m (out_insert o (start, len))) x <-> mem (m o) x \/ start <= x < start + len).
Proof.
  intros [Hw Hz Hb] Hhi Hl Hm Hsub. unfold out_insert. simpl.
  assert (Hk : Forall (fun p => p.1 < start) (m o)).
  { eapply Forall_impl; [by apply wf_map_elem|]. simpl. intros q. lia. }
  pose proof (map_emplace_split (m o) [] start len Hk I) as E. rewrite app_nil_r in E.
  rewrite E, hi_app. simpl.
  assert (Hw' : wf_map 0 (m o ++ [(start, len)])).
  { rewrite wf_map_app. simpl. split_and!; done || lia. }
  assert (Hm' : forall x, mem (m o ++ [(start, len)]) x <-> mem (m o) x \/ start <= x < start + len)
    by (intros x; mem; tauto).
  pose proof (total_subset 0 _ A Hw' ltac:(lia) HA HAt ltac:(intros x; rewrite Hm'; auto)) as Ht.
  pose proof (total_nonneg _ _ Hw). rewrite total_app in Ht. simpl in Ht.
  split_and!; [|lia|done]. split; simpl; [done| |]; rewrite total_app; simpl; [wrap; lia|lia].
Qed.

Lemma merging_equal la lb p pa pb o :
  merging la lb (p :: pa) (p :: pb) o ->
  merging (p.1 + p.2 + 1) (p.1 + p.2 + 1) pa pb (out_insert o p) /\
  (forall x, mem (m (out_insert o p)) x \/ (mem pa x /\ mem pb x) <->
     mem (m o) x \/ (mem (p :: pa) x /\ mem (p :: pb) x)).
Proof.
  intros [Ha ? Hb ? Ho Hn Hbd]. destruct p as [start len].
  pose proof Ha as Ha'. pose proof Hb as Hb'. simpl in Ha', Hb'.
  destruct Ha' as (? & ? & ? & Ha'), Hb' as (_ & _ & _ & Hb').
  assert (Hnx : forall x, mem pa x -> start + len + 1 <= x)
    by (intros x Hx; by apply (wf_map_mem _ _ _ Ha')).
  destruct (out_insert_spec o start len) as (Ho' & Hh' & Hm'); try done; try lia.
  { apply Hn; mem; lia. }
  { intros x Hx. apply Hbd. mem. tauto. }
  split; [split|]; simpl; try done; try lia.
  - intros x Hx _. specialize (Hnx x Hx). simpl in Hh'. lia.
  - intros x Hx. apply Hbd. rewrite Hm' in Hx. mem. tauto.
  - intros x. rewrite Hm'. mem. specialize (Hnx x).
    assert (mem pb x -> start + len + 1 <= x) by (intros Hx; by apply (wf_map_mem _ _ _ Hb')).
    intuition lia.
Qed.

Lemma equal_run_spec la lb pa pb o pa1 pb1 o1 :
  merging la lb pa pb o -> equal_run pa pb o = (pa1, pb1, o1) ->
  (exists r, pa = r ++ pa1 /\ pb = r ++ pb1) /\
  (exists la' lb', la <= la' /\ merging la' lb' pa1 pb1 o1) /\
  (forall x, mem (m o1) x \/ (mem pa1 x /\ mem pb1 x) <-> mem (m o) x \/ (mem pa x /\ mem pb x)).
Proof.
  revert la lb pb o. induction pa as [|a pa IH]; intros la lb pb o Hi; simpl.
  { intros [= <- <- <-]. split_and!; [by exists []|by exists la, lb|done]. }
  destruct pb as [|b pb]; [|destruct (Z.eqb_spec a.1 b.1) as [E1|];
    [destruct (Z.eqb_spec a.2 b.2) as [E2|]|]]; simpl.
  2: { assert (a = b) as <- by (destruct a, b; simpl in *; by subst).
       destruct (merging_equal _ _ _ _ _ _ Hi) as [Hi' Hm'].
       intros E. destruct (IH _ _ _ _ Hi' E) as ((r & -> & ->) & (la' & lb' & ? & Hi1) & Hm1).
       split_and!; [by exists (a :: r)| |intros x; by rewrite Hm1, Hm'].
       exists la', lb'. split; [|done]. pose proof (mg_a _ _ _ _ _ Hi) as Ha. simpl in Ha. lia. }
  all: intros [= <- <- <-]; split_and!; [by exists []|by exists la, lb|done].
Qed.

(** One side's head is done with: nothing of it remains to be output. *)
Lemma merging_drop la lb pa pb pa' pb' o o' la' lb' :
  merging la lb pa pb o -> wf_map la' pa' -> la <= la' -> wf_map lb' pb' -> lb <= lb' -> wf o' ->
  (forall x, mem pa' x -> mem pb' x -> hi 0 (m o') <= x) ->
  (forall x, mem (m o') x \/ (mem pa' x /\ mem pb' x) <-> mem (m o) x \/ (mem pa x /\ mem pb x)) ->
  merging la' lb' pa' pb' o'.
Proof.
  intros [? ? ? ? ? ? Hbd] ? ? ? ? ? ? Hm. split; try done; [lia..|].
  intros x. rewrite Hm. apply Hbd.
Qed.

(** The four ways two heads can meet, each leaving a smaller merge with the
    same result. *)
Lemma merging_step la lb a al pa b bl pb o :
  merging la lb ((a, al) :: pa) ((b, bl) :: pb) o ->
  let same pa' pb' o' :=
    (exists la' lb', merging la' lb' pa' pb' o') /\
    (forall x, mem (m o') x \/ (mem pa' x /\ mem pb' x) <->
       mem (m o) x \/ (mem ((a, al) :: pa) x /\ mem ((b, bl) :: pb) x)) in
  let start := Z.max a b in let en := Z.min (a + al) (b + bl) in
  iend (a, al) = a + al /\ iend (b, bl) = b + bl /\
  (a + al <= b -> same pa ((b, bl) :: pb) o) /\
  (b + bl <= a -> same ((a, al) :: pa) pb o) /\
  (b < a + al -> a < b + bl -> start < en /\ en -u64 start = en - start /\
    let o' := out_insert o (start, en - start) in
    if b + bl <? a + al then same ((a, al) :: pa) pb o' else same pa ((b, bl) :: pb) o').
Proof.
  intros Hi same start en. pose proof Hi as [Ha ? Hb ? Ho Hn Hbd].
  pose proof Ha as Ha'. pose proof Hb as Hb'. simpl in Ha', Hb'.
  destruct Ha' as (? & ? & ? & Ha'), Hb' as (? & ? & ? & Hb').
  assert (Hna : forall x, mem pa x -> a + al + 1 <= x) by (intros x Hx; by apply (wf_map_mem _ _ _ Ha')).
  assert (Hnb : forall x, mem pb x -> b + bl + 1 <= x) by (intros x Hx; by apply (wf_map_mem _ _ _ Hb')).
  assert (Hda : forall o', wf o' -> (forall x, mem pa x -> mem ((b, bl) :: pb) x -> hi 0 (m o') <= x) ->
    (forall x, mem (m o') x \/ (mem pa x /\ mem ((b, bl) :: pb) x) <->
       mem (m o) x \/ (mem ((a, al) :: pa) x /\ mem ((b, bl) :: pb) x)) -> same pa ((b, bl) :: pb) o').
  { intros. split; [|done]. exists (a + al + 1), lb. eapply merging_drop; done || lia. }
  assert (Hdb : forall o', wf o' -> (forall x, mem ((a, al) :: pa) x -> mem pb x -> hi 0 (m o') <= x) ->
    (forall x, mem (m o') x \/ (mem ((a, al) :: pa) x /\ mem pb x) <->
       mem (m o) x \/ (mem ((a, al) :: pa) x /\ mem ((b, bl) :: pb) x)) -> same ((a, al) :: pa) pb o').
  { intros. split; [|done]. exists la, (b + bl + 1). eapply merging_drop; done || lia. }
  clearbody same. split_and!; [unfold iend; simpl; wrap; lia..| | |].
  - intros ?. apply Hda; [done| |].
    + intros x Hx. apply Hn. mem. by right.
    + intros x. specialize (Hna x). specialize (Hnb x). mem. intuition lia.
  - intros ?. apply Hdb; [done| |].
    + intros x Hx ?. apply Hn; [done|]. mem. by right.
    + intros x. specialize (Hna x). specialize (Hnb x). mem. intuition lia.
  - intros ? ?. split_and!; [lia|wrap; lia|].
    destruct (out_insert_spec o start (en - start)) as (Ho' & Hh' & Hm'); [done| |lia|lia| |].
    { apply Hn; mem; lia. }
    { intros x Hx. apply Hbd. mem. intuition lia. }
    cbv zeta. destruct (Z.ltb_spec (b + bl) (a + al)); [apply Hdb|apply Hda]; try done.
    + intros x _ Hy%Hnb. rewrite Hh'. lia.
    + intros x. rewrite Hm'. specialize (Hna x). specialize (Hnb x). mem. intuition lia.
    + intros x Hx%Hna _. rewrite Hh'. lia.
    + intros x. rewrite Hm'. specialize (Hna x). specialize (Hnb x). mem. intuition lia.
Qed.

Lemma intersection_loop_spec fuel la lb pa pb o :
  merging la lb pa pb o -> (length pa + length pb < fuel)%nat ->
  exists o', intersection_loop fuel pa pb o = Some o' /\ wf o' /\
    (forall x, mem (m o') x <-> mem (m o) x \/ (mem pa x /\ mem pb x)).
Proof.
  revert la lb pa pb o. induction fuel as [|fuel IH]; intros la lb pa pb o Hi Hf; [lia|].
  assert (Hgo : forall pa' pb' o', (length pa' + length pb' < length pa + length pb)%nat ->
    (exists la' lb', merging la' lb' pa' pb' o') /\
    (forall x, mem (m o') x \/ (mem pa' x /\ mem pb' x) <-> mem (m o) x \/ (mem pa x /\ mem pb x)) ->
    exists o2, intersection_loop fuel pa' pb' o' = Some o2 /\ wf o2 /\
      (forall x, mem (m o2) x <-> mem (m o) x \/ (mem pa x /\ mem pb x))).
  { intros pa' pb' o' Hl [(la' & lb' & Hi') Hm'].
    destruct (IH _ _ _ _ _ Hi') as (o2 & ? & ? & Hm2); [lia|].
    exists o2. split_and!; try done. intros x. by rewrite Hm2, Hm'. }
  destruct pa as [|[a al] pa].
  { exists o. split_and!; [done|apply Hi|]. intros x. rewrite mem_nil. tauto. }
  destruct pb as [|[b bl] pb].
  { exists o. split_and!; [done|apply Hi|]. intros x. rewrite (mem_nil x). tauto. }
  destruct (merging_step _ _ _ _ _ _ _ _ _ Hi) as (Hea & Heb & Hpa & Hpb & Hov).
  simpl in Hf, Hgo |- *. rewrite Hea, Heb. simpl.
  destruct (Z.leb_spec (a + al) b); [apply Hgo; simpl; [lia|auto]|].
  destruct (Z.leb_spec (b + bl) a); [apply Hgo; simpl; [lia|auto]|].
  destruct Hov as (Hlt & Hlen & Hov); [lia..|].
  destruct ((a =? b) && (al =? bl)) eqn:Heq.
  - apply andb_true_iff in Heq as [<-%Z.eqb_eq <-%Z.eqb_eq].
    destruct (merging_equal _ _ _ _ _ _ Hi) as [Hi' Hm'].
    destruct (equal_run pa pb (out_insert o (a, al))) as [[pa1 pb1] o1] eqn:E.
    destruct (equal_run_spec _ _ _ _ _ _ _ _ Hi' E) as ((r & -> & ->) & (la' & lb' & _ & Hi1) & Hm1).
    apply Hgo; [rewrite !length_app; lia|]. split; [by exists la', lb'|].
    intros x. by rewrite Hm1, Hm'.
  - rewrite (proj2 (Z.ltb_lt _ _) Hlt), Hlen.
    destruct (b + bl <? a + al); apply Hgo; simpl; auto; lia.
Qed.

(** *** The search-based walk *)

Context (l : imap) (Hl : wf_map 0 l).

(** The intervals of [l] that end after [off]. *)
Definition after (off : Z) : imap := drop (find_inc l off) l.

Lemma after_split off :
  exists l1, l = l1 ++ after off /\ Forall (fun p => p.1 + p.2 <= off) l1 /\
    match after off with [] => True | p :: _ => off < p.1 + p.2 end.
Proof.
  destruct (find_inc_split 0 l off Hl ltac:(lia)) as (l1 & l2 & E & Hf & H1 & H2).
  exists l1. unfold after. rewrite Hf, E, list_drop_middle. done.
Qed.

Lemma after_wf off : exists lo, 0 <= lo /\ wf_map lo (after off).
Proof.
  destruct (after_split off) as (l1 & E & _). rewrite E, wf_map_app in Hl. destruct Hl as [H1 H2].
  exists (hi 0 l1). split; [by apply hi_ge|done].
Qed.

(** From [off] on, [after off] is all of [l]. *)
Lemma after_mem off x : mem (after off) x -> mem l x.
Proof. destruct (after_split off) as (l1 & E & _). rewrite E. mem. auto. Qed.

Lemma after_complete off x : off <= x -> mem l x -> mem (after off) x.
Proof.
  destruct (after_split off) as (l1 & E & H1 & _). rewrite E, mem_app.
  intros Hx [Hm|Hm]; [|done]. unfold mem in Hm. rewrite Exists_exists in Hm.
  destruct Hm as (q & Hq & ?). rewrite Forall_forall in H1. specialize (H1 q Hq). lia.
Qed.

Lemma after_length off off' :
  off <= off' -> (length (after off') <= length (after off))%nat.
Proof.
  intros Ho. unfold after. rewrite !length_drop, !(find_inc_first 0) by done.
  set (f := fun p : Z * Z => off <? p.1 + p.2). set (g := fun p : Z * Z => off' <? p.1 + p.2).
  enough (find_first f l <= find_first g l)%nat by lia.
  apply find_first_mono. subst f g. intros x. simpl. rewrite !Z.ltb_lt. lia.
Qed.

Lemma after_length_lt off off' p rest :
  after off = p :: rest -> off <= off' -> p.1 + p.2 <= off' ->
  (length (after off') < length (after off))%nat.
Proof.
  intros E Ho Hp. assert (Hg : l !! find_inc l off = Some p).
  { unfold after in E. rewrite <- (Nat.add_0_r (find_inc l off)), <- lookup_drop, E. done. }
  pose proof (lookup_lt_Some _ _ _ Hg) as Hlt. unfold after.
  rewrite !length_drop, !(find_inc_first 0) in * by done.
  set (f := fun p : Z * Z => off <? p.1 + p.2) in *. set (g := fun p : Z * Z => off' <? p.1 + p.2).
  enough (find_first f l < find_first g l)%nat by lia.
  eapply find_first_mono_lt; [|exact Hg|]; subst f g; simpl.
  - intros x. rewrite !Z.ltb_lt. lia.
  - apply Z.ltb_ge. lia.
Qed.

(** The state at the top of the loop. *)
Definition walking (ps : imap) (off : Z) (o : interval_set) : Prop :=
  (exists la lb, merging la lb ps (after off) o) /\
  match ps with [] => False | p :: _ => off < p.1 + p.2 end.

Lemma skip_before_spec la ps x :
  wf_map la ps -> 0 <= la ->
  exists la' r, la <= la' /\ ps = r ++ skip_before ps x /\ wf_map la' (skip_before ps x) /\
    (forall y, x <= y -> mem ps y <-> mem (skip_before ps x) y) /\
    match skip_before ps x with [] => True | p :: _ => x < p.1 + p.2 end.
Proof.
  revert la. induction ps as [|p ps IH]; intros la Hw Hla; simpl.
  { exists la, []. split_and!; done || lia. }
  pose proof (iend_wf _ _ Hw Hla) as He. rewrite Forall_cons in He. destruct He as [-> _].
  pose proof Hw as (? & ? & ? & Hw').
  destruct (Z.leb_spec (p.1 + p.2) x).
  - destruct (IH _ Hw') as (la' & r & ? & E & ? & Hm & ?); [lia|].
    exists la', (p :: r). split_and!; try done; [lia|simpl; by rewrite <- E|].
    intros y Hy. rewrite mem_cons, Hm by done. intuition lia.
  - exists la, []. split_and!; done || lia.
Qed.

(** Restart the walk at the head of what is left of the smaller set. *)
Lemma walking_restart la lb q ps off L o :
  merging la lb (q :: ps) L o -> off <= q.1 ->
  (forall x, q.1 <= x -> mem L x <-> mem (after off) x) ->
  walking (q :: ps) q.1 o /\
  (forall x, mem (m o) x \/ (mem (q :: ps) x /\ mem (after q.1) x) <->
     mem (m o) x \/ (mem (q :: ps) x /\ mem L x)).
Proof.
  intros Hi Hoff HL. pose proof Hi as [Ha Hla Hb Hlb Ho Hn Hbd].
  assert (Hge : forall x, mem (q :: ps) x -> q.1 <= x).
  { intros x Hx. simpl in Ha. destruct Ha as (?&?&?&Ha). rewrite mem_cons in Hx.
    destruct Hx as [?|Hx%(wf_map_mem _ _ _ Ha)]; lia. }
  assert (Heq : forall x, mem (q :: ps) x -> mem (after q.1) x <-> mem L x).
  { intros x Hx%Hge. rewrite HL by done. split; intros Hm%after_mem;
      apply after_complete; done || lia. }
  split.
  - split; [|simpl in Ha; lia]. destruct (after_wf q.1) as (lo & ? & ?). exists la, lo.
    split; try done.
    + intros x Hx Hy. apply Hn; [done|]. by apply Heq.
    + intros x Hx. apply Hbd. destruct Hx as [?|[? ?]]; [auto|]. right. split; [done|]. by apply Heq.
  - intros x. specialize (Heq x). tauto.
Qed.

Lemma after_next off pl rest : after off = pl :: rest -> after (pl.1 + pl.2) = rest.
Proof.
  intros E. destruct (after_split off) as (l1 & El & H1 & H2). rewrite E in El, H2.
  pose proof Hl as Hw. rewrite El in Hw. apply wf_map_last in Hw as (_ & ? & ? & ? & Hw).
  unfold after. rewrite (find_inc_first 0) by done. rewrite El.
  change (pl :: rest) with ([pl] ++ rest). rewrite app_assoc, find_first_split.
  - apply list_drop_middle.
  - apply Forall_app_2; [|repeat constructor; apply Z.ltb_ge; lia].
    eapply Forall_impl; [exact H1|]. simpl. intros q ?. apply Z.ltb_ge. lia.
  - destruct rest as [|q rest]; [done|]. simpl in Hw. apply Z.ltb_lt. lia.
Qed.

(** Once the intervals [r] common to both sides are output, what is left of
    [L] is what lies at or after the next interval [q] of the smaller set. *)
Lemma common_prefix lo r q ps1 pb1 x :
  wf_map lo (r ++ q :: ps1) -> q.1 <= x -> mem (r ++ pb1) x -> mem pb1 x.
Proof.
  intros [Hr _]%wf_map_last Hx. rewrite mem_app. intros [Hm|?]; [|done].
  unfold mem in Hm. rewrite Exists_exists in Hm. destruct Hm as (p & Hp & ?).
  rewrite Forall_forall in Hr. specialize (Hr p Hp). lia.
Qed.

Lemma walking_skip ps off o pl rest :
  walking ps off o -> after off = pl :: rest ->
  (exists la lb, merging la lb (skip_before ps pl.1) (pl :: rest) o) /\
  (forall x, mem (skip_before ps pl.1) x /\ mem (pl :: rest) x <->
     mem ps x /\ mem (pl :: rest) x) /\
  (length (skip_before ps pl.1) <= length ps)%nat /\
  match skip_before ps pl.1 with [] => True | p :: _ => off < p.1 + p.2 /\ pl.1 < p.1 + p.2 end.
Proof.
  intros [(la & lb & Hi) Hhd] EL. rewrite EL in Hi. pose proof Hi as [Ha Hla Hb Hlb Ho Hn Hbd].
  destruct (skip_before_spec la ps pl.1 Ha Hla) as (la' & r & ? & Er & Hw & Hm & Hnx).
  assert (Hge : forall x, mem (pl :: rest) x -> pl.1 <= x).
  { intros x Hx. simpl in Hb. destruct Hb as (?&?&?&Hb). rewrite mem_cons in Hx.
    destruct Hx as [?|Hx%(wf_map_mem _ _ _ Hb)]; lia. }
  assert (Heq : forall x, mem (skip_before ps pl.1) x /\ mem (pl :: rest) x <->
    mem ps x /\ mem (pl :: rest) x).
  { intros x. specialize (Hge x). specialize (Hm x). tauto. }
  split_and!; [|done| |].
  - exists la', lb. eapply merging_drop; try done; try lia.
    + intros x Hx Hy. apply Hn; [|done]. by apply Hm; [apply Hge|].
    + intros x. rewrite Heq. done.
  - apply (f_equal length) in Er. rewrite length_app in Er. lia.
  - destruct (skip_before ps pl.1) as [|q rest']; [done|]. split; [|done].
    destruct r as [|p r]; simpl in Er; subst ps; [done|].
    apply (wf_map_last la (p :: r)) in Ha as [[? _]%Forall_cons _].
    simpl in Hw. lia.
Qed.

Lemma asym_loop_spec fuel ps off prev o :
  walking ps off o -> match prev with None => True | Some po => po < off end ->
  (length ps + length (after off) < fuel)%nat ->
  exists o', asym_loop fuel l ps off prev o = Some o' /\ wf o' /\
    (forall x, mem (m o') x <-> mem (m o) x \/ (mem ps x /\ mem (after off) x)).
Proof.
  revert ps off prev o. induction fuel as [|fuel IH]; intros ps off prev o Hwk Hprev Hf; [lia|].
  assert (Hgo : forall ps' off' o', walking ps' off' o' -> off < off' ->
    (length ps' + length (after off') < length ps + length (after off))%nat ->
    (forall x, mem (m o') x \/ (mem ps' x /\ mem (after off') x) <->
      mem (m o) x \/ (mem ps x /\ mem (after off) x)) ->
    exists o2, asym_loop fuel l ps' off' (Some off) o' = Some o2 /\ wf o2 /\
      (forall x, mem (m o2) x <-> mem (m o) x \/ (mem ps x /\ mem (after off) x))).
  { intros ps' off' o' Hw' Hlt Hlen Hm'.
    destruct (IH ps' off' (Some off) o') as (o2 & ? & ? & Hm2); [done..|lia|].
    exists o2. split_and!; try done. intros x. by rewrite Hm2, Hm'. }
  assert (Hstop : forall o', (exists la lb pa pb, merging la lb pa pb o') ->
    (forall x, mem (m o') x <-> mem (m o) x \/ (mem ps x /\ mem (after off) x)) ->
    exists o2, Some o' = Some o2 /\ wf o2 /\
      (forall x, mem (m o2) x <-> mem (m o) x \/ (mem ps x /\ mem (after off) x))).
  { intros o' (? & ? & ? & ? & Hi) Hm. exists o'. split_and!; [done|apply Hi|done]. }
  simpl. replace (match prev with Some po => po <? off | None => true end) with true
    by (destruct prev; [by rewrite (proj2 (Z.ltb_lt _ _) Hprev)|done]).
  fold (after off). destruct (after off) as [|pl rest] eqn:EL.
  { apply Hstop; [by destruct Hwk as [(la & lb & Hi) _]; eauto|].
    intros x. rewrite mem_nil. tauto. }
  destruct (walking_skip _ _ _ _ _ Hwk EL) as ((la & lb & Hi) & Hsk & Hlen & Hhd). clear Hwk.
  assert (Hpl : off < pl.1 + pl.2).
  { destruct (after_split off) as (l1 & _ & _ & H2). by rewrite EL in H2. }
  destruct (skip_before ps pl.1) as [|[a al] ps1].
  { apply Hstop; [eauto|]. intros x. rewrite <- Hsk, mem_nil. tauto. }
  destruct pl as [b bl]. simpl in Hlen, Hpl, Hhd.
  destruct (merging_step _ _ _ _ _ _ _ _ _ Hi) as (Hea & Heb & _ & _ & Hov).
  pose proof (mg_a _ _ _ _ _ Hi) as Ha.
  rewrite Hea, Heb. cbn [fst snd]. destruct (Z.leb_spec (b + bl) a).
  { (* the larger set's interval ends before the smaller's starts *)
    destruct (walking_restart _ _ _ _ off _ _ Hi) as [Hw Hm];
      [simpl; lia|intros x _; by rewrite EL|].
    apply Hgo; try done; simpl; [lia| |intros x; by rewrite Hm, <- Hsk].
    pose proof (after_length_lt off a _ _ EL). rewrite EL in *. simpl in *. lia. }
  simpl in Ha. destruct Ha as (? & ? & ? & Ha).
  destruct ((a =? b) && (al =? bl)) eqn:Heq.
  - (* a run of equal intervals *)
    apply andb_true_iff in Heq as [<-%Z.eqb_eq <-%Z.eqb_eq].
    destruct (merging_equal _ _ _ _ _ _ Hi) as [Hi' Hm'].
    destruct (equal_run ps1 rest (out_insert o (a, al))) as [[pa1 pb1] o1] eqn:E.
    destruct (equal_run_spec _ _ _ _ _ _ _ _ Hi' E) as ((r & -> & ->) & (la' & lb' & Hge & Hi1) & Hm1).
    simpl in Hge. rewrite length_app in Hlen. destruct pa1 as [|q ps2].
    { apply Hstop; [eauto|]. intros x. rewrite <- Hsk, <- Hm', <- Hm1, (mem_nil x). tauto. }
    assert (a + al < q.1) by (pose proof (mg_a _ _ _ _ _ Hi1) as Hq; simpl in Hq; lia).
    destruct (walking_restart _ _ _ _ off _ _ Hi1) as [Hw Hm]; [lia| |].
    { intros x Hx. rewrite EL. change ((a, al) :: r ++ pb1) with (((a, al) :: r) ++ pb1).
      split; [mem; auto|]. by apply (common_prefix la ((a, al) :: r) q ps2). }
    apply Hgo; try done; simpl in *; [lia| |intros x; by rewrite Hm, Hm1, Hm', <- Hsk].
    pose proof (after_length off q.1). rewrite EL in *. simpl in *. lia.
  - destruct Hov as (Hlt & Hlen' & Hov); [lia..|].
    rewrite (proj2 (Z.ltb_lt _ _) Hlt), Hlen'. cbv zeta in Hov.
    destruct (Z.leb_spec (a + al) (b + bl)).
    + (* the smaller set's interval ends first *)
      rewrite (proj2 (Z.ltb_ge (b + bl) (a + al))) in Hov by lia.
      destruct Hov as [(la' & lb' & Hi1) Hm1]. destruct ps1 as [|q ps2].
      { apply Hstop; [eauto|]. intros x. rewrite <- Hsk, <- Hm1, (mem_nil x). tauto. }
      simpl in Ha. destruct Ha as (? & _).
      destruct (walking_restart _ _ _ _ off _ _ Hi1) as [Hw Hm];
        [simpl; lia|intros x _; by rewrite EL|].
      apply Hgo; try done; simpl in *; [lia| |intros x; by rewrite Hm, Hm1, <- Hsk].
      pose proof (after_length off q.1). rewrite EL in *. simpl in *. lia.
    + (* the larger set's interval ends first *)
      rewrite (proj2 (Z.ltb_lt (b + bl) (a + al))) in Hov by lia.
      destruct Hov as [(la' & lb' & Hi1) Hm1].
      pose proof (after_next _ _ _ EL) as Hnx. simpl in Hnx.
      apply Hgo; [|lia| |intros x; by rewrite Hnx, Hm1, <- Hsk].
      * split; [exists la', lb'; by rewrite Hnx|simpl; lia].
      * rewrite Hnx. simpl. lia.
Qed.

End Intersection.

(** Well-formed sets with the same elements are equal. *)
Lemma wf_ext s t : wf s -> wf t -> (forall x, mem (m s) x <-> mem (m t) x) -> s = t.
Proof.
  intros [Hs1 Hs2 _] [Ht1 Ht2 _] H. pose proof (wf_map_ext _ _ _ _ Hs1 Ht1 H).
  destruct s, t; simpl in *; subst. done.
Qed.

Lemma wf_empty : wf empty_set.
Proof. split; simpl; lia || done. Qed.

Lemma loop_spec a b :
  wf a -> wf b ->
  exists o, intersection_loop (S (length (m a) + length (m b))) (m a) (m b) empty_set = Some o /\
    wf o /\ (forall x, mem (m o) x <-> mem (m a) x /\ mem (m b) x).
Proof.
  intros Ha Hb.
  destruct (intersection_loop_spec (m a) (wf_intervals a Ha) (wf_small a Ha)
    (S (length (m a) + length (m b))) 0 0 (m a) (m b) empty_set) as (o & ? & ? & Hm); [|lia|].
  - split; try apply wf_empty; try apply Ha; try apply Hb; simpl; try lia.
    + intros x Hx _. apply (wf_map_mem _ _ _ (wf_intervals a Ha)) in Hx. lia.
    + intros x. rewrite mem_nil. tauto.
  - exists o. split_and!; try done. intros x. rewrite Hm. simpl. rewrite mem_nil. tauto.
Qed.

Lemma asym_spec s l :
  wf s -> wf l -> m s <> [] ->
  exists o, intersection_size_asym s l = Some o /\ wf o /\
    (forall x, mem (m o) x <-> mem (m s) x /\ mem (m l) x).
Proof.
  intros Hs Hl Hne. pose proof (wf_intervals s Hs) as Hw. pose proof (wf_intervals l Hl) as Hwl.
  unfold intersection_size_asym. destruct (m s) as [|p ps] eqn:E; [done|]. rewrite <- E in *.
  pose proof Hw as Hp. rewrite E in Hp. simpl in Hp.
  assert (Hge : forall x, mem (m s) x -> p.1 <= x).
  { intros x. rewrite E, mem_cons. destruct Hp as (?&?&?&Hp).
    intros [?|Hx%(wf_map_mem _ _ _ Hp)]; lia. }
  destruct (after_wf (m l) Hwl p.1) as (lo & ? & ?).
  destruct (asym_loop_spec (m s) Hw (wf_small s Hs) (m l) Hwl (S (length (m s) + length (m l)))
    (m s) p.1 None empty_set) as (o & ? & ? & Hm).
  - split; [|rewrite E; lia]. exists 0, lo. split; try apply wf_empty; try done; simpl; try lia.
    + intros x Hx%Hge _. lia.
    + intros x. rewrite mem_nil. tauto.
  - done.
  - unfold after. rewrite length_drop. lia.
  - exists o. split_and!; try done. intros x. rewrite Hm. simpl. rewrite mem_nil.
    pose proof (after_mem (m l) Hwl p.1 x). pose proof (after_complete (m l) Hwl p.1 x).
    specialize (Hge x). tauto.
Qed.

Lemma intersection_of_spec a b :
  wf a -> wf b ->
  exists o, intersection_of a b = Some o /\ wf o /\
    (forall x, mem (m o) x <-> mem (m a) x /\ mem (m b) x).
Proof.
  intros Ha Hb. unfold intersection_of.
  assert (Hcase : forall s l, wf s -> wf l ->
    (forall x, mem (m s) x /\ mem (m l) x <-> mem (m a) x /\ mem (m b) x) ->
    exists o, (if size s =? 0 then Some empty_set
       else if 10 <=? Z.quot (size l) (size s) then intersection_size_asym s l
       else intersection_loop (S (length (m a) + length (m b))) (m a) (m b) empty_set) = Some o /\
      wf o /\ (forall x, mem (m o) x <-> mem (m a) x /\ mem (m b) x)).
  { intros s l Hs Hl Hsl. destruct (Z.eqb_spec (size s) 0) as [E|E].
    - exists empty_set. split_and!; [done|apply wf_empty|]. intros x. rewrite <- Hsl.
      rewrite (wf_size _ Hs) in E. rewrite (total_zero _ _ (wf_intervals _ Hs) E). simpl.
      rewrite mem_nil. tauto.
    - destruct (10 <=? _); [|by apply loop_spec].
      destruct (asym_spec s l) as (o & ? & ? & Hm); [done..| |].
      { intros E'. apply E. rewrite (wf_size _ Hs), E'. done. }
      exists o. split_and!; try done. intros x. by rewrite Hm. }
  destruct (size a <? size b); apply Hcase; try done. intros x. tauto.
Qed.

(** ** union_of *)

Lemma union_of_spec a b :
  wf a -> wf b -> size a + size b < 2 ^ 63 ->
  exists o, union_of a b = Some o /\ wf o /\
    (forall x, mem (m o) x <-> mem (m a) x \/ mem (m b) x).
Proof.
  intros Ha Hb Hsz. unfold union_of.
  destruct (intersection_of_spec a b Ha Hb) as (ab & -> & Hab & Hm). simpl.
  destruct (erase_all_spec 0 (m ab) a) as (s & E & Hs & Hz & Hms);
    [done|apply Hab|lia|intros x Hx; by apply Hm|].
  unfold subtract. rewrite E. simpl. pose proof (total_nonneg _ _ (wf_intervals _ Hab)).
  destruct (insert_all_spec 0 (m b) s) as (o & Eo & Ho & _ & Hmo); [done|apply Hb|lia| | |].
  - rewrite <- (wf_size _ Hs), <- (wf_size _ Hb). lia.
  - intros x Hx. rewrite Hms, Hm. tauto.
  - exists o. split_and!; try done. intros x. rewrite Hmo, Hms, Hm.
    destruct (decide (mem (m b) x)); tauto.
Qed.

(** ** subset_of *)

Lemma skip_equal_spec la lb pa pb :
  wf_map la pa -> wf_map lb pb ->
  exists r, pa = r ++ (skip_equal pa pb).1 /\ pb = r ++ (skip_equal pa pb).2.
Proof.
  revert la lb pb. induction pa as [|a pa IH]; intros la lb pb Ha Hb; simpl.
  { by exists []. }
  destruct pb as [|b pb]; [by exists []|].
  destruct ((a.1 =? b.1) && (a.2 =? b.2)) eqn:E; [|by exists []].
  apply andb_true_iff in E as [E1%Z.eqb_eq E2%Z.eqb_eq].
  assert (a = b) as <- by (destruct a, b; simpl in *; by subst).
  simpl in Ha, Hb. destruct (IH (a.1 + a.2 + 1) (a.1 + a.2 + 1) pb) as (r & Hr1 & Hr2); [tauto..|].
  exists (a :: r). simpl. by rewrite <- Hr1, <- Hr2.
Qed.

Lemma subset_common lo lb r pa pb :
  wf_map lo (r ++ pa) -> wf_map lb (r ++ pb) ->
  (forall x, mem (r ++ pa) x -> mem (r ++ pb) x) <-> (forall x, mem pa x -> mem pb x).
Proof.
  intros Ha Hb. split; intros H x Hx.
  - specialize (H x). rewrite !mem_app in H. destruct H as [Hr|?]; [by right| |done].
    rewrite wf_map_app in Ha. destruct Ha as [Ha1 Ha2].
    apply (wf_map_mem _ _ _ Ha1) in Hr. apply (wf_map_mem _ _ _ Ha2) in Hx. lia.
  - rewrite mem_app in *. destruct Hx; auto.
Qed.

Lemma subset_loop_spec fuel la lb pa pb :
  wf_map la pa -> wf_map lb pb -> 0 <= la -> 0 <= lb -> (length pa < fuel)%nat ->
  exists r, subset_loop fuel pa pb = Some r /\
    (r = true <-> (forall x, mem pa x -> mem pb x)).
Proof.
  revert la lb pa pb. induction fuel as [|fuel IH]; intros la lb pa pb Ha Hb Hla Hlb Hf; [lia|].
  destruct pa as [|a pa]; simpl.
  { exists true. split; [done|]. split; [|done]. intros _ x. by rewrite mem_nil. }
  pose proof Ha as (? & ? & ? & Ha').
  assert (Hfst : mem (a :: pa) a.1) by (mem; lia).
  assert (Hge : forall x, mem (a :: pa) x -> a.1 <= x).
  { intros x. rewrite mem_cons. intros [?|Hx%(wf_map_mem _ _ _ Ha')]; lia. }
  destruct pb as [|b0 pb0].
  { exists false. split; [done|]. split; [done|]. intros Hs. by apply Hs, mem_nil in Hfst. }
  destruct (skip_before_spec lb (b0 :: pb0) a.1 Hb Hlb) as (lb' & r0 & ? & _ & Hw & Hm & Hhd).
  assert (Hsk : (forall x, mem (a :: pa) x -> mem (b0 :: pb0) x) <->
    (forall x, mem (a :: pa) x -> mem (skip_before (b0 :: pb0) a.1) x)).
  { split; intros Hs x Hx; specialize (Hm x (Hge x Hx)); specialize (Hs x Hx); tauto. }
  setoid_rewrite Hsk. clear Hsk Hm.
  destruct (skip_before (b0 :: pb0) a.1) as [|b pb].
  { exists false. split; [done|]. split; [done|]. intros Hs. by apply Hs, mem_nil in Hfst. }
  pose proof Hw as (? & ? & ? & Hw').
  pose proof (iend_wf _ _ Ha Hla) as He. rewrite Forall_cons in He. destruct He as [Hea _].
  pose proof (iend_wf _ _ Hw ltac:(lia)) as He. rewrite Forall_cons in He. destruct He as [Heb _].
  destruct ((a.1 =? b.1) && (a.2 =? b.2)) eqn:Heq.
  { destruct (skip_equal_spec _ _ _ _ Ha' Hw') as (r & Hr1 & Hr2).
    assert (a = b) as <-.
    { apply andb_true_iff in Heq as [E1%Z.eqb_eq E2%Z.eqb_eq]. destruct a, b; simpl in *; by subst. }
    destruct (skip_equal pa pb) as [pa1 pb1]. simpl in Hr1, Hr2. subst pa pb.
    pose proof Ha' as Ha2. rewrite wf_map_app in Ha2. destruct Ha2 as [Hq Ha2]. apply hi_ge in Hq.
    pose proof Hw' as Hw2. rewrite wf_map_app in Hw2. destruct Hw2 as [_ Hw2].
    simpl in Hf. rewrite length_app in Hf.
    destruct (IH _ _ _ _ Ha2 Hw2) as (q & -> & Hiff); [lia..|].
    exists q. split; [done|]. rewrite Hiff.
    symmetry. apply (subset_common la lb' (a :: r)); done. }
  assert (Hno : forall x, b.1 + b.2 < x \/ ~ mem pb x).
  { intros x. pose proof (wf_map_mem (b.1 + b.2 + 1) pb x Hw').
    destruct (Z.lt_ge_cases (b.1 + b.2) x); [auto|]. right. intros ?. intuition lia. }
  destruct (Z.ltb_spec a.1 b.1).
  { exists false. split; [done|]. split; [done|]. intros Hs. apply Hs in Hfst.
    rewrite mem_cons in Hfst. destruct (Hno a.1); intuition lia. }
  rewrite Hea, Heb. destruct (Z.ltb_spec (b.1 + b.2) (a.1 + a.2)).
  { exists false. split; [done|]. split; [done|]. intros Hs.
    specialize (Hs (b.1 + b.2)). rewrite !mem_cons in Hs.
    destruct Hs as [?|?]; [left; lia|lia|]. destruct (Hno (b.1 + b.2)); [lia|done]. }
  simpl in Hf. destruct (IH _ _ _ _ Ha' Hw) as (q & -> & Hiff); [lia..|].
  exists q. split; [done|]. rewrite Hiff. split; intros Hs x Hx.
  - rewrite mem_cons in Hx. destruct Hx as [?|Hx]; [mem; left; lia|auto].
  - apply Hs. mem. by right.
Qed.

Lemma range_end_spec lo s :
  wf_map lo (m s) -> 0 <= lo -> m s <> [] ->
  exists e, range_end s = Some e /\ mem (m s) (e - 1) /\ (forall x, mem (m s) x -> x < e).
Proof.
  intros Hw Hlo Hne. unfold range_end.
  destruct (m s) as [|p mm _] using rev_ind; [done|]. rewrite last_snoc.
  pose proof (iend_wf _ _ Hw Hlo) as He. rewrite Forall_app, Forall_cons in He.
  destruct He as (_ & -> & _). apply wf_map_last in Hw as (Hm & ? & ? & _).
  exists (p.1 + p.2). split_and!; [done|mem; lia|].
  intros x. rewrite mem_app, mem_cons, mem_nil. intros [Hx|[?|?]]; [|lia|done].
  unfold mem in Hx. rewrite Exists_exists in Hx. destruct Hx as (q & Hq & ?).
  rewrite Forall_forall in Hm. specialize (Hm q Hq). lia.
Qed.

Lemma contains_all lo mm big :
  wf big -> wf_map lo mm -> 0 <= lo ->
  forallb (fun p => contains_range big p.1 p.2) mm = true <-> (forall x, mem mm x -> mem (m big) x).
Proof.
  intros Hb. revert lo. induction mm as [|p mm IH]; intros lo Hw Hlo; simpl.
  { split; [|done]. intros _ x. by rewrite mem_nil. }
  destruct Hw as (? & ? & ? & Hw). rewrite andb_true_iff, (IH (p.1 + p.2 + 1)) by (done || lia).
  rewrite (contains_range_spec 0) by (apply Hb || lia).
  setoid_rewrite mem_cons. split; [intros [? ?] x [?|?]; auto|intros Hs; split; auto].
Qed.

Lemma subset_of_spec s big :
  wf s -> wf big ->
  exists r, subset_of s big = Some r /\
    (r = true <-> (forall x, mem (m s) x -> mem (m big) x)).
Proof.
  intros Hs Hb. unfold subset_of. rewrite (wf_size _ Hs), (wf_size _ Hb).
  pose proof (wf_intervals _ Hs) as Hws. pose proof (wf_intervals _ Hb) as Hwb.
  destruct (Z.eqb_spec (total (m s)) 0) as [E|E].
  { exists true. split; [done|]. rewrite (total_zero _ _ Hws E).
    split; [|done]. intros _ x. by rewrite mem_nil. }
  assert (Hne : m s <> []) by (intros E'; by rewrite E' in E).
  destruct (Z.ltb_spec (total (m big)) (total (m s))).
  { exists false. split; [done|]. split; [done|]. intros Hsub.
    pose proof (total_subset 0 _ _ Hws ltac:(lia) Hwb (wf_small _ Hb) Hsub). lia. }
  pose proof (total_nonneg _ _ Hws).
  assert (Hnb : m big <> []) by (intros E'; rewrite E' in *; simpl in *; lia).
  destruct (range_end_spec 0 s) as (e & -> & He & _); [done..|].
  destruct (range_end_spec 0 big) as (eb & -> & _ & Heb); [done..|]. simpl.
  destruct (Z.ltb_spec eb e).
  { exists false. split; [done|]. split; [done|]. intros Hsub. apply Hsub, Heb in He. lia. }
  destruct (_ <? 10).
  - apply (subset_loop_spec _ 0 0); done || lia.
  - eexists. split; [done|]. by apply (contains_all 0).
Qed.

(** ** subset_of(other, start, end) and span_of *)

(** The loops insert pieces in increasing order. *)
Record filling (lp : Z) (p : imap) (o : interval_set) : Prop := {
  fl_p : wf_map lp p;  fl_lp : 0 <= lp;
  fl_o : wf o;
  fl_below : forall x, mem (m o) x -> x + 1 < lp;
  fl_total : total (m o) + total p < 2 ^ 63
}.

Lemma filling_insert lp q p o len :
  filling lp (q :: p) o -> 0 < len <= q.2 ->
  exists o', insert o q.1 len = Some o' /\ wf o' /\ total (m o') = total (m o) + len /\
    (forall x, mem (m o') x <-> q.1 <= x < q.1 + len \/ mem (m o) x) /\
    (len = q.2 -> filling (q.1 + q.2 + 1) p o').
Proof.
  intros [Hp Hlp Ho Hb Ht] Hlen. simpl in Hp, Ht. destruct Hp as (? & ? & ? & Hp).
  pose proof (total_nonneg _ _ Hp).
  destruct (insert_spec o q.1 len) as (o' & ? & Ho' & Hz & Hm); [done|lia..| |].
  { intros x Hx Hc%Hb. lia. }
  rewrite (wf_size _ Ho), (wf_size _ Ho') in Hz.
  exists o'. split_and!; try done. intros ->. split; try done; [lia| |lia].
  intros x. rewrite Hm. intros [?|?%Hb]; lia.
Qed.

Lemma subset_range_loop_spec p lp o start en :
  filling lp p o -> start <= lp -> 
  exists o', subset_range_loop p o start en = Some o' /\ wf o' /\
    (forall x, mem (m o') x <-> mem (m o) x \/ (mem p x /\ x < en)).
Proof.
  revert lp o. induction p as [|q p IH]; intros lp o Hi Hst; simpl.
  { exists o. split_and!; [done|apply Hi|]. intros x. rewrite mem_nil. tauto. }
  pose proof Hi as [Hp Hlp Ho Hb Ht].
  pose proof (iend_wf _ _ Hp Hlp) as He. rewrite Forall_cons in He. destruct He as [-> _].
  destruct Hp as (? & ? & ? & Hp).
  assert (Hn : forall x, mem p x -> q.1 + q.2 < x) by (intros x Hx%(wf_map_mem _ _ _ Hp); lia).
  rewrite (proj2 (Z.leb_le start q.1)) by lia. destruct (Z.leb_spec en q.1).
  { exists o. split_and!; try done. intros x. mem. specialize (Hn x). intuition lia. }
  destruct (Z.leb_spec en (q.1 + q.2)).
  - rewrite u64_small by lia.
    destruct (filling_insert _ _ _ _ (en - q.1) Hi) as (o' & -> & ? & _ & Hm & _); [lia|].
    exists o'. split_and!; try done. intros x. rewrite Hm. mem. specialize (Hn x). intuition lia.
  - destruct (filling_insert _ _ _ _ q.2 Hi) as (o1 & -> & ? & _ & Hm & Hi'); [lia|]. simpl.
    destruct (IH _ _ (Hi' eq_refl)) as (o' & -> & ? & Hm'); [lia|].
    exists o'. split_and!; try done. intros x. rewrite Hm', Hm. mem. intuition lia.
Qed.

Lemma empty_filling lp p : wf_map lp p -> 0 <= lp -> total p < 2 ^ 63 -> filling lp p empty_set.
Proof.
  intros. split; simpl; [done|done|apply wf_empty| |lia]. intros x. by rewrite mem_nil.
Qed.

(** The position found splits the set at [start]. *)
Lemma drop_find_inc s start :
  wf s -> exists m1 m2, m s = m1 ++ m2 /\ drop (find_inc (m s) start) (m s) = m2 /\
    wf_map (hi 0 m1) m2 /\ 0 <= hi 0 m1 /\ total m2 < 2 ^ 63 /\
    (forall x, mem (m s) x /\ start <= x <-> mem m2 x /\ start <= x) /\
    match m2 with [] => True | p :: _ => start < p.1 + p.2 end.
Proof.
  intros [Hw Hz Hb].
  destruct (find_inc_split 0 (m s) start Hw) as (m1 & m2 & E & -> & H1 & H2); [lia|].
  rewrite E in Hw, Hb |- *. rewrite wf_map_app in Hw. destruct Hw as [Hw1 Hw2].
  rewrite total_app in Hb. pose proof (total_nonneg _ _ Hw1). pose proof (hi_ge _ _ Hw1).
  exists m1, m2. split_and!; try done; try lia; [by rewrite list_drop_middle|].
  intros x. rewrite mem_app. split; [|tauto]. intros [[Hm|] ?]; [|done].
  unfold mem in Hm. rewrite Exists_exists in Hm. destruct Hm as (q & Hq & ?).
  rewrite Forall_forall in H1. specialize (H1 q Hq). lia.
Qed.

Lemma subset_range_spec other start en :
  wf other -> 0 <= start <= en -> en < 2 ^ 64 ->
  exists o, subset_range other start en = Some o /\ wf o /\
    (forall x, mem (m o) x <-> mem (m other) x /\ start <= x < en).
Proof.
  intros Hw Hse Hen. unfold subset_range. rewrite (proj2 (Z.leb_le start en)) by lia.
  destruct (Z.eqb_spec en start) as [->|Hne].
  { exists empty_set. split_and!; [done|apply wf_empty|]. intros x. simpl. rewrite mem_nil. lia. }
  destruct (drop_find_inc other start Hw) as (m1 & m2 & E & -> & Hw2 & ? & Ht & Hm & Hhd).
  destruct m2 as [|p rest].
  { exists empty_set. split_and!; [done|apply wf_empty|]. intros x. simpl. rewrite mem_nil.
    specialize (Hm x). rewrite mem_nil in Hm. intuition lia. }
  pose proof (empty_filling _ _ Hw2 ltac:(lia) Ht) as Hi.
  pose proof (iend_wf _ _ Hw2 ltac:(lia)) as He. rewrite Forall_cons in He. destruct He as [-> _].
  simpl in Hw2, Ht. destruct Hw2 as (? & ? & ? & Hw2).
  assert (Hn : forall x, mem rest x -> p.1 + p.2 < x) by (intros x Hx%(wf_map_mem _ _ _ Hw2); lia).
  destruct (Z.ltb_spec p.1 start).
  - assert (Hi' : filling start ((start, p.1 + p.2 - start) :: rest) empty_set).
    { pose proof (total_nonneg _ _ Hw2). apply empty_filling; simpl; try lia. split_and!; try lia.
      eapply wf_map_weaken; [|exact Hw2]. lia. }
    destruct (Z.leb_spec en (p.1 + p.2)); rewrite u64_small by lia.
    + destruct (filling_insert _ _ _ _ (en - start) Hi') as (o & E' & ? & _ & Hm' & _); [simpl; lia|].
      simpl in E', Hm'. rewrite E'. exists o. split_and!; try done. intros x. rewrite Hm', mem_nil.
      specialize (Hm x). specialize (Hn x). rewrite mem_cons in Hm.
      destruct (decide (start <= x)), (decide (p.1 <= x < p.1 + p.2)); intuition lia.
    + destruct (filling_insert _ _ _ _ (p.1 + p.2 - start) Hi') as (o & E' & ? & _ & Hm' & Hi2); [simpl; lia|].
      simpl in E', Hm', Hi2. rewrite E'. simpl.
      destruct (subset_range_loop_spec _ _ _ start en (Hi2 eq_refl)) as (o' & -> & ? & Hm2); [lia|].
      exists o'. split_and!; try done. intros x. rewrite Hm2, Hm', mem_nil.
      specialize (Hm x). specialize (Hn x). rewrite mem_cons in Hm.
      destruct (decide (start <= x)), (decide (p.1 <= x < p.1 + p.2)); intuition lia.
  - assert (Hi' : filling p.1 (p :: rest) empty_set).
    { apply empty_filling; simpl; try lia. split_and!; done || lia. }
    destruct (subset_range_loop_spec _ _ _ start en Hi') as (o' & -> & ? & Hm2); [lia|].
    exists o'. split_and!; try done. intros x. rewrite Hm2. simpl. rewrite mem_nil.
    specialize (Hm x). specialize (Hn x). rewrite mem_cons in *.
    destruct (decide (start <= x)), (decide (p.1 <= x < p.1 + p.2)); intuition lia.
Qed.

Lemma span_loop_spec p lp o len :
  filling lp p o -> 0 <= len < 2 ^ 64 ->
  exists o', span_loop p o len = Some o' /\ wf o' /\
    (forall x, mem (m o') x -> mem (m o) x \/ mem p x) /\
    (forall x, mem (m o) x -> mem (m o') x) /\
    (forall x y, mem (m o') x -> mem p y -> y < x -> mem (m o') y) /\
    total (m o') = total (m o) + Z.min len (total p) /\
    (total p <= len -> forall x, mem p x -> mem (m o') x).
Proof.
  revert lp o len. induction p as [|q p IH]; intros lp o len Hi Hlen; simpl.
  { exists o. split_and!; [done|apply Hi|auto|auto| |lia|].
    - intros x y _ Hy. by apply mem_nil in Hy.
    - intros _ x Hx. by apply mem_nil in Hx. }
  pose proof Hi as [Hp Hlp Ho Hb Ht]. destruct Hp as (? & ? & ? & Hp).
  assert (Hn : forall x, mem p x -> q.1 + q.2 < x) by (intros x Hx%(wf_map_mem _ _ _ Hp); lia).
  pose proof (total_nonneg _ _ Hp). destruct (Z.ltb_spec 0 len).
  2: { exists o. split_and!; [done|done|auto|auto| |lia|lia].
       intros x y Hx%Hb. rewrite mem_cons. intros [?|?%Hn]; lia. }
  destruct (Z.ltb_spec q.2 len).
  - destruct (filling_insert _ _ _ _ q.2 Hi) as (o1 & -> & ? & Ht1 & Hm & Hi'); [lia|]. simpl.
    rewrite u64_small by lia.
    destruct (IH _ _ (len - q.2) (Hi' eq_refl)) as (o' & -> & ? & Hs & Hk & Hd & Ht2 & Ha); [lia|].
    exists o'. split_and!; try done; [| | |lia|].
    + intros x Hx%Hs. rewrite mem_cons. rewrite Hm in Hx. tauto.
    + intros x Hx. apply Hk, Hm. by right.
    + intros x y Hx. rewrite mem_cons. intros [?|?] ?; [apply Hk, Hm; auto|by apply (Hd x)].
    + intros Hle x. rewrite mem_cons. intros [?|?]; [apply Hk, Hm; auto|apply Ha; [lia|done]].
  - destruct (filling_insert _ _ _ _ len Hi) as (o1 & -> & ? & Ht1 & Hm & _); [lia|].
    exists o1. split_and!; try done; [| | |lia|].
    + intros x Hx%Hm. rewrite mem_cons. intuition lia.
    + intros x Hx. apply Hm. by right.
    + intros x y Hx%Hm. rewrite mem_cons. intros [?|?%Hn] ?; apply Hm.
      * destruct Hx as [?|?%Hb]; [left|]; lia.
      * destruct Hx as [?|?%Hb]; lia.
    + intros Hle x. rewrite mem_cons. intros [?|Hx]; [apply Hm; left; lia|].
      destruct p as [|r p]; [by apply mem_nil in Hx|]. simpl in *.
      destruct Hp as (?&?&?&Hp). pose proof (total_nonneg _ _ Hp). lia.
Qed.

(** [span_of] takes the first [len] elements at or after [start]. *)
Lemma span_of_spec other start len :
  wf other -> 0 <= start -> 0 < len -> start + len < 2 ^ 64 ->
  exists o, span_of other start len = Some o /\ wf o /\
    (forall x, mem (m o) x -> mem (m other) x /\ start <= x) /\
    (forall x y, mem (m o) x -> mem (m other) y -> start <= y < x -> mem (m o) y) /\
    size o <= len /\
    (size o < len -> forall x, mem (m other) x -> start <= x -> mem (m o) x).
Proof.
  intros Hw Hst Hlen Hb. unfold span_of.
  destruct (drop_find_inc other start Hw) as (m1 & m2 & E & -> & Hw2 & ? & Ht & Hm & Hhd).
  destruct m2 as [|p rest].
  { exists empty_set. split_and!; [done|apply wf_empty|..]; simpl.
    - intros x. by rewrite mem_nil.
    - intros x y. by rewrite mem_nil.
    - lia.
    - intros _ x ? ?. apply (proj1 (Hm x)). auto. }
  pose proof (iend_wf _ _ Hw2 ltac:(lia)) as He. rewrite Forall_cons in He. destruct He as [-> _].
  simpl in Hw2, Ht. destruct Hw2 as (? & ? & ? & Hw2). pose proof (total_nonneg _ _ Hw2).
  assert (Hn : forall x, mem rest x -> p.1 + p.2 < x) by (intros x Hx%(wf_map_mem _ _ _ Hw2); lia).
  (* both branches run the loop on what is left from [start] on *)
  assert (Hrun : forall q, q.1 = Z.max p.1 start -> q.1 + q.2 = p.1 + p.2 ->
    exists o, span_loop (q :: rest) empty_set len = Some o /\ wf o /\
    (forall x, mem (m o) x -> mem (m other) x /\ start <= x) /\
    (forall x y, mem (m o) x -> mem (m other) y -> start <= y < x -> mem (m o) y) /\
    size o <= len /\
    (size o < len -> forall x, mem (m other) x -> start <= x -> mem (m o) x)).
  { intros q Hq1 Hq2.
    assert (Hi : filling q.1 (q :: rest) empty_set).
    { apply empty_filling; simpl; try lia. split_and!; try lia. eapply wf_map_weaken; [|exact Hw2]. lia. }
    assert (Hme : forall x, mem (q :: rest) x <-> mem (m other) x /\ start <= x).
    { intros x. rewrite Hm. rewrite !mem_cons. specialize (Hn x). intuition lia. }
    destruct (span_loop_spec _ _ _ len Hi) as (o & -> & Ho & Hs & _ & Hd & Ht2 & Ha); [lia|].
    simpl in Ht2, Hs. exists o. rewrite (wf_size _ Ho). split_and!; try done; [|..|lia|].
    - intros x Hx. apply Hme. destruct (Hs x Hx) as [?%mem_nil|?]; done.
    - intros x y Hx Hy ?. apply (Hd x); [done|apply Hme; split; [done|lia]|lia].
    - intros Hlt x Hx ?. apply Ha; [simpl; lia|]. by apply Hme. }
  destruct (Z.ltb_spec p.1 start).
  - rewrite (proj2 (Z.ltb_ge (p.1 + p.2) start)) by lia.
    specialize (Hrun (start, p.1 + p.2 - start) ltac:(simpl; lia) ltac:(simpl; lia)).
    simpl in Hrun. rewrite (proj2 (Z.ltb_lt 0 len)) in Hrun by lia.
    rewrite (u64_small (start + len)) by lia. destruct (Z.ltb_spec (p.1 + p.2) (start + len)).
    + rewrite (u64_small (start - p.1)), (u64_small (p.2 - (start - p.1))) by lia.
      rewrite (proj2 (Z.ltb_lt (p.1 + p.2 - start) len)) in Hrun by lia.
      replace (p.2 - (start - p.1)) with (p.1 + p.2 - start) by lia. exact Hrun.
    + rewrite (proj2 (Z.ltb_ge (p.1 + p.2 - start) len)) in Hrun by lia. exact Hrun.
  - apply (Hrun p); lia.
Qed.

(** ** The properties of the component *)

(** [insert] of a range that does not meet the set never aborts, keeps the
    set well formed, adds exactly the range, adds its length to [_size], and
    reports through [pstart]/[plen] an interval of the new set that contains
    the range. *)
Theorem insert_correct s start len :
  wf s -> 0 <= start -> 0 < len -> start + len < 2 ^ 64 -> size s + len < 2 ^ 63 ->
  (forall x, start <= x < start + len -> ~ mem (m s) x) ->
  exists s' ps pl, insert_out s start len = Some (s', (ps, pl)) /\
    wf s' /\ size s' = size s + len /\
    (forall x, mem (m s') x <-> start <= x < start + len \/ mem (m s) x) /\
    In (ps, pl) (m s') /\ ps <= start /\ start + len <= ps + pl.
Proof. intros Hs ? ? ? Hz ?. rewrite (wf_size _ Hs) in Hz. by apply insert_out_spec. Qed.

Definition sample : interval_set := Mk 15 [(5, 10); (20, 5)].

Lemma sample_wf : wf sample.
Proof. split; simpl; lia. Qed.

Lemma insert_correct_witness :
  exists s' ps pl, insert_out sample 15 5 = Some (s', (ps, pl)) /\
    wf s' /\ size s' = size sample + 5 /\
    (forall x, mem (m s') x <-> 15 <= x < 15 + 5 \/ mem (m sample) x) /\
    In (ps, pl) (m s') /\ ps <= 15 /\ 15 + 5 <= ps + pl.
Proof.
  apply (insert_correct sample 15 5); [apply sample_wf|lia|lia|lia|simpl; lia|].
  intros x Hx. simpl. rewrite !mem_cons, mem_nil. simpl. lia.
Defined.

(** [erase] of a range succeeds exactly when [contains(start, len)] holds,
    that is when every element of the range is in the set; it then removes
    exactly the range, and otherwise it hits one of its assertions. *)
Theorem erase_exact s start len :
  wf s -> 0 <= start -> 0 < len -> start + len < 2 ^ 64 ->
  (contains_range s start len = true <-> (forall x, start <= x < start + len -> mem (m s) x)) /\
  (if contains_range s start len
   then exists s', erase s start len = Some s' /\ wf s' /\ size s' = size s - len /\
     (forall x, mem (m s') x <-> mem (m s) x /\ ~ start <= x < start + len)
   else erase s start len = None).
Proof.
  intros Hs ? ? ?. split; [by apply (contains_range_spec 0); [apply Hs|..]|by apply erase_spec].
Qed.

Lemma erase_exact_witness :
  (contains_range sample 7 3 = true <-> (forall x, 7 <= x < 7 + 3 -> mem (m sample) x)) /\
  (if contains_range sample 7 3
   then exists s', erase sample 7 3 = Some s' /\ wf s' /\ size s' = size sample - 3 /\
     (forall x, mem (m s') x <-> mem (m sample) x /\ ~ 7 <= x < 7 + 3)
   else erase sample 7 3 = None).
Proof. apply (erase_exact sample 7 3); [apply sample_wf|lia|lia|lia]. Defined.

(** [intersection_of] terminates and computes the intersection whichever of
    its two algorithms the size ratio selects, and the two algorithms, the
    sequential merge and the search-based [intersection_size_asym], always
    produce the same intervals. *)
Theorem intersection_correct a b :
  wf a -> wf b -> m a <> [] ->
  (exists o, intersection_of a b = Some o /\ wf o /\
     (forall x, mem (m o) x <-> mem (m a) x /\ mem (m b) x)) /\
  intersection_size_asym a b =
    intersection_loop (S (length (m a) + length (m b))) (m a) (m b) empty_set.
Proof.
  intros Ha Hb Hne. split; [by apply intersection_of_spec|].
  destruct (asym_spec a b) as (o & -> & Ho & Hm); [done..|].
  destruct (loop_spec a b) as (o' & -> & Ho' & Hm'); [done..|].
  f_equal. apply wf_ext; [done..|]. intros x. by rewrite Hm, Hm'.
Qed.

Lemma intersection_correct_witness :
  (exists o, intersection_of sample (Mk 20 [(8, 20)]) = Some o /\ wf o /\
     (forall x, mem (m o) x <-> mem (m sample) x /\ mem (m (Mk 20 [(8, 20)])) x)) /\
  intersection_size_asym sample (Mk 20 [(8, 20)]) =
    intersection_loop (S (length (m sample) + 1)) (m sample) [(8, 20)] empty_set.
Proof.
  apply (intersection_correct sample (Mk 20 [(8, 20)])); [apply sample_wf| |done].
  split; simpl; lia.
Defined.

(** [union_of] computes the union and [subset_of] decides inclusion, for any
    two sets whose total size fits [int64_t]. *)
Theorem union_subset_correct a b :
  wf a -> wf b -> size a + size b < 2 ^ 63 ->
  (exists o, union_of a b = Some o /\ wf o /\
     (forall x, mem (m o) x <-> mem (m a) x \/ mem (m b) x)) /\
  (exists r, subset_of a b = Some r /\
     (r = true <-> (forall x, mem (m a) x -> mem (m b) x))).
Proof. intros. split; [by apply union_of_spec|by apply subset_of_spec]. Qed.

Lemma union_subset_correct_witness :
  (exists o, union_of sample (Mk 20 [(8, 20)]) = Some o /\ wf o /\
     (forall x, mem (m o) x <-> mem (m sample) x \/ mem (m (Mk 20 [(8, 20)])) x)) /\
  (exists r, subset_of sample (Mk 20 [(8, 20)]) = Some r /\
     (r = true <-> (forall x, mem (m sample) x -> mem (m (Mk 20 [(8, 20)])) x))).
Proof.
  apply (union_subset_correct sample (Mk 20 [(8, 20)])); [apply sample_wf| |simpl; lia].
  split; simpl; lia.
Defined.

(** [subset_of(other, start, end)] is the part of [other] inside
    [[start, end)], and [span_of] takes the first [len] elements at or after
    [start], skipping holes, or all of them when there are fewer. *)
Theorem slices_correct other start len :
  wf other -> 0 <= start -> 0 < len -> start + len < 2 ^ 64 ->
  (exists o, subset_range other start (start + len) = Some o /\ wf o /\
     (forall x, mem (m o) x <-> mem (m other) x /\ start <= x < start + len)) /\
  (exists o, span_of other start len = Some o /\ wf o /\
     (forall x, mem (m o) x -> mem (m other) x /\ start <= x) /\
     (forall x y, mem (m o) x -> mem (m other) y -> start <= y < x -> mem (m o) y) /\
     size o <= len /\
     (size o < len -> forall x, mem (m other) x -> start <= x -> mem (m o) x)).
Proof.
  intros. split; [apply subset_range_spec; done || lia|by apply span_of_spec].
Qed.

Lemma slices_correct_witness :
  (exists o, subset_range sample 8 (8 + 9) = Some o /\ wf o /\
     (forall x, mem (m o) x <-> mem (m sample) x /\ 8 <= x < 8 + 9)) /\
  (exists o, span_of sample 8 9 = Some o /\ wf o /\
     (forall x, mem (m o) x -> mem (m sample) x /\ 8 <= x) /\
     (forall x y, mem (m o) x -> mem (m sample) y -> 8 <= y < x -> mem (m o) y) /\
     size o <= 9 /\
     (size o < 9 -> forall x, mem (m sample) x -> 8 <= x -> mem (m o) x)).
Proof. apply (slices_correct sample 8 9); [apply sample_wf|lia|lia|lia]. Defined.

(** The example in the comment above [span_of] says
    [span_of([5~10,20~5], 8, 5) -> [8~2,20~3]]; the code returns [[8~5]], as
    [5~10] is the ten elements 5 to 14. *)
Example span_of_comment : span_of sample 8 5 = Some (Mk 5 [(8, 5)]).
Proof. reflexivity. Qed.

(** [insert] checks the range against the interval after it only when it
    starts a new interval: appending to an interval swallows the next one
    without an assertion and leaves overlapping intervals. *)
Example insert_overlap_unchecked :
  insert (Mk 7 [(0, 5); (7, 2)]) 5 5 = Some (Mk 12 [(0, 10); (7, 2)]).
Proof. reflexivity. Qed.

End IntervalSet.
