(* ===== verification/MDSTable.v ===== *)
(** * MDSTable, src/mds/MDSTable.h and MDSTable.cc

    The base class of the tables an MDS keeps in RADOS: its lifecycle, its four
    version counters, and the contexts that wait for a version to be on disk.
    What a table stores is the child class's business; the class [TableChild]
    is the virtual functions the base calls. *)

From S2P Require Import Prelude Encoding.
Import Encoding.

Module MDSTable.

Inductive tstate := STATE_UNDEF | STATE_OPENING | STATE_ACTIVE.

#[export] Instance tstate_eq_dec : EqDecision tstate.
Proof. solve_decision. Defined.

(** A context is named by a number; [None] is the null pointer. *)
Record table := MkTable {
  per_mds : bool;
  rank : Z;
  state : tstate;
  version : Z;
  committing_version : Z;
  committed_version : Z;
  projected_version : Z;
  waitfor_save : list (Z * list (option nat))
}.

(** The constructor, and [set_rank]. *)
Definition new_table (is_per_mds : bool) (r : Z) : table :=
  MkTable is_per_mds r STATE_UNDEF 0 0 0 0 [].

Definition is_active (t : table) : bool := bool_decide (state t = STATE_ACTIVE).
Definition is_undef (t : table) : bool := bool_decide (state t = STATE_UNDEF).
Definition is_opening (t : table) : bool := bool_decide (state t = STATE_OPENING).

Definition set_state (s : tstate) (t : table) : table :=
  MkTable (per_mds t) (rank t) s (version t) (committing_version t) (committed_version t)
    (projected_version t) (waitfor_save t).
Definition set_version (v : Z) (t : table) : table :=
  MkTable (per_mds t) (rank t) (state t) v (committing_version t) (committed_version t)
    (projected_version t) (waitfor_save t).
Definition set_projected (v : Z) (t : table) : table :=
  MkTable (per_mds t) (rank t) (state t) (version t) (committing_version t) (committed_version t)
    v (waitfor_save t).
Definition set_committing (v : Z) (t : table) : table :=
  MkTable (per_mds t) (rank t) (state t) (version t) v (committed_version t)
    (projected_version t) (waitfor_save t).
Definition set_committed (v : Z) (t : table) : table :=
  MkTable (per_mds t) (rank t) (state t) (version t) (committing_version t) v
    (projected_version t) (waitfor_save t).
Definition set_waiters (w : list (Z * list (option nat))) (t : table) : table :=
  MkTable (per_mds t) (rank t) (state t) (version t) (committing_version t) (committed_version t)
    (projected_version t) w.

(** [++version], [++projected_version] and [projected_version = ++version] *)
Definition inc_version (t : table) : table := set_version (version t +u64 1) t.
Definition inc_projected (t : table) : table := set_projected (projected_version t +u64 1) t.
Definition inc_both (t : table) : table :=
  let v := version t +u64 1 in set_projected v (set_version v t).
Definition force_replay_version (v : Z) (t : table) : table :=
  set_projected v (set_version v t).

(** [waitfor_save[v].push_back(c)] *)
Definition push_waiter (v : Z) (c : option nat) (t : table) : table :=
  set_waiters (map_set (waitfor_save t) v (default [] (map_find (waitfor_save t) v) ++ [c])) t.

(** What the table asks of the rest of the daemon. *)
Inductive effect :=
  | WriteFull (bl : bytes) (v : Z)   (* completes with save_2(r, v) *)
  | ReadFull                          (* completes with load_2(r, bl) *)
  | Complete (c : option nat) (r : Z)
  | HandleWriteError (r : Z)
  | Respawn
  | Damaged.

(** ** Saving *)

Class TableChild (S : Type) := {
  reset_state : Z -> S -> option S;   (* the first argument is the rank *)
  encode_state : S -> bytes;
  decode_state : bytes -> option (S * bytes)
}.

Section Child.
Context {S : Type} {child : TableChild S}.

Definition save (onfinish : option nat) (v : Z) (t : table) (s : S)
  : option (table * list effect) :=
  if (0 <? v) && (v <=? committing_version t) then
    Some (push_waiter v onfinish t, [])
  else
    assert! is_active t;
    let bl := encode_u64 (version t) ++ encode_state s in
    let t := set_committing (version t) t in
    let t := match onfinish with None => t | Some _ => push_waiter (version t) onfinish t end in
    Some (t, [WriteFull bl (version t)]).

(** [while (!waitfor_save.empty())]: take the lists of the versions up to [v]. *)
Fixpoint take_waiters (w : list (Z * list (option nat))) (v : Z)
  : list (option nat) * list (Z * list (option nat)) :=
  match w with
  | [] => ([], [])
  | (k, ls) :: w' =>
      if v <? k then ([], w)
      else let '(l, r) := take_waiters w' v in (ls ++ l, r)
  end.

Definition save_2 (r v : Z) (t : table) : table * list effect :=
  if r <? 0 then (t, [HandleWriteError r])
  else
    let '(ls, w) := take_waiters (waitfor_save t) v in
    (set_waiters w (set_committed v t), map (fun c => Complete c 0) ls).

Definition reset (t : table) (s : S) : option (table * S) :=
  s ← reset_state (rank t) s;
  Some (set_state STATE_ACTIVE t, s).

(** [shutdown()] *)
Definition shutdown (t : table) (s : S) : option (table * list effect) :=
  if is_active t then save None 0 t s else Some (t, []).

(** ** Loading *)

Definition load (t : table) : option (table * list effect) :=
  assert! is_undef t;
  Some (set_state STATE_OPENING t, [ReadFull]).

Definition EBLACKLISTED : Z := 108.

(** The decoded child state, where there is one. *)
Definition load_2 (r : Z) (bl : bytes) (onfinish : option nat) (t : table)
  : option (table * option S * list effect) :=
  assert! is_opening t;
  let t := set_state STATE_ACTIVE t in
  if r =? - EBLACKLISTED then Some (t, None, [Respawn])
  else if r <? 0 then
    (* mds->damaged() respawns, so the assert after it is not reached *)
    Some (t, None, [Damaged])
  else
    let fin := match onfinish with None => [] | Some _ => [Complete onfinish 0] end in
    match decode_u64 bl with
    | None => Some (t, None, [Damaged])
    | Some (v, p) =>
        let t := set_committed v (set_projected v (set_version v t)) in
        match decode_state p with
        | None => Some (t, None, [Damaged])
        | Some (s, _) => Some (t, Some s, fin)
        end
    end.

End Child.


(** ** The save protocol

    [save] and [save_2] are two halves of an asynchronous write.  The writes in
    flight are kept in the order they were issued, which is the order in which
    RADOS completes writes to one object; [asked] and [completed] record the
    contexts given to [save] and the contexts finished. *)

Record saving := MkSaving {
  sv_table : table;
  sv_inflight : list Z;
  sv_asked : list (option nat);
  sv_completed : list (option nat)
}.

Definition writes (e : list effect) : list Z :=
  omap (fun x => match x with WriteFull _ v => Some v | _ => None end) e.
Definition completions (e : list effect) : list (option nat) :=
  omap (fun x => match x with Complete c _ => Some c | _ => None end) e.

Section Saving.
Context {S : Type} {child : TableChild S}.

(** [LogSegment::try_to_expire] asks for a version only when it is newer than
    the committed one, which is the second premise of [saving_save]. *)
Inductive saving_step : saving -> saving -> Prop :=
  | saving_apply t fl asked done_ :
      version t + 1 < 2 ^ 64 ->
      saving_step (MkSaving t fl asked done_) (MkSaving (inc_version t) fl asked done_)
  | saving_save t fl asked done_ c need (s : S) t' e :
      save (Some c) need t s = Some (t', e) ->
      need = 0 \/ committed_version t < need ->
      saving_step (MkSaving t fl asked done_)
        (MkSaving t' (fl ++ writes e) (asked ++ [Some c]) done_)
  | saving_shutdown t fl asked done_ (s : S) t' e :
      shutdown t s = Some (t', e) ->
      saving_step (MkSaving t fl asked done_) (MkSaving t' (fl ++ writes e) asked done_)
  | saving_done t v fl asked done_ t' e :
      save_2 0 v t = (t', e) ->
      saving_step (MkSaving t (v :: fl) asked done_)
        (MkSaving t' fl asked (done_ ++ completions e)).

Definition waiting (t : table) : list (option nat) := concat (map snd (waitfor_save t)).

Fixpoint ordered (lo : Z) (l : list Z) : Prop :=
  match l with [] => True | x :: l => lo <= x /\ ordered x l end.

(** Writes complete in version order; the newest one in flight is for the
    committing version and covers every waiter, and with no write in flight
    nobody waits; every context was asked for once and is waiting or was
    completed once. *)
Record saving_ok (x : saving) : Prop := {
  so_ordered : ordered (committed_version (sv_table x)) (sv_inflight x);
  so_bound : Forall (fun f => f <= version (sv_table x)) (sv_inflight x);
  so_version : 0 <= committed_version (sv_table x) <= version (sv_table x);
  so_width : version (sv_table x) < 2 ^ 64;
  so_keys : keys_from 0 (waitfor_save (sv_table x));
  so_cover :
    match last (sv_inflight x) with
    | Some f => committing_version (sv_table x) = f /\
                Forall (fun w => w.1 <= f) (waitfor_save (sv_table x))
    | None => committing_version (sv_table x) <= committed_version (sv_table x) /\
              waitfor_save (sv_table x) = []
    end;
  so_once : sv_asked x ≡ₚ sv_completed x ++ waiting (sv_table x)
}.

Lemma push_waiter_waiting v c t lo :
  keys_from lo (waitfor_save t) -> waiting (push_waiter v c t) ≡ₚ waiting t ++ [c].
Proof.
  intros Hk. unfold waiting, push_waiter. simpl.
  destruct (map_set_find lo (waitfor_save t) v
    (default [] (map_find (waitfor_save t) v) ++ [c]) Hk) as (m1 & m2 & o & E & -> & Ho).
  rewrite map_app, concat_app. simpl.
  destruct (map_find (waitfor_save t) v) as [w|]; rewrite E; subst o;
    rewrite !map_app, !concat_app; simpl; rewrite ?app_nil_r; solve_Permutation.
Qed.

Lemma take_waiters_spec lo w v ls w' :
  keys_from lo w -> take_waiters w v = (ls, w') ->
  exists w1, w = w1 ++ w' /\ ls = concat (map snd w1) /\
    Forall (fun p => v < p.1) w'.
Proof.
  revert lo ls w'. induction w as [|[k l] w IH]; simpl; intros lo ls w' Hk Ht; simplify_eq.
  { by exists []. }
  destruct Hk as [? Hk]. destruct (Z.ltb_spec v k); simplify_eq.
  - exists []. split_and!; [done..|]. constructor; [done|].
    eapply Forall_impl; [by apply keys_from_ge|]. simpl. lia.
  - destruct (take_waiters w v) as [l' r] eqn:E. simplify_eq.
    destruct (IH _ _ _ Hk eq_refl) as (w1 & -> & -> & ?).
    by exists ((k, l) :: w1).
Qed.

Lemma ordered_snoc lo l x :
  ordered lo l -> Forall (fun f => f <= x) l -> lo <= x -> ordered lo (l ++ [x]).
Proof.
  revert lo. induction l as [|y l IH]; simpl; intros lo Ho Hf Hx; [done|].
  apply Forall_cons in Hf as [? ?]. destruct Ho as [? Ho]. auto.
Qed.

Lemma completions_complete ls : completions (map (fun c => Complete c 0) ls) = ls.
Proof. unfold completions. induction ls as [|c ls IH]; simpl; [done|]. by f_equal. Qed.

(** A write of the current version is issued, with or without a waiter. *)
Lemma saving_ok_write t fl asked cpl w asked' :
  saving_ok (MkSaving t fl asked cpl) ->
  keys_from 0 w -> Forall (fun p => p.1 <= version t) w ->
  asked' ≡ₚ cpl ++ waiting (set_waiters w t) ->
  saving_ok (MkSaving (set_waiters w (set_committing (version t) t)) (fl ++ [version t]) asked' cpl).
Proof.
  intros [? ? ? ? ? ? ?] Hk Hw Hp. simpl in *. split; simpl; auto.
  - apply ordered_snoc; [done..|lia].
  - apply Forall_app. split; [done|]. by repeat constructor.
  - rewrite last_snoc. done.
Qed.

Lemma saving_ok_keys x :
  saving_ok x -> Forall (fun p => p.1 <= version (sv_table x)) (waitfor_save (sv_table x)).
Proof.
  intros [Ho Hb Hv Hw Hk Hc _]. destruct (last (sv_inflight x)) as [f|] eqn:El.
  - destruct Hc as [_ Hc]. eapply Forall_impl; [exact Hc|]. simpl. intros p Hp.
    apply last_Some in El as [l' El]. rewrite El in Hb. apply Forall_app in Hb as [_ Hb].
    apply Forall_cons in Hb as [Hb _]. simpl in Hb. lia.
  - destruct Hc as [_ ->]. constructor.
Qed.

Lemma saving_ok_save t fl asked cpl c need (s : S) t' e :
  saving_ok (MkSaving t fl asked cpl) ->
  save (Some c) need t s = Some (t', e) -> need = 0 \/ committed_version t < need ->
  saving_ok (MkSaving t' (fl ++ writes e) (asked ++ [Some c]) cpl).
Proof.
  intros Hok Hs Hn. pose proof (saving_ok_keys _ Hok) as Hkeys. simpl in Hkeys.
  pose proof (so_keys _ Hok) as Hk0. simpl in Hk0.
  pose proof (so_version _ Hok) as Hv. simpl in Hv.
  assert (Hp : forall v, asked ++ [Some c] ≡ₚ cpl ++ waiting (push_waiter v (Some c) t)).
  { intros v. rewrite (push_waiter_waiting v (Some c) t 0 Hk0), app_assoc.
    by rewrite <- (so_once _ Hok). }
  unfold save in Hs. destruct (Z.ltb_spec 0 need); destruct (Z.leb_spec need (committing_version t));
    simpl in Hs.
  1: { simplify_eq. simpl. rewrite app_nil_r. destruct Hok as [? ? ? ? ? Hc ?]; simpl in *.
    split; simpl; auto.
    - apply map_set_keys; [done|lia].
    - destruct (last fl); [|destruct Hc; lia]. destruct Hc as [Hc ?]. split; [done|].
      apply map_set_Forall; [done|]. simpl. lia. }
  all: destruct (is_active t); simplify_eq; simpl.
  all: apply (saving_ok_write t fl asked cpl); [done| | |apply Hp].
  all: simpl; first [apply map_set_keys; [done|lia] | apply map_set_Forall; [done|simpl; lia]].
Qed.

Lemma saving_ok_done t v fl asked cpl t' e :
  saving_ok (MkSaving t (v :: fl) asked cpl) -> save_2 0 v t = (t', e) ->
  saving_ok (MkSaving t' fl asked (cpl ++ completions e)).
Proof.
  intros [Ho Hb Hv Hw Hk Hc Hp] Hs. simpl in *. unfold save_2 in Hs. simpl in Hs.
  destruct (take_waiters (waitfor_save t) v) as [ls w] eqn:E. simplify_eq.
  rewrite completions_complete. apply Forall_cons in Hb as [? Hb]. destruct Ho as [? Ho].
  destruct (take_waiters_spec 0 _ _ _ _ Hk E) as (w1 & Ew & -> & Hgt).
  rewrite Ew in Hk. apply keys_from_app in Hk as [_ Hk].
  split; simpl; auto; [lia| |].
  - destruct fl as [|f fl]; simpl in *.
    + destruct Hc as [-> Hc]. split; [lia|]. rewrite Ew in Hc.
      apply Forall_app in Hc as [_ Hc]. destruct w as [|p w]; [done|].
      apply Forall_cons in Hc as [? _]. apply Forall_cons in Hgt as [? _]. lia.
    + change (last (v :: f :: fl)) with (last (f :: fl)) in Hc.
      destruct (last (f :: fl)) as [g|] eqn:El; [|by apply last_None in El].
      destruct Hc as [? Hc]. split; [done|]. rewrite Ew in Hc. by apply Forall_app in Hc as [_ ?].
  - rewrite Hp. unfold waiting. simpl. rewrite Ew, map_app, concat_app. by rewrite app_assoc.
Qed.

Lemma saving_step_ok x y : saving_ok x -> saving_step x y -> saving_ok y.
Proof.
  intros Hok Hs. destruct Hs as [t fl asked cpl Hv| |t fl asked cpl s t' e Hs|].
  - destruct Hok as [? Hb [? ?] ? ? ? ?]; simpl in *. split; simpl; auto.
    all: rewrite u64_small by lia; try lia.
    eapply Forall_impl; [exact Hb|]. simpl. lia.
  - by eapply saving_ok_save.
  - unfold shutdown, save in Hs. simpl in Hs.
    destruct (is_active t) eqn:Ha; simplify_eq; simpl.
    + pose proof (saving_ok_keys _ Hok). destruct t as [p0 p1 p2 p3 p4 p5 p6 w].
      apply (saving_ok_write _ fl asked cpl w asked Hok); [apply Hok|done|apply Hok].
    + by rewrite app_nil_r.
  - by eapply saving_ok_done.
Qed.

(** [saving_start]: an active table after [load_2], nothing asked for yet. *)
Definition saving_start (t : table) : Prop :=
  state t = STATE_ACTIVE /\ waitfor_save t = [] /\
  0 <= committing_version t <= committed_version t /\ committed_version t <= version t < 2 ^ 64.

Lemma saving_start_ok t : saving_start t -> saving_ok (MkSaving t [] [] []).
Proof.
  intros (? & Hw & ? & ?). split; simpl; try lia; rewrite ?Hw; try done; try (by constructor); try (split; [lia|done]).
  unfold waiting. by rewrite Hw.
Qed.

(** From a freshly loaded table, whatever the interleaving of updates,
    saves, shutdowns and completed writes, the committed version never
    overtakes the table's, every context handed to [save] is still waiting or
    has been completed, exactly once, and once the last write in flight is
    done no context is left waiting. *)
Theorem save_completes_every_context t x :
  saving_start t -> rtc saving_step (MkSaving t [] [] []) x ->
  committed_version (sv_table x) <= version (sv_table x) /\
  sv_asked x ≡ₚ sv_completed x ++ waiting (sv_table x) /\
  (sv_inflight x = [] -> sv_asked x ≡ₚ sv_completed x).
Proof.
  intros Ht Hr.
  assert (Hok : saving_ok x).
  { apply saving_start_ok in Ht. remember (MkSaving t [] [] []) as x0 eqn:E. clear E.
    induction Hr; eauto using saving_step_ok. }
  pose proof (so_once _ Hok) as Hp. split_and!; [apply Hok|done|].
  intros Hi. pose proof (so_cover _ Hok) as Hc. rewrite Hi in Hc. simpl in Hc.
  destruct Hc as [_ Hc]. unfold waiting in Hp. rewrite Hc in Hp. simpl in Hp.
  by rewrite app_nil_r in Hp.
Qed.

End Saving.

(** ** Loading what was saved *)

(** What the base class relies on: the child reads back what it wrote. *)
Class TableChildLaw (S : Type) `{TableChild S} (valid : S -> Prop) : Prop :=
  decode_encode_state s r : valid s -> decode_state (encode_state s ++ r) = Some (s, r).

(** A daemon that opens the object written by [save] gets the saved state
    back and is at the saved version, with all three counters in step. *)
Lemma load_saved {S} `{TableChildLaw S valid} t (s : S) onfinish v t' bl w t0 fin :
  0 <= version t < 2 ^ 64 -> valid s ->
  save onfinish v t s = Some (t', [WriteFull bl w]) ->
  state t0 = STATE_OPENING ->
  w = version t /\
  load_2 0 bl fin t0 =
    Some (set_committed (version t) (set_projected (version t)
            (set_version (version t) (set_state STATE_ACTIVE t0))), Some s,
          match fin with None => [] | Some _ => [Complete fin 0] end).
Proof.
  intros Hv Hs Hsave Ho. unfold save in Hsave.
  destruct ((0 <? v) && (v <=? committing_version t)); [done|].
  destruct (is_active t); [|done].
  assert (bl = encode_u64 (version t) ++ encode_state s /\
          w = version t) as [-> ->] by (destruct onfinish; split; simpl in *; congruence).
  split; [done|].
  unfold load_2, is_opening. rewrite bool_decide_eq_true_2 by done.
  unfold encode_u64, decode_u64. rewrite decode_uint_small by (simpl; lia). simpl.
  rewrite <- (app_nil_r (encode_state s)). by rewrite decode_encode_state.
Qed.

(** ** Witnesses *)

#[local] Instance unit_child : TableChild unit :=
  {| reset_state _ s := Some s; encode_state _ := []; decode_state bl := Some (tt, bl) |}.

Definition example_table : table :=
  MkTable true 0 STATE_ACTIVE 5 0 5 5 [].

Lemma save_completes_every_context_witness :
  exists x, rtc saving_step (MkSaving example_table [] [] []) x /\
    sv_inflight x = [] /\ sv_asked x ≡ₚ sv_completed x /\ sv_asked x = [Some 1%nat; Some 2%nat].
Proof.
  set (x := MkSaving (MkTable true 0 STATE_ACTIVE 6 6 6 5 []) []
              [Some 1%nat; Some 2%nat] [Some 1%nat; Some 2%nat]).
  assert (R : rtc saving_step (MkSaving example_table [] [] []) x).
  { eapply rtc_l; [apply saving_apply; simpl; lia|].
    eapply rtc_l; [eapply (saving_save _ _ _ _ 1%nat 0 tt); [reflexivity|by left]|].
    eapply rtc_l; [eapply (saving_save _ _ _ _ 2%nat 6 tt); [reflexivity|right; simpl; lia]|].
    eapply rtc_l; [eapply saving_done; reflexivity|].
    apply rtc_refl. }
  exists x. split; [exact R|]. split; [reflexivity|]. split; [|reflexivity].
  apply (save_completes_every_context example_table x); [|exact R|reflexivity].
  unfold saving_start. simpl. split_and!; try done; lia.
Defined.

End MDSTable.
