(* ===== verification/TableServer.v ===== *)
(** * MDSTableServer, src/mds/MDSTableServer.cc and MDSTableServer.h

    The server half of the two-phase update of a table: a client's PREPARE is
    journalled and answered AGREE with a transaction id, then its COMMIT is
    journalled and answered ACK, or its ROLLBACK journalled.  What an update is
    is the child class's business; the class [TableServerOps] is the virtual
    functions, and [TableServerLaws] what the base class relies on.

    The messages are MMDSTableRequest (src/messages), the journal entries
    ETableServer (src/mds/events, src/mds/journal.cc). *)

From S2P Require Import Prelude Encoding MDSTable.
Import Encoding MDSTable.

Module TableServer.

(** ** Constants of src/mds/mds_table_types.h *)

Definition TABLE_ANCHOR : Z := 0.
Definition TABLE_SNAP : Z := 1.

Definition TABLESERVER_OP_QUERY : Z := 1.
Definition TABLESERVER_OP_QUERY_REPLY : Z := -2.
Definition TABLESERVER_OP_PREPARE : Z := 3.
Definition TABLESERVER_OP_AGREE : Z := -4.
Definition TABLESERVER_OP_COMMIT : Z := 5.
Definition TABLESERVER_OP_ACK : Z := -6.
Definition TABLESERVER_OP_ROLLBACK : Z := 7.
Definition TABLESERVER_OP_SERVER_UPDATE : Z := 8.
Definition TABLESERVER_OP_SERVER_READY : Z := -9.

Definition MDS_RANK_NONE : Z := -1.

(** ** Messages *)

(** MMDSTableRequest; [r_tid] is the transaction id of the message header. *)
Record request := MkReq {
  r_table : Z;
  r_op : Z;
  r_reqid : Z;
  r_tid : Z;
  r_bl : bytes
}.

Definition decode_s16 (p : bytes) : option (Z * bytes) :=
  '(v, r) ← decode_uint 2 p; Some ((v + 2 ^ 15) mod 2 ^ 16 - 2 ^ 15, r).

Definition encode_payload (r : request) : bytes :=
  encode_u16 (r_table r) ++ encode_u16 (r_op r) ++ encode_u64 (r_reqid r) ++
  encode_string (r_bl r).

(** The message is filled from the payload; the header gave it its [tid]. *)
Definition decode_payload (tid : Z) (p : bytes) : option (request * bytes) :=
  '(table, p) ← decode_u16 p;
  '(op, p) ← decode_s16 p;
  '(reqid, p) ← decode_u64 p;
  '(bl, p) ← decode_string p;
  Some (MkReq table op reqid tid bl, p).

(** mds_table_pending_t, src/mds/mdstypes.h *)
Record pending := MkPending {
  p_reqid : Z;
  p_mds : Z;
  p_tid : Z
}.

Definition encode_pending (p : pending) : bytes :=
  encode_struct 2 2 (encode_u64 (p_reqid p) ++ encode_s32 (p_mds p) ++ encode_u64 (p_tid p)).

Definition decode_pending : bytes -> option (pending * bytes) :=
  decode_struct_legacy 2 2 2 0 (fun _ p =>
    '(reqid, p) ← decode_u64 p;
    '(mds, p) ← decode_s32 p;
    '(tid, p) ← decode_u64 p;
    Some (MkPending reqid mds tid, p)).

(** ETableServer; [e_stamp] is the time of the LogEvent. *)
Record entry := MkEntry {
  e_stamp : Z * Z;
  e_table : Z;
  e_op : Z;
  e_reqid : Z;
  e_bymds : Z;
  e_mutation : bytes;
  e_tid : Z;
  e_version : Z
}.

(** The constructor; the stamp is set when the entry is submitted. *)
Definition new_entry (t o ri m ti v : Z) : entry := MkEntry (0, 0) t o ri m [] ti v.
Definition set_mutation (bl : bytes) (le : entry) : entry :=
  MkEntry (e_stamp le) (e_table le) (e_op le) (e_reqid le) (e_bymds le) bl (e_tid le) (e_version le).

Definition encode_utime (t : Z * Z) : bytes := encode_u32 t.1 ++ encode_u32 t.2.
Definition decode_utime (p : bytes) : option ((Z * Z) * bytes) :=
  '(sec, p) ← decode_u32 p; '(nsec, p) ← decode_u32 p; Some ((sec, nsec), p).

Definition encode_entry (le : entry) : bytes :=
  encode_struct 3 3
    (encode_utime (e_stamp le) ++ encode_u16 (e_table le) ++ encode_u16 (e_op le) ++
     encode_u64 (e_reqid le) ++ encode_s32 (e_bymds le) ++ encode_string (e_mutation le) ++
     encode_u64 (e_tid le) ++ encode_u64 (e_version le)).

(** [stamp] is what the LogEvent had before. *)
Definition decode_entry (stamp : Z * Z) : bytes -> option (entry * bytes) :=
  decode_struct_legacy 3 3 3 0 (fun struct_v p =>
    '(stamp, p) ← (if 2 <=? struct_v then decode_utime p else Some (stamp, p));
    '(table, p) ← decode_u16 p;
    '(op, p) ← decode_s16 p;
    '(reqid, p) ← decode_u64 p;
    '(bymds, p) ← decode_s32 p;
    '(mutation, p) ← decode_string p;
    '(tid, p) ← decode_u64 p;
    '(version, p) ← decode_u64 p;
    Some (MkEntry stamp table op reqid bymds mutation tid version, p)).

(** What runs when an entry is on disk. *)
Inductive completion :=
  | C_Prepare (from : Z) (req : request) (tid : Z)
  | C_Commit (from : Z) (req : request).

Inductive effect :=
  | Send (to : Z) (m : request)
  | Submit (le : entry) (fin : option completion)
  | Flush.

(** ** The virtual functions *)

Class TableServerOps (S : Type) := {
  _prepare : bytes -> Z -> Z -> table * S -> option (bytes * (table * S));
  _commit : Z -> option request -> table * S -> option (bool * (table * S));
  _rollback : Z -> table * S -> option (table * S);
  _server_update : bytes -> table * S -> option (table * S);
  handle_query : Z -> request -> table * S -> option (table * S * list effect);
  reset_server_state : S -> option S;
  encode_server_state : S -> bytes;
  decode_server_state : bytes -> option (S * bytes)
}.

Record server (S : Type) := MkServer {
  tab : Z;
  base : table;
  st : S;
  pending_for_mds : list (Z * pending)
}.
#[global] Arguments MkServer {S}.
#[global] Arguments tab {S}.
#[global] Arguments base {S}.
#[global] Arguments st {S}.
#[global] Arguments pending_for_mds {S}.

Section Server.
Context {S : Type} {ops : TableServerOps S}.
(** [mds_kill_mdstable_at], a point at which tests make the daemon abort *)
Context (kill_at : Z).

Implicit Types (sv : server S) (req : request).

Definition sversion (sv : server S) : Z := version (base sv).

Definition with_state (ts : table * S) (sv : server S) : server S :=
  MkServer (tab sv) ts.1 ts.2 (pending_for_mds sv).
Definition with_pending (p : list (Z * pending)) (sv : server S) : server S :=
  MkServer (tab sv) (base sv) (st sv) p.

Definition _note_prepare (mds reqid : Z) (sv : server S) : server S :=
  with_pending (map_set (pending_for_mds sv) (sversion sv) (MkPending reqid mds (sversion sv))) sv.
Definition _note_commit (tid : Z) (sv : server S) : server S :=
  with_pending (map_erase (pending_for_mds sv) tid) sv.
Definition _note_rollback (tid : Z) (sv : server S) : server S :=
  with_pending (map_erase (pending_for_mds sv) tid) sv.

(** ** Requests *)

Definition handle_prepare (from : Z) (req : request) (sv : server S)
  : option (server S * list effect) :=
  '(bl, ts) ← _prepare (r_bl req) (r_reqid req) from (base sv, st sv);
  let sv := _note_prepare from (r_reqid req) (with_state ts sv) in
  assert! negb (kill_at =? 1);
  let le := new_entry (tab sv) TABLESERVER_OP_PREPARE (r_reqid req) from (sversion sv) (sversion sv) in
  (* the request's buffer now holds the reply; the entry has the original *)
  let req' := MkReq (r_table req) (r_op req) (r_reqid req) (r_tid req) bl in
  Some (sv, [Submit (set_mutation (r_bl req) le) (Some (C_Prepare from req' (sversion sv))); Flush]).

Definition _prepare_logged (from : Z) (req : request) (tid : Z) (sv : server S)
  : option (list effect) :=
  assert! negb (kill_at =? 2);
  Some [Send from (MkReq (tab sv) TABLESERVER_OP_AGREE (r_reqid req) tid (r_bl req))].

Definition _commit_logged (from : Z) (req : request) (sv : server S) : option (list effect) :=
  assert! negb (kill_at =? 6);
  Some [Send from (MkReq (tab sv) TABLESERVER_OP_ACK (r_reqid req) (r_tid req) [])].

Definition handle_commit (from : Z) (req : request) (sv : server S)
  : option (server S * list effect) :=
  let tid := r_tid req in
  match map_find (pending_for_mds sv) tid with
  | Some _ =>
      assert! negb (kill_at =? 5);
      '(ok, ts) ← _commit tid (Some req) (base sv, st sv);
      let sv := with_state ts sv in
      if negb ok then Some (sv, [])
      else
        let sv := _note_commit tid sv in
        Some (sv, [Submit (new_entry (tab sv) TABLESERVER_OP_COMMIT 0 MDS_RANK_NONE tid (sversion sv))
                     (Some (C_Commit from req))])
  | None =>
      if tid <=? sversion sv then e ← _commit_logged from req sv; Some (sv, e)
      else None
  end.

Definition handle_rollback (req : request) (sv : server S) : option (server S * list effect) :=
  let tid := r_tid req in
  match map_find (pending_for_mds sv) tid with
  | Some _ =>
      ts ← _rollback tid (base sv, st sv);
      let sv := _note_rollback tid (with_state ts sv) in
      Some (sv, [Submit (new_entry (tab sv) TABLESERVER_OP_ROLLBACK 0 MDS_RANK_NONE tid (sversion sv)) None])
  | None => None
  end.

Definition handle_request (from : Z) (req : request) (sv : server S)
  : option (server S * list effect) :=
  assert! 0 <=? r_op req;
  if r_op req =? TABLESERVER_OP_QUERY then
    '(ts, e) ← handle_query from req (base sv, st sv); Some (with_state ts sv, e)
  else if r_op req =? TABLESERVER_OP_PREPARE then handle_prepare from req sv
  else if r_op req =? TABLESERVER_OP_COMMIT then handle_commit from req sv
  else if r_op req =? TABLESERVER_OP_ROLLBACK then handle_rollback req sv
  else None.

Definition do_server_update (bl : bytes) (sv : server S) : option (server S * list effect) :=
  ts ← _server_update bl (base sv, st sv);
  let sv := with_state ts sv in
  let le := new_entry (tab sv) TABLESERVER_OP_SERVER_UPDATE 0 MDS_RANK_NONE 0 (sversion sv) in
  Some (sv, [Submit (set_mutation bl le) None]).

(** What runs when the entry is on disk: [C_Prepare::finish], [C_Commit::finish]. *)
Definition finish (c : completion) (sv : server S) : option (list effect) :=
  match c with
  | C_Prepare from req tid => _prepare_logged from req tid sv
  | C_Commit from req => _commit_logged from req sv
  end.

(** ** Recovery of a rank *)

(** The loop over [pending_for_mds]: [next_reqid] and the AGREEs. *)
Fixpoint resend_agrees (t who : Z) (ps : list (Z * pending)) (next_reqid : Z) : Z * list effect :=
  match ps with
  | [] => (next_reqid, [])
  | (_, p) :: ps =>
      if negb (p_mds p =? who) then resend_agrees t who ps next_reqid
      else
        let next := if next_reqid <=? p_reqid p then p_reqid p +u64 1 else next_reqid in
        let '(next, e) := resend_agrees t who ps next in
        (next, Send who (MkReq t TABLESERVER_OP_AGREE (p_reqid p) (p_tid p) []) :: e)
  end.

Definition handle_mds_recovery (who : Z) (sv : server S) : list effect :=
  let '(next_reqid, e) := resend_agrees (tab sv) who (pending_for_mds sv) 0 in
  e ++ [Send who (MkReq (tab sv) TABLESERVER_OP_SERVER_READY next_reqid 0 [])].

(** [active] is a set of ranks, in order. *)
Definition finish_recovery (active : list Z) (sv : server S) : list effect :=
  concat (map (fun who => handle_mds_recovery who sv) active).

(** ** Replay *)

(** [ETableServer::replay]; [tablev] is the versions of the tables that the
    entry's log segment holds, which [update_segment] sets.  The server is the
    one [MDSRank::get_table_server] answers for TABLE_SNAP. *)
Definition replay (le : entry) (ts : list (Z * Z) * server S) : option (list (Z * Z) * server S) :=
  let '(tablev, sv) := ts in
  if e_table le =? TABLE_ANCHOR then Some ts
  else if negb (e_table le =? TABLE_SNAP) then None
  else if e_version le <=? sversion sv then Some ts
  else
    assert! e_version le -u64 1 =? sversion sv;
    sv ←
      (if e_op le =? TABLESERVER_OP_PREPARE then
         '(_, s) ← _prepare (e_mutation le) (e_reqid le) (e_bymds le) (base sv, st sv);
         Some (_note_prepare (e_bymds le) (e_reqid le) (with_state s sv))
       else if e_op le =? TABLESERVER_OP_COMMIT then
         '(_, s) ← _commit (e_tid le) None (base sv, st sv);
         Some (_note_commit (e_tid le) (with_state s sv))
       else if e_op le =? TABLESERVER_OP_ROLLBACK then
         s ← _rollback (e_tid le) (base sv, st sv);
         Some (_note_rollback (e_tid le) (with_state s sv))
       else if e_op le =? TABLESERVER_OP_SERVER_UPDATE then
         s ← _server_update (e_mutation le) (base sv, st sv);
         Some (with_state s sv)
       else None);
    assert! e_version le =? sversion sv;
    Some (map_set tablev (e_table le) (e_version le), sv).

Fixpoint replay_all (l : list entry) (ts : list (Z * Z) * server S)
  : option (list (Z * Z) * server S) :=
  match l with
  | [] => Some ts
  | le :: l => ts ← replay le ts; replay_all l ts
  end.

(** ** Saving: the child's state, then [pending_for_mds] *)

#[export] Instance server_child : TableChild (S * list (Z * pending)) := {
  reset_state _ s := s' ← reset_server_state s.1; Some (s', s.2);
  encode_state s := encode_server_state s.1 ++ encode_map encode_u64 encode_pending s.2;
  decode_state p :=
    '(s, p) ← decode_server_state p;
    '(l, p) ← decode_map decode_u64 decode_pending p;
    Some ((s, l), p)
}.

End Server.

(** ** What the base class relies on

    [ok v s] is the child's invariant at table version [v], [prepared s tid]
    says that an update is prepared under [tid], [storable] that the state fits
    its encoding.  States that [≡] relates differ in what is not saved. *)
Class TableServerLaws (S : Type) {ops : TableServerOps S} {eqv : Equiv S} := {
  ok : Z -> S -> Prop;
  prepared : S -> Z -> bool;
  valid_mutation : bytes -> Prop;
  valid_update : bytes -> Prop;
  storable : S -> Prop;
  law_range v s x : ok v s -> prepared s x = true -> 0 < x <= v;
  law_prepare bl reqid m t s bl' t' s' :
    ok (version t) s -> version t + 1 < 2 ^ 64 ->
    _prepare bl reqid m (t, s) = Some (bl', (t', s')) ->
    t' = inc_version t /\ ok (version t + 1) s' /\
    forall x, prepared s' x = (x =? version t + 1) || prepared s x;
  law_prepare_total bl reqid m ts : valid_mutation bl -> is_Some (_prepare bl reqid m ts);
  law_commit tid t s :
    ok (version t) s -> version t + 1 < 2 ^ 64 -> prepared s tid = true ->
    exists s', (forall req, _commit tid req (t, s) = Some (true, (inc_version t, s'))) /\
      ok (version t + 1) s' /\ forall x, prepared s' x = negb (x =? tid) && prepared s x;
  law_rollback tid t s :
    ok (version t) s -> version t + 1 < 2 ^ 64 -> prepared s tid = true ->
    exists s', _rollback tid (t, s) = Some (inc_version t, s') /\
      ok (version t + 1) s' /\ forall x, prepared s' x = negb (x =? tid) && prepared s x;
  law_update bl t s t' s' :
    ok (version t) s -> version t + 1 < 2 ^ 64 -> _server_update bl (t, s) = Some (t', s') ->
    t' = inc_version t /\ ok (version t + 1) s' /\ forall x, prepared s' x = prepared s x;
  law_update_total bl ts : valid_update bl -> is_Some (_server_update bl ts);
  law_query from req ts ts' e : handle_query from req ts = Some (ts', e) -> ts' = ts /\ e = [];
  law_equiv : Equivalence (≡@{S});
  law_prepare_equiv bl reqid m t1 t2 s1 s2 bl' t' s' :
    version t1 = version t2 -> s1 ≡ s2 -> _prepare bl reqid m (t1, s1) = Some (bl', (t', s')) -> t' = inc_version t1 /\
    exists s2', _prepare bl reqid m (t2, s2) = Some (bl', (inc_version t2, s2')) /\ s' ≡ s2';
  law_commit_equiv tid req t1 t2 s1 s2 b t' s' :
    version t1 = version t2 -> s1 ≡ s2 -> _commit tid req (t1, s1) = Some (b, (t', s')) -> t' = inc_version t1 /\
    exists s2', _commit tid req (t2, s2) = Some (b, (inc_version t2, s2')) /\ s' ≡ s2';
  law_rollback_equiv tid t1 t2 s1 s2 t' s' :
    version t1 = version t2 -> s1 ≡ s2 -> _rollback tid (t1, s1) = Some (t', s') -> t' = inc_version t1 /\
    exists s2', _rollback tid (t2, s2) = Some (inc_version t2, s2') /\ s' ≡ s2';
  law_update_equiv bl t1 t2 s1 s2 t' s' :
    version t1 = version t2 -> s1 ≡ s2 -> _server_update bl (t1, s1) = Some (t', s') -> t' = inc_version t1 /\
    exists s2', _server_update bl (t2, s2) = Some (inc_version t2, s2') /\ s' ≡ s2';
  law_storable s rest : storable s ->
    exists s', decode_server_state (encode_server_state s ++ rest) = Some (s', rest) /\ s ≡ s'
}.
End TableServer.

Module ServerFacts.
Import TableServer.

Section Facts.
Context {S : Type} {ops : TableServerOps S} {eqv : Equiv S} {laws : TableServerLaws S}.

Definition has {V} (m : list (Z * V)) (k : Z) : bool :=
  match map_find m k with Some _ => true | None => false end.

(** The server's invariant: what it has noted for the ranks is what the child
    has prepared. *)
Record server_ok (sv : server S) : Prop := {
  so_tab : tab sv = TABLE_SNAP;
  so_child : ok (sversion sv) (st sv);
  so_version : 0 <= sversion sv < 2 ^ 64;
  so_keys : keys_from 1 (pending_for_mds sv);
  so_prepared x : has (pending_for_mds sv) x = prepared (st sv) x;
  so_tid x p : map_find (pending_for_mds sv) x = Some p -> p_tid p = x
}.

Lemma has_set {V} lo (m : list (Z * V)) k v x :
  keys_from lo m -> has (map_set m k v) x = (x =? k) || has m x.
Proof. intros H. unfold has. rewrite (map_find_set lo) by done. by destruct (x =? k). Qed.

Lemma has_erase {V} lo (m : list (Z * V)) k x :
  keys_from lo m -> has (map_erase m k) x = negb (x =? k) && has m x.
Proof. intros H. unfold has. rewrite (map_find_erase lo) by done. by destruct (x =? k). Qed.

Lemma inc_version_small t : 0 <= version t -> version t + 1 < 2 ^ 64 ->
  version (inc_version t) = version t + 1.
Proof. intros. simpl. wrap. done. Qed.

(** The three changes of state: an update is prepared, a prepared one removed,
    or the child alone changes. *)
Lemma note_ok sv s' reqid m :
  server_ok sv -> sversion sv + 1 < 2 ^ 64 -> ok (sversion sv + 1) s' ->
  (forall x, prepared s' x = (x =? sversion sv + 1) || prepared (st sv) x) ->
  server_ok (_note_prepare m reqid (with_state (inc_version (base sv), s') sv)).
Proof.
  intros [? ? ? Hk Hp Ht] Hv Hok Hs. unfold sversion in *.
  split; unfold sversion; cbn [_note_prepare with_pending with_state tab base st pending_for_mds fst snd];
    unfold sversion; cbn [with_state base fst]; rewrite ?inc_version_small by lia; [done|done|lia|..].
  - apply map_set_keys; [done|lia].
  - intros x. by rewrite (has_set 1), Hp, Hs.
  - intros x p. rewrite (map_find_set 1) by done. destruct (Z.eqb_spec x (version (base sv) + 1)).
    + intros [= <-]. done.
    + apply Ht.
Qed.

Lemma erase_ok sv s' tid :
  server_ok sv -> sversion sv + 1 < 2 ^ 64 -> ok (sversion sv + 1) s' ->
  (forall x, prepared s' x = negb (x =? tid) && prepared (st sv) x) ->
  server_ok (with_pending (map_erase (pending_for_mds sv) tid)
               (with_state (inc_version (base sv), s') sv)).
Proof.
  intros [? ? ? Hk Hp Ht] Hv Hok Hs. unfold sversion in *.
  split; unfold sversion; cbn [with_pending with_state tab base st pending_for_mds fst snd];
    rewrite ?inc_version_small by lia; [done|done|lia|..].
  - by apply map_erase_keys.
  - intros x. by rewrite (has_erase 1), Hp, Hs.
  - intros x p. rewrite (map_find_erase 1) by done. destruct (x =? tid); [done|]. apply Ht.
Qed.

Lemma update_ok sv s' :
  server_ok sv -> sversion sv + 1 < 2 ^ 64 -> ok (sversion sv + 1) s' ->
  (forall x, prepared s' x = prepared (st sv) x) ->
  server_ok (with_state (inc_version (base sv), s') sv).
Proof.
  intros [? ? ? Hk Hp Ht] Hv Hok Hs. unfold sversion in *.
  split; unfold sversion; cbn [with_state tab base st pending_for_mds fst snd];
    rewrite ?inc_version_small by lia; [done|done|lia|done| |done].
  intros x. by rewrite Hs.
Qed.

Lemma has_find {V} (m : list (Z * V)) k v : map_find m k = Some v -> has m k = true.
Proof. intros E. unfold has. by rewrite E. Qed.

(** ** Operations and their journal *)

Inductive op := ORequest (from : Z) (req : request) | OUpdate (bl : bytes).

(** The kill points are off. *)
Definition apply (o : op) (sv : server S) : option (server S * list effect) :=
  match o with
  | ORequest from req => handle_request 0 from req sv
  | OUpdate bl => do_server_update bl sv
  end.

Definition logged (e : list effect) : list entry :=
  omap (fun x => match x with Submit le _ => Some le | _ => None end) e.

Fixpoint run (l : list op) (sv : server S) : option (server S * list entry) :=
  match l with
  | [] => Some (sv, [])
  | o :: l => '(sv, e) ← apply o sv; '(sv, j) ← run l sv; Some (sv, logged e ++ j)
  end.

(** The entry of a step that takes the server from [sv] to [sv']. *)
Definition records (le : entry) (sv sv' : server S) : Prop :=
  e_version le = sversion sv + 1 /\ sversion sv' = sversion sv + 1 /\
  forall tablev, replay le (tablev, sv) =
    Some (map_set tablev TABLE_SNAP (e_version le), sv').

Lemma replay_step le tablev sv :
  server_ok sv -> e_table le = TABLE_SNAP -> e_version le = sversion sv + 1 ->
  sversion sv + 1 < 2 ^ 64 ->
  replay le (tablev, sv) =
    (sv ←
      (if e_op le =? TABLESERVER_OP_PREPARE then
         '(_, s) ← _prepare (e_mutation le) (e_reqid le) (e_bymds le) (base sv, st sv);
         Some (_note_prepare (e_bymds le) (e_reqid le) (with_state s sv))
       else if e_op le =? TABLESERVER_OP_COMMIT then
         '(_, s) ← _commit (e_tid le) None (base sv, st sv);
         Some (_note_commit (e_tid le) (with_state s sv))
       else if e_op le =? TABLESERVER_OP_ROLLBACK then
         s ← _rollback (e_tid le) (base sv, st sv);
         Some (_note_rollback (e_tid le) (with_state s sv))
       else if e_op le =? TABLESERVER_OP_SERVER_UPDATE then
         s ← _server_update (e_mutation le) (base sv, st sv);
         Some (with_state s sv)
       else None);
     if e_version le =? sversion sv then Some (map_set tablev (e_table le) (e_version le), sv)
     else None).
Proof.
  intros Hok Ht Hv Hb. pose proof (so_version _ Hok). unfold replay. rewrite Ht. simpl.
  rewrite (proj2 (Z.leb_gt _ _)) by lia. rewrite Hv at 1. wrap.
  replace (sversion sv + 1 - 1) with (sversion sv) by lia. by rewrite Z.eqb_refl.
Qed.

Definition prepare_entry (sv : server S) (from : Z) (req : request) : entry :=
  MkEntry (0, 0) TABLE_SNAP TABLESERVER_OP_PREPARE (r_reqid req) from (r_bl req)
    (sversion sv + 1) (sversion sv + 1).
Definition tid_entry (sv : server S) (o tid : Z) : entry :=
  MkEntry (0, 0) TABLE_SNAP o 0 MDS_RANK_NONE [] tid (sversion sv + 1).

Ltac step_fields :=
  unfold _note_prepare, _note_commit, _note_rollback, sversion;
  cbn [with_pending with_state tab base st pending_for_mds fst snd].

Lemma handle_prepare_spec sv from req sv' e :
  server_ok sv -> sversion sv + 1 < 2 ^ 64 -> handle_prepare 0 from req sv = Some (sv', e) ->
  exists bl,
    e = [Submit (prepare_entry sv from req)
           (Some (C_Prepare from (MkReq (r_table req) (r_op req) (r_reqid req) (r_tid req) bl)
                    (sversion sv + 1))); Flush] /\
    pending_for_mds sv' = map_set (pending_for_mds sv) (sversion sv + 1)
                            (MkPending (r_reqid req) from (sversion sv + 1)) /\
    server_ok sv' /\ records (prepare_entry sv from req) sv sv'.
Proof.
  intros Hok Hv H. unfold handle_prepare in H.
  destruct (_prepare (r_bl req) (r_reqid req) from (base sv, st sv)) as [[bl [t' s']]|] eqn:E; [|done].
  destruct (law_prepare _ _ _ _ _ _ _ _ (so_child _ Hok) Hv E) as (-> & Hs & Hp).
  pose proof (so_version _ Hok) as Hr. unfold sversion in Hr, Hv.
  pose proof (note_ok sv s' (r_reqid req) from Hok Hv Hs Hp) as Hok'.
  simpl in H. injection H as H <-. rewrite <- H in *. clear H sv'.
  assert (Hver : sversion (_note_prepare from (r_reqid req) (with_state (inc_version (base sv), s') sv))
                 = sversion sv + 1) by (step_fields; apply inc_version_small; lia).
  exists bl. split_and!; [|step_fields; by rewrite inc_version_small by lia|done|].
  - rewrite Hver. do 2 f_equal. unfold prepare_entry, set_mutation, new_entry. simpl.
    by rewrite (so_tab _ Hok).
  - split_and!; [done|done|]. intros tablev. rewrite replay_step by done.
    cbn [prepare_entry e_op e_mutation e_reqid e_bymds e_version e_table]. rewrite E. cbn [Z.eqb Pos.eqb TABLESERVER_OP_PREPARE]. obind.
    rewrite Hver, Z.eqb_refl. done.
Qed.

Lemma handle_commit_spec sv from req p :
  server_ok sv -> sversion sv + 1 < 2 ^ 64 -> map_find (pending_for_mds sv) (r_tid req) = Some p ->
  exists sv', handle_commit 0 from req sv =
      Some (sv', [Submit (tid_entry sv TABLESERVER_OP_COMMIT (r_tid req)) (Some (C_Commit from req))]) /\
    pending_for_mds sv' = map_erase (pending_for_mds sv) (r_tid req) /\
    server_ok sv' /\ records (tid_entry sv TABLESERVER_OP_COMMIT (r_tid req)) sv sv'.
Proof.
  intros Hok Hv Hf. pose proof (so_version _ Hok) as Hr. unfold sversion in Hr, Hv.
  pose proof (has_find _ _ _ Hf) as Hh. rewrite (so_prepared _ Hok) in Hh.
  destruct (law_commit _ _ _ (so_child _ Hok) Hv Hh) as (s' & E & Hs & Hp).
  pose proof (erase_ok sv s' (r_tid req) Hok Hv Hs Hp) as Hok'.
  unfold handle_commit. rewrite Hf. cbn [Z.eqb negb]. rewrite E. obind. cbn [negb].
  assert (Hver : sversion (_note_commit (r_tid req) (with_state (inc_version (base sv), s') sv))
                 = sversion sv + 1) by (step_fields; apply inc_version_small; lia).
  exists (_note_commit (r_tid req) (with_state (inc_version (base sv), s') sv)). rewrite Hver. split_and!; [|done|done|].
  - do 4 f_equal. unfold tid_entry, new_entry. cbn. by rewrite (so_tab _ Hok).
  - split_and!; [done|done|]. intros tablev. rewrite replay_step by done.
    cbn [tid_entry e_op e_tid e_version e_table]. rewrite E.
    cbn [Z.eqb Pos.eqb TABLESERVER_OP_PREPARE TABLESERVER_OP_COMMIT]. obind.
    rewrite Hver, Z.eqb_refl. done.
Qed.

Lemma handle_rollback_spec sv req p :
  server_ok sv -> sversion sv + 1 < 2 ^ 64 -> map_find (pending_for_mds sv) (r_tid req) = Some p ->
  exists sv', handle_rollback req sv =
      Some (sv', [Submit (tid_entry sv TABLESERVER_OP_ROLLBACK (r_tid req)) None]) /\
    pending_for_mds sv' = map_erase (pending_for_mds sv) (r_tid req) /\
    server_ok sv' /\ records (tid_entry sv TABLESERVER_OP_ROLLBACK (r_tid req)) sv sv'.
Proof.
  intros Hok Hv Hf. pose proof (so_version _ Hok) as Hr. unfold sversion in Hr, Hv.
  pose proof (has_find _ _ _ Hf) as Hh. rewrite (so_prepared _ Hok) in Hh.
  destruct (law_rollback _ _ _ (so_child _ Hok) Hv Hh) as (s' & E & Hs & Hp).
  pose proof (erase_ok sv s' (r_tid req) Hok Hv Hs Hp) as Hok'.
  unfold handle_rollback. rewrite Hf, E. obind.
  assert (Hver : sversion (_note_rollback (r_tid req) (with_state (inc_version (base sv), s') sv))
                 = sversion sv + 1) by (step_fields; apply inc_version_small; lia).
  exists (_note_rollback (r_tid req) (with_state (inc_version (base sv), s') sv)). rewrite Hver. split_and!; [|done|done|].
  - do 4 f_equal. unfold tid_entry, new_entry. cbn. by rewrite (so_tab _ Hok).
  - split_and!; [done|done|]. intros tablev. rewrite replay_step by done.
    cbn [tid_entry e_op e_tid e_version e_table]. rewrite E.
    cbn [Z.eqb Pos.eqb TABLESERVER_OP_PREPARE TABLESERVER_OP_COMMIT TABLESERVER_OP_ROLLBACK]. obind.
    rewrite Hver, Z.eqb_refl. done.
Qed.

Definition update_entry (sv : server S) (bl : bytes) : entry :=
  MkEntry (0, 0) TABLE_SNAP TABLESERVER_OP_SERVER_UPDATE 0 MDS_RANK_NONE bl 0 (sversion sv + 1).

Lemma do_server_update_spec sv bl sv' e :
  server_ok sv -> sversion sv + 1 < 2 ^ 64 -> do_server_update bl sv = Some (sv', e) ->
  e = [Submit (update_entry sv bl) None] /\ pending_for_mds sv' = pending_for_mds sv /\
  server_ok sv' /\ records (update_entry sv bl) sv sv'.
Proof.
  intros Hok Hv H. unfold do_server_update in H.
  destruct (_server_update bl (base sv, st sv)) as [[t' s']|] eqn:E; [|done].
  destruct (law_update _ _ _ _ _ (so_child _ Hok) Hv E) as (-> & Hs & Hp).
  pose proof (so_version _ Hok) as Hr. unfold sversion in Hr, Hv.
  pose proof (update_ok sv s' Hok Hv Hs Hp) as Hok'.
  cbn [mbind option_bind] in H. injection H as H <-. rewrite <- H in *. clear H sv'.
  assert (Hver : sversion (with_state (inc_version (base sv), s') sv) = sversion sv + 1)
    by (step_fields; apply inc_version_small; lia).
  rewrite Hver. split_and!; [|done|done|].
  - do 3 f_equal. unfold update_entry, set_mutation, new_entry. cbn. by rewrite (so_tab _ Hok).
  - split_and!; [done|done|]. intros tablev. rewrite replay_step by done.
    cbn [update_entry e_op e_mutation e_version e_table]. rewrite E.
    cbn [Z.eqb Pos.eqb TABLESERVER_OP_PREPARE TABLESERVER_OP_COMMIT TABLESERVER_OP_ROLLBACK
         TABLESERVER_OP_SERVER_UPDATE]. obind.
    rewrite Hver, Z.eqb_refl. done.
Qed.

(** When the server's assertions fail on a request, the kill points being off. *)
Definition refused (sv : server S) (from : Z) (req : request) : Prop :=
  if r_op req =? TABLESERVER_OP_QUERY then handle_query from req (base sv, st sv) = None
  else if r_op req =? TABLESERVER_OP_PREPARE then
    _prepare (r_bl req) (r_reqid req) from (base sv, st sv) = None
  else if r_op req =? TABLESERVER_OP_COMMIT then sversion sv < r_tid req
  else if r_op req =? TABLESERVER_OP_ROLLBACK then has (pending_for_mds sv) (r_tid req) = false
  else True.

Lemma pending_bound sv x p :
  server_ok sv -> map_find (pending_for_mds sv) x = Some p -> 0 < x <= sversion sv.
Proof.
  intros Hok Hf. apply (law_range _ (st sv)); [apply Hok|].
  rewrite <- (so_prepared _ Hok). by eapply has_find.
Qed.

(** C30: the server aborts on a request exactly when its operation is not one of
    the four, when the child cannot read the update to prepare or the query,
    when the transaction to commit is newer than the table, or when the one to
    roll back is not pending.  In particular a COMMIT that is repeated never
    aborts it. *)
Theorem handle_request_aborts sv from req :
  server_ok sv -> sversion sv + 1 < 2 ^ 64 ->
  handle_request 0 from req sv = None <-> refused sv from req.
Proof.
  intros Hok Hv. unfold handle_request, refused.
  destruct (Z.eqb_spec (r_op req) TABLESERVER_OP_QUERY) as [->|H1].
  { simpl. destruct (handle_query _ _ _) as [[? ?]|]; simpl; done. }
  destruct (Z.eqb_spec (r_op req) TABLESERVER_OP_PREPARE) as [->|H2].
  { simpl. unfold handle_prepare. destruct (_prepare _ _ _ _) as [[? ?]|]; simpl; done. }
  destruct (Z.eqb_spec (r_op req) TABLESERVER_OP_COMMIT) as [->|H3].
  { cbn [Z.leb Z.compare TABLESERVER_OP_COMMIT].
    destruct (map_find (pending_for_mds sv) (r_tid req)) as [p|] eqn:E.
    - destruct (handle_commit_spec sv from req p Hok Hv E) as (sv' & -> & _).
      pose proof (pending_bound _ _ _ Hok E). split; [done|lia].
    - unfold handle_commit. rewrite E. destruct (Z.leb_spec (r_tid req) (sversion sv));
        simpl; split; try done; lia. }
  destruct (Z.eqb_spec (r_op req) TABLESERVER_OP_ROLLBACK) as [->|H4].
  { cbn [Z.leb Z.compare TABLESERVER_OP_ROLLBACK]. unfold has.
    destruct (map_find (pending_for_mds sv) (r_tid req)) as [p|] eqn:E.
    - by destruct (handle_rollback_spec sv req p Hok Hv E) as (sv' & -> & _).
    - unfold handle_rollback. by rewrite E. }
  by destruct (0 <=? r_op req).
Qed.

(** Every operation keeps the invariant, and either changes nothing or leaves
    one entry from which replay makes the same step. *)
Lemma apply_step o sv sv' e :
  server_ok sv -> sversion sv + 1 < 2 ^ 64 -> apply o sv = Some (sv', e) ->
  server_ok sv' /\
  (logged e = [] /\ sv' = sv \/ exists le, logged e = [le] /\ records le sv sv').
Proof.
  intros Hok Hv H. destruct o as [from req|bl]; cbn [apply] in H.
  2: { apply do_server_update_spec in H as (-> & _ & ? & ?); [|done..]. eauto. }
  unfold handle_request in H. destruct (0 <=? r_op req); [|done].
  destruct (r_op req =? TABLESERVER_OP_QUERY).
  { destruct (handle_query _ _ _) as [[ts e']|] eqn:E; [|done]. cbn [mbind option_bind] in H.
    apply law_query in E as [-> ->]. injection H as <- <-. destruct sv. by eauto. }
  destruct (r_op req =? TABLESERVER_OP_PREPARE).
  { apply handle_prepare_spec in H as (bl & -> & _ & ? & ?); [|done..]. eauto. }
  destruct (r_op req =? TABLESERVER_OP_COMMIT).
  { destruct (map_find (pending_for_mds sv) (r_tid req)) as [p|] eqn:E.
    - destruct (handle_commit_spec sv from req p Hok Hv E) as (sv2 & Hc & _ & ? & ?).
      rewrite Hc in H. injection H as <- <-. eauto.
    - unfold handle_commit in H. rewrite E in H. destruct (r_tid req <=? sversion sv); [|done].
      simpl in H. injection H as <- <-. by eauto. }
  destruct (r_op req =? TABLESERVER_OP_ROLLBACK); [|done].
  destruct (map_find (pending_for_mds sv) (r_tid req)) as [p|] eqn:E.
  - destruct (handle_rollback_spec sv req p Hok Hv E) as (sv2 & Hc & _ & ? & ?).
    rewrite Hc in H. injection H as <- <-. eauto.
  - unfold handle_rollback in H. by rewrite E in H.
Qed.

(** A run's journal, replayed from where it began, makes the run's steps. *)
Lemma run_step l sv sv' j :
  server_ok sv -> sversion sv + Z.of_nat (length l) < 2 ^ 64 -> run l sv = Some (sv', j) ->
  server_ok sv' /\ sversion sv <= sversion sv' <= sversion sv + Z.of_nat (length l) /\
  Forall (fun le => e_version le <= sversion sv') j /\
  forall tablev, exists tablev', replay_all j (tablev, sv) = Some (tablev', sv').
Proof.
  revert sv j. induction l as [|o l IH]; intros sv j Hok Hv H; cbn [run] in H.
  { injection H as <- <-. simpl. split_and!; [done|lia|lia|constructor|eauto]. }
  destruct (apply o sv) as [[sv1 e]|] eqn:Ea; [|done]. cbn [mbind option_bind] in H.
  destruct (run l sv1) as [[sv2 j']|] eqn:Er; [|done]. injection H as <- <-.
  cbn [length] in Hv. rewrite Nat2Z.inj_succ in *.
  destruct (apply_step _ _ _ _ Hok ltac:(lia) Ea) as [Hok1 [[Hl ->]|(le & Hl & Hle & Hs & Hr)]];
    rewrite Hl.
  - destruct (IH _ _ Hok1 ltac:(lia) Er) as (? & ? & ? & ?). simpl. split_and!; [done|lia|lia|done|done].
  - destruct (IH _ _ Hok1 ltac:(lia) Er) as (? & ? & ? & Hj). split_and!; [done|lia|simpl; lia|..].
    + simpl. constructor; [lia|done].
    + intros tablev. cbn [app replay_all]. rewrite Hr. obind. apply Hj.
Qed.

(** Entries that the table already has are passed over. *)
Lemma replay_old j tablev sv rest :
  Forall (fun le => e_table le = TABLE_SNAP) j -> Forall (fun le => e_version le <= sversion sv) j ->
  replay_all (j ++ rest) (tablev, sv) = replay_all rest (tablev, sv).
Proof.
  intros Ht Hv. induction j as [|le j IH]; [done|].
  apply Forall_cons in Ht as [Ht ?], Hv as [Hv ?]. cbn [app replay_all]. unfold replay at 1.
  rewrite Ht. simpl. rewrite (proj2 (Z.leb_le _ _)) by done. obind. by apply IH.
Qed.

Lemma run_tables l sv sv' j :
  server_ok sv -> sversion sv + Z.of_nat (length l) < 2 ^ 64 -> run l sv = Some (sv', j) ->
  Forall (fun le => e_table le = TABLE_SNAP) j.
Proof.
  revert sv j. induction l as [|o l IH]; intros sv j Hok Hv H; cbn [run] in H.
  { injection H as <- <-. constructor. }
  destruct (apply o sv) as [[sv1 e]|] eqn:Ea; [|done]. cbn [mbind option_bind] in H.
  destruct (run l sv1) as [[sv2 j']|] eqn:Er; [|done]. injection H as <- <-.
  cbn [length] in Hv. rewrite Nat2Z.inj_succ in *.
  destruct (apply_step _ _ _ _ Hok ltac:(lia) Ea) as [Hok1 [[Hl ->]|(le & Hl & Hle & Hs & Hr)]];
    rewrite Hl; (eapply Forall_app_2; [|eapply IH; [done| |done]; lia]); [constructor|].
  constructor; [|constructor]. specialize (Hr []). unfold replay in Hr.
  destruct (Z.eqb_spec (e_table le) TABLE_ANCHOR).
  { injection Hr as Hr _. done. }
  by destruct (Z.eqb_spec (e_table le) TABLE_SNAP).
Qed.

(** A server runs two batches of operations; from its state after the first,
    replaying the journal of both gives its state after the second: what is
    pending, what the child holds and the version.  The entries of the first
    batch are passed over. *)
Lemma replay_rebuilds sv0 l1 l2 sv1 sv2 j1 j2 tablev :
  server_ok sv0 -> sversion sv0 + Z.of_nat (length (l1 ++ l2)) < 2 ^ 64 ->
  run l1 sv0 = Some (sv1, j1) -> run l2 sv1 = Some (sv2, j2) ->
  exists tablev', replay_all (j1 ++ j2) (tablev, sv1) = Some (tablev', sv2).
Proof.
  intros Hok Hv H1 H2. rewrite length_app in Hv.
  destruct (run_step l1 _ _ _ Hok ltac:(lia) H1) as (Hok1 & ? & ? & _).
  pose proof (run_tables l1 _ _ _ Hok ltac:(lia) H1).
  destruct (run_step l2 _ _ _ Hok1 ltac:(lia) H2) as (_ & _ & _ & Hj).
  rewrite replay_old by done. apply Hj.
Qed.

(** ** Replay onto a table that was saved and loaded *)

(** Equal but for what is not saved. *)
Record same (sv sv' : server S) : Prop := {
  same_tab : tab sv = tab sv';
  same_version : sversion sv = sversion sv';
  same_state : st sv ≡ st sv';
  same_pending : pending_for_mds sv = pending_for_mds sv'
}.

Lemma replay_same le tablev tablev' sv1 sv1' sv2 :
  same sv1 sv1' -> replay le (tablev, sv1) = Some (tablev', sv2) ->
  exists sv2', replay le (tablev, sv1') = Some (tablev', sv2') /\ same sv2 sv2'.
Proof.
  intros [Ht Hv Hs Hp] H. destruct sv1 as [? b1 s1 p1], sv1' as [? b2 s2 p2].
  unfold sversion in *. cbn [tab base st pending_for_mds] in *. subst. unfold replay in *.
  unfold sversion in *. cbn [tab base st pending_for_mds] in *. rewrite <- Hv.
  destruct (e_table le =? TABLE_ANCHOR); [injection H as <- <-; eauto using Build_same|].
  destruct (negb (e_table le =? TABLE_SNAP)); [done|].
  destruct (e_version le <=? version b1); [injection H as <- <-; eauto using Build_same|].
  destruct (e_version le -u64 1 =? version b1); [|done].
  destruct (e_op le =? TABLESERVER_OP_PREPARE); [|destruct (e_op le =? TABLESERVER_OP_COMMIT);
    [|destruct (e_op le =? TABLESERVER_OP_ROLLBACK);
      [|destruct (e_op le =? TABLESERVER_OP_SERVER_UPDATE); [|done]]]].
  - destruct (_prepare _ _ _ (b1, s1)) as [[? [? ?]]|] eqn:E; [|done].
    apply (law_prepare_equiv _ _ _ _ b2 _ s2) in E as (-> & s2' & -> & ?); [|done..].
    obind. cbn [mbind option_bind] in H. cbn in *. rewrite <- Hv.
    destruct (e_version le =? _); [|done]. injection H as <- <-.
    eexists. split; [done|]. split; cbn; by rewrite <- ?Hv.
  - destruct (_commit _ _ (b1, s1)) as [[? [? ?]]|] eqn:E; [|done].
    apply (law_commit_equiv _ _ _ b2 _ s2) in E as (-> & s2' & -> & ?); [|done..].
    obind. cbn [mbind option_bind] in H. cbn in *. rewrite <- Hv.
    destruct (e_version le =? _); [|done]. injection H as <- <-.
    eexists. split; [done|]. split; cbn; by rewrite <- ?Hv.
  - destruct (_rollback _ (b1, s1)) as [[? ?]|] eqn:E; [|done].
    apply (law_rollback_equiv _ _ b2 _ s2) in E as (-> & s2' & -> & ?); [|done..].
    obind. cbn [mbind option_bind] in H. cbn in *. rewrite <- Hv.
    destruct (e_version le =? _); [|done]. injection H as <- <-.
    eexists. split; [done|]. split; cbn; by rewrite <- ?Hv.
  - destruct (_server_update _ (b1, s1)) as [[? ?]|] eqn:E; [|done].
    apply (law_update_equiv _ _ b2 _ s2) in E as (-> & s2' & -> & ?); [|done..].
    obind. cbn [mbind option_bind] in H. cbn in *. rewrite <- Hv.
    destruct (e_version le =? _); [|done]. injection H as <- <-.
    eexists. split; [done|]. split; cbn; by rewrite <- ?Hv.
Qed.

Lemma replay_all_same l tablev tablev' sv1 sv1' sv2 :
  same sv1 sv1' -> replay_all l (tablev, sv1) = Some (tablev', sv2) ->
  exists sv2', replay_all l (tablev, sv1') = Some (tablev', sv2') /\ same sv2 sv2'.
Proof.
  revert tablev sv1 sv1'. induction l as [|le l IH]; intros tablev sv1 sv1' Hs H; cbn [replay_all] in *.
  { injection H as <- <-. eauto. }
  destruct (replay le (tablev, sv1)) as [[tv sv]|] eqn:E; [|done]. cbn [mbind option_bind] in H.
  destruct (replay_same _ _ _ _ _ _ Hs E) as (sv' & -> & Hs'). obind. eauto.
Qed.

(** The width of what [pending_for_mds] holds. *)
Definition pending_storable (p : list (Z * pending)) : Prop :=
  Z.of_nat (length p) < 2 ^ 32 /\
  Forall (fun kp => 0 <= kp.1 < 2 ^ 64 /\ 0 <= p_reqid kp.2 < 2 ^ 64 /\
                    - 2 ^ 31 <= p_mds kp.2 < 2 ^ 31 /\ 0 <= p_tid kp.2 < 2 ^ 64) p.

Lemma decode_pending_app p rest :
  0 <= p_reqid p < 2 ^ 64 -> - 2 ^ 31 <= p_mds p < 2 ^ 31 -> 0 <= p_tid p < 2 ^ 64 ->
  decode_pending (encode_pending p ++ rest) = Some (p, rest).
Proof.
  intros. unfold decode_pending, encode_pending. destruct p as [r m t]; cbn [p_reqid p_mds p_tid] in *.
  rewrite <- (app_nil_r (encode_u64 r ++ encode_s32 m ++ encode_u64 t)).
  apply decode_struct_legacy_app; [lia..| |].
  - rewrite app_nil_r, !length_app. unfold encode_u64, encode_s32, encode_uint.
    rewrite !le_bytes_length. lia.
  - rewrite app_nil_l, <- !app_assoc. unfold decode_u64, encode_u64.
    rewrite decode_uint_small by (simpl; lia). obind. rewrite decode_s32_app by lia. obind.
    by rewrite decode_uint_small by (simpl; lia).
Qed.

Lemma decode_pendings_app p rest :
  keys_from 1 p -> pending_storable p ->
  decode_map decode_u64 decode_pending (encode_map encode_u64 encode_pending p ++ rest) = Some (p, rest).
Proof.
  intros Hk [Hl Hf]. apply (decode_map_app _ _ _ _ _ _ 1); [done..|].
  eapply Forall_impl; [exact Hf|]. intros [k x]. cbn [fst snd]. intros (? & ? & ? & ?). split; intros r.
  - by apply decode_uint_small.
  - by apply decode_pending_app.
Qed.

(** C12: the table was saved after a first batch of operations and the daemon
    stopped after a second; the daemon that loads the table and replays the
    journal is at the same version with the same updates pending, and its child
    state agrees in all that is saved. *)
Theorem recovery_rebuilds_server sv0 l1 l2 sv1 sv2 j1 j2 onfinish need t' bl w t0 fin tablev :
  server_ok sv0 -> sversion sv0 + Z.of_nat (length (l1 ++ l2)) < 2 ^ 64 ->
  run l1 sv0 = Some (sv1, j1) -> run l2 sv1 = Some (sv2, j2) ->
  storable (st sv1) -> pending_storable (pending_for_mds sv1) ->
  save onfinish need (base sv1) (st sv1, pending_for_mds sv1) = Some (t', [WriteFull bl w]) ->
  state t0 = STATE_OPENING ->
  exists t1 s p e sv3 tablev',
    load_2 0 bl fin t0 = Some (t1, Some (s, p), e) /\
    replay_all (j1 ++ j2) (tablev, MkServer TABLE_SNAP t1 s p) = Some (tablev', sv3) /\
    same sv2 sv3.
Proof.
  intros Hok Hv H1 H2 Hst Hp Hsave Ho. rewrite length_app in Hv.
  destruct (run_step l1 _ _ _ Hok ltac:(lia) H1) as (Hok1 & ? & ? & _).
  pose proof (run_tables l1 _ _ _ Hok ltac:(lia) H1).
  destruct (run_step l2 _ _ _ Hok1 ltac:(lia) H2) as (_ & _ & _ & Hj).
  destruct (law_storable (st sv1) (encode_map encode_u64 encode_pending (pending_for_mds sv1)) Hst)
    as (s & Hd & Hs).
  assert (bl = encode_u64 (version (base sv1)) ++ encode_state (st sv1, pending_for_mds sv1)) as ->.
  { unfold save in Hsave. destruct (_ && _); [done|]. destruct (is_active _); [|done].
    destruct onfinish; simpl in *; congruence. }
  pose proof (so_version _ Hok1) as Hr. unfold sversion in Hr.
  unfold load_2, is_opening. rewrite bool_decide_eq_true_2 by done.
  unfold encode_u64 at 1, decode_u64. rewrite decode_uint_small by (simpl; lia).
  cbn [Z.eqb Z.opp EBLACKLISTED Z.ltb Z.compare encode_state decode_state server_child fst snd].
  rewrite Hd. obind. rewrite <- (app_nil_r (encode_map _ _ _)), decode_pendings_app by (done || apply Hok1).
  obind. set (t1 := set_committed _ _).
  destruct (Hj tablev) as [tablev' Hj'].
  destruct (replay_all_same _ _ _ _ (MkServer TABLE_SNAP t1 s (pending_for_mds sv1)) _
    ltac:(split; [apply Hok1|done|done|done]) Hj') as (sv3 & Hr3 & Hsame).
  eexists _, _, _, _, sv3, tablev'. split; [done|]. split; [|done].
  rewrite replay_old by done. exact Hr3.
Qed.
End Facts.
End ServerFacts.
