(* ===== verification/TableClient.v ===== *)
(** * MDSTableClient and SnapClient, src/mds/MDSTableClient.cc and SnapClient.h

    The client half of the two-phase update of a table: an update is prepared
    under a request id, agreed under the server's transaction id, committed
    once the caller has journalled it, and forgotten when the server's ACK is in
    the client's own journal.  The journal entry is ETableClient.

    The caller's variables and contexts are numbers; what the client does to
    them is an effect.  A log segment is a number too: [segments] holds, for
    each, the set [pending_commit_tids[table]], which several transactions
    share. *)

From S2P Require Import Prelude Encoding TableServer.
Import Encoding TableServer.

Module TableClient.

(** [~0ULL], the request id of a client that has none yet *)
Definition no_reqid : Z := 2 ^ 64 - 1.

(** [_pending_prepare]; [ptid] and [pbl] are where the caller wants the answer. *)
Record prepare := MkPrepare {
  onfinish : option nat;
  ptid : option nat;
  pbl : option nat;
  mutation : bytes
}.

Record client := MkClient {
  last_reqid : Z;
  server_ready : bool;
  pending_prepare : list (Z * prepare);
  prepared_update : list (Z * Z);
  waiting_for_reqid : list prepare;
  pending_commit : list (Z * Z);
  ack_waiters : list (Z * list nat);
  segments : list (Z * list (Z * unit))
}.

Definition new_client : client := MkClient no_reqid false [] [] [] [] [] [].

Inductive ceffect :=
  | SendServer (m : request)        (* to the MDSMap's table server *)
  | SetTid (p : nat) (tid : Z)
  | SetBl (p : nat) (bl : bytes)
  | Finish (c : nat)
  | LogAck (tid : Z)                (* ETableClient, then C_LoggedAck *)
  | Wake (l : list nat).

(** ** Field updates *)

Definition set_ready (b : bool) (c : client) : client :=
  MkClient (last_reqid c) b (pending_prepare c) (prepared_update c) (waiting_for_reqid c)
    (pending_commit c) (ack_waiters c) (segments c).
Definition set_last (r : Z) (c : client) : client :=
  MkClient r (server_ready c) (pending_prepare c) (prepared_update c) (waiting_for_reqid c)
    (pending_commit c) (ack_waiters c) (segments c).
Definition set_prepare (m : list (Z * prepare)) (c : client) : client :=
  MkClient (last_reqid c) (server_ready c) m (prepared_update c) (waiting_for_reqid c)
    (pending_commit c) (ack_waiters c) (segments c).
Definition set_prepared (m : list (Z * Z)) (c : client) : client :=
  MkClient (last_reqid c) (server_ready c) (pending_prepare c) m (waiting_for_reqid c)
    (pending_commit c) (ack_waiters c) (segments c).
Definition set_waiting (l : list prepare) (c : client) : client :=
  MkClient (last_reqid c) (server_ready c) (pending_prepare c) (prepared_update c) l
    (pending_commit c) (ack_waiters c) (segments c).
Definition set_commit (m : list (Z * Z)) (c : client) : client :=
  MkClient (last_reqid c) (server_ready c) (pending_prepare c) (prepared_update c)
    (waiting_for_reqid c) m (ack_waiters c) (segments c).
Definition set_ack_waiters (m : list (Z * list nat)) (c : client) : client :=
  MkClient (last_reqid c) (server_ready c) (pending_prepare c) (prepared_update c)
    (waiting_for_reqid c) (pending_commit c) m (segments c).

(** [ls->pending_commit_tids[table]] and its changes *)
Definition tids_of (c : client) (ls : Z) : list (Z * unit) := default [] (map_find (segments c) ls).
Definition set_tids (ls : Z) (s : list (Z * unit)) (c : client) : client :=
  MkClient (last_reqid c) (server_ready c) (pending_prepare c) (prepared_update c)
    (waiting_for_reqid c) (pending_commit c) (ack_waiters c) (map_set (segments c) ls s).
Definition tid_insert (ls tid : Z) (c : client) : client :=
  set_tids ls (map_set (tids_of c ls) tid tt) c.
Definition tid_erase (ls tid : Z) (c : client) : client :=
  set_tids ls (map_erase (tids_of c ls) tid) c.

Section Client.
(** the table, and [mds_kill_mdstable_at] *)
Context (tab kill_at : Z).

Definition message (op reqid tid : Z) (bl : bytes) : ceffect := SendServer (MkReq tab op reqid tid bl).

(** ** Preparing and committing *)

Definition _prepare (bl : bytes) (pt pb fin : option nat) (c : client) : client * list ceffect :=
  if last_reqid c =? no_reqid then
    (set_waiting (waiting_for_reqid c ++ [MkPrepare fin pt pb bl]) c, [])
  else
    let reqid := last_reqid c +u64 1 in
    let c := set_last reqid c in
    let c := set_prepare (map_set (pending_prepare c) reqid (MkPrepare fin pt pb bl)) c in
    (c, if server_ready c then [message TABLESERVER_OP_PREPARE reqid 0 bl] else []).

Definition commit (tid ls : Z) (c : client) : option (client * list ceffect) :=
  match map_find (prepared_update c) tid with
  | None => None
  | Some _ =>
      let c := set_prepared (map_erase (prepared_update c) tid) c in
      match map_find (pending_commit c) tid with
      | Some _ => None
      | None =>
          let c := tid_insert ls tid (set_commit (map_set (pending_commit c) tid ls) c) in
          assert! negb (kill_at =? 4);
          Some (c, if server_ready c then [message TABLESERVER_OP_COMMIT 0 tid []] else [])
      end
  end.

(** ** Recovery *)

Definition got_journaled_agree (tid ls : Z) (c : client) : client :=
  let c := tid_insert ls tid c in
  set_commit (map_set (pending_commit c) tid ls) c.

Definition got_journaled_ack (tid : Z) (c : client) : client :=
  match map_find (pending_commit c) tid with
  | Some ls => let c := tid_erase ls tid c in set_commit (map_erase (pending_commit c) tid) c
  | None => c
  end.

Definition resend_commits (c : client) : list ceffect :=
  map (fun p => message TABLESERVER_OP_COMMIT 0 p.1 []) (pending_commit c).

(** [while (!waiting_for_reqid.empty())] *)
Fixpoint assign_reqids (l : list prepare) (last : Z) (m : list (Z * prepare))
  : Z * list (Z * prepare) :=
  match l with
  | [] => (last, m)
  | p :: l => let last := last +u64 1 in assign_reqids l last (map_set m last p)
  end.

Definition resend_prepares (c : client) : client * list ceffect :=
  let '(last, m) := assign_reqids (waiting_for_reqid c) (last_reqid c) (pending_prepare c) in
  let c := set_waiting [] (set_prepare m (set_last last c)) in
  (c, map (fun p => message TABLESERVER_OP_PREPARE p.1 0 (mutation p.2)) (pending_prepare c)).

(** The rank of the table server is [tableserver]. *)
Definition handle_mds_failure (tableserver who : Z) (c : client) : client :=
  if negb (who =? tableserver) then c else set_ready false c.

Definition has_committed (tid : Z) (c : client) : bool :=
  match map_find (pending_commit c) tid with None => true | Some _ => false end.

Definition wait_for_ack (tid : Z) (ctx : nat) (c : client) : client :=
  set_ack_waiters (map_set (ack_waiters c) tid (default [] (map_find (ack_waiters c) tid) ++ [ctx])) c.

Definition _logged_ack (tid : Z) (c : client) : option (client * list ceffect) :=
  assert! negb (kill_at =? 8);
  match map_find (ack_waiters c) tid with
  | Some l => Some (set_ack_waiters (map_erase (ack_waiters c) tid) c, [Wake l])
  | None => Some (c, [])
  end.

(** ** Messages *)

Definition handle_agree (m : request) (c : client) : option (client * list ceffect) :=
  let tid := r_tid m in
  let reqid := r_reqid m in
  match map_find (pending_prepare c) reqid with
  | Some p =>
      assert! negb (kill_at =? 3);
      pt ← ptid p;
      let c := set_prepare (map_erase (pending_prepare c) reqid) c in
      let c := set_prepared (map_set (prepared_update c) tid reqid) c in
      Some (c, SetTid pt tid :: match pbl p with Some pb => [SetBl pb (r_bl m)] | None => [] end ++
               match onfinish p with Some f => [Finish f] | None => [] end)
  | None =>
      match map_find (prepared_update c) tid with
      | Some r =>
          assert! r =? reqid;
          assert! negb (server_ready c);
          Some (c, [])
      | None =>
          match map_find (pending_commit c) tid with
          | Some _ => assert! negb (server_ready c); Some (c, [])
          | None =>
              assert! negb (server_ready c);
              Some (c, [message TABLESERVER_OP_ROLLBACK 0 tid []])
          end
      end
  end.

Definition handle_ack (m : request) (c : client) : option (client * list ceffect) :=
  let tid := r_tid m in
  match map_find (pending_commit c) tid with
  | Some ls =>
      match map_find (tids_of c ls) tid with
      | Some _ =>
          assert! negb (kill_at =? 7);
          let c := tid_erase ls tid c in
          Some (set_commit (map_erase (pending_commit c) tid) c, [LogAck tid])
      | None => Some (c, [])
      end
  | None => Some (c, [])
  end.

Definition handle_server_ready (m : request) (c : client) : option (client * list ceffect) :=
  assert! negb (server_ready c);
  let c := set_ready true c in
  let c := if last_reqid c =? no_reqid then set_last (r_reqid m) c else c in
  let '(c, e) := resend_prepares c in
  Some (c, e ++ resend_commits c).

(** The virtual functions are SnapClient's: [resend_queries] and
    [handle_query_result] do nothing. *)
Definition handle_request (m : request) (c : client) : option (client * list ceffect) :=
  assert! r_table m =? tab;
  if r_op m =? TABLESERVER_OP_QUERY_REPLY then Some (c, [])
  else if r_op m =? TABLESERVER_OP_AGREE then handle_agree m c
  else if r_op m =? TABLESERVER_OP_ACK then handle_ack m c
  else if r_op m =? TABLESERVER_OP_SERVER_READY then handle_server_ready m c
  else None.

End Client.

(** ** ETableClient *)

Record ack_entry := MkAck {
  a_stamp : Z * Z;
  a_table : Z;
  a_op : Z;
  a_tid : Z
}.

Definition encode_ack (a : ack_entry) : bytes :=
  encode_struct 3 3 (encode_utime (a_stamp a) ++ encode_u16 (a_table a) ++ encode_u16 (a_op a) ++
                     encode_u64 (a_tid a)).

Definition decode_ack (stamp : Z * Z) : bytes -> option (ack_entry * bytes) :=
  decode_struct_legacy 3 3 3 0 (fun struct_v p =>
    '(stamp, p) ← (if 2 <=? struct_v then decode_utime p else Some (stamp, p));
    '(table, p) ← decode_u16 p;
    '(op, p) ← decode_s16 p;
    '(tid, p) ← decode_u64 p;
    Some (MkAck stamp table op tid, p)).

(** [ETableClient::replay], with the clients of [MDSRank::get_table_client] *)
Definition replay_ack (a : ack_entry) (c : client) : option client :=
  if a_table a =? TABLE_ANCHOR then Some c
  else if negb (a_table a =? TABLE_SNAP) then None
  else
    assert! a_op a =? TABLESERVER_OP_ACK;
    Some (got_journaled_ack (a_tid a) c).

(** ** SnapClient *)

Definition SNAP_OP_CREATE : Z := 0.
Definition SNAP_OP_UPDATE : Z := 1.
Definition SNAP_OP_DESTROY : Z := 2.

Definition prepare_create (dirino : Z) (nm : bytes) (stm : Z * Z) : bytes :=
  encode_u32 SNAP_OP_CREATE ++ encode_u64 dirino ++ encode_string nm ++ encode_utime stm.
Definition prepare_create_realm (ino : Z) : bytes :=
  encode_u32 SNAP_OP_CREATE ++ encode_u64 ino.
Definition prepare_destroy (ino snapid : Z) : bytes :=
  encode_u32 SNAP_OP_DESTROY ++ encode_u64 ino ++ encode_u64 snapid.
Definition prepare_update (ino snapid : Z) (nm : bytes) (stm : Z * Z) : bytes :=
  encode_u32 SNAP_OP_UPDATE ++ encode_u64 ino ++ encode_u64 snapid ++ encode_string nm ++
  encode_utime stm.

(** The updates that the MDS asks for. *)
Inductive update :=
  | Create (dirino : Z) (nm : bytes) (stm : Z * Z)
  | CreateRealm (ino : Z)
  | Destroy (ino snapid : Z)
  | Rename (ino snapid : Z) (nm : bytes) (stm : Z * Z).

Definition update_bytes (u : update) : bytes :=
  match u with
  | Create i nm stm => prepare_create i nm stm
  | CreateRealm i => prepare_create_realm i
  | Destroy i id => prepare_destroy i id
  | Rename i id nm stm => prepare_update i id nm stm
  end.
End TableClient.
