(* ===== verification/SnapServer.v ===== *)
(** * SnapServer, src/mds/SnapServer.cc and SnapServer.h

    The table of snapshots, the one table that is served with the two-phase
    protocol of [TableServer]: creating, renaming and destroying a snapshot are
    prepared, then committed or rolled back, and destroyed snapshots are purged
    from the data pools.  [SnapInfo] is from src/mds/snap.cc, the pools from
    src/osd/osd_types.cc. *)

From S2P Require Import Prelude Encoding IntervalSet MDSTable TableServer TableClient.
Import Encoding MDSTable TableServer.

Module SnapServer.

Abbreviation zset := (list (Z * unit)).

(** ** Data *)

Definition str_create : bytes := [99; 114; 101; 97; 116; 101].
Definition str_update : bytes := [117; 112; 100; 97; 116; 101].

Record SnapInfo := MkInfo {
  snapid : Z;
  ino : Z;
  stamp : Z * Z;
  name : bytes;
  long_name : bytes
}.

(** [long_name] is not encoded. *)
Definition encode_info (i : SnapInfo) : bytes :=
  encode_struct 2 2 (encode_u64 (snapid i) ++ encode_u64 (ino i) ++ encode_utime (stamp i) ++
                     encode_string (name i)).
Definition decode_info : bytes -> option (SnapInfo * bytes) :=
  decode_struct_legacy 2 2 2 0 (fun _ p =>
    '(snapid, p) ← decode_u64 p;
    '(ino, p) ← decode_u64 p;
    '(stamp, p) ← decode_utime p;
    '(name, p) ← decode_string p;
    Some (MkInfo snapid ino stamp name [], p)).

Record snap := MkSnap {
  last_snap : Z;
  snaps : list (Z * SnapInfo);
  need_to_purge : list (Z * zset);
  pending_update : list (Z * SnapInfo);
  pending_destroy : list (Z * (Z * Z));
  pending_noop : zset;
  last_checked_osdmap : Z
}.

Definition new_snap : snap := MkSnap 0 [] [] [] [] [] 0.

(** pg_pool_t: its pool snapshots, the snapshots removed from it and its
    sequence number *)
Record pg_pool := MkPool {
  pool_snaps : zset;
  removed_snaps : IntervalSet.interval_set;
  snap_seq : Z
}.

Definition is_pool_snaps_mode (p : pg_pool) : bool :=
  IntervalSet.empty (removed_snaps p) && (0 <? snap_seq p).

Definition is_removed_snap (p : pg_pool) (s : Z) : bool :=
  if is_pool_snaps_mode p then
    (s <=? snap_seq p) && match map_find (pool_snaps p) s with None => true | Some _ => false end
  else IntervalSet.contains (removed_snaps p) s.

(** What a live MDS gives the table: the data pools of the MDSMap and the OSDMap. *)
Record env := MkEnv {
  data_pools : list Z;
  osdmap : list (Z * pg_pool)
}.

Definition get_pg_pool (e : env) (id : Z) : option pg_pool := map_find (osdmap e) id.

(** ** Sets of snapshots *)

Definition set_insert (s : zset) (x : Z) : zset := map_set s x tt.

Definition encode_set (s : zset) : bytes := encode_list encode_u64 (map fst s).
Definition decode_set (p : bytes) : option (zset * bytes) :=
  '(l, p) ← decode_list decode_u64 p; Some (foldl set_insert [] l, p).

(** ** Operations *)

Definition TABLE_OP_CREATE : Z := 0.
Definition TABLE_OP_UPDATE : Z := 1.
Definition TABLE_OP_DESTROY : Z := 2.

(** the loop of [reset_state] over the data pools *)
Fixpoint first_free (e : env) (pools : list Z) (free : Z) : option Z :=
  match pools with
  | [] => Some free
  | p :: pools =>
      match get_pg_pool e p with
      | None => first_free e pools free
      | Some pi =>
          if negb (IntervalSet.empty (removed_snaps pi)) then
            e' ← IntervalSet.range_end (removed_snaps pi);
            first_free e pools (if free <? e' then e' else free)
          else first_free e pools free
      end
  end.

Definition reset_state (mds : option env) (s : snap) : option snap :=
  last ←
    match mds with
    | None => Some 1
    | Some e => f ← first_free e (data_pools e) 0; Some (if 1 <? f then f else 1)
    end;
  Some (MkSnap last [] [] (pending_update s) (pending_destroy s) (pending_noop s)
          (last_checked_osdmap s)).

(** the reply of [_prepare] *)
Definition reply_last (s : snap) : bytes := encode_u64 (last_snap s).

Definition _prepare (bl : bytes) (reqid bymds : Z) (ts : table * snap)
  : option (bytes * (table * snap)) :=
  let '(t, s) := ts in
  '(op, p) ← decode_u32 bl;
  if op =? TABLE_OP_CREATE then
    let t := inc_version t in
    '(i, p) ← decode_u64 p;
    match p with
    | _ :: _ =>
        '(nm, p) ← decode_string p;
        '(stm, p) ← decode_utime p;
        let last := last_snap s +u64 1 in
        let info := MkInfo last i stm nm str_create in
        let s := MkSnap last (snaps s) (need_to_purge s)
                   (map_set (pending_update s) (version t) info) (pending_destroy s)
                   (pending_noop s) (last_checked_osdmap s) in
        Some (reply_last s, (t, s))
    | [] =>
        let s := MkSnap (last_snap s) (snaps s) (need_to_purge s) (pending_update s)
                   (pending_destroy s) (set_insert (pending_noop s) (version t))
                   (last_checked_osdmap s) in
        Some (reply_last s, (t, s))
    end
  else if op =? TABLE_OP_DESTROY then
    '(_, p) ← decode_u64 p;
    '(id, p) ← decode_u64 p;
    let t := inc_version t in
    let last := last_snap s +u64 1 in
    let s := MkSnap last (snaps s) (need_to_purge s) (pending_update s)
               (map_set (pending_destroy s) (version t) (id, last)) (pending_noop s)
               (last_checked_osdmap s) in
    Some (reply_last s, (t, s))
  else if op =? TABLE_OP_UPDATE then
    '(i, p) ← decode_u64 p;
    '(id, p) ← decode_u64 p;
    '(nm, p) ← decode_string p;
    '(stm, p) ← decode_utime p;
    let info := MkInfo id i stm nm str_update in
    let t := inc_version t in
    let s := MkSnap (last_snap s +u64 1) (snaps s) (need_to_purge s)
               (map_set (pending_update s) (version t) info) (pending_destroy s)
               (pending_noop s) (last_checked_osdmap s) in
    Some (reply_last s, (t, s))
  else None.

Definition _is_prepared (tid : Z) (s : snap) : bool :=
  match map_find (pending_update s) tid with
  | Some _ => true
  | None => match map_find (pending_destroy s) tid with Some _ => true | None => false end
  end.

(** [info.stamp == utime_t()] *)
Definition no_stamp (t : Z * Z) : bool := (t.1 =? 0) && (t.2 =? 0).

(** The entry that committing an update stores: it keeps the stamp of the one it
    replaces when it has none, and [long_name] was swapped with an empty string. *)
Definition committed_info (s : snap) (info : SnapInfo) : SnapInfo :=
  let stm :=
    if no_stamp (stamp info) then
      match map_find (snaps s) (snapid info) with Some old => stamp old | None => stamp info end
    else stamp info in
  MkInfo (snapid info) (ino info) stm (name info) [].

(** [need_to_purge[p].insert(sn); need_to_purge[p].insert(seq)] for the data
    pools, whose ids the key's type narrows to [int] *)
Definition purge_from (pools : list Z) (sn seq : Z) (np : list (Z * zset)) : list (Z * zset) :=
  foldl (fun np p =>
    let p := s32 p in
    map_set np p (set_insert (set_insert (default [] (map_find np p)) sn) seq)) np pools.

Definition _commit (mds : option env) (tid : Z) (req : option request) (ts : table * snap)
  : option (bool * (table * snap)) :=
  let '(t, s) := ts in
  s ←
    match map_find (pending_update s) tid with
    | Some info =>
        Some (MkSnap (last_snap s) (map_set (snaps s) (snapid info) (committed_info s info))
                (need_to_purge s) (map_erase (pending_update s) tid) (pending_destroy s)
                (pending_noop s) (last_checked_osdmap s))
    | None =>
        match map_find (pending_destroy s) tid with
        | Some (sn, seq) =>
            e ← mds;
            Some (MkSnap (last_snap s) (map_erase (snaps s) sn)
                    (purge_from (data_pools e) sn seq (need_to_purge s)) (pending_update s)
                    (map_erase (pending_destroy s) tid) (pending_noop s) (last_checked_osdmap s))
        | None =>
            match map_find (pending_noop s) tid with
            | Some _ =>
                Some (MkSnap (last_snap s) (snaps s) (need_to_purge s) (pending_update s)
                        (pending_destroy s) (map_erase (pending_noop s) tid) (last_checked_osdmap s))
            | None => None
            end
        end
    end;
  Some (true, (inc_version t, s)).

Definition _rollback (tid : Z) (ts : table * snap) : option (table * snap) :=
  let '(t, s) := ts in
  s ←
    match map_find (pending_update s) tid with
    | Some _ =>
        Some (MkSnap (last_snap s) (snaps s) (need_to_purge s) (map_erase (pending_update s) tid)
                (pending_destroy s) (pending_noop s) (last_checked_osdmap s))
    | None =>
        match map_find (pending_destroy s) tid with
        | Some _ =>
            Some (MkSnap (last_snap s) (snaps s) (need_to_purge s) (pending_update s)
                    (map_erase (pending_destroy s) tid) (pending_noop s) (last_checked_osdmap s))
        | None =>
            match map_find (pending_noop s) tid with
            | Some _ =>
                Some (MkSnap (last_snap s) (snaps s) (need_to_purge s) (pending_update s)
                        (pending_destroy s) (map_erase (pending_noop s) tid) (last_checked_osdmap s))
            | None => None
            end
        end
    end;
  Some (inc_version t, s).

(** One pool of [_server_update]: the purged snapshots are erased, and the pool
    with them when none is left. *)
Definition purged (np : list (Z * zset)) (pq : Z * list Z) : list (Z * zset) :=
  let s := foldl map_erase (default [] (map_find np pq.1)) pq.2 in
  match s with [] => map_erase np pq.1 | _ :: _ => map_set np pq.1 s end.

Definition encode_purge : list (Z * list Z) -> bytes :=
  denc_encode_map encode_s32 (encode_list encode_u64).
Definition decode_purge : bytes -> option (list (Z * list Z) * bytes) :=
  denc_decode_map decode_s32 (decode_list decode_u64).

Definition _server_update (bl : bytes) (ts : table * snap) : option (table * snap) :=
  let '(t, s) := ts in
  '(purge, _) ← decode_purge bl;
  Some (inc_version t,
        MkSnap (last_snap s) (snaps s) (foldl purged (need_to_purge s) purge) (pending_update s)
          (pending_destroy s) (pending_noop s) (last_checked_osdmap s)).

(** The message is only put. *)
Definition handle_query (from : Z) (req : request) (ts : table * snap)
  : option (table * snap * list effect) := Some (ts, []).

(** ** Encoding *)

Definition encode_server_state (s : snap) : bytes :=
  encode_struct 3 3
    (encode_u64 (last_snap s) ++
     encode_map encode_u64 encode_info (snaps s) ++
     denc_encode_map encode_s32 encode_set (need_to_purge s) ++
     encode_map encode_u64 encode_info (pending_update s) ++
     denc_encode_map encode_u64 (encode_pair encode_u64 encode_u64) (pending_destroy s) ++
     encode_set (pending_noop s)).

(** Read into a new object. *)
Definition decode_server_state : bytes -> option (snap * bytes) :=
  decode_struct_legacy 3 3 3 0 (fun struct_v p =>
    '(last, p) ← decode_u64 p;
    '(sn, p) ← decode_map decode_u64 decode_info p;
    '(np, p) ← denc_decode_map decode_s32 decode_set p;
    '(pu, p) ← decode_map decode_u64 decode_info p;
    '(pd, p) ←
      (if 2 <=? struct_v then denc_decode_map decode_u64 (decode_pair decode_u64 decode_u64) p
       else
         '(t, p) ← denc_decode_map decode_u64 decode_u64 p;
         Some (map (fun kv => (kv.1, (kv.2, 0))) t, p));
    '(pn, p) ← decode_set p;
    Some (MkSnap last sn np pu pd pn 0, p)).

#[export] Instance snap_ops (mds : option env) : TableServerOps snap := {
  TableServer._prepare := _prepare;
  TableServer._commit := _commit mds;
  TableServer._rollback := _rollback;
  TableServer._server_update := _server_update;
  TableServer.handle_query := handle_query;
  TableServer.reset_server_state := reset_state mds;
  TableServer.encode_server_state := encode_server_state;
  TableServer.decode_server_state := decode_server_state
}.

(** ** check_osd_map *)

(** [m[id].push_back(q)] *)
Definition push (m : list (Z * list Z)) (id q : Z) : list (Z * list Z) :=
  map_set m id (default [] (map_find m id) ++ [q]).

(** One pool of the loop: the snapshots it has purged, and those to ask for. *)
Definition check_pool (e : env) (acc : list (Z * list Z) * list (Z * list Z)) (p : Z * zset)
  : list (Z * list Z) * list (Z * list Z) :=
  match get_pg_pool e p.1 with
  | None => (map_set acc.1 p.1 (map fst p.2), acc.2)
  | Some pi =>
      foldl (fun acc q =>
        if is_removed_snap pi q then (push acc.1 p.1 q, acc.2) else (acc.1, push acc.2 p.1 q))
        acc (map fst p.2)
  end.

(** The new server, the journal entries, and what MRemoveSnaps asks the
    monitor to remove. *)
Definition check_osd_map (e : env) (force : bool) (sv : server snap)
  : option (server snap * list effect * list (Z * list Z)) :=
  if negb force && (sversion sv =? last_checked_osdmap (st sv)) then Some (sv, [], [])
  else
    let '(all_purged, all_purge) := foldl (check_pool e) ([], []) (need_to_purge (st sv)) in
    '(sv, eff) ←
      match all_purged with
      | [] => Some (sv, [])
      | _ :: _ => do_server_update (ops := snap_ops (Some e)) (encode_purge all_purged) sv
      end;
    let s := st sv in
    let s := MkSnap (last_snap s) (snaps s) (need_to_purge s) (pending_update s)
               (pending_destroy s) (pending_noop s) (sversion sv) in
    Some (with_state (base sv, s) sv, eff, all_purge).
End SnapServer.

(** ** What the base class relies on *)

Module SnapFacts.
Import ServerFacts SnapServer.

(** The values of a map, changed. *)
Definition map_vals {A B} (f : A -> B) (m : list (Z * A)) : list (Z * B) :=
  map (fun kv => (kv.1, f kv.2)) m.

Lemma map_find_vals {A B} (f : A -> B) m k : map_find (map_vals f m) k = option_map f (map_find m k).
Proof. induction m as [|[k' v] m IH]; simpl; [done|]. by destruct (k' =? k). Qed.

Lemma map_set_vals {A B} (f : A -> B) m k v : map_set (map_vals f m) k (f v) = map_vals f (map_set m k v).
Proof. induction m as [|[k' v'] m IH]; simpl; [done|]. zcase_one; simpl; [by rewrite IH|]. by zcase_one. Qed.

Lemma map_erase_vals {A B} (f : A -> B) m k : map_erase (map_vals f m) k = map_vals f (map_erase m k).
Proof. unfold map_erase. induction m as [|[k' v'] m IH]; simpl; [done|]. by destruct (k' =? k); simpl; rewrite IH. Qed.

Lemma map_vals_vals {A B C} (g : B -> C) (f : A -> B) m : map_vals g (map_vals f m) = map_vals (fun x => g (f x)) m.
Proof. unfold map_vals. by rewrite map_map. Qed.

(** What is saved of the table. *)
Definition clear_long (i : SnapInfo) : SnapInfo := MkInfo (snapid i) (ino i) (stamp i) (name i) [].

Definition saved (s : snap) : snap :=
  MkSnap (last_snap s) (map_vals clear_long (snaps s)) (need_to_purge s)
    (map_vals clear_long (pending_update s)) (pending_destroy s) (pending_noop s) 0.

#[export] Instance snap_equiv : Equiv snap := fun s1 s2 => saved s1 = saved s2.

Lemma snap_equivalence : Equivalence (≡@{snap}).
Proof. split; unfold equiv, snap_equiv; [by intros ?|by intros ? ? ?|]. intros ? ? ? H1 H2. congruence. Qed.

Lemma saved_equiv s : s ≡ saved s.
Proof. unfold equiv, snap_equiv, saved. simpl. by rewrite !map_vals_vals. Qed.

(** The table's invariant at version [v]: an id stands for one update. *)
Record snap_ok (v : Z) (s : snap) : Prop := {
  ko_version : 0 <= v;
  ko_update : keys_from 1 (pending_update s);
  ko_destroy : keys_from 1 (pending_destroy s);
  ko_noop : keys_from 1 (pending_noop s);
  ko_range x : has (pending_update s) x || has (pending_destroy s) x || has (pending_noop s) x = true ->
    0 < x <= v;
  ko_once x : (if has (pending_update s) x then 1 else 0) + (if has (pending_destroy s) x then 1 else 0) +
    (if has (pending_noop s) x then 1 else 0) <= 1
}.

Definition snap_prepared (s : snap) (x : Z) : bool :=
  has (pending_update s) x || has (pending_destroy s) x || has (pending_noop s) x.


Lemma fresh_tid v s : snap_ok v s ->
  has (pending_update s) (v + 1) = false /\ has (pending_destroy s) (v + 1) = false /\
  has (pending_noop s) (v + 1) = false.
Proof.
  intros H. pose proof (ko_range _ _ H (v + 1)) as Hr.
  destruct (has (pending_update s) _), (has (pending_destroy s) _), (has (pending_noop s) _);
    simpl in Hr; try (specialize (Hr eq_refl); lia); done.
Qed.

(** [has_cases]: the lookups of a map with one key set or erased *)
Ltac has_cases :=
  repeat match goal with
  | H : keys_from 1 ?m |- context [has (map_set ?m _ _) _] => rewrite !(has_set 1 m) by exact H
  | H : keys_from 1 ?m |- context [has (map_erase ?m _) _] => rewrite !(has_erase 1 m) by exact H
  end.

(** [s'] has [tid] prepared, or [tid] no longer, in one of the three maps. *)
Definition adds (s : snap) (tid : Z) (s' : snap) : Prop :=
  (exists info, pending_update s' = map_set (pending_update s) tid info /\
     pending_destroy s' = pending_destroy s /\ pending_noop s' = pending_noop s) \/
  (exists d, pending_destroy s' = map_set (pending_destroy s) tid d /\
     pending_update s' = pending_update s /\ pending_noop s' = pending_noop s) \/
  (pending_noop s' = map_set (pending_noop s) tid tt /\
     pending_update s' = pending_update s /\ pending_destroy s' = pending_destroy s).

Definition drops (s : snap) (tid : Z) (s' : snap) : Prop :=
  (has (pending_update s) tid = true /\ pending_update s' = map_erase (pending_update s) tid /\
     pending_destroy s' = pending_destroy s /\ pending_noop s' = pending_noop s) \/
  (has (pending_destroy s) tid = true /\ pending_destroy s' = map_erase (pending_destroy s) tid /\
     pending_update s' = pending_update s /\ pending_noop s' = pending_noop s) \/
  (has (pending_noop s) tid = true /\ pending_noop s' = map_erase (pending_noop s) tid /\
     pending_update s' = pending_update s /\ pending_destroy s' = pending_destroy s).

Section Prepared.
Context (v : Z) (s : snap) (Hok : snap_ok v s).

(** Preparing under the next version, in any one of the three maps. *)
Lemma add_ok s' :
  adds s (v + 1) s' ->
  snap_ok (v + 1) s' /\ forall x, snap_prepared s' x = (x =? v + 1) || snap_prepared s x.
Proof.
  destruct (fresh_tid v s Hok) as (F1 & F2 & F3). destruct Hok as [Hv K1 K2 K3 Hr Ho].
  intros [(d & E1 & E2 & E3)|[(d & E1 & E2 & E3)|(E1 & E2 & E3)]]; unfold snap_prepared; split.
  1, 3, 5: split; rewrite ?E1, ?E2, ?E3; try done; try lia;
    try (by apply map_set_keys; [|lia]); intros x; has_cases;
    destruct (Z.eqb_spec x (v + 1)) as [->|]; simpl; rewrite ?F1, ?F2, ?F3; simpl; try lia;
    try (by apply Ho); intros H; apply Hr in H; lia.
  all: intros x; rewrite E1, E2, E3; has_cases; destruct (Z.eqb_spec x (v + 1)) as [->|]; simpl;
    rewrite ?orb_true_r; done.
Qed.

(** Removing [tid] from the map it is in. *)
Lemma del_ok tid s' :
  drops s tid s' ->
  snap_ok (v + 1) s' /\ forall x, snap_prepared s' x = negb (x =? tid) && snap_prepared s x.
Proof.
  destruct Hok as [Hv K1 K2 K3 Hr Ho]. pose proof (Ho tid) as Hot.
  intros [(Ht & E1 & E2 & E3)|[(Ht & E1 & E2 & E3)|(Ht & E1 & E2 & E3)]]; unfold snap_prepared; split.
  1, 3, 5: split; rewrite ?E1, ?E2, ?E3; try done; try lia; try (by apply map_erase_keys);
    intros x; has_cases; specialize (Hr x); specialize (Ho x);
    destruct (Z.eqb_spec x tid) as [->|]; simpl;
    destruct (has (pending_update s) _), (has (pending_destroy s) _), (has (pending_noop s) _);
    simpl in *; try lia; try done; intros; lia.
  all: intros x; rewrite E1, E2, E3; has_cases; destruct (Z.eqb_spec x tid) as [->|]; simpl; [|done];
    rewrite Ht in Hot;
    destruct (has (pending_update s) _), (has (pending_destroy s) _), (has (pending_noop s) _);
    simpl in *; done || lia.
Qed.
End Prepared.

Lemma commit_cases mds tid t s :
  is_Some mds -> snap_prepared s tid = true ->
  exists s', (forall req, _commit mds tid req (t, s) = Some (true, (inc_version t, s'))) /\
  drops s tid s'.
Proof.
  intros [e ->]. unfold snap_prepared, _commit, drops, has. intros Hp.
  destruct (map_find (pending_update s) tid); [eexists; split; [done|]; by left|].
  destruct (map_find (pending_destroy s) tid) as [[sn seq]|];
    [eexists; split; [done|]; right; by left|].
  destruct (map_find (pending_noop s) tid); [|done]. eexists. split; [done|]. right. by right.
Qed.

Lemma rollback_cases tid t s :
  snap_prepared s tid = true ->
  exists s', _rollback tid (t, s) = Some (inc_version t, s') /\
  drops s tid s'.
Proof.
  unfold snap_prepared, _rollback, drops, has. intros Hp.
  destruct (map_find (pending_update s) tid); [eexists; split; [done|]; by left|].
  destruct (map_find (pending_destroy s) tid); [eexists; split; [done|]; right; by left|].
  destruct (map_find (pending_noop s) tid); [|done]. eexists. split; [done|]. right. by right.
Qed.

(** [bind_inv H] takes apart the decoding steps of a hypothesis. *)
Ltac bind_inv H :=
  repeat match type of H with
  | (?x ≫= _) = Some _ => destruct x as [[? ?]|] eqn:?; [|done]; cbn [mbind option_bind] in H
  end.

Lemma prepare_cases bl reqid m t s bl' t' s' :
  _prepare bl reqid m (t, s) = Some (bl', (t', s')) ->
  t' = inc_version t /\ adds s (version (inc_version t)) s'.
Proof.
  unfold _prepare, adds. intros H. bind_inv H.
  destruct (_ =? TABLE_OP_CREATE); [|destruct (_ =? TABLE_OP_DESTROY);
    [|destruct (_ =? TABLE_OP_UPDATE); [|done]]]; bind_inv H.
  - match type of H with match ?p with _ => _ end = _ => destruct p end; [|bind_inv H]; injection H as <- <- <-; split; [done| |done|].
    + right. right. done.
    + left. eexists. done.
  - injection H as <- <- <-. split; [done|]. right. left. eexists. done.
  - injection H as <- <- <-. split; [done|]. left. eexists. done.
Qed.

(** ** The updates that SnapClient asks for *)

Definition update_ok (u : TableClient.update) : Prop :=
  let w x := 0 <= x < 2 ^ 64 in
  let str nm := Z.of_nat (length nm) < 2 ^ 32 in
  let tm stm := 0 <= stm.1 < 2 ^ 32 /\ 0 <= stm.2 < 2 ^ 32 in
  match u with
  | TableClient.Create i nm stm => w i /\ str nm /\ tm stm
  | TableClient.CreateRealm i => w i
  | TableClient.Destroy i id => w i /\ w id
  | TableClient.Rename i id nm stm => w i /\ w id /\ str nm /\ tm stm
  end.

(** The table with the update prepared under [tid]. *)
Definition prepare_update (u : TableClient.update) (tid : Z) (s : snap) : snap :=
  let next := last_snap s +u64 1 in
  match u with
  | TableClient.Create i nm stm =>
      MkSnap next (snaps s) (need_to_purge s)
        (map_set (pending_update s) tid (MkInfo next i stm nm str_create))
        (pending_destroy s) (pending_noop s) (last_checked_osdmap s)
  | TableClient.CreateRealm i =>
      MkSnap (last_snap s) (snaps s) (need_to_purge s) (pending_update s) (pending_destroy s)
        (map_set (pending_noop s) tid tt) (last_checked_osdmap s)
  | TableClient.Destroy i id =>
      MkSnap next (snaps s) (need_to_purge s) (pending_update s)
        (map_set (pending_destroy s) tid (id, next)) (pending_noop s) (last_checked_osdmap s)
  | TableClient.Rename i id nm stm =>
      MkSnap next (snaps s) (need_to_purge s)
        (map_set (pending_update s) tid (MkInfo id i stm nm str_update))
        (pending_destroy s) (pending_noop s) (last_checked_osdmap s)
  end.

Lemma decode_utime_app stm rest :
  0 <= stm.1 < 2 ^ 32 -> 0 <= stm.2 < 2 ^ 32 -> decode_utime (encode_utime stm ++ rest) = Some (stm, rest).
Proof.
  intros. unfold decode_utime, encode_utime, decode_u32, encode_u32. rewrite <- app_assoc.
  rewrite decode_uint_small by done. obind. rewrite decode_uint_small by done. by destruct stm.
Qed.

Lemma decode_u64_app x rest : 0 <= x < 2 ^ 64 -> decode_u64 (encode_u64 x ++ rest) = Some (x, rest).
Proof. intros. by apply decode_uint_small. Qed.

Lemma decode_u32_app x rest : 0 <= x < 2 ^ 32 -> decode_u32 (encode_u32 x ++ rest) = Some (x, rest).
Proof. intros. by apply decode_uint_small. Qed.

(** The last field of a buffer. *)
Lemma decode_end {A} (enc : A -> bytes) (dec : bytes -> option (A * bytes)) x :
  dec (enc x ++ []) = Some (x, []) -> dec (enc x) = Some (x, []).
Proof. by rewrite app_nil_r. Qed.

(** [decoded] runs a decoder over what the encoder wrote. *)
Ltac decoded :=
  repeat (rewrite <- ?app_assoc;
    first [rewrite decode_u64_app by lia | rewrite decode_u32_app by (done || lia)
          | rewrite decode_string_app by tauto | rewrite decode_utime_app by lia
          | rewrite (decode_end encode_u64 decode_u64) by (apply decode_u64_app; lia)
          | rewrite (decode_end encode_utime decode_utime) by (apply decode_utime_app; lia)]; obind).

Lemma prepare_exact u reqid m t s :
  update_ok u ->
  _prepare (TableClient.update_bytes u) reqid m (t, s) =
    let s' := prepare_update u (version (inc_version t)) s in
    Some (reply_last s', (inc_version t, s')).
Proof.
  destruct u; cbn [update_ok]; intros Hu; unfold _prepare, TableClient.update_bytes;
    [unfold TableClient.prepare_create, TableClient.SNAP_OP_CREATE
    |unfold TableClient.prepare_create_realm, TableClient.SNAP_OP_CREATE
    |unfold TableClient.prepare_destroy, TableClient.SNAP_OP_DESTROY
    |unfold TableClient.prepare_update, TableClient.SNAP_OP_UPDATE]; decoded;
    cbn [Z.eqb Pos.eqb TABLE_OP_CREATE TABLE_OP_DESTROY TABLE_OP_UPDATE].
  - destruct (encode_string nm ++ encode_utime stm) as [|b l] eqn:E.
    { apply (f_equal length) in E. rewrite length_app in E. unfold encode_utime, encode_u32 in E.
      rewrite length_app in E. unfold encode_uint in E. rewrite !le_bytes_length in E. simpl in E. lia. }
    done.
  - done.
  - done.
  - done.
Qed.

(** ** States that differ in what is not saved behave alike *)

Lemma equiv_fields s1 s2 : s1 ≡ s2 ->
  last_snap s1 = last_snap s2 /\ map_vals clear_long (snaps s1) = map_vals clear_long (snaps s2) /\
  need_to_purge s1 = need_to_purge s2 /\
  map_vals clear_long (pending_update s1) = map_vals clear_long (pending_update s2) /\
  pending_destroy s1 = pending_destroy s2 /\ pending_noop s1 = pending_noop s2.
Proof. unfold equiv, snap_equiv, saved. intros H. by injection H. Qed.

Lemma equiv_intro s1 s2 :
  last_snap s1 = last_snap s2 -> map_vals clear_long (snaps s1) = map_vals clear_long (snaps s2) ->
  need_to_purge s1 = need_to_purge s2 ->
  map_vals clear_long (pending_update s1) = map_vals clear_long (pending_update s2) ->
  pending_destroy s1 = pending_destroy s2 -> pending_noop s1 = pending_noop s2 -> s1 ≡ s2.
Proof. intros. unfold equiv, snap_equiv, saved. congruence. Qed.

(** [vals] moves [map_vals] inwards. *)
Ltac vals :=
  cbn [last_snap snaps need_to_purge pending_update pending_destroy pending_noop];
  unfold set_insert, inc_version, set_version; cbn [version];
  rewrite <- ?map_set_vals, <- ?map_erase_vals; try congruence.

(** [known] uses what has been decoded. *)
Ltac known :=
  obind; repeat match goal with E : ?x = Some _ |- context [?x] => rewrite E; obind end.

Lemma prepare_respects bl reqid m t1 t2 s1 s2 bl' t' s' :
  version t1 = version t2 -> s1 ≡ s2 -> _prepare bl reqid m (t1, s1) = Some (bl', (t', s')) ->
  t' = inc_version t1 /\
  exists s2', _prepare bl reqid m (t2, s2) = Some (bl', (inc_version t2, s2')) /\ s' ≡ s2'.
Proof.
  intros Hv (E1 & E2 & E3 & E4 & E5 & E6)%equiv_fields H.
  split; [by apply prepare_cases in H as [-> _]|].
  assert (Hv' : version (inc_version t2) = version (inc_version t1)) by (simpl; by rewrite Hv).
  unfold _prepare in *. bind_inv H. known. rewrite Hv'.
  destruct (_ =? TABLE_OP_CREATE); [|destruct (_ =? TABLE_OP_DESTROY);
    [|destruct (_ =? TABLE_OP_UPDATE); [|done]]]; bind_inv H; known.
  - match type of H with match ?p with _ => _ end = _ => destruct p end; [|bind_inv H];
      known; injection H as <- <- <-; unfold reply_last; cbn [last_snap]; rewrite E1;
      (eexists; split; [reflexivity|]); apply equiv_intro; vals.
  - injection H as <- <- <-; unfold reply_last; cbn [last_snap]; rewrite E1;
      (eexists; split; [reflexivity|]); apply equiv_intro; vals.
  - injection H as <- <- <-; unfold reply_last; cbn [last_snap]; rewrite E1;
      (eexists; split; [reflexivity|]); apply equiv_intro; vals.
Qed.

Lemma vals_find {A B} (f : A -> B) m1 m2 k :
  map_vals f m1 = map_vals f m2 -> option_map f (map_find m1 k) = option_map f (map_find m2 k).
Proof. intros E. by rewrite <- !map_find_vals, E. Qed.

(** The entry a commit stores, up to what is saved. *)
Lemma committed_respects s1 s2 i1 i2 :
  map_vals clear_long (snaps s1) = map_vals clear_long (snaps s2) -> clear_long i1 = clear_long i2 ->
  committed_info s1 i1 = committed_info s2 i2.
Proof.
  intros E Ei. destruct i1 as [id1 n1 t1 nm1 l1], i2 as [id2 n2 t2 nm2 l2].
  unfold clear_long in Ei. simpl in Ei. simplify_eq.
  unfold committed_info. cbn [snapid ino stamp name]. f_equal. destruct (no_stamp t2); [|done].
  apply (vals_find _ _ _ id2) in E.
  destruct (map_find (snaps s1) id2) as [o1|], (map_find (snaps s2) id2) as [o2|]; try done.
  simpl in E. unfold clear_long in E. by injection E.
Qed.

Lemma commit_respects mds tid req t1 t2 s1 s2 b t' s' :
  s1 ≡ s2 -> _commit mds tid req (t1, s1) = Some (b, (t', s')) ->
  t' = inc_version t1 /\
  exists s2', _commit mds tid req (t2, s2) = Some (b, (inc_version t2, s2')) /\ s' ≡ s2'.
Proof.
  intros (E1 & E2 & E3 & E4 & E5 & E6)%equiv_fields H. unfold _commit in *.
  pose proof (vals_find _ _ _ tid E4) as Ef. rewrite <- E5, <- E6.
  destruct (map_find (pending_update s1) tid) as [i1|], (map_find (pending_update s2) tid) as [i2|];
    simpl in Ef; try done.
  { assert (Ei : clear_long i1 = clear_long i2) by congruence. simpl in H |- *. injection H as <- <- <-. split; [done|].
    eexists. split; [reflexivity|]. pose proof (committed_respects _ _ _ _ E2 Ei) as Ec.
    apply (f_equal snapid) in Ei as Eid. simpl in Eid.
    apply equiv_intro; cbn [snaps]; rewrite ?Ec, ?Eid; vals. }
  destruct (map_find (pending_destroy s1) tid) as [[sn seq]|].
  { destruct mds as [e|]; [|done]. simpl in H |- *. injection H as <- <- <-. split; [done|].
    eexists. split; [reflexivity|]. apply equiv_intro; vals. }
  destruct (map_find (pending_noop s1) tid); [|done]. simpl in H |- *. injection H as <- <- <-.
  split; [done|]. eexists. split; [reflexivity|]. apply equiv_intro; vals.
Qed.

Lemma rollback_respects tid t1 t2 s1 s2 t' s' :
  s1 ≡ s2 -> _rollback tid (t1, s1) = Some (t', s') ->
  t' = inc_version t1 /\
  exists s2', _rollback tid (t2, s2) = Some (inc_version t2, s2') /\ s' ≡ s2'.
Proof.
  intros (E1 & E2 & E3 & E4 & E5 & E6)%equiv_fields H. unfold _rollback in *.
  pose proof (vals_find _ _ _ tid E4) as Ef. rewrite <- E5, <- E6.
  destruct (map_find (pending_update s1) tid) as [i1|], (map_find (pending_update s2) tid) as [i2|];
    simpl in Ef; try done.
  all: try (destruct (map_find (pending_destroy s1) tid);
    [|destruct (map_find (pending_noop s1) tid); [|done]]).
  all: simpl in H |- *; injection H as <- <-; split; [done|]; eexists; split; [reflexivity|];
    apply equiv_intro; vals.
Qed.

Lemma update_respects bl t1 t2 s1 s2 t' s' :
  s1 ≡ s2 -> _server_update bl (t1, s1) = Some (t', s') ->
  t' = inc_version t1 /\
  exists s2', _server_update bl (t2, s2) = Some (inc_version t2, s2') /\ s' ≡ s2'.
Proof.
  intros (E1 & E2 & E3 & E4 & E5 & E6)%equiv_fields H. unfold _server_update in *.
  destruct (decode_purge bl) as [[p ?]|]; [|done]. simpl in *. injection H as <- <-.
  split; [done|]. eexists. split; [reflexivity|]. apply equiv_intro; vals.
Qed.

(** ** Saving and loading *)

Definition info_storable (i : SnapInfo) : Prop :=
  0 <= snapid i < 2 ^ 64 /\ 0 <= ino i < 2 ^ 64 /\ 0 <= (stamp i).1 < 2 ^ 32 /\
  0 <= (stamp i).2 < 2 ^ 32 /\ Z.of_nat (length (name i)) < 2 ^ 31.

Definition map_storable {V} (lo hi : Z) (P : V -> Prop) (m : list (Z * V)) : Prop :=
  Z.of_nat (length m) < 2 ^ 32 /\ keys_from lo m /\ Forall (fun kv => kv.1 < hi /\ P kv.2) m.

Definition set_storable : zset -> Prop := map_storable 0 (2 ^ 64) (fun _ => True).

(** The widths of the fields, and of the lengths that are written. *)
Record snap_storable (s : snap) : Prop := {
  ss_last : 0 <= last_snap s < 2 ^ 64;
  ss_snaps : map_storable 0 (2 ^ 64) info_storable (snaps s);
  ss_purge : map_storable (- 2 ^ 31) (2 ^ 31) set_storable (need_to_purge s);
  ss_update : map_storable 0 (2 ^ 64) info_storable (pending_update s);
  ss_destroy : map_storable 0 (2 ^ 64)
    (fun d => 0 <= d.1 < 2 ^ 64 /\ 0 <= d.2 < 2 ^ 64) (pending_destroy s);
  ss_noop : set_storable (pending_noop s);
  ss_length : Z.of_nat (length (encode_server_state s)) < 2 ^ 32
}.

Lemma map_storable_keys {V} lo hi (P : V -> Prop) m :
  map_storable lo hi P m -> Forall (fun kv => lo <= kv.1 < hi /\ P kv.2) m.
Proof.
  intros (_ & Hk & Hf). apply keys_from_ge in Hk. rewrite Forall_forall in *. intros kv Hin.
  destruct (Hf _ Hin). specialize (Hk _ Hin). auto.
Qed.

Lemma decode_info_app i rest :
  info_storable i -> decode_info (encode_info i ++ rest) = Some (clear_long i, rest).
Proof.
  intros (? & ? & ? & ? & ?). unfold decode_info, encode_info.
  set (b := encode_u64 (snapid i) ++ _). rewrite <- (app_nil_r b).
  apply decode_struct_legacy_app; [lia..| |]; subst b.
  - rewrite app_nil_r, !length_app. unfold encode_utime, encode_string, encode_u64, encode_u32, encode_uint.
    rewrite !length_app, !le_bytes_length. lia.
  - rewrite app_nil_l. rewrite <- !app_assoc. rewrite decode_u64_app by lia. obind.
    rewrite decode_u64_app by lia. obind. rewrite decode_utime_app by lia. obind.
    rewrite decode_string_app by lia. done.
Qed.

Lemma encode_infos_clear m : encode_map encode_u64 encode_info (map_vals clear_long m) =
  encode_map encode_u64 encode_info m.
Proof. unfold encode_map, encode_list, map_vals. rewrite length_map, map_map. done. Qed.

Lemma keys_vals {A B} (f : A -> B) lo m : keys_from lo (map_vals f m) <-> keys_from lo m.
Proof. revert lo. induction m as [|[k v] m IH]; intros lo; simpl; [done|]. by rewrite IH. Qed.

Lemma decode_infos_app m rest :
  map_storable 0 (2 ^ 64) info_storable m ->
  decode_map decode_u64 decode_info (encode_map encode_u64 encode_info m ++ rest) =
    Some (map_vals clear_long m, rest).
Proof.
  intros Hm. pose proof (map_storable_keys _ _ _ _ Hm) as Hf. destruct Hm as (Hl & Hk & _).
  rewrite <- encode_infos_clear. apply (decode_map_app _ _ _ _ _ _ 0).
  - unfold map_vals. by rewrite length_map.
  - by apply keys_vals.
  - unfold map_vals. apply Forall_map. eapply Forall_impl; [exact Hf|].
    intros [k v] [Hkv Hi]. cbn [fst snd] in *. split; intros r.
    + by apply decode_u64_app.
    + rewrite <- (decode_info_app v r Hi). done.
Qed.

Lemma foldl_insert (s : zset) : foldl set_insert [] (map fst s) =
  foldl (fun mm kv => map_set mm kv.1 kv.2) [] s.
Proof.
  generalize (@nil (Z * unit)). induction s as [|[k []] s IH]; intros acc; simpl; [done|]. apply IH.
Qed.

Lemma decode_set_app s rest : set_storable s -> decode_set (encode_set s ++ rest) = Some (s, rest).
Proof.
  intros Hs. pose proof (map_storable_keys _ _ _ _ Hs) as Hf. destruct Hs as (Hl & Hk & _).
  unfold decode_set, encode_set. rewrite decode_list_app.
  - obind. rewrite foldl_insert.
    by rewrite (map_store_snoc map_set s [] 0) by (done || apply map_set_snoc).
  - by rewrite length_map.
  - apply Forall_map. eapply Forall_impl; [exact Hf|]. intros [k v] [? _] r. by apply decode_u64_app.
Qed.

Lemma decode_sets_app m rest :
  map_storable (- 2 ^ 31) (2 ^ 31) set_storable m ->
  denc_decode_map decode_s32 decode_set (denc_encode_map encode_s32 encode_set m ++ rest) = Some (m, rest).
Proof.
  intros Hm. pose proof (map_storable_keys _ _ _ _ Hm) as Hf. destruct Hm as (Hl & Hk & _).
  apply (denc_decode_map_app _ _ _ _ _ _ (- 2 ^ 31)); [done|done|].
  eapply Forall_impl; [exact Hf|]. intros [k v] [? ?]. split; intros r.
  - by apply decode_s32_app.
  - by apply decode_set_app.
Qed.

Lemma decode_destroys_app m rest :
  map_storable 0 (2 ^ 64) (fun d => 0 <= d.1 < 2 ^ 64 /\ 0 <= d.2 < 2 ^ 64) m ->
  denc_decode_map decode_u64 (decode_pair decode_u64 decode_u64)
    (denc_encode_map encode_u64 (encode_pair encode_u64 encode_u64) m ++ rest) = Some (m, rest).
Proof.
  intros Hm. pose proof (map_storable_keys _ _ _ _ Hm) as Hf. destruct Hm as (Hl & Hk & _).
  apply (denc_decode_map_app _ _ _ _ _ _ 0); [done|done|].
  eapply Forall_impl; [exact Hf|]. intros [k [a b]] (Hkr & Ha & Hb). cbn [fst snd] in *. split; intros r.
  - by apply decode_u64_app.
  - unfold decode_pair, encode_pair. cbn [fst snd]. rewrite <- app_assoc, decode_u64_app by done.
    obind. by rewrite decode_u64_app by done.
Qed.

(** The table that is read back: all but the operation names and the map
    version last checked. *)
Lemma decode_state_app s rest :
  snap_storable s -> decode_server_state (encode_server_state s ++ rest) = Some (saved s, rest).
Proof.
  intros [Hl Hs Hp Hu Hd Hn Hlen]. unfold decode_server_state, encode_server_state in *.
  set (b := encode_u64 (last_snap s) ++ _) in *. rewrite <- (app_nil_r b).
  apply decode_struct_legacy_app; [lia..| |].
  - unfold encode_struct in Hlen. rewrite !length_app in Hlen. rewrite app_nil_r. lia.
  - subst b. rewrite app_nil_l, <- !app_assoc, decode_u64_app by lia. obind.
    rewrite decode_infos_app by done. obind. rewrite decode_sets_app by done. obind.
    rewrite decode_infos_app by done. obind. cbn [Z.leb Z.compare].
    change (2 <=? 3) with true. cbn match. rewrite decode_destroys_app by done. obind.
    rewrite decode_set_app by done. done.
Qed.

Definition purge_storable : list (Z * list Z) -> Prop :=
  map_storable (- 2 ^ 31) (2 ^ 31)
    (fun l => Z.of_nat (length l) < 2 ^ 32 /\ Forall (fun q => 0 <= q < 2 ^ 64) l).

Lemma decode_purge_app m rest :
  purge_storable m -> decode_purge (encode_purge m ++ rest) = Some (m, rest).
Proof.
  intros Hm. pose proof (map_storable_keys _ _ _ _ Hm) as Hf. destruct Hm as (Hl & Hk & _).
  apply (denc_decode_map_app _ _ _ _ _ _ (- 2 ^ 31)); [done|done|].
  eapply Forall_impl; [exact Hf|]. intros [k v] (? & Hlv & Hv). cbn [fst snd] in *. split; intros r.
  - by apply decode_s32_app.
  - apply decode_list_app; [done|]. eapply Forall_impl; [exact Hv|]. intros q Hq r'. by apply decode_u64_app.
Qed.

Lemma version_next v s t : snap_ok v s -> v = version t -> version t + 1 < 2 ^ 64 ->
  version (inc_version t) = version t + 1.
Proof. intros H -> ?. apply inc_version_small; [apply H|done]. Qed.

Lemma snap_range v s x : snap_ok v s -> snap_prepared s x = true -> 0 < x <= v.
Proof. intros H. apply (ko_range _ _ H). Qed.

Lemma snap_prepare_law bl reqid m t s bl' t' s' :
  snap_ok (version t) s -> version t + 1 < 2 ^ 64 ->
  _prepare bl reqid m (t, s) = Some (bl', (t', s')) ->
  t' = inc_version t /\ snap_ok (version t + 1) s' /\
  forall x, snap_prepared s' x = (x =? version t + 1) || snap_prepared s x.
Proof.
  intros Hok Hv [-> Ha]%prepare_cases. rewrite (version_next _ _ t Hok eq_refl Hv) in Ha.
  split; [done|]. by apply add_ok.
Qed.

Lemma snap_commit_law e tid t s :
  snap_ok (version t) s -> version t + 1 < 2 ^ 64 -> snap_prepared s tid = true ->
  exists s', (forall req, _commit (Some e) tid req (t, s) = Some (true, (inc_version t, s'))) /\
    snap_ok (version t + 1) s' /\ forall x, snap_prepared s' x = negb (x =? tid) && snap_prepared s x.
Proof.
  intros Hok Hv Hp. destruct (commit_cases (Some e) tid t s) as (s' & Hc & Hd); [done|done|].
  exists s'. split; [done|]. by apply del_ok.
Qed.

Lemma snap_rollback_law tid t s :
  snap_ok (version t) s -> version t + 1 < 2 ^ 64 -> snap_prepared s tid = true ->
  exists s', _rollback tid (t, s) = Some (inc_version t, s') /\
    snap_ok (version t + 1) s' /\ forall x, snap_prepared s' x = negb (x =? tid) && snap_prepared s x.
Proof.
  intros Hok Hv Hp. destruct (rollback_cases tid t s) as (s' & Hc & Hd); [done|].
  exists s'. split; [done|]. by apply del_ok.
Qed.

Lemma snap_update_law bl t s t' s' :
  snap_ok (version t) s -> version t + 1 < 2 ^ 64 -> _server_update bl (t, s) = Some (t', s') ->
  t' = inc_version t /\ snap_ok (version t + 1) s' /\
  forall x, snap_prepared s' x = snap_prepared s x.
Proof.
  intros [Hv K1 K2 K3 Hr Ho] _ H. unfold _server_update in H. bind_inv H. injection H as <- <-.
  split; [done|]. split; [|done]. split; cbn; try done; [lia|]. intros x Hx. specialize (Hr x Hx). lia.
Qed.

#[export] Instance snap_laws (e : env) : TableServerLaws snap (ops := snap_ops (Some e)).
Proof.
  refine (Build_TableServerLaws snap (snap_ops (Some e)) snap_equiv snap_ok snap_prepared
    (fun bl => exists u, update_ok u /\ bl = TableClient.update_bytes u)
    (fun bl => exists m, purge_storable m /\ bl = encode_purge m)
    snap_storable snap_range snap_prepare_law _ (snap_commit_law e) snap_rollback_law
    snap_update_law _ _ snap_equivalence prepare_respects
    (fun tid req t1 t2 s1 s2 b t' s' _ => commit_respects _ tid req t1 t2 s1 s2 b t' s')
    (fun tid t1 t2 s1 s2 t' s' _ => rollback_respects tid t1 t2 s1 s2 t' s')
    (fun bl t1 t2 s1 s2 t' s' _ => update_respects bl t1 t2 s1 s2 t' s') _).
  - intros bl reqid m [t s] (u & Hu & ->). eexists. by apply prepare_exact.
  - intros bl [t s] (m & Hm & ->). cbn [TableServer._server_update snap_ops]. unfold _server_update.
    rewrite <- (app_nil_r (encode_purge m)), decode_purge_app by done. by eexists.
  - intros from req ts ts' eff [= <- <-]. done.
  - intros s rest Hs. exists (saved s). split; [by apply decode_state_app|apply saved_equiv].
Defined.
End SnapFacts.
