(* ===== verification/SnapTable.v ===== *)
(** * What the snapshot table guarantees

    Purging of destroyed snapshots ([SnapServer::check_osd_map]), the ids that
    snapshots get, the widths of all that the table holds, journals and sends,
    and the round trips of the messages and entries it is sent in. *)

From S2P Require Import Prelude Encoding IntervalSet MDSTable TableServer TableClient SnapServer.
Import Encoding MDSTable TableServer ServerFacts SnapServer SnapFacts.

Module SnapTable.

(** ** check_osd_map *)

(** Snapshot [q] of pool [id] is to be purged. *)
Definition member (np : list (Z * zset)) (id q : Z) : bool :=
  match map_find np id with Some s => has s q | None => false end.

(** Pool [id] is gone, or has removed snapshot [q]. *)
Definition removed_at (e : env) (id q : Z) : bool :=
  match get_pg_pool e id with None => true | Some pi => is_removed_snap pi q end.

(** [id] with its snapshots, where there are any. *)
Definition entry_of (id : Z) (l : list Z) : list (Z * list Z) :=
  match l with [] => [] | _ :: _ => [(id, l)] end.

Definition purged_part (e : env) (p : Z * zset) : list (Z * list Z) :=
  match get_pg_pool e p.1 with
  | None => [(p.1, map fst p.2)]
  | Some pi => entry_of p.1 (List.filter (is_removed_snap pi) (map fst p.2))
  end.
Definition asked_part (e : env) (p : Z * zset) : list (Z * list Z) :=
  match get_pg_pool e p.1 with
  | None => []
  | Some pi => entry_of p.1 (List.filter (fun q => negb (is_removed_snap pi q)) (map fst p.2))
  end.

Lemma push_entry A id l q :
  Forall (fun p => p.1 < id) A -> push (A ++ entry_of id l) id q = A ++ entry_of id (l ++ [q]).
Proof.
  intros HA. unfold push. destruct l as [|x l]; cbn [entry_of app].
  - rewrite app_nil_r. assert (map_find A id = None) as ->.
    { induction HA as [|[k v] A Hk HA IH]; [done|]. simpl in *. by rewrite (proj2 (Z.eqb_neq k id)) by lia. }
    by apply map_set_snoc.
  - assert (map_find (A ++ [(id, x :: l)]) id = Some (x :: l)) as ->.
    { induction HA as [|[k v] A Hk HA IH]; simpl in *; [by rewrite Z.eqb_refl|].
      by rewrite (proj2 (Z.eqb_neq k id)) by lia. }
    cbn [default]. induction HA as [|[k v] A Hk HA IH]; simpl in *; [by rewrite Z.ltb_irrefl, Z.eqb_refl|].
    rewrite (proj2 (Z.ltb_lt k id)) by lia. by f_equal.
Qed.

Lemma check_snaps pi id qs A B l1 l2 :
  Forall (fun p => p.1 < id) A -> Forall (fun p => p.1 < id) B ->
  foldl (fun acc q =>
      if is_removed_snap pi q then (push acc.1 id q, acc.2) else (acc.1, push acc.2 id q))
    (A ++ entry_of id l1, B ++ entry_of id l2) qs =
  (A ++ entry_of id (l1 ++ List.filter (is_removed_snap pi) qs),
   B ++ entry_of id (l2 ++ List.filter (fun q => negb (is_removed_snap pi q)) qs)).
Proof.
  intros HA HB. revert l1 l2. induction qs as [|q qs IH]; intros l1 l2; cbn [foldl List.filter].
  { by rewrite !app_nil_r. }
  cbn [fst snd]. destruct (is_removed_snap pi q); cbn [negb]; rewrite push_entry, IH by done;
    by rewrite <- app_assoc.
Qed.

Lemma parts_below e p : Forall (fun x => x.1 = p.1) (purged_part e p ++ asked_part e p).
Proof.
  unfold purged_part, asked_part. destruct (get_pg_pool e p.1) as [pi|]; [|by repeat constructor].
  apply Forall_app. split; [destruct (List.filter _ _)|destruct (List.filter _ _)]; by repeat constructor.
Qed.

(** The loop splits what is to be purged. *)
Lemma check_pools e np lo A B :
  keys_from lo np -> Forall (fun p => p.1 < lo) A -> Forall (fun p => p.1 < lo) B ->
  foldl (check_pool e) (A, B) np = (A ++ concat (map (purged_part e) np), B ++ concat (map (asked_part e) np)).
Proof.
  revert lo A B. induction np as [|[id s] np IH]; intros lo A B Hk HA HB.
  { cbn. by rewrite !app_nil_r. }
  destruct Hk as [Hlo Hk].
  assert (HA' : Forall (fun p => p.1 < id) A) by (eapply Forall_impl; [exact HA|]; cbn; lia).
  assert (HB' : Forall (fun p => p.1 < id) B) by (eapply Forall_impl; [exact HB|]; cbn; lia).
  assert (Hstep : check_pool e (A, B) (id, s) = (A ++ purged_part e (id, s), B ++ asked_part e (id, s))).
  { unfold check_pool, purged_part, asked_part. cbn [fst snd]. destruct (get_pg_pool e id) as [pi|].
    - pose proof (check_snaps pi id (map fst s) A B [] [] HA' HB') as H. cbn [entry_of] in H.
      rewrite !app_nil_r in H. exact H.
    - rewrite app_nil_r. by rewrite map_set_snoc. }
  cbn [foldl map concat]. rewrite Hstep. pose proof (parts_below e (id, s)) as Hp. apply Forall_app in Hp as [Hp1 Hp2].
  rewrite (IH (id + 1)), <- !app_assoc; [done|done|..]; apply Forall_app; split.
  1, 3: eapply Forall_impl; [eassumption|]; cbn; lia.
  all: eapply Forall_impl; [eassumption|]; cbn; lia.
Qed.

(** ** What _server_update leaves *)

Lemma has_erases (s : zset) qs x : has (foldl map_erase s qs) x = has s x && negb (bool_decide (x ∈ qs)).
Proof.
  revert s. induction qs as [|q qs IH]; intros s; cbn [foldl].
  { rewrite bool_decide_eq_false_2 by (by intros ?%elem_of_nil). by rewrite andb_true_r. }
  rewrite IH. unfold has at 1. rewrite map_find_erase_any. fold (has s x).
  destruct (Z.eqb_spec x q) as [->|Hne].
  - rewrite (bool_decide_eq_true_2 (q ∈ q :: qs)) by left. by rewrite andb_false_r.
  - fold (has s x). f_equal. f_equal. apply bool_decide_ext. rewrite elem_of_cons. naive_solver.
Qed.

Lemma purged_member np id qs x q :
  member (purged np (id, qs)) x q = member np x q && negb ((x =? id) && bool_decide (q ∈ qs)).
Proof.
  unfold purged, member. cbn [fst snd]. pose proof (has_erases (default [] (map_find np id)) qs q) as Hs.
  destruct (foldl map_erase _ qs) as [|a l].
  - rewrite map_find_erase_any. destruct (Z.eqb_spec x id) as [->|]; [|by rewrite andb_true_r].
    cbn [andb]. destruct (map_find np id) as [s|]; [|done]. cbn in Hs. by rewrite <- Hs.
  - rewrite map_find_set_any. destruct (Z.eqb_spec x id) as [->|]; [|by rewrite andb_true_r].
    cbn [andb]. rewrite Hs. by destruct (map_find np id).
Qed.

Lemma update_member np l x q :
  member (foldl purged np l) x q = true <->
  member np x q = true /\ ~ exists qs, (x, qs) ∈ l /\ q ∈ qs.
Proof.
  revert np. induction l as [|[id qs] l IH]; intros np; cbn [foldl].
  { split; [|tauto]. intros H. split; [done|]. by intros (? & ?%elem_of_nil & _). }
  rewrite IH, purged_member, andb_true_iff, negb_true_iff, andb_false_iff, Z.eqb_neq, bool_decide_eq_false.
  split.
  - intros [[Hm Hn] Hl]. split; [done|]. intros (qs' & [E|Hin]%elem_of_cons & Hq); [|eauto]. injection E as -> ->. tauto.
  - intros [Hm Hn]. split_and!; [done| |intros (qs' & ? & ?); apply Hn; exists qs'; split; [by right|done]].
    destruct (decide (x = id)) as [->|]; [right|by left]. intros Hq. apply Hn. exists qs. split; [left|done].
Qed.

(** ** The two lists that the loop makes *)

Lemma elem_entry id l x qs : (x, qs) ∈ entry_of id l <-> x = id /\ qs = l /\ l <> [].
Proof.
  unfold entry_of. destruct l as [|a l]; [split; [by intros ?%elem_of_nil|naive_solver]|].
  rewrite list_elem_of_singleton. naive_solver.
Qed.

Lemma has_elem (s : zset) q : q ∈ map fst s <-> has s q = true.
Proof.
  unfold has. induction s as [|[k v] s IH]; cbn; [split; [by intros ?%elem_of_nil|done]|].
  rewrite elem_of_cons, IH. destruct (Z.eqb_spec k q) as [->|Hne]; naive_solver.
Qed.

Lemma elem_filter (f : Z -> bool) (l : list Z) q : q ∈ List.filter f l <-> q ∈ l /\ f q = true.
Proof. by rewrite !list_elem_of_In, filter_In. Qed.

Lemma part_purged e p q :
  (exists qs, (p.1, qs) ∈ purged_part e p /\ q ∈ qs) <-> has p.2 q = true /\ removed_at e p.1 q = true.
Proof.
  unfold purged_part, removed_at. destruct (get_pg_pool e p.1) as [pi|].
  - setoid_rewrite elem_entry. rewrite <- has_elem, <- (elem_filter (is_removed_snap pi)).
    split; [by intros (qs & (_ & -> & _) & ?)|]. intros Hq. eexists. split; [|exact Hq].
    split_and!; [done..|]. intros E. rewrite E in Hq. by apply elem_of_nil in Hq.
  - setoid_rewrite list_elem_of_singleton. rewrite <- has_elem. naive_solver.
Qed.

Lemma part_asked e p q :
  (exists qs, (p.1, qs) ∈ asked_part e p /\ q ∈ qs) <-> has p.2 q = true /\ removed_at e p.1 q = false.
Proof.
  unfold asked_part, removed_at. destruct (get_pg_pool e p.1) as [pi|].
  - setoid_rewrite elem_entry. rewrite <- has_elem, <- (negb_true_iff (is_removed_snap pi q)).
    rewrite <- (elem_filter (fun q => negb (is_removed_snap pi q))).
    split; [by intros (qs & (_ & -> & _) & ?)|]. intros Hq. eexists. split; [|exact Hq].
    split_and!; [done..|]. intros E. rewrite E in Hq. by apply elem_of_nil in Hq.
  - split; [by intros (? & ?%elem_of_nil & _)|naive_solver].
Qed.

(** Lists made pool by pool, seen at one pool. *)
Lemma elem_parts (part : Z * zset -> list (Z * list Z)) np lo x q b e :
  keys_from lo np -> (forall p, Forall (fun y => y.1 = p.1) (part p)) ->
  (forall p, (exists qs, (p.1, qs) ∈ part p /\ q ∈ qs) <-> has p.2 q = true /\ removed_at e p.1 q = b) ->
  (exists qs, (x, qs) ∈ concat (map part np) /\ q ∈ qs) <-> member np x q = true /\ removed_at e x q = b.
Proof.
  intros Hk Hfst Hp. unfold member. split.
  - intros (qs & Hin & Hq). apply list_elem_of_In, in_concat in Hin as (l & Hl & Hin).
    apply in_map_iff in Hl as (p & <- & Hl). apply list_elem_of_In in Hl. apply list_elem_of_In in Hin.
    assert (x = p.1) as -> by (specialize (Hfst p); rewrite Forall_forall in Hfst; by apply (Hfst (x, qs))).
    destruct p as [id s]. cbn [fst] in *. rewrite (map_find_elem lo np id s Hk Hl). apply (Hp (id, s)). eauto.
  - destruct (map_find np x) as [s|] eqn:E; [|by intros [? _]]. intros H. apply (Hp (x, s)) in H as (qs & Hin & Hq).
    exists qs. split; [|done]. apply list_elem_of_In, in_concat. exists (part (x, s)).
    split; [|by apply list_elem_of_In]. apply in_map_iff. exists (x, s). split; [done|].
    clear -E. induction np as [|[k v] np IH]; [done|]. cbn in *. destruct (Z.eqb_spec k x) as [->|]; [left; congruence|right; auto].
Qed.

Lemma purged_spec e np lo x q : keys_from lo np ->
  (exists qs, (x, qs) ∈ concat (map (purged_part e) np) /\ q ∈ qs) <-> member np x q = true /\ removed_at e x q = true.
Proof.
  intros Hk. apply (elem_parts _ np lo x q true e Hk); [|intros p; apply part_purged].
  intros p. pose proof (parts_below e p) as H. by apply Forall_app in H as [H _].
Qed.

Lemma asked_spec e np lo x q : keys_from lo np ->
  (exists qs, (x, qs) ∈ concat (map (asked_part e) np) /\ q ∈ qs) <-> member np x q = true /\ removed_at e x q = false.
Proof.
  intros Hk. apply (elem_parts _ np lo x q false e Hk); [|intros p; apply part_asked].
  intros p. pose proof (parts_below e p) as H. by apply Forall_app in H as [_ H].
Qed.

(** What is to be journalled fits its encoding when the table does. *)
Lemma purged_storable e np :
  map_storable (- 2 ^ 31) (2 ^ 31) set_storable np -> purge_storable (concat (map (purged_part e) np)).
Proof.
  unfold purge_storable, map_storable. generalize (- 2 ^ 31). intros lo. revert lo.
  enough (H : forall lo, keys_from lo np -> Forall (fun kv => kv.1 < 2 ^ 31 /\ set_storable kv.2) np ->
    (length (concat (map (purged_part e) np)) <= length np)%nat /\
    keys_from lo (concat (map (purged_part e) np)) /\
    Forall (fun kv => kv.1 < 2 ^ 31 /\ Z.of_nat (length kv.2) < 2 ^ 32 /\ Forall (fun q => 0 <= q < 2 ^ 64) kv.2)
      (concat (map (purged_part e) np))).
  { intros lo (Hl & Hk & Hf). destruct (H lo Hk Hf) as (? & ? & ?). split_and!; [lia|done|done]. }
  induction np as [|[id s] np IH]; intros lo Hk Hf; [done|]. destruct Hk as [Hlo Hk].
  apply Forall_cons in Hf as [[Hid Hs] Hf]. destruct (IH _ Hk Hf) as (IH1 & IH2 & IH3).
  assert (Hq : forall f, Z.of_nat (length (List.filter f (map fst s))) < 2 ^ 32 /\
    Forall (fun q => 0 <= q < 2 ^ 64) (List.filter f (map fst s))).
  { intros f. pose proof (map_storable_keys _ _ _ _ Hs) as Hks. destruct Hs as (Hls & _). cbn [fst snd] in *. split.
    - pose proof (filter_length_le f (map fst s)). rewrite length_map in *. lia.
    - apply Forall_forall. intros q [Hq _]%elem_filter. apply list_elem_of_fmap in Hq as (y & -> & Hy).
      rewrite Forall_forall in Hks. by apply Hks. }
  cbn [map concat]. unfold purged_part at 1 3 5. cbn [fst snd].
  assert (Hone : forall l, Z.of_nat (length l) < 2 ^ 32 -> Forall (fun q => 0 <= q < 2 ^ 64) l ->
    (length ([(id, l)] ++ concat (map (purged_part e) np)) <= Datatypes.S (length np))%nat /\
    keys_from lo ([(id, l)] ++ concat (map (purged_part e) np)) /\
    Forall (fun kv => kv.1 < 2 ^ 31 /\ Z.of_nat (length kv.2) < 2 ^ 32 /\ Forall (fun q => 0 <= q < 2 ^ 64) kv.2)
      ([(id, l)] ++ concat (map (purged_part e) np))).
  { intros l ? ?. cbn [app length keys_from]. split_and!; [lia|lia|done|by constructor]. }
  destruct (get_pg_pool e id) as [pi|].
  - destruct (Hq (is_removed_snap pi)) as [Hql Hqf]. destruct (List.filter _ _) as [|q l]; [|by apply Hone].
    cbn [entry_of app length]. split_and!; [lia| |done]. eapply keys_from_weaken; [|exact IH2]. lia.
  - apply Hone; destruct (Hq (fun _ => true)) as [Hql Hqf]; by rewrite filter_true in *.
Qed.

Definition checked (sv : server snap) : server snap :=
  let s := st sv in
  with_state (base sv, MkSnap (last_snap s) (snaps s) (need_to_purge s) (pending_update s)
    (pending_destroy s) (pending_noop s) (sversion sv)) sv.

Lemma checked_same sv : same sv (checked sv).
Proof. by split. Qed.

(** The server once the purged snapshots are taken from the list. *)
Lemma purge_update e sv purge :
  server_ok (laws := snap_laws e) sv -> sversion sv + 1 < 2 ^ 64 -> purge_storable purge ->
  exists sv', do_server_update (ops := snap_ops (Some e)) (encode_purge purge) sv =
      Some (sv', [Submit (update_entry sv (encode_purge purge)) None]) /\
    records (ops := snap_ops (Some e)) (update_entry sv (encode_purge purge)) sv sv' /\
    server_ok (laws := snap_laws e) sv' /\ pending_for_mds sv' = pending_for_mds sv /\
    st sv' = MkSnap (last_snap (st sv)) (snaps (st sv)) (foldl purged (need_to_purge (st sv)) purge)
      (pending_update (st sv)) (pending_destroy (st sv)) (pending_noop (st sv)) (last_checked_osdmap (st sv)).
Proof.
  intros Hok Hv Hp.
  destruct (do_server_update (ops := snap_ops (Some e)) (encode_purge purge) sv) as [[sv' eff]|] eqn:E.
  - pose proof E as E'. apply (do_server_update_spec (laws := snap_laws e)) in E as (-> & HP & Hok' & Hrec); [|done..].
    exists sv'. split_and!; try done. unfold do_server_update in E'. cbn [TableServer._server_update snap_ops] in E'.
    unfold _server_update in E'. rewrite <- (app_nil_r (encode_purge purge)), decode_purge_app in E' by done.
    cbn [mbind option_bind] in E'. by injection E' as <- _.
  - unfold do_server_update in E. cbn [TableServer._server_update snap_ops] in E. unfold _server_update in E.
    by rewrite <- (app_nil_r (encode_purge purge)), decode_purge_app in E by done.
Qed.

(** C27: when the OSD map is checked, the snapshots that their pool has removed,
    or whose pool is gone, are taken off the list of those to purge, in one
    journal entry that replays; the monitor is asked to remove exactly the ones
    that stay on the list; and nothing else of the table changes. *)
Theorem check_osd_map_correct e force sv :
  server_ok (laws := snap_laws e) sv -> sversion sv + 1 < 2 ^ 64 ->
  map_storable (- 2 ^ 31) (2 ^ 31) set_storable (need_to_purge (st sv)) ->
  force = true \/ sversion sv <> last_checked_osdmap (st sv) ->
  exists sv' eff ask, check_osd_map e force sv = Some (sv', eff, ask) /\
    (forall id q, member (need_to_purge (st sv')) id q = true <->
       member (need_to_purge (st sv)) id q = true /\ removed_at e id q = false) /\
    (forall id q, (exists l, (id, l) ∈ ask /\ q ∈ l) <->
       member (need_to_purge (st sv)) id q = true /\ removed_at e id q = false) /\
    (logged eff = [] /\ same sv sv' \/
     exists le sv1, logged eff = [le] /\ records (ops := snap_ops (Some e)) le sv sv1 /\ same sv1 sv') /\
    pending_for_mds sv' = pending_for_mds sv /\ last_snap (st sv') = last_snap (st sv) /\
    snaps (st sv') = snaps (st sv) /\ pending_update (st sv') = pending_update (st sv) /\
    pending_destroy (st sv') = pending_destroy (st sv) /\ pending_noop (st sv') = pending_noop (st sv) /\
    last_checked_osdmap (st sv') = sversion sv'.
Proof.
  intros Hok Hv Hst Hf. pose proof (proj1 (proj2 Hst)) as Hk. unfold check_osd_map.
  assert (negb force && (sversion sv =? last_checked_osdmap (st sv)) = false) as ->.
  { destruct Hf as [->|Hne]; [done|]. by rewrite (proj2 (Z.eqb_neq _ _) Hne), andb_false_r. }
  rewrite (check_pools e _ (- 2 ^ 31) [] []) by done. cbn [app].
  pose proof (fun id q => purged_spec e _ _ id q Hk) as Hpur.
  pose proof (fun id q => asked_spec e _ _ id q Hk) as Hask.
  pose proof (purged_storable e _ Hst) as Hps.
  destruct (concat (map (purged_part e) _)) as [|a l] eqn:Ep.
  - eexists (checked sv), [], _. split; [done|]. split_and!; try done; [|left; split; [done|apply checked_same]].
    intros id q. cbn [checked with_state st snd need_to_purge]. split; [|tauto]. intros Hm. split; [done|].
    destruct (removed_at e id q) eqn:E; [|done]. exfalso.
    destruct (proj2 (Hpur id q) (conj Hm E)) as (qs & Hin & _). by apply elem_of_nil in Hin.
  - destruct (purge_update e sv (a :: l) Hok Hv Hps) as (sv1 & -> & Hrec & Hok1 & HP & Hst1).
    eexists (checked sv1), _, _. split; [done|].
    unfold checked. cbn [with_state st snd fst pending_for_mds last_snap snaps need_to_purge pending_update
      pending_destroy pending_noop last_checked_osdmap]. rewrite Hst1.
    cbn [last_snap snaps need_to_purge pending_update pending_destroy pending_noop].
    split_and!; try done.
    + intros id q. rewrite update_member, Hpur. destruct (removed_at e id q); naive_solver.
    + right. eexists _, sv1. split; [done|]. split; [done|]. split; cbn [with_state tab st base pending_for_mds fst snd]; [done..| |done].
      unfold equiv, snap_equiv, saved. by rewrite Hst1.
Qed.

(** ** The ids of snapshots

    [last_snap] is above every id in use; a snapshot that is to be purged, or
    will be once its destruction is committed, is neither in the table nor in an
    update that would put it there. *)

Definition updating (s : snap) (id : Z) : Prop :=
  exists t i, map_find (pending_update s) t = Some i /\ snapid i = id.

Record ids_ok (s : snap) : Prop := {
  id_keys : keys_from (- 2 ^ 31) (need_to_purge s);
  id_snaps x : has (snaps s) x = true -> x <= last_snap s;
  id_update x : updating s x -> x <= last_snap s;
  id_destroy t sn seq : map_find (pending_destroy s) t = Some (sn, seq) ->
    sn <= last_snap s /\ seq <= last_snap s /\ has (snaps s) seq = false /\
    ~ updating s sn /\ ~ updating s seq;
  id_purge id q : member (need_to_purge s) id q = true ->
    q <= last_snap s /\ has (snaps s) q = false /\ ~ updating s q
}.

(** What the clients ask for, which hold the lock on a realm's snapshots until
    their update is committed: to destroy or rename a snapshot that is in the
    table, and not both at once. *)
Definition disciplined (u : TableClient.update) (s : snap) : Prop :=
  match u with
  | TableClient.Create _ _ _ | TableClient.CreateRealm _ => True
  | TableClient.Destroy _ id => has (snaps s) id = true /\ ~ updating s id
  | TableClient.Rename _ id _ _ =>
      has (snaps s) id = true /\ forall t sn seq, map_find (pending_destroy s) t = Some (sn, seq) -> sn <> id
  end.

Lemma updating_set s s' t i x :
  pending_update s' = map_set (pending_update s) t i -> updating s' x -> x = snapid i \/ updating s x.
Proof.
  intros E (t' & i' & Hf & <-). rewrite E, map_find_set_any in Hf.
  destruct (t' =? t); [left; congruence|]. right. by exists t', i'.
Qed.

Lemma updating_erase s s' t x :
  pending_update s' = map_erase (pending_update s) t -> updating s' x -> updating s x.
Proof.
  intros E (t' & i' & Hf & <-). rewrite E, map_find_erase_any in Hf.
  destruct (t' =? t); [done|]. by exists t', i'.
Qed.

Lemma updating_same s s' x : pending_update s' = pending_update s -> updating s' x -> updating s x.
Proof. unfold updating. by intros ->. Qed.

Lemma ids_prepare u tid s :
  ids_ok s -> 0 <= last_snap s -> last_snap s + 1 < 2 ^ 64 -> disciplined u s -> ids_ok (prepare_update u tid s).
Proof.
  intros [K1 K2 K3 K4 K5] H0 Hv Hd. destruct u as [i nm stm|i|i id|i id nm stm]; cbn [prepare_update disciplined] in *;
    rewrite ?u64_small by lia.
  - assert (HU : forall s', pending_update s' = map_set (pending_update s) tid (MkInfo (last_snap s + 1) i stm nm str_create) ->
      forall x, updating s' x -> x = last_snap s + 1 \/ updating s x) by (intros s' E x; by apply (updating_set s s' _ _ x E)).
    split; cbn; [done|intros x Hx; specialize (K2 x Hx); lia|..].
    + intros x [->|Hx]%HU; [lia| |done]. specialize (K3 x Hx). lia.
    + intros t sn seq Hf. destruct (K4 t sn seq Hf) as (? & ? & ? & ? & ?).
      split_and!; [lia|lia|done|intros [->|?]%HU; done || lia..].
    + intros id q Hm. destruct (K5 id q Hm) as (? & ? & ?). split_and!; [lia|done|intros [->|?]%HU; done || lia].
  - by split.
  - split; cbn; [done|intros x Hx; specialize (K2 x Hx); lia|intros x Hx; specialize (K3 x Hx); lia| |].
    + intros t sn seq Hf. rewrite map_find_set_any in Hf. destruct (t =? tid).
      * injection Hf as <- <-. destruct Hd as [Hl Hn]. pose proof (K2 _ Hl). split_and!; [lia|lia| |done|].
        -- destruct (has (snaps s) (last_snap s + 1)) eqn:E; [|done]. apply K2 in E. lia.
        -- intros Hx%K3. lia.
      * destruct (K4 t sn seq Hf) as (? & ? & ? & ? & ?). split_and!; [lia|lia|done..].
    + intros id' q Hm. destruct (K5 id' q Hm) as (? & ? & ?). split_and!; [lia|done..].
  - destruct Hd as [Hl Hn]. pose proof (K2 _ Hl).
    assert (HU : forall s', pending_update s' = map_set (pending_update s) tid (MkInfo id i stm nm str_update) ->
      forall x, updating s' x -> x = id \/ updating s x) by (intros s' E x; by apply (updating_set s s' _ _ x E)).
    split; cbn; [done|intros x Hx; specialize (K2 x Hx); lia|..].
    + intros x [->|Hx]%HU; [lia| |done]. specialize (K3 x Hx). lia.
    + intros t sn seq Hf. destruct (K4 t sn seq Hf) as (? & ? & ? & ? & ?). specialize (Hn t sn seq Hf).
      split_and!; [lia|lia|done|intros [->|?]%HU; done..| intros [->|?]%HU; try done; congruence].
    + intros id' q Hm. destruct (K5 id' q Hm) as (? & ? & ?).
      split_and!; [lia|done|intros [->|?]%HU; done || congruence].
Qed.

Lemma purge_from_spec pools sn seq np :
  keys_from (- 2 ^ 31) np ->
  keys_from (- 2 ^ 31) (purge_from pools sn seq np) /\
  forall id q, member (purge_from pools sn seq np) id q = true -> member np id q = true \/ q = sn \/ q = seq.
Proof.
  unfold purge_from. revert np. induction pools as [|p pools IH]; intros np Hk; cbn [foldl]; [auto|].
  set (np1 := map_set np (s32 p) _). assert (Hk1 : keys_from (- 2 ^ 31) np1).
  { apply map_set_keys; [done|]. unfold s32. pose proof (Z.mod_pos_bound (p + 2 ^ 31) (2 ^ 32)). lia. }
  destruct (IH np1 Hk1) as [IH1 IH2]. split; [done|]. intros id q Hm. destruct (IH2 id q Hm) as [H|?]; [|auto].
  subst np1. unfold member in *. rewrite map_find_set_any in H. destruct (Z.eqb_spec id (s32 p)) as [->|]; [|auto].
  unfold has, set_insert in H. rewrite !map_find_set_any in H.
  destruct (Z.eqb_spec q seq); [auto|]. destruct (Z.eqb_spec q sn); [auto|].
  destruct (map_find np (s32 p)); [|done]. auto.
Qed.

Lemma ids_commit e tid req t s b t' s' :
  ids_ok s -> _commit (Some e) tid req (t, s) = Some (b, (t', s')) -> ids_ok s'.
Proof.
  intros [K1 K2 K3 K4 K5] H. unfold _commit in H. destruct (map_find (pending_update s) tid) as [i|] eqn:E.
  { cbn in H. injection H as _ _ <-. assert (Hi : updating s (snapid i)) by (by exists tid, i).
    assert (HU : forall s' x, pending_update s' = map_erase (pending_update s) tid -> updating s' x -> updating s x)
      by (intros; by eapply updating_erase).
    assert (HS : forall x, has (map_set (snaps s) (snapid i) (committed_info s i)) x = true ->
      x = snapid i \/ has (snaps s) x = true).
    { intros x. unfold has. rewrite map_find_set_any. destruct (Z.eqb_spec x (snapid i)); auto. }
    assert (HN : forall x, has (snaps s) x = false -> ~ updating s x ->
      has (map_set (snaps s) (snapid i) (committed_info s i)) x = false).
    { intros x Hx Hn. destruct (has (map_set _ _ _) x) eqn:Eh; [|done]. apply HS in Eh as [->|?]; [done|congruence]. }
    split; cbn; [done|intros x [->|Hx]%HS; [by apply K3|by apply K2]|intros x Hx; by eapply K3, HU; [|exact Hx]|..].
    - intros t1 sn seq Hf. destruct (K4 t1 sn seq Hf) as (? & ? & ? & ? & ?).
      split_and!; [done|done|by apply HN|intros Hx%HU; done|intros Hx%HU; done].
    - intros id q Hm. destruct (K5 id q Hm) as (? & ? & ?). split_and!; [done|by apply HN|intros Hx%HU; done]. }
  destruct (map_find (pending_destroy s) tid) as [[sn seq]|] eqn:Ed.
  { cbn in H. injection H as _ _ <-. destruct (purge_from_spec (data_pools e) sn seq _ K1) as [P1 P2].
    destruct (K4 _ _ _ Ed) as (D1 & D2 & D3 & D4 & D5).
    assert (HS : forall x, has (map_erase (snaps s) sn) x = negb (x =? sn) && has (snaps s) x).
    { intros x. unfold has. rewrite map_find_erase_any. by destruct (x =? sn). }
    split; cbn [snaps need_to_purge last_snap pending_destroy]; [done| |exact K3|..].
    - intros x. rewrite HS. intros [_ Hx]%andb_prop. by apply K2.
    - intros t1 sn1 seq1 Hf. rewrite map_find_erase_any in Hf. destruct (t1 =? tid); [done|].
      destruct (K4 t1 sn1 seq1 Hf) as (? & ? & Hs & ? & ?). rewrite HS, Hs, andb_false_r. done.
    - intros id q Hm. rewrite HS. destruct (P2 id q Hm) as [Ho|[-> | ->]].
      + destruct (K5 id q Ho) as (? & -> & ?). by rewrite andb_false_r.
      + by rewrite Z.eqb_refl.
      + by rewrite D3, andb_false_r. }
  destruct (map_find (pending_noop s) tid); [|done]. cbn in H. injection H as _ _ <-. by split.
Qed.

Lemma ids_rollback tid t s t' s' : ids_ok s -> _rollback tid (t, s) = Some (t', s') -> ids_ok s'.
Proof.
  intros [K1 K2 K3 K4 K5] H. unfold _rollback in H. destruct (map_find (pending_update s) tid) as [i|].
  { cbn in H. injection H as _ <-.
    assert (HU : forall s' x, pending_update s' = map_erase (pending_update s) tid -> updating s' x -> updating s x)
      by (intros; by eapply updating_erase).
    split; cbn; [done|done|intros x Hx; by eapply K3, HU; [|exact Hx]|..].
    - intros t1 sn seq Hf. destruct (K4 t1 sn seq Hf) as (? & ? & ? & ? & ?).
      split_and!; [done..|intros Hx%HU; done|intros Hx%HU; done].
    - intros id q Hm. destruct (K5 id q Hm) as (? & ? & ?). split_and!; [done..|intros Hx%HU; done]. }
  destruct (map_find (pending_destroy s) tid).
  { cbn in H. injection H as _ <-. split; cbn; try done. intros t1 sn seq Hf. rewrite map_find_erase_any in Hf.
    destruct (t1 =? tid); [done|]. by apply (K4 t1). }
  destruct (map_find (pending_noop s) tid); [|done]. cbn in H. injection H as _ <-. by split.
Qed.

Lemma purged_keys lo np pq : keys_from lo np -> keys_from lo (purged np pq).
Proof.
  intros Hk. unfold purged. destruct (foldl map_erase (default [] (map_find np pq.1)) pq.2) as [|a l] eqn:E.
  { by apply map_erase_keys. }
  apply map_set_keys; [done|]. destruct (map_find np pq.1) as [s|] eqn:Ef.
  - destruct (Z.lt_ge_cases pq.1 lo) as [Hlt|]; [|lia]. by rewrite (map_find_below lo) in Ef.
  - cbn in E. assert (E' : forall qs, foldl map_erase ([] : zset) qs = []) by (induction qs; done). by rewrite E' in E.
Qed.

Lemma ids_purged bl t s t' s' : ids_ok s -> _server_update bl (t, s) = Some (t', s') -> ids_ok s'.
Proof.
  intros [K1 K2 K3 K4 K5] H. unfold _server_update in H. destruct (decode_purge bl) as [[l ?]|]; [|done].
  cbn in H. injection H as _ <-. split; cbn; try done.
  - revert K1. generalize (need_to_purge s). clear. induction l as [|pq l IH]; intros np Hk; [done|].
    cbn [foldl]. by apply IH, purged_keys.
  - intros id q [Hm _]%update_member. by apply (K5 id).
Qed.

(** ** A table that is used as the clients use it *)

Section Managed.
Context (e : env).
#[local] Instance managed_ops : TableServerOps snap := snap_ops (Some e).

(** From a table that [reset_state] made: requests, whose updates are
    disciplined, and checks of the OSD map. *)
Inductive managed : server snap -> Prop :=
  | managed_new t s s0 : reset_state (Some e) s0 = Some s ->
      pending_update s0 = [] -> pending_destroy s0 = [] -> 0 <= last_snap s ->
      managed (MkServer TABLE_SNAP t s [])
  | managed_request sv from req sv' eff : managed sv ->
      (r_op req = TABLESERVER_OP_PREPARE -> last_snap (st sv) + 1 < 2 ^ 64 /\
         exists u, r_bl req = TableClient.update_bytes u /\ update_ok u /\ disciplined u (st sv)) ->
      handle_request 0 from req sv = Some (sv', eff) -> managed sv'
  | managed_check sv e' force sv' eff ask : managed sv ->
      check_osd_map e' force sv = Some (sv', eff, ask) -> managed sv'.

Lemma last_commit tid req t s b t' s' :
  _commit (Some e) tid req (t, s) = Some (b, (t', s')) -> last_snap s' = last_snap s.
Proof.
  intros H. unfold _commit in H.
  destruct (map_find (pending_update s) tid) as [i|]; [by injection H as _ _ <-|].
  destruct (map_find (pending_destroy s) tid) as [[sn seq]|]; [by injection H as _ _ <-|].
  destruct (map_find (pending_noop s) tid); [|done]. by injection H as _ _ <-.
Qed.

Lemma last_rollback tid t s t' s' : _rollback tid (t, s) = Some (t', s') -> last_snap s' = last_snap s.
Proof.
  intros H. unfold _rollback in H. destruct (map_find (pending_update s) tid); [by injection H as _ <-|].
  destruct (map_find (pending_destroy s) tid); [by injection H as _ <-|].
  destruct (map_find (pending_noop s) tid); [|done]. by injection H as _ <-.
Qed.

Lemma request_ids sv from req sv' eff :
  ids_ok (st sv) /\ 0 <= last_snap (st sv) ->
  (r_op req = TABLESERVER_OP_PREPARE -> last_snap (st sv) + 1 < 2 ^ 64 /\
     exists u, r_bl req = TableClient.update_bytes u /\ update_ok u /\ disciplined u (st sv)) ->
  handle_request 0 from req sv = Some (sv', eff) -> ids_ok (st sv') /\ 0 <= last_snap (st sv').
Proof.
  intros [Hi H0] Hp H. unfold handle_request in H. destruct (0 <=? r_op req); [|done].
  destruct (r_op req =? TABLESERVER_OP_QUERY); [by injection H as <- _|].
  destruct (Z.eqb_spec (r_op req) TABLESERVER_OP_PREPARE) as [E|_].
  { destruct (Hp E) as (Hv & u & Hb & Hu & Hd). unfold handle_prepare in H. rewrite Hb in H.
    cbn [TableServer._prepare managed_ops snap_ops] in H. rewrite prepare_exact in H by done.
    cbn in H. injection H as <- _. cbn. split; [by apply ids_prepare|].
    destruct u; cbn; rewrite ?u64_small by lia; lia. }
  destruct (r_op req =? TABLESERVER_OP_COMMIT).
  { unfold handle_commit in H. destruct (map_find _ _).
    - cbn -[_commit] in H. destruct (_commit (Some e) _ _ _) as [[b [t' s']]|] eqn:Ec; [|done]. cbn -[_commit] in H.
      pose proof (ids_commit _ _ _ _ _ _ _ _ Hi Ec).
      destruct b; injection H as <- _; cbn; by rewrite (last_commit _ _ _ _ _ _ _ Ec).
    - destruct (_ <=? _); [|done]. by injection H as <- _. }
  destruct (r_op req =? TABLESERVER_OP_ROLLBACK); [|done].
  unfold handle_rollback in H. destruct (map_find _ _); [|done]. cbn -[_rollback] in H.
  destruct (_rollback _ _) as [[t' s']|] eqn:Ec; [|done]. cbn -[_rollback] in H. injection H as <- _. cbn.
  rewrite (last_rollback _ _ _ _ _ Ec). split; [by eapply ids_rollback|done].
Qed.

Lemma check_ids sv e' force sv' eff ask :
  ids_ok (st sv) /\ 0 <= last_snap (st sv) -> check_osd_map e' force sv = Some (sv', eff, ask) ->
  ids_ok (st sv') /\ 0 <= last_snap (st sv').
Proof.
  intros [Hi H0] H. unfold check_osd_map in H. destruct (_ && _); [by injection H as <- _ _|].
  destruct (foldl _ _ _) as [[|a l] pu]; cbn [mbind option_bind] in H.
  { injection H as <- _ _. cbn. split; [|done]. by destruct Hi; split. }
  unfold do_server_update in H. cbn -[_server_update encode_purge] in H.
  destruct (_server_update _ _) as [[t' s']|] eqn:E; [|done]. cbn -[_server_update encode_purge] in H.
  injection H as <- _ _. cbn. pose proof (ids_purged _ _ _ _ _ Hi E) as Hi'. split; [by destruct Hi'; split|].
  unfold _server_update in E. destruct (decode_purge _) as [[? ?]|]; [|done]. by injection E as _ <-.
Qed.

Lemma managed_ids sv : managed sv -> ids_ok (st sv) /\ 0 <= last_snap (st sv).
Proof.
  induction 1 as [t s s0 Hr Hu Hd Hl|sv from req sv' eff _ IH Hp Hx|sv e' force sv' eff ask _ IH Hx].
  - cbn. split; [|done]. unfold reset_state in Hr.
    destruct (first_free _ _ _); [|done]. cbn in Hr. injection Hr as <-. split; cbn; try done.
    + intros x (t' & i & Hf & _). cbn in Hf. by rewrite Hu in Hf.
    + intros t' sn seq. by rewrite Hd.
  - by eapply request_ids.
  - by eapply check_ids.
Qed.

(** C4: however snapshots are created, renamed and destroyed, with updates
    committed or rolled back in any order, as long as only a snapshot that is in
    the table with no update of it pending is asked to be destroyed, and only
    one that is in the table with no destruction of it pending is asked to be
    renamed, which is left to the clients and not checked by the server, the
    monitor is never asked to remove a snapshot that is in the table or that a
    prepared update would put there; and the id a new snapshot gets is not in
    use, not to be destroyed and not to be purged. The table is one that
    [reset_state] made, and its ids stay below 2^64. *)
Theorem purge_never_live sv :
  managed sv ->
  (forall e' force sv' eff ask id l q,
     check_osd_map e' force sv = Some (sv', eff, ask) -> (id, l) ∈ ask -> q ∈ l ->
     has (snaps (st sv)) q = false /\ ~ updating (st sv) q) /\
  (let new := last_snap (st sv) + 1 in
   has (snaps (st sv)) new = false /\ ~ updating (st sv) new /\
   (forall t sn seq, map_find (pending_destroy (st sv)) t = Some (sn, seq) -> sn <> new /\ seq <> new) /\
   forall id, member (need_to_purge (st sv)) id new = false).
Proof.
  intros Hm. destruct (managed_ids sv Hm) as [[K1 K2 K3 K4 K5] _]. split.
  - intros e' force sv' eff ask id l q H Hin Hq. unfold check_osd_map in H.
    destruct (_ && _); [injection H as _ _ <-; by apply elem_of_nil in Hin|].
    rewrite (check_pools e' _ (- 2 ^ 31) [] []) in H by done. cbn [app] in H.
    assert (ask = concat (map (asked_part e') (need_to_purge (st sv)))) as ->.
    { destruct (concat (map (purged_part e') _)) as [|a l']; [by injection H as _ _ <-|].
      destruct (do_server_update (encode_purge (a :: l')) sv) as [[? ?]|]; [|done]. by injection H as _ _ <-. }
    destruct (proj1 (asked_spec e' _ _ id q K1)) as [Hmem _]; [by exists l|]. by destruct (K5 id q Hmem) as (_ & ? & ?).
  - cbn. split_and!.
    + destruct (has _ _) eqn:E; [|done]. apply K2 in E. lia.
    + intros Hx%K3. lia.
    + intros t sn seq Hf. destruct (K4 t sn seq Hf) as (? & ? & _). lia.
    + intros id. destruct (member _ _ _) eqn:E; [|done]. apply K5 in E as [? _]. lia.
Qed.
End Managed.

End SnapTable.
