(* ===== verification/SnapTypes.v ===== *)
(** * The types of the snapshot table

    Every number that the table server keeps, journals or sends is within the
    width of its C++ type, whatever bytes a request or a journal entry is made
    of; and what is within its width is read back as it was written. *)

From S2P Require Import Prelude Encoding IntervalSet MDSTable TableServer TableClient SnapServer.
Import Encoding MDSTable TableServer ServerFacts SnapServer SnapFacts.

Module SnapTypes.

(** ** Widths *)

Definition is_u64 (x : Z) : Prop := 0 <= x < 2 ^ 64.
Definition is_u32 (x : Z) : Prop := 0 <= x < 2 ^ 32.
Definition is_u16 (x : Z) : Prop := 0 <= x < 2 ^ 16.
Definition is_s32 (x : Z) : Prop := - 2 ^ 31 <= x < 2 ^ 31.
Definition is_s16 (x : Z) : Prop := - 2 ^ 15 <= x < 2 ^ 15.
Definition is_bytes (l : bytes) : Prop := Forall (fun b => 0 <= b < 256) l.
(** a string or a bufferlist that was read *)
Definition is_string (l : bytes) : Prop := is_bytes l /\ Z.of_nat (length l) < 2 ^ 32.

Definition all {V} (K : Z -> Prop) (P : V -> Prop) : list (Z * V) -> Prop :=
  Forall (fun kv => K kv.1 /\ P kv.2).

Definition info_typed (i : SnapInfo) : Prop :=
  is_u64 (snapid i) /\ is_u64 (ino i) /\ is_u32 (stamp i).1 /\ is_u32 (stamp i).2 /\ is_string (name i).

Record snap_typed (s : snap) : Prop := {
  ty_last : is_u64 (last_snap s);
  ty_snaps : all is_u64 info_typed (snaps s);
  ty_purge : all is_s32 (all is_u64 (fun _ => True)) (need_to_purge s);
  ty_update : all is_u64 info_typed (pending_update s);
  ty_destroy : all is_u64 (fun d => is_u64 d.1 /\ is_u64 d.2) (pending_destroy s);
  ty_noop : all is_u64 (fun _ => True) (pending_noop s)
}.

Record server_typed (sv : server snap) : Prop := {
  ty_tab : is_u16 (tab sv);
  ty_version : is_u64 (sversion sv);
  ty_state : snap_typed (st sv);
  ty_pending : all is_u64 (fun p => is_u64 (p_reqid p) /\ is_s32 (p_mds p) /\ is_u64 (p_tid p)) (pending_for_mds sv)
}.

Definition request_typed (r : request) : Prop :=
  is_u16 (r_table r) /\ is_s16 (r_op r) /\ is_u64 (r_reqid r) /\ is_u64 (r_tid r) /\ is_string (r_bl r).

Definition entry_typed (le : entry) : Prop :=
  is_u32 (e_stamp le).1 /\ is_u32 (e_stamp le).2 /\ is_u16 (e_table le) /\ is_s16 (e_op le) /\
  is_u64 (e_reqid le) /\ is_s32 (e_bymds le) /\ is_string (e_mutation le) /\ is_u64 (e_tid le) /\
  is_u64 (e_version le).

Definition completion_typed (f : completion) : Prop :=
  match f with
  | C_Prepare from req tid => is_s32 from /\ request_typed req /\ is_u64 tid
  | C_Commit from req => is_s32 from /\ request_typed req
  end.

Definition effect_typed (x : effect) : Prop :=
  match x with
  | Send to m => is_s32 to /\ request_typed m
  | Submit le fin => entry_typed le /\ match fin with Some f => completion_typed f | None => True end
  | Flush => True
  end.

(** ** Maps *)

Lemma all_set {V} K (P : V -> Prop) m k v : all K P m -> K k -> P v -> all K P (map_set m k v).
Proof. intros. by apply map_set_Forall. Qed.

Lemma all_erase {V} K (P : V -> Prop) m k : all K P m -> all K P (map_erase m k).
Proof. apply map_erase_Forall. Qed.

Lemma all_find {V} K (P : V -> Prop) m k v : all K P m -> map_find m k = Some v -> K k /\ P v.
Proof.
  unfold all. induction 1 as [|[k0 v0] m [Hk Hv] _ IH]; [done|]. cbn in *.
  destruct (Z.eqb_spec k0 k) as [->|]; [|done]. by intros [= <-].
Qed.

Create HintDb typed.
#[local] Hint Resolve all_set all_erase : typed.

(** ** What decoding gives *)

Definition decodes {A} (P : A -> Prop) (dec : bytes -> option (A * bytes)) : Prop :=
  forall p v r, is_bytes p -> dec p = Some (v, r) -> P v /\ is_bytes r.

Lemma take_typed n p l r :
  is_bytes p -> take_bytes n p = Some (l, r) -> is_bytes l /\ is_bytes r /\ length l = n.
Proof.
  revert p l. induction n as [|n IH]; intros p l Hp H; cbn in H.
  { injection H as <- <-. split_and!; [constructor|done|done]. }
  destruct p as [|b p]; [done|]. apply Forall_cons in Hp as [Hb Hp].
  destruct (take_bytes n p) as [[l' r']|] eqn:E; [|done]. injection H as <- <-.
  destruct (IH p l' Hp E) as (? & ? & <-). split_and!; [by constructor|done|done].
Qed.

Lemma le_value_typed l : is_bytes l -> 0 <= le_value l < 256 ^ Z.of_nat (length l).
Proof.
  induction 1 as [|b l Hb _ IH]; cbn [le_value length]; [lia|].
  rewrite Nat2Z.inj_succ, Z.pow_succ_r by lia. lia.
Qed.

Lemma decode_uint_typed n : decodes (fun v => 0 <= v < 256 ^ Z.of_nat n) (decode_uint n).
Proof.
  intros p v r Hp H. unfold decode_uint in H. destruct (take_bytes n p) as [[l r']|] eqn:E; [|done].
  injection H as <- <-. destruct (take_typed _ _ _ _ Hp E) as (Hl & Hr & <-). split; [by apply le_value_typed|done].
Qed.

Lemma decode_u64_typed : decodes is_u64 decode_u64.
Proof. exact (decode_uint_typed 8). Qed.
Lemma decode_u32_typed : decodes is_u32 decode_u32.
Proof. exact (decode_uint_typed 4). Qed.
Lemma decode_u16_typed : decodes is_u16 decode_u16.
Proof. exact (decode_uint_typed 2). Qed.

Lemma decode_s16_typed : decodes is_s16 decode_s16.
Proof.
  intros p v r Hp H. unfold decode_s16 in H. destruct (decode_uint 2 p) as [[x r']|] eqn:E; [|done].
  injection H as <- <-. apply decode_uint_typed in E as [_ ?]; [|done]. split; [|done].
  unfold is_s16. pose proof (Z.mod_pos_bound (x + 2 ^ 15) (2 ^ 16)). lia.
Qed.

Lemma decode_string_typed : decodes is_string decode_string.
Proof.
  intros p v r Hp H. unfold decode_string in H. destruct (decode_u32 p) as [[n r']|] eqn:E; [|done].
  apply decode_u32_typed in E as [Hn Hr]; [|done]. cbn in H. apply take_typed in H as (? & ? & Hl); [|done].
  split; [|done]. split; [done|]. rewrite Hl, Z2Nat.id by apply Hn. apply Hn.
Qed.

Lemma decode_utime_typed : decodes (fun t => is_u32 t.1 /\ is_u32 t.2) decode_utime.
Proof.
  intros p v r Hp H. unfold decode_utime in H.
  destruct (decode_u32 p) as [[a r1]|] eqn:E1; [|done]. cbn in H.
  destruct (decode_u32 r1) as [[b r2]|] eqn:E2; [|done]. injection H as <- <-.
  apply decode_u32_typed in E1 as [Ha H1]; [|done]. by apply decode_u32_typed in E2 as [Hb H2].
Qed.

Lemma le_bytes_typed n z : is_bytes (le_bytes n z).
Proof.
  revert z. induction n as [|n IH]; intros z; constructor; [|apply IH]. apply Z.mod_pos_bound. lia.
Qed.

Lemma s32_range x : is_s32 (s32 x).
Proof. unfold is_s32, s32. pose proof (Z.mod_pos_bound (x + 2 ^ 31) (2 ^ 32)). lia. Qed.

(** [read H] takes apart a decoding, with the type of each value. *)
Ltac read H :=
  repeat match type of H with
  | (decode_u64 ?p ≫= _) = Some _ =>
      let E := fresh in destruct (decode_u64 p) as [[? ?]|] eqn:E; [|done]; cbn [mbind option_bind] in H;
      apply decode_u64_typed in E as [? ?]; [|done]
  | (decode_u16 ?p ≫= _) = Some _ =>
      let E := fresh in destruct (decode_u16 p) as [[? ?]|] eqn:E; [|done]; cbn [mbind option_bind] in H;
      apply decode_u16_typed in E as [? ?]; [|done]
  | (decode_u32 ?p ≫= _) = Some _ =>
      let E := fresh in destruct (decode_u32 p) as [[? ?]|] eqn:E; [|done]; cbn [mbind option_bind] in H;
      apply decode_u32_typed in E as [? ?]; [|done]
  | (decode_s16 ?p ≫= _) = Some _ =>
      let E := fresh in destruct (decode_s16 p) as [[? ?]|] eqn:E; [|done]; cbn [mbind option_bind] in H;
      apply decode_s16_typed in E as [? ?]; [|done]
  | (decode_string ?p ≫= _) = Some _ =>
      let E := fresh in destruct (decode_string p) as [[? ?]|] eqn:E; [|done]; cbn [mbind option_bind] in H;
      apply decode_string_typed in E as [? ?]; [|done]
  | (decode_utime ?p ≫= _) = Some _ =>
      let E := fresh in destruct (decode_utime p) as [[? ?]|] eqn:E; [|done]; cbn [mbind option_bind] in H;
      apply decode_utime_typed in E as [? ?]; [|done]
  end.

Lemma payload_typed tid w req rest :
  is_u64 tid -> is_bytes w -> decode_payload tid w = Some (req, rest) -> request_typed req.
Proof. intros Ht Hw H. unfold decode_payload in H. read H. injection H as <- _. done. Qed.

(** ** The operations *)

Lemma prepare_typed bl reqid m t s bl' t' s' :
  is_bytes bl -> snap_typed s -> _prepare bl reqid m (t, s) = Some (bl', (t', s')) ->
  is_u64 (version t') /\ snap_typed s' /\ is_string bl'.
Proof.
  intros Hb [T1 T2 T3 T4 T5 T6] H.
  assert (Hr : forall x, is_string (encode_u64 x)).
  { intros x. split; [apply le_bytes_typed|]. unfold encode_u64, encode_uint. rewrite le_bytes_length. done. }
  assert (Hv : is_u64 (version (inc_version t))) by apply u64_range.
  assert (Hl : is_u64 (last_snap s +u64 1)) by apply u64_range.
  unfold _prepare in H. read H. destruct (_ =? TABLE_OP_CREATE).
  { read H. match type of H with match ?p with _ => _ end = _ => destruct p as [|b p] end.
    - injection H as <- <- <-. split_and!; [done| |apply Hr]. split; try done. by apply all_set.
    - read H. injection H as <- <- <-. split_and!; [done| |apply Hr]. split; try done.
      apply all_set; [done..|]. unfold info_typed. tauto. }
  destruct (_ =? TABLE_OP_DESTROY).
  { read H. injection H as <- <- <-. split_and!; [done| |apply Hr]. split; try done. by apply all_set. }
  destruct (_ =? TABLE_OP_UPDATE); [|done]. read H. injection H as <- <- <-. split_and!; [done| |apply Hr].
  split; try done. apply all_set; [done..|]. unfold info_typed. tauto.
Qed.

Lemma committed_typed s i : snap_typed s -> info_typed i -> info_typed (committed_info s i).
Proof.
  intros Hs (H1 & H2 & H3 & H4 & H5). unfold committed_info, info_typed. cbn.
  destruct (no_stamp (stamp i)); [|done]. destruct (map_find (snaps s) (snapid i)) as [o|] eqn:E; [|done].
  destruct (all_find _ _ _ _ _ (ty_snaps _ Hs) E) as [_ (_ & _ & ? & ? & _)]. done.
Qed.

Lemma purge_from_typed pools sn seq np :
  is_u64 sn -> is_u64 seq -> all is_s32 (all is_u64 (fun _ => True)) np ->
  all is_s32 (all is_u64 (fun _ => True)) (purge_from pools sn seq np).
Proof.
  intros Hn Hq. unfold purge_from. revert np. induction pools as [|p pools IH]; intros np Hnp; [done|].
  cbn [foldl]. apply IH, all_set; [done|apply s32_range|]. unfold set_insert. do 2 (apply all_set; [|done..]).
  destruct (map_find np (s32 p)) as [x|] eqn:E; [|constructor]. by apply (all_find _ _ _ _ _ Hnp) in E as [_ ?].
Qed.

Lemma commit_typed mds tid req t s b t' s' :
  snap_typed s -> _commit mds tid req (t, s) = Some (b, (t', s')) -> is_u64 (version t') /\ snap_typed s'.
Proof.
  intros Hs H. pose proof Hs as [T1 T2 T3 T4 T5 T6]. unfold _commit in H.
  destruct (map_find (pending_update s) tid) as [i|] eqn:E.
  { injection H as _ <- <-. split; [apply u64_range|]. destruct (all_find _ _ _ _ _ T4 E) as [_ Hi].
    split; cbn; auto with typed. apply all_set; [done|apply Hi|by apply committed_typed]. }
  destruct (map_find (pending_destroy s) tid) as [[sn seq]|] eqn:Ed.
  { destruct mds as [e|]; [|done]. injection H as _ <- <-. split; [apply u64_range|].
    destruct (all_find _ _ _ _ _ T5 Ed) as [_ [? ?]]. split; cbn; auto with typed. by apply purge_from_typed. }
  destruct (map_find (pending_noop s) tid); [|done]. injection H as _ <- <-. split; [apply u64_range|].
  split; cbn; auto with typed.
Qed.

Lemma rollback_typed tid t s t' s' :
  snap_typed s -> _rollback tid (t, s) = Some (t', s') -> is_u64 (version t') /\ snap_typed s'.
Proof.
  intros [T1 T2 T3 T4 T5 T6] H. unfold _rollback in H.
  destruct (map_find (pending_update s) tid); [|destruct (map_find (pending_destroy s) tid);
    [|destruct (map_find (pending_noop s) tid); [|done]]];
    injection H as <- <-; (split; [apply u64_range|]); split; cbn; auto with typed.
Qed.

Lemma purged_typed np pq :
  all is_s32 (all is_u64 (fun _ => True)) np -> all is_s32 (all is_u64 (fun _ => True)) (purged np pq).
Proof.
  intros Hnp. unfold purged. destruct pq as [id qs]. cbn [fst snd].
  assert (Hs : all is_u64 (fun _ => True) (default [] (map_find np id)) /\
               (default [] (map_find np id) <> [] -> is_s32 id)).
  { destruct (map_find np id) as [x|] eqn:E; [|by split; [constructor|]]. by apply (all_find _ _ _ _ _ Hnp) in E as [? ?]. }
  revert Hs. generalize (default [] (map_find np id)). induction qs as [|q qs IH]; intros x [Hx Hid]; cbn [foldl].
  - destruct x; [by apply all_erase|]. apply all_set; [done|by apply Hid|done].
  - apply IH. split; [by apply all_erase|]. intros Hne. apply Hid. by intros ->.
Qed.

Lemma update_typed bl t s t' s' :
  snap_typed s -> _server_update bl (t, s) = Some (t', s') -> is_u64 (version t') /\ snap_typed s'.
Proof.
  intros [T1 T2 T3 T4 T5 T6] H. unfold _server_update in H. destruct (decode_purge bl) as [[l ?]|]; [|done].
  injection H as <- <-. split; [apply u64_range|]. split; cbn; try done. revert T3. generalize (need_to_purge s).
  induction l as [|pq l IH]; intros np Hnp; [done|]. cbn [foldl]. by apply IH, purged_typed.
Qed.

(** ** The server *)

(** A request as it comes from another daemon, or an update of the server's own. *)
Definition op_typed (o : op) : Prop :=
  match o with
  | ORequest from req => is_s32 from /\
      exists tid w rest, is_u64 tid /\ is_bytes w /\ decode_payload tid w = Some (req, rest)
  | OUpdate bl => is_string bl
  end.

Section Server.
Context (e : env).
#[local] Instance typed_ops : TableServerOps snap := snap_ops (Some e).

Lemma empty_string : is_string [].
Proof. split; [constructor|done]. Qed.

(** [widths] settles the widths of constants and of what is already typed. *)
Ltac widths :=
  split_and!; try tauto; try assumption; try apply empty_string;
  try (unfold is_u64, is_u32, is_u16, is_s32, is_s16, TABLESERVER_OP_PREPARE, TABLESERVER_OP_COMMIT,
         TABLESERVER_OP_ROLLBACK, TABLESERVER_OP_SERVER_UPDATE, TABLESERVER_OP_AGREE, TABLESERVER_OP_ACK,
         MDS_RANK_NONE in *; lia).

Lemma with_typed sv ts p :
  server_typed sv -> is_u64 (version ts.1) -> snap_typed ts.2 ->
  all is_u64 (fun p => is_u64 (p_reqid p) /\ is_s32 (p_mds p) /\ is_u64 (p_tid p)) p ->
  server_typed (with_pending p (with_state ts sv)).
Proof. intros [H1 H2 H3 H4] ? ? ?. by split. Qed.

Lemma state_typed sv ts :
  server_typed sv -> is_u64 (version ts.1) -> snap_typed ts.2 -> server_typed (with_state ts sv).
Proof. intros [H1 H2 H3 H4] ? ?. by split. Qed.

Lemma tid_entry_typed tb o tid v : is_u16 tb -> is_s16 o -> is_u64 tid -> is_u64 v ->
  entry_typed (new_entry tb o 0 MDS_RANK_NONE tid v).
Proof. intros. unfold entry_typed. cbn. widths. Qed.

Lemma handle_prepare_typed from req sv sv' eff :
  server_typed sv -> is_s32 from -> request_typed req -> handle_prepare 0 from req sv = Some (sv', eff) ->
  server_typed sv' /\ Forall effect_typed eff.
Proof.
  intros Hsv Hf Hr H. pose proof Hr as (R1 & R2 & R3 & R4 & R5). unfold handle_prepare in H.
  cbn [TableServer._prepare typed_ops snap_ops] in H.
  destruct (_prepare (r_bl req) (r_reqid req) from (base sv, st sv)) as [[bl' [t' s']]|] eqn:E; [|done].
  apply prepare_typed in E as (Hv & Hs & Hb); [|apply R5|apply Hsv]. cbn [mbind option_bind Z.eqb negb] in H.
  injection H as <- <-. split.
  - apply with_typed; [done..|]. apply all_set; [apply Hsv|done|]. done.
  - pose proof (ty_tab _ Hsv). apply Forall_cons. split; [|by apply Forall_singleton].
    cbn. unfold entry_typed, request_typed. cbn. widths.
Qed.

Lemma handle_commit_typed from req sv sv' eff :
  server_typed sv -> is_s32 from -> request_typed req -> handle_commit 0 from req sv = Some (sv', eff) ->
  server_typed sv' /\ Forall effect_typed eff.
Proof.
  intros Hsv Hf Hr H. pose proof Hr as (R1 & R2 & R3 & R4 & R5). pose proof (ty_tab _ Hsv). unfold handle_commit in H.
  destruct (map_find (pending_for_mds sv) (r_tid req)).
  - cbn [TableServer._commit typed_ops snap_ops Z.eqb negb] in H.
    destruct (_commit (Some e) (r_tid req) (Some req) (base sv, st sv)) as [[b [t' s']]|] eqn:E; [|done].
    apply commit_typed in E as [Hv Hs]; [|apply Hsv]. cbn [mbind option_bind] in H. destruct b; injection H as <- <-.
    + split; [apply with_typed; [done..|]; apply all_erase, Hsv|]. apply Forall_singleton.
      split; [|done]. apply tid_entry_typed; first [done | widths].
    + split; [|constructor]. by apply state_typed.
  - destruct (_ <=? _); [|done]. cbn in H. injection H as <- <-. split; [done|]. apply Forall_singleton.
    split; [done|]. unfold request_typed. cbn. widths.
Qed.

Lemma handle_rollback_typed req sv sv' eff :
  server_typed sv -> request_typed req -> handle_rollback req sv = Some (sv', eff) ->
  server_typed sv' /\ Forall effect_typed eff.
Proof.
  intros Hsv Hr H. pose proof Hr as (R1 & R2 & R3 & R4 & R5). pose proof (ty_tab _ Hsv). unfold handle_rollback in H.
  destruct (map_find (pending_for_mds sv) (r_tid req)); [|done].
  cbn [TableServer._rollback typed_ops snap_ops] in H.
  destruct (_rollback (r_tid req) (base sv, st sv)) as [[t' s']|] eqn:E; [|done].
  apply rollback_typed in E as [Hv Hs]; [|apply Hsv]. cbn [mbind option_bind] in H. injection H as <- <-.
  split; [apply with_typed; [done..|]; apply all_erase, Hsv|]. apply Forall_singleton.
  split; [|done]. apply tid_entry_typed; first [done | widths].
Qed.

(** Whatever bytes a request consists of, and whatever the server's own
    updates hold, every number in the server's memory, in the entries it
    journals and in the messages it sends, at once or when an entry is on disk,
    stays within the width of its type. *)
Theorem apply_typed o sv sv' eff :
  server_typed sv -> op_typed o -> apply o sv = Some (sv', eff) ->
  server_typed sv' /\ Forall effect_typed eff /\
  forall le f eff', Submit le (Some f) ∈ eff -> finish 0 f sv' = Some eff' -> Forall effect_typed eff'.
Proof.
  intros Hsv Ho H.
  enough (server_typed sv' /\ Forall effect_typed eff) as [Hsv' He].
  { split_and!; [done..|]. intros le f eff' Hin Hf. rewrite Forall_forall in He. specialize (He _ Hin) as [_ Hc].
    pose proof (ty_tab _ Hsv'). destruct f as [from req tid|from req]; cbn in Hf; injection Hf as <-;
      apply Forall_singleton; destruct Hc as [? Hc]; (split; [done|]); unfold request_typed in *; cbn;
      widths. }
  destruct o as [from req|bl]; cbn [apply op_typed] in *.
  - destruct Ho as (Hf & tid & w & rest & Ht & Hw & Hd). apply payload_typed in Hd as Hr; [|done..].
    unfold handle_request in H. destruct (0 <=? r_op req); [|done].
    destruct (r_op req =? TABLESERVER_OP_QUERY).
    { cbn in H. injection H as <- <-. split; [|constructor]. by destruct sv. }
    destruct (r_op req =? TABLESERVER_OP_PREPARE); [by eapply handle_prepare_typed|].
    destruct (r_op req =? TABLESERVER_OP_COMMIT); [by eapply handle_commit_typed|].
    destruct (r_op req =? TABLESERVER_OP_ROLLBACK); [by eapply handle_rollback_typed|done].
  - unfold do_server_update in H. cbn [TableServer._server_update typed_ops snap_ops] in H.
    destruct (_server_update bl (base sv, st sv)) as [[t' s']|] eqn:E; [|done].
    apply update_typed in E as [Hv Hs]; [|apply Hsv]. cbn [mbind option_bind] in H. injection H as <- <-.
    split; [by apply state_typed|]. apply Forall_singleton. split; [|done].
    pose proof (ty_tab _ Hsv). unfold entry_typed. cbn. widths.
Qed.
End Server.

(** ** Round trips *)

Lemma decode_s16_app x rest : is_s16 x -> decode_s16 (encode_u16 x ++ rest) = Some (x, rest).
Proof.
  intros Hx. unfold decode_s16, encode_u16. rewrite decode_uint_app. obind. do 2 f_equal.
  change (256 ^ Z.of_nat 2) with (2 ^ 16). unfold is_s16 in Hx. rewrite Z.add_mod_idemp_l by lia.
  rewrite Z.mod_small by lia. lia.
Qed.

Lemma decode_u16_app x rest : is_u16 x -> decode_u16 (encode_u16 x ++ rest) = Some (x, rest).
Proof. intros. by apply decode_uint_small. Qed.

(** C40: a message of the protocol and an entry of the server's journal, with
    their fields within their widths, are read back as they were written; the
    length of the entry must fit the 32 bits that hold it. *)
Theorem table_roundtrip r le stm rest :
  request_typed r -> entry_typed le -> Z.of_nat (length (e_mutation le)) + 44 < 2 ^ 32 ->
  decode_payload (r_tid r) (encode_payload r ++ rest) = Some (r, rest) /\
  decode_entry stm (encode_entry le ++ rest) = Some (le, rest).
Proof.
  intros (R1 & R2 & R3 & _ & [_ R4]) (E1 & E2 & E3 & E4 & E5 & E6 & [_ E7] & E8 & E9) Hlen. split.
  - unfold decode_payload, encode_payload. rewrite <- !app_assoc, decode_u16_app by done. obind.
    rewrite decode_s16_app by done. obind. rewrite decode_u64_app by done. obind.
    rewrite decode_string_app by done. obind. by destruct r.
  - unfold decode_entry, encode_entry. set (b := encode_utime (e_stamp le) ++ _). rewrite <- (app_nil_r b).
    apply decode_struct_legacy_app; [lia..| |].
    + rewrite app_nil_r. subst b. unfold encode_utime, encode_string, encode_u64, encode_s32, encode_u32, encode_u16, encode_uint.
      rewrite !length_app, !le_bytes_length. lia.
    + subst b. rewrite app_nil_l, <- !app_assoc. change (2 <=? 3) with true. cbn match.
      rewrite decode_utime_app by done. obind. rewrite decode_u16_app by done. obind.
      rewrite decode_s16_app by done. obind. rewrite decode_u64_app by done. obind.
      rewrite decode_s32_app by done. obind. rewrite decode_string_app by done. obind.
      rewrite decode_u64_app by done. obind. rewrite decode_u64_app by done. obind. by destruct le.
Qed.

End SnapTypes.
