(* ===== verification/TableProtocol.v ===== *)
(** * The two-phase table protocol: server, clients, network and journals

    Composes [TableServer] and [TableClient] into the system that runs them:
    the server's rank with its journal, the ranks that are its clients with
    theirs, and one message queue each way between the server and each client.
    A daemon that crashes loses its memory, the entries it submitted that are
    not on disk, and the messages in its queues.

    The order of events is arbitrary, with these limits, which the rest of the
    MDS and the messenger provide: messages between two daemons arrive once and
    in order while both run; every client learns that the server has failed
    before it hears from the server that recovers; a caller commits an update
    only after the answer to its PREPARE, once the update is in the caller's
    journal.  Counters do not reach 2^64: an event that would make them is
    [Disabled].

    A client may restart at any time, as in the code.  [orderly] singles out
    the restarts at which the server has no entry about the client's updates
    waiting for disk.  The code does not see to that, and the theorems about
    the protocol assume it of the run; [SnapProtocol] evaluates what happens
    at other restarts. *)

From S2P Require Import Prelude Encoding MDSTable TableServer TableClient.
Import Encoding MDSTable TableServer ServerFacts.

Module TableProtocol.
Module TC := TableClient.

(** What a client's journal holds of the protocol: that an update agreed under
    a transaction id is on disk, and that the server's ACK is. *)
Inductive centry := JAgree (tid : Z) | JAck (a : TC.ack_entry).

#[export] Instance ack_entry_eq_dec : EqDecision TC.ack_entry.
Proof. solve_decision. Defined.
#[export] Instance centry_eq_dec : EqDecision centry.
Proof. solve_decision. Defined.

(** A client's rank: its memory, its journal and the acknowledgements on their
    way to it, and the messages to and from the server. *)
Record node := MkNode {
  cl : TC.client;
  cjournal : list centry;
  cqueue : list Z;
  up : list request;
  down : list request
}.

Inductive event :=
  | Prepare (c : Z) (bl : bytes) (pt : nat) (pb fin : option nat)
  | Journal (c tid : Z)
  | Commit (c tid ls : Z)
  | ToServer (c : Z)
  | ToClient (c : Z)
  | Flushed
  | AckFlushed (c : Z)
  | ServerUpdate (bl : bytes)
  | ServerCrash
  | Restart (c : Z).

Section System.
Context {S : Type} {ops : TableServerOps S}.
(** the table as it is first created, and the ranks that use it *)
Context (sv0 : server S) (ranks : list Z).

Record sys := MkSys {
  durable : list entry;
  queue : list (entry * option completion);
  srv : server S;
  nodes : Z -> node
}.

Inductive outcome := Disabled | Aborted | Next (s : sys).

Definition set_node (c : Z) (n : node) (s : sys) : sys :=
  MkSys (durable s) (queue s) (srv s) (fun c' => if c' =? c then n else nodes s c').
Definition set_srv (sv : server S) (s : sys) : sys :=
  MkSys (durable s) (queue s) sv (nodes s).

(** ** Dispatch, [MDSRank::handle_deferrable_message]: an operation below 0 is
    for the client, any other for the server; the table must be one that has
    them, the anchor table's being null pointers. *)

Definition dispatch_server (from : Z) (m : request) (sv : server S)
  : option (server S * list effect) :=
  if (r_op m <? 0) || negb (r_table m =? TABLE_SNAP) then None
  else handle_request 0 from m sv.

Definition dispatch_client (m : request) (c : TC.client) : option (TC.client * list TC.ceffect) :=
  if negb (r_op m <? 0) || negb (r_table m =? TABLE_SNAP) then None
  else TC.handle_request TABLE_SNAP 0 m c.

(** ** Effects *)

Definition push_down (to : Z) (m : request) (s : sys) : sys :=
  let n := nodes s to in
  set_node to (MkNode (cl n) (cjournal n) (cqueue n) (up n) (down n ++ [m])) s.

Definition perform (s : sys) (e : effect) : sys :=
  match e with
  | Send to m => push_down to m s
  | Submit le fin => MkSys (durable s) (queue s ++ [(le, fin)]) (srv s) (nodes s)
  | Flush => s
  end.

(** The answers to the caller are the caller's business. *)
Definition cperform (n : node) (e : TC.ceffect) : node :=
  match e with
  | TC.SendServer m => MkNode (cl n) (cjournal n) (cqueue n) (up n ++ [m]) (down n)
  | TC.LogAck tid => MkNode (cl n) (cjournal n) (cqueue n ++ [tid]) (up n) (down n)
  | _ => n
  end.

Definition sends_to (c : Z) (e : list effect) : list request :=
  omap (fun x => match x with Send to m => if to =? c then Some m else None | _ => None end) e.

(** ** Recovery *)

(** The client after its journal is replayed; the entries are in one segment. *)
Fixpoint replay_client (l : list centry) (c : TC.client) : option TC.client :=
  match l with
  | [] => Some c
  | JAgree tid :: l => replay_client l (TC.got_journaled_agree tid 0 c)
  | JAck a :: l => c ← TC.replay_ack a c; replay_client l c
  end.

Definition TABLESERVER_RANK : Z := 0.

(** A client's rank when the server has crashed and recovered. *)
Definition after_crash (sv : server S) (c : Z) (n : node) : node :=
  MkNode (TC.handle_mds_failure TABLESERVER_RANK TABLESERVER_RANK (cl n)) (cjournal n) (cqueue n) []
    (sends_to c (finish_recovery ranks sv)).

Definition start : sys :=
  MkSys [] [] sv0 (fun c => MkNode TC.new_client [] [] [] (sends_to c (finish_recovery ranks sv0))).

(** ** Events *)

(** Whether a client can number what it waits to prepare. *)
Definition reqids_left (last : Z) (n : nat) : bool := last + Z.of_nat n + 1 <? TC.no_reqid.

Definition exec_prepare (c : Z) (bl : bytes) (pt : nat) (pb fin : option nat) (s : sys) : outcome :=
  let n := nodes s c in
  if (TC.last_reqid (cl n) =? TC.no_reqid) || reqids_left (TC.last_reqid (cl n)) 0 then
    let '(k, e) := TC._prepare TABLE_SNAP bl (Some pt) pb fin (cl n) in
    Next (set_node c (foldl cperform (MkNode k (cjournal n) (cqueue n) (up n) (down n)) e) s)
  else Disabled.

Definition exec_journal (c tid : Z) (s : sys) : outcome :=
  let n := nodes s c in
  if has (TC.prepared_update (cl n)) tid && negb (bool_decide (JAgree tid ∈ cjournal n)) then
    Next (set_node c (MkNode (cl n) (cjournal n ++ [JAgree tid]) (cqueue n) (up n) (down n)) s)
  else Disabled.

Definition exec_commit (c tid ls : Z) (s : sys) : outcome :=
  let n := nodes s c in
  if has (TC.prepared_update (cl n)) tid && bool_decide (JAgree tid ∈ cjournal n) then
    match TC.commit TABLE_SNAP 0 tid ls (cl n) with
    | None => Aborted
    | Some (k, e) =>
        Next (set_node c (foldl cperform (MkNode k (cjournal n) (cqueue n) (up n) (down n)) e) s)
    end
  else Disabled.

Definition exec_to_server (c : Z) (s : sys) : outcome :=
  let n := nodes s c in
  match up n with
  | [] => Disabled
  | m :: l =>
      if sversion (srv s) + 1 <? 2 ^ 64 then
        match dispatch_server c m (srv s) with
        | None => Aborted
        | Some (sv, e) =>
            Next (foldl perform
              (set_srv sv (set_node c (MkNode (cl n) (cjournal n) (cqueue n) l (down n)) s)) e)
        end
      else Disabled
  end.

Definition exec_to_client (c : Z) (s : sys) : outcome :=
  let n := nodes s c in
  match down n with
  | [] => Disabled
  | m :: l =>
      let last := if TC.last_reqid (cl n) =? TC.no_reqid then r_reqid m else TC.last_reqid (cl n) in
      if (r_op m =? TABLESERVER_OP_SERVER_READY) &&
         negb (reqids_left last (length (TC.waiting_for_reqid (cl n)))) then Disabled
      else
        match dispatch_client m (cl n) with
        | None => Aborted
        | Some (k, e) =>
            Next (set_node c (foldl cperform (MkNode k (cjournal n) (cqueue n) (up n) l) e) s)
        end
  end.

Definition exec_flushed (s : sys) : outcome :=
  match queue s with
  | [] => Disabled
  | (le, fin) :: q =>
      let s := MkSys (durable s ++ [le]) q (srv s) (nodes s) in
      match fin with
      | None => Next s
      | Some f =>
          match finish 0 f (srv s) with
          | None => Aborted
          | Some e => Next (foldl perform s e)
          end
      end
  end.

Definition exec_ack_flushed (c : Z) (s : sys) : outcome :=
  let n := nodes s c in
  match cqueue n with
  | [] => Disabled
  | tid :: q =>
      match TC._logged_ack 0 tid (cl n) with
      | None => Aborted
      | Some (k, e) =>
          let a := TC.MkAck (0, 0) TABLE_SNAP TABLESERVER_OP_ACK tid in
          Next (set_node c (foldl cperform (MkNode k (cjournal n ++ [JAck a]) q (up n) (down n)) e) s)
      end
  end.

Definition exec_server_update (bl : bytes) (s : sys) : outcome :=
  if sversion (srv s) + 1 <? 2 ^ 64 then
    match do_server_update bl (srv s) with
    | None => Aborted
    | Some (sv, e) => Next (foldl perform (set_srv sv s) e)
    end
  else Disabled.

Definition exec_crash (s : sys) : outcome :=
  match replay_all (durable s) ([], sv0) with
  | None => Aborted
  | Some (_, sv) => Next (MkSys (durable s) [] sv (fun c => after_crash sv c (nodes s c)))
  end.

(** The client comes back with what its journal holds; [handle_mds_recovery]
    resends from the server's memory, whatever is on the server's disk. *)
Definition exec_restart (c : Z) (s : sys) : outcome :=
  match replay_client (cjournal (nodes s c)) TC.new_client with
  | None => Aborted
  | Some k =>
      Next (set_node c (MkNode k (cjournal (nodes s c)) [] []
                          (sends_to c (handle_mds_recovery c (srv s)))) s)
  end.

Definition exec (e : event) (s : sys) : outcome :=
  match e with
  | Prepare c bl pt pb fin => exec_prepare c bl pt pb fin s
  | Journal c tid => exec_journal c tid s
  | Commit c tid ls => exec_commit c tid ls s
  | ToServer c => exec_to_server c s
  | ToClient c => exec_to_client c s
  | Flushed => exec_flushed s
  | AckFlushed c => exec_ack_flushed c s
  | ServerUpdate bl => exec_server_update bl s
  | ServerCrash => exec_crash s
  | Restart c => exec_restart c s
  end.

Fixpoint exec_all (l : list event) (s : sys) : outcome :=
  match l with
  | [] => Next s
  | e :: l => match exec e s with Next s => exec_all l s | o => o end
  end.

(** ** Orderly restarts *)

(** An entry about an update of client [c]; a ROLLBACK does not name the
    client, so it counts as everyone's. *)
Definition concerns (c : Z) (x : entry * option completion) : bool :=
  let '(le, fin) := x in
  ((e_op le =? TABLESERVER_OP_PREPARE) && (e_bymds le =? c)) ||
  ((e_op le =? TABLESERVER_OP_COMMIT) &&
     match fin with Some (C_Commit from _) => from =? c | _ => false end) ||
  (e_op le =? TABLESERVER_OP_ROLLBACK).

(** If the event is a client's restart, no entry about its updates is waiting
    for the server's disk. *)
Definition orderly (e : event) (s : sys) : bool :=
  match e with
  | Restart c => negb (existsb (concerns c) (queue s))
  | _ => true
  end.
End System.
End TableProtocol.
