(* ===== verification/TableSafety.v ===== *)
(** * Safety of the two-phase table protocol

    The invariant of [TableProtocol]: for every client and transaction id, the
    server's memory, its journal, the client's memory and journal and the
    messages between them agree on how far the update has come ([phase]). *)

From S2P Require Import Prelude Encoding MDSTable TableServer TableClient TableProtocol.
Import Encoding MDSTable TableServer ServerFacts TableProtocol.

Module TableSafety.

(** ** What the parts of the system say of a transaction *)

(** An entry on its way to the server's journal. *)
Inductive qk := QP (r c : Z) | QC (c : Z) | QR.
(** A client's decision on its way to the server. *)
Inductive uk := UC | UR.

Definition item_of (x : entry * option completion) : option (Z * qk) :=
  let '(le, fin) := x in
  if e_op le =? TABLESERVER_OP_PREPARE then Some (e_tid le, QP (e_reqid le) (e_bymds le))
  else if e_op le =? TABLESERVER_OP_COMMIT then
    match fin with Some (C_Commit from _) => Some (e_tid le, QC from) | _ => None end
  else if e_op le =? TABLESERVER_OP_ROLLBACK then Some (e_tid le, QR)
  else None.

Definition items (q : list (entry * option completion)) (t : Z) : list qk :=
  omap (fun x => match item_of x with Some (t', k) => if t' =? t then Some k else None | None => None end) q.

(** The entry and its completion belong together. *)
Inductive good_item : entry * option completion -> Prop :=
  | GP stm c r bl req t :
      r_reqid req = r ->
      good_item (MkEntry stm TABLE_SNAP TABLESERVER_OP_PREPARE r c bl t t, Some (C_Prepare c req t))
  | GC stm r b bl c req t v :
      r_tid req = t ->
      good_item (MkEntry stm TABLE_SNAP TABLESERVER_OP_COMMIT r b bl t v, Some (C_Commit c req))
  | GR stm r b bl t v :
      good_item (MkEntry stm TABLE_SNAP TABLESERVER_OP_ROLLBACK r b bl t v, None)
  | GU stm r b bl t v :
      good_item (MkEntry stm TABLE_SNAP TABLESERVER_OP_SERVER_UPDATE r b bl t v, None).

(** The request under which client [c] has [t] pending. *)
Definition own (ps : list (Z * pending)) (c t : Z) : option Z :=
  match map_find ps t with
  | Some p => if p_mds p =? c then Some (p_reqid p) else None
  | None => None
  end.

Definition in_journal (o : Z) (l : list entry) (t : Z) : bool :=
  existsb (fun le => (e_op le =? o) && (e_tid le =? t)) l.

Definition rdy (n : node) : bool := TC.server_ready (cl n).
Definition last (n : node) : Z := TC.last_reqid (cl n).
Definition pp (n : node) (r : Z) : bool := has (TC.pending_prepare (cl n)) r.
Definition pu (n : node) (t : Z) : option Z := map_find (TC.prepared_update (cl n)) t.
Definition pc (n : node) (t : Z) : bool := has (TC.pending_commit (cl n)) t.
Definition cj (n : node) (t : Z) : bool := bool_decide (JAgree t ∈ cjournal n).

(** the messages about [t] *)
Definition tid_msgs (o : Z) (l : list request) (t : Z) : list Z :=
  omap (fun m => if (r_op m =? o) && (r_tid m =? t) then Some (r_reqid m) else None) l.
Definition ags (l : list request) (t : Z) : list Z := tid_msgs TABLESERVER_OP_AGREE l t.
Definition acks (l : list request) (t : Z) : list Z := tid_msgs TABLESERVER_OP_ACK l t.
Definition ups (l : list request) (t : Z) : list uk :=
  omap (fun m => if negb (r_tid m =? t) then None
                 else if r_op m =? TABLESERVER_OP_COMMIT then Some UC
                 else if r_op m =? TABLESERVER_OP_ROLLBACK then Some UR else None) l.
Definition preps (l : list request) : list Z :=
  omap (fun m => if r_op m =? TABLESERVER_OP_PREPARE then Some (r_reqid m) else None) l.

(** ** The course of an update

    [phase] relates, for one client and one id: the request under which it is
    pending at the server ([P]) and would be after a crash ([D]), the entries in
    the server's queue, where the client has it ([pu], [pc]), whether it is in
    the client's journal ([cj]) and its COMMIT in the server's ([cm]), and the
    AGREEs, COMMITs and ROLLBACKs on their way. *)
Inductive phase (c : Z) (rd : bool) (prep : Z -> bool) :
  option Z -> option Z -> list qk -> option Z -> bool -> bool -> bool -> list Z -> list uk -> Prop :=
  | PhFree cm : phase c rd prep None None [] None false false cm [] []
  | PhLogging r : rd = true -> prep r = true ->
      phase c rd prep (Some r) None [QP r c] None false false false [] []
  | PhAgreeing r : (rd = true -> prep r = true) ->
      phase c rd prep (Some r) (Some r) [] None false false false [r] []
  | PhPrepared r j ag : prep r = false -> ag = [] \/ ag = [r] /\ rd = false ->
      phase c rd prep (Some r) (Some r) [] (Some r) false j false ag []
  | PhCommitting r ag us : prep r = false -> ag = [] \/ ag = [r] /\ rd = false ->
      us = (if rd then [UC] else []) ->
      phase c rd prep (Some r) (Some r) [] None true true false ag us
  | PhCommitLogging r : rd = true -> prep r = false ->
      phase c rd prep None (Some r) [QC c] None true true false [] []
  | PhCommitted p us : us = [] \/ us = [UC] /\ rd = true /\ p = true ->
      phase c rd prep None None [] None p true true [] us
  | PhRolling r : prep r = false ->
      phase c rd prep (Some r) (Some r) [] None false false false [] [UR]
  | PhRollLogging r : prep r = false ->
      phase c rd prep None (Some r) [QR] None false false false [] [].

Section Invariant.
Context {S : Type} {ops : TableServerOps S} {eqv : Equiv S} {laws : TableServerLaws S}.

Inductive good_up : request -> Prop :=
  | GUP r t bl : valid_mutation bl -> good_up (MkReq TABLE_SNAP TABLESERVER_OP_PREPARE r t bl)
  | GUC r t bl : good_up (MkReq TABLE_SNAP TABLESERVER_OP_COMMIT r t bl)
  | GUR r t bl : good_up (MkReq TABLE_SNAP TABLESERVER_OP_ROLLBACK r t bl).

Inductive good_down : request -> Prop :=
  | GDA r t bl : good_down (MkReq TABLE_SNAP TABLESERVER_OP_AGREE r t bl)
  | GDK r t bl : good_down (MkReq TABLE_SNAP TABLESERVER_OP_ACK r t bl)
  | GDR r t bl : good_down (MkReq TABLE_SNAP TABLESERVER_OP_SERVER_READY r t bl).

(** The messages of a recovery that are still on their way: AGREEs, then the
    SERVER_READY that carries [k]. *)
Definition recovering (l : list request) (k : Z) : Prop :=
  exists l1 t bl, l = l1 ++ [MkReq TABLE_SNAP TABLESERVER_OP_SERVER_READY k t bl] /\
    Forall (fun m => r_op m = TABLESERVER_OP_AGREE) l1.

Definition prepare_ok (p : TC.prepare) : Prop := is_Some (TC.ptid p) /\ valid_mutation (TC.mutation p).

(** A client's maps are ordered, and a transaction being committed is in its
    log segment. *)
Record client_ok (k : TC.client) : Prop := {
  co_prepare : keys_from 0 (TC.pending_prepare k);
  co_prepared : keys_from 1 (TC.prepared_update k);
  co_commit : keys_from 1 (TC.pending_commit k);
  co_pending : Forall (fun x => prepare_ok x.2) (TC.pending_prepare k);
  co_waiting : Forall prepare_ok (TC.waiting_for_reqid k);
  co_tids ls : keys_from 1 (TC.tids_of k ls);
  co_segment t ls : map_find (TC.pending_commit k) t = Some ls -> has (TC.tids_of k ls) t = true
}.

Definition lives (oP oD : Z -> option Z) (t r : Z) : Prop := oP t = Some r \/ oD t = Some r.

(** What replaying the client's journal gives. *)
Definition replays (n : node) (cm : Z -> bool) : Prop :=
  exists k, replay_client (cjournal n) TC.new_client = Some k /\ client_ok k /\
    TC.last_reqid k = TC.no_reqid /\ TC.server_ready k = false /\ TC.pending_prepare k = [] /\
    TC.prepared_update k = [] /\ TC.waiting_for_reqid k = [] /\
    forall t, (has (TC.pending_commit k) t = true -> cj n t = true) /\
              (cj n t = true -> has (TC.pending_commit k) t = true \/ cm t = true).

(** The invariant of one client. *)
Record ninv (c : Z) (n : node) (oP oD : Z -> option Z) (qm : Z -> list qk) (cm : Z -> bool) : Prop := {
  n_phase t : phase c (rdy n) (pp n) (oP t) (oD t) (qm t) (pu n t) (pc n t) (cj n t) (cm t)
                (ags (down n) t) (ups (up n) t);
  n_prep r : r ∈ preps (up n) -> rdy n = true /\ pp n r = true /\ forall t, ~ lives oP oD t r;
  n_nodup : NoDup (preps (up n));
  n_lives t t' r : lives oP oD t r -> lives oP oD t' r -> t = t';
  n_bound t r : lives oP oD t r -> 0 <= r /\ (last n <> TC.no_reqid -> r <= last n) /\
    (last n = TC.no_reqid -> forall k, recovering (down n) k -> r < k);
  n_last : 0 <= last n <= TC.no_reqid;
  n_pp r : pp n r = true -> last n <> TC.no_reqid /\ 0 <= r <= last n;
  n_fresh : last n = TC.no_reqid -> rdy n = false;
  n_down : if rdy n then Forall (fun m => r_op m <> TABLESERVER_OP_SERVER_READY) (down n)
           else exists k, recovering (down n) k /\ 0 <= k <= TC.no_reqid;
  n_good_up : Forall good_up (up n);
  n_good_down : Forall good_down (down n);
  n_ack t : acks (down n) t <> [] -> cm t = true /\ ups (up n) t = [];
  n_acked t : t ∈ cqueue n -> cm t = true /\ cj n t = true;
  n_jack a : JAck a ∈ cjournal n -> cm (TC.a_tid a) = true;
  n_ackwait t : cm t = true -> pc n t = true -> rdy n = true -> ups (up n) t = [UC] \/ acks (down n) t <> [];
  n_answer r : rdy n = true -> pp n r = true -> r ∈ preps (up n) \/ exists t, lives oP oD t r;
  n_client : client_ok (cl n);
  n_waiting : rdy n = true -> TC.waiting_for_reqid (cl n) = [];
  n_replay : replays n cm
}.

(** ** Views of lists of messages *)

Lemma tid_msgs_app o l1 l2 t : tid_msgs o (l1 ++ l2) t = tid_msgs o l1 t ++ tid_msgs o l2 t.
Proof. apply omap_app. Qed.
Lemma ups_app l1 l2 t : ups (l1 ++ l2) t = ups l1 t ++ ups l2 t.
Proof. apply omap_app. Qed.
Lemma preps_app l1 l2 : preps (l1 ++ l2) = preps l1 ++ preps l2.
Proof. apply omap_app. Qed.
Lemma tid_msgs_cons o m l t :
  tid_msgs o (m :: l) t = (if (r_op m =? o) && (r_tid m =? t) then [r_reqid m] else []) ++ tid_msgs o l t.
Proof. unfold tid_msgs. simpl. by destruct (_ && _). Qed.
Lemma ups_cons m l t :
  ups (m :: l) t = (if r_tid m =? t then
      if r_op m =? TABLESERVER_OP_COMMIT then [UC]
      else if r_op m =? TABLESERVER_OP_ROLLBACK then [UR] else [] else []) ++ ups l t.
Proof.
  unfold ups. simpl. destruct (r_tid m =? t); [|done]. simpl.
  destruct (r_op m =? TABLESERVER_OP_COMMIT); [done|]. by destruct (r_op m =? TABLESERVER_OP_ROLLBACK).
Qed.
Lemma preps_cons m l :
  preps (m :: l) = (if r_op m =? TABLESERVER_OP_PREPARE then [r_reqid m] else []) ++ preps l.
Proof. unfold preps. simpl. by destruct (_ =? _). Qed.
Lemma items_cons x q t :
  items (x :: q) t = match item_of x with Some (t', k) => if t' =? t then [k] else [] | None => [] end
                     ++ items q t.
Proof. unfold items. simpl. destruct (item_of x) as [[t' k]|]; [|done]. by destruct (t' =? t). Qed.
Lemma items_app q1 q2 t : items (q1 ++ q2) t = items q1 t ++ items q2 t.
Proof. apply omap_app. Qed.
Lemma in_journal_app o l1 l2 t : in_journal o (l1 ++ l2) t = in_journal o l1 t || in_journal o l2 t.
Proof. apply existsb_app. Qed.

Lemma find_ge {V} lo (m : list (Z * V)) k : keys_from lo m -> has m k = true -> lo <= k.
Proof.
  intros Hk Hh. destruct (Z.lt_ge_cases k lo); [|done]. unfold has in Hh.
  by rewrite (map_find_below lo) in Hh.
Qed.

Lemma tids_of_set ls s k ls' :
  TC.tids_of (TC.set_tids ls s k) ls' = if ls' =? ls then s else TC.tids_of k ls'.
Proof. unfold TC.tids_of, TC.set_tids. simpl. rewrite map_find_set_any. by destruct (ls' =? ls). Qed.

Lemma tids_of_commit m k ls : TC.tids_of (TC.set_commit m k) ls = TC.tids_of k ls.
Proof. done. Qed.

(** A transaction enters or leaves its log segment together with
    [pending_commit]. *)
Lemma client_commit k t ls : client_ok k -> 1 <= t ->
  client_ok (TC.tid_insert ls t (TC.set_commit (map_set (TC.pending_commit k) t ls) k)).
Proof.
  intros [K1 K2 K3 K4 K5 K6 K7] Ht. unfold TC.tid_insert. split; try done.
  - by apply map_set_keys.
  - intros ls'. rewrite tids_of_set, tids_of_commit. destruct (ls' =? ls); [|apply K6].
    apply map_set_keys; [apply K6|done].
  - intros x ls'. rewrite tids_of_set, !tids_of_commit.
    change (TC.pending_commit (TC.set_tids _ _ _)) with (map_set (TC.pending_commit k) t ls).
    rewrite (map_find_set 1) by done.
    destruct (Z.eqb_spec ls' ls) as [->|]; destruct (Z.eqb_spec x t) as [->|].
    + intros _. by rewrite (has_set 1), Z.eqb_refl by apply K6.
    + intros Hx%K7. rewrite (has_set 1), Hx by apply K6. apply orb_true_r.
    + by intros [= ->].
    + apply K7.
Qed.

Lemma client_acked k t ls : client_ok k ->
  client_ok (TC.set_commit (map_erase (TC.pending_commit k) t) (TC.tid_erase ls t k)).
Proof.
  intros [K1 K2 K3 K4 K5 K6 K7]. unfold TC.tid_erase. split; try done.
  - by apply map_erase_keys.
  - intros ls'. rewrite tids_of_commit, tids_of_set. destruct (ls' =? ls); [|apply K6].
    apply map_erase_keys, K6.
  - intros x ls'. rewrite tids_of_commit, tids_of_set.
    change (TC.pending_commit (TC.set_commit ?m _)) with m.
    rewrite (map_find_erase 1) by done. destruct (Z.eqb_spec x t) as [->|]; [done|]. intros Hx%K7.
    destruct (Z.eqb_spec ls' ls) as [->|]; [|done]. rewrite (has_erase 1), Hx by apply K6.
    by rewrite (proj2 (Z.eqb_neq _ _)).
Qed.

Lemma recovering_cons m l k :
  r_op m = TABLESERVER_OP_AGREE -> recovering (m :: l) k <-> recovering l k.
Proof.
  intros Hm. split.
  - intros (l1 & t & bl & E & Hf). destruct l1 as [|a l1]; simpl in E; simplify_eq.
    exists l1, t, bl. split; [done|]. by inversion Hf.
  - intros (l1 & t & bl & -> & Hf). exists (m :: l1), t, bl. split; [done|]. by constructor.
Qed.

Lemma recovering_ready m l k :
  r_op m = TABLESERVER_OP_SERVER_READY -> recovering (m :: l) k -> l = [] /\ r_reqid m = k.
Proof.
  intros Hm (l1 & t & bl & E & Hf). destruct l1 as [|a l1]; simpl in E; simplify_eq; [done|].
  inversion Hf as [|? ? Ha ?]; subst. rewrite Hm in Ha. discriminate Ha.
Qed.

(** [f] with another value at [t] *)
Definition upd {A} (f : Z -> A) (t : Z) (v : A) (x : Z) : A := if x =? t then v else f x.

Lemma upd_eq {A} (f : Z -> A) t v : upd f t v t = v.
Proof. unfold upd. by rewrite Z.eqb_refl. Qed.
Lemma upd_ne {A} (f : Z -> A) t v x : x <> t -> upd f t v x = f x.
Proof. intros. unfold upd. by rewrite (proj2 (Z.eqb_neq _ _)). Qed.

(** The update stays where it is when the requests it lives under are treated
    as before. *)
Lemma phase_pp c rd prep prep' P D q u p j m ag us :
  phase c rd prep P D q u p j m ag us ->
  (forall r, P = Some r \/ D = Some r -> prep' r = prep r) ->
  phase c rd prep' P D q u p j m ag us.
Proof.
  intros H E. destruct H; constructor; rewrite ?E by auto; auto.
Qed.

(** Where an update can be when an AGREE for it is on its way. *)
Lemma phase_agree c rd prep P D q u p j m r ag us :
  phase c rd prep P D q u p j m (r :: ag) us ->
  ag = [] /\ P = Some r /\ D = Some r /\ q = [] /\ m = false /\ us = [] /\
  (u = None /\ p = false /\ j = false /\ (rd = true -> prep r = true) \/
   u = Some r /\ p = false /\ rd = false /\ prep r = false \/
   u = None /\ p = true /\ j = true /\ rd = false /\ prep r = false).
Proof.
  intros Hp. inversion Hp as [|? ? ?|r' Hr|r' j' ag' Hr Ha|r' ag' us' Hr Ha Hu|? ? ?|? ? ?|? ?|? ?]; subst.
  - split_and!; try done. by left.
  - destruct Ha as [?|[[= <- ->] ->]]; [done|]. split_and!; try done. right. by left.
  - destruct Ha as [?|[[= <- ->] ->]]; [done|]. split_and!; try done. right. by right.
Qed.

(** What a client that is not ready can hold of an update it has no AGREE for. *)
Lemma phase_quiet c prep P D q u p j m us :
  phase c false prep P D q u p j m [] us ->
  (forall r, P = Some r \/ D = Some r -> prep r = false) /\
  (forall prep', (forall r, P = Some r \/ D = Some r -> prep' r = false) ->
     phase c true prep' P D q u p j m [] (us ++ if p then [UC] else [])).
Proof.
  intros Hp. inversion Hp as [|? ? ?|r' Hr|r' j' ag' Hr Ha|r' ag' us' Hr Ha Hu|? ? ?|p' us' Hu|? ?|? ?]; subst;
    try discriminate; (split; [intros z [Hz|Hz]; congruence|]); intros prep' E; simpl;
    try (by constructor; auto); try (by constructor; [apply E; auto|by left]).
  destruct Hu as [->|(_ & ? & _)]; [|done]. constructor. destruct p; [right|left]; done.
Qed.

Lemma phase_journal c rd prep P D q r p j m ag us :
  phase c rd prep P D q (Some r) p j m ag us -> phase c rd prep P D q (Some r) p true m ag us.
Proof. intros Hp. inversion Hp; subst. by constructor. Qed.

Definition agree_of (o : option Z) : list Z := match o with Some r => [r] | None => [] end.

(** The server crashes and recovers from its disk. *)
Lemma phase_crash c rd prep P D q u p j m ag us :
  phase c rd prep P D q u p j m ag us -> phase c false prep D D [] u p j m (agree_of D) [].
Proof.
  intros Hp. inversion Hp; subst; simpl; try (by constructor; auto); constructor; auto; done.
Qed.

(** The client restarts from its disk. *)
Lemma phase_restart c rd prep prep' P u p p' j m ag us :
  phase c rd prep P P [] u p j m ag us -> (forall r, prep' r = false) ->
  (p' = true -> j = true) -> (j = true -> p' = true \/ m = true) ->
  phase c false prep' P P [] None p' j m (agree_of P) [].
Proof.
  intros Hp Hpr H1 H2.
  inversion Hp as [|? ? ?|r' Hr|r' j' ag' Hr Ha|r' ag' us' Hr Ha Hu|? ? ?|? us' Hu|? ?|? ?]; subst; simpl.
  - destruct p'; [by specialize (H1 eq_refl)|]. constructor.
  - destruct p'; [by specialize (H1 eq_refl)|]. by constructor.
  - destruct j, p'; try (by specialize (H1 eq_refl)); [by constructor; auto| |by constructor].
    by destruct (H2 eq_refl).
  - destruct p'; [by constructor; auto|]. by destruct (H2 eq_refl).
  - constructor. by left.
  - destruct p'; [by specialize (H1 eq_refl)|]. by constructor.
Qed.

Lemma phase_done c prep P D q u p j us : phase c false prep P D q u p j true [] us -> us = [].
Proof. intros Hp. inversion Hp as [| | | | | |p' us' [->|(_ & ? & _)]| |]; done. Qed.

(** A client that nothing happens to, but that the server's other clients
    commit their updates. *)
Lemma ninv_frame c n oP oD qm cm oP' oD' qm' cm' :
  ninv c n oP oD qm cm ->
  (forall t, oP' t = oP t) -> (forall t, oD' t = oD t) -> (forall t, qm' t = qm t) ->
  (forall t, cm' t = cm t \/ cm' t = true /\ oP t = None /\ oD t = None /\ cm t = false) ->
  ninv c n oP' oD' qm' cm'.
Proof.
  intros H EP ED EQ EC.
  assert (L : forall t r, lives oP' oD' t r <-> lives oP oD t r) by (intros; unfold lives; by rewrite EP, ED).
  assert (M : forall t, cm t = true -> cm' t = true) by (intros t Ht; destruct (EC t) as [->|[-> _]]; done).
  assert (F : forall t, cm' t <> cm t -> pc n t = false /\ cj n t = false).
  { intros t Hne. destruct (EC t) as [?|(Hc & HP & HD & Hcm)]; [done|].
    pose proof (n_phase _ _ _ _ _ _ H t) as Hph. rewrite HP, HD, Hcm in Hph. by inversion Hph. }
  destruct H as [H1 H2 H3 H4 H5 H6 H7 H8 H9 H10 H11 H12 H13 H13' H14 H15 H16 H17 H18]. split; auto.
  - intros t. rewrite EP, ED, EQ. specialize (H1 t). destruct (EC t) as [->|(Hc & HP & HD & Hcm)]; [done|].
    rewrite HP, HD, Hcm in *. rewrite Hc. inversion H1; subst. constructor.
  - intros r Hr. destruct (H2 r Hr) as (? & ? & Hl). split_and!; [done..|]. intros t. rewrite L. apply Hl.
  - intros t t' r. rewrite !L. apply H4.
  - intros t r. rewrite L. apply H5.
  - intros t Ht. destruct (H12 t Ht). auto.
  - intros t Ht. destruct (H13 t Ht). auto.
  - intros t Hc Hp. destruct (decide (cm' t = cm t)) as [E|Hne]; [apply H14; congruence|].
    apply F in Hne as [? _]. congruence.
  - intros r Hr Hp. destruct (H15 r Hr Hp) as [?|[t ?]]; [by left|]. right. exists t. by apply L.
  - destruct H18 as (k & ? & ? & ? & ? & ? & ? & ? & Hk). exists k. split_and!; try done.
    intros t. destruct (Hk t) as [? Hk']. split; [done|]. intros Hj. destruct (Hk' Hj); auto.
Qed.

(** ** The steps of one client *)

Lemma has_keys {V} (m : list (Z * V)) r : r ∈ map fst m <-> has m r = true.
Proof.
  unfold has. induction m as [|[k v] m IH]; simpl; [split; [by intros ?%elem_of_nil|done]|].
  rewrite elem_of_cons, IH. destruct (Z.eqb_spec k r) as [->|]; [tauto|].
  destruct (map_find m r); split; intuition congruence.
Qed.

Definition prepare_msg (p : Z * TC.prepare) : request :=
  MkReq TABLE_SNAP TABLESERVER_OP_PREPARE p.1 0 (TC.mutation p.2).
Definition commit_msg (p : Z * Z) : request := MkReq TABLE_SNAP TABLESERVER_OP_COMMIT 0 p.1 [].

Lemma preps_prepares m : preps (map prepare_msg m) = map fst m.
Proof. induction m as [|p m IH]; [done|]. simpl map. rewrite preps_cons, IH. done. Qed.
Lemma preps_commits m : preps (map commit_msg m) = [].
Proof. induction m as [|p m IH]; [done|]. simpl map. by rewrite preps_cons, IH. Qed.
Lemma ups_prepares m t : ups (map prepare_msg m) t = [].
Proof. induction m as [|p m IH]; [done|]. simpl map. rewrite ups_cons, IH. by destruct (_ =? t). Qed.

Lemma ups_commits lo m t : keys_from lo m -> ups (map commit_msg m) t = if has m t then [UC] else [].
Proof.
  revert lo. induction m as [|[k v] m IH]; intros lo; [done|]. intros [? Hk].
  simpl map. rewrite ups_cons, (IH _ Hk). unfold has. cbn. destruct (Z.eqb_spec k t) as [->|]; [|done].
  by rewrite (map_find_below (t + 1)) by (done || lia).
Qed.

Lemma cperform_sends nd ms :
  foldl cperform nd (map TC.SendServer ms) =
  MkNode (cl nd) (cjournal nd) (cqueue nd) (up nd ++ ms) (down nd).
Proof.
  revert nd. induction ms as [|m ms IH]; intros nd; simpl; [destruct nd; by rewrite app_nil_r|].
  rewrite IH. simpl. by rewrite <- app_assoc.
Qed.

(** The requests that waited for a number get the next ones. *)
Lemma assign_spec l last m :
  0 <= last -> last + Z.of_nat (length l) < TC.no_reqid -> keys_from 0 m ->
  Forall prepare_ok l -> Forall (fun x => prepare_ok x.2) m ->
  exists m', TC.assign_reqids l last m = (last + Z.of_nat (length l), m') /\ keys_from 0 m' /\
    Forall (fun x => prepare_ok x.2) m' /\
    forall r, has m' r = has m r || (last <? r) && (r <=? last + Z.of_nat (length l)).
Proof.
  revert last m. induction l as [|p l IH]; intros last m H0 Hb Hk Hl Hm; cbn [TC.assign_reqids].
  - exists m. rewrite Z.add_0_r. split_and!; [done..|]. intros r.
    rewrite (proj2 (andb_false_iff (last <? r) (r <=? last))); [by rewrite orb_false_r|].
    destruct (Z.ltb_spec last r); [right; by apply Z.leb_gt|by left].
  - cbn [length] in *. rewrite Nat2Z.inj_succ in *. inversion Hl; subst.
    rewrite u64_small by (unfold TC.no_reqid in *; lia).
    destruct (IH (last + 1) (map_set m (last + 1) p)) as (m' & -> & ? & ? & Hh); [lia|lia| | | |].
    + apply map_set_keys; [done|lia].
    + done.
    + by apply map_set_Forall.
    + exists m'. split_and!; [f_equal; lia|done|done|]. intros r. rewrite Hh, (has_set 0) by done.
      destruct (has m r); [by rewrite orb_true_r|]. rewrite orb_false_r.
      destruct (Z.eqb_spec r (last + 1)); zcase; done.
Qed.

Section Local.
Context (c : Z) (n : node) (oP oD : Z -> option Z) (qm : Z -> list qk) (cm : Z -> bool).
Context (H : ninv c n oP oD qm cm).

Ltac views := unfold rdy, last, pp, pu, pc, cj in *; cbn [cl cjournal cqueue up down] in *.

(** [phase_inv Ht] takes apart a phase and rewrites the goal with what it says. *)
Ltac phase_inv Ht :=
  inversion Ht; subst;
  repeat match goal with
  | E : _ = pu n _ |- _ => rewrite <- E in *; clear E
  | E : _ = pc n _ |- _ => rewrite <- E in *; clear E
  | E : _ = cj n _ |- _ => rewrite <- E in *; clear E
  | E : _ = cm _ |- _ => rewrite <- E in *; clear E
  | E : _ = oP _ |- _ => rewrite <- E in *; clear E
  | E : _ = oD _ |- _ => rewrite <- E in *; clear E
  | E : _ = qm _ |- _ => rewrite <- E in *; clear E
  | E : _ = ags _ _ |- _ => rewrite <- E in *; clear E
  | E : _ = ups _ _ |- _ => rewrite <- E in *; clear E
  | E : _ = rdy _ |- _ => rewrite <- E in *; clear E
  end.

(** The client's memory changes in what the protocol does not use. *)
Lemma local_cl k :
  TC.server_ready k = rdy n -> TC.last_reqid k = last n ->
  TC.pending_prepare k = TC.pending_prepare (cl n) -> TC.prepared_update k = TC.prepared_update (cl n) ->
  TC.pending_commit k = TC.pending_commit (cl n) -> client_ok k ->
  (rdy n = true -> TC.waiting_for_reqid k = []) ->
  ninv c (MkNode k (cjournal n) (cqueue n) (up n) (down n)) oP oD qm cm.
Proof.
  intros E1 E2 E3 E4 E5 Hk Hw.
  destruct H as [H1 H2 H3 H4 H5 H6 H7 H8 H9 H10 H11 H12 H13 H13' H14 H15 H16 H17 H18].
  split; views; rewrite ?E1, ?E2, ?E3, ?E4, ?E5; auto.
Qed.

Lemma client_waiting k p : client_ok k -> prepare_ok p ->
  client_ok (TC.set_waiting (TC.waiting_for_reqid k ++ [p]) k).
Proof.
  intros [] ?. split; try done. cbn. apply Forall_app. split; [done|]. by apply Forall_singleton.
Qed.

Lemma client_prepare k r p : client_ok k -> 0 <= r -> prepare_ok p ->
  client_ok (TC.set_prepare (map_set (TC.pending_prepare k) r p) (TC.set_last r k)).
Proof.
  intros [] ? ?. split; try done; cbn.
  - by apply map_set_keys.
  - by apply map_set_Forall.
Qed.

Lemma fresh_reqid t r : lives oP oD t r -> last n <> TC.no_reqid -> r <> last n + 1.
Proof. intros Hl Hn. destruct (n_bound _ _ _ _ _ _ H t r Hl) as (_ & Hb & _). specialize (Hb Hn). lia. Qed.

Lemma preps_bound r : r ∈ preps (up n) -> r <= last n.
Proof.
  intros Hr. destruct (n_prep _ _ _ _ _ _ H r Hr) as (_ & Hp & _).
  apply (n_pp _ _ _ _ _ _ H) in Hp. lia.
Qed.

(** A numbered request, sent if the server is ready. *)
Lemma local_number p m :
  last n <> TC.no_reqid -> last n + 1 < TC.no_reqid -> prepare_ok p ->
  m = MkReq TABLE_SNAP TABLESERVER_OP_PREPARE (last n + 1) 0 (TC.mutation p) ->
  ninv c (MkNode (TC.set_prepare (map_set (TC.pending_prepare (cl n)) (last n + 1) p)
                    (TC.set_last (last n + 1) (cl n)))
            (cjournal n) (cqueue n) (up n ++ if rdy n then [m] else []) (down n)) oP oD qm cm.
Proof.
  intros Hn Hb Hp ->. pose proof fresh_reqid as HF. pose proof preps_bound as HB.
  destruct H as [H1 H2 H3 H4 H5 H6 H7 H8 H9 H10 H11 H12 H13 H13' H14 H15 H16 H17 H18].
  set (m := MkReq _ _ _ _ _). set (r0 := last n + 1) in *.
  assert (Hpp : forall r, has (map_set (TC.pending_prepare (cl n)) r0 p) r = (r =? r0) || pp n r)
    by (intros r; apply (has_set 0), H16).
  assert (Hups : forall t, ups (up n ++ if rdy n then [m] else []) t = ups (up n) t).
  { intros t. rewrite ups_app. destruct (rdy n); [|by rewrite app_nil_r].
    replace (ups [m] t) with (@nil uk); [by rewrite app_nil_r|].
    rewrite ups_cons. by destruct (_ =? t). }
  assert (Hpr : preps (up n ++ if rdy n then [m] else []) = preps (up n) ++ if rdy n then [r0] else [])
    by (rewrite preps_app; by destruct (rdy n)).
  split; cbn [cl cjournal cqueue up down].
  - intros t. rewrite Hups. eapply phase_pp; [apply H1|]. intros r Hr. unfold pp at 1. cbn.
    rewrite Hpp, (proj2 (Z.eqb_neq r r0)); [done|]. by apply (HF t).
  - intros r. rewrite Hpr, elem_of_app. unfold pp, rdy. cbn. rewrite Hpp.
    change (TC.server_ready (cl n)) with (rdy n). intros [Hr|Hr].
    + destruct (H2 r Hr) as (? & Hpr2 & ?). rewrite Hpr2, orb_true_r. done.
    + destruct (rdy n) eqn:E; [|by apply elem_of_nil in Hr]. apply list_elem_of_singleton in Hr as ->.
      rewrite Z.eqb_refl. split_and!; [done|done|]. intros t Hl. by apply (HF t) in Hl.
  - rewrite Hpr. apply NoDup_app. split_and!; [done| |destruct (rdy n); [apply NoDup_singleton|constructor]].
    intros r Hr%HB Hr2. destruct (rdy n); [|by apply elem_of_nil in Hr2].
    apply list_elem_of_singleton in Hr2. lia.
  - done.
  - intros t r Hl. destruct (H5 t r Hl) as (? & Hle & _). specialize (Hle Hn). unfold last. cbn.
    split_and!; [done|lia|]. subst r0. unfold TC.no_reqid in *. lia.
  - unfold last. cbn. lia.
  - intros r. unfold pp, last. cbn. rewrite Hpp. intros [->%Z.eqb_eq|Hr]%orb_true_iff; [lia|].
    apply H7 in Hr. lia.
  - unfold last. cbn. lia.
  - done.
  - apply Forall_app. split; [done|]. destruct (rdy n); [|constructor]. apply Forall_singleton. constructor. apply Hp.
  - done.
  - intros t Ht. rewrite Hups. by apply H12.
  - done.
  - done.
  - intros t. rewrite Hups. apply H14.
  - intros r. rewrite Hpr. unfold pp, rdy. cbn. rewrite Hpp.
    change (TC.server_ready (cl n)) with (rdy n). intros Hr [->%Z.eqb_eq|Hpr']%orb_true_iff.
    + left. apply elem_of_app. right. rewrite Hr. by apply list_elem_of_singleton.
    + destruct (H15 r Hr Hpr'); [left|by right]. apply elem_of_app. by left.
  - apply client_prepare; [done|lia|done].
  - done.
  - done.
Qed.

Lemma local_prepare bl pt pb fin :
  valid_mutation bl -> (last n =? TC.no_reqid) || reqids_left (last n) 0 = true ->
  forall k e, TC._prepare TABLE_SNAP bl (Some pt) pb fin (cl n) = (k, e) ->
  ninv c (foldl cperform (MkNode k (cjournal n) (cqueue n) (up n) (down n)) e) oP oD qm cm.
Proof.
  intros Hbl Hl k e. unfold TC._prepare. change (TC.last_reqid (cl n)) with (last n).
  assert (Hp : prepare_ok (TC.MkPrepare fin (Some pt) pb bl)) by done.
  destruct (Z.eqb_spec (last n) TC.no_reqid) as [Hn|Hn]; intros [= <- <-].
  - simpl. apply local_cl; try done; [by apply client_waiting; [apply H|]|].
    intros Hr. by rewrite (n_fresh _ _ _ _ _ _ H Hn) in Hr.
  - simpl in Hl. unfold reqids_left in Hl. apply Z.ltb_lt in Hl. simpl in Hl.
    pose proof (n_last _ _ _ _ _ _ H) as Hr. rewrite u64_small by (unfold TC.no_reqid in *; lia).
    pose proof (local_number (TC.MkPrepare fin (Some pt) pb bl) _ Hn ltac:(lia) Hp eq_refl) as Hnum.
    unfold rdy in Hnum. cbn. destruct (TC.server_ready (cl n)); simpl in *; [done|].
    by rewrite app_nil_r in Hnum.
Qed.

(** The server acts on the client's messages or answers them. *)
Lemma local_server oP' oD' qm' cm' up' down' :
  (forall x, phase c (rdy n) (pp n) (oP' x) (oD' x) (qm' x) (pu n x) (pc n x) (cj n x) (cm' x)
               (ags down' x) (ups up' x)) ->
  (forall x r, lives oP' oD' x r -> lives oP oD x r) ->
  (forall x r, pp n r = true -> lives oP oD x r -> lives oP' oD' x r) ->
  preps up' = preps (up n) -> Forall good_up up' -> Forall good_down down' ->
  (rdy n = true -> Forall (fun m => r_op m <> TABLESERVER_OP_SERVER_READY) down') ->
  (rdy n = false -> down' = down n) ->
  (forall x, acks down' x <> [] -> cm' x = true /\ ups up' x = []) ->
  (forall x, cm x = true -> cm' x = true) ->
  (forall x, cm' x = true -> pc n x = true -> rdy n = true -> ups up' x = [UC] \/ acks down' x <> []) ->
  ninv c (MkNode (cl n) (cjournal n) (cqueue n) up' down') oP' oD' qm' cm'.
Proof.
  intros Hph L1 L2 Hpr Hgu Hgd Hd1 Hd2 Hak Hcm Haw.
  destruct H as [H1 H2 H3 H4 H5 H6 H7 H8 H9 H10 H11 H12 H13 H13' H14 H15 H16 H17 H18].
  split; cbn [cl cjournal cqueue up down]; try done.
  - intros r. rewrite Hpr. intros (? & ? & Hl)%H2. split_and!; [done..|]. intros t Ht. by apply (Hl t), L1.
  - by rewrite Hpr.
  - intros t t' r Ht%L1 Ht'%L1. eauto.
  - intros t r Ht%L1. destruct (H5 t r Ht) as (? & ? & Hk). split_and!; [done..|].
    intros Hn k. rewrite (Hd2 (H8 Hn)). by apply Hk.
  - change (rdy (MkNode _ _ _ _ _)) with (rdy n). destruct (rdy n); [by apply Hd1|]. by rewrite Hd2.
  - intros t [? ?]%H13. auto.
  - intros a Ha%H13'. auto.
  - intros r Hr Hp. rewrite Hpr. destruct (H15 r Hr Hp) as [?|[t ?]]; [by left|]. right. eauto.
  - destruct H18 as (k & ? & ? & ? & ? & ? & ? & ? & Hk). exists k. split_and!; try done.
    intros t. destruct (Hk t) as [? Hk']. split; [done|]. intros Hj. destruct (Hk' Hj); auto.
Qed.

(** A PREPARE is taken up under the fresh id [t]. *)
Lemma srv_prepare m l t :
  up n = m :: l -> r_op m = TABLESERVER_OP_PREPARE -> oP t = None -> oD t = None -> cm t = false ->
  ninv c (MkNode (cl n) (cjournal n) (cqueue n) l (down n))
    (upd oP t (Some (r_reqid m))) oD (upd qm t [QP (r_reqid m) c]) cm.
Proof.
  intros Hu Hop HP HD Hc. set (r := r_reqid m).
  assert (Hpr : preps (up n) = r :: preps l) by (rewrite Hu, preps_cons, Hop; done).
  assert (Hups : forall x, ups (up n) x = ups l x)
    by (intros x; rewrite Hu, ups_cons, Hop; by destruct (_ =? x)).
  destruct (n_prep _ _ _ _ _ _ H r) as (Hrd & Hpp & Hnl); [rewrite Hpr; by left|].
  destruct H as [H1 H2 H3 H4 H5 H6 H7 H8 H9 H10 H11 H12 H13 H13' H14 H15 H16 H17 H18].
  rewrite Hpr in H3. apply NoDup_cons in H3 as [Hni H3].
  assert (L : forall x r', lives (upd oP t (Some r)) oD x r' -> lives oP oD x r' \/ x = t /\ r' = r).
  { intros x r'. unfold lives, upd. destruct (Z.eqb_spec x t) as [->|]; [|by left].
    rewrite HD. intros [[= <-]|?]; [by right|done]. }
  split; cbn [cl cjournal cqueue up down]; try done.
  - intros x. rewrite <- Hups. unfold upd. specialize (H1 x).
    destruct (Z.eqb_spec x t) as [->|]; [|done]. rewrite HP, HD, Hc in *. views.
    phase_inv H1. by constructor.
  - intros r' Hr'. destruct (H2 r') as (? & ? & Hl); [rewrite Hpr; by right|]. split_and!; [done..|].
    intros x [Hx|[-> ->]]%L; [by apply (Hl x)|]. done.
  - intros x x' r' [Hx|[-> ->]]%L [Hx'|[-> E]]%L; subst; eauto; exfalso; eapply Hnl; eassumption.
  - intros x r' [Hx|[-> ->]]%L; [by apply (H5 x)|]. apply H7 in Hpp as [? ?]. views. split_and!; [lia|lia|done].
  - rewrite Hu in H10. by inversion H10.
  - intros x Hx. rewrite <- Hups. by apply H12.
  - intros x. rewrite <- Hups. apply H14.
  - intros r' Hr' Hp'. destruct (H15 r' Hr' Hp') as [Hin|[x Hx]].
    + rewrite Hpr in Hin. apply elem_of_cons in Hin as [->|?]; [|by left]. right. exists t. left.
      apply upd_eq.
    + right. exists x. unfold lives, upd in *. destruct (Z.eqb_spec x t) as [->|]; [|done].
      destruct Hx; congruence.
Qed.

(** What remains of the queue to the server. *)
Lemma ups_tail m l x : up n = m :: l -> r_tid m <> x -> ups l x = ups (up n) x.
Proof. intros -> Hne. rewrite ups_cons, (proj2 (Z.eqb_neq _ _)) by done. done. Qed.

Lemma good_tail m l : up n = m :: l -> Forall good_up l.
Proof. intros Hu. pose proof (n_good_up _ _ _ _ _ _ H) as Hg. rewrite Hu in Hg. by inversion Hg. Qed.

(** A COMMIT of a pending update; a COMMIT of one already committed; a
    ROLLBACK. *)
Lemma srv_commit m l r :
  up n = m :: l -> r_op m = TABLESERVER_OP_COMMIT -> oP (r_tid m) = Some r ->
  ninv c (MkNode (cl n) (cjournal n) (cqueue n) l (down n))
    (upd oP (r_tid m) None) oD (upd qm (r_tid m) [QC c]) cm.
Proof.
  intros Hu Hop HP. set (t := r_tid m) in *.
  assert (Hups : ups (up n) t = UC :: ups l t) by (rewrite Hu, ups_cons, Hop; subst t; by rewrite Z.eqb_refl).
  pose proof (n_phase _ _ _ _ _ _ H t) as Ht. rewrite HP, Hups in Ht.
  assert (HD : oD t = Some r /\ rdy n = true) by (by inversion Ht; subst; destruct (rdy n)).
  destruct HD as [HD Hrd]. rewrite HD, Hrd in Ht.
  apply local_server; try done.
  - intros x. unfold upd. destruct (Z.eqb_spec x t) as [->|Hne].
    + rewrite HD, Hrd. phase_inv Ht. match goal with E : _ :: _ = [_] |- _ => injection E as -> end.
      match goal with E : _ \/ _ |- _ => destruct E as [->|[_ ?]]; [|done] end. by constructor.
    + rewrite (ups_tail m l x Hu) by (by intros <-). apply H.
  - intros x r'. unfold lives, upd. destruct (Z.eqb_spec x t) as [->|]; [|done]. intros [?|?]; [done|by right].
  - intros x r' _. unfold lives, upd. destruct (Z.eqb_spec x t) as [->|]; [|done]. rewrite HP, HD. intros [?|?]; by right.
  - by rewrite Hu, preps_cons, Hop.
  - by eapply good_tail.
  - apply H.
  - intros _. pose proof (n_down _ _ _ _ _ _ H) as Hd. by rewrite Hrd in Hd.
  - intros x Hx. destruct (n_ack _ _ _ _ _ _ H x Hx) as [? Hn]. split; [done|].
    rewrite (ups_tail m l x Hu); [done|]. intros <-. fold t in Hn. congruence.
  - intros x Hx Hp. destruct (decide (x = t)) as [->|Hne].
    + inversion Ht; congruence.
    + rewrite (ups_tail m l x Hu) by (by intros <-). by apply H.
Qed.

Lemma ups_head m l u : up n = m :: l ->
  (r_op m = TABLESERVER_OP_COMMIT /\ u = UC) \/ (r_op m = TABLESERVER_OP_ROLLBACK /\ u = UR) ->
  ups (up n) (r_tid m) = u :: ups l (r_tid m) /\ preps l = preps (up n).
Proof.
  intros -> Hop. rewrite ups_cons, preps_cons, Z.eqb_refl.
  by destruct Hop as [[-> ->]|[-> ->]].
Qed.

(** A lost answer: the update is committed, and the COMMIT answered again. *)
Lemma srv_recommit m l bl r :
  up n = m :: l -> r_op m = TABLESERVER_OP_COMMIT -> oP (r_tid m) = None ->
  ninv c (MkNode (cl n) (cjournal n) (cqueue n) l
            (down n ++ [MkReq TABLE_SNAP TABLESERVER_OP_ACK r (r_tid m) bl])) oP oD qm cm.
Proof.
  intros Hu Hop HP. destruct (ups_head m l UC Hu) as [Hups Hpr]; [by left|]. set (t := r_tid m) in *.
  pose proof (n_phase _ _ _ _ _ _ H t) as Ht. rewrite HP, Hups in Ht.
  assert (Hf : cm t = true /\ rdy n = true /\ ups l t = []).
  { inversion Ht; subst; naive_solver. }
  destruct Hf as (Hc & Hrd & Hul). set (a := MkReq _ _ _ _ _).
  assert (Hags : forall x, ags (down n ++ [a]) x = ags (down n) x)
    by (intros x; unfold ags; rewrite tid_msgs_app, tid_msgs_cons; simpl; by rewrite app_nil_r).
  assert (Hacks : forall x, x <> t -> acks (down n ++ [a]) x = acks (down n) x).
  { intros x Hx. unfold acks. rewrite tid_msgs_app, tid_msgs_cons. simpl.
    rewrite (proj2 (Z.eqb_neq t x)) by done. by rewrite app_nil_r. }
  apply local_server; try done.
  - intros x. rewrite Hags. destruct (decide (x = t)) as [->|Hne].
    + rewrite HP, Hul, Hrd in *. phase_inv Ht. constructor. by left.
    + rewrite (ups_tail m l x Hu) by (by intros <-). apply H.
  - by eapply good_tail.
  - apply Forall_app. split; [apply H|]. apply Forall_singleton. constructor.
  - intros _. pose proof (n_down _ _ _ _ _ _ H) as Hd. rewrite Hrd in Hd.
    apply Forall_app. split; [done|]. by apply Forall_singleton.
  - congruence.
  - intros x. destruct (decide (x = t)) as [->|Hne]; [done|]. rewrite Hacks by done.
    rewrite (ups_tail m l x Hu) by (by intros <-). apply H.
  - intros x Hx Hp Hr. destruct (decide (x = t)) as [->|Hne].
    + right. unfold acks. rewrite tid_msgs_app, tid_msgs_cons. simpl. rewrite Z.eqb_refl.
      by destruct (tid_msgs _ _ _).
    + rewrite Hacks by done. rewrite (ups_tail m l x Hu) by (by intros <-). by apply H.
Qed.

Lemma srv_rollback m l r :
  up n = m :: l -> r_op m = TABLESERVER_OP_ROLLBACK -> oP (r_tid m) = Some r ->
  ninv c (MkNode (cl n) (cjournal n) (cqueue n) l (down n))
    (upd oP (r_tid m) None) oD (upd qm (r_tid m) [QR]) cm.
Proof.
  intros Hu Hop HP. destruct (ups_head m l UR Hu) as [Hups Hpr]; [by right|]. set (t := r_tid m) in *.
  pose proof (n_phase _ _ _ _ _ _ H t) as Ht. rewrite HP, Hups in Ht.
  assert (HD : oD t = Some r /\ cm t = false /\ pc n t = false) by (by inversion Ht; subst; destruct (rdy n)).
  destruct HD as (HD & Hc & Hp).
  apply local_server; try done.
  - intros x. unfold upd. destruct (Z.eqb_spec x t) as [->|Hne].
    + rewrite HD, Hc, Hp in *. phase_inv Ht. by constructor.
    + rewrite (ups_tail m l x Hu) by (by intros <-). apply H.
  - intros x r'. unfold lives, upd. destruct (Z.eqb_spec x t) as [->|]; [|done]. intros [?|?]; [done|by right].
  - intros x r' _. unfold lives, upd. destruct (Z.eqb_spec x t) as [->|]; [|done].
    rewrite HP, HD. intros [?|?]; by right.
  - by eapply good_tail.
  - apply H.
  - intros Hr. pose proof (n_down _ _ _ _ _ _ H) as Hd. by rewrite Hr in Hd.
  - intros x Hx. destruct (n_ack _ _ _ _ _ _ H x Hx) as [? Hn]. split; [done|].
    rewrite (ups_tail m l x Hu); [done|]. intros <-. fold t in Hn. congruence.
  - intros x Hx Hpx. destruct (decide (x = t)) as [->|Hne]; [congruence|].
    rewrite (ups_tail m l x Hu) by (by intros <-). by apply H.
Qed.

(** The server's entries reach the disk. *)
Lemma flush_prepare t r bl :
  qm t = [QP r c] ->
  ninv c (MkNode (cl n) (cjournal n) (cqueue n) (up n)
            (down n ++ [MkReq TABLE_SNAP TABLESERVER_OP_AGREE r t bl]))
    oP (upd oD t (Some r)) (upd qm t []) cm.
Proof.
  intros Hq. pose proof (n_phase _ _ _ _ _ _ H t) as Ht. rewrite Hq in Ht.
  assert (Hf : rdy n = true /\ oP t = Some r) by (by inversion Ht; subst). destruct Hf as [Hrd HP].
  set (a := MkReq _ _ _ _ _).
  assert (Hags : forall x, ags (down n ++ [a]) x = ags (down n) x ++ if t =? x then [r] else []).
  { intros x. unfold ags. rewrite tid_msgs_app, tid_msgs_cons. simpl. by destruct (t =? x). }
  assert (Hacks : forall x, acks (down n ++ [a]) x = acks (down n) x).
  { intros x. unfold acks. rewrite tid_msgs_app, tid_msgs_cons. simpl. by rewrite app_nil_r. }
  apply local_server; try done.
  - intros x. rewrite Hags. unfold upd. rewrite (Z.eqb_sym t x). destruct (Z.eqb_spec x t) as [->|Hne].
    + rewrite HP, Hrd in *. phase_inv Ht. by constructor.
    + rewrite app_nil_r. apply H.
  - intros x r'. unfold lives, upd. destruct (Z.eqb_spec x t) as [->|]; [|done].
    rewrite HP. intros [?|?]; by left.
  - intros x r' _. unfold lives, upd. destruct (Z.eqb_spec x t) as [->|]; [|done].
    rewrite HP. intros [?|Hd]; [by left|]. rewrite HP, Hrd in Ht. rewrite Hd in Ht. inversion Ht.
  - apply H.
  - apply Forall_app. split; [apply H|]. apply Forall_singleton. constructor.
  - intros _. pose proof (n_down _ _ _ _ _ _ H) as Hd. rewrite Hrd in Hd.
    apply Forall_app. split; [done|]. by apply Forall_singleton.
  - congruence.
  - intros x. rewrite Hacks. apply H.
  - intros x. rewrite Hacks. apply H.
Qed.

Lemma flush_commit t bl r0 :
  qm t = [QC c] ->
  ninv c (MkNode (cl n) (cjournal n) (cqueue n) (up n)
            (down n ++ [MkReq TABLE_SNAP TABLESERVER_OP_ACK r0 t bl]))
    oP (upd oD t None) (upd qm t []) (upd cm t true).
Proof.
  intros Hq. pose proof (n_phase _ _ _ _ _ _ H t) as Ht. rewrite Hq in Ht.
  assert (Hf : rdy n = true /\ oP t = None /\ ups (up n) t = [] /\
            exists r, oD t = Some r /\ pp n r = false) by (inversion Ht; subst; naive_solver).
  destruct Hf as (Hrd & HP & Hu & r & HD & Hpr).
  set (a := MkReq _ _ _ _ _).
  assert (Hags : forall x, ags (down n ++ [a]) x = ags (down n) x)
    by (intros x; unfold ags; rewrite tid_msgs_app, tid_msgs_cons; simpl; by rewrite app_nil_r).
  assert (Hacks : forall x, acks (down n ++ [a]) x = acks (down n) x ++ if t =? x then [r0] else []).
  { intros x. unfold acks. rewrite tid_msgs_app, tid_msgs_cons. simpl. by destruct (t =? x). }
  apply local_server; try done.
  - intros x. rewrite Hags. unfold upd. destruct (Z.eqb_spec x t) as [->|Hne]; [|apply H].
    rewrite HP, HD, Hrd, Hu in *. phase_inv Ht. constructor. by left.
  - intros x r'. unfold lives, upd. destruct (Z.eqb_spec x t) as [->|]; [|done]. intros [?|?]; [by left|done].
  - intros x r' Hp'. unfold lives, upd. destruct (Z.eqb_spec x t) as [->|]; [|done].
    intros [?|?]; [by left|]. congruence.
  - apply H.
  - apply Forall_app. split; [apply H|]. apply Forall_singleton. constructor.
  - intros _. pose proof (n_down _ _ _ _ _ _ H) as Hd. rewrite Hrd in Hd.
    apply Forall_app. split; [done|]. by apply Forall_singleton.
  - congruence.
  - intros x. rewrite Hacks. unfold upd. rewrite (Z.eqb_sym t x).
    destruct (Z.eqb_spec x t) as [->|Hne]; [done|]. rewrite app_nil_r. apply H.
  - intros x. unfold upd. by destruct (x =? t).
  - intros x. rewrite Hacks. unfold upd. rewrite (Z.eqb_sym t x).
    destruct (Z.eqb_spec x t) as [->|Hne]; [right; by destruct (acks _ _)|]. rewrite app_nil_r. apply H.
Qed.

Lemma flush_rollback t :
  qm t = [QR] -> ninv c n oP (upd oD t None) (upd qm t []) cm.
Proof.
  intros Hq. pose proof (n_phase _ _ _ _ _ _ H t) as Ht. rewrite Hq in Ht.
  assert (Hf : oP t = None /\ exists r, oD t = Some r /\ pp n r = false) by (inversion Ht; subst; naive_solver).
  destruct Hf as (HP & r & HD & Hpr).
  replace n with (MkNode (cl n) (cjournal n) (cqueue n) (up n) (down n)) by (by destruct n).
  apply local_server; try done; try apply H.
  - intros x. unfold upd. destruct (Z.eqb_spec x t) as [->|Hne]; [|apply H].
    rewrite HP, HD in *. phase_inv Ht. constructor.
  - intros x r'. unfold lives, upd. destruct (Z.eqb_spec x t) as [->|]; [|done]. intros [?|?]; [by left|done].
  - intros x r' Hp'. unfold lives, upd. destruct (Z.eqb_spec x t) as [->|]; [|done].
    intros [?|?]; [by left|]. congruence.
  - intros Hr. pose proof (n_down _ _ _ _ _ _ H) as Hd. by rewrite Hr in Hd.
Qed.

Lemma down_agree m l x : down n = m :: l -> r_op m = TABLESERVER_OP_AGREE ->
  acks (down n) x = acks l x /\ ags (down n) x = (if r_tid m =? x then [r_reqid m] else []) ++ ags l x.
Proof. intros -> Hm. unfold acks, ags. rewrite !tid_msgs_cons, Hm. done. Qed.

Lemma n_down_tail m l : down n = m :: l -> r_op m = TABLESERVER_OP_AGREE ->
  if rdy n then Forall (fun m => r_op m <> TABLESERVER_OP_SERVER_READY) l
  else exists k, recovering l k /\ 0 <= k <= TC.no_reqid.
Proof.
  intros Hd Hm. pose proof (n_down _ _ _ _ _ _ H) as Hn. rewrite Hd in Hn.
  destruct (rdy n); [by inversion Hn|]. destruct Hn as (k & Hk & ?). exists k.
  by apply recovering_cons in Hk.
Qed.

(** The client takes an AGREE and leaves its memory as it is. *)
Lemma local_tail m l up' :
  down n = m :: l -> r_op m = TABLESERVER_OP_AGREE ->
  (forall x, phase c (rdy n) (pp n) (oP x) (oD x) (qm x) (pu n x) (pc n x) (cj n x) (cm x)
               (ags l x) (ups up' x)) ->
  preps up' = preps (up n) -> Forall good_up up' ->
  (forall x, cm x = true -> ups up' x = ups (up n) x) ->
  ninv c (MkNode (cl n) (cjournal n) (cqueue n) up' l) oP oD qm cm.
Proof.
  intros Hd Hm Hph Hpr Hgu Hu. pose proof (n_down_tail m l Hd Hm) as Hn.
  assert (Hak : forall x, acks l x = acks (down n) x) by (intros x; by destruct (down_agree m l x Hd Hm)).
  destruct H as [H1 H2 H3 H4 H5 H6 H7 H8 H9 H10 H11 H12 H13 H13' H14 H15 H16 H17 H18].
  split; cbn [cl cjournal cqueue up down]; rewrite ?Hpr; try done.
  - intros t r Hl. destruct (H5 t r Hl) as (? & ? & Hk). split_and!; [done..|]. intros Hl0 k Hr.
    apply Hk; [done|]. rewrite Hd. by apply recovering_cons.
  - rewrite Hd in H11. by inversion H11.
  - intros t. rewrite Hak. intros [Hc Hups]%H12. by rewrite Hu.
  - intros t Hc. rewrite Hak, Hu by done. by apply H14.
Qed.

Lemma client_agree k r t p :
  client_ok k -> map_find (TC.pending_prepare k) r = Some p -> 1 <= t ->
  client_ok (TC.set_prepared (map_set (TC.prepared_update k) t r)
    (TC.set_prepare (map_erase (TC.pending_prepare k) r) k)).
Proof.
  intros [] ? ?. split; try done; cbn.
  - by apply map_erase_keys.
  - by apply map_set_keys.
  - by apply map_erase_Forall.
Qed.

(** The answer the client waits for. *)
Lemma local_agreed m l p :
  down n = m :: l -> r_op m = TABLESERVER_OP_AGREE -> 1 <= r_tid m ->
  map_find (TC.pending_prepare (cl n)) (r_reqid m) = Some p ->
  ninv c (MkNode (TC.set_prepared (map_set (TC.prepared_update (cl n)) (r_tid m) (r_reqid m))
                    (TC.set_prepare (map_erase (TC.pending_prepare (cl n)) (r_reqid m)) (cl n)))
            (cjournal n) (cqueue n) (up n) l) oP oD qm cm.
Proof.
  intros Hd Hm Ht1 Hf. pose proof (n_down_tail m l Hd Hm) as Hn.
  set (t := r_tid m) in *. set (r := r_reqid m) in *.
  assert (Hak : forall x, acks l x = acks (down n) x) by (intros x; by destruct (down_agree m l x Hd Hm)).
  assert (Hag : forall x, ags (down n) x = (if t =? x then [r] else []) ++ ags l x)
    by (intros x; by destruct (down_agree m l x Hd Hm)).
  assert (Hpr : pp n r = true) by (by apply (has_find _ _ p)).
  pose proof (n_phase _ _ _ _ _ _ H t) as Ht. rewrite Hag, Z.eqb_refl in Ht.
  destruct (phase_agree _ _ _ _ _ _ _ _ _ _ _ _ _ Ht) as (Hl0 & HP & HD & Hq & Hc & Hu & Hcase).
  assert (HN : pu n t = None /\ pc n t = false /\ cj n t = false)
    by (destruct Hcase as [?|[?|?]]; [tauto|destruct_and?; congruence..]).
  destruct H as [H1 H2 H3 H4 H5 H6 H7 H8 H9 H10 H11 H12 H13 H13' H14 H15 H16 H17 H18].
  assert (Hpp : forall r', has (map_erase (TC.pending_prepare (cl n)) r) r' = negb (r' =? r) && pp n r')
    by (intros r'; apply (has_erase 0), H16).
  assert (Hpu : forall x, map_find (map_set (TC.prepared_update (cl n)) t r) x =
                          if x =? t then Some r else pu n x)
    by (intros x; apply (map_find_set 1), H16).
  split; cbn [cl cjournal cqueue up down]; rewrite ?Hpr; try done.
  - intros x. unfold pu. cbn. rewrite Hpu. destruct (Z.eqb_spec x t) as [->|Hne].
    + destruct HN as (_ & Hc1 & Hc2). rewrite HP, HD, Hq, Hc, Hu, Hl0. unfold pc, cj in *. cbn.
      rewrite Hc1, Hc2. constructor; [|by left]. unfold pp. cbn. by rewrite Hpp, Z.eqb_refl.
    + specialize (H1 x). rewrite Hag, (proj2 (Z.eqb_neq t x)) in H1 by done.
      eapply phase_pp; [exact H1|]. intros r' Hr'. unfold pp at 1. cbn. rewrite Hpp.
      destruct (Z.eqb_spec r' r) as [->|]; [|done]. exfalso. apply Hne, (H4 _ _ r); [done|]. by left.
  - intros r' Hr'. destruct (H2 r' Hr') as (? & Hp' & Hl). split_and!; [done| |done]. unfold pp. cbn.
    rewrite Hpp, Hp', (proj2 (Z.eqb_neq r' r)); [done|]. intros ->. apply (Hl t). by left.
  - intros x r' Hl. destruct (H5 x r' Hl) as (? & ? & Hk). split_and!; [done..|]. intros Hno k Hr.
    apply Hk; [done|]. rewrite Hd. by apply recovering_cons.
  - intros r'. unfold pp. cbn. rewrite Hpp. intros [_ ?]%andb_true_iff. by apply H7.
  - rewrite Hd in H11. by inversion H11.
  - intros x. rewrite Hak. apply H12.
  - intros x. rewrite Hak. apply H14.
  - intros r' Hr'. unfold pp. cbn. rewrite Hpp. intros [_ ?]%andb_true_iff. by apply H15.
  - by eapply client_agree.
Qed.

Lemma has_None {V} (m : list (Z * V)) k : has m k = false -> map_find m k = None.
Proof. unfold has. by destruct (map_find m k). Qed.
Lemma has_Some {V} (m : list (Z * V)) k : has m k = true -> is_Some (map_find m k).
Proof. unfold has. by destruct (map_find m k). Qed.

Lemma pending_prepare_ok r p :
  map_find (TC.pending_prepare (cl n)) r = Some p -> prepare_ok p.
Proof.
  intros Hf. pose proof (co_pending _ (n_client _ _ _ _ _ _ H)) as Hp. rewrite Forall_forall in Hp.
  apply (Hp (r, p)). clear -Hf. induction (TC.pending_prepare (cl n)) as [|[k v] l IH]; simpl in *; [done|].
  destruct (Z.eqb_spec k r) as [->|]; [injection Hf as ->; by left|right; auto].
Qed.

(** The effects on the caller leave the rank alone. *)
Lemma cperform_answers nd e :
  Forall (fun x => match x with TC.SetTid _ _ | TC.SetBl _ _ | TC.Finish _ | TC.Wake _ => True | _ => False end) e ->
  foldl cperform nd e = nd.
Proof. induction 1 as [|x e Hx _ IH]; simpl; [done|]. by destruct x. Qed.

Lemma local_agree m l :
  down n = m :: l -> r_op m = TABLESERVER_OP_AGREE -> 1 <= r_tid m ->
  exists k e, TC.handle_agree TABLE_SNAP 0 m (cl n) = Some (k, e) /\
    ninv c (foldl cperform (MkNode k (cjournal n) (cqueue n) (up n) l) e) oP oD qm cm.
Proof.
  intros Hd Hm Ht1. set (t := r_tid m) in *. set (r := r_reqid m).
  pose proof (n_phase _ _ _ _ _ _ H t) as Ht.
  assert (Hag : forall x, ags (down n) x = (if t =? x then [r] else []) ++ ags l x)
    by (intros x; by destruct (down_agree m l x Hd Hm)).
  rewrite Hag, Z.eqb_refl in Ht.
  destruct (phase_agree _ _ _ _ _ _ _ _ _ _ _ _ _ Ht) as (Hno & HP & HD & Hq & Hc & Hu & Hcase).
  assert (Hrest : forall x, x <> t -> phase c (rdy n) (pp n) (oP x) (oD x) (qm x) (pu n x) (pc n x)
    (cj n x) (cm x) (ags l x) (ups (up n) x)).
  { intros x Hx. pose proof (n_phase _ _ _ _ _ _ H x) as Hpx.
    by rewrite Hag, (proj2 (Z.eqb_neq t x)) in Hpx by done. }
  unfold TC.handle_agree. fold t r.
  destruct (map_find (TC.pending_prepare (cl n)) r) as [p|] eqn:Ef.
  { destruct (pending_prepare_ok r p Ef) as [[pt Hpt] _]. simpl. rewrite Hpt. simpl.
    eexists _, _. split; [reflexivity|]. rewrite cperform_answers.
    - by eapply local_agreed.
    - constructor; [done|]. apply Forall_app. destruct (TC.pbl p), (TC.onfinish p); split; by repeat constructor. }
  assert (Hpp : pp n r = false) by (unfold pp, has; by rewrite Ef).
  assert (Hrd : rdy n = false).
  { destruct Hcase as [(_ & _ & _ & Hr)|[?|?]]; [|tauto..]. destruct (rdy n); [|done].
    specialize (Hr eq_refl). congruence. }
  unfold rdy in Hrd. rewrite Hrd. fold (rdy n) in Hrd.
  destruct Hcase as [(Hpu & Hpc & Hj & _)|[(Hpu & Hpc & _)|(Hpu & Hpc & Hj & _)]]; unfold pu in Hpu; rewrite Hpu.
  - unfold pc in Hpc. rewrite (has_None _ _ Hpc). simpl. eexists _, _. split; [reflexivity|]. simpl.
    fold t. apply (local_tail m l _ Hd Hm).
    + intros x. rewrite ups_app, ups_cons. cbn [r_tid r_op]. rewrite (Z.eqb_sym t x).
      destruct (Z.eqb_spec x t) as [->|Hne]; simpl; [|rewrite app_nil_r; by apply Hrest].
      unfold pu. rewrite HP, HD, Hq, Hpu, Hc, Hu, Hno, Hj. unfold pc. rewrite Hpc. by constructor.
    + by rewrite preps_app, preps_cons, app_nil_r.
    + apply Forall_app. split; [apply H|]. apply Forall_singleton. constructor.
    + intros x Hx. rewrite ups_app, ups_cons. cbn [r_tid r_op]. rewrite (Z.eqb_sym t x).
      destruct (Z.eqb_spec x t) as [->|Hne]; simpl; [congruence|by rewrite app_nil_r].
  - rewrite Z.eqb_refl. simpl. eexists _, _. split; [reflexivity|]. simpl.
    apply (local_tail m l _ Hd Hm); try done; [|apply H]. intros x.
    destruct (decide (x = t)) as [->|Hne]; [|by apply Hrest].
    unfold pu. rewrite HP, HD, Hq, Hpu, Hpc, Hc, Hu, Hno. constructor; [done|by left].
  - unfold pc in Hpc. destruct (has_Some _ _ Hpc) as [ls ->]. eexists _, _. split; [reflexivity|].
    simpl. apply (local_tail m l _ Hd Hm); try done; [|apply H]. intros x.
    destruct (decide (x = t)) as [->|Hne]; [|by apply Hrest].
    unfold pu, pc. rewrite HP, HD, Hq, Hpu, Hpc, Hc, Hu, Hno, Hj. constructor; [done|by left|by rewrite Hrd].
Qed.

Lemma local_ack m l :
  down n = m :: l -> r_op m = TABLESERVER_OP_ACK ->
  exists k e, TC.handle_ack 0 m (cl n) = Some (k, e) /\
    ninv c (foldl cperform (MkNode k (cjournal n) (cqueue n) (up n) l) e) oP oD qm cm.
Proof.
  intros Hd Hm. set (t := r_tid m).
  assert (Hag : forall x, ags (down n) x = ags l x)
    by (intros x; rewrite Hd; unfold ags; by rewrite tid_msgs_cons, Hm).
  assert (Hak : forall x, acks (down n) x = (if t =? x then [r_reqid m] else []) ++ acks l x)
    by (intros x; rewrite Hd; unfold acks; by rewrite tid_msgs_cons, Hm).
  destruct (n_ack _ _ _ _ _ _ H t) as [Hc Hu]; [rewrite Hak, Z.eqb_refl; done|].
  assert (Hrd : rdy n = true).
  { pose proof (n_down _ _ _ _ _ _ H) as Hn. destruct (rdy n); [done|]. destruct Hn as (k & Hk & _).
    rewrite Hd in Hk. destruct Hk as (l1 & x & bl & E & Hf). destruct l1 as [|a l1]; simpl in E; simplify_eq.
    inversion Hf as [|? ? Ha ?]; subst. rewrite Hm in Ha. discriminate Ha. }
  assert (Hl : Forall (fun m => r_op m <> TABLESERVER_OP_SERVER_READY) l /\ Forall good_down l).
  { pose proof (n_down _ _ _ _ _ _ H) as Hn. pose proof (n_good_down _ _ _ _ _ _ H) as Hg.
    rewrite Hrd, Hd in Hn. rewrite Hd in Hg. split; [by inversion Hn|by inversion Hg]. }
  pose proof (n_phase _ _ _ _ _ _ H t) as Ht. rewrite Hc, Hu in Ht.
  unfold TC.handle_ack. fold t.
  destruct (map_find (TC.pending_commit (cl n)) t) as [ls|] eqn:Ef.
  2: { eexists _, _. split; [reflexivity|]. simpl.
    assert (Hp : pc n t = false) by (unfold pc, has; by rewrite Ef).
    apply local_server; try done; try apply H; try tauto.
    - intros x. rewrite <- Hag. apply H.
    - congruence.
    - intros x Hx. apply (n_ack _ _ _ _ _ _ H). rewrite Hak. by destruct (t =? x), (acks l x).
    - intros x Hx Hpx Hr. destruct (n_ackwait _ _ _ _ _ _ H x Hx Hpx Hr) as [?|Ha]; [by left|right].
      rewrite Hak, (proj2 (Z.eqb_neq t x)) in Ha; [done|]. intros <-. congruence. }
  pose proof (co_segment _ (n_client _ _ _ _ _ _ H) _ _ Ef) as Hs.
  destruct (has_Some _ _ Hs) as [[] ->]. simpl. eexists _, _. split; [reflexivity|]. simpl.
  assert (Hp : pc n t = true) by (by eapply has_find). rewrite Hp in Ht.
  assert (Hf : oP t = None /\ oD t = None /\ qm t = [] /\ pu n t = None /\ cj n t = true /\ ags l t = []).
  { rewrite <- Hag. by inversion Ht; subst. }
  destruct Hf as (HP & HD & Hq & Hpu & Hj & Ha).
  destruct H as [H1 H2 H3 H4 H5 H6 H7 H8 H9 H10 H11 H12 H13 H13' H14 H15 H16 H17 H18].
  assert (Hpc : forall x, has (map_erase (TC.pending_commit (cl n)) t) x = negb (x =? t) && pc n x)
    by (intros x; apply (has_erase 1), H16).
  split; cbn [cl cjournal cqueue up down]; try done; try tauto.
  - intros x. unfold pc. cbn. rewrite Hpc. destruct (Z.eqb_spec x t) as [->|Hne]; simpl.
    + rewrite HP, HD, Hq, Hc, Hu, Ha. unfold pu, cj in *. cbn. rewrite Hpu, Hj. constructor. by left.
    + rewrite <- Hag. apply H1.
  - intros x r' Hl'. destruct (H5 x r' Hl') as (? & ? & ?). split_and!; [done..|].
    intros Hl0. apply H8 in Hl0. congruence.
  - change (rdy (MkNode _ _ _ _ _)) with (rdy n). rewrite Hrd. apply Hl.
  - intros x Hx. apply H12. rewrite Hak. by destruct (t =? x), (acks l x).
  - intros x [Hx|Hx]%elem_of_app; [by apply H13|]. by apply list_elem_of_singleton in Hx as ->.
  - intros x Hx. unfold pc. cbn. rewrite Hpc. intros [Hne Hpx]%andb_true_iff Hr.
    destruct (H14 x Hx Hpx Hr) as [?|Ha']; [by left|right].
    apply negb_true_iff, Z.eqb_neq in Hne. by rewrite Hak, (proj2 (Z.eqb_neq t x)) in Ha' by done.
  - by apply client_acked.
Qed.

(** The client's memory once the server is ready: [m'] numbers all it has to
    prepare, the last under [last']. *)
Definition resumed (last' : Z) (m' : list (Z * TC.prepare)) : TC.client :=
  TC.set_waiting [] (TC.set_prepare m' (TC.set_last last' (TC.set_ready true (cl n)))).

Lemma ready_result m base last' m' :
  rdy n = false -> base = (if last n =? TC.no_reqid then r_reqid m else last n) ->
  TC.assign_reqids (TC.waiting_for_reqid (cl n)) base (TC.pending_prepare (cl n)) = (last', m') ->
  TC.handle_server_ready TABLE_SNAP m (cl n) =
    Some (resumed last' m', map TC.SendServer (map prepare_msg m' ++ map commit_msg (TC.pending_commit (cl n)))).
Proof.
  intros Hrd Hb Ha. unfold TC.handle_server_ready. unfold rdy in Hrd. rewrite Hrd. cbn [negb].
  assert (Ek : (if TC.last_reqid (TC.set_ready true (cl n)) =? TC.no_reqid
                then TC.set_last (r_reqid m) (TC.set_ready true (cl n)) else TC.set_ready true (cl n)) =
               TC.set_last base (TC.set_ready true (cl n))).
  { rewrite Hb. unfold last. cbn. by destruct (_ =? TC.no_reqid). }
  rewrite Ek. unfold TC.resend_prepares.
  cbn [TC.waiting_for_reqid TC.set_last TC.set_ready TC.last_reqid TC.pending_prepare]. rewrite Ha.
  rewrite map_app, !map_map. done.
Qed.

Lemma local_resumed base last' m' :
  down n = [] \/ (exists m, down n = [m] /\ r_op m = TABLESERVER_OP_SERVER_READY) ->
  rdy n = false -> 0 <= base -> base <= last' < TC.no_reqid ->
  (forall r t, lives oP oD t r -> r <= base) -> (last n <> TC.no_reqid -> base = last n) ->
  keys_from 0 m' -> Forall (fun x => prepare_ok x.2) m' ->
  (forall r, has m' r = pp n r || (base <? r) && (r <=? last')) ->
  ninv c (MkNode (resumed last' m') (cjournal n) (cqueue n)
            (up n ++ map prepare_msg m' ++ map commit_msg (TC.pending_commit (cl n))) []) oP oD qm cm.
Proof.
  intros Hd Hrd Hb0 Hbl Hlow Hsame Hkm Hpm Hhas.
  assert (Hags : forall x, ags (down n) x = []).
  { intros x. destruct Hd as [->|(m & -> & Hm)]; [done|]. unfold ags. by rewrite tid_msgs_cons, Hm. }
  assert (Hnp : preps (up n) = []).
  { destruct (preps (up n)) as [|r l] eqn:E; [done|].
    destruct (n_prep _ _ _ _ _ _ H r) as (? & _); [rewrite E; by left|]. congruence. }
  destruct H as [H1 H2 H3 H4 H5 H6 H7 H8 H9 H10 H11 H12 H13 H13' H14 H15 H16 H17 H18].
  set (up' := up n ++ _).
  assert (Hups : forall x, ups up' x = ups (up n) x ++ if pc n x then [UC] else []).
  { intros x. subst up'. rewrite !ups_app, ups_prepares, (ups_commits 1) by apply H16. done. }
  assert (Hpr : preps up' = map fst m').
  { subst up'. by rewrite !preps_app, Hnp, preps_prepares, preps_commits, app_nil_r. }
  assert (Hq : forall x, phase c false (pp n) (oP x) (oD x) (qm x) (pu n x) (pc n x) (cj n x) (cm x) []
    (ups (up n) x)) by (intros x; rewrite <- Hrd, <- (Hags x); apply H1).
  assert (Hnl : forall x r, lives oP oD x r -> has m' r = false).
  { intros x r Hl. rewrite Hhas. destruct (phase_quiet _ _ _ _ _ _ _ _ _ _ (Hq x)) as [Hf _].
    rewrite (Hf r Hl), (proj2 (Z.ltb_ge base r)); [done|]. by apply (Hlow r x). }
  split; cbn [cl cjournal cqueue up down].
  - intros x. rewrite Hups. apply (phase_quiet _ _ _ _ _ _ _ _ _ _ (Hq x)). apply Hnl.
  - intros r. rewrite Hpr, has_keys. intros Hr. split_and!; [done|done|]. intros t Hl%Hnl. congruence.
  - rewrite Hpr. by apply (keys_nodup 0).
  - exact H4.
  - intros t r Hl. destruct (H5 t r Hl) as (? & _). specialize (Hlow r t Hl). unfold last. cbn.
    split_and!; [done|lia|lia].
  - unfold last. cbn. lia.
  - intros r. unfold pp, last. cbn. rewrite Hhas. intros [Hr|[Hr1%Z.ltb_lt Hr2%Z.leb_le]%andb_true_iff]%orb_true_iff; [|lia].
    apply H7 in Hr as [Hn Hr]. specialize (Hsame Hn). lia.
  - unfold last. cbn. lia.
  - constructor.
  - subst up'. apply Forall_app. split; [done|]. apply Forall_app. split; apply Forall_map.
    + eapply Forall_impl; [exact Hpm|]. intros p [_ Hp]. by constructor.
    + apply Forall_forall. intros p _. constructor.
  - constructor.
  - intros x Hx. by destruct Hx.
  - exact H13.
  - exact H13'.
  - intros x Hx Hp _. left. rewrite Hups. change (pc n x = true) in Hp. rewrite Hp.
    pose proof (Hq x) as Hph. rewrite Hx in Hph. by rewrite (phase_done _ _ _ _ _ _ _ _ _ Hph).
  - intros r _ Hr. left. rewrite Hpr. by apply has_keys.
  - destruct H16 as [K1 K2 K3 K4 K5 K6 K7]. split; [exact Hkm|exact K2|exact K3|exact Hpm|constructor|exact K6|exact K7].
  - reflexivity.
  - exact H18.
Qed.

Lemma local_ready m l :
  down n = m :: l -> r_op m = TABLESERVER_OP_SERVER_READY ->
  reqids_left (if last n =? TC.no_reqid then r_reqid m else last n)
    (length (TC.waiting_for_reqid (cl n))) = true ->
  exists k e, TC.handle_server_ready TABLE_SNAP m (cl n) = Some (k, e) /\
    ninv c (foldl cperform (MkNode k (cjournal n) (cqueue n) (up n) l) e) oP oD qm cm.
Proof.
  intros Hd Hm Hroom%Z.ltb_lt. set (base := if last n =? TC.no_reqid then r_reqid m else last n) in *.
  pose proof (n_down _ _ _ _ _ _ H) as Hn. rewrite Hd in Hn.
  destruct (rdy n) eqn:Hrd; [by inversion Hn|]. destruct Hn as (k0 & Hrec & Hk00).
  pose proof (recovering_ready _ _ _ Hm Hrec) as [-> Hk0]. pose proof (n_last _ _ _ _ _ _ H) as Hlast.
  assert (Hbase : 0 <= base) by (subst base; destruct (_ =? _); lia).
  destruct (assign_spec (TC.waiting_for_reqid (cl n)) base (TC.pending_prepare (cl n)))
    as (m' & Ha & Hkm & Hpm & Hhas); [done|lia|apply H|apply H|apply H|].
  eexists _, _. split; [by eapply ready_result|]. rewrite cperform_sends. cbn [cl cjournal cqueue up down].
  apply (local_resumed base); try done; [eauto|lia| |].
  - intros r t Hl. destruct (n_bound _ _ _ _ _ _ H t r Hl) as (_ & Hb1 & Hb2). subst base.
    destruct (Z.eqb_spec (last n) TC.no_reqid) as [E|E]; [|by apply Hb1].
    rewrite Hd in Hb2. specialize (Hb2 E _ Hrec). lia.
  - intros E. subst base. by rewrite (proj2 (Z.eqb_neq _ _)).
Qed.

Lemma cj_snoc x e : bool_decide (JAgree x ∈ cjournal n ++ [e]) = cj n x || bool_decide (JAgree x = e).
Proof.
  unfold cj. apply eq_bool_prop_intro. rewrite orb_True, !bool_decide_spec, elem_of_app, list_elem_of_singleton. done.
Qed.

Lemma replay_client_app l1 l2 k : replay_client (l1 ++ l2) k = k' ← replay_client l1 k; replay_client l2 k'.
Proof.
  revert k. induction l1 as [|[t|a] l1 IH]; intros k; simpl; [done|apply IH|].
  destruct (TC.replay_ack a k); simpl; [apply IH|done].
Qed.

(** The update is on the client's disk. *)
Lemma local_journal t :
  has (TC.prepared_update (cl n)) t = true ->
  ninv c (MkNode (cl n) (cjournal n ++ [JAgree t]) (cqueue n) (up n) (down n)) oP oD qm cm.
Proof.
  intros Hpu. pose proof (find_ge _ _ _ (co_prepared _ (n_client _ _ _ _ _ _ H)) Hpu) as Ht1.
  apply has_Some in Hpu as [r Hpu].
  assert (Hcj : forall x, cj (MkNode (cl n) (cjournal n ++ [JAgree t]) (cqueue n) (up n) (down n)) x =
                          cj n x || (x =? t)).
  { intros x. unfold cj at 1. cbn [cjournal]. rewrite cj_snoc. f_equal.
    destruct (Z.eqb_spec x t); [apply bool_decide_eq_true|apply bool_decide_eq_false]; congruence. }
  assert (Hm : forall x, cj n x = true -> cj n x || (x =? t) = true) by (by intros x ->).
  destruct H as [H1 H2 H3 H4 H5 H6 H7 H8 H9 H10 H11 H12 H13 H13' H14 H15 H16 H17 H18].
  split; cbn [cl cjournal cqueue up down]; auto.
  - intros x. rewrite Hcj. specialize (H1 x). destruct (Z.eqb_spec x t) as [->|]; [|by rewrite orb_false_r].
    rewrite orb_true_r. unfold pu in *. cbn. rewrite Hpu in *. by eapply phase_journal.
  - intros x [? ?]%H13. rewrite Hcj. auto.
  - intros a. rewrite elem_of_app, list_elem_of_singleton. intros [?|?]; [by apply H13'|done].
  - destruct H18 as (k & Hk & K1 & K2 & K3 & K4 & K5 & K6 & K7).
    exists (TC.got_journaled_agree t 0 k). cbn [cjournal]. rewrite replay_client_app, Hk.
    split_and!; [done|by apply (client_commit k t 0)|done..|]. intros x. rewrite Hcj.
    assert (E : has (TC.pending_commit (TC.got_journaled_agree t 0 k)) x =
                (x =? t) || has (TC.pending_commit k) x) by apply (has_set 1), K1.
    rewrite E. clear E. specialize (K7 x). destruct (Z.eqb_spec x t) as [->|]; simpl.
    + split; intros _; [by rewrite orb_true_r|by left].
    + rewrite orb_false_r. auto.
Qed.

(** The caller commits. *)
Lemma local_commit t ls :
  has (TC.prepared_update (cl n)) t = true -> cj n t = true ->
  exists k e, TC.commit TABLE_SNAP 0 t ls (cl n) = Some (k, e) /\
    ninv c (foldl cperform (MkNode k (cjournal n) (cqueue n) (up n) (down n)) e) oP oD qm cm.
Proof.
  intros Hpu Hj. pose proof (find_ge _ _ _ (co_prepared _ (n_client _ _ _ _ _ _ H)) Hpu) as Ht1.
  apply has_Some in Hpu as [r Hpu]. pose proof (n_phase _ _ _ _ _ _ H t) as Ht.
  assert (Hpu' : pu n t = Some r) by done. rewrite Hpu', Hj in Ht.
  assert (Hf : pc n t = false /\ oP t = Some r /\ oD t = Some r /\ qm t = [] /\ cm t = false /\
            ups (up n) t = [] /\ pp n r = false /\ (ags (down n) t = [] \/ ags (down n) t = [r] /\ rdy n = false))
    by (inversion Ht; subst; split_and!; done).
  destruct Hf as (Hpc & HP & HD & Hq & Hc & Hu & Hpr & Hag).
  unfold TC.commit. rewrite Hpu. cbn [TC.pending_commit TC.set_prepared]. rewrite (has_None _ _ Hpc).
  cbn [negb Z.eqb]. eexists _, _. split; [reflexivity|].
  set (k := TC.tid_insert _ _ _).
  change (TC.server_ready k) with (rdy n).
  assert (E : forall nd, foldl cperform nd (if rdy n then [TC.message TABLE_SNAP TABLESERVER_OP_COMMIT 0 t []] else []) =
    MkNode (cl nd) (cjournal nd) (cqueue nd) (up nd ++ if rdy n then [commit_msg (t, 0)] else []) (down nd)).
  { intros nd. destruct (rdy n); simpl; [done|]. destruct nd; by rewrite app_nil_r. }
  rewrite E. cbn [cl cjournal cqueue up down]. clear E.
  set (up' := up n ++ _).
  assert (Hups : forall x, ups up' x = ups (up n) x ++ if (x =? t) && rdy n then [UC] else []).
  { intros x. subst up'. rewrite ups_app. f_equal. destruct (rdy n); [|by rewrite andb_false_r].
    rewrite ups_cons. simpl. rewrite Z.eqb_sym. by destruct (x =? t). }
  assert (Hpre : preps up' = preps (up n)).
  { subst up'. rewrite preps_app. destruct (rdy n); [rewrite preps_cons|]; by rewrite app_nil_r. }
  destruct H as [H1 H2 H3 H4 H5 H6 H7 H8 H9 H10 H11 H12 H13 H13' H14 H15 H16 H17 H18].
  assert (Hpcs : forall x, has (map_set (TC.pending_commit (cl n)) t ls) x = (x =? t) || pc n x)
    by (intros x; apply (has_set 1), H16).
  assert (Hpus : forall x, map_find (map_erase (TC.prepared_update (cl n)) t) x = if x =? t then None else pu n x)
    by (intros x; apply (map_find_erase 1), H16).
  split; cbn [cl cjournal cqueue up down]; rewrite ?Hpre; auto.
  - intros x. rewrite Hups. unfold pu, pc. subst k. cbn. rewrite Hpcs, Hpus.
    destruct (Z.eqb_spec x t) as [->|Hne]; simpl; [|rewrite app_nil_r; apply H1].
    rewrite HP, HD, Hq, Hc, Hu. unfold cj in *. cbn. rewrite Hj. by constructor.
  - subst up'. apply Forall_app. split; [done|]. destruct (rdy n); [|constructor].
    apply Forall_singleton. constructor.
  - intros x Hx. destruct (H12 x Hx) as [? Hux]. split; [done|]. rewrite Hups, Hux.
    rewrite (proj2 (Z.eqb_neq x t)); [done|]. intros ->. congruence.
  - intros x Hx. rewrite Hups. unfold pc. subst k. cbn. rewrite Hpcs.
    destruct (Z.eqb_spec x t) as [->|Hne]; simpl; [congruence|]. rewrite app_nil_r. by apply H14.
  - apply (client_commit (TC.set_prepared (map_erase (TC.prepared_update (cl n)) t) (cl n))); [|done].
    destruct H16 as [K1 K2 K3 K4 K5 K6 K7]. split; try done. by apply map_erase_keys.
Qed.

Lemma local_ack_flushed t q k a :
  cqueue n = t :: q -> TC._logged_ack 0 t (cl n) = Some (k, a) ->
  let e := JAck (TC.MkAck (0, 0) TABLE_SNAP TABLESERVER_OP_ACK t) in
  ninv c (MkNode k (cjournal n ++ [e]) q (up n) (down n)) oP oD qm cm.
Proof.
  intros Hq Hk e.
  assert (Hcl : TC.server_ready k = TC.server_ready (cl n) /\ TC.last_reqid k = TC.last_reqid (cl n) /\
    TC.pending_prepare k = TC.pending_prepare (cl n) /\ TC.prepared_update k = TC.prepared_update (cl n) /\
    TC.pending_commit k = TC.pending_commit (cl n) /\ TC.waiting_for_reqid k = TC.waiting_for_reqid (cl n) /\
    TC.segments k = TC.segments (cl n)).
  { unfold TC._logged_ack in Hk. cbn in Hk. destruct (map_find (TC.ack_waiters (cl n)) t); by injection Hk as <- <-. }
  destruct Hcl as (E1 & E2 & E3 & E4 & E5 & E6 & E7).
  assert (Hcj : forall x, cj (MkNode k (cjournal n ++ [e]) q (up n) (down n)) x = cj n x).
  { intros x. unfold cj at 1. cbn [cjournal]. rewrite cj_snoc. apply orb_false_r. }
  destruct (n_acked _ _ _ _ _ _ H t) as [Hct _]; [rewrite Hq; by left|].
  destruct H as [H1 H2 H3 H4 H5 H6 H7 H8 H9 H10 H11 H12 H13 H13' H14 H15 H16 H17 H18].
  split; unfold rdy, last, pp, pu, pc in *; cbn [cl cjournal cqueue up down] in *;
    rewrite ?E1, ?E2, ?E3, ?E4, ?E5, ?E6 in *; auto.
  - intros x. rewrite Hcj. apply H1.
  - intros x Hx. rewrite Hcj. apply H13. rewrite Hq. by right.
  - intros b. rewrite elem_of_app, list_elem_of_singleton. intros [?|[= ->]]; [by apply H13'|done].
  - destruct H16 as [K1 K2 K3 K4 K5 K6 K7]. unfold TC.tids_of in *.
    split; unfold TC.tids_of; rewrite ?E1, ?E2, ?E3, ?E4, ?E5, ?E6, ?E7; done.
  - destruct H18 as (kc & Hkc & K1 & K2 & K3 & K4 & K5 & K6 & K7).
    exists (TC.got_journaled_ack t kc). cbn [cjournal]. rewrite replay_client_app, Hkc. split; [done|].
    assert (Hg : TC.got_journaled_ack t kc = kc /\ has (TC.pending_commit kc) t = false \/
      exists ls, TC.got_journaled_ack t kc =
        TC.set_commit (map_erase (TC.pending_commit kc) t) (TC.tid_erase ls t kc)).
    { unfold TC.got_journaled_ack, has. destruct (map_find (TC.pending_commit kc) t) as [ls|]; eauto. }
    destruct Hg as [[-> Hn]|[ls ->]].
    + split_and!; [done..|]. intros x. rewrite Hcj. apply K7.
    + split_and!; [by apply client_acked|done..|]. intros x. rewrite Hcj.
      change (TC.pending_commit (TC.set_commit ?m _)) with m. rewrite (has_erase 1) by apply K1.
      destruct (K7 x) as [Ka Kb]. destruct (Z.eqb_spec x t) as [->|]; simpl; [split; [done|by right]|done].
Qed.

(** [d] is what a server sends to the client whose updates it has on disk. *)
Record resent (d : list request) (k : Z) : Prop := {
  rs_shape : recovering d k;
  rs_range : 0 <= k <= TC.no_reqid;
  rs_agrees t : ags d t = agree_of (oD t);
  rs_acks t : acks d t = [];
  rs_good : Forall good_down d;
  rs_below t r : oD t = Some r -> r < k
}.

Lemma recovering_inj d k k' : recovering d k -> recovering d k' -> k = k'.
Proof.
  intros (l1 & t & bl & -> & _) (l2 & t' & bl' & E & _). apply app_inj_tail in E as [_ E]. congruence.
Qed.

Lemma local_crash d k :
  resent d k ->
  ninv c (MkNode (TC.set_ready false (cl n)) (cjournal n) (cqueue n) [] d) oD oD (fun _ => []) cm.
Proof.
  intros [R1 R2 R3 R4 R5 R6].
  destruct H as [H1 H2 H3 H4 H5 H6 H7 H8 H9 H10 H11 H12 H13 H13' H14 H15 H16 H17 H18].
  assert (L : forall t r, lives oD oD t r -> lives oP oD t r) by (intros t r [?|?]; by right).
  split; cbn [cl cjournal cqueue up down]; try done.
  - intros t. rewrite R3. by apply (phase_crash _ (rdy n) _ (oP t) _ (qm t) _ _ _ _ (ags (down n) t) (ups (up n) t)).
  - intros r Hr. by apply elem_of_nil in Hr.
  - constructor.
  - intros t t' r ?%L ?%L. eauto.
  - intros t r Hl. destruct (H5 t r (L t r Hl)) as (? & ? & _). split_and!; [done..|]. intros _ k' Hk'.
    rewrite (recovering_inj _ _ _ Hk' R1). by destruct Hl; eapply R6.
  - change (exists k, recovering d k /\ 0 <= k <= TC.no_reqid). eauto.
  - intros t. by rewrite R4.
  - destruct H16 as [K1 K2 K3 K4 K5 K6 K7]. by split.
Qed.

Lemma local_restart d k kc :
  (forall t, oP t = oD t) -> (forall t, qm t = []) -> resent d k ->
  replay_client (cjournal n) TC.new_client = Some kc ->
  ninv c (MkNode kc (cjournal n) [] [] d) oP oD qm cm.
Proof.
  intros HPD Hqm [R1 R2 R3 R4 R5 R6] Hkc.
  destruct H as [H1 H2 H3 H4 H5 H6 H7 H8 H9 H10 H11 H12 H13 H13' H14 H15 H16 H17 H18].
  destruct H18 as (kc' & Hkc' & K1 & K2 & K3 & K4 & K5 & K6 & K7).
  rewrite Hkc in Hkc'. injection Hkc' as <-.
  assert (Hpp : forall r, pp (MkNode kc (cjournal n) [] [] d) r = false) by (intros r; unfold pp; cbn; by rewrite K4).
  split; cbn [cl cjournal cqueue up down]; try done.
  - intros t. specialize (H1 t). rewrite HPD, Hqm in *. unfold rdy, pu, pc. cbn [cl]. rewrite K3, K5, R3.
    destruct (K7 t) as [Ka Kb]. by eapply phase_restart.
  - intros r Hr. by apply elem_of_nil in Hr.
  - constructor.
  - intros t r Hl. destruct (H5 t r Hl) as (? & _). unfold last. cbn [cl]. rewrite K2.
    split_and!; [done..|]. intros _ k' Hk'. rewrite (recovering_inj _ _ _ Hk' R1).
    destruct Hl as [Hl|Hl]; [rewrite HPD in Hl|]; by eapply R6.
  - unfold last. cbn [cl]. by rewrite K2.
  - intros r. by rewrite Hpp.
  - unfold rdy. cbn [cl]. rewrite K3. eauto.
  - intros t. by rewrite R4.
  - intros t Ht. by apply elem_of_nil in Ht.
  - unfold rdy. cbn [cl]. intros t _ _. by rewrite K3.
  - unfold rdy. cbn [cl]. intros r. by rewrite K3.
  - exists kc. split_and!; done.
Qed.
End Local.

(** ** What a recovering server sends *)

Lemma resend_spec who ps lo n0 :
  keys_from lo ps -> 0 <= n0 <= TC.no_reqid ->
  Forall (fun kp => p_tid kp.2 = kp.1 /\ (p_mds kp.2 = who -> 0 <= p_reqid kp.2 < TC.no_reqid)) ps ->
  exists nx ms, resend_agrees TABLE_SNAP who ps n0 = (nx, map (Send who) ms) /\
    n0 <= nx <= TC.no_reqid /\ Forall (fun m => r_op m = TABLESERVER_OP_AGREE) ms /\
    Forall good_down ms /\ (forall t, ags ms t = agree_of (own ps who t)) /\
    (forall t, acks ms t = []) /\ (forall t r, own ps who t = Some r -> r < nx).
Proof.
  revert lo n0. induction ps as [|[k p] ps IH]; intros lo n0 Hk Hn Hf; cbn [resend_agrees].
  { exists n0, []. split_and!; try done; lia. }
  destruct Hk as [Hlo Hk]. apply Forall_cons in Hf as [[Ht Hr] Hf]. cbn [fst snd] in Ht, Hr.
  assert (Hown : forall t, own ((k, p) :: ps) who t =
    if k =? t then if p_mds p =? who then Some (p_reqid p) else None else own ps who t).
  { intros t. unfold own. simpl. by destruct (k =? t). }
  assert (Hnone : own ps who k = None) by (unfold own; by rewrite (map_find_below (k + 1)) by (done || lia)).
  destruct (Z.eqb_spec (p_mds p) who) as [Hw|Hw]; cbn [negb].
  - specialize (Hr Hw). set (n1 := if n0 <=? p_reqid p then p_reqid p +u64 1 else n0).
    assert (Hn1 : n0 <= n1 <= TC.no_reqid /\ p_reqid p < n1).
    { subst n1. destruct (Z.leb_spec n0 (p_reqid p)); [|lia].
      rewrite u64_small by (unfold TC.no_reqid in *; lia). lia. }
    destruct (IH (k + 1) n1) as (nx & ms & -> & ? & ? & ? & Hag & Hak & Hb); [done|lia|done|].
    exists nx, (MkReq TABLE_SNAP TABLESERVER_OP_AGREE (p_reqid p) (p_tid p) [] :: ms).
    split_and!; [done|lia|lia|by constructor|constructor; [constructor|done]| | |].
    + intros t. unfold ags. rewrite tid_msgs_cons. cbn [r_op r_tid r_reqid]. rewrite Ht, Hown. fold (ags ms t).
      rewrite Hag, Z.eqb_refl. cbn [andb].
      destruct (Z.eqb_spec k t) as [<-|]; [|done]. by rewrite Hnone.
    + intros t. unfold acks. rewrite tid_msgs_cons. apply Hak.
    + intros t r. rewrite Hown. destruct (k =? t); [|apply Hb]. intros [= <-]. lia.
  - destruct (IH (k + 1) n0) as (nx & ms & -> & ? & ? & ? & Hag & Hak & Hb); [done|lia|done|].
    exists nx, ms. split_and!; [done|lia|lia|done|done| |done|]; intros t; rewrite Hown.
    + destruct (Z.eqb_spec k t) as [<-|]; [|done]. by rewrite Hag, Hnone.
    + intros r. by destruct (k =? t); [|apply Hb].
Qed.
End Invariant.
End TableSafety.
