(* ===== verification/TableAgreement.v ===== *)
(** * What the two-phase table protocol guarantees

    The invariant of the whole system of [TableProtocol], over the invariant of
    each client in [TableSafety], and the theorems: no assertion of the server
    or of a client fails, the server commits exactly what the clients decided,
    and nothing is left behind once all messages have arrived. *)

From S2P Require Import Prelude Encoding IntervalSet MDSTable TableServer TableClient SnapServer TableProtocol TableSafety.
Import Encoding MDSTable TableServer ServerFacts TableProtocol TableSafety.

Module TableAgreement.

Section System.
Context {S : Type} {ops : TableServerOps S} {eqv : Equiv S} {laws : TableServerLaws S}.
Context (sv0 : server S) (ranks : list Z).

(** The entries lead from one state of the server to the other. *)
Fixpoint chain (sv : server S) (l : list entry) (sv' : server S) : Prop :=
  match l with
  | [] => sv' = sv
  | le :: l => exists sv1, server_ok sv1 /\ records le sv sv1 /\ chain sv1 l sv'
  end.

Lemma chain_snoc sv l sv' le sv2 :
  chain sv l sv' -> server_ok sv2 -> records le sv' sv2 -> chain sv (l ++ [le]) sv2.
Proof.
  revert sv. induction l as [|a l IH]; intros sv; simpl.
  - intros -> ? ?. exists sv2. done.
  - intros (sv1 & ? & ? & ?) ? ?. exists sv1. split_and!; [done..|]. by apply IH.
Qed.

Lemma chain_le sv l sv' : chain sv l sv' -> sversion sv <= sversion sv'.
Proof.
  revert sv. induction l as [|a l IH]; intros sv; simpl; [intros ->; lia|].
  intros (sv1 & ? & (_ & Hv & _) & Hc). apply IH in Hc. lia.
Qed.

(** What an entry does to the pending updates. *)
Lemma records_pending le sv sv' :
  server_ok sv -> sversion sv + 1 < 2 ^ 64 -> e_table le = TABLE_SNAP -> records le sv sv' ->
  pending_for_mds sv' =
    if e_op le =? TABLESERVER_OP_PREPARE then
      map_set (pending_for_mds sv) (e_version le) (MkPending (e_reqid le) (e_bymds le) (e_version le))
    else if (e_op le =? TABLESERVER_OP_COMMIT) || (e_op le =? TABLESERVER_OP_ROLLBACK) then
      map_erase (pending_for_mds sv) (e_tid le)
    else pending_for_mds sv.
Proof.
  intros Hok Hb Ht (Hv & Hv' & Hr). specialize (Hr []). rewrite replay_step in Hr by done.
  destruct (e_op le =? TABLESERVER_OP_PREPARE).
  { destruct (_prepare _ _ _ _) as [[? ?]|]; [|done]. cbn [mbind option_bind] in Hr.
    destruct (Z.eqb_spec (e_version le) (sversion (_note_prepare (e_bymds le) (e_reqid le) (with_state p sv))))
      as [E|]; [|done]. injection Hr as _ <-. rewrite E. done. }
  destruct (e_op le =? TABLESERVER_OP_COMMIT).
  { destruct (_commit _ _ _) as [[? ?]|]; [|done]. cbn [mbind option_bind] in Hr.
    destruct (_ =? _); [|done]. by injection Hr as _ <-. }
  destruct (e_op le =? TABLESERVER_OP_ROLLBACK).
  { destruct (_rollback _ _); [|done]. cbn [mbind option_bind] in Hr.
    destruct (_ =? _); [|done]. by injection Hr as _ <-. }
  destruct (e_op le =? TABLESERVER_OP_SERVER_UPDATE); [|done].
  destruct (_server_update _ _); [|done]. cbn [mbind option_bind] in Hr.
  destruct (_ =? _); [|done]. by injection Hr as _ <-.
Qed.

Definition qmine (P D : list (Z * pending)) (q : list (entry * option completion)) (c t : Z) : list qk :=
  match own P c t, own D c t with None, None => [] | _, _ => items q t end.

(** The invariant of the system; [dsv] is the server as its disk has it. *)
Record inv (s : sys) (dsv : server S) : Prop := {
  v_disk : exists tv, replay_all (durable s) ([], sv0) = Some (tv, dsv);
  v_dsv : server_ok dsv;
  v_srv : server_ok (srv s);
  v_chain : chain dsv (map fst (queue s)) (srv s);
  v_good : Forall good_item (queue s);
  v_item t : items (queue s) t <> [] ->
    has (pending_for_mds (srv s)) t = true \/ has (pending_for_mds dsv) t = true;
  v_comm t : in_journal TABLESERVER_OP_COMMIT (durable s) t = true ->
    has (pending_for_mds (srv s)) t = false /\ has (pending_for_mds dsv) t = false /\
    t <= sversion dsv /\ exists c, c ∈ ranks /\ cj (nodes s c) t = true;
  v_roll t : in_journal TABLESERVER_OP_ROLLBACK (durable s) t = true ->
    has (pending_for_mds (srv s)) t = false /\ has (pending_for_mds dsv) t = false /\
    t <= sversion dsv /\ in_journal TABLESERVER_OP_COMMIT (durable s) t = false;
  v_owner t p : map_find (pending_for_mds (srv s)) t = Some p \/
    map_find (pending_for_mds dsv) t = Some p -> p_mds p ∈ ranks;
  v_node c : c ∈ ranks ->
    ninv c (nodes s c) (own (pending_for_mds (srv s)) c) (own (pending_for_mds dsv) c)
      (qmine (pending_for_mds (srv s)) (pending_for_mds dsv) (queue s) c)
      (in_journal TABLESERVER_OP_COMMIT (durable s))
}.

(** ** Lookups *)

Lemma own_has P c t : has P t = false -> own P c t = None.
Proof. unfold has, own. by destruct (map_find P t). Qed.

Lemma own_find P c t r : own P c t = Some r -> exists p, map_find P t = Some p /\ p_mds p = c /\ p_reqid p = r.
Proof.
  unfold own. destruct (map_find P t) as [p|]; [|done]. destruct (Z.eqb_spec (p_mds p) c); [|done].
  intros [= <-]. eauto.
Qed.

Lemma find_own P t p : map_find P t = Some p -> own P (p_mds p) t = Some (p_reqid p).
Proof. unfold own. intros ->. by rewrite Z.eqb_refl. Qed.

Lemma own_other P c c' t r : own P c t = Some r -> c' <> c -> own P c' t = None.
Proof.
  intros (p & Hf & Hc & _)%own_find Hne. unfold own. rewrite Hf, (proj2 (Z.eqb_neq _ _)); congruence.
Qed.

Lemma own_set P t r c v c' x : keys_from 1 P ->
  own (map_set P t (MkPending r c v)) c' x = if x =? t then if c =? c' then Some r else None else own P c' x.
Proof. intros Hk. unfold own. rewrite (map_find_set 1) by done. by destruct (x =? t). Qed.

Lemma own_erase P t c x : keys_from 1 P -> own (map_erase P t) c x = if x =? t then None else own P c x.
Proof. intros Hk. unfold own. rewrite (map_find_erase 1) by done. by destruct (x =? t). Qed.

(** ** Events of one client *)

Lemma inv_node s dsv c n' :
  inv s dsv -> c ∈ ranks ->
  ninv c n' (own (pending_for_mds (srv s)) c) (own (pending_for_mds dsv) c)
    (qmine (pending_for_mds (srv s)) (pending_for_mds dsv) (queue s) c)
    (in_journal TABLESERVER_OP_COMMIT (durable s)) ->
  (forall t, cj (nodes s c) t = true -> cj n' t = true) ->
  inv (set_node c n' s) dsv.
Proof.
  intros [I1 I2 I3 I4 I5 I6 I7 I8 I9 I10] Hc Hn Hj. split; try done.
  - intros t Ht. destruct (I7 t Ht) as (? & ? & ? & c' & Hc' & Hj'). split_and!; try done.
    exists c'. split; [done|]. cbn. destruct (Z.eqb_spec c' c) as [->|]; [by apply Hj|done].
  - intros c' Hc'. cbn. destruct (Z.eqb_spec c' c) as [->|]; [done|by apply I10].
Qed.

Lemma inv_ext s s' dsv :
  durable s' = durable s -> queue s' = queue s -> srv s' = srv s -> (forall c, nodes s' c = nodes s c) ->
  inv s dsv -> inv s' dsv.
Proof.
  intros E1 E2 E3 E4 [I1 I2 I3 I4 I5 I6 I7 I8 I9 I10]. split; rewrite ?E1, ?E2, ?E3; try done.
  - intros t Ht. destruct (I7 t Ht) as (? & ? & ? & c & ? & ?). split_and!; try done. exists c. by rewrite E4.
  - intros c Hc. rewrite E4. by apply I10.
Qed.

(** The event is one the rest of the MDS can make: the ranks are those of the
    cluster, and what is to be prepared can be read. *)
Definition event_ok (e : event) : Prop :=
  match e with
  | Prepare c bl _ _ _ => c ∈ ranks /\ valid_mutation bl
  | Journal c _ | Commit c _ _ | ToServer c | ToClient c | AckFlushed c | Restart c => c ∈ ranks
  | ServerUpdate bl => valid_update bl
  | Flushed | ServerCrash => True
  end.

(** The event does not fail an assertion and keeps the invariant. *)
Definition fine (o : outcome (S := S)) : Prop :=
  match o with Disabled => True | Aborted => False | Next s => exists dsv, inv s dsv end.

Lemma cjournal_cperform n e : cjournal (foldl cperform n e) = cjournal n.
Proof. revert n. induction e as [|x e IH]; intros n; [done|]. simpl. rewrite IH. by destruct x. Qed.

Lemma cj_same n n' t : cjournal n' = cjournal n -> cj n t = true -> cj n' t = true.
Proof. unfold cj. by intros ->. Qed.

Lemma cj_mono n n' l t : cjournal n' = cjournal n ++ l -> cj n t = true -> cj n' t = true.
Proof.
  unfold cj. intros -> H%bool_decide_eq_true_1. apply bool_decide_eq_true_2, elem_of_app. by left.
Qed.

Lemma fine_prepare s dsv c bl pt pb fin :
  inv s dsv -> c ∈ ranks -> valid_mutation bl -> fine (exec_prepare c bl pt pb fin s).
Proof.
  intros Hi Hc Hb. unfold exec_prepare.
  destruct (_ || _) eqn:Hg; [|done]. destruct (TC._prepare _ _ _ _ _ _) as [k e] eqn:E.
  exists dsv. apply inv_node; [done..| |].
  - eapply local_prepare; [by apply v_node|done|exact Hg|exact E].
  - intros t. apply cj_same. by rewrite cjournal_cperform.
Qed.

Lemma fine_journal s dsv c t : inv s dsv -> c ∈ ranks -> fine (exec_journal c t s).
Proof.
  intros Hi Hc. unfold exec_journal. destruct (has _ t) eqn:Hh; [|done].
  destruct (negb _); [|done]. exists dsv. apply inv_node; [done..| |].
  - eapply local_journal; [by apply v_node|exact Hh].
  - intros x. by eapply cj_mono.
Qed.

Lemma fine_commit s dsv c t ls : inv s dsv -> c ∈ ranks -> fine (exec_commit c t ls s).
Proof.
  intros Hi Hc. unfold exec_commit. destruct (has _ t) eqn:Hh; [|done].
  destruct (bool_decide _) eqn:Hj; [|done]. cbn [andb].
  destruct (local_commit _ _ _ _ _ _ (v_node _ _ Hi c Hc) t ls Hh Hj) as (k & e & -> & Hn).
  exists dsv. apply inv_node; [done..|]. intros x. apply cj_same. by rewrite cjournal_cperform.
Qed.

Lemma fine_ack_flushed s dsv c : inv s dsv -> c ∈ ranks -> fine (exec_ack_flushed c s).
Proof.
  intros Hi Hc. unfold exec_ack_flushed. destruct (cqueue (nodes s c)) as [|t q] eqn:Hq; [done|].
  assert (exists k e, TC._logged_ack 0 t (cl (nodes s c)) = Some (k, e) /\
    forall nd, foldl cperform nd e = nd) as (k & e & E & He).
  { unfold TC._logged_ack. simpl. destruct (map_find _ _); eauto. }
  rewrite E. exists dsv. apply inv_node; [done..| |].
  - rewrite He. eapply local_ack_flushed; [by apply v_node|done|done].
  - intros x. eapply cj_mono. by rewrite cjournal_cperform.
Qed.

(** An AGREE is for a transaction the server has pending. *)
Lemma agree_tid s dsv c m l :
  inv s dsv -> c ∈ ranks -> down (nodes s c) = m :: l -> r_op m = TABLESERVER_OP_AGREE -> 1 <= r_tid m.
Proof.
  intros Hi Hc Hd Ho.
  pose proof (n_phase _ _ _ _ _ _ (v_node _ _ Hi c Hc) (r_tid m)) as Hp.
  rewrite Hd in Hp. unfold ags in Hp. rewrite tid_msgs_cons, Ho, !Z.eqb_refl in Hp. cbn [andb app] in Hp.
  apply phase_agree in Hp. destruct Hp as (_ & HP & _).
  apply own_find in HP as (p & Hf & _). pose proof (pending_bound _ _ _ (v_srv _ _ Hi) Hf). lia.
Qed.

Lemma fine_to_client s dsv c : inv s dsv -> c ∈ ranks -> fine (exec_to_client c s).
Proof.
  intros Hi Hc. unfold exec_to_client. destruct (down (nodes s c)) as [|m l] eqn:Hd; [done|].
  pose proof (v_node _ _ Hi c Hc) as Hn. pose proof (n_good_down _ _ _ _ _ _ Hn) as Hg.
  rewrite Hd in Hg. apply Forall_cons in Hg as [Hg _].
  destruct (_ && negb _) eqn:Hr; [done|].
  assert (exists k e, dispatch_client m (cl (nodes s c)) = Some (k, e) /\
    ninv c (foldl cperform (MkNode k (cjournal (nodes s c)) (cqueue (nodes s c)) (up (nodes s c)) l) e)
      (own (pending_for_mds (srv s)) c) (own (pending_for_mds dsv) c)
      (qmine (pending_for_mds (srv s)) (pending_for_mds dsv) (queue s) c)
      (in_journal TABLESERVER_OP_COMMIT (durable s))) as (k & e & -> & Hn').
  { inversion Hg; subst m; unfold dispatch_client, TC.handle_request; cbn -[TC.handle_agree TC.handle_ack TC.handle_server_ready].
    - eapply local_agree; [done..|]. by eapply (agree_tid s dsv c).
    - by eapply local_ack.
    - eapply local_ready; [done..|]. unfold last. cbn [r_reqid]. by destruct (reqids_left _ _). }
  exists dsv. apply inv_node; [done..|]. intros x. apply cj_same. by rewrite cjournal_cperform.
Qed.

(** ** Messages to the server *)

Lemma has_own P x : has P x = true -> exists c r, own P c x = Some r.
Proof.
  unfold has. destruct (map_find P x) as [p|] eqn:E; [|done]. intros _. eexists _, _. by apply find_own.
Qed.

Lemma own_has_true P c x r : own P c x = Some r -> has P x = true.
Proof. intros (p & Hf & _)%own_find. by eapply has_find. Qed.

Lemma has_same P P' x : (forall c, own P' c x = own P c x) -> has P' x = has P x.
Proof.
  intros H. destruct (has P' x) eqn:E', (has P x) eqn:E; try done.
  - apply has_own in E' as (c & r & Hr). rewrite H in Hr. apply own_has_true in Hr. congruence.
  - apply has_own in E as (c & r & Hr). rewrite <- H in Hr. apply own_has_true in Hr. congruence.
Qed.

(** The request of client [c] changes what is pending under [t] and submits an
    entry about it. *)
Lemma inv_submit s dsv c n' sv' le fin t k :
  inv s dsv -> c ∈ ranks -> cjournal n' = cjournal (nodes s c) ->
  server_ok sv' -> records le (srv s) sv' -> good_item (le, fin) -> item_of (le, fin) = Some (t, k) ->
  items (queue s) t = [] ->
  in_journal TABLESERVER_OP_COMMIT (durable s) t = false ->
  in_journal TABLESERVER_OP_ROLLBACK (durable s) t = false ->
  (forall c' x, x <> t \/ c' <> c -> own (pending_for_mds sv') c' x = own (pending_for_mds (srv s)) c' x) ->
  (forall c', c' <> c -> own (pending_for_mds (srv s)) c' t = None /\ own (pending_for_mds dsv) c' t = None) ->
  is_Some (own (pending_for_mds sv') c t) \/ is_Some (own (pending_for_mds dsv) c t) ->
  ninv c n' (own (pending_for_mds sv') c) (own (pending_for_mds dsv) c)
    (upd (qmine (pending_for_mds (srv s)) (pending_for_mds dsv) (queue s) c) t [k])
    (in_journal TABLESERVER_OP_COMMIT (durable s)) ->
  inv (MkSys (durable s) (queue s ++ [(le, fin)]) sv' (fun c' => if c' =? c then n' else nodes s c')) dsv.
Proof.
  intros [I1 I2 I3 I4 I5 I6 I7 I8 I9 I10] Hc Hj Hok Hrec Hg Hit Hemp Hcm Hrb Hsame Hoth Hown Hn.
  assert (Hitems : forall x, items (queue s ++ [(le, fin)]) x = items (queue s) x ++ if t =? x then [k] else []).
  { intros x. rewrite items_app. f_equal. unfold items. cbn [omap list_omap]. rewrite Hit. by destruct (t =? x). }
  assert (Hhas : forall x, x <> t -> has (pending_for_mds sv') x = has (pending_for_mds (srv s)) x)
    by (intros x ?; apply has_same; intros c'; apply Hsame; by left).
  split; cbn [durable queue srv nodes]; try done.
  - rewrite map_app. by eapply chain_snoc.
  - apply Forall_app. split; [done|by apply Forall_singleton].
  - intros x. rewrite Hitems. destruct (Z.eqb_spec t x) as [<-|Hx].
    + intros _. destruct Hown as [[r Hr]|[r Hr]]; apply own_has_true in Hr; auto.
    + rewrite app_nil_r, Hhas by done. apply I6.
  - intros x Hx. destruct (I7 x Hx) as (? & ? & ? & c' & Hc' & Hj').
    assert (x <> t) by congruence. rewrite Hhas by done. split_and!; try done.
    exists c'. split; [done|]. destruct (Z.eqb_spec c' c) as [->|]; [|done]. by eapply cj_same.
  - intros x Hx. assert (x <> t) by congruence. rewrite Hhas by done. by apply I8.
  - intros x p [Hp|Hp]; [|by eapply I9; right]. destruct (decide (p_mds p = c)) as [->|Hne]; [done|].
    apply find_own in Hp. rewrite Hsame in Hp by auto. apply own_find in Hp as (p' & Hf & <- & _). eauto.
  - intros c' Hc'. destruct (Z.eqb_spec c' c) as [->|Hne].
    + eapply ninv_frame; [exact Hn|done|done| |by left]. intros x. unfold upd.
      unfold qmine. rewrite Hitems. destruct (Z.eqb_spec x t) as [->|Hx].
      * rewrite Hemp, Z.eqb_refl. destruct Hown as [[r ->]|[r ->]]; [done|]. by destruct (own _ _ _).
      * rewrite (proj2 (Z.eqb_neq t x)), app_nil_r, Hsame by auto. done.
    + eapply ninv_frame; [by apply I10|by intros x; apply Hsame; right|done| |by left].
      intros x. unfold qmine. rewrite Hitems, Hsame by auto. destruct (Z.eqb_spec t x) as [<-|Hx].
      * by destruct (Hoth c' Hne) as [-> ->].
      * by rewrite app_nil_r.
Qed.

Lemma chain_version s dsv : inv s dsv -> sversion dsv <= sversion (srv s).
Proof. intros Hi. by eapply chain_le, v_chain. Qed.

(** The id a new update gets is not in use. *)
Lemma next_tid_unused s dsv (t := sversion (srv s) + 1) : inv s dsv ->
  has (pending_for_mds (srv s)) t = false /\ has (pending_for_mds dsv) t = false /\
  items (queue s) t = [] /\ in_journal TABLESERVER_OP_COMMIT (durable s) t = false /\
  in_journal TABLESERVER_OP_ROLLBACK (durable s) t = false.
Proof.
  intros Hi. pose proof (chain_version _ _ Hi).
  assert (Hno : forall sv, server_ok sv -> sversion sv <= sversion (srv s) -> has (pending_for_mds sv) t = false).
  { intros sv Hok Hle. unfold has. destruct (map_find _ _) as [p|] eqn:E; [|done].
    apply (pending_bound _ _ _ Hok) in E. lia. }
  assert (has (pending_for_mds (srv s)) t = false) by (apply Hno; [by eapply v_srv|lia]).
  assert (has (pending_for_mds dsv) t = false) by (apply Hno; [by eapply v_dsv|lia]).
  split_and!; [done..| | |].
  - destruct (items (queue s) t) eqn:E; [done|]. destruct (v_item _ _ Hi t) as [?|?]; congruence.
  - destruct (in_journal _ _ _) eqn:E; [|done]. apply (v_comm _ _ Hi) in E as (_ & _ & ? & _). lia.
  - destruct (in_journal _ _ _) eqn:E; [|done]. apply (v_roll _ _ Hi) in E as (_ & _ & ? & _). lia.
Qed.

Lemma fine_srv_prepare s dsv c m l :
  inv s dsv -> c ∈ ranks -> up (nodes s c) = m :: l -> r_op m = TABLESERVER_OP_PREPARE ->
  valid_mutation (r_bl m) -> sversion (srv s) + 1 < 2 ^ 64 ->
  exists sv e, handle_prepare 0 c m (srv s) = Some (sv, e) /\
    exists dsv', inv (foldl perform (set_srv sv (set_node c
      (MkNode (cl (nodes s c)) (cjournal (nodes s c)) (cqueue (nodes s c)) l (down (nodes s c))) s)) e) dsv'.
Proof.
  intros Hi Hc Hu Ho Hv Hb. pose proof (v_srv _ _ Hi) as Hok.
  destruct (handle_prepare 0 c m (srv s)) as [[sv e]|] eqn:E.
  2: { unfold handle_prepare in E. destruct (law_prepare_total (r_bl m) (r_reqid m) c (base (srv s), st (srv s)) Hv)
         as [[? ?] Hp]. by rewrite Hp in E. }
  exists sv, e. split; [done|]. exists dsv.
  apply handle_prepare_spec in E as (bl & -> & HP & Hok' & Hrec); [|done..].
  destruct (next_tid_unused s dsv Hi) as (F1 & F2 & F3 & F4 & F5).
  assert (Hown : forall c' x, own (pending_for_mds sv) c' x =
    if x =? sversion (srv s) + 1 then if c =? c' then Some (r_reqid m) else None
    else own (pending_for_mds (srv s)) c' x) by (intros; rewrite HP; apply own_set, Hok).
  apply (inv_submit s dsv c _ sv _ _ (sversion (srv s) + 1) (QP (r_reqid m) c)); try done.
  - by apply GP.
  - intros c' x Hx. rewrite Hown. destruct (Z.eqb_spec x (sversion (srv s) + 1)) as [->|]; [|done].
    destruct Hx as [?|?]; [done|]. rewrite (proj2 (Z.eqb_neq c c')), own_has by auto. done.
  - intros c' _. by rewrite !own_has.
  - left. rewrite Hown, !Z.eqb_refl. eauto.
  - eapply ninv_frame; [eapply (srv_prepare _ _ _ _ _ _ (v_node _ _ Hi c Hc) m l (sversion (srv s) + 1)); auto using own_has|..];
      try done; [|by left].
    intros x. unfold upd. by rewrite Hown, Z.eqb_refl.
Qed.

(** What a decision on its way to the server says of the update. *)
Lemma phase_decided c rd prep P D q u p j m ag k us :
  phase c rd prep P D q u p j m ag (k :: us) ->
  q = [] /\ (m = false /\ (exists r, P = Some r /\ D = Some r) \/ m = true /\ k = UC /\ P = None /\ D = None).
Proof.
  intros H. inversion H as [| | | |r ag' us' ? ? Hu| |p' us' Hu|r ?|]; subst; split; try done.
  - left. split; [done|]. exists r. done.
  - right. by destruct Hu as [?|([= -> ->] & _)].
  - left. split; [done|]. exists r. done.
Qed.

Lemma decided s dsv c m l k :
  inv s dsv -> c ∈ ranks -> up (nodes s c) = m :: l ->
  r_op m = TABLESERVER_OP_COMMIT /\ k = UC \/ r_op m = TABLESERVER_OP_ROLLBACK /\ k = UR ->
  (exists r, own (pending_for_mds (srv s)) c (r_tid m) = Some r /\
     own (pending_for_mds dsv) c (r_tid m) = Some r /\ items (queue s) (r_tid m) = []) \/
  k = UC /\ in_journal TABLESERVER_OP_COMMIT (durable s) (r_tid m) = true.
Proof.
  intros Hi Hc Hu Ho. pose proof (v_node _ _ Hi c Hc) as Hn.
  pose proof (n_phase _ _ _ _ _ _ Hn (r_tid m)) as Hp.
  destruct (ups_head _ m l k Hu Ho) as [E _]. rewrite E in Hp.
  apply phase_decided in Hp as (Hq & [(_ & r & HP & HD)|(? & ? & _)]); [|by right].
  left. exists r. split_and!; [done..|]. unfold qmine in Hq. by rewrite HP in Hq.
Qed.

(** A decision the server still has to journal: COMMIT or ROLLBACK. *)
Lemma inv_decide s dsv c m l sv' o fin k :
  inv s dsv -> c ∈ ranks -> up (nodes s c) = m :: l ->
  forall r, own (pending_for_mds (srv s)) c (r_tid m) = Some r ->
  own (pending_for_mds dsv) c (r_tid m) = Some r -> items (queue s) (r_tid m) = [] ->
  pending_for_mds sv' = map_erase (pending_for_mds (srv s)) (r_tid m) -> server_ok sv' ->
  records (tid_entry (srv s) o (r_tid m)) (srv s) sv' ->
  good_item (tid_entry (srv s) o (r_tid m), fin) ->
  item_of (tid_entry (srv s) o (r_tid m), fin) = Some (r_tid m, k) ->
  (let n := nodes s c in
   ninv c (MkNode (cl n) (cjournal n) (cqueue n) l (down n))
    (upd (own (pending_for_mds (srv s)) c) (r_tid m) None) (own (pending_for_mds dsv) c)
    (upd (qmine (pending_for_mds (srv s)) (pending_for_mds dsv) (queue s) c) (r_tid m) [k])
    (in_journal TABLESERVER_OP_COMMIT (durable s))) ->
  exists dsv', inv (foldl perform (set_srv sv' (set_node c
      (MkNode (cl (nodes s c)) (cjournal (nodes s c)) (cqueue (nodes s c)) l (down (nodes s c))) s))
      [Submit (tid_entry (srv s) o (r_tid m)) fin]) dsv'.
Proof.
  intros Hi Hc Hu r HP HD Hq He Hok Hrec Hg Hit Hn. exists dsv.
  assert (Hown : forall c' x, own (pending_for_mds sv') c' x =
    if x =? r_tid m then None else own (pending_for_mds (srv s)) c' x)
    by (intros; rewrite He; eapply own_erase, so_keys, v_srv, Hi).
  pose proof (own_has_true _ _ _ _ HP) as Hh.
  apply (inv_submit s dsv c _ sv' _ _ (r_tid m) k); try done.
  - destruct (in_journal _ _ _) eqn:E; [|done]. apply (v_comm _ _ Hi) in E as (? & _). congruence.
  - destruct (in_journal _ _ _) eqn:E; [|done]. apply (v_roll _ _ Hi) in E as (? & _). congruence.
  - intros c' x Hx. rewrite Hown. destruct (Z.eqb_spec x (r_tid m)) as [->|]; [|done].
    destruct Hx as [?|?]; [done|]. by rewrite (own_other _ _ _ _ _ HP).
  - intros c' ?. by rewrite (own_other _ _ _ _ _ HP), (own_other _ _ _ _ _ HD).
  - right. eauto.
  - eapply ninv_frame; [exact Hn|by intros x; rewrite Hown|done|done|by left].
Qed.

Lemma fine_srv_commit s dsv c m l :
  inv s dsv -> c ∈ ranks -> up (nodes s c) = m :: l -> r_op m = TABLESERVER_OP_COMMIT ->
  sversion (srv s) + 1 < 2 ^ 64 ->
  exists sv e, handle_commit 0 c m (srv s) = Some (sv, e) /\
    exists dsv', inv (foldl perform (set_srv sv (set_node c
      (MkNode (cl (nodes s c)) (cjournal (nodes s c)) (cqueue (nodes s c)) l (down (nodes s c))) s)) e) dsv'.
Proof.
  intros Hi Hc Hu Ho Hb. pose proof (v_srv _ _ Hi) as Hok. pose proof (v_node _ _ Hi c Hc) as Hn.
  destruct (decided s dsv c m l UC Hi Hc Hu (or_introl (conj Ho eq_refl))) as [(r & HP & HD & Hq)|[_ Hcm]].
  - destruct (own_find _ _ _ _ HP) as (p & Hf & _).
    destruct (handle_commit_spec (srv s) c m p Hok Hb Hf) as (sv' & -> & He & Hok' & Hrec).
    eexists _, _. split; [done|].
    apply (inv_decide s dsv c m l sv' TABLESERVER_OP_COMMIT _ (QC c) Hi Hc Hu r); try done.
    + by apply GC.
    + by eapply srv_commit.
  - pose proof (chain_version _ _ Hi). destruct (v_comm _ _ Hi _ Hcm) as (Hh & Hh' & Ht & _).
    unfold handle_commit, has in *. destruct (map_find _ _) as [?|] eqn:E; [done|].
    rewrite (proj2 (Z.leb_le _ _)) by lia. cbn [_commit_logged Z.eqb negb mbind option_bind].
    eexists _, _. split; [done|]. exists dsv. rewrite (so_tab _ Hok).
    eapply (inv_ext (set_node c (MkNode (cl (nodes s c)) (cjournal (nodes s c)) (cqueue (nodes s c)) l
      (down (nodes s c) ++ [MkReq TABLE_SNAP TABLESERVER_OP_ACK (r_reqid m) (r_tid m) []])) s)); try done.
    + intros c'. cbn. rewrite Z.eqb_refl. by destruct (c' =? c).
    + apply inv_node; [done..| |done]. eapply srv_recommit; [exact Hn|done|done|]. apply own_has. unfold has. by rewrite E.
Qed.

Lemma fine_srv_rollback s dsv c m l :
  inv s dsv -> c ∈ ranks -> up (nodes s c) = m :: l -> r_op m = TABLESERVER_OP_ROLLBACK ->
  sversion (srv s) + 1 < 2 ^ 64 ->
  exists sv e, handle_rollback m (srv s) = Some (sv, e) /\
    exists dsv', inv (foldl perform (set_srv sv (set_node c
      (MkNode (cl (nodes s c)) (cjournal (nodes s c)) (cqueue (nodes s c)) l (down (nodes s c))) s)) e) dsv'.
Proof.
  intros Hi Hc Hu Ho Hb. pose proof (v_srv _ _ Hi) as Hok.
  destruct (decided s dsv c m l UR Hi Hc Hu (or_intror (conj Ho eq_refl))) as [(r & HP & HD & Hq)|[? _]]; [|done].
  destruct (own_find _ _ _ _ HP) as (p & Hf & _).
  destruct (handle_rollback_spec (srv s) m p Hok Hb Hf) as (sv' & -> & He & Hok' & Hrec).
  eexists _, _. split; [done|].
  apply (inv_decide s dsv c m l sv' TABLESERVER_OP_ROLLBACK _ QR Hi Hc Hu r); try done.
  - by apply GR.
  - eapply srv_rollback; [by apply v_node|done..].
Qed.

Lemma fine_to_server s dsv c : inv s dsv -> c ∈ ranks -> fine (exec_to_server c s).
Proof.
  intros Hi Hc. unfold exec_to_server. destruct (up (nodes s c)) as [|m l] eqn:Hu; [done|].
  destruct (Z.ltb_spec (sversion (srv s) + 1) (2 ^ 64)); [|done].
  pose proof (n_good_up _ _ _ _ _ _ (v_node _ _ Hi c Hc)) as Hg. rewrite Hu in Hg.
  apply Forall_cons in Hg as [Hg _]. unfold dispatch_server, handle_request.
  inversion Hg; subst m; cbn -[handle_prepare handle_commit handle_rollback foldl].
  - match goal with |- context [handle_prepare 0 c ?m _] =>
      destruct (fine_srv_prepare s dsv c m l) as (sv & e & -> & ?) end; done.
  - match goal with |- context [handle_commit 0 c ?m _] =>
      destruct (fine_srv_commit s dsv c m l) as (sv & e & -> & ?) end; done.
  - match goal with |- context [handle_rollback ?m _] =>
      destruct (fine_srv_rollback s dsv c m l) as (sv & e & -> & ?) end; done.
Qed.

(** ** The server's own updates *)

Lemma fine_server_update s dsv bl : inv s dsv -> valid_update bl -> fine (exec_server_update bl s).
Proof.
  intros Hi Hv. unfold exec_server_update. destruct (Z.ltb_spec (sversion (srv s) + 1) (2 ^ 64)); [|done].
  destruct (do_server_update bl (srv s)) as [[sv e]|] eqn:E.
  2: { unfold do_server_update in E. destruct (law_update_total bl (base (srv s), st (srv s)) Hv) as [? Hp].
       by rewrite Hp in E. }
  apply do_server_update_spec in E as (-> & HP & Hok & Hrec); [|by eapply v_srv|done].
  exists dsv. destruct Hi as [I1 I2 I3 I4 I5 I6 I7 I8 I9 I10].
  assert (Hq : forall x, items (queue s ++ [(update_entry (srv s) bl, None)]) x = items (queue s) x).
  { intros x. rewrite items_app. apply app_nil_r. }
  split; cbn [foldl perform set_srv durable queue srv nodes]; rewrite ?HP; try done.
  - rewrite map_app. by eapply chain_snoc.
  - apply Forall_app. split; [done|]. apply Forall_singleton. apply GU.
  - intros x. rewrite Hq. apply I6.
  - intros c Hc. eapply ninv_frame; [by apply I10|done|done| |by left].
    intros x. unfold qmine. by rewrite Hq.
Qed.

(** ** Entries that reach the disk *)

(** What an entry in the queue says of its update. *)
Definition logging (c : Z) (k : qk) (P D : option Z) (j : bool) : Prop :=
  match k with
  | QP r c' => c' = c /\ P = Some r /\ D = None
  | QC c' => c' = c /\ P = None /\ is_Some D /\ j = true
  | QR => P = None /\ is_Some D /\ j = false
  end.

Lemma phase_logging c rd prep P D k q u p j m ag us :
  phase c rd prep P D (k :: q) u p j m ag us -> q = [] /\ m = false /\ logging c k P D j.
Proof. intros H. inversion H; subst; cbn; eauto 10. Qed.

Lemma logged_by s dsv c t k l :
  inv s dsv -> items (queue s) t = k :: l ->
  is_Some (own (pending_for_mds (srv s)) c t) \/ is_Some (own (pending_for_mds dsv) c t) ->
  c ∈ ranks /\ l = [] /\ in_journal TABLESERVER_OP_COMMIT (durable s) t = false /\
  qmine (pending_for_mds (srv s)) (pending_for_mds dsv) (queue s) c t = [k] /\
  logging c k (own (pending_for_mds (srv s)) c t) (own (pending_for_mds dsv) c t) (cj (nodes s c) t).
Proof.
  intros Hi Hit Ho.
  assert (Hc : c ∈ ranks).
  { destruct Ho as [[r Hr]|[r Hr]]; apply own_find in Hr as (p & Hf & <- & _); eapply v_owner; eauto. }
  assert (Hq : qmine (pending_for_mds (srv s)) (pending_for_mds dsv) (queue s) c t = k :: l).
  { unfold qmine. destruct Ho as [[r ->]|[r ->]]; [done|]. by destruct (own _ _ _). }
  pose proof (n_phase _ _ _ _ _ _ (v_node _ _ Hi c Hc) t) as Hp. rewrite Hq in Hp.
  apply phase_logging in Hp as (-> & Hm & Hl). done.
Qed.

(** The entry at the head of the queue belongs to one client. *)
Lemma head_owner s dsv x q t k :
  inv s dsv -> queue s = x :: q -> item_of x = Some (t, k) ->
  exists c, c ∈ ranks /\ items q t = [] /\ in_journal TABLESERVER_OP_COMMIT (durable s) t = false /\
    qmine (pending_for_mds (srv s)) (pending_for_mds dsv) (queue s) c t = [k] /\
    logging c k (own (pending_for_mds (srv s)) c t) (own (pending_for_mds dsv) c t) (cj (nodes s c) t) /\
    forall c', c' <> c -> own (pending_for_mds (srv s)) c' t = None /\ own (pending_for_mds dsv) c' t = None.
Proof.
  intros Hi Hq Hx.
  assert (Hit : items (queue s) t = k :: items q t).
  { rewrite Hq, items_cons, Hx. by rewrite Z.eqb_refl. }
  assert (exists c, is_Some (own (pending_for_mds (srv s)) c t) \/ is_Some (own (pending_for_mds dsv) c t)) as [c Ho].
  { destruct (v_item _ _ Hi t) as [Hh|Hh]; [by rewrite Hit|..]; apply has_own in Hh as (c & r & Hr); exists c; eauto. }
  destruct (logged_by _ _ _ _ _ _ Hi Hit Ho) as (Hc & Hnil & Hm & Hqm & Hl).
  exists c. split_and!; try done. intros c' Hne.
  destruct (own (pending_for_mds (srv s)) c' t) as [r1|] eqn:E1; [|destruct (own (pending_for_mds dsv) c' t) as [r2|] eqn:E2; [|done]].
  all: destruct (logged_by s dsv c' t k (items q t) Hi Hit) as (_ & _ & _ & _ & Hl'); [rewrite ?E1, ?E2; eauto|].
  all: exfalso; unfold logging in *; destruct k as [r c2|c2|].
  1,2: destruct Hl as [-> _], Hl' as [-> _]; done.
  - by destruct Hl' as [? _]; congruence.
  - destruct Hl as [-> _], Hl' as [-> _]; done.
  - destruct Hl as [-> _], Hl' as [-> _]; done.
  - destruct Hl as (_ & [r Hr] & _). by rewrite (own_other _ _ _ _ _ E2) in Hr by auto.
Qed.

Lemma replay_all_snoc l le ts ts' : replay_all l ts = Some ts' -> replay_all (l ++ [le]) ts = replay le ts'.
Proof.
  revert ts. induction l as [|a l IH]; intros ts; cbn [replay_all app].
  - intros [= ->]. by destruct (replay le ts').
  - destruct (replay a ts); [|done]. cbn [mbind option_bind]. apply IH.
Qed.

(** The disk's state after the entry at the head of the queue. *)
Lemma head_records s dsv le fin q :
  inv s dsv -> queue s = (le, fin) :: q ->
  exists dsv1, server_ok dsv1 /\ records le dsv dsv1 /\ chain dsv1 (map fst q) (srv s) /\
    sversion dsv + 1 < 2 ^ 64 /\ good_item (le, fin) /\ Forall good_item q /\
    exists tv, replay_all (durable s ++ [le]) ([], sv0) = Some (tv, dsv1).
Proof.
  intros Hi Hq. pose proof (v_chain _ _ Hi) as Hch. rewrite Hq in Hch.
  destruct Hch as (dsv1 & Hok & Hrec & Hch). exists dsv1.
  pose proof (v_good _ _ Hi) as Hg. rewrite Hq in Hg. apply Forall_cons in Hg as [Hg Hgs].
  pose proof (so_version _ (v_srv _ _ Hi)). pose proof (chain_le _ _ _ Hch).
  destruct Hrec as (Hv & Hv' & Hr). split_and!; try done; [lia|].
  destruct (v_disk _ _ Hi) as [tv Hd]. rewrite (replay_all_snoc _ _ _ _ Hd), Hr. eauto.
Qed.

Lemma inv_flush s dsv dsv1 c n' le fin q t k :
  inv s dsv -> queue s = (le, fin) :: q -> item_of (le, fin) = Some (t, k) -> e_tid le = t ->
  server_ok dsv1 -> sversion dsv <= sversion dsv1 -> chain dsv1 (map fst q) (srv s) -> Forall good_item q ->
  (exists tv, replay_all (durable s ++ [le]) ([], sv0) = Some (tv, dsv1)) ->
  c ∈ ranks -> items q t = [] -> in_journal TABLESERVER_OP_COMMIT (durable s) t = false ->
  (forall c', c' <> c -> own (pending_for_mds (srv s)) c' t = None /\ own (pending_for_mds dsv) c' t = None) ->
  cjournal n' = cjournal (nodes s c) ->
  (forall c' x, x <> t \/ c' <> c -> own (pending_for_mds dsv1) c' x = own (pending_for_mds dsv) c' x) ->
  (e_op le = TABLESERVER_OP_COMMIT \/ e_op le = TABLESERVER_OP_ROLLBACK ->
     has (pending_for_mds (srv s)) t = false /\ has (pending_for_mds dsv1) t = false /\ t <= sversion dsv1) ->
  (e_op le = TABLESERVER_OP_COMMIT -> cj (nodes s c) t = true) ->
  ninv c n' (own (pending_for_mds (srv s)) c) (own (pending_for_mds dsv1) c)
    (upd (qmine (pending_for_mds (srv s)) (pending_for_mds dsv) (queue s) c) t [])
    (in_journal TABLESERVER_OP_COMMIT (durable s ++ [le])) ->
  inv (MkSys (durable s ++ [le]) q (srv s) (fun c' => if c' =? c then n' else nodes s c')) dsv1.
Proof.
  intros Hi Hq Hx Ht Hok Hle Hch Hg Hd Hc Hit Hm Hoth Hj Hsame Hdone Hcj Hn.
  assert (Hitems : forall x, x <> t -> items (queue s) x = items q x).
  { intros x Hne. rewrite Hq, items_cons, Hx. by rewrite (proj2 (Z.eqb_neq t x)) by auto. }
  assert (Hjn : forall o x, in_journal o (durable s ++ [le]) x =
    in_journal o (durable s) x || ((e_op le =? o) && (t =? x))).
  { intros o x. rewrite in_journal_app, <- Ht. f_equal. apply orb_false_r. }
  assert (Hhas : forall x, x <> t -> has (pending_for_mds dsv1) x = has (pending_for_mds dsv) x)
    by (intros x ?; apply has_same; intros c'; apply Hsame; by left).
  assert (Hpend : has (pending_for_mds (srv s)) t = true \/ has (pending_for_mds dsv) t = true).
  { apply (v_item _ _ Hi). by rewrite Hq, items_cons, Hx, Z.eqb_refl. }
  destruct Hi as [I1 I2 I3 I4 I5 I6 I7 I8 I9 I10].
  split; cbn [durable queue srv nodes]; try done.
  - intros x Hne. destruct (decide (x = t)) as [->|Hxt]; [done|]. rewrite Hhas by done. apply I6. by rewrite Hitems.
  - intros x. rewrite Hjn. destruct (in_journal _ (durable s) x) eqn:E.
    + intros _. destruct (I7 x E) as (? & ? & ? & c' & Hc' & Hj'). assert (x <> t) by congruence.
      rewrite Hhas by done. split_and!; [done..|lia|]. exists c'. split; [done|].
      destruct (Z.eqb_spec c' c) as [->|]; [|done]. by eapply cj_same.
    + cbn [orb]. intros [Ho%Z.eqb_eq <-%Z.eqb_eq]%andb_prop. destruct Hdone as (? & ? & ?); [by left|].
      split_and!; try done. exists c. rewrite Z.eqb_refl. split; [done|]. eapply cj_same; eauto.
  - intros x. rewrite !Hjn. destruct (in_journal TABLESERVER_OP_ROLLBACK (durable s) x) eqn:E.
    + intros _. destruct (I8 x E) as (? & ? & ? & ->). assert (x <> t) by (intros ->; destruct Hpend; congruence).
      rewrite Hhas, (proj2 (Z.eqb_neq t x)), andb_false_r by auto. split_and!; [done..|lia|done].
    + cbn [orb]. intros [Ho%Z.eqb_eq <-%Z.eqb_eq]%andb_prop. destruct Hdone as (? & ? & ?); [by right|].
      split_and!; [done..|]. by rewrite Hm, Ho.
  - intros x p [Hp|Hp]; [by eapply I9; left|]. destruct (decide (p_mds p = c)) as [->|Hne]; [done|].
    apply find_own in Hp. rewrite Hsame in Hp by auto. apply own_find in Hp as (p' & Hf & <- & _). eauto.
  - intros c' Hc'. destruct (Z.eqb_spec c' c) as [->|Hne].
    + eapply ninv_frame; [exact Hn|done|done| |by left]. intros x. unfold upd, qmine.
      destruct (Z.eqb_spec x t) as [->|Hxt]; [rewrite Hit; by repeat case_match|].
      rewrite Hsame by auto. by rewrite Hitems.
    + eapply ninv_frame; [by apply I10|done|by intros x; apply Hsame; right| |].
      * intros x. unfold qmine. rewrite Hsame by auto. destruct (decide (x = t)) as [->|Hxt].
        -- by destruct (Hoth c' Hne) as [-> ->].
        -- by rewrite Hitems.
      * intros x. rewrite Hjn. destruct (Z.eqb_spec t x) as [<-|]; [|left; by rewrite andb_false_r, orb_false_r].
        destruct (e_op le =? TABLESERVER_OP_COMMIT); [right|left; by rewrite orb_false_r].
        destruct (Hoth c' Hne) as [-> ->]. by rewrite Hm.
Qed.

Definition sent (n : node) (m : request) : node :=
  MkNode (cl n) (cjournal n) (cqueue n) (up n) (down n ++ [m]).

(** The COMMIT or ROLLBACK at the head of the queue: the update was pending on
    disk only, and is no longer. *)
Lemma head_decided s dsv dsv1 le fin q t k c :
  inv s dsv -> queue s = (le, fin) :: q -> records le dsv dsv1 -> sversion dsv + 1 < 2 ^ 64 ->
  e_table le = TABLE_SNAP -> e_tid le = t ->
  e_op le = TABLESERVER_OP_COMMIT \/ e_op le = TABLESERVER_OP_ROLLBACK ->
  (k = QR \/ exists c', k = QC c') ->
  logging c k (own (pending_for_mds (srv s)) c t) (own (pending_for_mds dsv) c t) (cj (nodes s c) t) ->
  (forall c', c' <> c -> own (pending_for_mds (srv s)) c' t = None /\ own (pending_for_mds dsv) c' t = None) ->
  (forall c' x, own (pending_for_mds dsv1) c' x = if x =? t then None else own (pending_for_mds dsv) c' x) /\
  (forall c' x, x <> t \/ c' <> c -> own (pending_for_mds dsv1) c' x = own (pending_for_mds dsv) c' x) /\
  has (pending_for_mds (srv s)) t = false /\ has (pending_for_mds dsv1) t = false /\ t <= sversion dsv1.
Proof.
  intros Hi Hq Hrec Hb Htab <- Ho Hk Hl Hoth.
  assert (HP : pending_for_mds dsv1 = map_erase (pending_for_mds dsv) (e_tid le)).
  { rewrite (records_pending le dsv dsv1) by (done || apply (v_dsv _ _ Hi)). by destruct Ho as [-> | ->]. }
  assert (Hown : forall c' x, own (pending_for_mds dsv1) c' x =
    if x =? e_tid le then None else own (pending_for_mds dsv) c' x)
    by (intros; rewrite HP; eapply own_erase, so_keys, v_dsv, Hi).
  assert (Hlog : own (pending_for_mds (srv s)) c (e_tid le) = None /\ is_Some (own (pending_for_mds dsv) c (e_tid le)))
    by (destruct Hk as [->|[c' ->]]; naive_solver).
  destruct Hlog as [HP0 [r HD]]. split_and!; [done|..].
  - intros c' x Hx. rewrite Hown. destruct (Z.eqb_spec x (e_tid le)) as [->|]; [|done].
    destruct Hx as [?|Hne]; [done|]. by destruct (Hoth c' Hne) as [_ ->].
  - destruct (has _ _) eqn:E; [|done]. apply has_own in E as (c' & r' & Hr').
    destruct (decide (c' = c)) as [->|Hne]; [congruence|]. destruct (Hoth c' Hne). congruence.
  - rewrite HP, (has_erase 1), Z.eqb_refl by eapply so_keys, v_dsv, Hi. done.
  - destruct (own_find _ _ _ _ HD) as (p & Hf & _). pose proof (pending_bound _ _ _ (v_dsv _ _ Hi) Hf).
    destruct Hrec as (_ & -> & _). lia.
Qed.

Lemma fine_flush_prepare s dsv stm c r bl req t q :
  let le := MkEntry stm TABLE_SNAP TABLESERVER_OP_PREPARE r c bl t t in
  inv s dsv -> r_reqid req = r -> queue s = (le, Some (C_Prepare c req t)) :: q -> fine (exec_flushed s).
Proof.
  intros le Hi Hr Hq. unfold exec_flushed. rewrite Hq. cbn.
  destruct (head_records _ _ _ _ _ Hi Hq) as (dsv1 & Hok & Hrec & Hch & Hb & _ & Hg & Hd).
  destruct (head_owner _ _ _ _ t (QP r c) Hi Hq eq_refl) as (c' & Hc & Hit & Hm & Hqm & (<- & HP & HD) & Hoth).
  exists dsv1. rewrite (so_tab _ (v_srv _ _ Hi)).
  assert (Hown : forall c' x, own (pending_for_mds dsv1) c' x =
    if x =? t then if c =? c' then Some r else None else own (pending_for_mds dsv) c' x).
  { intros c' x. rewrite (records_pending le dsv dsv1) by (done || apply (v_dsv _ _ Hi)).
    eapply own_set, so_keys, v_dsv, Hi. }
  eapply inv_ext; [| | | |eapply (inv_flush s dsv dsv1 c (sent (nodes s c)
    (MkReq TABLE_SNAP TABLESERVER_OP_AGREE r t (r_bl req))) le _ q t)]; try done.
  - intros c'. cbn. by rewrite Hr.
  - destruct Hrec as (_ & -> & _). lia.
  - intros c' x Hx. rewrite Hown. destruct (Z.eqb_spec x t) as [->|]; [|done].
    destruct Hx as [?|Hne]; [done|]. rewrite (proj2 (Z.eqb_neq c c')) by auto. by destruct (Hoth c' Hne) as [_ ->].
  - by intros [?|?].
  - eapply ninv_frame; [eapply (flush_prepare _ _ _ _ _ _ (v_node _ _ Hi c Hc) t r (r_bl req)); done|done| |done|].
    + intros x. rewrite Hown, Z.eqb_refl. done.
    + intros x. left. rewrite in_journal_app. apply orb_false_r.
Qed.

Lemma fine_flush_commit s dsv stm r b bl c req t v q :
  let le := MkEntry stm TABLE_SNAP TABLESERVER_OP_COMMIT r b bl t v in
  inv s dsv -> r_tid req = t -> queue s = (le, Some (C_Commit c req)) :: q -> fine (exec_flushed s).
Proof.
  intros le Hi Hr Hq. unfold exec_flushed. rewrite Hq. cbn.
  destruct (head_records _ _ _ _ _ Hi Hq) as (dsv1 & Hok & Hrec & Hch & Hb & _ & Hg & Hd).
  destruct (head_owner _ _ _ _ t (QC c) Hi Hq eq_refl) as (c' & Hc & Hit & Hm & Hqm & Hl & Hoth).
  assert (c' = c) as -> by by destruct Hl.
  destruct (head_decided s dsv dsv1 le _ q t (QC c) c Hi Hq) as (Hown & Hsame & Hdone); try done; [by left|eauto|].
  exists dsv1. rewrite (so_tab _ (v_srv _ _ Hi)).
  eapply inv_ext; [| | | |eapply (inv_flush s dsv dsv1 c (sent (nodes s c)
    (MkReq TABLE_SNAP TABLESERVER_OP_ACK (r_reqid req) t [])) le _ q t)]; try done.
  - intros c'. cbn. by rewrite Hr.
  - destruct Hrec as (_ & -> & _). lia.
  - intros _. by destruct Hl as (_ & _ & _ & ?).
  - eapply ninv_frame; [eapply (flush_commit _ _ _ _ _ _ (v_node _ _ Hi c Hc) t [] (r_reqid req)); done|done|by intros x; rewrite Hown|done|].
    intros x. left. rewrite in_journal_app. cbn. unfold upd. rewrite (Z.eqb_sym x t).
    destruct (Z.eqb_spec t x) as [<-|]; [by rewrite Hm|]. by rewrite orb_false_r.
Qed.

Lemma fine_flush_rollback s dsv stm r b bl t v q :
  let le := MkEntry stm TABLE_SNAP TABLESERVER_OP_ROLLBACK r b bl t v in
  inv s dsv -> queue s = (le, None) :: q -> fine (exec_flushed s).
Proof.
  intros le Hi Hq. unfold exec_flushed. rewrite Hq. cbn.
  destruct (head_records _ _ _ _ _ Hi Hq) as (dsv1 & Hok & Hrec & Hch & Hb & _ & Hg & Hd).
  destruct (head_owner _ _ _ _ t QR Hi Hq eq_refl) as (c & Hc & Hit & Hm & Hqm & Hl & Hoth).
  destruct (head_decided s dsv dsv1 le _ q t QR c Hi Hq) as (Hown & Hsame & Hdone); try done; [by right|by left|].
  exists dsv1. eapply inv_ext; [| | | |eapply (inv_flush s dsv dsv1 c (nodes s c) le _ q t)]; try done.
  - intros c'. cbn. by destruct (Z.eqb_spec c' c) as [->|].
  - destruct Hrec as (_ & -> & _). lia.
  - eapply ninv_frame; [eapply (flush_rollback _ _ _ _ _ _ (v_node _ _ Hi c Hc) t); done|done|by intros x; rewrite Hown|done|].
    intros x. left. rewrite in_journal_app. apply orb_false_r.
Qed.

Lemma fine_flush_update s dsv stm r b bl t v q :
  let le := MkEntry stm TABLE_SNAP TABLESERVER_OP_SERVER_UPDATE r b bl t v in
  inv s dsv -> queue s = (le, None) :: q -> fine (exec_flushed s).
Proof.
  intros le Hi Hq. unfold exec_flushed. rewrite Hq. cbn.
  destruct (head_records _ _ _ _ _ Hi Hq) as (dsv1 & Hok & Hrec & Hch & Hb & _ & Hg & Hd).
  assert (HP : pending_for_mds dsv1 = pending_for_mds dsv)
    by (by rewrite (records_pending le dsv dsv1) by (done || apply (v_dsv _ _ Hi))).
  assert (Hv : sversion dsv <= sversion dsv1) by (destruct Hrec as (_ & -> & _); lia).
  assert (Hj : forall o x, o = TABLESERVER_OP_COMMIT \/ o = TABLESERVER_OP_ROLLBACK ->
    in_journal o (durable s ++ [le]) x = in_journal o (durable s) x).
  { intros o x Ho. rewrite in_journal_app. destruct Ho as [-> | ->]; apply orb_false_r. }
  exists dsv1. destruct Hi as [I1 I2 I3 I4 I5 I6 I7 I8 I9 I10]. rewrite Hq in *.
  split; cbn [durable queue srv nodes]; rewrite ?HP; try done.
  - intros x. rewrite Hj by auto. intros Hx. destruct (I7 x Hx) as (? & ? & ? & ?). split_and!; [done..|lia|done].
  - intros x. rewrite !Hj by auto. intros Hx. destruct (I8 x Hx) as (? & ? & ? & ?). split_and!; [done..|lia|done].
  - intros c Hc. eapply ninv_frame; [by apply I10|done|done|done|]. intros x. left. by rewrite Hj by auto.
Qed.

Lemma fine_flushed s dsv : inv s dsv -> fine (exec_flushed s).
Proof.
  intros Hi. destruct (queue s) as [|x q] eqn:Hq; [unfold exec_flushed; by rewrite Hq|].
  pose proof (v_good _ _ Hi) as Hg. rewrite Hq in Hg. apply Forall_cons in Hg as [Hg _]. destruct Hg.
  - by eapply fine_flush_prepare.
  - by eapply fine_flush_commit.
  - by eapply fine_flush_rollback.
  - by eapply fine_flush_update.
Qed.

(** ** Recovery *)

Lemma sends_to_app c e1 e2 : sends_to c (e1 ++ e2) = sends_to c e1 ++ sends_to c e2.
Proof. apply omap_app. Qed.

Lemma sends_to_map c c' ms : sends_to c (map (Send c') ms) = if c' =? c then ms else [].
Proof.
  induction ms as [|m ms IH]; [by destruct (c' =? c)|]. unfold sends_to in *. cbn [map omap list_omap].
  rewrite IH. by destruct (c' =? c).
Qed.

Lemma agrees_shape tb who ps n0 : exists nx ms, resend_agrees tb who ps n0 = (nx, map (Send who) ms).
Proof.
  revert n0. induction ps as [|[k p] ps IH]; intros n0; cbn [resend_agrees]; [by exists n0, []|].
  destruct (negb _); [apply IH|].
  match goal with |- context [resend_agrees tb who ps ?n] => destruct (IH n) as (nx & ms & ->) end.
  by eexists nx, (_ :: ms).
Qed.

Lemma sends_elsewhere c c' (sv : server S) : c' <> c -> sends_to c (handle_mds_recovery c' sv) = [].
Proof.
  intros Hne. unfold handle_mds_recovery.
  destruct (agrees_shape (tab sv) c' (pending_for_mds sv) 0) as (nx & ms & ->).
  rewrite sends_to_app, sends_to_map. unfold sends_to. simpl. by rewrite (proj2 (Z.eqb_neq c' c)).
Qed.

Lemma sends_finish c l (sv : server S) : NoDup l -> c ∈ l ->
  sends_to c (finish_recovery l sv) = sends_to c (handle_mds_recovery c sv).
Proof.
  induction 1 as [|a l Ha Hd IH]; [by intros ?%elem_of_nil|]. intros Hc.
  unfold finish_recovery. cbn [map concat]. rewrite sends_to_app. fold (finish_recovery l sv).
  destruct (decide (a = c)) as [->|Hne].
  - enough (sends_to c (finish_recovery l sv) = []) as -> by apply app_nil_r.
    clear IH Hd Hc. induction l as [|b l IH]; [done|]. apply not_elem_of_cons in Ha as [? ?].
    unfold finish_recovery. cbn [map concat]. rewrite sends_to_app, sends_elsewhere by auto. by apply IH.
  - rewrite sends_elsewhere by done. apply IH. by apply elem_of_cons in Hc as [->|?].
Qed.

Lemma recovery_resent (sv : server S) c :
  server_ok sv -> (forall t r, own (pending_for_mds sv) c t = Some r -> 0 <= r < TC.no_reqid) ->
  exists k, resent (own (pending_for_mds sv) c) (sends_to c (handle_mds_recovery c sv)) k.
Proof.
  intros Hok Hr. unfold handle_mds_recovery. rewrite (so_tab _ Hok).
  destruct (resend_spec c (pending_for_mds sv) 1 0) as (nx & ms & -> & Hn & Ha & Hg & Hag & Hak & Hb);
    [apply Hok|done| |].
  { apply Forall_forall. intros [k p] Hin. cbn [fst snd].
    pose proof (map_find_elem _ _ _ _ (so_keys _ Hok) Hin) as Hf.
    split; [by apply (so_tid _ Hok)|]. intros <-. apply (Hr k), find_own, Hf. }
  exists nx. rewrite sends_to_app, sends_to_map, Z.eqb_refl.
  replace (sends_to c [_]) with [MkReq TABLE_SNAP TABLESERVER_OP_SERVER_READY nx 0 []]
    by (unfold sends_to; simpl; by rewrite Z.eqb_refl).
  split; [exists ms, 0, []; done|done| | | |done].
  - intros t. unfold ags in *. rewrite tid_msgs_app, Hag. apply app_nil_r.
  - intros t. unfold acks in *. rewrite tid_msgs_app, Hak. done.
  - apply Forall_app. split; [done|]. apply Forall_singleton. constructor.
Qed.

(** A request id that is pending is one the client gave. *)
Lemma reqid_range c n oP oD qm cm t r :
  ninv c n oP oD qm cm -> lives oP oD t r -> 0 <= r < TC.no_reqid.
Proof.
  intros Hn Hl. destruct (n_bound _ _ _ _ _ _ Hn t r Hl) as (H0 & H1 & H2).
  pose proof (n_last _ _ _ _ _ _ Hn). pose proof (n_down _ _ _ _ _ _ Hn) as Hd.
  destruct (decide (last n = TC.no_reqid)) as [E|E]; [|specialize (H1 E); lia].
  rewrite (n_fresh _ _ _ _ _ _ Hn E) in Hd. destruct Hd as (k & Hk & ?). specialize (H2 E k Hk). lia.
Qed.

Lemma fine_crash s dsv : NoDup ranks -> inv s dsv -> fine (exec_crash sv0 ranks s).
Proof.
  intros Hnd Hi. unfold exec_crash. destruct (v_disk _ _ Hi) as [tv Hd]. rewrite Hd.
  exists dsv. destruct Hi as [I1 I2 I3 I4 I5 I6 I7 I8 I9 I10].
  split; cbn [durable queue srv nodes]; try done.
  - intros t Ht. destruct (I7 t Ht) as (_ & ? & ? & ?). done.
  - intros t Ht. destruct (I8 t Ht) as (_ & ? & ? & ?). done.
  - intros t p [?|?]; eauto.
  - intros c Hc. unfold after_crash. rewrite sends_finish by done.
    destruct (recovery_resent dsv c I2) as [k Hk].
    { intros t r Hr. eapply reqid_range; [by apply I10|by right]. }
    eapply ninv_frame; [by eapply local_crash; [apply I10|]|done|done| |by left].
    intros x. unfold qmine. by repeat case_match.
Qed.

(** Memory and disk differ about an update only while an entry about it waits. *)
Lemma phase_queue c rd prep P D q u p j m ag us :
  phase c rd prep P D q u p j m ag us ->
  P = D /\ q = [] \/ exists k, q = [k] /\ ((exists r, k = QP r c) \/ k = QC c \/ k = QR).
Proof. intros H. inversion H; subst; eauto 7. Qed.

(** With no entry about its updates in the queue, memory and disk have the same
    updates of the client. *)
Lemma orderly_same s dsv c t :
  inv s dsv -> c ∈ ranks -> orderly (Restart c) s = true ->
  own (pending_for_mds (srv s)) c t = own (pending_for_mds dsv) c t /\
  qmine (pending_for_mds (srv s)) (pending_for_mds dsv) (queue s) c t = [].
Proof.
  intros Hi Hc Ho. pose proof (n_phase _ _ _ _ _ _ (v_node _ _ Hi c Hc) t) as Hp.
  assert (Hno : forall k, k ∈ items (queue s) t -> k <> QR /\ k <> QC c /\ forall r, k <> QP r c).
  { intros k ([le fin] & Hin & Hk)%list_elem_of_omap. apply negb_true_iff in Ho.
    assert (Hx : concerns c (le, fin) = false).
    { destruct (concerns c (le, fin)) eqn:E; [|done]. rewrite <- Ho. symmetry. apply existsb_exists.
      exists (le, fin). by rewrite <- list_elem_of_In. }
    revert Hx Hk. unfold concerns, item_of.
    destruct (Z.eqb_spec (e_op le) TABLESERVER_OP_PREPARE) as [->|]; cbn.
    { destruct (Z.eqb_spec (e_bymds le) c); [done|]. destruct (e_tid le =? t); [|done].
      intros _ [= <-]. split; [done|]. split; [done|]. intros r [= _ ?]. congruence. }
    destruct (Z.eqb_spec (e_op le) TABLESERVER_OP_COMMIT) as [->|]; cbn.
    { destruct fin as [[?|from ?]|]; try done. destruct (Z.eqb_spec from c); [done|].
      destruct (e_tid le =? t); [|done]. intros _ [= <-]. split; [done|]. split; [congruence|done]. }
    by destruct (_ =? _). }
  assert (Hq : forall k, k ∈ qmine (pending_for_mds (srv s)) (pending_for_mds dsv) (queue s) c t ->
    k ∈ items (queue s) t).
  { unfold qmine. intros k. repeat case_match; try done. by intros ?%elem_of_nil. }
  destruct (phase_queue _ _ _ _ _ _ _ _ _ _ _ _ Hp) as [[? ?]|(k & E & Hk)]; [done|].
  exfalso. destruct (Hno k) as (? & ? & Hr); [apply Hq; rewrite E; by left|].
  destruct Hk as [[r ->]|[->| ->]]; [by apply (Hr r)|done..].
Qed.

Lemma fine_restart s dsv c :
  inv s dsv -> c ∈ ranks -> orderly (Restart c) s = true -> fine (exec_restart c s).
Proof.
  intros Hi Hc Ho. unfold exec_restart. pose proof (v_node _ _ Hi c Hc) as Hn.
  pose proof (fun t => orderly_same s dsv c t Hi Hc Ho) as Hsame.
  destruct (n_replay _ _ _ _ _ _ Hn) as (kc & Hk & _). rewrite Hk.
  exists dsv. apply inv_node; [done..| |done].
  destruct (recovery_resent (srv s) c (v_srv _ _ Hi)) as [k [R1 R2 R3 R4 R5 R6]].
  { intros t r Hr. eapply reqid_range; [exact Hn|by left]. }
  eapply local_restart; [exact Hn|apply Hsame|apply Hsame| |done].
  split; [done|done| |done|done|]; intros t; rewrite <- (proj1 (Hsame t)); [apply R3|apply R6].
Qed.

(** ** The system's runs *)

Definition started : Prop := server_ok sv0 /\ pending_for_mds sv0 = [] /\ NoDup ranks.

Lemma fresh_client c d k :
  resent (fun _ => None) d k -> ninv c (MkNode TC.new_client [] [] [] d) (fun _ => None) (fun _ => None) (fun _ => []) (fun _ => false).
Proof.
  intros [R1 R2 R3 R4 R5 R6]. split; cbn [cl cjournal cqueue up down]; try done.
  - intros t. rewrite R3. apply PhFree.
  - intros r Hr. by apply elem_of_nil in Hr.
  - constructor.
  - intros t t' r [?|?]; done.
  - intros t r [?|?]; done.
  - exists k. done.
  - intros t. by rewrite R4.
  - intros t Ht. by apply elem_of_nil in Ht.
  - intros a Ha. by apply elem_of_nil in Ha.
  - exists TC.new_client. done.
Qed.

Lemma inv_start : started -> inv (start sv0 ranks) sv0.
Proof.
  intros (Hok & HP & Hnd). split; cbn [start durable queue srv nodes]; try done; [by exists []|..].
  - intros t p. rewrite HP. by intros [?|?].
  - intros c Hc. rewrite sends_finish by done. destruct (recovery_resent sv0 c Hok) as [k Hk].
    { intros t r. by rewrite HP. }
    rewrite HP in *. eapply ninv_frame; [by eapply fresh_client|done|done|done|by left].
Qed.

(** The states that runs lead to in which every restart of a client is
    [orderly]. *)
Inductive orderly_reachable : sys (S := S) -> Prop :=
  | reach_start : orderly_reachable (start sv0 ranks)
  | reach_step s e s' :
      orderly_reachable s -> event_ok e -> orderly e s = true -> exec sv0 ranks e s = Next s' ->
      orderly_reachable s'.

Lemma exec_fine s dsv e :
  NoDup ranks -> inv s dsv -> event_ok e -> orderly e s = true -> fine (exec sv0 ranks e s).
Proof.
  intros Hnd Hi He Ho. destruct e; cbn [exec event_ok] in *.
  - destruct He. by eapply fine_prepare.
  - by eapply fine_journal.
  - by eapply fine_commit.
  - by eapply fine_to_server.
  - by eapply fine_to_client.
  - by eapply fine_flushed.
  - by eapply fine_ack_flushed.
  - by eapply fine_server_update.
  - by eapply fine_crash.
  - by eapply fine_restart.
Qed.

Lemma reachable_inv s : started -> orderly_reachable s -> exists dsv, inv s dsv.
Proof.
  intros Hs. induction 1 as [|s e s' _ [dsv Hi] He Ho Hx]; [exists sv0; by apply inv_start|].
  pose proof (exec_fine s dsv e (proj2 (proj2 Hs)) Hi He Ho) as Hf. by rewrite Hx in Hf.
Qed.

(** ** What the protocol guarantees *)

(** C2: as long as a client restarts only when no PREPARE or COMMIT entry of its
    and no ROLLBACK entry waits for the server's disk ([orderly]), which the
    code does not see to, and within the limits of [exec], whatever the order of
    requests, journal flushes, crashes of the server and such restarts, no
    assertion of the server or of a client fails, and no message or journal
    entry is met that they cannot handle. *)
Theorem protocol_never_aborts s e :
  started -> orderly_reachable s -> event_ok e -> orderly e s = true -> exec sv0 ranks e s <> Aborted.
Proof.
  intros Hs Hr He Ho. destruct (reachable_inv s Hs Hr) as [dsv Hi].
  pose proof (exec_fine s dsv e (proj2 (proj2 Hs)) Hi He Ho) as Hf. intros E. by rewrite E in Hf.
Qed.

Lemma phase_none c rd prep q u p j ag us :
  phase c rd prep None None q u p j false ag us -> j = false.
Proof. intros H. by inversion H. Qed.

(** An entry of the queue is about an update that is pending on disk or in
    memory, of the client the entry names. *)
Lemma queued_item s dsv x t k :
  inv s dsv -> x ∈ queue s -> item_of x = Some (t, k) ->
  exists c, c ∈ ranks /\
    logging c k (own (pending_for_mds (srv s)) c t) (own (pending_for_mds dsv) c t) (cj (nodes s c) t).
Proof.
  intros Hi Hx Hit. assert (Hk : k ∈ items (queue s) t).
  { apply list_elem_of_omap. exists x. by rewrite Hit, Z.eqb_refl. }
  destruct (items (queue s) t) as [|k' l] eqn:E; [by apply elem_of_nil in Hk|].
  assert (exists c, is_Some (own (pending_for_mds (srv s)) c t) \/ is_Some (own (pending_for_mds dsv) c t)) as [c Ho].
  { destruct (v_item _ _ Hi t) as [Hh|Hh]; [by rewrite E|..]; apply has_own in Hh as (c & r & Hr); exists c; eauto. }
  destruct (logged_by _ _ _ _ _ _ Hi E Ho) as (Hc & -> & _ & _ & Hl).
  apply list_elem_of_singleton in Hk as ->. eauto.
Qed.

(** An update that is not decided, or decided against, is in no client's journal. *)
Lemma not_journalled s dsv c t :
  inv s dsv -> c ∈ ranks -> own (pending_for_mds (srv s)) c t = None -> own (pending_for_mds dsv) c t = None ->
  in_journal TABLESERVER_OP_COMMIT (durable s) t = false -> cj (nodes s c) t = false.
Proof.
  intros Hi Hc HP HD Hm. pose proof (n_phase _ _ _ _ _ _ (v_node _ _ Hi c Hc) t) as Hp.
  rewrite HP, HD, Hm in Hp. by eapply phase_none.
Qed.

Lemma good_commit le fin t : good_item (le, fin) -> e_op le = TABLESERVER_OP_COMMIT -> e_tid le = t ->
  exists c, item_of (le, fin) = Some (t, QC c).
Proof. intros Hg. inversion Hg; cbn; intros ? ?; try done. subst. eauto. Qed.

Lemma good_rollback le fin t : good_item (le, fin) -> e_op le = TABLESERVER_OP_ROLLBACK -> e_tid le = t ->
  item_of (le, fin) = Some (t, QR).
Proof. intros Hg. inversion Hg; cbn; intros ? ?; by subst. Qed.

Lemma journal_find o l t : in_journal o l t = true -> exists le, le ∈ l /\ e_op le = o /\ e_tid le = t.
Proof.
  unfold in_journal. rewrite existsb_exists. intros (le & Hin & [?%Z.eqb_eq ?%Z.eqb_eq]%andb_prop).
  exists le. by rewrite list_elem_of_In.
Qed.

Definition server_journal (s : sys (S := S)) : list entry := durable s ++ map fst (queue s).

Lemma queued_entry s dsv o t :
  inv s dsv -> in_journal o (map fst (queue s)) t = true ->
  exists le fin, (le, fin) ∈ queue s /\ good_item (le, fin) /\ e_op le = o /\ e_tid le = t.
Proof.
  intros Hi Hj. apply journal_find in Hj as (le & Hin & Ho & Ht).
  apply list_elem_of_fmap in Hin as ([le' fin] & -> & Hin). exists le', fin. split_and!; try done.
  pose proof (v_good _ _ Hi) as Hg. rewrite Forall_forall in Hg. by apply Hg.
Qed.

(** No client has in its journal what the queue is about to roll back. *)
Lemma rolled_back s dsv x t c :
  inv s dsv -> x ∈ queue s -> item_of x = Some (t, QR) -> c ∈ ranks -> JAgree t ∉ cjournal (nodes s c).
Proof.
  intros Hi Hin Hit Hc. destruct (queued_item _ _ _ _ _ Hi Hin Hit) as (c0 & Hc0 & HP & [r HD] & Hj).
  enough (cj (nodes s c) t = false) as Hcj by by apply bool_decide_eq_false_1 in Hcj.
  destruct (decide (c = c0)) as [->|Hne]; [done|].
  assert (Hk : QR ∈ items (queue s) t).
  { apply list_elem_of_omap. exists x. by rewrite Hit, Z.eqb_refl. }
  destruct (items (queue s) t) as [|k l] eqn:E; [by apply elem_of_nil in Hk|].
  destruct (logged_by s dsv c0 t k l Hi E) as (_ & -> & Hm & _); [right; eauto|].
  apply list_elem_of_singleton in Hk as <-.
  apply (not_journalled s dsv c t); try done; [|by eapply own_other].
  destruct (own (pending_for_mds (srv s)) c t) as [r'|] eqn:E'; [|done].
  destruct (logged_by s dsv c t QR [] Hi E) as (_ & _ & _ & _ & Hl & _); [left; eauto|]. congruence.
Qed.

(** C1: in every run in which a client restarts only when no PREPARE or COMMIT
    entry of its and no ROLLBACK entry waits for the server's disk ([orderly]),
    which the code does not see to, the server commits an update only if the
    client that asked for it has it in its own journal, and rolls one back only
    if no client has it; so it never does both. A client forgets an update, or
    journals that it was acknowledged, only when the server's COMMIT is on disk.
    The other limits of a run are those of [exec]: messages arrive once and in
    order, callers commit only what is in their journal, and no counter reaches
    2^64. *)
Theorem protocol_agreement s :
  started -> orderly_reachable s ->
  (forall t, in_journal TABLESERVER_OP_COMMIT (server_journal s) t = true ->
     exists c, c ∈ ranks /\ JAgree t ∈ cjournal (nodes s c)) /\
  (forall t c, in_journal TABLESERVER_OP_ROLLBACK (server_journal s) t = true -> c ∈ ranks ->
     JAgree t ∉ cjournal (nodes s c)) /\
  (forall c t, c ∈ ranks -> t ∈ cqueue (nodes s c) \/ (exists a, JAck a ∈ cjournal (nodes s c) /\ TC.a_tid a = t) ->
     in_journal TABLESERVER_OP_COMMIT (durable s) t = true).
Proof.
  intros Hs Hr. destruct (reachable_inv s Hs Hr) as [dsv Hi]. unfold server_journal. split_and!.
  - intros t. rewrite in_journal_app. intros [Hj|Hj]%orb_prop.
    + destruct (v_comm _ _ Hi t Hj) as (_ & _ & _ & c & Hc & Hcj). exists c. split; [done|].
      by apply bool_decide_eq_true_1 in Hcj.
    + destruct (queued_entry _ _ _ _ Hi Hj) as (le & fin & Hin & Hg & Ho & Ht).
      destruct (good_commit _ _ _ Hg Ho Ht) as (c' & Hit).
      destruct (queued_item _ _ _ _ _ Hi Hin Hit) as (c & Hc & _ & _ & _ & Hcj). exists c. split; [done|].
      by apply bool_decide_eq_true_1 in Hcj.
  - intros t c. rewrite in_journal_app. intros [Hj|Hj]%orb_prop Hc.
    + destruct (v_roll _ _ Hi t Hj) as (HP & HD & _ & Hm).
      pose proof (not_journalled s dsv c t Hi Hc (own_has _ _ _ HP) (own_has _ _ _ HD) Hm) as Hcj.
      by apply bool_decide_eq_false_1 in Hcj.
    + destruct (queued_entry _ _ _ _ Hi Hj) as (le & fin & Hin & Hg & Ho & Ht).
      pose proof (good_rollback _ _ _ Hg Ho Ht) as Hit.
      by apply (rolled_back s dsv (le, fin) t c Hi Hin Hit Hc).
  - intros c t Hc H. pose proof (v_node _ _ Hi c Hc) as Hn. destruct H as [H|(a & H & <-)].
    + by apply (n_acked _ _ _ _ _ _ Hn).
    + by apply (n_jack _ _ _ _ _ _ Hn).
Qed.

(** All that was sent has arrived and all that was submitted is on disk. *)
Definition settled (s : sys (S := S)) : Prop :=
  queue s = [] /\ forall c, c ∈ ranks -> up (nodes s c) = [] /\ down (nodes s c) = [].

Lemma no_keys {V} (m : list (Z * V)) : (forall k, has m k = false) -> m = [].
Proof.
  destruct m as [|[k v] m]; [done|]. intros H. specialize (H k). unfold has in H. cbn in H.
  by rewrite Z.eqb_refl in H.
Qed.

Lemma phase_settled c prep P D u p j m :
  (forall r, prep r = false) -> phase c true prep P D [] u p j m [] [] ->
  P = u /\ D = P /\ (p = true -> m = true) /\ (j = true -> m = true \/ is_Some u).
Proof.
  intros Hp H. inversion H as [| | |r j' ag ? Ha|r ag us ? Ha Hu| |p' us Hu|r ?|]; subst; try done;
    split_and!; eauto; by intros ->.
Qed.

Lemma phase_waiting c prep r' P D u p j m :
  prep r' = true -> P = Some r' \/ D = Some r' -> phase c true prep P D [] u p j m [] [] -> False.
Proof.
  intros Hr Ho H. inversion H as [| | |r j' ag ? Ha|r ag us ? Ha Hu| |p' us Hu|r ?|]; subst; try done; naive_solver congruence.
Qed.

(** With nothing on its way, a connected client has no request outstanding. *)
Lemma no_prepare c n oP oD qm cm :
  ninv c n oP oD qm cm -> rdy n = true -> up n = [] ->
  (forall t, phase c true (pp n) (oP t) (oD t) [] (pu n t) (pc n t) (cj n t) (cm t) [] []) ->
  forall r, pp n r = false.
Proof.
  intros Hn Hrd Hu Hp r. destruct (pp n r) eqn:E; [|done]. exfalso.
  destruct (n_answer _ _ _ _ _ _ Hn r Hrd E) as [H|[t H]]; [by rewrite Hu in H; apply elem_of_nil in H|].
  by eapply (phase_waiting c (pp n) r); [..|apply Hp].
Qed.

(** C24: in a run whose restarts are [orderly], once all messages have arrived
    and all entries are on disk, every client is connected and has no request
    outstanding; the updates pending at the server are exactly those their
    clients have prepared and not committed, under the same request; and every
    update in a client's journal is one of these or is committed on the server's
    disk. *)
Theorem protocol_settles s :
  started -> orderly_reachable s -> settled s ->
  forall c, c ∈ ranks ->
    let k := cl (nodes s c) in
    TC.server_ready k = true /\ TC.pending_prepare k = [] /\ TC.waiting_for_reqid k = [] /\
    TC.pending_commit k = [] /\
    (forall t r, map_find (TC.prepared_update k) t = Some r <->
       exists p, map_find (pending_for_mds (srv s)) t = Some p /\ p_mds p = c /\ p_reqid p = r) /\
    (forall t, JAgree t ∈ cjournal (nodes s c) ->
       in_journal TABLESERVER_OP_COMMIT (durable s) t = true \/ is_Some (map_find (TC.prepared_update k) t)).
Proof.
  intros Hs Hr [Hq Hch] c Hc. destruct (reachable_inv s Hs Hr) as [dsv Hi].
  destruct (Hch c Hc) as [Hu Hd]. pose proof (v_node _ _ Hi c Hc) as Hn.
  assert (Hrd : rdy (nodes s c) = true).
  { pose proof (n_down _ _ _ _ _ _ Hn) as H. destruct (rdy _); [done|].
    destruct H as (? & (l & ? & ? & E & _) & _). rewrite Hd in E. by destruct l. }
  assert (Hph : forall t, phase c true (pp (nodes s c)) (own (pending_for_mds (srv s)) c t) (own (pending_for_mds dsv) c t) []
    (pu (nodes s c) t) (pc (nodes s c) t) (cj (nodes s c) t) (in_journal TABLESERVER_OP_COMMIT (durable s) t) [] []).
  { intros t. pose proof (n_phase _ _ _ _ _ _ Hn t) as Hp. rewrite Hrd, Hu, Hd in Hp.
    unfold qmine in Hp. rewrite Hq in Hp. by repeat case_match. }
  assert (Hpp : forall r, pp (nodes s c) r = false) by (eapply no_prepare; eauto).
  assert (Hps : forall t, _) by (intros t; exact (phase_settled _ _ _ _ _ _ _ _ Hpp (Hph t))).
  cbn. split_and!; [done|by apply no_keys|by apply (n_waiting _ _ _ _ _ _ Hn)| | |].
  - apply no_keys. intros t. destruct (has _ t) eqn:E; [|done]. destruct (Hps t) as (_ & _ & Hm & _).
    destruct (n_ackwait _ _ _ _ _ _ Hn t (Hm E) E Hrd) as [H|H]; by rewrite ?Hu, ?Hd in H.
  - intros t r. destruct (Hps t) as (HP & _). unfold pu in HP. rewrite <- HP. split; [apply own_find|].
    intros (p & Hf & <- & <-). by apply find_own.
  - intros t Ht. destruct (Hps t) as (_ & _ & _ & H). apply H. by apply bool_decide_eq_true_2.
Qed.

End System.
End TableAgreement.
