(* ===== verification/TableLiveness.v ===== *)
(** * Progress of the two-phase table protocol

    Delivering messages and flushing journals, with no new request and no
    failure, comes to an end: each delivery costs some of a weight of what is
    still to be done, and a state where nothing can be delivered is settled. *)

From S2P Require Import Prelude Encoding MDSTable TableServer TableClient TableProtocol TableSafety TableAgreement.
Import Encoding MDSTable TableServer ServerFacts TableProtocol TableSafety TableAgreement.

Module TableLiveness.

(** ** The weight of what is to be done

    A PREPARE becomes an entry, then an AGREE, then perhaps a ROLLBACK and its
    entry; a COMMIT becomes an entry, then an ACK, then an entry of the client. *)

Definition w_up (m : request) : nat :=
  if r_op m =? TABLESERVER_OP_PREPARE then 5
  else if r_op m =? TABLESERVER_OP_COMMIT then 4 else 2.
Definition w_fin (fin : option completion) : nat :=
  match fin with Some (C_Prepare _ _ _) => 4 | Some (C_Commit _ _) => 3 | None => 1 end.
Definition w_down (m : request) : nat :=
  if r_op m =? TABLESERVER_OP_AGREE then 3
  else if r_op m =? TABLESERVER_OP_ACK then 2 else 1.

(** What a client will send when the server is ready. *)
Definition w_client (k : TC.client) : nat :=
  if TC.server_ready k then 0
  else (5 * (length (TC.pending_prepare k) + length (TC.waiting_for_reqid k)) + 4 * length (TC.pending_commit k))%nat.

Definition w_list {A} (w : A -> nat) (l : list A) : nat := list_sum (map w l).
Definition w_node (n : node) : nat :=
  (w_list w_up (up n) + w_list w_down (down n) + length (cqueue n) + w_client (cl n))%nat.
Definition w_nodes (ranks : list Z) (f : Z -> node) : nat := w_list (fun c => w_node (f c)) ranks.

Definition w_ceffect (e : TC.ceffect) : nat :=
  match e with TC.SendServer m => w_up m | TC.LogAck _ => 1 | _ => 0 end.
Definition w_effect (e : effect) : nat :=
  match e with Send _ m => w_down m | Submit _ fin => w_fin fin | Flush => 0 end.

Lemma w_list_app {A} (w : A -> nat) l1 l2 : w_list w (l1 ++ l2) = (w_list w l1 + w_list w l2)%nat.
Proof. unfold w_list. by rewrite map_app, list_sum_app. Qed.

Lemma w_list_cons {A} (w : A -> nat) x l : w_list w (x :: l) = (w x + w_list w l)%nat.
Proof. done. Qed.

Lemma w_map {A B} (f : A -> B) (w : B -> nat) n l :
  (forall x, w (f x) = n) -> w_list w (map f l) = (n * length l)%nat.
Proof.
  intros H. induction l as [|x l IH]; [cbn; lia|]. cbn [map length]. rewrite w_list_cons, H, IH. lia.
Qed.

Lemma w_cperform n e : w_node (foldl cperform n e) = (w_node n + w_list w_ceffect e)%nat.
Proof.
  revert n. induction e as [|x e IH]; intros n; [cbn; lia|]. cbn [foldl]. rewrite IH, w_list_cons.
  destruct x; unfold w_node; cbn [cperform cl cjournal cqueue up down w_ceffect];
    rewrite ?w_list_app, ?length_app, ?w_list_cons; cbn [length w_list map list_sum]; try lia.
  change (w_list w_up []) with 0%nat. lia.
Qed.

Lemma cl_cperform n e : cl (foldl cperform n e) = cl n /\ down (foldl cperform n e) = down n.
Proof. revert n. induction e as [|x e IH]; intros n; [done|]. cbn [foldl]. destruct (IH (cperform n x)) as [-> ->]. by destruct x. Qed.

(** ** Maps do not grow by more than one *)

Lemma length_set {V} (m : list (Z * V)) k v : (length (map_set m k v) <= Datatypes.S (length m))%nat.
Proof.
  induction m as [|[k0 v0] m IH]; cbn [map_set length]; [lia|].
  repeat case_match; cbn [length]; lia.
Qed.

Lemma length_erase {V} (m : list (Z * V)) k : (length (map_erase m k) <= length m)%nat.
Proof.
  unfold map_erase. induction m as [|[k0 v0] m IH]; [done|]. cbn [List.filter length].
  destruct (negb _); cbn [length]; lia.
Qed.

Lemma length_assign l last m :
  (length (TC.assign_reqids l last m).2 <= length m + length l)%nat.
Proof.
  revert last m. induction l as [|p l IH]; intros last m; cbn [TC.assign_reqids length snd]; [lia|].
  etrans; [apply IH|]. pose proof (length_set m (last +u64 1) p). lia.
Qed.

(** ** A client's step *)

Lemma agree_weight m k k' e : r_op m = TABLESERVER_OP_AGREE -> TC.handle_agree TABLE_SNAP 0 m k = Some (k', e) ->
  (w_client k' + w_list w_ceffect e < w_client k + w_down m)%nat.
Proof.
  intros Ho H. unfold w_down. rewrite Ho. cbn [Z.eqb Pos.eqb TABLESERVER_OP_AGREE].
  unfold TC.handle_agree in H. destruct (map_find (TC.pending_prepare k) (r_reqid m)) as [p|].
  { cbn in H. destruct (TC.ptid p) as [pt|]; [|done]. injection H as <- <-.
    pose proof (length_erase (TC.pending_prepare k) (r_reqid m)).
    assert (w_list w_ceffect (TC.SetTid pt (r_tid m) :: match TC.pbl p with Some pb => [TC.SetBl pb (r_bl m)] | None => [] end
      ++ match TC.onfinish p with Some f => [TC.Finish f] | None => [] end) = 0%nat) as ->
      by by destruct (TC.pbl p), (TC.onfinish p).
    unfold w_client. cbn. destruct (TC.server_ready k); lia. }
  destruct (map_find (TC.prepared_update k) (r_tid m)) as [r|];
    [|destruct (map_find (TC.pending_commit k) (r_tid m))]; repeat case_match; try discriminate;
    injection H as <- <-; cbn; lia.
Qed.

Lemma ack_weight m k k' e : r_op m = TABLESERVER_OP_ACK -> TC.handle_ack 0 m k = Some (k', e) ->
  (w_client k' + w_list w_ceffect e < w_client k + w_down m)%nat.
Proof.
  intros Ho H. unfold w_down. rewrite Ho. cbn [Z.eqb Pos.eqb TABLESERVER_OP_AGREE TABLESERVER_OP_ACK].
  unfold TC.handle_ack in H. destruct (map_find (TC.pending_commit k) (r_tid m)) as [ls|].
  2: { injection H as <- <-. cbn. lia. }
  destruct (map_find _ _); [|injection H as <- <-; cbn; lia]. cbn in H. injection H as <- <-.
  pose proof (length_erase (TC.pending_commit k) (r_tid m)). unfold map_erase in *.
  unfold w_client. cbn in *. destruct (TC.server_ready k); lia.
Qed.

Lemma ready_weight m k k' e : TC.handle_server_ready TABLE_SNAP m k = Some (k', e) ->
  TC.server_ready k' = true /\ (w_client k' + w_list w_ceffect e <= w_client k)%nat.
Proof.
  intros H. unfold TC.handle_server_ready in H. destruct (TC.server_ready k) eqn:Hr; [done|]. cbn [negb] in H.
  set (k1 := if TC.last_reqid (TC.set_ready true k) =? TC.no_reqid then _ else _) in H.
  assert (Hk1 : TC.waiting_for_reqid k1 = TC.waiting_for_reqid k /\ TC.pending_prepare k1 = TC.pending_prepare k /\
    TC.pending_commit k1 = TC.pending_commit k /\ TC.server_ready k1 = true)
    by (subst k1; by destruct (_ =? TC.no_reqid)).
  clearbody k1. destruct Hk1 as (E1 & E2 & E3 & E4). unfold TC.resend_prepares in H.
  pose proof (length_assign (TC.waiting_for_reqid k1) (TC.last_reqid k1) (TC.pending_prepare k1)) as Hl.
  destruct (TC.assign_reqids _ _ _) as [last m']. cbn in H, Hl. injection H as <- <-. split; [done|].
  unfold w_client, TC.resend_commits. rewrite Hr, w_list_app, (w_map _ _ 5), (w_map _ _ 4) by done.
  cbn [TC.server_ready TC.pending_prepare TC.pending_commit TC.set_waiting TC.set_prepare TC.set_last].
  rewrite E4, E3. rewrite E1, E2 in Hl. lia.
Qed.

Lemma client_weight m k k' e : dispatch_client m k = Some (k', e) ->
  (w_client k' + w_list w_ceffect e < w_client k + w_down m)%nat /\
  (TC.server_ready k' = true \/
   TC.last_reqid k' = TC.last_reqid k /\ TC.waiting_for_reqid k' = TC.waiting_for_reqid k).
Proof.
  unfold dispatch_client, TC.handle_request. destruct (_ || _); [done|]. destruct (r_table m =? TABLE_SNAP); [|done].
  destruct (Z.eqb_spec (r_op m) TABLESERVER_OP_QUERY_REPLY) as [E|_].
  { intros [= <- <-]. unfold w_down. rewrite E. cbn. split; [lia|auto]. }
  destruct (Z.eqb_spec (r_op m) TABLESERVER_OP_AGREE) as [E|_].
  { intros H. split; [by apply agree_weight|]. right. unfold TC.handle_agree in H.
    destruct (map_find (TC.pending_prepare k) _) as [p|].
    - cbn in H. destruct (TC.ptid p); [|done]. by injection H as <- _.
    - by repeat case_match; simplify_eq. }
  destruct (Z.eqb_spec (r_op m) TABLESERVER_OP_ACK) as [E|_].
  { intros H. split; [by apply ack_weight|]. right. unfold TC.handle_ack in H.
    by repeat case_match; simplify_eq. }
  destruct (Z.eqb_spec (r_op m) TABLESERVER_OP_SERVER_READY) as [E|_]; [|done].
  intros [Hr H]%ready_weight. split; [|by left]. unfold w_down. rewrite E. cbn. lia.
Qed.

(** ** The system's step *)

Section System.
Context {S : Type} {ops : TableServerOps S} {eqv : Equiv S} {laws : TableServerLaws S}.
Context (sv0 : server S) (ranks : list Z).

Definition weight (s : sys (S := S)) : nat :=
  (w_nodes ranks (nodes s) + w_list (fun x => w_fin x.2) (queue s))%nat.

(** A message that arrives or an entry that reaches the disk. *)
Definition delivery (e : event) : Prop :=
  match e with
  | ToServer c | ToClient c | AckFlushed c => c ∈ ranks
  | Flushed => True
  | _ => False
  end.

Lemma delivery_ok e : delivery e -> event_ok ranks e.
Proof. by destruct e. Qed.

Lemma delivery_orderly e (s : sys (S := S)) : delivery e -> orderly e s = true.
Proof. by destruct e. Qed.

Lemma w_nodes_same f g l : (forall c, c ∈ l -> g c = f c) -> w_nodes l g = w_nodes l f.
Proof.
  intros H. unfold w_nodes. induction l as [|a l IH]; [done|].
  rewrite !w_list_cons, H, IH; [done| |by left]. intros c Hc. apply H. by right.
Qed.

Lemma w_nodes_set f c n' : NoDup ranks -> c ∈ ranks ->
  (w_nodes ranks (fun c' => if Z.eqb c' c then n' else f c') + w_node (f c) = w_nodes ranks f + w_node n')%nat.
Proof.
  induction 1 as [|a l Ha Hnd IH]; [by intros ?%elem_of_nil|]. intros Hc. unfold w_nodes. rewrite !w_list_cons.
  fold (w_nodes l f) (w_nodes l (fun c' => if c' =? c then n' else f c')).
  destruct (Z.eqb_spec a c) as [->|Hne].
  - rewrite (w_nodes_same f) ; [lia|]. intros c' Hc'. rewrite (proj2 (Z.eqb_neq c' c)) by congruence. done.
  - apply elem_of_cons in Hc as [->|Hc]; [done|]. specialize (IH Hc). lia.
Qed.

Lemma w_perform s e : NoDup ranks -> (weight (foldl perform s e) <= weight s + w_list w_effect e)%nat.
Proof.
  intros Hnd. revert s. induction e as [|x e IH]; intros s; [cbn; lia|]. cbn [foldl]. rewrite w_list_cons.
  etrans; [apply IH|]. enough (weight (perform s x) <= weight s + w_effect x)%nat by lia.
  destruct x as [to m|le fin|]; unfold weight; cbn [perform push_down set_node queue nodes w_effect].
  - destruct (decide (to ∈ ranks)) as [Hin|Hn].
    + pose proof (w_nodes_set (nodes s) to (MkNode (cl (nodes s to)) (cjournal (nodes s to)) (cqueue (nodes s to))
        (up (nodes s to)) (down (nodes s to) ++ [m])) Hnd Hin) as H.
      unfold w_node in H at 2. cbn [up down cqueue cl] in H. rewrite w_list_app, w_list_cons in H.
      change (w_list w_down []) with 0%nat in H. unfold w_node in H at 1. cbn in *. lia.
    + rewrite (w_nodes_same (nodes s)); [lia|]. intros c Hc. by rewrite (proj2 (Z.eqb_neq c to)) by congruence.
  - rewrite w_list_app, w_list_cons. change (w_list _ []) with 0%nat. cbn [snd]. lia.
  - lia.
Qed.

Lemma server_weight c m sv sv' e : dispatch_server c m sv = Some (sv', e) ->
  (w_list w_effect e < w_up m)%nat.
Proof.
  unfold dispatch_server, handle_request. destruct (_ || _); [done|]. destruct (0 <=? r_op m); [|done].
  unfold w_up. destruct (Z.eqb_spec (r_op m) TABLESERVER_OP_QUERY) as [->|_].
  { destruct (handle_query _ _ _) as [[ts e']|] eqn:E; [|done]. intros [= _ <-].
    apply law_query in E as [_ ->]. cbn. lia. }
  destruct (r_op m =? TABLESERVER_OP_PREPARE).
  { unfold handle_prepare. destruct (_prepare _ _ _ _) as [[? ?]|]; [|done]. cbn. intros [= _ <-]. cbn. lia. }
  destruct (r_op m =? TABLESERVER_OP_COMMIT).
  { unfold handle_commit. destruct (map_find _ _).
    - cbn. destruct (_commit _ _ _) as [[b ?]|]; [|done]. cbn. destruct b; intros [= _ <-]; cbn; lia.
    - destruct (_ <=? _); [|done]. cbn. intros [= _ <-]. cbn. lia. }
  destruct (r_op m =? TABLESERVER_OP_ROLLBACK); [|done].
  unfold handle_rollback. destruct (map_find _ _); [|done]. destruct (_rollback _ _); [|done]. cbn.
  intros [= _ <-]. cbn. lia.
Qed.

(** Every delivery makes the weight smaller. *)
Lemma delivery_weight s e s' : NoDup ranks -> delivery e -> exec sv0 ranks e s = Next s' ->
  (weight s' < weight s)%nat.
Proof.
  intros Hnd Hd H. destruct e as [| | |c|c| |c| | |]; try done; cbn [exec delivery] in *.
  - unfold exec_to_server in H. destruct (up (nodes s c)) as [|m l] eqn:Hu; [done|]. destruct (_ <? _); [|done].
    destruct (dispatch_server c m (srv s)) as [[sv e]|] eqn:E; [|done]. injection H as <-.
    apply server_weight in E. eapply Nat.le_lt_trans; [by apply w_perform|].
    unfold weight. cbn [set_srv set_node queue nodes].
    pose proof (w_nodes_set (nodes s) c (MkNode (cl (nodes s c)) (cjournal (nodes s c)) (cqueue (nodes s c)) l
      (down (nodes s c))) Hnd Hd) as Hw.
    unfold w_node in Hw. cbn [up down cqueue cl] in Hw. rewrite Hu, w_list_cons in Hw. lia.
  - unfold exec_to_client in H. destruct (down (nodes s c)) as [|m l] eqn:Hu; [done|]. destruct (_ && _); [done|].
    destruct (dispatch_client m (cl (nodes s c))) as [[k e]|] eqn:E; [|done]. injection H as <-.
    apply client_weight in E as [E _]. unfold weight. cbn [set_node queue nodes].
    match goal with |- context [foldl cperform ?nd e] =>
      pose proof (w_nodes_set (nodes s) c (foldl cperform nd e) Hnd Hd) as Hw end.
    rewrite w_cperform in Hw. unfold w_node in Hw. cbn [up down cqueue cl] in Hw.
    rewrite Hu, w_list_cons in Hw. lia.
  - unfold exec_flushed in H. destruct (queue s) as [|[le fin] q] eqn:Hq; [done|].
    assert (Hw : weight s = (weight (MkSys (durable s ++ [le]) q (srv s) (nodes s)) + w_fin fin)%nat).
    { unfold weight. rewrite Hq, w_list_cons. cbn [queue nodes snd]. lia. }
    destruct fin as [f|]; [|injection H as <-; rewrite Hw; cbn; lia].
    cbn [srv] in H. destruct (finish 0 f (srv s)) as [e|] eqn:E; [|done]. injection H as <-.
    eapply Nat.le_lt_trans; [by apply w_perform|]. rewrite Hw.
    destruct f; cbn in E; injection E as <-; cbn; lia.
  - unfold exec_ack_flushed in H. destruct (cqueue (nodes s c)) as [|t q] eqn:Hq; [done|].
    destruct (TC._logged_ack 0 t (cl (nodes s c))) as [[k e]|] eqn:E; [|done]. injection H as <-.
    assert (w_client k = w_client (cl (nodes s c)) /\ w_list w_ceffect e = 0%nat) as [Hk He].
    { unfold TC._logged_ack in E. cbn in E. destruct (map_find _ _); by injection E as <- <-. }
    unfold weight. cbn [set_node queue nodes].
    match goal with |- context [foldl cperform ?nd e] =>
      pose proof (w_nodes_set (nodes s) c (foldl cperform nd e) Hnd Hd) as Hw end.
    rewrite w_cperform, He in Hw. unfold w_node in Hw. cbn [up down cqueue cl] in Hw.
    rewrite Hq, Hk in Hw. cbn [length] in Hw. lia.
Qed.

(** ** Counters *)

(** The client can number its requests when [m], a SERVER_READY, arrives. *)
Definition can_number (k : TC.client) (m : request) : Prop :=
  r_op m = TABLESERVER_OP_SERVER_READY ->
  reqids_left (if TC.last_reqid k =? TC.no_reqid then r_reqid m else TC.last_reqid k)
    (length (TC.waiting_for_reqid k)) = true.

Definition node_room (n : node) : Prop := Forall (can_number (cl n)) (down n).

(** The table's version and the clients' request ids have room for all that is
    to be done. *)
Definition room (s : sys (S := S)) : Prop :=
  sversion (srv s) + Z.of_nat (weight s) < 2 ^ 64 /\ forall c, c ∈ ranks -> node_room (nodes s c).

Definition not_ready (e : effect) : Prop :=
  match e with Send _ m => r_op m <> TABLESERVER_OP_SERVER_READY | _ => True end.

Lemma room_perform (s : sys (S := S)) e : Forall not_ready e ->
  (forall c, c ∈ ranks -> node_room (nodes s c)) ->
  forall c, c ∈ ranks -> node_room (nodes (foldl perform s e) c).
Proof.
  intros He. revert s. induction He as [|x e Hx He IH]; intros s Hs; [done|]. cbn [foldl]. apply IH.
  intros c Hc. destruct x as [to m|le fin|]; [|by apply Hs..]. cbn.
  destruct (Z.eqb_spec c to) as [->|]; [|by apply Hs]. specialize (Hs to Hc). unfold node_room in *. cbn.
  apply Forall_app. split; [done|]. apply Forall_singleton. by intros ?.
Qed.

Lemma server_not_ready c m sv sv' e : dispatch_server c m sv = Some (sv', e) -> Forall not_ready e.
Proof.
  unfold dispatch_server, handle_request. destruct (_ || _); [done|]. destruct (0 <=? r_op m); [|done].
  destruct (r_op m =? TABLESERVER_OP_QUERY).
  { destruct (handle_query _ _ _) as [[ts e']|] eqn:E; [|done]. intros [= _ <-].
    apply law_query in E as [_ ->]. constructor. }
  destruct (r_op m =? TABLESERVER_OP_PREPARE).
  { unfold handle_prepare. destruct (_prepare _ _ _ _) as [[? ?]|]; [|done]. cbn. intros [= _ <-]. by repeat constructor. }
  destruct (r_op m =? TABLESERVER_OP_COMMIT).
  { unfold handle_commit. destruct (map_find _ _).
    - cbn. destruct (_commit _ _ _) as [[b ?]|]; [|done]. cbn. destruct b; intros [= _ <-]; by repeat constructor.
    - destruct (_ <=? _); [|done]. cbn. intros [= _ <-]. by apply Forall_singleton. }
  destruct (r_op m =? TABLESERVER_OP_ROLLBACK); [|done].
  unfold handle_rollback. destruct (map_find _ _); [|done]. destruct (_rollback _ _); [|done]. cbn.
  intros [= _ <-]. by repeat constructor.
Qed.

Lemma srv_perform (s : sys (S := S)) e : srv (foldl perform s e) = srv s.
Proof. revert s. induction e as [|x e IH]; intros s; [done|]. cbn [foldl]. rewrite IH. by destruct x. Qed.

(** A delivery adds at most one to the table's version. *)
Lemma delivery_version s dsv e s' : inv sv0 ranks s dsv -> delivery e -> exec sv0 ranks e s = Next s' ->
  sversion (srv s') <= sversion (srv s) + 1.
Proof.
  intros Hi Hd H. destruct e as [| | |c|c| |c| | |]; try done; cbn [exec delivery] in *.
  - unfold exec_to_server in H. destruct (up (nodes s c)) as [|m l]; [done|].
    destruct (Z.ltb_spec (sversion (srv s) + 1) (2 ^ 64)) as [Hb|]; [|done].
    destruct (dispatch_server c m (srv s)) as [[sv e]|] eqn:E; [|done]. injection H as <-.
    rewrite srv_perform. cbn [set_srv srv]. unfold dispatch_server in E. destruct (_ || _); [done|].
    destruct (apply_step (ORequest c m) _ _ _ (v_srv _ _ _ _ Hi) Hb E) as [_ [[_ ->]|(le & _ & _ & -> & _)]]; lia.
  - unfold exec_to_client in H. destruct (down (nodes s c)); [done|]. repeat case_match; simplify_eq; cbn; lia.
  - unfold exec_flushed in H. destruct (queue s) as [|[le [f|]] q]; [done| |injection H as <-; cbn; lia].
    cbn [srv] in H. destruct (finish 0 f (srv s)); [|done]. injection H as <-. rewrite srv_perform. cbn. lia.
  - unfold exec_ack_flushed in H. repeat case_match; simplify_eq; cbn; lia.
Qed.

(** A client that is connected is not sent another SERVER_READY. *)
Lemma ready_room c n oP oD qm cm : ninv c n oP oD qm cm -> rdy n = true -> node_room n.
Proof.
  intros Hn Hr. pose proof (n_down _ _ _ _ _ _ Hn) as Hd. rewrite Hr in Hd.
  eapply Forall_impl; [exact Hd|]. by intros m Hm ?.
Qed.

Lemma room_nodes (s : sys (S := S)) dsv dsv' e s' :
  inv sv0 ranks s dsv -> inv sv0 ranks s' dsv' -> delivery e -> exec sv0 ranks e s = Next s' ->
  (forall c, c ∈ ranks -> node_room (nodes s c)) -> forall c, c ∈ ranks -> node_room (nodes s' c).
Proof.
  intros Hi Hi' Hd H Hs. destruct e as [| | |c0|c0| |c0| | |]; try done; cbn [exec delivery] in *.
  - unfold exec_to_server in H. destruct (up (nodes s c0)) as [|m l]; [done|]. destruct (_ <? _); [|done].
    destruct (dispatch_server c0 m (srv s)) as [[sv e]|] eqn:E; [|done]. injection H as <-.
    apply room_perform; [by eapply server_not_ready|]. intros c Hc. cbn.
    destruct (Z.eqb_spec c c0) as [->|]; by apply Hs.
  - unfold exec_to_client in H. destruct (down (nodes s c0)) as [|m l] eqn:Hdn; [done|]. destruct (_ && _); [done|].
    destruct (dispatch_client m (cl (nodes s c0))) as [[k e]|] eqn:E; [|done]. injection H as <-.
    intros c Hc. pose proof (v_node _ _ _ _ Hi' c Hc) as Hn. revert Hn. cbn [set_node nodes].
    destruct (Z.eqb_spec c c0) as [->|]; [|by intros; apply Hs]. intros Hn.
    apply client_weight in E as [_ [Hr|[Hl Hw]]].
    + eapply ready_room; [exact Hn|]. unfold rdy. by rewrite (proj1 (cl_cperform _ _)).
    + specialize (Hs c0 Hc). unfold node_room in *. destruct (cl_cperform (MkNode k (cjournal (nodes s c0))
        (cqueue (nodes s c0)) (up (nodes s c0)) l) e) as [-> ->]. cbn. rewrite Hdn in Hs.
      apply Forall_cons in Hs as [_ Hs]. eapply Forall_impl; [exact Hs|].
      intros m' Hm'. unfold can_number in *. by rewrite Hl, Hw.
  - unfold exec_flushed in H. destruct (queue s) as [|[le [f|]] q]; [done| |by injection H as <-].
    cbn [srv] in H. destruct (finish 0 f (srv s)) as [e|] eqn:E; [|done]. injection H as <-.
    apply room_perform; [|done]. destruct f; cbn in E; injection E as <-; by apply Forall_singleton.
  - unfold exec_ack_flushed in H. destruct (cqueue (nodes s c0)) as [|t q]; [done|].
    destruct (TC._logged_ack 0 t (cl (nodes s c0))) as [[k e]|] eqn:E; [|done]. injection H as <-.
    intros c Hc. cbn. destruct (Z.eqb_spec c c0) as [->|]; [|by apply Hs]. specialize (Hs c0 Hc). unfold node_room in *.
    destruct (cl_cperform (MkNode k (cjournal (nodes s c0) ++ [JAck (TC.MkAck (0, 0) TABLE_SNAP TABLESERVER_OP_ACK t)])
      q (up (nodes s c0)) (down (nodes s c0))) e) as [-> ->]. cbn.
    eapply Forall_impl; [exact Hs|]. intros m' Hm'. unfold TC._logged_ack in E. cbn in E.
    destruct (map_find _ _); by injection E as <- _.
Qed.

(** ** Progress *)

Definition idle (s : sys (S := S)) : Prop :=
  queue s = [] /\
  forall c, c ∈ ranks -> up (nodes s c) = [] /\ down (nodes s c) = [] /\ cqueue (nodes s c) = [].

Lemma room_step s dsv dsv' e s' :
  NoDup ranks -> inv sv0 ranks s dsv -> inv sv0 ranks s' dsv' -> delivery e -> exec sv0 ranks e s = Next s' ->
  room s -> room s'.
Proof.
  intros Hnd Hi Hi' Hd Hx [Hv Hn]. split; [|exact (room_nodes s dsv dsv' e s' Hi Hi' Hd Hx Hn)].
  pose proof (delivery_version _ _ _ _ Hi Hd Hx). pose proof (delivery_weight _ _ _ Hnd Hd Hx). lia.
Qed.

Lemma enabled s dsv e : NoDup ranks -> inv sv0 ranks s dsv -> delivery e -> exec sv0 ranks e s <> Disabled ->
  exists s', exec sv0 ranks e s = Next s'.
Proof.
  intros Hnd Hi Hd Hne. pose proof (exec_fine sv0 ranks s dsv e Hnd Hi (delivery_ok e Hd) (delivery_orderly e s Hd)) as Hf.
  destruct (exec sv0 ranks e s); [done|done|eauto].
Qed.

Lemma weight_up s c m l : NoDup ranks -> c ∈ ranks -> up (nodes s c) = m :: l -> (1 <= weight s)%nat.
Proof.
  intros Hnd Hc Hu. unfold weight.
  pose proof (w_nodes_set (nodes s) c (MkNode (TC.set_ready true TC.new_client) [] [] [] []) Hnd Hc) as H.
  change (w_node (MkNode (TC.set_ready true TC.new_client) [] [] [] [])) with 0%nat in H.
  unfold w_node in H. rewrite Hu, w_list_cons in H.
  assert (2 <= w_up m)%nat by (unfold w_up; repeat case_match; lia). lia.
Qed.

(** Where something is on its way, something can be delivered. *)
Lemma progress s dsv : NoDup ranks -> inv sv0 ranks s dsv -> room s ->
  idle s \/ exists e s', delivery e /\ exec sv0 ranks e s = Next s'.
Proof.
  intros Hnd Hi [Hv Hn].
  assert (Hgo : forall e, delivery e -> exec sv0 ranks e s <> Disabled ->
    idle s \/ exists e s', delivery e /\ exec sv0 ranks e s = Next s').
  { intros e Hd Hne. destruct (enabled s dsv e Hnd Hi Hd Hne). eauto. }
  destruct (queue s) as [|[le fin] q] eqn:Hq.
  2: { apply (Hgo Flushed); [done|]. cbn. unfold exec_flushed. rewrite Hq. destruct fin; [|done]. by case_match. }
  destruct (decide (Exists (fun c => up (nodes s c) <> []) ranks)) as [(c & Hc & Hne)%Exists_exists|Hu].
  { apply (Hgo (ToServer c)); [done|]. cbn. unfold exec_to_server. destruct (up (nodes s c)) as [|m l] eqn:E; [done|].
    pose proof (weight_up s c m l Hnd Hc E). rewrite (proj2 (Z.ltb_lt _ _)) by lia. by repeat case_match. }
  destruct (decide (Exists (fun c => down (nodes s c) <> []) ranks)) as [(c & Hc & Hne)%Exists_exists|Hd].
  { apply (Hgo (ToClient c)); [done|]. cbn. unfold exec_to_client. destruct (down (nodes s c)) as [|m l] eqn:E; [done|].
    specialize (Hn c Hc). unfold node_room in Hn. rewrite E in Hn. apply Forall_cons in Hn as [Hm _].
    destruct (Z.eqb_spec (r_op m) TABLESERVER_OP_SERVER_READY) as [Ho|_]; [rewrite (Hm Ho)|]; cbn [negb andb];
      by repeat case_match. }
  destruct (decide (Exists (fun c => cqueue (nodes s c) <> []) ranks)) as [(c & Hc & Hne)%Exists_exists|Hk].
  { apply (Hgo (AckFlushed c)); [done|]. cbn. unfold exec_ack_flushed. destruct (cqueue (nodes s c)) as [|t l]; [done|].
    by repeat case_match. }
  left. split; [done|]. intros c Hc.
  split_and!; apply dec_stable; intros Hne; [apply Hu|apply Hd|apply Hk]; apply Exists_exists; eauto.
Qed.

Lemma delivery_run l s s' : NoDup ranks -> Forall delivery l -> exec_all sv0 ranks l s = Next s' ->
  (length l + weight s' <= weight s)%nat.
Proof.
  intros Hnd Hl. revert s. induction Hl as [|e l Hd Hl IH]; intros s; cbn [exec_all length].
  { intros [= ->]. lia. }
  destruct (exec sv0 ranks e s) as [| |s1] eqn:E; [done..|]. intros H%IH.
  pose proof (delivery_weight _ _ _ Hnd Hd E). lia.
Qed.

(** C11: from every state that a run with [orderly] restarts reaches, with room
    in its counters, delivering what is on its way brings the system to rest,
    with every channel and every queue empty; and in whatever order the
    deliveries are made, there are at most [weight s] of them before there are
    none left. *)
Theorem delivery_settles s :
  started sv0 ranks -> orderly_reachable sv0 ranks s -> room s ->
  (exists l s', Forall delivery l /\ exec_all sv0 ranks l s = Next s' /\ orderly_reachable sv0 ranks s' /\ idle s') /\
  (forall l s', Forall delivery l -> exec_all sv0 ranks l s = Next s' -> (length l <= weight s)%nat).
Proof.
  intros Hs Hr Hroom. pose proof (proj2 (proj2 Hs)) as Hnd. split.
  2: { intros l s' Hl Hx. pose proof (delivery_run l s s' Hnd Hl Hx). lia. }
  remember (weight s) as w eqn:Hw. revert s Hw Hr Hroom.
  induction (lt_wf w) as [w _ IH]. intros s -> Hr Hroom. destruct (reachable_inv _ _ s Hs Hr) as [dsv Hi].
  destruct (progress s dsv Hnd Hi Hroom) as [Hidle|(e & s1 & Hd & Hx)].
  { exists [], s. by split_and!. }
  assert (Hr1 : orderly_reachable sv0 ranks s1) by (eapply reach_step; [done|by apply delivery_ok|by apply delivery_orderly|done]).
  destruct (reachable_inv _ _ s1 Hs Hr1) as [dsv1 Hi1].
  destruct (IH (weight s1) (delivery_weight _ _ _ Hnd Hd Hx) s1 eq_refl Hr1) as (l & s' & Hl & Hall & Hr' & Hidle).
  { by eapply (room_step s dsv). }
  exists (e :: l), s'. split_and!; [by constructor| |done|done]. cbn [exec_all]. by rewrite Hx.
Qed.

End System.

End TableLiveness.
