(* ===== verification/SnapProtocol.v ===== *)
(** * The snapshot table under the two-phase protocol

    The theorems of the protocol at the one table that uses it, [SnapServer]:
    a cluster of two ranks that creates, renames and destroys snapshots while the
    server crashes and a client restarts.  The last section has runs in which a
    client restarts while the server still has entries on their way to disk,
    which the protocol does not survive. *)

From S2P Require Import Prelude Encoding IntervalSet MDSTable TableServer TableClient SnapServer.
From S2P Require Import SnapTable SnapTypes TableProtocol TableSafety TableAgreement TableLiveness.
Import Encoding MDSTable TableServer ServerFacts SnapServer SnapFacts SnapTable SnapTypes.
Import TableProtocol TableSafety TableAgreement TableLiveness.

Module SnapProtocol.

(** ** A cluster *)

(** Pool 1 has removed snapshot 2; pool 2 has removed nothing. *)
Definition env0 : env :=
  MkEnv [1; 2] [(1, MkPool [] (IntervalSet.Mk 1 [(2, 1)]) 4); (2, MkPool [] (IntervalSet.Mk 0 []) 0)].

#[local] Instance cluster_ops : TableServerOps snap := snap_ops (Some env0).
#[local] Instance cluster_laws : TableServerLaws snap := snap_laws env0.

Definition table0 : table := MkTable false 0 STATE_ACTIVE 1 0 0 1 [].
Definition snap0 : snap := MkSnap 3 [] [] [] [] [] 0.
Definition sv0 : server snap := MkServer TABLE_SNAP table0 snap0 [].
Definition ranks0 : list Z := [0; 1].

Lemma in0 : 0 ∈ ranks0.
Proof. left. Qed.
Lemma in1 : 1 ∈ ranks0.
Proof. right. left. Qed.
#[local] Hint Resolve in0 in1 : core.

Lemma snap0_reset : reset_state (Some env0) new_snap = Some snap0.
Proof. reflexivity. Qed.

Lemma sv0_ok : server_ok sv0.
Proof. split; cbn; done. Qed.

Lemma cluster_started : started sv0 ranks0.
Proof. split; [apply sv0_ok|]. split; [done|]. repeat constructor; set_solver. Qed.

Definition mk (nm : Z) : TableClient.update := TableClient.Create 1099511627776 [nm] (1700000000, 5).

(** [Prepare] of an update; the answer goes to the places named 0 and 1. *)
Definition ask (c : Z) (u : TableClient.update) : event :=
  Prepare c (TableClient.update_bytes u) 0 (Some 1%nat) (Some 2%nat).

Definition final (o : outcome (S := snap)) : sys := match o with Next s => s | _ => start sv0 ranks0 end.
Definition is_next (o : outcome (S := snap)) : bool := match o with Next _ => true | _ => false end.

Lemma final_next o : is_next o = true -> o = Next (final o).
Proof. by destruct o. Qed.

Definition after (l : list event) : sys := final (exec_all sv0 ranks0 l (start sv0 ranks0)).

(** The run goes through and its restarts are orderly. *)
Fixpoint orderly_run (l : list event) (s : sys (S := snap)) : bool :=
  match l with
  | [] => true
  | e :: l => orderly e s && match exec sv0 ranks0 e s with Next s => orderly_run l s | _ => false end
  end.

Lemma run_reachable l s :
  Forall (event_ok ranks0) l -> orderly_reachable sv0 ranks0 s -> orderly_run l s = true ->
  orderly_reachable sv0 ranks0 (final (exec_all sv0 ranks0 l s)).
Proof.
  intros Hl. revert s. induction Hl as [|e l He Hl IH]; intros s Hs; [done|].
  cbn [exec_all orderly_run]. intros [Ho Hx]%andb_prop.
  destruct (exec sv0 ranks0 e s) eqn:E; [done..|]. apply IH; [|done]. by eapply reach_step.
Qed.

Lemma after_reachable l :
  Forall (event_ok ranks0) l -> orderly_run l (start sv0 ranks0) = true ->
  orderly_reachable sv0 ranks0 (after l).
Proof. intros Hl. apply run_reachable; [done|constructor]. Qed.

(** Both clients connect; client 1 creates a snapshot, and client 0 one that the
    server's crash interrupts. *)
Definition connect : list event := [ToClient 0; ToClient 1].
Definition create1 : list event :=
  [ask 1 (mk 97); ToServer 1; Flushed; ToClient 1; Journal 1 2; Commit 1 2 0; ToServer 1].
Definition crash : list event := [ask 0 (mk 98); ToServer 0; ServerCrash].
Definition recover : list event :=
  [ToClient 0; ToClient 1; ToClient 1; ToServer 0; ToServer 1; Flushed; Flushed; ToClient 0; ToClient 1;
   AckFlushed 1].

Lemma mk_ok nm : update_ok (mk nm).
Proof. cbn. lia. Qed.

Lemma ask_ok c u : c ∈ ranks0 -> update_ok u -> event_ok ranks0 (ask c u).
Proof. intros Hc Hu. split; [done|]. by exists u. Qed.

(** [events] checks the events of a run. *)
Ltac events :=
  unfold connect, create1, crash, recover; cbn [app];
  repeat match goal with
  | |- Forall _ (ask _ (mk _) :: _) => apply Forall_cons_2; [apply ask_ok; [first [exact in0 | exact in1]|apply mk_ok]|]
  | |- Forall _ (_ :: _) => apply Forall_cons_2; [first [exact in0 | exact in1 | exact I]|]
  | |- Forall _ [] => apply Forall_nil_2
  end.

Lemma crash_reachable : orderly_reachable sv0 ranks0 (after (connect ++ create1 ++ crash)).
Proof.
  apply after_reachable; [events|by vm_compute].
Qed.

Lemma create_reachable : orderly_reachable sv0 ranks0 (after (connect ++ create1)).
Proof.
  apply after_reachable; [events|by vm_compute].
Qed.

(** Client 0 restarts while client 1's COMMIT waits for the server's disk. *)
Lemma protocol_never_aborts_witness :
  length (queue (after (connect ++ create1))) = 1%nat /\
  exec sv0 ranks0 (Restart 0) (after (connect ++ create1)) <> Aborted.
Proof.
  split; [vm_compute; reflexivity|].
  apply (protocol_never_aborts sv0 ranks0 (after (connect ++ create1)) (Restart 0)).
  - apply cluster_started.
  - apply create_reachable.
  - exact in0.
  - vm_compute. reflexivity.
Defined.

Definition whole : list event := connect ++ create1 ++ crash ++ recover.

Lemma whole_reachable : orderly_reachable sv0 ranks0 (after whole).
Proof. apply after_reachable; [unfold whole; events|by vm_compute]. Qed.

(** Client 1's snapshot is committed, client 0's is prepared. *)
Lemma protocol_agreement_witness :
  in_journal TABLESERVER_OP_COMMIT (server_journal (after whole)) 2 = true /\
  (exists c, c ∈ ranks0 /\ JAgree 2 ∈ cjournal (nodes (after whole) c)) /\
  (exists a, JAck a ∈ cjournal (nodes (after whole) 1) /\ TC.a_tid a = 2) /\
  in_journal TABLESERVER_OP_COMMIT (durable (after whole)) 2 = true.
Proof.
  destruct (protocol_agreement sv0 ranks0 (after whole) cluster_started whole_reachable) as (H1 & _ & H3).
  assert (Hj : in_journal TABLESERVER_OP_COMMIT (server_journal (after whole)) 2 = true) by (vm_compute; reflexivity).
  assert (Ha : exists a, JAck a ∈ cjournal (nodes (after whole) 1) /\ TC.a_tid a = 2).
  { exists (TC.MkAck (0, 0) TABLE_SNAP TABLESERVER_OP_ACK 2). split; [|reflexivity].
    replace (cjournal (nodes (after whole) 1))
      with [JAgree 2; JAck (TC.MkAck (0, 0) TABLE_SNAP TABLESERVER_OP_ACK 2)] by (vm_compute; reflexivity).
    right. left. }
  split_and!; [exact Hj|exact (H1 2 Hj)|exact Ha|]. exact (H3 1 2 in1 (or_intror Ha)).
Defined.

Lemma whole_idle :
  queue (after whole) = [] /\ forall c, c ∈ ranks0 -> up (nodes (after whole) c) = [] /\ down (nodes (after whole) c) = [].
Proof.
  split; [vm_compute; reflexivity|]. intros c Hc.
  apply elem_of_cons in Hc as [->|Hc]; [split; vm_compute; reflexivity|].
  apply list_elem_of_singleton in Hc as ->. split; vm_compute; reflexivity.
Qed.

Lemma protocol_settles_witness :
  map_find (TC.prepared_update (cl (nodes (after whole) 0))) 3 = Some 1 /\
  (exists p, map_find (pending_for_mds (srv (after whole))) 3 = Some p /\ p_mds p = 0 /\ p_reqid p = 1) /\
  TC.pending_commit (cl (nodes (after whole) 1)) = [].
Proof.
  pose proof (protocol_settles sv0 ranks0 (after whole) cluster_started whole_reachable whole_idle) as H.
  assert (Hp : map_find (TC.prepared_update (cl (nodes (after whole) 0))) 3 = Some 1) by (vm_compute; reflexivity).
  split_and!; [exact Hp| |].
  - destruct (H 0 in0) as (_ & _ & _ & _ & Hu & _). exact (proj1 (Hu 3 1) Hp).
  - destruct (H 1 in1) as (_ & _ & _ & Hc & _). exact Hc.
Defined.

Lemma crash_room : room ranks0 (after (connect ++ create1 ++ crash)).
Proof.
  split; [vm_compute; reflexivity|]. intros c Hc. apply elem_of_cons in Hc as [->|Hc].
  - replace (nodes (after (connect ++ create1 ++ crash)) 0) with
      (MkNode (cl (nodes (after (connect ++ create1 ++ crash)) 0)) [] [] []
        [MkReq TABLE_SNAP TABLESERVER_OP_SERVER_READY 0 0 []]) by (vm_compute; reflexivity).
    apply Forall_singleton. intros _. vm_compute. reflexivity.
  - apply list_elem_of_singleton in Hc as ->.
    replace (nodes (after (connect ++ create1 ++ crash)) 1) with
      (MkNode (cl (nodes (after (connect ++ create1 ++ crash)) 1)) [JAgree 2] [] []
        [MkReq TABLE_SNAP TABLESERVER_OP_AGREE 1 2 []; MkReq TABLE_SNAP TABLESERVER_OP_SERVER_READY 2 0 []])
      by (vm_compute; reflexivity).
    apply Forall_cons. split; [by intros ?|]. apply Forall_singleton. intros _. vm_compute. reflexivity.
Qed.

(** The ten deliveries of [recover] are within the weight after the crash. *)
Lemma delivery_settles_witness :
  (exists l s', Forall (delivery ranks0) l /\ exec_all sv0 ranks0 l (after (connect ++ create1 ++ crash)) = Next s' /\
     idle ranks0 s') /\
  (length recover <= weight ranks0 (after (connect ++ create1 ++ crash)))%nat.
Proof.
  destruct (delivery_settles sv0 ranks0 (after (connect ++ create1 ++ crash)) cluster_started crash_reachable crash_room)
    as [(l & s' & Hl & Hx & _ & Hi) Hw]. split.
  - exists l, s'. split_and!; assumption.
  - apply (Hw recover (final (exec_all sv0 ranks0 recover (after (connect ++ create1 ++ crash))))).
    + unfold recover. repeat (apply Forall_cons_2; [first [exact in0 | exact in1 | exact I]|]). apply Forall_nil_2.
    + apply final_next. vm_compute. reflexivity.
Defined.

(** ** The server alone *)

Definition commit_req (tid : Z) : request := MkReq TABLE_SNAP TABLESERVER_OP_COMMIT 0 tid [].
Definition prepare_req (r : Z) (u : TableClient.update) : request :=
  MkReq TABLE_SNAP TABLESERVER_OP_PREPARE r 0 (TableClient.update_bytes u).

Lemma handle_request_aborts_witness : handle_request 0 1 (commit_req 9) sv0 = None.
Proof.
  apply (proj2 (handle_request_aborts sv0 1 (commit_req 9) sv0_ok ltac:(vm_compute; reflexivity))).
  vm_compute. reflexivity.
Defined.

(** A snapshot is created, the table saved; another is created and the first
    destroyed. *)
Definition ops1 : list op := [ORequest 1 (prepare_req 1 (mk 97)); ORequest 1 (commit_req 2)].
Definition ops2 : list op :=
  [ORequest 0 (prepare_req 1 (mk 98)); ORequest 0 (commit_req 4);
   ORequest 1 (prepare_req 2 (TableClient.Destroy 1099511627776 4)); ORequest 1 (commit_req 6)].

Definition ran (l : list op) (sv : server snap) : server snap * list entry :=
  match run l sv with Some r => r | None => (sv, []) end.
Definition sv1 : server snap := (ran ops1 sv0).1.
Definition sv2 : server snap := (ran ops2 sv1).1.

Definition info1 : SnapInfo := MkInfo 4 1099511627776 (1700000000, 5) [97] [].

Lemma sv1_state : st sv1 = MkSnap 4 [(4, info1)] [] [] [] [] 0 /\ pending_for_mds sv1 = [].
Proof. vm_compute. split; reflexivity. Qed.

Lemma sv1_storable : snap_storable (st sv1) /\ pending_storable (pending_for_mds sv1).
Proof.
  destruct sv1_state as [-> ->]. split; [|split; [cbn; lia|constructor]].
  assert (Hnil : forall V lo hi (P : V -> Prop), map_storable lo hi P []).
  { intros. split_and!; [cbn; lia|done|constructor]. }
  split; cbn [last_snap snaps need_to_purge pending_update pending_destroy pending_noop]; try apply Hnil; [lia| |].
  - split; [cbn; lia|]. split; [cbn; lia|]. apply Forall_singleton. unfold info_storable. cbn. lia.
  - vm_compute. reflexivity.
Qed.

Lemma recovery_rebuilds_server_witness :
  exists t1 s p eff sv3 tablev bl,
    load_2 0 bl None (set_state STATE_OPENING (new_table false 0)) = Some (t1, Some (s, p), eff) /\
    replay_all ((ran ops1 sv0).2 ++ (ran ops2 sv1).2) ([], MkServer TABLE_SNAP t1 s p) = Some (tablev, sv3) /\
    same sv2 sv3 /\ has (snaps (st sv3)) 5 = true /\ has (snaps (st sv3)) 4 = false.
Proof.
  destruct (recovery_rebuilds_server sv0 ops1 ops2 sv1 sv2 (ran ops1 sv0).2 (ran ops2 sv1).2 None 0
    (set_committing (version (base sv1)) (base sv1))
    (encode_u64 (version (base sv1)) ++ encode_state (st sv1, pending_for_mds sv1)) (version (base sv1))
    (set_state STATE_OPENING (new_table false 0)) None []) as (t1 & s & p & eff & sv3 & tablev & H1 & H2 & H3).
  - apply sv0_ok.
  - vm_compute. reflexivity.
  - vm_compute. reflexivity.
  - vm_compute. reflexivity.
  - apply sv1_storable.
  - apply sv1_storable.
  - vm_compute. reflexivity.
  - reflexivity.
  - eexists t1, s, p, eff, sv3, tablev, _. split; [exact H1|]. split; [exact H2|]. split; [exact H3|].
    pose proof (same_state _ _ H3) as (_ & E & _)%equiv_fields.
    assert (Hh : forall k, has (snaps (st sv3)) k = has (map_vals clear_long (snaps (st sv3))) k).
    { intros k. unfold has. rewrite map_find_vals. by destruct (map_find _ _). }
    rewrite !Hh, <- E. split; vm_compute; reflexivity.
Defined.

(** Snapshot 4 is destroyed and is to be purged, with the number 6 its
    destruction took; pool 1 has removed 4, and pool 2 is gone. *)
Definition env1 : env := MkEnv [1] [(1, MkPool [] (IntervalSet.Mk 1 [(4, 1)]) 4)].

Definition purge2 : list (Z * zset) := [(1, [(4, tt); (6, tt)]); (2, [(4, tt); (6, tt)])].

Lemma sv2_state :
  st sv2 = MkSnap 6 [(5, MkInfo 5 1099511627776 (1700000000, 5) [98] [])] purge2 [] [] [] 0 /\
  pending_for_mds sv2 = [] /\ sversion sv2 = 7 /\ tab sv2 = TABLE_SNAP.
Proof. vm_compute. split_and!; reflexivity. Qed.

Lemma quiet_ok e sv :
  tab sv = TABLE_SNAP -> 0 <= sversion sv < 2 ^ 64 -> pending_for_mds sv = [] ->
  pending_update (st sv) = [] -> pending_destroy (st sv) = [] -> pending_noop (st sv) = [] ->
  server_ok (laws := snap_laws e) sv.
Proof.
  intros Ht Hv Hp H1 H2 H3. split; try done.
  - split; rewrite ?H1, ?H2, ?H3; cbn; try done. lia.
  - by rewrite Hp.
  - intros x. cbn. unfold snap_prepared. by rewrite Hp, H1, H2, H3.
  - intros x p. by rewrite Hp.
Qed.

Lemma sv2_ok : server_ok (laws := snap_laws env1) sv2.
Proof.
  destruct sv2_state as (E1 & E2 & E3 & E4).
  apply quiet_ok; [exact E4|rewrite E3; lia|exact E2|rewrite E1; reflexivity..].
Qed.

Lemma purge2_storable : map_storable (- 2 ^ 31) (2 ^ 31) set_storable (need_to_purge (st sv2)).
Proof.
  destruct sv2_state as [-> _]. cbn [need_to_purge].
  assert (Hs : set_storable [(4, tt); (6, tt)]).
  { split; [cbn; lia|]. split; [cbn; lia|]. apply Forall_cons_2; [cbn; lia|]. apply Forall_singleton. cbn. lia. }
  split; [cbn; lia|]. split; [cbn; lia|]. apply Forall_cons_2; [split; [cbn; lia|exact Hs]|].
  apply Forall_singleton. split; [cbn; lia|exact Hs].
Qed.

Lemma check_osd_map_correct_witness :
  exists sv' eff ask, check_osd_map env1 false sv2 = Some (sv', eff, ask) /\
    member (need_to_purge (st sv')) 1 6 = true /\ member (need_to_purge (st sv')) 2 6 = false /\
    exists l, (1, l) ∈ ask /\ 6 ∈ l.
Proof.
  destruct (check_osd_map_correct env1 false sv2 sv2_ok) as (sv' & eff & ask & H1 & H2 & H3 & _).
  - vm_compute. reflexivity.
  - apply purge2_storable.
  - right. vm_compute. discriminate.
  - exists sv', eff, ask. split_and!; [exact H1|apply H2; vm_compute; split; reflexivity| |apply H3; vm_compute; split; reflexivity].
    destruct (member (need_to_purge (st sv')) 2 6) eqn:E; [|reflexivity].
    apply H2 in E as [_ E]. vm_compute in E. discriminate.
Defined.

(** The states on the way to [sv2]. *)
Definition upto (n : nat) : server snap := (ran (firstn n (ops1 ++ ops2)) sv0).1.

Lemma upto_step n from req :
  (ops1 ++ ops2) !! n = Some (ORequest from req) ->
  (r_op req = TABLESERVER_OP_PREPARE -> last_snap (st (upto n)) + 1 < 2 ^ 64 /\
     exists u, r_bl req = TableClient.update_bytes u /\ update_ok u /\ disciplined u (st (upto n))) ->
  (exists eff, handle_request 0 from req (upto n) = Some (upto (Datatypes.S n), eff)) ->
  managed env0 (upto n) -> managed env0 (upto (Datatypes.S n)).
Proof. intros _ Hp [eff Hx] Hm. by eapply managed_request. Qed.

Lemma sv2_managed : managed env0 sv2.
Proof.
  assert (sv2 = upto 6) as -> by (vm_compute; reflexivity).
  assert (Hc : forall u s, match u with TableClient.Create _ _ _ => True | _ => False end -> disciplined u s)
    by (intros []; done).
  eapply upto_step; [reflexivity|done|eexists; vm_compute; reflexivity|].
  eapply upto_step; [reflexivity| |eexists; vm_compute; reflexivity|].
  { intros _. split; [vm_compute; reflexivity|]. exists (TableClient.Destroy 1099511627776 4).
    split; [reflexivity|]. split; [cbn; lia|]. split; [vm_compute; reflexivity|].
    assert (E : pending_update (st (upto 4)) = []) by (vm_compute; reflexivity).
    intros (t & i & Hf & _). rewrite E in Hf. discriminate. }
  eapply upto_step; [reflexivity|done|eexists; vm_compute; reflexivity|].
  eapply upto_step; [reflexivity| |eexists; vm_compute; reflexivity|].
  { intros _. split; [vm_compute; reflexivity|]. exists (mk 98). split; [reflexivity|]. split; [apply mk_ok|by apply Hc]. }
  eapply upto_step; [reflexivity|done|eexists; vm_compute; reflexivity|].
  eapply upto_step; [reflexivity| |eexists; vm_compute; reflexivity|].
  { intros _. split; [vm_compute; reflexivity|]. exists (mk 97). split; [reflexivity|]. split; [apply mk_ok|by apply Hc]. }
  by eapply managed_new; [apply snap0_reset|..].
Qed.

Lemma purge_never_live_witness :
  exists sv' eff ask l, check_osd_map env1 false sv2 = Some (sv', eff, ask) /\ (1, l) ∈ ask /\ 6 ∈ l /\
    has (snaps (st sv2)) 6 = false.
Proof.
  assert (E : exists sv' eff, check_osd_map env1 false sv2 = Some (sv', eff, [(1, [6])]))
    by (eexists _, _; vm_compute; reflexivity).
  destruct E as (sv' & eff & E). exists sv', eff, [(1, [6])], [6].
  destruct (purge_never_live env0 sv2 sv2_managed) as [H _].
  assert (H1 : (1, [6]) ∈ [(1, [6])]) by left. assert (H2 : 6 ∈ [6]) by left.
  split_and!; [exact E|exact H1|exact H2|]. exact (proj1 (H env1 false sv' eff _ 1 [6] 6 E H1 H2)).
Defined.

(** ** Types and round trips *)

Lemma sv1_typed : server_typed sv1.
Proof.
  destruct sv1_state as [E1 E2]. split.
  - vm_compute. split; congruence.
  - vm_compute. split; congruence.
  - rewrite E1. split; cbn [last_snap snaps need_to_purge pending_update pending_destroy pending_noop];
      try apply Forall_nil_2; [unfold is_u64; lia|].
    apply Forall_singleton. unfold info_typed, info1, is_u64, is_u32.
    cbn [fst snd snapid ino stamp name]. split_and!; try lia. split; [apply Forall_singleton; lia|cbn; lia].
  - rewrite E2. constructor.
Qed.

Definition destroy_req : request := prepare_req 2 (TableClient.Destroy 1099511627776 4).

Lemma destroy_req_typed : request_typed destroy_req.
Proof.
  unfold request_typed, is_u16, is_s16, is_u64. split_and!; try (vm_compute; congruence).
  unfold destroy_req, prepare_req. cbn [r_bl]. split; [|vm_compute; reflexivity]. repeat (apply Forall_cons_2; [vm_compute; split; congruence|]).
  apply Forall_nil_2.
Qed.

Lemma apply_typed_witness :
  exists sv' eff, apply (ORequest 1 destroy_req) sv1 = Some (sv', eff) /\ server_typed sv' /\ Forall effect_typed eff.
Proof.
  assert (E : exists sv' eff, apply (ORequest 1 destroy_req) sv1 = Some (sv', eff))
    by (eexists _, _; vm_compute; reflexivity).
  destruct E as (sv' & eff & E). exists sv', eff. split; [exact E|].
  destruct (apply_typed env0 (ORequest 1 destroy_req) sv1 sv' eff sv1_typed) as (H1 & H2 & _).
  - split; [unfold is_s32; lia|]. exists 0, (encode_payload destroy_req), []. split; [unfold is_u64; lia|].
    split; [|vm_compute; reflexivity].
    repeat (apply Forall_cons_2; [vm_compute; split; congruence|]). apply Forall_nil_2.
  - exact E.
  - split; assumption.
Defined.

Lemma table_roundtrip_witness :
  let le := MkEntry (1700000000, 5) TABLE_SNAP TABLESERVER_OP_COMMIT 0 MDS_RANK_NONE [] 2 4 in
  decode_payload 0 (encode_payload destroy_req ++ [7]) = Some (destroy_req, [7]) /\
  decode_entry (0, 0) (encode_entry le ++ [7]) = Some (le, [7]).
Proof.
  apply (table_roundtrip destroy_req (MkEntry (1700000000, 5) TABLE_SNAP TABLESERVER_OP_COMMIT 0 MDS_RANK_NONE [] 2 4) (0, 0) [7]).
  - apply destroy_req_typed.
  - unfold entry_typed, is_u16, is_s16, is_u64, is_u32, is_s32. 
    split_and!; try (vm_compute; congruence). split; [apply Forall_nil_2|vm_compute; reflexivity].
  - cbn. lia.
Defined.

(** ** Restarts that are not orderly

    The server still has an entry about the client's update on its way to disk
    when it hears of the client's recovery. *)

(** Client 1's PREPARE is noted and not on disk when it restarts.  It is sent an
    AGREE in recovery, which it answers with ROLLBACK, and another when the entry
    is on disk, which fails its assertion. *)
Example restart_before_prepare_is_on_disk :
  exec_all sv0 ranks0
    (connect ++ [ask 1 (mk 97); ToServer 1; Restart 1; ToClient 1; ToClient 1; Flushed; ToClient 1])
    (start sv0 ranks0) = Aborted.
Proof. vm_compute. reflexivity. Qed.

(** Client 1's COMMIT is not on disk when it restarts and sends it again; the
    server acknowledges it at once, crashes before the entry is on disk, and
    rolls back the update that the client has journalled as committed. *)
Example commit_acknowledged_and_lost :
  let s := after (connect ++ create1 ++
    [Restart 1; ToClient 1; ToServer 1; ToClient 1; AckFlushed 1; ServerCrash; ToClient 1; ToServer 1; Flushed]) in
  in_journal TABLESERVER_OP_ROLLBACK (durable s) 2 = true /\
  in_journal TABLESERVER_OP_COMMIT (durable s) 2 = false /\
  cjournal (nodes s 1) = [JAgree 2; JAck (TC.MkAck (0, 0) TABLE_SNAP TABLESERVER_OP_ACK 2)].
Proof. vm_compute. split_and!; reflexivity. Qed.

(** Client 1 prepares snapshot 97, restarts, rolls it back and restarts again
    before the ROLLBACK is on disk.  The second SERVER_READY does not count the
    request that is being rolled back, so the client gives its number to
    snapshot 98; the server crashes, and its AGREE for 97 is taken for the
    answer to 98. *)
Example rollback_lost_swaps_updates :
  let s := after (connect ++
    [ask 1 (mk 97); ToServer 1; Flushed; Restart 1; ToClient 1; ToClient 1; ToServer 1;
     Restart 1; ToClient 1; ask 1 (mk 98); ServerCrash]) in
  map (fun kp => TC.mutation kp.2) (TC.pending_prepare (cl (nodes s 1))) = [TableClient.update_bytes (mk 98)] /\
  match exec sv0 ranks0 (ToClient 1) s with
  | Next s =>
      TC.prepared_update (cl (nodes s 1)) = [(2, 1)] /\
      map (fun kp => name kp.2) (pending_update (st (srv s))) = [[97]]
  | _ => False
  end.
Proof. vm_compute. split_and!; reflexivity. Qed.

(** The AGREE of a recovery has an empty buffer: the caller, which decodes the id
    of its snapshot from it, finds nothing. *)
Example recovery_agree_has_no_snapid :
  let s := after (connect ++ [ask 1 (mk 97); ToServer 1; Flushed; ServerCrash]) in
  match down (nodes s 1) with
  | m :: _ => match dispatch_client m (cl (nodes s 1)) with
              | Some (_, e) => e = [TC.SetTid 0 2; TC.SetBl 1 []; TC.Finish 2] /\ decode_u64 (r_bl m) = None
              | None => False
              end
  | [] => False
  end.
Proof. vm_compute. split; reflexivity. Qed.

End SnapProtocol.
