(* ===== verification/InoTable.v ===== *)
(** * InoTable, src/mds/InoTable.h and InoTable.cc

    The table of free inode numbers of one MDS rank, on top of [MDSTable] and
    [interval_set].  An allocation or a release is projected when a request is
    prepared, journalled, and applied when the journal entry is safe; a daemon
    that takes over replays the journal on the table it loads.

    After the operations: one pending operation on one set ([op], [on_set]),
    the pipeline of projected and applied operations as a step relation, and
    the theorems: applying never aborts and converges to the projection, no
    inode number is handed out twice, and ranks never share one.  Journal
    entries, saving and recovery are in [InoRecovery]. *)

From S2P Require Import Prelude Encoding IntervalSet MDSTable.
Import Encoding IntervalSet MDSTable.

Module InoTable.

Record ino_table := MkIno {
  base : table;
  free : interval_set;
  projected_free : interval_set
}.

Definition set_base (b : table) (t : ino_table) : ino_table :=
  MkIno b (free t) (projected_free t).

Definition reset_state_free (r : Z) (fr : interval_set) : option interval_set :=
  let fr := clear fr in
  let start := u64 (Z.shiftl (u64 (s32 (r + 1))) 40) in
  let len := u64 (Z.shiftl 1 40) in
  insert fr start len.
#[global] Arguments reset_state_free : simpl never.

(** ** Allocation and release *)

Definition project_alloc_id (id : Z) (t : ino_table) : option (Z * ino_table) :=
  assert! is_active (base t);
  id ← (if id =? 0 then range_start (projected_free t) else Some id);
  pf ← erase_one (projected_free t) id;
  Some (id, MkIno (inc_projected (base t)) (free t) pf).

Definition apply_alloc_id (id : Z) (t : ino_table) : option ino_table :=
  fr ← erase_one (free t) id;
  Some (MkIno (inc_version (base t)) fr (projected_free t)).

(** The body of [while (want > 0)]; [want] bounds the number of rounds. *)
Fixpoint alloc_loop (fuel : nat) (ids pf : interval_set) (want : Z)
  : option (interval_set * interval_set) :=
  match fuel with
  | O => if 0 <? want then None else Some (ids, pf)
  | S fuel =>
      if 0 <? want then
        start ← range_start pf;
        en ← end_after pf start;
        let num := en -u64 start in
        let num := if u64 want <? num then u64 want else num in
        pf ← erase pf start num;
        ids ← insert ids start num;
        alloc_loop fuel ids pf (s32 (u64 want -u64 num))
      else Some (ids, pf)
  end.

Definition project_alloc_ids (ids : interval_set) (want : Z) (t : ino_table)
  : option (interval_set * ino_table) :=
  assert! is_active (base t);
  '(ids, pf) ← alloc_loop (Z.to_nat want) ids (projected_free t) want;
  Some (ids, MkIno (inc_projected (base t)) (free t) pf).

Definition apply_alloc_ids (ids : interval_set) (t : ino_table) : option ino_table :=
  fr ← subtract (free t) ids;
  Some (MkIno (inc_version (base t)) fr (projected_free t)).

Definition project_release_ids (ids : interval_set) (t : ino_table) : option ino_table :=
  pf ← insert_set (projected_free t) ids;
  Some (MkIno (inc_projected (base t)) (free t) pf).

Definition apply_release_ids (ids : interval_set) (t : ino_table) : option ino_table :=
  fr ← insert_set (free t) ids;
  Some (MkIno (inc_version (base t)) fr (projected_free t)).

(** ** Journal replay *)

(** An entry that does not match the table is reported to the cluster log and
    the part that does match is applied; the flag says it was reported. *)
Definition replay_alloc_id (id : Z) (t : ino_table) : option (ino_table * bool) :=
  if contains (free t) id then
    fr ← erase_one (free t) id;
    pf ← erase_one (projected_free t) id;
    Some (MkIno (inc_both (base t)) fr pf, false)
  else Some (set_base (inc_both (base t)) t, true).

#[export] Instance interval_set_eq_dec : EqDecision interval_set.
Proof. solve_decision. Defined.

Definition replay_alloc_ids (ids : interval_set) (t : ino_table) : option (ino_table * bool) :=
  common ← intersection_of (free t) ids;
  let ok := bool_decide (common = ids) in
  let take := if ok then ids else common in
  fr ← subtract (free t) take;
  pf ← subtract (projected_free t) take;
  Some (MkIno (inc_both (base t)) fr pf, negb ok).

Definition replay_release_ids (ids : interval_set) (t : ino_table) : option ino_table :=
  fr ← insert_set (free t) ids;
  pf ← insert_set (projected_free t) ids;
  Some (MkIno (inc_both (base t)) fr pf).

Definition skip_inos (i : Z) (t : ino_table) : option ino_table :=
  first ← range_start (free t);
  s ← insert empty_set first i;
  s ← intersection_of s (free t);
  fr ← subtract (free t) s;
  Some (MkIno (inc_both (base t)) fr fr).

Definition replay_reset (t : ino_table) : option ino_table :=
  t ← skip_inos 10000000 t;
  Some (MkIno (inc_both (base t)) (free t) (free t)).

(** ** Checks and repair *)

Definition is_marked_free (id : Z) (t : ino_table) : bool :=
  contains (free t) id || contains (projected_free t) id.

Definition intersects_free (other : interval_set) (t : ino_table) : option (bool * interval_set) :=
  i ← intersection_of (free t) other;
  Some (negb (empty i), i).

Definition repair (id : Z) (t : ino_table) : option (bool * ino_table) :=
  if negb (projected_version (base t) =? version (base t)) then Some (false, t)
  else
    assert! is_marked_free id t;
    fr ← erase_one (free t) id;
    pf ← erase_one (projected_free t) id;
    Some (true, MkIno (inc_both (base t)) fr pf).

Definition force_consume (ino : Z) (t : ino_table) : option (bool * ino_table) :=
  if contains (free t) ino then
    fr ← erase_one (free t) ino;
    Some (true, MkIno (base t) fr (projected_free t))
  else Some (false, t).

Definition force_consume_to (ino : Z) (t : ino_table) : option (bool * ino_table) :=
  if contains (free t) ino then
    mn ← range_start (free t);
    fr ← erase (free t) mn (ino -u64 mn +u64 1);
    Some (true, MkIno (inc_both (base t)) fr fr)
  else Some (false, t).

(** ** What [MDSTable] calls: the child's part of the table object *)

Definition encode_iset (s : interval_set) : bytes :=
  denc_encode_map encode_u64 encode_u64 (m s).
Definition decode_iset (p : bytes) : option (interval_set * bytes) :=
  '(mm, p) ← denc_decode_map decode_u64 decode_u64 p;
  Some (of_map mm, p).

(** [free] and [projected_free] *)
Definition child_state : Type := interval_set * interval_set.

#[export] Instance ino_child : TableChild child_state := {
  reset_state r s := fr ← reset_state_free r s.1; Some (fr, fr);
  encode_state s := encode_struct 2 2 (encode_iset s.1);
  decode_state := decode_struct_legacy 2 2 2 0 (fun _ p =>
    '(fr, p) ← decode_iset p; Some ((fr, fr), p))
}.

Definition child_of (t : ino_table) : child_state := (free t, projected_free t).

(** [MDSTable::reset] on an [InoTable] *)
Definition reset_ino (t : ino_table) : option ino_table :=
  '(b, (fr, pf)) ← reset (base t) (child_of t);
  Some (MkIno b fr pf).

(** ** One operation on one set *)

Inductive op :=
  | AllocId (id : Z)
  | AllocIds (ids : interval_set)
  | ReleaseIds (ids : interval_set).

Definition is_release (o : op) : bool :=
  match o with ReleaseIds _ => true | _ => false end.
Definition op_set (o : op) : imap :=
  match o with AllocId id => [(id, 1)] | AllocIds ids | ReleaseIds ids => m ids end.

Definition on_set (o : op) (s : interval_set) : option interval_set :=
  match o with
  | AllocId id => erase_one s id
  | AllocIds ids => subtract s ids
  | ReleaseIds ids => insert_set s ids
  end.

Definition apply_op (o : op) (t : ino_table) : option ino_table :=
  match o with
  | AllocId id => apply_alloc_id id t
  | AllocIds ids => apply_alloc_ids ids t
  | ReleaseIds ids => apply_release_ids ids t
  end.

Definition replay_op (o : op) (t : ino_table) : option (ino_table * bool) :=
  match o with
  | AllocId id => replay_alloc_id id t
  | AllocIds ids => replay_alloc_ids ids t
  | ReleaseIds ids => t ← replay_release_ids ids t; Some (t, false)
  end.

(** Allocations take free numbers, releases give back numbers of the rank's
    range that are not free. *)
Definition valid (U : imap) (s : interval_set) (o : op) : Prop :=
  match o with
  | AllocId id => mem (m s) id
  | AllocIds ids => wf ids /\ forall x, mem (m ids) x -> mem (m s) x
  | ReleaseIds ids => wf ids /\ forall x, mem (m ids) x -> mem U x /\ ~ mem (m s) x
  end.

Inductive runs (U : imap) : interval_set -> list op -> interval_set -> Prop :=
  | runs_nil s : runs U s [] s
  | runs_cons s o s1 l s2 :
      valid U s o -> on_set o s = Some s1 -> runs U s1 l s2 -> runs U s (o :: l) s2.

Lemma runs_app U s1 l1 s2 l2 s3 : runs U s1 l1 s2 -> runs U s2 l2 s3 -> runs U s1 (l1 ++ l2) s3.
Proof. induction 1; simpl; eauto using runs. Qed.

Lemma runs_app_inv U s1 l1 l2 s3 :
  runs U s1 (l1 ++ l2) s3 -> exists s2, runs U s1 l1 s2 /\ runs U s2 l2 s3.
Proof.
  revert s1. induction l1 as [|o l1 IH]; simpl; intros s1 H; [eauto using runs|].
  inversion H; subst. edestruct IH as (s2 & ? & ?); [done|]. eauto using runs.
Qed.

Lemma mem_single id x : mem [(id, 1)] x <-> x = id.
Proof. rewrite mem_cons, mem_nil. simpl. lia. Qed.

Lemma erase_one_spec s id :
  wf s -> mem (m s) id ->
  exists s', erase_one s id = Some s' /\ wf s' /\ size s' = size s - 1 /\
    (forall x, mem (m s') x <-> mem (m s) x /\ x <> id).
Proof.
  intros Hw Hm. pose proof (wf_map_mem 0 _ _ (wf_intervals _ Hw) Hm) as [? ?].
  assert (id + 1 < 2 ^ 64).
  { destruct Hw as [Hw _ _]. revert Hm Hw. generalize (m s) 0. clear.
    intros mm lo Hm. revert lo. induction Hm as [p mm Hp|p mm ? IH]; intros lo; simpl; [lia|].
    intros (_ & _ & _ & Hw). eauto. }
  pose proof (erase_spec s id 1 Hw) as Hs. unfold erase_one.
  rewrite (proj2 (contains_range_spec 0 s id 1 (wf_intervals _ Hw) (Z.le_refl 0)
             ltac:(lia) ltac:(lia) ltac:(lia))) in Hs.
  - destruct Hs as (s' & -> & Hw' & Hsz & Hm'); [lia..|].
    exists s'. split_and!; [done..|]. intros x. rewrite Hm'. split; intros [? ?]; split; try done; lia.
  - intros x Hx. by replace x with id by lia.
Qed.

(** Two disjoint sets inside [U] have at most [U]'s total between them. *)
Lemma total_disjoint U s ids :
  wf_map 0 U -> total U < 2 ^ 63 -> wf s -> wf ids ->
  (forall x, mem (m s) x -> mem U x) -> (forall x, mem (m ids) x -> mem U x /\ ~ mem (m s) x) ->
  total (m s) + total (m ids) <= total U.
Proof.
  intros HU ? Hs Hi Hsub Hids.
  destruct (erase_all_spec 0 (m ids) (Mk (total U) U)) as (V & _ & HV & Hsz & HmV);
    [by split|apply Hi|lia|intros x ?; simpl; by apply Hids|].
  simpl in *. rewrite (wf_size _ HV) in Hsz.
  assert (total (m s) <= total (m V)); [|lia].
  apply (total_subset 0); [apply Hs|lia|apply HV|apply HV|].
  intros x Hx. apply HmV. split; [by apply Hsub|]. intros Hx'. by destruct (Hids x Hx').
Qed.

Lemma on_set_spec U s o :
  wf_map 0 U -> total U < 2 ^ 63 -> wf s -> (forall x, mem (m s) x -> mem U x) -> valid U s o ->
  exists s', on_set o s = Some s' /\ wf s' /\ (forall x, mem (m s') x -> mem U x) /\
    (forall x, mem (m s') x <->
       if is_release o then mem (op_set o) x \/ mem (m s) x
       else mem (m s) x /\ ~ mem (op_set o) x).
Proof.
  intros HU Ht Hs Hsub Hv. destruct o as [id|ids|ids]; simpl in *.
  - destruct (erase_one_spec s id Hs Hv) as (s' & -> & ? & _ & Hm). exists s'.
    split_and!; [done..| |]; intros x; rewrite Hm; [naive_solver|]. by rewrite mem_single.
  - destruct Hv as [Hi Hv].
    destruct (erase_all_spec 0 (m ids) s Hs) as (s' & E & ? & _ & Hm); [apply Hi|lia|done|].
    exists s'. unfold subtract. split_and!; [done..| |done]. intros x. rewrite Hm. naive_solver.
  - destruct Hv as [Hi Hv]. pose proof (total_disjoint U s ids HU Ht Hs Hi Hsub Hv).
    destruct (insert_all_spec 0 (m ids) s Hs) as (s' & E & ? & _ & Hm); [apply Hi|lia|lia| |].
    { intros x Hx. by apply Hv. }
    exists s'. unfold insert_set. split_and!; [done..| |done]. intros x. rewrite Hm. naive_solver.
Qed.

Lemma runs_wf U s l s' :
  wf_map 0 U -> total U < 2 ^ 63 -> wf s -> (forall x, mem (m s) x -> mem U x) ->
  runs U s l s' -> wf s' /\ (forall x, mem (m s') x -> mem U x).
Proof.
  intros HU Ht Hs Hsub Hr. induction Hr as [|s o s1 l s2 Hv Ho Hr IH]; [done|].
  destruct (on_set_spec U s o HU Ht Hs Hsub Hv) as (s1' & E & ? & ? & _). simplify_eq. auto.
Qed.

(** ** Allocating many: the lowest numbers, in as many rounds as it takes *)

(** What one round removes: the first numbers of the first free interval. *)
Lemma alloc_round pf start en want :
  wf pf -> range_start pf = Some start -> end_after pf start = Some en ->
  0 < want < 2 ^ 31 ->
  let num := if u64 want <? en -u64 start then u64 want else en -u64 start in
  0 <= start /\ 0 < num <= want /\ start + num < 2 ^ 64 /\ num <= total (m pf) /\
  (forall x, start <= x < start + num -> mem (m pf) x) /\
  (forall x, mem (m pf) x -> start <= x).
Proof.
  intros Hw Hs He Hwant. destruct (range_start_spec 0 pf start (wf_intervals _ Hw) Hs) as [Hm Hlo].
  pose proof (wf_map_mem 0 _ _ (wf_intervals _ Hw) Hm) as [? _].
  destruct (end_after_spec 0 pf start (wf_intervals _ Hw) (Z.le_refl 0) Hm)
    as (e & He' & ? & Hin & _). simplify_eq.
  rewrite !u64_small by lia. intros num.
  assert (0 < num <= want /\ start + num <= en) as [? ?] by (unfold num; zcase; lia).
  split_and!; try lia; auto; [|intros x ?; apply Hin; lia].
  apply (total_range 0 _ start); [apply Hw|lia|]. intros x ?. apply Hin. lia.
Qed.

(** [taken pf pf' x]: [x] was free and is not any more. *)
Definition taken (pf pf' : interval_set) (x : Z) : Prop := mem (m pf) x /\ ~ mem (m pf') x.

Record allocated (ids pf ids' pf' : interval_set) (want : Z) : Prop := {
  al_ids : wf ids';
  al_free : wf pf';
  al_count : size ids' = size ids + want;
  al_rest : size pf' = size pf - want;
  al_taken : forall x, mem (m ids') x <-> mem (m ids) x \/ taken pf pf' x;
  al_sub : forall x, mem (m pf') x -> mem (m pf) x;
  al_lowest : forall x y, taken pf pf' x -> mem (m pf') y -> x < y
}.

(** A round that moves [[start, start + num)], then the rounds after it. *)
Lemma allocated_step ids pf ids1 pf1 ids' pf' want num start :
  wf ids -> wf pf -> wf ids1 -> wf pf1 ->
  total (m pf1) = total (m pf) - num -> total (m ids1) = total (m ids) + num ->
  (forall x, start <= x < start + num -> mem (m pf) x) ->
  (forall x, mem (m pf) x -> start <= x) ->
  (forall x, mem (m pf1) x <-> mem (m pf) x /\ ~ start <= x < start + num) ->
  (forall x, mem (m ids1) x <-> start <= x < start + num \/ mem (m ids) x) ->
  allocated ids1 pf1 ids' pf' (want - num) -> allocated ids pf ids' pf' want.
Proof.
  intros Hi Hp Hi1 Hp1 T1 T2 Hin Hlo Hm1 Hm2 [? ? C1 C2 Ha Hsub Hlow].
  rewrite (wf_size _ Hi1) in C1. rewrite (wf_size _ Hp1) in C2.
  assert (Htk : forall x, taken pf pf' x <-> start <= x < start + num \/ taken pf1 pf' x).
  { intros x. unfold taken. rewrite Hm1. destruct (decide (start <= x < start + num)) as [D|D].
    - split; [by left|]. intros _. split; [by apply Hin|]. intros Hx. apply Hsub, Hm1 in Hx. tauto.
    - tauto. }
  split; auto.
  - rewrite (wf_size _ Hi). lia.
  - rewrite (wf_size _ Hp). lia.
  - intros x. rewrite Ha, Hm2, Htk. tauto.
  - intros x Hx. by apply Hsub, Hm1 in Hx as [? _].
  - intros x y [Hx|Hx]%Htk Hy; [|by apply Hlow]. apply Hsub, Hm1 in Hy as [Hy ?].
    apply Hlo in Hy. lia.
Qed.

Lemma alloc_loop_spec fuel ids pf want :
  wf ids -> wf pf -> (forall x, mem (m ids) x -> ~ mem (m pf) x) ->
  total (m ids) + total (m pf) < 2 ^ 63 -> 0 <= want <= Z.of_nat fuel -> want < 2 ^ 31 ->
  if want <=? total (m pf)
  then exists ids' pf', alloc_loop fuel ids pf want = Some (ids', pf') /\
         allocated ids pf ids' pf' want
  else alloc_loop fuel ids pf want = None.
Proof.
  revert ids pf want. induction fuel as [|fuel IH]; intros ids pf want Hi Hp Hd Ht Hf Hb.
  { pose proof (total_nonneg 0 _ (wf_intervals _ Hp)). rewrite (proj2 (Z.leb_le _ _)) by lia.
    exists ids, pf. simpl. rewrite (proj2 (Z.ltb_ge _ _)) by lia.
    split; [done|]. split; unfold taken; auto; try lia; naive_solver. }
  cbn [alloc_loop]. pose proof (total_nonneg 0 _ (wf_intervals _ Hp)).
  destruct (Z.ltb_spec 0 want).
  2: { rewrite (proj2 (Z.leb_le _ _)) by lia. exists ids, pf.
       split; [done|]. split; unfold taken; auto; try lia; naive_solver. }
  destruct (range_start pf) as [start|] eqn:Es; obind.
  2: { unfold range_start in Es. destruct (m pf); [|done]. simpl.
       by rewrite (proj2 (Z.leb_gt _ _)) by lia. }
  destruct (range_start_spec 0 pf start (wf_intervals _ Hp) Es) as [Hm _].
  destruct (end_after_spec 0 pf start (wf_intervals _ Hp) (Z.le_refl 0) Hm) as (en & Ee & _).
  rewrite Ee. obind. pose proof (alloc_round pf start en want Hp Es Ee ltac:(lia)) as Hr.
  set (num := if _ <? _ then _ else _) in *. clearbody num.
  destruct Hr as (? & ? & ? & ? & Hin & Hlo).
  pose proof (erase_spec pf start num Hp) as He.
  rewrite (proj2 (contains_range_spec 0 pf start num (wf_intervals _ Hp) (Z.le_refl 0)
             ltac:(lia) ltac:(lia) ltac:(lia)) Hin) in He.
  destruct He as (pf1 & -> & Hp1 & Hs1 & Hm1); [lia..|]. obind.
  destruct (insert_spec ids start num Hi) as (ids1 & -> & Hi1 & Hs1' & Hm1'); [lia..| |].
  { intros x Hx Hx'. by apply (Hd x), Hin. }
  obind. rewrite !u64_small, s32_small by (rewrite ?u64_small; lia).
  rewrite (wf_size _ Hp), (wf_size _ Hp1) in Hs1. rewrite (wf_size _ Hi), (wf_size _ Hi1) in Hs1'.
  specialize (IH ids1 pf1 (want - num) Hi1 Hp1). rewrite Hs1, Hs1' in IH.
  assert (Hd1 : forall x, mem (m ids1) x -> ~ mem (m pf1) x).
  { intros x. rewrite Hm1, Hm1'. naive_solver. }
  specialize (IH Hd1 ltac:(lia) ltac:(lia) ltac:(lia)).
  replace (want - num <=? total (m pf) - num) with (want <=? total (m pf)) in IH by (zcase; lia).
  destruct (want <=? total (m pf)); [|done].
  destruct IH as (ids' & pf' & -> & [? ? ? ? Ha Hsub Hlow]). exists ids', pf'. split; [done|].
  by apply (allocated_step ids pf ids1 pf1 _ _ want num start).
Qed.

(** ** The pipeline of projected, journalled and applied operations

    [pending] are the operations projected and not yet applied, oldest first;
    the journal applies them in that order.  [history] are all the operations
    ever projected. *)

Record pipe := MkPipe { tab : ino_table; pending : list op; history : list op }.

Inductive pipe_step (U : imap) : pipe -> pipe -> Prop :=
  | pipe_alloc t p h id0 id t' :
      project_alloc_id id0 t = Some (id, t') ->
      0 <= id0 < 2 ^ 64 - 1 ->
      pipe_step U (MkPipe t p h) (MkPipe t' (p ++ [AllocId id]) (h ++ [AllocId id]))
  | pipe_allocs t p h want ids t' :
      project_alloc_ids empty_set want t = Some (ids, t') ->
      0 <= want < 2 ^ 31 ->
      pipe_step U (MkPipe t p h) (MkPipe t' (p ++ [AllocIds ids]) (h ++ [AllocIds ids]))
  | pipe_release t p h ids t' :
      project_release_ids ids t = Some t' ->
      wf ids -> (forall x, mem (m ids) x -> mem U x /\ ~ mem (m (projected_free t)) x) ->
      pipe_step U (MkPipe t p h) (MkPipe t' (p ++ [ReleaseIds ids]) (h ++ [ReleaseIds ids]))
  | pipe_apply t o p h t' :
      apply_op o t = Some t' ->
      pipe_step U (MkPipe t (o :: p) h) (MkPipe t' p h).

(** A table with nothing in flight: just reset, loaded or replayed. *)
Record settled (t : ino_table) : Prop := {
  se_active : state (base t) = STATE_ACTIVE;
  se_free : wf (free t);
  se_proj : projected_free t = free t;
  se_version : projected_version (base t) = version (base t);
  se_width : 0 <= version (base t) < 2 ^ 64
}.

(** [U] are the numbers of the rank, free ones and those that sessions and
    inodes have. *)
Definition within (U s : interval_set) : Prop := wf U /\ forall y, mem (m s) y -> mem (m U) y.

(** The pending operations lead from [free] to [projected_free], and the
    history from the initial free set. *)
Record pipe_ok (U f0 : interval_set) (x : pipe) : Prop := {
  po_active : state (base (tab x)) = STATE_ACTIVE;
  po_wf : wf (free (tab x));
  po_sub : forall y, mem (m (free (tab x))) y -> mem (m U) y;
  po_pending : runs (m U) (free (tab x)) (pending x) (projected_free (tab x));
  po_history : runs (m U) f0 (history x) (projected_free (tab x));
  po_width : 0 <= version (base (tab x)) < 2 ^ 64;
  po_version : projected_version (base (tab x)) =
               u64 (version (base (tab x)) + Z.of_nat (length (pending x)))
}.

Lemma settled_ok U t : within U (free t) -> settled t -> pipe_ok U (free t) (MkPipe t [] []).
Proof.
  intros [? ?] [? ? Hp Hv Hw]. split; simpl; auto; try (rewrite Hp; by constructor).
  by rewrite Z.add_0_r, u64_small.
Qed.

Lemma u64_add_l x y : u64 (u64 x + y) = u64 (x + y).
Proof. unfold u64. by rewrite Z.add_mod_idemp_l. Qed.

(** Projecting a valid operation extends both runs. *)
Lemma pipe_project U f0 t p h o pf :
  pipe_ok U f0 (MkPipe t p h) -> valid (m U) (projected_free t) o ->
  on_set o (projected_free t) = Some pf ->
  pipe_ok U f0 (MkPipe (MkIno (inc_projected (base t)) (free t) pf) (p ++ [o]) (h ++ [o])).
Proof.
  intros [? ? ? Hp Hh ? Hv] Ho E. simpl in *.
  assert (Hr : runs (m U) (projected_free t) [o] pf) by eauto using runs.
  split; simpl; eauto using runs_app.
  rewrite Hv, length_app, u64_add_l. f_equal. simpl. lia.
Qed.

Lemma apply_op_set o t t' :
  apply_op o t = Some t' <->
  exists fr, on_set o (free t) = Some fr /\
    t' = MkIno (inc_version (base t)) fr (projected_free t).
Proof.
  destruct o; simpl; unfold apply_alloc_id, apply_alloc_ids, apply_release_ids;
    (destruct (erase_one _ _) || destruct (subtract _ _) || destruct (insert_set _ _));
    simpl; naive_solver.
Qed.

Lemma project_alloc_id_set id0 t id t' :
  wf (projected_free t) -> 0 <= id0 < 2 ^ 64 - 1 -> project_alloc_id id0 t = Some (id, t') ->
  mem (m (projected_free t)) id /\ (id0 <> 0 -> id = id0) /\
  exists pf, on_set (AllocId id) (projected_free t) = Some pf /\
    t' = MkIno (inc_projected (base t)) (free t) pf.
Proof.
  intros Hw Hb. unfold project_alloc_id. destruct (is_active (base t)); [|done].
  destruct (if id0 =? 0 then _ else _) as [i|] eqn:Ei; simpl; [|done].
  destruct (erase_one (projected_free t) i) as [pf|] eqn:Ee; simpl; [|done].
  intros ?. simplify_eq. split_and!; [|by destruct (Z.eqb_spec id0 0); naive_solver|by exists pf].
  destruct (Z.eqb_spec id0 0); simplify_eq.
  - by apply (range_start_spec 0 (projected_free t) id (wf_intervals _ Hw)) in Ei as [? _].
  - pose proof (erase_spec (projected_free t) id 1 Hw) as Hs.
    destruct (contains_range (projected_free t) id 1) eqn:Ec.
    + apply (contains_range_spec 0 _ id 1 (wf_intervals _ Hw)) with (x := id) in Ec; lia || done.
    + unfold erase_one in Ee. rewrite Hs in Ee by lia. done.
Qed.

(** What [project_alloc_ids] hands out, on an active table. *)
Lemma project_alloc_ids_spec t want :
  state (base t) = STATE_ACTIVE -> wf (projected_free t) -> 0 <= want < 2 ^ 31 ->
  if want <=? size (projected_free t)
  then exists ids pf,
         project_alloc_ids empty_set want t =
           Some (ids, MkIno (inc_projected (base t)) (free t) pf) /\
         allocated empty_set (projected_free t) ids pf want /\
         subtract (projected_free t) ids = Some pf
  else project_alloc_ids empty_set want t = None.
Proof.
  intros Ha Hw Hb. unfold project_alloc_ids, is_active. rewrite bool_decide_eq_true_2 by done.
  pose proof (alloc_loop_spec (Z.to_nat want) empty_set (projected_free t) want wf_empty Hw) as Hl.
  rewrite (wf_size _ Hw). pose proof (wf_small _ Hw).
  specialize (Hl ltac:(intros x Hx; by apply mem_nil in Hx) ltac:(simpl; lia) ltac:(lia) ltac:(lia)).
  destruct (want <=? total _); [|by rewrite Hl].
  destruct Hl as (ids & pf & -> & Hal). exists ids, pf. split_and!; [done..|].
  destruct Hal as [Hi Hp _ _ Ht Hsub _].
  destruct (erase_all_spec 0 (m ids) (projected_free t) Hw) as (pf' & E & Hp' & _ & Hm);
    [apply Hi|lia| |].
  { intros x [Hx|[? _]]%Ht; [by apply mem_nil in Hx|done]. }
  unfold subtract. rewrite E. f_equal. apply wf_ext; [done..|]. intros x. rewrite Hm, Ht.
  unfold taken. simpl. rewrite mem_nil. pose proof (Hsub x).
  destruct (decide (mem (m pf) x)); tauto.
Qed.

Lemma pipe_step_ok U f0 x y : wf U -> pipe_ok U f0 x -> pipe_step (m U) x y -> pipe_ok U f0 y.
Proof.
  intros Hf Hok Hs. pose proof (po_wf _ _ _ Hok) as Hw. pose proof (po_sub _ _ _ Hok) as Hsub.
  destruct (runs_wf (m U) _ _ _ (wf_intervals _ Hf) (wf_small _ Hf) Hw Hsub (po_pending _ _ _ Hok))
    as [Hpw Hpsub].
  destruct Hs as [t p h id0 id t' E Hb|t p h want ids t' E Hb|t p h ids t' E Hi Hr|t o p h t' E];
    simpl in *.
  - destruct (project_alloc_id_set _ _ _ _ Hpw Hb E) as (? & _ & pf & Eo & ->).
    by apply (pipe_project U f0 t p h (AllocId id) pf).
  - pose proof (project_alloc_ids_spec t want (po_active _ _ _ Hok) Hpw Hb) as Hs.
    destruct (want <=? _); [|by rewrite Hs in E].
    destruct Hs as (ids' & pf & E' & Hal & Esub). rewrite E' in E. simplify_eq.
    apply (pipe_project U f0 t p h (AllocIds ids) pf Hok); [|done]. split; [apply Hal|].
    intros x [Hx|[? _]]%(al_taken _ _ _ _ _ Hal); [by apply mem_nil in Hx|done].
  - unfold project_release_ids in E. destruct (insert_set _ _) as [pf|] eqn:Ei; [|done].
    simpl in E. simplify_eq. by apply (pipe_project U f0 t p h (ReleaseIds ids) pf Hok).
  - apply apply_op_set in E as (fr & Eo & ->). destruct Hok as [? ? ? Hp ? ? Hv]. simpl in *.
    inversion Hp as [|? ? s1 ? ? Hval Eo' Hr]; subst. rewrite Eo in Eo'. simplify_eq.
    destruct (on_set_spec (m U) (free t) o (wf_intervals _ Hf) (wf_small _ Hf) Hw Hsub Hval)
      as (s' & E' & ? & ? & _). rewrite Eo in E'. simplify_eq.
    split; simpl; auto using u64_range. rewrite Hv, u64_add_l. f_equal. lia.
Qed.

Lemma pipe_reachable_ok U t x :
  within U (free t) -> settled t -> rtc (pipe_step (m U)) (MkPipe t [] []) x -> pipe_ok U (free t) x.
Proof.
  intros HU Ht Hr. pose proof (settled_ok U t HU Ht) as Hok.
  remember (MkPipe t [] []) as x0 eqn:E. clear E.
  destruct HU as [HU _]. induction Hr; eauto using pipe_step_ok.
Qed.

(** Whatever the interleaving of allocations, releases and journal
    completions, the pending operations can all be applied (no assertion of
    [apply_alloc_id], [apply_alloc_ids] or [apply_release_ids] fires), the
    projected version is ahead by exactly their number, and when none is left
    the applied table is the projected one, version included. *)
Theorem pipeline_converges U t x :
  within U (free t) -> settled t -> rtc (pipe_step (m U)) (MkPipe t [] []) x ->
  wf (free (tab x)) /\ wf (projected_free (tab x)) /\
  (forall o p, pending x = o :: p -> is_Some (apply_op o (tab x))) /\
  projected_version (base (tab x)) =
    version (base (tab x)) +u64 Z.of_nat (length (pending x)) /\
  (pending x = [] ->
     free (tab x) = projected_free (tab x) /\
     version (base (tab x)) = projected_version (base (tab x))).
Proof.
  intros HU Ht Hr. pose proof (proj1 HU) as Hf. pose proof (pipe_reachable_ok U t x HU Ht Hr) as Hok.
  destruct Hok as [? Hw Hsub Hp ? Hwd Hv]. split_and!; auto.
  - by eapply runs_wf; [apply Hf|apply Hf|exact Hw|exact Hsub|exact Hp].
  - intros o p E. rewrite E in Hp. inversion Hp as [|? ? s1 ? ? ? Eo]; subst.
    eexists. apply apply_op_set. eauto.
  - intros E. rewrite E in Hp, Hv. simpl in Hv. split; [by inversion Hp|].
    by rewrite Hv, Z.add_0_r, u64_small.
Qed.

(** A number that is not free and later is has been released in between. *)
Lemma runs_released U s l s' x :
  wf_map 0 U -> total U < 2 ^ 63 -> wf s -> (forall y, mem (m s) y -> mem U y) ->
  runs U s l s' -> ~ mem (m s) x -> mem (m s') x ->
  exists r, r ∈ l /\ is_release r = true /\ mem (op_set r) x.
Proof.
  intros HU Ht Hs Hsub Hr. induction Hr as [|s o s1 l s2 Hv Ho Hr IH]; [done|].
  intros Hn Hx. destruct (on_set_spec U s o HU Ht Hs Hsub Hv) as (s1' & E & Hw1 & Hsub1 & Hm).
  assert (s1' = s1) as -> by congruence. destruct (decide (mem (m s1) x)) as [D|D].
  - exists o. apply Hm in D. destruct (is_release o); [|tauto].
    split_and!; [by left|done|tauto].
  - destruct (IH Hw1 Hsub1 D Hx) as (r & ? & ? & ?). exists r. split_and!; auto. by right.
Qed.

(** C25: however the allocations and releases of a rank and their completions
    interleave, an inode number that two allocations both hand out was released
    between them; what is released is not free. *)
Theorem no_double_allocation U t x h1 o1 h2 o2 h3 ino :
  within U (free t) -> settled t -> rtc (pipe_step (m U)) (MkPipe t [] []) x ->
  history x = h1 ++ o1 :: h2 ++ o2 :: h3 ->
  is_release o1 = false -> is_release o2 = false ->
  mem (op_set o1) ino -> mem (op_set o2) ino ->
  exists r, r ∈ h2 /\ is_release r = true /\ mem (op_set r) ino.
Proof.
  intros [Hf Hin] Ht Hr Hh R1 R2 M1 M2.
  pose proof (po_history _ _ _ (pipe_reachable_ok U t x (conj Hf Hin) Ht Hr)) as Hp. rewrite Hh in Hp.
  pose proof (wf_intervals _ Hf) as HU. pose proof (wf_small _ Hf) as Hs.
  apply runs_app_inv in Hp as (s1 & Ha & Hb).
  destruct (runs_wf _ _ _ _ HU Hs (se_free _ Ht) Hin Ha) as [Hw1 Hsub1].
  inversion Hb as [|? ? s2 ? ? Hv1 E1 Hb']; subst.
  destruct (on_set_spec _ s1 o1 HU Hs Hw1 Hsub1 Hv1) as (s2' & E & Hw2 & Hsub2 & Hm2).
  assert (s2' = s2) as -> by congruence. rewrite R1 in Hm2.
  apply runs_app_inv in Hb' as (s3 & Hc & Hd).
  inversion Hd as [|? ? s4 ? ? Hv2 E2 _]; subst.
  apply (runs_released (m U) s2 h2 s3 ino HU Hs Hw2 Hsub2 Hc).
  - rewrite Hm2. tauto.
  - destruct o2 as [id|ids|ids]; simpl in *; [|by apply Hv2|done].
    apply mem_single in M2. by subst.
Qed.

(** ** Ranges of the ranks *)

Lemma reset_state_free_spec r fr :
  0 <= r < 2 ^ 23 ->
  exists s, reset_state_free r fr = Some s /\ wf s /\ size s = 2 ^ 40 /\
    (forall x, mem (m s) x <-> (r + 1) * 2 ^ 40 <= x < (r + 2) * 2 ^ 40).
Proof.
  intros Hr. unfold reset_state_free, clear. rewrite !Z.shiftl_mul_pow2 by lia.
  rewrite s32_small, !u64_small by (rewrite ?u64_small; lia).
  destruct (insert_spec empty_set ((r + 1) * 2 ^ 40) (2 ^ 40) wf_empty)
    as (s & E & ? & ? & Hm); simpl; try lia.
  { intros x _ Hx. by apply mem_nil in Hx. }
  rewrite Z.mul_1_l. exists s. split_and!; [done..|].
  intros x. rewrite Hm. simpl. rewrite mem_nil. lia.
Qed.

Definition booted (r : Z) : option ino_table :=
  reset_ino (MkIno (new_table true r) empty_set empty_set).

Lemma booted_settled r :
  0 <= r < 2 ^ 23 ->
  exists t, booted r = Some t /\ settled t /\ size (free t) = 2 ^ 40 /\
    (forall x, mem (m (free t)) x <-> (r + 1) * 2 ^ 40 <= x < (r + 2) * 2 ^ 40).
Proof.
  intros Hr. destruct (reset_state_free_spec r empty_set Hr) as (s & E & Hw & Hsz & Hm).
  unfold booted, reset_ino, reset, child_of.
  cbn [reset_state ino_child base rank new_table fst free]. rewrite E.
  eexists. split; [reflexivity|]. split_and!; [|exact Hsz|exact Hm]. split; simpl; auto. lia.
Qed.

Lemma within_own t : settled t -> within (free t) (free t).
Proof. intros Ht. split; [apply Ht|done]. Qed.

(** Every number an operation of the history names is one of the rank's. *)
Lemma history_in_range U t x o ino :
  within U (free t) -> settled t -> rtc (pipe_step (m U)) (MkPipe t [] []) x ->
  o ∈ history x -> mem (op_set o) ino -> mem (m U) ino.
Proof.
  intros [Hf Hin] Ht Hr [l1 [l2 Hh]]%list_elem_of_split Ho.
  pose proof (po_history _ _ _ (pipe_reachable_ok U t x (conj Hf Hin) Ht Hr)) as Hp. rewrite Hh in Hp.
  apply runs_app_inv in Hp as (s1 & Ha & Hb). inversion Hb as [|? ? s2 ? ? Hv]; subst.
  destruct (runs_wf _ _ _ _ (wf_intervals _ Hf) (wf_small _ Hf) (se_free _ Ht) Hin Ha) as [? Hsub].
  destruct o as [id|ids|ids]; simpl in *.
  - apply mem_single in Ho as ->. auto.
  - apply Hsub. by apply Hv.
  - by apply Hv.
Qed.

(** The tables of two different ranks, each started by [reset], never hand
    out the same inode number. *)
Theorem ranks_never_share_inos r1 r2 t1 t2 x1 x2 o1 o2 ino :
  0 <= r1 < 2 ^ 23 -> 0 <= r2 < 2 ^ 23 ->
  booted r1 = Some t1 -> booted r2 = Some t2 ->
  rtc (pipe_step (m (free t1))) (MkPipe t1 [] []) x1 ->
  rtc (pipe_step (m (free t2))) (MkPipe t2 [] []) x2 ->
  r1 <> r2 -> o1 ∈ history x1 -> o2 ∈ history x2 -> mem (op_set o1) ino ->
  ~ mem (op_set o2) ino.
Proof.
  intros Hr1 Hr2 B1 B2 R1 R2 Hne H1 H2 M1 M2.
  destruct (booted_settled r1 Hr1) as (? & E1 & S1 & _ & D1).
  destruct (booted_settled r2 Hr2) as (? & E2 & S2 & _ & D2). simplify_eq.
  apply (history_in_range _ _ _ _ _ (within_own _ S1) S1 R1 H1), D1 in M1.
  apply (history_in_range _ _ _ _ _ (within_own _ S2) S2 R2 H2), D2 in M2. lia.
Qed.

(** ** The table object *)

Definition storable (s : child_state) : Prop :=
  wf s.1 /\ s.2 = s.1 /\ 16 * Z.of_nat (length (m s.1)) + 4 < 2 ^ 32.

Lemma of_map_wf s : wf s -> of_map (m s) = s.
Proof.
  intros [Hw Hs Ht]. destruct s as [sz mm]. simpl in *. unfold of_map. f_equal. rewrite Hs.
  assert (forall acc, 0 <= acc -> acc + total mm < 2 ^ 63 ->
    foldl (fun acc i => acc +s64 i.2) acc mm = acc + total mm) as H by
  (clear Hs Ht; revert Hw; generalize 0 at 1; induction mm as [|p mm IH]; simpl;
   [intros; lia|]; intros lo (_ & ? & _ & Hw) acc ? ?;
   pose proof (total_nonneg _ _ Hw); rewrite s64_small by lia; rewrite (IH _ Hw) by lia; lia).
  by rewrite H by lia.
Qed.

Lemma wf_map_keys lo mm : wf_map lo mm -> keys_from lo mm.
Proof.
  revert lo. induction mm as [|[k v] mm IH]; simpl; intros lo; [done|].
  intros (? & ? & _ & Hw). split; [done|]. eapply keys_from_weaken; [|by apply IH]. simpl. lia.
Qed.

Lemma decode_iset_app s rest :
  wf s -> Z.of_nat (length (m s)) < 2 ^ 32 ->
  decode_iset (encode_iset s ++ rest) = Some (s, rest).
Proof.
  intros Hw Hl. unfold decode_iset, encode_iset.
  rewrite (denc_decode_map_app _ _ _ _ _ _ 0); [|done|apply wf_map_keys, Hw|].
  { simpl. by rewrite of_map_wf. }
  eapply Forall_impl; [apply (wf_map_elem 0), Hw|]. intros p (? & ? & ? & _).
  split; intros r; apply decode_uint_small; simpl; lia.
Qed.

Lemma encode_iset_length s : length (encode_iset s) = (4 + 16 * length (m s))%nat.
Proof.
  unfold encode_iset, denc_encode_map, encode_list. rewrite length_app.
  unfold encode_u32 at 1, encode_uint. rewrite le_bytes_length. f_equal.
  induction (m s) as [|p mm IH]; [done|].
  cbn [map concat]. rewrite length_app, IH. unfold encode_pair, encode_u64, encode_uint.
  rewrite length_app, !le_bytes_length. simpl. lia.
Qed.

#[export] Instance ino_child_law : TableChildLaw child_state storable.
Proof.
  intros [fr pf] r (Hw & E & Hl). cbn [fst snd] in Hw, E, Hl. subst pf.
  cbn [decode_state encode_state ino_child fst].
  rewrite <- (app_nil_r (encode_iset fr)).
  apply decode_struct_legacy_app; try lia.
  - rewrite app_nil_r, encode_iset_length. lia.
  - rewrite !app_nil_l, decode_iset_app by (done || lia). done.
Qed.

(** ** Recovery *)

(** Replaying one valid operation on a table with nothing in flight applies it
    to both sets, reports nothing, and advances both versions. *)
Lemma replay_op_spec U o t s :
  wf_map 0 U -> total U < 2 ^ 63 -> wf (free t) -> (forall x, mem (m (free t)) x -> mem U x) ->
  projected_free t = free t -> valid U (free t) o -> on_set o (free t) = Some s ->
  replay_op o t = Some (MkIno (inc_both (base t)) s s, false).
Proof.
  intros HU Ht Hw Hsub Hp Hv Ho. destruct o as [id|ids|ids]; simpl in *.
  - unfold replay_alloc_id. rewrite (proj2 (contains_spec 0 _ _ (wf_intervals _ Hw) (Z.le_refl 0)) Hv).
    rewrite Hp, Ho. done.
  - destruct Hv as [Hi Hv]. unfold replay_alloc_ids.
    destruct (intersection_of_spec (free t) ids Hw Hi) as (c & -> & Hc & Hm). obind.
    assert (c = ids) as ->.
    { apply wf_ext; [done..|]. intros x. rewrite Hm. naive_solver. }
    rewrite bool_decide_eq_true_2 by done. rewrite Hp, Ho. done.
  - unfold replay_release_ids. rewrite Hp, Ho. done.
Qed.

(** ** Tools *)

(** [skip_inos] removes exactly the free numbers among the [i] that follow the
    lowest free one. *)
Lemma skip_inos_spec t i first :
  wf (free t) -> range_start (free t) = Some first -> 0 < i < 2 ^ 62 -> first + i < 2 ^ 64 ->
  exists s, skip_inos i t = Some (MkIno (inc_both (base t)) s s) /\ wf s /\
    (forall x, mem (m s) x <-> mem (m (free t)) x /\ first + i <= x).
Proof.
  intros Hw Hs Hi Hb. unfold skip_inos. rewrite Hs. obind.
  destruct (range_start_spec 0 (free t) first (wf_intervals _ Hw) Hs) as [Hm Hlo].
  pose proof (wf_map_mem 0 _ _ (wf_intervals _ Hw) Hm) as [? _].
  destruct (insert_spec empty_set first i wf_empty) as (s1 & -> & Hw1 & _ & Hm1); simpl; try lia.
  { intros x _ Hx. by apply mem_nil in Hx. }
  destruct (intersection_of_spec s1 (free t) Hw1 Hw) as (s2 & -> & Hw2 & Hm2). simpl.
  destruct (erase_all_spec 0 (m s2) (free t) Hw) as (s3 & E & Hw3 & _ & Hm3);
    [apply Hw2|lia|by intros x [_ ?]%Hm2|].
  unfold subtract. rewrite E. exists s3. split_and!; [done..|].
  intros x. rewrite Hm3, Hm2, Hm1. simpl. rewrite mem_nil. pose proof (Hlo x).
  destruct (decide (first <= x < first + i)); intuition lia.
Qed.

(** [force_consume_to] aborts when the free numbers up to the given one are not
    one interval, although the number is free. *)
Lemma force_consume_to_aborts t ino mn x :
  wf (free t) -> 0 <= ino < 2 ^ 64 - 1 -> mem (m (free t)) ino ->
  range_start (free t) = Some mn -> mn < x < ino -> ~ mem (m (free t)) x ->
  force_consume_to ino t = None.
Proof.
  intros Hw Hb Hm Hs Hx Hn. unfold force_consume_to.
  rewrite (proj2 (contains_spec 0 _ _ (wf_intervals _ Hw) (Z.le_refl 0)) Hm), Hs. obind.
  destruct (range_start_spec 0 (free t) mn (wf_intervals _ Hw) Hs) as [Hmn _].
  pose proof (wf_map_mem 0 _ _ (wf_intervals _ Hw) Hmn) as [? _].
  rewrite !u64_small by (rewrite ?u64_small; lia).
  pose proof (erase_spec (free t) mn (ino - mn + 1) Hw) as He.
  destruct (contains_range _ _ _) eqn:Ec; [|by rewrite He by lia].
  exfalso. apply Hn. apply (contains_range_spec 0 _ mn (ino - mn + 1) (wf_intervals _ Hw)) with (x := x) in Ec;
    lia || done.
Qed.

Example force_consume_to_fragmented :
  force_consume_to 22 (MkIno (set_state STATE_ACTIVE (new_table true 0))
    (Mk 10 [(5, 5); (20, 5)]) (Mk 10 [(5, 5); (20, 5)])) = None.
Proof. reflexivity. Qed.

(** ** Witnesses *)

Definition boot0 : ino_table :=
  MkIno (set_state STATE_ACTIVE (new_table true 0))
    (Mk (2 ^ 40) [(2 ^ 40, 2 ^ 40)]) (Mk (2 ^ 40) [(2 ^ 40, 2 ^ 40)]).

Lemma boot0_settled : settled boot0.
Proof. by split. Qed.

Definition ids3 : interval_set := Mk 3 [(2 ^ 40 + 1, 3)].

(** Allocate the first number, then three more; release the three, apply the
    first allocation, and allocate one of the three again. *)
Definition run1 : pipe :=
  MkPipe (MkIno (MkTable true 0 STATE_ACTIVE 1 0 0 4 [])
            (Mk (2 ^ 40 - 1) [(2 ^ 40 + 1, 2 ^ 40 - 1)]) (Mk (2 ^ 40 - 2) [(2 ^ 40 + 2, 2 ^ 40 - 2)]))
    [AllocIds ids3; ReleaseIds ids3; AllocId (2 ^ 40 + 1)]
    [AllocId (2 ^ 40); AllocIds ids3; ReleaseIds ids3; AllocId (2 ^ 40 + 1)].

Lemma run1_reached : rtc (pipe_step (m (free boot0))) (MkPipe boot0 [] []) run1.
Proof.
  eapply rtc_l; [eapply (pipe_alloc _ _ _ _ 0); [vm_compute; reflexivity|lia]|].
  eapply rtc_l; [eapply (pipe_allocs _ _ _ _ 3); [vm_compute; reflexivity|lia]|].
  eapply rtc_l; [eapply (pipe_release _ _ _ _ ids3); [vm_compute; reflexivity| |]|].
  { split; simpl; try split_and!; done. }
  { intros x. simpl. rewrite !mem_cons, !mem_nil. simpl. lia. }
  eapply rtc_l; [eapply pipe_apply; vm_compute; reflexivity|].
  eapply rtc_l; [eapply (pipe_alloc _ _ _ _ (2 ^ 40 + 1)); [vm_compute; reflexivity|lia]|].
  apply rtc_refl.
Qed.

Lemma pipeline_converges_witness :
  is_Some (apply_op (AllocIds ids3) (tab run1)) /\
  projected_version (base (tab run1)) = version (base (tab run1)) +u64 3.
Proof.
  destruct (pipeline_converges (free boot0) boot0 run1 (within_own _ boot0_settled) boot0_settled run1_reached) as (_ & _ & Ha & Hv & _).
  split; [|exact Hv]. exact (Ha (AllocIds ids3) [ReleaseIds ids3; AllocId (2 ^ 40 + 1)] eq_refl).
Defined.

(** The rank's numbers are those of [boot0] and nine that a session had from
    before: the session gives them back, and they are handed out again. *)
Definition rank0 : interval_set := Mk (2 ^ 40) [(2 ^ 40, 2 ^ 40)].
Definition ids9 : interval_set := Mk 9 [(2 ^ 40, 9)].
Definition loaded0 : ino_table :=
  MkIno (set_state STATE_ACTIVE (new_table true 0))
    (Mk (2 ^ 40 - 9) [(2 ^ 40 + 9, 2 ^ 40 - 9)]) (Mk (2 ^ 40 - 9) [(2 ^ 40 + 9, 2 ^ 40 - 9)]).
Definition run3 : pipe :=
  MkPipe (MkIno (MkTable true 0 STATE_ACTIVE 0 0 0 4 [])
            (Mk (2 ^ 40 - 9) [(2 ^ 40 + 9, 2 ^ 40 - 9)]) (Mk (2 ^ 40 - 1) [(2 ^ 40 + 1, 2 ^ 40 - 1)]))
    [ReleaseIds ids9; AllocIds ids9; ReleaseIds ids9; AllocId (2 ^ 40)]
    [ReleaseIds ids9; AllocIds ids9; ReleaseIds ids9; AllocId (2 ^ 40)].

Lemma ids9_released pf :
  wf ids9 /\ forall x, mem (m ids9) x ->
    mem (m rank0) x /\ ~ mem (m (Mk pf [(2 ^ 40 + 9, 2 ^ 40 - 9)])) x.
Proof.
  split; [split; simpl; try split_and!; done|].
  intros x. simpl. rewrite !mem_cons, !mem_nil. simpl. lia.
Qed.

Lemma run3_reached : rtc (pipe_step (m rank0)) (MkPipe loaded0 [] []) run3.
Proof.
  eapply rtc_l; [eapply (pipe_release _ _ _ _ ids9); [vm_compute; reflexivity|apply (ids9_released 0)..]|].
  eapply rtc_l; [eapply (pipe_allocs _ _ _ _ 9); [vm_compute; reflexivity|lia]|].
  eapply rtc_l; [eapply (pipe_release _ _ _ _ ids9); [vm_compute; reflexivity|apply (ids9_released 0)..]|].
  eapply rtc_l; [eapply (pipe_alloc _ _ _ _ 0); [vm_compute; reflexivity|lia]|].
  apply rtc_refl.
Qed.

Lemma loaded0_settled : settled loaded0.
Proof. by split. Qed.

Lemma loaded0_within : within rank0 (free loaded0).
Proof.
  split; [split; simpl; try split_and!; done|].
  intros x. simpl. rewrite !mem_cons, !mem_nil. simpl. lia.
Qed.

Lemma no_double_allocation_witness :
  exists r, r ∈ [ReleaseIds ids9] /\ is_release r = true /\ mem (op_set r) (2 ^ 40).
Proof.
  apply (no_double_allocation rank0 loaded0 run3 [ReleaseIds ids9] (AllocIds ids9) [ReleaseIds ids9]
           (AllocId (2 ^ 40)) [] (2 ^ 40) loaded0_within loaded0_settled run3_reached);
    try reflexivity; apply mem_cons; left; simpl; lia.
Defined.

Definition boot1 : ino_table :=
  MkIno (set_state STATE_ACTIVE (new_table true 1))
    (Mk (2 ^ 40) [(2 ^ 41, 2 ^ 40)]) (Mk (2 ^ 40) [(2 ^ 41, 2 ^ 40)]).

Definition run2 : pipe :=
  MkPipe (MkIno (MkTable true 1 STATE_ACTIVE 0 0 0 1 [])
            (Mk (2 ^ 40) [(2 ^ 41, 2 ^ 40)]) (Mk (2 ^ 40 - 1) [(2 ^ 41 + 1, 2 ^ 40 - 1)]))
    [AllocId (2 ^ 41)] [AllocId (2 ^ 41)].

Lemma run2_reached : rtc (pipe_step (m (free boot1))) (MkPipe boot1 [] []) run2.
Proof.
  eapply rtc_l; [eapply (pipe_alloc _ _ _ _ 0); [vm_compute; reflexivity|lia]|].
  apply rtc_refl.
Qed.

Lemma ranks_never_share_inos_witness :
  booted 0 = Some boot0 /\ booted 1 = Some boot1 /\ ~ mem (op_set (AllocId (2 ^ 41))) (2 ^ 40 + 2).
Proof.
  split; [reflexivity|]. split; [reflexivity|].
  apply (ranks_never_share_inos 0 1 boot0 boot1 run1 run2 (AllocIds ids3) (AllocId (2 ^ 41))
           (2 ^ 40 + 2)); [lia|lia|reflexivity|reflexivity|exact run1_reached|exact run2_reached|
    lia|right; left|left|apply mem_cons; left; simpl; lia].
Defined.

End InoTable.
