(* ===== verification/InoRecovery.v ===== *)
(** * The inode table across crashes: its journal entries, saving and recovery

    What the rest of the daemon does with an [InoTable]: a request that creates
    an inode projects its allocations and journals them in an EMetaBlob
    ([Server::prepare_new_inode], [journal_allocated_inos]); closing a session
    gives its numbers back in an ESession ([Server::journal_close_session]); when
    an entry is safe its operations are applied ([apply_allocated_inos],
    [_session_logged]); the table object is written from time to time, segments
    of the journal whose numbers are in it are trimmed
    ([LogSegment::try_to_expire]), and a daemon that takes over loads the object
    and replays what is left of the journal ([EMetaBlob::replay],
    [ESession::replay]), each entry only if the table is older than the version
    the entry names.

    The system of these events ([exec]) keeps apart what is submitted, what is
    on disk and what is applied, and the object may be any number of entries
    behind.  The theorem: no enabled event aborts, and a crash at any point
    gives back exactly the table that the entries on disk describe. *)

From S2P Require Import Prelude Encoding IntervalSet MDSTable InoTable.
Import Encoding IntervalSet MDSTable InoTable.

Module InoRecovery.

(** The parts of the two kinds of entries that concern the inode table. *)
Inductive jentry :=
  | EMetaBlob (allocated_ino : Z) (preallocated_inos : interval_set) (inotablev : Z)
  | ESession (inos : interval_set) (inotablev : Z).

(** ** Requests *)

(** [Server::prepare_new_inode]: the number is taken from the session's ([take])
    or from the table, and the session may be given [need] more. *)
Definition prepare_new_inode (take : bool) (need : option Z) (t : ino_table)
  : option (Z * interval_set * ino_table) :=
  '(alloc_ino, t) ← (if take then Some (0, t) else project_alloc_id 0 t);
  '(prealloc_inos, t) ←
    match need with
    | None => Some (empty_set, t)
    | Some n =>
        '(ids, t) ← project_alloc_ids empty_set n t;
        assert! negb (size ids =? 0);
        Some (ids, t)
    end;
  Some (alloc_ino, prealloc_inos, t).

Definition journal_allocated_inos (alloc_ino : Z) (prealloc_inos : interval_set) (t : ino_table) : jentry :=
  EMetaBlob alloc_ino prealloc_inos (projected_version (base t)).

(** [Server::journal_close_session]; [both] are the numbers the session has. *)
Definition journal_close_session (both : interval_set) (t : ino_table) : option (jentry * ino_table) :=
  if size both =? 0 then Some (ESession both 0, t)
  else
    t ← project_release_ids both t;
    Some (ESession both (projected_version (base t)), t).

(** What is done when an entry is safe. *)
Definition apply_allocated_inos (alloc_ino : Z) (prealloc_inos : interval_set) (t : ino_table) : option ino_table :=
  t ← (if alloc_ino =? 0 then Some t else apply_alloc_id alloc_ino t);
  (if size prealloc_inos =? 0 then Some t else apply_alloc_ids prealloc_inos t).

Definition _session_logged (inos : interval_set) (piv : Z) (t : ino_table) : option ino_table :=
  if piv =? 0 then Some t
  else
    t ← apply_release_ids inos t;
    assert! version (base t) =? piv;
    Some t.

Definition apply_entry (e : jentry) (t : ino_table) : option ino_table :=
  match e with
  | EMetaBlob alloc_ino prealloc_inos _ => apply_allocated_inos alloc_ino prealloc_inos t
  | ESession inos piv => _session_logged inos piv t
  end.

(** ** Replay; the flag says that the cluster log was told of a mismatch *)

(** [EMetaBlob::replay] *)
Definition replay_metablob (allocated_ino : Z) (preallocated_inos : interval_set) (inotablev : Z) (t : ino_table)
  : option (ino_table * bool) :=
  if inotablev =? 0 then Some (t, false)
  else if inotablev <=? version (base t) then Some (t, false)
  else
    '(t, b1) ← (if allocated_ino =? 0 then Some (t, false) else replay_alloc_id allocated_ino t);
    '(t, b2) ← (if size preallocated_inos =? 0 then Some (t, false)
                else replay_alloc_ids preallocated_inos t);
    let b3 := version (base t) <? inotablev in
    let t := if b3 then set_base (force_replay_version inotablev (base t)) t else t in
    assert! inotablev =? version (base t);
    Some (t, b1 || b2 || b3).

(** [ESession::replay], of a session that closes *)
Definition replay_session (inos : interval_set) (inotablev : Z) (t : ino_table) : option (ino_table * bool) :=
  if (size inos =? 0) || (inotablev =? 0) then Some (t, false)
  else if inotablev <=? version (base t) then Some (t, false)
  else
    t ← replay_release_ids inos t;
    assert! version (base t) =? inotablev;
    Some (t, false).

Definition replay_entry (e : jentry) (t : ino_table) : option (ino_table * bool) :=
  match e with
  | EMetaBlob a p v => replay_metablob a p v t
  | ESession i v => replay_session i v t
  end.

Fixpoint replay_journal (l : list jentry) (t : ino_table) : option (ino_table * bool) :=
  match l with
  | [] => Some (t, false)
  | e :: l => '(t, b) ← replay_entry e t; '(t, b') ← replay_journal l t; Some (t, b || b')
  end.

(** The version a log segment notes for the entry, [update_segment]. *)
Definition segment_version (e : jentry) : Z :=
  match e with
  | EMetaBlob _ _ v => v
  | ESession inos v => if size inos =? 0 then 0 else v
  end.

(** ** The daemon, its journal and the table object

    [waiting] are the entries submitted and not on disk, [disk] those on disk,
    the last of which, [safe], have not been applied; [inflight] are the writes
    of the object that are not complete.  [expired] are the entries trimmed so
    far; no operation looks at them. *)
Record daemon := MkDaemon {
  tab : ino_table;
  waiting : list jentry;
  safe : list jentry;
  expired : list jentry;
  disk : list jentry;
  object : bytes;
  inflight : list (bytes * Z);
  told : bool
}.

Inductive event :=
  | NewInode (take : bool) (need : option Z)
  | CloseSession (both : interval_set)
  | Flushed
  | Applied
  | Save (c : nat) (need : Z)
  | Saved
  | Trim
  | Crash.

Definition submit (e : jentry) (t : ino_table) (s : daemon) : daemon :=
  MkDaemon t (waiting s ++ [e]) (safe s) (expired s) (disk s) (object s) (inflight s) (told s).
Definition set_tab (t : ino_table) (s : daemon) : daemon :=
  MkDaemon t (waiting s) (safe s) (expired s) (disk s) (object s) (inflight s) (told s).

Definition written (e : list effect) : list (bytes * Z) :=
  omap (fun x => match x with WriteFull bl v => Some (bl, v) | _ => None end) e.

(** The table of a daemon that takes over the rank. *)
Definition recover (s : daemon) : option (ino_table * bool) :=
  let t0 := new_table true (rank (base (tab s))) in
  '(t1, _) ← load t0;
  match load_2 (S := child_state) 0 (object s) None t1 with
  | Some (b, Some ch, _) => replay_journal (disk s) (MkIno b ch.1 ch.2)
  | _ => None
  end.

(** [None] is an assertion that fails; an event that is not [enabled] leaves the
    daemon as it is. *)
Definition exec (e : event) (s : daemon) : option daemon :=
  match e with
  | NewInode take need =>
      '(a, p, t) ← prepare_new_inode take need (tab s);
      Some (submit (journal_allocated_inos a p t) t s)
  | CloseSession both => '(e, t) ← journal_close_session both (tab s); Some (submit e t s)
  | Flushed =>
      match waiting s with
      | [] => Some s
      | e :: l => Some (MkDaemon (tab s) l (safe s ++ [e]) (expired s) (disk s ++ [e]) (object s) (inflight s) (told s))
      end
  | Applied =>
      match safe s with
      | [] => Some s
      | e :: l =>
          t ← apply_entry e (tab s);
          Some (MkDaemon t (waiting s) l (expired s) (disk s) (object s) (inflight s) (told s))
      end
  | Save c need =>
      '(b, e) ← save (Some c) need (base (tab s)) (child_of (tab s));
      Some (MkDaemon (set_base b (tab s)) (waiting s) (safe s) (expired s) (disk s) (object s)
              (inflight s ++ written e) (told s))
  | Saved =>
      match inflight s with
      | [] => Some s
      | (bl, v) :: l =>
          let '(b, _) := save_2 0 v (base (tab s)) in
          Some (MkDaemon (set_base b (tab s)) (waiting s) (safe s) (expired s) (disk s) bl l (told s))
      end
  | Trim =>
      match disk s with
      | [] => Some s
      | e :: l =>
          if segment_version e <=? committed_version (base (tab s)) then
            Some (MkDaemon (tab s) (waiting s) (safe s) (expired s ++ [e]) l (object s) (inflight s) (told s))
          else Some s
      end
  | Crash =>
      '(t, b) ← recover s;
      Some (MkDaemon t [] [] (expired s) (disk s) (object s) [] (told s || b))
  end.

(** ** The operations of entries *)

Definition entry_ops (e : jentry) : list op :=
  match e with
  | EMetaBlob a p _ =>
      (if a =? 0 then [] else [AllocId a]) ++ (if size p =? 0 then [] else [AllocIds p])
  | ESession i _ => if size i =? 0 then [] else [ReleaseIds i]
  end.
Definition ops (l : list jentry) : list op := concat (map entry_ops l).

Definition entry_version (e : jentry) : Z :=
  match e with EMetaBlob _ _ v | ESession _ v => v end.

(** The version the table has after the operations. *)
Definition after (v : Z) (l : list op) : Z := v + Z.of_nat (length l).

(** Each entry with operations names the version they lead to, the others none
    that is newer; a session's entry without any names 0. *)
Fixpoint numbered (v : Z) (l : list jentry) : Prop :=
  match l with
  | [] => True
  | e :: l =>
      let v' := after v (entry_ops e) in
      (entry_ops e <> [] -> entry_version e = v') /\ entry_version e <= v' /\
      (forall i pv, e = ESession i pv -> size i = 0 -> pv = 0) /\ numbered v' l
  end.

Lemma ops_app l1 l2 : ops (l1 ++ l2) = ops l1 ++ ops l2.
Proof. unfold ops. by rewrite map_app, concat_app. Qed.
Lemma ops_cons e l : ops (e :: l) = entry_ops e ++ ops l.
Proof. done. Qed.
Lemma after_app v l1 l2 : after v (l1 ++ l2) = after (after v l1) l2.
Proof. unfold after. rewrite length_app. lia. Qed.
Lemma after_le v l : v <= after v l.
Proof. unfold after. lia. Qed.
Lemma after_same v l : after v l <= v -> l = [].
Proof. unfold after. destruct l; simpl; [done|lia]. Qed.

Lemma numbered_app v l1 l2 : numbered v (l1 ++ l2) <-> numbered v l1 /\ numbered (after v (ops l1)) l2.
Proof.
  revert v. induction l1 as [|e l1 IH]; intros v; simpl.
  - unfold after. simpl. rewrite Z.add_0_r. tauto.
  - rewrite IH, ops_cons, after_app. tauto.
Qed.

Lemma runs_det U s l a b : runs U s l a -> runs U s l b -> a = b.
Proof.
  intros H. revert b. induction H as [|s o s1 l s2 _ E _ IH]; intros b Hb; inversion Hb; subst; [done|].
  apply IH. congruence.
Qed.

Section Rank.
(** [U] are the numbers of the rank, and 0 is not one. *)
Context (U : interval_set) (HU : wf U) (H0 : ~ mem (m U) 0).

(** What the rest of the MDS sees to: numbers do not run out, versions do not
    reach 2^64, what a session gives back is not free, and the table has not
    fallen into so many intervals that the object's length does not fit. *)
Definition enabled (e : event) (s : daemon) : Prop :=
  match e with
  | NewInode take need =>
      projected_version (base (tab s)) + 2 < 2 ^ 64 /\
      (forall n, need = Some n -> 0 < n < 2 ^ 31) /\
      (if take then 0 else 1) + default 0 need <= size (projected_free (tab s))
  | CloseSession both =>
      projected_version (base (tab s)) + 1 < 2 ^ 64 /\ valid (m U) (projected_free (tab s)) (ReleaseIds both)
  | Save _ _ => 16 * Z.of_nat (length (m (free (tab s)))) + 4 < 2 ^ 32
  | _ => True
  end.

Inductive step : daemon -> daemon -> Prop :=
  | step_exec e s s' : enabled e s -> exec e s = Some s' -> step s s'.

(** A daemon with the table [t], which the object holds. *)
Definition boot (t : ino_table) : daemon :=
  MkDaemon t [] [] [] [] (encode_u64 (version (base t)) ++ encode_state (child_of t)) [] false.

(** The object holds the table after some of the entries that are on disk. *)
Definition image (f0 : interval_set) (v0 : Z) (j : list jentry) (bl : bytes) (v : Z) : Prop :=
  exists l1 l2 f, j = l1 ++ l2 /\ runs (m U) f0 (ops l1) f /\ v = after v0 (ops l1) /\
    storable (f, f) /\ bl = encode_u64 v ++ encode_state (f, f).

Record good (f0 : interval_set) (v0 : Z) (s : daemon) : Prop := {
  g_active : state (base (tab s)) = STATE_ACTIVE;
  g_numbered : numbered v0 (expired s ++ disk s ++ waiting s);
  g_applied : exists ap, expired s ++ disk s = ap ++ safe s /\
    runs (m U) f0 (ops ap) (free (tab s)) /\ version (base (tab s)) = after v0 (ops ap);
  g_projected : runs (m U) f0 (ops (expired s ++ disk s ++ waiting s)) (projected_free (tab s));
  g_version : projected_version (base (tab s)) = after v0 (ops (expired s ++ disk s ++ waiting s));
  g_width : 0 <= v0 /\ projected_version (base (tab s)) < 2 ^ 64;
  g_object : image f0 v0 (expired s ++ disk s) (object s) (committed_version (base (tab s)));
  g_inflight : Forall (fun w => image f0 v0 (expired s ++ disk s) w.1 w.2) (inflight s);
  g_ordered : ordered (committed_version (base (tab s))) (map snd (inflight s));
  g_latest : Forall (fun w => w.2 <= version (base (tab s))) (inflight s) /\
    committed_version (base (tab s)) <= version (base (tab s));
  g_expired : after v0 (ops (expired s)) <= committed_version (base (tab s));
  g_told : told s = false
}.

Context (f0 : interval_set) (v0 : Z) (Hf : wf f0) (Hin : forall y, mem (m f0) y -> mem (m U) y).
#[local] Abbreviation runsU := (runs (m U)).

Lemma runs_ok l f : runsU f0 l f -> wf f /\ forall y, mem (m f) y -> mem (m U) y.
Proof. intros H. eapply runs_wf; [apply HU|apply HU|exact Hf|exact Hin|exact H]. Qed.

Lemma image_more j l bl v : image f0 v0 j bl v -> image f0 v0 (j ++ l) bl v.
Proof. intros (l1 & l2 & f & -> & H). exists l1, (l2 ++ l), f. by rewrite app_assoc. Qed.

(** ** Applying and replaying one entry *)

Lemma set_version_same (b : table) : set_version (version b) b = b.
Proof. by destruct b. Qed.
Lemma force_same (b : table) : projected_version b = version b -> force_replay_version (version b) b = b.
Proof. destruct b. simpl. by intros <-. Qed.

(** Operations one after the other. *)
Fixpoint apply_ops (l : list op) (t : ino_table) : option ino_table :=
  match l with [] => Some t | o :: l => t ← apply_op o t; apply_ops l t end.
Fixpoint replay_ops (l : list op) (t : ino_table) : option (ino_table * bool) :=
  match l with
  | [] => Some (t, false)
  | o :: l => '(t, b) ← replay_op o t; '(t, b') ← replay_ops l t; Some (t, b || b')
  end.

Lemma apply_entry_ops e t :
  apply_entry e t =
    match e with
    | EMetaBlob _ _ _ => apply_ops (entry_ops e) t
    | ESession i v =>
        if v =? 0 then Some t
        else t ← apply_op (ReleaseIds i) t; assert! version (base t) =? v; Some t
    end.
Proof.
  destruct e as [a p w|i w]; [|done]. cbn [apply_entry entry_ops]. unfold apply_allocated_inos.
  destruct (a =? 0), (size p =? 0); cbn [app apply_ops apply_op]; obind; try done.
  - by destruct (apply_alloc_ids p t).
  - destruct (apply_alloc_id a t) as [t1|]; obind; [|done]. by destruct (apply_alloc_ids p t1).
Qed.

Lemma apply_ops_spec l t f :
  let v := version (base t) in
  0 <= v -> after v l < 2 ^ 64 -> runsU (free t) l f ->
  apply_ops l t = Some (MkIno (set_version (after v l) (base t)) f (projected_free t)).
Proof.
  cbn. intros Hp Hb Hr. revert t Hp Hb Hr. unfold after.
  induction l as [|o l IH]; intros t Hp Hb Hr; inversion Hr as [|? ? s1 ? ? _ Ho Hr']; subst; cbn [apply_ops length] in *.
  - rewrite Z.add_0_r. by destruct t as [[] ? ?].
  - rewrite (proj2 (apply_op_set o t _) (ex_intro _ s1 (conj Ho eq_refl))). obind.
    assert (Hv : version (inc_version (base t)) = version (base t) + 1)
      by (unfold inc_version; cbn; apply u64_small; lia).
    rewrite IH; cbn [base free projected_free]; rewrite ?Hv; [|lia|lia|done].
    by replace (version (base t) + 1 + Z.of_nat (length l)) with (version (base t) + Z.of_nat (S (length l))) by lia.
Qed.

Lemma apply_entry_spec e t f :
  let v := version (base t) in
  numbered v [e] -> 0 <= v -> after v (entry_ops e) < 2 ^ 64 -> runsU (free t) (entry_ops e) f ->
  apply_entry e t = Some (MkIno (set_version (after v (entry_ops e)) (base t)) f (projected_free t)).
Proof.
  intros v (Hv & _ & Hz & _) Hp Hb Hr. rewrite apply_entry_ops.
  destruct e as [a p w|i w]; [by apply apply_ops_spec|]. cbn [entry_ops entry_version] in *.
  destruct (Z.eqb_spec (size i) 0) as [E|E].
  - rewrite (Hz i w eq_refl E), Z.eqb_refl. inversion Hr; subst.
    unfold after. cbn [length]. rewrite Z.add_0_r. by destruct t as [[] ? ?].
  - pose proof (apply_ops_spec [ReleaseIds i] t f Hp Hb Hr) as H. cbn [apply_ops] in H.
    destruct (apply_op (ReleaseIds i) t) as [t'|]; [|done]. injection H as ->.
    rewrite Hv by done. obind. cbn [base version set_version]. rewrite Z.eqb_refl.
    rewrite (proj2 (Z.eqb_neq _ _)); [done|]. unfold after. cbn [length]. lia.
Qed.

(** The table after a replay: nothing in flight. *)
Definition at_version (t : ino_table) (v : Z) (f : interval_set) : ino_table :=
  MkIno (force_replay_version v (base t)) f f.

(** Nothing is in flight and the free numbers are the rank's. *)
Record quiet (t : ino_table) : Prop := {
  q_version : 0 <= version (base t);
  q_projected : projected_version (base t) = version (base t);
  q_free : projected_free t = free t;
  q_wf : wf (free t);
  q_sub : forall y, mem (m (free t)) y -> mem (m U) y
}.

Lemma at_same t : quiet t -> at_version t (version (base t)) (free t) = t.
Proof. intros [_ Hv Hf' _ _]. unfold at_version. rewrite force_same by done. destruct t; simpl in *. by subst. Qed.

Lemma at_quiet t v l f : quiet t -> 0 <= v -> runsU (free t) l f -> quiet (at_version t v f).
Proof.
  intros [_ _ _ Hw Hs] Hv Hr.
  destruct (runs_wf _ _ _ _ (wf_intervals _ HU) (wf_small _ HU) Hw Hs Hr) as [? ?]. by split.
Qed.

Lemma replay_ops_spec l t f :
  let v := version (base t) in
  quiet t -> after v l < 2 ^ 64 -> runsU (free t) l f -> replay_ops l t = Some (at_version t (after v l) f, false).
Proof.
  cbn. revert t. unfold after. induction l as [|o l IH]; intros t Hq Hb Hr;
    inversion Hr as [|? ? s1 ? ? Hva Ho Hr']; subst; cbn [replay_ops length] in *.
  - by rewrite Z.add_0_r, at_same.
  - pose proof (q_version _ Hq). rewrite (replay_op_spec (m U) o t s1); [|apply HU|apply HU|apply Hq..|done|done]. obind.
    assert (E : MkIno (inc_both (base t)) s1 s1 = at_version t (version (base t) + 1) s1)
      by (unfold at_version, inc_both; by rewrite u64_small by lia).
    rewrite E, IH; [..|exact Hr'].
    + obind. cbn [orb at_version base version force_replay_version set_projected set_version].
      by replace (version (base t) + 1 + Z.of_nat (length l)) with (version (base t) + Z.of_nat (S (length l))) by lia.
    + eapply (at_quiet t _ [o]); [done|lia|by eapply runs_cons; [..|constructor]].
    + cbn. lia.
Qed.

Lemma replay_meta_ops a p w t : version (base t) < w -> 0 <= version (base t) ->
  replay_entry (EMetaBlob a p w) t =
    '(t, b) ← replay_ops (entry_ops (EMetaBlob a p w)) t;
    let b3 := version (base t) <? w in
    let t := if b3 then set_base (force_replay_version w (base t)) t else t in
    assert! w =? version (base t); Some (t, b || b3).
Proof.
  intros Hw Hp. cbn [replay_entry entry_ops]. unfold replay_metablob. rewrite (proj2 (Z.eqb_neq _ _)), (proj2 (Z.leb_gt _ _)) by lia.
  destruct (a =? 0), (size p =? 0); cbn [app replay_ops replay_op]; obind; try done.
  - destruct (replay_alloc_ids p t) as [[t1 b]|]; obind; [|done]. by rewrite orb_false_r.
  - destruct (replay_alloc_id a t) as [[t1 b]|]; obind; [|done]. by rewrite !orb_false_r.
  - destruct (replay_alloc_id a t) as [[t1 b]|]; obind; [|done].
    destruct (replay_alloc_ids p t1) as [[t2 b']|]; obind; [|done]. by rewrite orb_false_r.
Qed.

Lemma replay_entry_spec e t f :
  let v := version (base t) in
  numbered v [e] -> quiet t -> after v (entry_ops e) < 2 ^ 64 -> runsU (free t) (entry_ops e) f ->
  replay_entry e t = Some (at_version t (after v (entry_ops e)) f, false).
Proof.
  intros v (Hv & Hle & Hz & _) Hq Hb Hr. pose proof (q_version _ Hq).
  destruct (entry_ops e) as [|o l] eqn:E.
  - inversion Hr; subst. unfold after in *. cbn [length] in *. rewrite Z.add_0_r in *. subst v. rewrite at_same by done.
    destruct e as [a p w|i w]; cbn [replay_entry entry_ops entry_version] in *; unfold replay_metablob, replay_session.
    + rewrite (proj2 (Z.leb_le _ _)) by done. by destruct (w =? 0).
    + by destruct (size i =? 0).
  - assert (Hlt : v < entry_version e) by (rewrite Hv by done; unfold after; cbn [length]; lia).
    destruct e as [a p w|i w]; cbn [entry_version] in *.
    + rewrite replay_meta_ops, E, (replay_ops_spec _ t f) by done. obind.
      cbn [at_version base version force_replay_version set_projected set_version]. fold v.
      rewrite Hv, Z.ltb_irrefl by done. cbn [base version force_replay_version set_projected set_version].
      by rewrite Z.eqb_refl.
    + cbn [entry_ops] in E. destruct (size i =? 0) eqn:Es; [done|]. injection E as <- <-.
      pose proof (replay_ops_spec [ReleaseIds i] t f Hq Hb Hr) as Hx. cbn [replay_ops replay_op replay_entry] in *. unfold replay_session.
      rewrite Es, (proj2 (Z.eqb_neq w 0)), (proj2 (Z.leb_gt _ _)) by lia. cbn [orb].
      destruct (replay_release_ids i t) as [t'|]; obind; [|done]. injection Hx as ->.
      cbn [at_version base version force_replay_version set_projected set_version]. fold v.
      by rewrite <- Hv, Z.eqb_refl by done.
Qed.

(** ** Replaying the journal *)

Lemma numbered_cons v e l : numbered v (e :: l) <-> numbered v [e] /\ numbered (after v (entry_ops e)) l.
Proof. simpl. tauto. Qed.

Lemma replay_journal_spec l t f :
  let v := version (base t) in
  numbered v l -> quiet t -> after v (ops l) < 2 ^ 64 -> runsU (free t) (ops l) f ->
  replay_journal l t = Some (at_version t (after v (ops l)) f, false).
Proof.
  cbn. revert t. induction l as [|e l IH]; intros t Hn Hq Hb Hr; cbn [replay_journal].
  { inversion Hr; subst. unfold after. cbn. by rewrite Z.add_0_r, at_same. }
  apply numbered_cons in Hn as [He Hn]. rewrite ops_cons in *. apply runs_app_inv in Hr as (f1 & Hr1 & Hr2).
  rewrite after_app in *. pose proof (after_le (after (version (base t)) (entry_ops e)) (ops l)).
  rewrite (replay_entry_spec e t f1) by (done || lia). obind.
  rewrite IH; [done|done| |done|done].
  eapply at_quiet; [done| |exact Hr1]. pose proof (q_version _ Hq). pose proof (after_le (version (base t)) (entry_ops e)). lia.
Qed.

Lemma numbered_skip v l t : numbered v l -> after v (ops l) <= version (base t) ->
  replay_journal l t = Some (t, false).
Proof.
  revert v. induction l as [|e l IH]; intros v Hn Hv; [done|]. cbn [replay_journal].
  destruct Hn as (_ & Hle & _ & Hn). rewrite ops_cons, after_app in Hv.
  pose proof (after_le (after v (entry_ops e)) (ops l)).
  assert (replay_entry e t = Some (t, false)) as ->.
  { destruct e as [a p w|i w]; cbn [replay_entry entry_version] in *; unfold replay_metablob, replay_session;
      rewrite (proj2 (Z.leb_le w _)) by lia; by destruct (_ =? 0); [|destruct (w =? 0)] || destruct (_ || _). }
  obind. by rewrite (IH (after v (entry_ops e))).
Qed.

Lemma replay_journal_app l1 l2 t :
  replay_journal (l1 ++ l2) t =
    '(t, b) ← replay_journal l1 t; '(t, b') ← replay_journal l2 t; Some (t, b || b').
Proof.
  revert t. induction l1 as [|e l1 IH]; intros t; cbn [app replay_journal].
  - obind. by destruct (replay_journal l2 t) as [[? ?]|].
  - destruct (replay_entry e t) as [[t1 b]|]; obind; [|done]. rewrite IH.
    destruct (replay_journal l1 t1) as [[t2 b2]|]; obind; [|done].
    destruct (replay_journal l2 t2) as [[t3 b3]|]; obind; [|done]. by rewrite orb_assoc.
Qed.

(** An image that has what is expired is the expired part and some of the rest. *)
Lemma image_split ex d l1 l2 :
  ex ++ d = l1 ++ l2 -> after v0 (ops ex) <= after v0 (ops l1) ->
  exists d1 d2, d = d1 ++ d2 /\ ops (ex ++ d1) = ops l1.
Proof.
  intros E Hle. apply app_eq_inv in E as [(k & -> & ->)|(k & -> & ->)].
  - exists [], d. rewrite app_nil_r, ops_app in *. split; [done|].
    rewrite after_app in Hle. apply after_same in Hle as ->. apply app_nil_r.
  - exists k, l2. done.
Qed.

Lemma load_image v f b :
  0 <= v < 2 ^ 64 -> storable (f, f) -> state b = STATE_OPENING ->
  load_2 (S := child_state) 0 (encode_u64 v ++ encode_state (f, f)) None b =
    Some (set_committed v (force_replay_version v (set_state STATE_ACTIVE b)), Some (f, f), []).
Proof.
  intros Hv Hs Hb.
  destruct (load_saved (set_version v (set_state STATE_ACTIVE (new_table true 0))) (f, f) None 0
    _ (encode_u64 v ++ encode_state (f, f)) v b None Hv Hs eq_refl Hb) as [_ E]. exact E.
Qed.

(** What is on disk is in the object, or comes after what is. *)
Lemma disk_split s (c := committed_version (base (tab s))) :
  good f0 v0 s ->
  exists d1 d2 f f', disk s = d1 ++ d2 /\ numbered (after v0 (ops (expired s))) d1 /\
    c = after v0 (ops (expired s ++ d1)) /\ numbered c d2 /\ 0 <= c /\ after c (ops d2) < 2 ^ 64 /\
    runsU f0 (ops (expired s ++ d1)) f /\ runsU f (ops d2) f' /\
    storable (f, f) /\ object s = encode_u64 c ++ encode_state (f, f).
Proof.
  intros G. destruct (g_object _ _ _ G) as (l1 & l2 & f & Ej & Hr & Hv & Hst & Hbl). fold c in Hv, Hbl.
  pose proof (g_expired _ _ _ G) as Hex. fold c in Hex. rewrite Hv in Hex.
  destruct (image_split _ _ _ _ Ej Hex) as (d1 & d2 & Ed & Eo). rewrite <- Eo in *.
  pose proof (g_numbered _ _ _ G) as Hn. rewrite app_assoc in Hn. apply numbered_app in Hn as [Hn _].
  rewrite Ed in Hn. apply numbered_app in Hn as [Hn1 Hn]. apply numbered_app in Hn as [Hn2 Hn3].
  rewrite <- after_app, <- ops_app, <- Hv in Hn3.
  assert (Hall : ops (expired s ++ disk s) = ops (expired s ++ d1) ++ ops d2)
    by (rewrite Ed, app_assoc, ops_app; done).
  pose proof (g_projected _ _ _ G) as Hp. rewrite app_assoc, ops_app, Hall, <- app_assoc in Hp.
  apply runs_app_inv in Hp as (fa & Ha & Hp). apply runs_app_inv in Hp as (fb & Hp & _).
  rewrite <- (runs_det _ _ _ _ _ Hr Ha) in Hp.
  destruct (g_width _ _ _ G) as [H00 Hw].
  rewrite (g_version _ _ _ G), app_assoc, ops_app, Hall, !after_app, <- Hv in Hw.
  pose proof (after_le (after c (ops d2)) (ops (waiting s))). pose proof (after_le v0 (ops (expired s ++ d1))).
  exists d1, d2, f, fb. split_and!; (done || lia).
Qed.

(** The daemon that takes over has the table of the entries on disk. *)
Lemma recover_spec s :
  good f0 v0 s ->
  exists t, recover s = Some (t, false) /\ quiet t /\ state (base t) = STATE_ACTIVE /\
    committed_version (base t) = committed_version (base (tab s)) /\
    version (base t) = after v0 (ops (expired s ++ disk s)) /\
    runsU f0 (ops (expired s ++ disk s)) (free t).
Proof.
  intros G. destruct (disk_split s G) as (d1 & d2 & f & f' & Ed & Hn1 & Hc & Hn2 & Hp & Hb & Hr & Hr' & Hst & Hbl).
  pose proof (after_le (committed_version (base (tab s))) (ops d2)).
  unfold recover, load. change (is_undef _) with true. obind.
  rewrite Hbl, load_image by (done || lia). rewrite Ed, replay_journal_app. cbn [fst snd].
  set (t := MkIno (set_committed _ _) f f).
  rewrite (numbered_skip (after v0 (ops (expired s))) d1); [|done|cbn; rewrite <- after_app, <- ops_app; lia].
  obind. destruct (runs_ok _ _ Hr) as [Hwf Hsub]. assert (Hq : quiet t) by (by split).
  rewrite (replay_journal_spec d2 t f') by done. obind. eexists. split; [done|].
  rewrite app_assoc, ops_app, after_app, <- Hc. split_and!; try done; [|by eapply runs_app].
  eapply at_quiet; [exact Hq|cbn; lia|exact Hr'].
Qed.

(** ** Every event keeps the invariant *)

(** The table has projected the operations of an entry. *)
Record projects (l : list op) (t t' : ino_table) : Prop := {
  pj_base : base t' = set_projected (after (projected_version (base t)) l) (base t);
  pj_free : free t' = free t;
  pj_runs : runsU (projected_free t) l (projected_free t')
}.

Lemma projects_nil t : projects [] t t.
Proof.
  split; [|done|constructor]. unfold after. cbn. rewrite Z.add_0_r. by destruct t as [[] ? ?].
Qed.

Lemma projects_app l1 l2 t1 t2 t3 : projects l1 t1 t2 -> projects l2 t2 t3 -> projects (l1 ++ l2) t1 t3.
Proof.
  intros [A1 A2 A3] [B1 B2 B3]. split.
  - rewrite B1, A1, after_app. done.
  - congruence.
  - by eapply runs_app.
Qed.

Lemma good_submit s e t' :
  good f0 v0 s -> projects (entry_ops e) (tab s) t' -> numbered (projected_version (base (tab s))) [e] ->
  after (projected_version (base (tab s))) (entry_ops e) < 2 ^ 64 -> good f0 v0 (submit e t' s).
Proof.
  intros [G1 G2 G3 G4 G5 G6 G7 G8 G9 G10 G11 G12] [P1 P2 P3] Hn Hb.
  assert (Hj : expired s ++ disk s ++ waiting s ++ [e] = (expired s ++ disk s ++ waiting s) ++ [e])
    by (by rewrite !app_assoc).
  split; cbn [submit tab waiting safe expired disk object inflight told]; rewrite ?P1, ?P2;
    cbn [state version projected_version committed_version set_projected]; try done.
  - rewrite Hj, numbered_app. by rewrite <- G5.
  - rewrite Hj, ops_app. eapply runs_app; [exact G4|]. cbn. by rewrite app_nil_r.
  - rewrite Hj, ops_app, after_app, <- G5. cbn. by rewrite app_nil_r.
  - split; [apply G6|done].
Qed.

Lemma good_proj s : good f0 v0 s ->
  wf (projected_free (tab s)) /\ (forall y, mem (m (projected_free (tab s))) y -> mem (m U) y) /\
  0 <= projected_version (base (tab s)).
Proof.
  intros G. destruct (runs_ok _ _ (g_projected _ _ _ G)). split_and!; [done..|].
  rewrite (g_version _ _ _ G). pose proof (g_width _ _ _ G).
  pose proof (after_le v0 (ops (expired s ++ disk s ++ waiting s))). lia.
Qed.

(** The number from the table, if one is needed. *)
Lemma project_one (take : bool) t :
  state (base t) = STATE_ACTIVE -> wf (projected_free t) -> (forall y, mem (m (projected_free t)) y -> mem (m U) y) ->
  0 <= projected_version (base t) -> projected_version (base t) + 1 < 2 ^ 64 ->
  (if take then 0 else 1) <= size (projected_free t) ->
  exists a t', (if take then Some (0, t) else project_alloc_id 0 t) = Some (a, t') /\
    projects (if a =? 0 then [] else [AllocId a]) t t' /\ (a =? 0) = take /\
    size (projected_free t') = size (projected_free t) - (if take then 0 else 1).
Proof.
  intros Ha Hw Hs Hp Hb Hsz. destruct take.
  { exists 0, t. split_and!; [done|apply projects_nil|done|lia]. }
  destruct (range_start (projected_free t)) as [i|] eqn:Er.
  2: { unfold range_start in Er. rewrite (wf_size _ Hw) in Hsz. destruct (m (projected_free t)); [|done]. cbn in Hsz. lia. }
  destruct (range_start_spec 0 _ _ (wf_intervals _ Hw) Er) as [Hm _].
  destruct (erase_one_spec _ _ Hw Hm) as (pf & Ee & _ & Hz & _).
  exists i, (MkIno (inc_projected (base t)) (free t) pf).
  assert (Hi : (i =? 0) = false) by (apply Z.eqb_neq; intros ->; by apply H0, Hs). rewrite Hi.
  split_and!; try done.
  - unfold project_alloc_id, is_active. rewrite bool_decide_eq_true_2 by done. rewrite Z.eqb_refl, Er. obind. by rewrite Ee.
  - split; [|done|by eapply runs_cons; [..|constructor]]. unfold inc_projected, after. cbn. by rewrite u64_small by lia.
Qed.

(** The session's refill. *)
Lemma project_more (need : option Z) t :
  state (base t) = STATE_ACTIVE -> wf (projected_free t) ->
  0 <= projected_version (base t) -> projected_version (base t) + 1 < 2 ^ 64 ->
  (forall n, need = Some n -> 0 < n < 2 ^ 31) -> default 0 need <= size (projected_free t) ->
  exists p t',
    match need with
    | None => Some (empty_set, t)
    | Some n => '(ids, t) ← project_alloc_ids empty_set n t; assert! negb (size ids =? 0); Some (ids, t)
    end = Some (p, t') /\ projects (if size p =? 0 then [] else [AllocIds p]) t t'.
Proof.
  intros Ha Hw Hp Hb Hn Hsz. destruct need as [n|]; [|exists empty_set, t; split; [done|apply projects_nil]].
  specialize (Hn n eq_refl). cbn in Hsz. pose proof (project_alloc_ids_spec t n Ha Hw ltac:(lia)) as H.
  rewrite (proj2 (Z.leb_le _ _)) in H by done. destruct H as (ids & pf & -> & Hal & Hsub). obind.
  assert (Hz : (size ids =? 0) = false).
  { apply Z.eqb_neq. rewrite (al_count _ _ _ _ _ Hal). cbn. lia. }
  rewrite Hz. cbn [negb]. eexists _, _. split; [done|]. rewrite Hz. split; [|done|].
  - unfold inc_projected, after. cbn. by rewrite u64_small by lia.
  - eapply runs_cons; [|exact Hsub|constructor]. split; [apply Hal|].
    intros x [Hx|[? _]]%(al_taken _ _ _ _ _ Hal); [by apply mem_nil in Hx|done].
Qed.

Lemma good_new_inode s take need :
  good f0 v0 s -> enabled (NewInode take need) s ->
  exists s', exec (NewInode take need) s = Some s' /\ good f0 v0 s'.
Proof.
  intros G (Hb & Hn & Hsz). destruct (good_proj s G) as (Hw & Hs & Hp).
  assert (0 <= default 0 need) by (destruct need as [n|]; cbn; [specialize (Hn n eq_refl)|]; lia).
  destruct (project_one take (tab s)) as (a & t1 & E1 & P1 & Ea & Hsz1);
    [apply G|done|done|done|lia|destruct take; lia|].
  pose proof (runs_wf _ _ _ _ (wf_intervals _ HU) (wf_small _ HU) Hw Hs (pj_runs _ _ _ P1)) as [Hw1 Hs1].
  assert (Hv1 : 0 <= projected_version (base t1) <= projected_version (base (tab s)) + 1).
  { rewrite (pj_base _ _ _ P1). unfold after. cbn. destruct (a =? 0); cbn; lia. }
  destruct (project_more need t1) as (p & t2 & E2 & P2); [by rewrite (pj_base _ _ _ P1); apply G|done|lia|lia|done|lia|].
  pose proof (projects_app _ _ _ _ _ P1 P2) as P.
  assert (Hv2 : projected_version (base t2) =
    after (projected_version (base (tab s))) (entry_ops (EMetaBlob a p (projected_version (base t2)))))
    by (rewrite (pj_base _ _ _ P); done).
  eexists. cbn [exec]. unfold prepare_new_inode. rewrite E1. obind. rewrite E2. obind. split; [done|]. unfold journal_allocated_inos.
  apply good_submit; [done|exact P| |].
  - cbn [numbered entry_version]. split_and!; [by intros _|lia|done|done].
  - unfold after. cbn [entry_ops]. destruct (a =? 0), (size p =? 0); cbn; lia.
Qed.

Lemma good_close s both :
  good f0 v0 s -> enabled (CloseSession both) s ->
  exists s', exec (CloseSession both) s = Some s' /\ good f0 v0 s'.
Proof.
  intros G (Hb & Hv). destruct (good_proj s G) as (Hw & Hs & Hp). cbn [exec]. unfold journal_close_session.
  destruct (Z.eqb_spec (size both) 0) as [E|E]; obind.
  - eexists. split; [done|]. apply good_submit; [done| | |]; cbn [entry_ops numbered entry_version]; rewrite ?E; cbn.
    + apply projects_nil.
    + unfold after. cbn. split_and!; try done; [lia|]. intros i pv [= _ <-]. done.
    + unfold after. cbn. lia.
  - destruct (on_set_spec (m U) (projected_free (tab s)) (ReleaseIds both) (wf_intervals _ HU) (wf_small _ HU) Hw Hs Hv)
      as (pf & Eo & _). unfold project_release_ids. cbn [on_set] in Eo. rewrite Eo. obind.
    assert (Eu : u64 (projected_version (base (tab s)) + 1) = projected_version (base (tab s)) + 1) by (apply u64_small; lia).
    eexists. split; [done|].
    apply good_submit; [done| | |]; cbn [entry_ops numbered entry_version]; rewrite (proj2 (Z.eqb_neq _ _) E).
    + split; [|done|by eapply runs_cons; [..|constructor]]. unfold inc_projected, after. cbn. by rewrite Eu.
    + unfold after. cbn. rewrite Eu. split_and!; try done. intros i pv [= <- _] ?. done.
    + unfold after. cbn. lia.
Qed.

Lemma good_flushed s e l :
  good f0 v0 s -> waiting s = e :: l ->
  good f0 v0 (MkDaemon (tab s) l (safe s ++ [e]) (expired s) (disk s ++ [e]) (object s) (inflight s) (told s)).
Proof.
  intros [G1 G2 G3 G4 G5 G6 G7 G8 G9 G10 G11 G12] E. rewrite E in *.
  assert (Hj : expired s ++ (disk s ++ [e]) ++ l = expired s ++ disk s ++ e :: l)
    by (by rewrite <- app_assoc).
  split; cbn [tab waiting safe expired disk object inflight told]; rewrite ?Hj; try done.
  - destruct G3 as (ap & Ej & Hr & Hv). exists ap. by rewrite app_assoc, Ej, <- app_assoc.
  - rewrite app_assoc. by apply image_more.
  - eapply Forall_impl; [exact G8|]. intros w Hw. rewrite app_assoc. by apply image_more.
Qed.

Lemma good_applied s e l :
  good f0 v0 s -> safe s = e :: l ->
  exists t, apply_entry e (tab s) = Some t /\
    good f0 v0 (MkDaemon t (waiting s) l (expired s) (disk s) (object s) (inflight s) (told s)).
Proof.
  intros [G1 G2 (ap & Ej & Hr & Hv) G4 G5 G6 G7 G8 G9 G10 G11 G12] E. rewrite E in Ej.
  assert (Hj : ops (expired s ++ disk s ++ waiting s) = ops ap ++ entry_ops e ++ ops (l ++ waiting s)).
  { by rewrite app_assoc, Ej, <- app_assoc, ops_app. }
  pose proof G4 as Hp. rewrite Hj in Hp. apply runs_app_inv in Hp as (f1 & Hr1 & Hp).
  rewrite <- (runs_det _ _ _ _ _ Hr Hr1) in Hp. apply runs_app_inv in Hp as (f2 & Hr2 & _).
  pose proof G2 as Hn. rewrite app_assoc, Ej, <- app_assoc in Hn. apply numbered_app in Hn as [_ Hn].
  cbn [app] in Hn. apply numbered_cons in Hn as [Hn _]. rewrite <- Hv in Hn.
  destruct G6 as [H00 Hb]. pose proof Hb as Hb'. rewrite G5, Hj, after_app, after_app, <- Hv in Hb'.
  pose proof (after_le (after (version (base (tab s))) (entry_ops e)) (ops (l ++ waiting s))).
  pose proof (after_le v0 (ops ap)). pose proof (after_le (version (base (tab s))) (entry_ops e)).
  eexists. split; [apply (apply_entry_spec e (tab s) f2); (done || lia)|].
  split; cbn [tab waiting safe expired disk object inflight told base free projected_free state version
    projected_version committed_version set_version]; try done.
  - exists (ap ++ [e]). rewrite ops_app, after_app, <- Hv. cbn. rewrite app_nil_r, <- app_assoc.
    split_and!; [done| |done]. by apply (runs_app _ _ _ _ _ _ Hr Hr2).
  - destruct G10 as [Ga Gb]. split; [|lia]. eapply Forall_impl; [exact Ga|]. cbn. lia.
Qed.

(** Saving writes the table as it is applied; a save that is under way only gets
    another waiter. *)
Lemma save_written c need (t : ino_table) :
  state (base t) = STATE_ACTIVE ->
  exists b e, save (Some c) need (base t) (child_of t) = Some (b, e) /\
    state b = STATE_ACTIVE /\ version b = version (base t) /\
    projected_version b = projected_version (base t) /\ committed_version b = committed_version (base t) /\
    (written e = [] \/ written e = [(encode_u64 (version (base t)) ++ encode_state (free t, free t), version (base t))]).
Proof.
  intros Ha. unfold save. destruct ((0 <? need) && _); [eexists _, _; by split_and!; [..|left]|].
  unfold is_active. rewrite bool_decide_eq_true_2 by done. eexists _, _. by split_and!; [..|right].
Qed.

Lemma good_save s c need :
  good f0 v0 s -> enabled (Save c need) s -> exists s', exec (Save c need) s = Some s' /\ good f0 v0 s'.
Proof.
  intros [G1 G2 G3 G4 G5 G6 G7 G8 G9 G10 G11 G12] Hl. cbn [exec enabled] in *.
  destruct (save_written c need (tab s) G1) as (b & e & -> & E1 & E2 & E3 & E4 & Hw). obind.
  eexists. split; [done|].
  split; cbn [tab waiting safe expired disk object inflight told base set_base free projected_free];
    rewrite ?E1, ?E2, ?E3, ?E4; try done.
  - apply Forall_app. split; [done|]. destruct Hw as [->| ->]; [constructor|]. apply Forall_singleton. cbn.
    destruct G3 as (ap & Ej & Hr & Hv). exists ap, (safe s), (free (tab s)).
    split_and!; try done. by destruct (runs_ok _ _ Hr).
  - rewrite map_app. destruct Hw as [->| ->]; [by rewrite app_nil_r|]. cbn. apply ordered_snoc; [done| |apply G10].
    destruct G10 as [Ga _]. clear -Ga. induction Ga; by constructor.
  - destruct G10 as [Ga Gb]. split; [|done]. apply Forall_app. split; [done|].
    destruct Hw as [->| ->]; [constructor|]. by apply Forall_singleton.
Qed.

Lemma good_saved s bl v l :
  good f0 v0 s -> inflight s = (bl, v) :: l ->
  good f0 v0 (MkDaemon (set_base (save_2 0 v (base (tab s))).1 (tab s)) (waiting s) (safe s) (expired s) (disk s) bl l (told s)).
Proof.
  intros [G1 G2 G3 G4 G5 G6 G7 G8 G9 G10 G11 G12] E. rewrite E in *. unfold save_2. cbn [Z.ltb Z.compare].
  destruct (take_waiters _ _) as [ls w]. destruct G10 as [Ga Gb].
  apply Forall_cons in G8 as [Hi G8]. apply Forall_cons in Ga as [Hle Ga]. cbn in G9, Hi, Hle. destruct G9 as [Hc G9].
  split; cbn [fst tab waiting safe expired disk object inflight told base set_base free projected_free
    set_waiters set_committed state version projected_version committed_version]; try done. lia.
Qed.

Lemma good_trim s e l :
  good f0 v0 s -> disk s = e :: l -> segment_version e <= committed_version (base (tab s)) ->
  good f0 v0 (MkDaemon (tab s) (waiting s) (safe s) (expired s ++ [e]) l (object s) (inflight s) (told s)).
Proof.
  intros [G1 G2 G3 G4 G5 G6 G7 G8 G9 G10 G11 G12] E Hv. rewrite E in *.
  assert (Hj : forall k, (expired s ++ [e]) ++ l ++ k = expired s ++ (e :: l) ++ k) by (intros k; by rewrite <- app_assoc).
  assert (Hj' : (expired s ++ [e]) ++ l = expired s ++ e :: l) by (by rewrite <- app_assoc).
  split; cbn [tab waiting safe expired disk object inflight told]; rewrite ?Hj, ?Hj'; try done.
  apply numbered_app in G2 as [_ Hn]. cbn [app] in Hn. destruct Hn as (Hn & _ & _).
  rewrite ops_app, after_app. cbn. rewrite app_nil_r. destruct (entry_ops e) as [|o k] eqn:Eo.
  { unfold after in *. cbn in *. lia. }
  rewrite <- Hn by done. destruct e as [a p w|i w]; cbn [segment_version entry_version entry_ops] in *; [done|].
  by destruct (size i =? 0).
Qed.

Lemma good_crash s :
  good f0 v0 s ->
  exists t, recover s = Some (t, false) /\
    good f0 v0 (MkDaemon t [] [] (expired s) (disk s) (object s) [] (told s || false)).
Proof.
  intros G. destruct (recover_spec s G) as (t & -> & [Q1 Q2 Q3 Q4 Q5] & Ha & Hc & Hv & Hr).
  exists t. split; [done|]. destruct G as [G1 G2 G3 G4 G5 G6 G7 G8 G9 G10 G11 G12].
  split; cbn [tab waiting safe expired disk object inflight told]; rewrite ?Hc, ?app_nil_r; try done.
  - rewrite app_assoc in G2. by apply numbered_app in G2 as [? _].
  - exists (expired s ++ disk s). by rewrite app_nil_r.
  - by rewrite Q3.
  - by rewrite Q2.
  - destruct G6 as [? Hb]. split; [done|]. rewrite Q2, Hv. rewrite G5, app_assoc, ops_app, after_app in Hb.
    pose proof (after_le (after v0 (ops (expired s ++ disk s))) (ops (waiting s))). lia.
  - split; [constructor|]. destruct G10 as [_ Gb]. rewrite Hv. destruct G3 as (ap & Ej & _ & Hva).
    rewrite Ej, ops_app, after_app, <- Hva. pose proof (after_le (version (base (tab s))) (ops (safe s))). lia.
  - by rewrite G12.
Qed.

Lemma exec_good s e : good f0 v0 s -> enabled e s -> exists s', exec e s = Some s' /\ good f0 v0 s'.
Proof.
  intros G He. destruct e; [by apply good_new_inode|by apply good_close| | |by apply good_save|..]; cbn [exec].
  - destruct (waiting s) as [|e l] eqn:E; eexists; (split; [done|]); [done|by apply good_flushed].
  - destruct (safe s) as [|e l] eqn:E; [eexists; by split|].
    destruct (good_applied s e l G E) as (t & -> & ?). eexists. by split.
  - destruct (inflight s) as [|[bl v] l] eqn:E; [eexists; by split|].
    pose proof (good_saved s bl v l G E) as Hg. destruct (save_2 0 v (base (tab s))) as [b ?]. eexists. by split.
  - destruct (disk s) as [|e l] eqn:E; [eexists; by split|]. zcase; [|eexists; by split].
    eexists. split; [done|]. by apply good_trim.
  - destruct (good_crash s G) as (t & -> & ?). eexists. by split.
Qed.
End Rank.

Lemma good_start U t :
  settled t -> committed_version (base t) = version (base t) -> storable (child_of t) ->
  good U (free t) (version (base t)) (boot t).
Proof.
  intros [? ? Hp Hv Hw] Hc Hs. unfold child_of in Hs. rewrite Hp in Hs.
  split; cbn; unfold after; cbn; rewrite ?Hp, ?Hv, ?Hc, ?Z.add_0_r; try done.
  - exists []. cbn. rewrite Z.add_0_r. split_and!; [done|constructor|done].
  - constructor.
  - exists [], [], (free t). unfold after. cbn. rewrite Z.add_0_r. split_and!; try done. constructor.
Qed.

Lemma reachable_good U t s :
  within U (free t) -> ~ mem (m U) 0 -> settled t -> committed_version (base t) = version (base t) ->
  storable (child_of t) -> rtc (step U) (boot t) s -> good U (free t) (version (base t)) s.
Proof.
  intros [HU Hin] H0 Ht Hc Hs Hr. pose proof (good_start U t Ht Hc Hs) as Hg.
  remember (boot t) as s0 eqn:E. clear E. induction Hr as [|s1 s2 s3 [e ? ? He Hx] Hr IH]; [done|]. apply IH.
  destruct (exec_good U HU H0 _ (version (base t)) (se_free _ Ht) Hin s e Hg He) as (s4 & Hx' & ?). congruence.
Qed.

(** C14: whatever the order of creations, session closes, journal flushes and
    completions, writes of the table object, trimming and crashes, no event that
    is enabled aborts, which is one that does not exhaust the numbers or the
    versions and gives back no number that is free; and a daemon that takes over
    at any point, loading the object however old and replaying what is left of
    the journal, each entry only if it is newer than the table, ends with
    exactly the table that the entries on disk make of the first one, trimmed
    ones included, at the version they lead to, with nothing in flight and
    nothing reported to the cluster log. If everything submitted had reached the
    disk, that is the table the failed daemon had projected. *)
Theorem recovery_rebuilds_table U t s :
  within U (free t) -> ~ mem (m U) 0 -> settled t -> committed_version (base t) = version (base t) ->
  storable (child_of t) -> rtc (step U) (boot t) s ->
  (forall e, enabled U e s -> is_Some (exec e s)) /\
  exists s', exec Crash s = Some s' /\ told s' = false /\ state (base (tab s')) = STATE_ACTIVE /\
    runs (m U) (free t) (ops (expired s ++ disk s)) (free (tab s')) /\
    projected_free (tab s') = free (tab s') /\
    version (base (tab s')) = after (version (base t)) (ops (expired s ++ disk s)) /\
    projected_version (base (tab s')) = version (base (tab s')) /\
    (waiting s = [] ->
       free (tab s') = projected_free (tab s) /\ version (base (tab s')) = projected_version (base (tab s))).
Proof.
  intros Hi H0 Ht Hc Hs Hr. pose proof (reachable_good U t s Hi H0 Ht Hc Hs Hr) as G. destruct Hi as [HU Hin].
  split.
  { intros e He. destruct (exec_good U HU H0 _ _ (se_free _ Ht) Hin s e G He) as (s' & -> & _). eauto. }
  destruct (recover_spec U HU _ _ (se_free _ Ht) Hin s G) as (t' & E & [_ Q2 Q3 _ _] & Ha & _ & Hv & Hr').
  eexists. cbn [exec]. rewrite E. obind. split; [done|]. cbn [told tab]. split_and!; try done.
  { by rewrite (g_told _ _ _ _ G). }
  intros Hw. pose proof (g_projected _ _ _ _ G) as Hp. pose proof (g_version _ _ _ _ G) as Hpv.
  rewrite Hw, app_nil_r in Hp, Hpv. split; [by eapply runs_det|congruence].
Qed.

(** ** Witness

    Two creations reach the disk, one with three numbers for its session; the
    object is written after the first and its entry trimmed; the session is
    closed, and a third creation is lost in the crash. *)
Lemma boot0_storable : storable (child_of boot0).
Proof. split_and!; [apply boot0_settled|done|vm_compute; reflexivity]. Qed.

Definition events : list event :=
  [NewInode false (Some 3); Flushed; Applied; NewInode false None; Flushed; Save 0 2; Saved; Trim;
   CloseSession ids3; Flushed; Applied; NewInode false None].

Fixpoint exec_all (l : list event) (s : daemon) : option daemon :=
  match l with [] => Some s | e :: l => s ← exec e s; exec_all l s end.

Definition crashing : daemon := default (boot boot0) (exec_all events (boot boot0)).

Lemma ids3_released pf :
  wf ids3 /\ forall x, mem (m ids3) x ->
    mem (m (free boot0)) x /\ ~ mem (m (Mk pf [(2 ^ 40 + 5, 2 ^ 40 - 5)])) x.
Proof.
  split; [split; simpl; try split_and!; done|].
  intros x. simpl. rewrite !mem_cons, !mem_nil. simpl. lia.
Qed.

(** [happens e] makes the event [e] and shows that it is enabled. *)
Ltac creates :=
  split_and!; [vm_compute; reflexivity | intros ? [= <-]; lia | vm_compute; congruence].
Ltac closes := split; [vm_compute; reflexivity | apply (ids3_released 0)].
Ltac happens e :=
  eapply rtc_l; [apply (step_exec _ e); [cbn [enabled]; first [done | creates | closes] | vm_compute; reflexivity]|].

Lemma crashing_reached : rtc (step (free boot0)) (boot boot0) crashing.
Proof.
  happens (NewInode false (Some 3)). happens Flushed. happens Applied.
  happens (NewInode false None). happens Flushed. happens (Save 0 2). happens Saved. happens Trim.
  happens (CloseSession ids3). happens Flushed. happens Applied.
  happens (NewInode false None). vm_compute. apply rtc_refl.
Qed.

Lemma recovery_rebuilds_table_witness :
  exists s', exec Crash crashing = Some s' /\ length (expired crashing) = 1%nat /\
    length (disk crashing) = 2%nat /\ length (waiting crashing) = 1%nat /\
    version (base (tab crashing)) = 3 /\ version (base (tab s')) = 4 /\
    runs (m (free boot0)) (free boot0) [AllocId (2 ^ 40); AllocIds ids3; AllocId (2 ^ 40 + 4); ReleaseIds ids3] (free (tab s')).
Proof.
  destruct (recovery_rebuilds_table (free boot0) boot0 crashing) as (_ & s' & E & _ & _ & Hr & _ & Hv & _).
  - apply within_own, boot0_settled.
  - simpl. rewrite !mem_cons, !mem_nil. simpl. lia.
  - exact boot0_settled.
  - reflexivity.
  - exact boot0_storable.
  - exact crashing_reached.
  - exists s'. split; [exact E|]. do 4 (split; [vm_compute; reflexivity|]).
    split; [rewrite Hv; vm_compute; reflexivity|exact Hr].
Defined.

End InoRecovery.
