(* ===== verification/Frag.v ===== *)
(** * Directory fragments

    src/include/ceph_frag.h, src/common/ceph_frag.cc and [frag_t] of
    src/include/frag.h: a piece of the 24-bit hash space.

    A fragment is its 32-bit encoding: the number of bits in the upper byte,
    the value below.  A well-formed fragment ([wf_frag]) is the interval of
    hash values from [value f] of length [len f]; [FragFacts] shows the bit
    operations to be interval arithmetic: containment, nesting, children,
    parents. *)

From S2P Require Import Prelude Encoding.
Import Encoding.

Module Frag.

(** ** ceph_frag.h *)

(** [x << n] on 32 bits; a shift by the width or more is undefined in C, and
    is never made on well-formed fragments. *)
Definition shl (x n : Z) : Z := if n <? 32 then u32 (Z.shiftl x n) else 0.

Definition ceph_frag_make (b v : Z) : Z :=
  Z.lor (shl b 24) (Z.land (Z.land v (shl 0xffffff (u32 (24 - b)))) 0xffffff).
Definition ceph_frag_bits (f : Z) : Z := Z.shiftr f 24.
Definition ceph_frag_value (f : Z) : Z := Z.land f 0xffffff.
Definition ceph_frag_mask (f : Z) : Z :=
  Z.land (shl 0xffffff (u32 (24 - ceph_frag_bits f))) 0xffffff.
Definition ceph_frag_mask_shift (f : Z) : Z := u32 (24 - ceph_frag_bits f).

Definition ceph_frag_contains_value (f v : Z) : bool :=
  Z.land v (ceph_frag_mask f) =? ceph_frag_value f.
Definition ceph_frag_contains_frag (f sub : Z) : bool :=
  (ceph_frag_bits f <=? ceph_frag_bits sub) &&
  (Z.land (ceph_frag_value sub) (ceph_frag_mask f) =? ceph_frag_value f).

Definition ceph_frag_parent (f : Z) : Z :=
  ceph_frag_make (u32 (ceph_frag_bits f - 1))
    (Z.land (ceph_frag_value f) (shl (ceph_frag_mask f) 1)).
Definition ceph_frag_is_left_child (f : Z) : bool :=
  (0 <? ceph_frag_bits f) &&
  (Z.land (ceph_frag_value f) (Z.shiftr 0x1000000 (ceph_frag_bits f)) =? 0).
Definition ceph_frag_is_right_child (f : Z) : bool :=
  (0 <? ceph_frag_bits f) &&
  (Z.land (ceph_frag_value f) (Z.shiftr 0x1000000 (ceph_frag_bits f)) =? 1).
Definition ceph_frag_sibling (f : Z) : Z :=
  ceph_frag_make (ceph_frag_bits f)
    (Z.lxor (ceph_frag_value f) (Z.shiftr 0x1000000 (ceph_frag_bits f))).
Definition ceph_frag_left_child (f : Z) : Z :=
  ceph_frag_make (u32 (ceph_frag_bits f + 1)) (ceph_frag_value f).
Definition ceph_frag_right_child (f : Z) : Z :=
  ceph_frag_make (u32 (ceph_frag_bits f + 1))
    (Z.lor (ceph_frag_value f) (Z.shiftr 0x1000000 (u32 (1 + ceph_frag_bits f)))).
Definition ceph_frag_make_child (f by_ i : Z) : Z :=
  let newbits := ceph_frag_bits f + by_ in
  ceph_frag_make newbits (Z.lor (ceph_frag_value f) (shl i (24 - newbits))).
Definition ceph_frag_is_leftmost (f : Z) : bool := ceph_frag_value f =? 0.
Definition ceph_frag_is_rightmost (f : Z) : bool := ceph_frag_value f =? ceph_frag_mask f.
Definition ceph_frag_next (f : Z) : Z :=
  ceph_frag_make (ceph_frag_bits f)
    (u32 (ceph_frag_value f + Z.shiftr 0x1000000 (ceph_frag_bits f))).

Definition ceph_frag_compare (a b : Z) : Z :=
  let va := ceph_frag_value a in
  let vb := ceph_frag_value b in
  if va <? vb then -1 else if vb <? va then 1
  else
    let va := ceph_frag_bits a in
    let vb := ceph_frag_bits b in
    if va <? vb then -1 else if vb <? va then 1 else 0.

(** ** frag_t *)

Definition frag (v b : Z) : Z := ceph_frag_make b v.
Definition root : Z := 0.

Definition is_root (f : Z) : bool := ceph_frag_bits f =? 0.
Definition parent (f : Z) : option Z :=
  assert! 0 <? ceph_frag_bits f;
  Some (ceph_frag_parent f).
Definition make_child (f i nb : Z) : option Z :=
  assert! i <? Z.shiftl 1 nb;
  Some (ceph_frag_make_child f nb i).

(** [split(nb, fragments)]: what is pushed at the back of [fragments]. *)
Definition split (f nb : Z) : option (list Z) :=
  assert! 0 <? nb;
  mapM (fun i => make_child f i nb) (seqZ 0 (Z.shiftl 1 nb)).

Definition get_sibling (f : Z) : option Z :=
  assert! negb (is_root f);
  Some (ceph_frag_sibling f).
Definition next (f : Z) : option Z :=
  assert! negb (ceph_frag_is_rightmost f);
  Some (ceph_frag_next f).

(** [operator<<]: a binary digit per bit, then a star. *)
Definition print (f : Z) : list Z :=
  map (fun i => if Z.testbit (ceph_frag_value f) (23 - i) then 49 else 48)
    (seqZ 0 (ceph_frag_bits f)) ++ [42].

#[global] Arguments ceph_frag_make : simpl never.
#[global] Arguments ceph_frag_bits : simpl never.
#[global] Arguments ceph_frag_contains_frag : simpl never.
#[global] Arguments ceph_frag_contains_value : simpl never.
#[global] Arguments ceph_frag_mask : simpl never.
#[global] Arguments ceph_frag_sibling : simpl never.
#[global] Arguments ceph_frag_parent : simpl never.
#[global] Arguments split : simpl never.
#[global] Arguments ceph_frag_value : simpl never.
#[global] Arguments ceph_frag_make_child : simpl never.
#[global] Arguments parent : simpl never.

Definition encode_frag (f : Z) : bytes := encode_u32 f.
Definition decode_frag (p : bytes) : option (Z * bytes) := decode_u32 p.

End Frag.

(** ** Fragments as intervals *)

Module FragFacts.
Import Frag.

Abbreviation bits := ceph_frag_bits.
Abbreviation value := ceph_frag_value.

Definition len (f : Z) : Z := 2 ^ (24 - bits f).

Record wf_frag (f : Z) : Prop := {
  wf_bits : 0 <= bits f <= 24;
  wf_div : (len f | value f)
}.

(** [v] is in the interval of [f]; a hash has 24 significant bits. *)
Definition within (f v : Z) : Prop := value f <= v < value f + len f.

(** [inside x t]: [t] is a piece of [x]. *)
Definition inside (x t : Z) : Prop := bits x <= bits t /\ within x (value t).

Lemma bits_div f : bits f = f / 2 ^ 24.
Proof. unfold ceph_frag_bits. by rewrite Z.shiftr_div_pow2. Qed.

Lemma value_mod f : value f = f mod 2 ^ 24.
Proof. unfold ceph_frag_value. change 0xffffff with (Z.ones 24). by rewrite Z.land_ones. Qed.

Lemma value_range f : 0 <= value f < 2 ^ 24.
Proof. rewrite value_mod. apply Z.mod_pos_bound. lia. Qed.

Lemma frag_eq f : f = bits f * 2 ^ 24 + value f.
Proof. rewrite bits_div, value_mod. pose proof (Z.div_mod f (2 ^ 24)). lia. Qed.

Lemma frag_ext f g : bits f = bits g -> value f = value g -> f = g.
Proof. intros Hb Hv. by rewrite (frag_eq f), (frag_eq g), Hb, Hv. Qed.

Lemma bits_of b v : 0 <= v < 2 ^ 24 -> bits (b * 2 ^ 24 + v) = b.
Proof. intros. rewrite bits_div, Z.div_add_l by lia. rewrite Z.div_small; lia. Qed.

Lemma value_of b v : 0 <= v < 2 ^ 24 -> value (b * 2 ^ 24 + v) = v.
Proof. intros. rewrite value_mod, Z.add_comm, Z.mod_add by lia. by apply Z.mod_small. Qed.

(** Rounding [v] down to a multiple of [2 ^ n]. *)
Definition round (n v : Z) : Z := v / 2 ^ n * 2 ^ n.

Lemma round_testbit n v i : 0 <= n -> 0 <= i -> Z.testbit (round n v) i = (n <=? i) && Z.testbit v i.
Proof.
  intros Hn Hi. unfold round. rewrite <- Z.shiftr_div_pow2, <- Z.shiftl_mul_pow2 by lia.
  rewrite Z.shiftl_spec by lia. destruct (Z.leb_spec n i); simpl.
  - rewrite Z.shiftr_spec by lia. f_equal. lia.
  - by rewrite Z.testbit_neg_r by lia.
Qed.

Lemma round_bounds n v : 0 <= n -> round n v <= v < round n v + 2 ^ n.
Proof.
  intros Hn. unfold round. pose proof (Z.pow_pos_nonneg 2 n ltac:(lia) Hn) as Hp.
  pose proof (Z.div_mod v (2 ^ n) ltac:(lia)). pose proof (Z.mod_pos_bound v (2 ^ n) Hp). lia.
Qed.

Lemma round_divide n v : (2 ^ n | round n v).
Proof. unfold round. apply Z.divide_factor_r. Qed.

Lemma round_id n v : 0 <= n -> (2 ^ n | v) -> round n v = v.
Proof.
  intros Hn [k ->]. unfold round. rewrite Z.div_mul; [done|].
  pose proof (Z.pow_pos_nonneg 2 n). lia.
Qed.

Lemma round_unique n v w : 0 <= n -> (2 ^ n | w) -> w <= v < w + 2 ^ n -> round n v = w.
Proof.
  intros Hn [k ->] Hv. unfold round. f_equal. symmetry.
  apply (Z.div_unique v (2 ^ n) k (v - k * 2 ^ n)); lia.
Qed.

Lemma round_nonneg n v : 0 <= n -> 0 <= v -> 0 <= round n v.
Proof.
  intros Hn Hv. unfold round. pose proof (Z.pow_pos_nonneg 2 n).
  apply Z.mul_nonneg_nonneg; [|lia]. apply Z.div_pos; lia.
Qed.

Lemma land_mask v b :
  0 <= b <= 24 -> 0 <= v ->
  Z.land v (Z.land (shl 0xffffff (u32 (24 - b))) 0xffffff) = round (24 - b) (v mod 2 ^ 24).
Proof.
  intros Hb Hv. rewrite u32_small by lia. unfold shl. rewrite (proj2 (Z.ltb_lt _ _)) by lia.
  apply Z.bits_inj'. intros i Hi.
  rewrite round_testbit, !Z.land_spec by lia. change 0xffffff with (Z.ones 24).
  rewrite Z.testbit_ones_nonneg by lia. unfold u32.
  destruct (Z.ltb_spec i 24) as [Hlt|Hge].
  - rewrite !Z.mod_pow2_bits_low by lia. rewrite Z.shiftl_spec by lia.
    destruct (Z.leb_spec (24 - b) i).
    + rewrite Z.testbit_ones_nonneg by lia. rewrite (proj2 (Z.ltb_lt _ _)) by lia.
      by rewrite !andb_true_r.
    + rewrite (Z.testbit_neg_r (Z.ones 24)) by lia. by rewrite andb_false_r.
  - rewrite (Z.mod_pow2_bits_high v 24) by lia. by rewrite !andb_false_r.
Qed.

Lemma land_disjoint a n b : 0 <= n -> 0 <= b < 2 ^ n -> Z.land (a * 2 ^ n) b = 0.
Proof.
  intros Hn Hb. apply Z.bits_inj'. intros i Hi. rewrite Z.land_spec, Z.bits_0.
  destruct (Z.ltb_spec i n).
  - by rewrite Z.mul_pow2_bits_low by lia.
  - rewrite <- (Z.mod_small b (2 ^ n)), Z.mod_pow2_bits_high by lia. apply andb_false_r.
Qed.

(** The bits above and below position [n] of a sum that does not carry. *)
Lemma lor_shiftl a n b : 0 <= n -> 0 <= b < 2 ^ n -> Z.lor (a * 2 ^ n) b = a * 2 ^ n + b.
Proof. intros. rewrite <- Z.add_lor_land, land_disjoint by lia. lia. Qed.

Lemma ceph_frag_make_spec b v :
  0 <= b <= 24 -> 0 <= v -> ceph_frag_make b v = b * 2 ^ 24 + round (24 - b) (v mod 2 ^ 24).
Proof.
  intros Hb Hv. unfold ceph_frag_make. rewrite <- Z.land_assoc, land_mask by lia.
  unfold shl at 1. rewrite (proj2 (Z.ltb_lt 24 32)), Z.shiftl_mul_pow2, u32_small by lia.
  pose proof (Z.mod_pos_bound v (2 ^ 24) ltac:(lia)).
  pose proof (round_bounds (24 - b) (v mod 2 ^ 24) ltac:(lia)).
  pose proof (round_nonneg (24 - b) (v mod 2 ^ 24) ltac:(lia) ltac:(lia)).
  apply lor_shiftl; lia.
Qed.

Lemma len_pos f : wf_frag f -> 0 < len f <= 2 ^ 24.
Proof.
  intros [Hb _]. unfold len. split; [apply Z.pow_pos_nonneg; lia|].
  apply Z.pow_le_mono_r; lia.
Qed.

(** The fragment of [b] bits whose interval holds [v]. *)
Lemma make_wf b v :
  0 <= b <= 24 -> 0 <= v ->
  bits (ceph_frag_make b v) = b /\ value (ceph_frag_make b v) = round (24 - b) (v mod 2 ^ 24) /\
  wf_frag (ceph_frag_make b v).
Proof.
  intros Hb Hv. rewrite ceph_frag_make_spec by lia.
  pose proof (Z.mod_pos_bound v (2 ^ 24) ltac:(lia)).
  pose proof (round_bounds (24 - b) (v mod 2 ^ 24) ltac:(lia)).
  pose proof (round_nonneg (24 - b) (v mod 2 ^ 24) ltac:(lia) ltac:(lia)).
  assert (Eb : bits (b * 2 ^ 24 + round (24 - b) (v mod 2 ^ 24)) = b) by (apply bits_of; lia).
  assert (Ev : value (b * 2 ^ 24 + round (24 - b) (v mod 2 ^ 24)) = round (24 - b) (v mod 2 ^ 24))
    by (apply value_of; lia).
  split_and!; [done..|]. split; [by rewrite Eb|]. unfold len. rewrite Eb, Ev. apply round_divide.
Qed.

Lemma mask_round f v : wf_frag f -> 0 <= v ->
  Z.land v (ceph_frag_mask f) = round (24 - bits f) (v mod 2 ^ 24).
Proof. intros [Hb _] Hv. apply land_mask; lia. Qed.

(** [ceph_frag_contains_value] is membership in the interval. *)
Lemma contains_value_within f v :
  wf_frag f -> 0 <= v -> ceph_frag_contains_value f v = true <-> within f (v mod 2 ^ 24).
Proof.
  intros Hf Hv. unfold ceph_frag_contains_value. rewrite Z.eqb_eq, mask_round by done.
  destruct Hf as [Hb Hd]. unfold within, len in *.
  pose proof (round_bounds (24 - bits f) (v mod 2 ^ 24) ltac:(lia)).
  split; [intros <-; lia|]. intros. apply round_unique; [lia|done|lia].
Qed.

Lemma contains_frag_inside f g :
  wf_frag f -> ceph_frag_contains_frag f g = true <-> inside f g.
Proof.
  intros Hf. unfold ceph_frag_contains_frag, inside. rewrite andb_true_iff, Z.leb_le.
  pose proof (value_range g) as Hg.
  pose proof (contains_value_within f (value g) Hf ltac:(lia)) as Hc.
  rewrite Z.mod_small in Hc by lia. unfold ceph_frag_contains_value in Hc. by rewrite Hc.
Qed.

(** ** Nesting *)

Lemma len_divide a b : 0 <= a <= b -> (2 ^ a | 2 ^ b).
Proof. intros. exists (2 ^ (b - a)). rewrite <- Z.pow_add_r by lia. f_equal. lia. Qed.

(** Two fragments that share a hash value are nested. *)
Lemma within_nested g h v :
  wf_frag g -> wf_frag h -> within g v -> within h v -> bits g <= bits h -> inside g h.
Proof.
  intros [Bg Dg] [Bh Dh] Hg Hh Hb. split; [done|]. unfold within, len in *.
  split; [|lia]. rewrite <- (round_unique (24 - bits h) v (value h)) by (done || lia).
  assert (Hd : (2 ^ (24 - bits h) | value g)).
  { eapply Z.divide_trans; [apply len_divide|exact Dg]. lia. }
  destruct Hd as [k Hk]. unfold round. rewrite Hk. apply Z.mul_le_mono_nonneg_r; [apply Z.pow_nonneg; lia|].
  apply Z.div_le_lower_bound; [|lia]. apply Z.pow_pos_nonneg; lia.
Qed.

Lemma inside_refl f : wf_frag f -> inside f f.
Proof. intros Hf. pose proof (len_pos f Hf). split; [lia|]. unfold within. lia. Qed.

Lemma within_self f : wf_frag f -> within f (value f).
Proof. intros Hf. pose proof (len_pos f Hf). unfold within. lia. Qed.

Lemma inside_within f g v : wf_frag f -> wf_frag g -> inside f g -> within g v -> within f v.
Proof.
  intros [Bf Df] [Bg Dg] [Hb Hi] Hv. unfold within, len in *.
  destruct Df as [k Hk], Dg as [j Hj].
  assert (E : 2 ^ (24 - bits f) = 2 ^ (bits g - bits f) * 2 ^ (24 - bits g))
    by (rewrite <- Z.pow_add_r by lia; f_equal; lia).
  rewrite E in *. pose proof (Z.pow_pos_nonneg 2 (24 - bits g) ltac:(lia) ltac:(lia)) as HL.
  set (L := 2 ^ (24 - bits g)) in *. set (P := 2 ^ (bits g - bits f)) in *. clearbody L P.
  assert (j < k * P + P) by (apply (Z.mul_lt_mono_pos_r L); nia). nia.
Qed.

Lemma inside_trans f g h : wf_frag f -> wf_frag g -> inside f g -> inside g h -> inside f h.
Proof.
  intros Hf Hg Hfg [Hb Hh]. split; [destruct Hfg; lia|]. by eapply (inside_within f g).
Qed.

Lemma inside_antisym f g : wf_frag f -> wf_frag g -> inside f g -> inside g f -> f = g.
Proof.
  intros [Bf Df] [Bg Dg] [H1 W1] [H2 W2]. assert (Eb : bits f = bits g) by lia.
  apply frag_ext; [done|]. unfold within, len in *. rewrite Eb in *.
  rewrite <- (round_unique (24 - bits g) (value f) (value g)) by (done || lia).
  by rewrite round_id by (done || lia).
Qed.

Lemma inside_same_bits f g : wf_frag f -> wf_frag g -> inside f g -> bits f = bits g -> f = g.
Proof.
  intros Hf Hg Hi Hb. apply inside_antisym; try done.
  apply (within_nested g f (value g)); try done; [by apply within_self|apply Hi|lia].
Qed.

Lemma root_wf : wf_frag root.
Proof. split; [change (bits root) with 0; lia|]. by exists 0. Qed.

Lemma root_within v : within root v <-> 0 <= v < 2 ^ 24.
Proof. unfold within. change (value root) with 0. change (len root) with (2 ^ 24). lia. Qed.

Lemma root_inside f : wf_frag f -> inside root f.
Proof. intros [Hb _]. split; [apply Hb|]. apply root_within, value_range. Qed.

Lemma bits_zero_root f : wf_frag f -> bits f = 0 -> f = root.
Proof. intros Hf Hb. symmetry. apply inside_same_bits; auto using root_wf, root_inside. Qed.

(** ** Children *)

(** [child f nb i]: what [make_child] returns. *)
Abbreviation child := ceph_frag_make_child.

Lemma child_spec f nb i :
  wf_frag f -> 0 <= nb -> bits f + nb <= 24 -> 0 <= i < 2 ^ nb ->
  bits (child f nb i) = bits f + nb /\
  value (child f nb i) = value f + i * 2 ^ (24 - (bits f + nb)) /\ wf_frag (child f nb i).
Proof.
  intros Hf Hn Hb Hi. destruct (Hf) as [Bf [k Hk]]. unfold ceph_frag_make_child. unfold len in Hk.
  pose proof (value_range f) as Hv.
  set (L := 2 ^ (24 - (bits f + nb))). assert (0 < L) by (apply Z.pow_pos_nonneg; lia).
  assert (EL : 2 ^ (24 - bits f) = 2 ^ nb * L)
    by (unfold L; rewrite <- Z.pow_add_r by lia; f_equal; lia).
  assert (0 <= i * L < 2 ^ (24 - bits f)) by (rewrite EL; nia).
  assert (2 ^ (24 - bits f) <= 2 ^ 24) by (apply Z.pow_le_mono_r; lia).
  unfold shl. rewrite (proj2 (Z.ltb_lt _ _)) by lia.
  rewrite Z.shiftl_mul_pow2 by lia. fold L. rewrite u32_small by lia.
  rewrite Hk, lor_shiftl by lia. rewrite <- Hk.
  assert (value f + i * L < 2 ^ 24).
  { apply root_within, (inside_within root f); auto using root_wf, root_inside.
    unfold within, len. lia. }
  destruct (make_wf (bits f + nb) (value f + i * L)) as (E1 & E2 & E3); [lia..|].
  split_and!; [done| |done]. rewrite E2, Z.mod_small by lia. apply round_id; [lia|].
  exists (k * 2 ^ nb + i). fold L. rewrite Hk, EL. ring.
Qed.

Lemma child_inside f nb i :
  wf_frag f -> 0 <= nb -> bits f + nb <= 24 -> 0 <= i < 2 ^ nb -> inside f (child f nb i).
Proof.
  intros Hf Hn Hb Hi. destruct (child_spec f nb i Hf Hn Hb Hi) as (E1 & E2 & _).
  split; [lia|]. unfold within, len. rewrite E2.
  replace (24 - bits f) with (nb + (24 - (bits f + nb))) by lia. rewrite Z.pow_add_r by lia.
  pose proof (Z.pow_pos_nonneg 2 (24 - (bits f + nb))). destruct Hf. nia.
Qed.

(** The piece of [f], at [nb] bits more, that holds [v]. *)
Lemma child_of_value f nb v :
  wf_frag f -> 0 <= nb -> bits f + nb <= 24 -> within f v ->
  exists i, 0 <= i < 2 ^ nb /\ within (child f nb i) v.
Proof.
  intros Hf Hn Hb Hv. set (L := 2 ^ (24 - (bits f + nb))).
  assert (0 < L) by (apply Z.pow_pos_nonneg; lia).
  assert (EL : len f = 2 ^ nb * L)
    by (unfold L, len; rewrite <- Z.pow_add_r by lia; f_equal; lia).
  unfold within in Hv. rewrite EL in Hv.
  assert (Hi : 0 <= (v - value f) / L < 2 ^ nb).
  { split; [apply Z.div_pos; lia|]. apply Z.div_lt_upper_bound; lia. }
  exists ((v - value f) / L). split; [done|].
  destruct (child_spec f nb _ Hf Hn Hb Hi) as (E1 & E2 & _). unfold within, len.
  rewrite E1, E2. fold L. pose proof (Z.div_mod (v - value f) L ltac:(lia)).
  pose proof (Z.mod_pos_bound (v - value f) L ltac:(lia)). lia.
Qed.

(** [child_of f nb g]: [g] is one of the pieces of [f] split by [nb] bits. *)
Definition child_of (f nb g : Z) : Prop := exists i, 0 <= i < 2 ^ nb /\ g = child f nb i.

#[export] Instance child_of_dec f nb g : Decision (child_of f nb g).
Proof.
  destruct (decide (Exists (fun i => g = child f nb i) (seqZ 0 (2 ^ nb)))) as [D|D];
    rewrite Exists_exists in D; unfold child_of; [left|right].
  - destruct D as (i & Hi%elem_of_seqZ & ->). exists i. split; [lia|done].
  - intros (i & Hi & ->). apply D. exists i. split; [apply elem_of_seqZ; lia|done].
Defined.

Lemma child_of_inside f nb g :
  wf_frag f -> 0 <= nb -> bits f + nb <= 24 ->
  child_of f nb g <-> wf_frag g /\ inside f g /\ bits g = bits f + nb.
Proof.
  intros Hf Hn Hb. split.
  - intros (i & Hi & ->). destruct (child_spec f nb i) as (? & ? & ?); auto using child_inside.
  - intros (Hg & Hi & Eb). destruct (child_of_value f nb (value g) Hf Hn Hb) as (i & Hr & Hw).
    { apply Hi. }
    destruct (child_spec f nb i Hf Hn Hb Hr) as (E1 & _ & Hc). exists i. split; [done|].
    symmetry. apply inside_same_bits; [done..| |lia]. split; [lia|done].
Qed.

Lemma mapM_total {A B} (f : A -> option B) (g : A -> B) l :
  (forall x, x ∈ l -> f x = Some (g x)) -> mapM f l = Some (map g l).
Proof.
  induction l as [|x l IH]; intros H; [done|].
  simpl. rewrite (H x) by (by left). obind. rewrite IH; [done|]. intros y Hy. apply H. by right.
Qed.

(** [split] lists the pieces in order. *)
Lemma split_spec f nb :
  0 < nb -> Frag.split f nb = Some (map (child f nb) (seqZ 0 (2 ^ nb))).
Proof.
  intros Hn. unfold Frag.split. rewrite (proj2 (Z.ltb_lt _ _)) by done.
  rewrite Z.shiftl_mul_pow2, Z.mul_1_l by lia. apply mapM_total.
  intros i Hi. apply elem_of_seqZ in Hi. unfold make_child.
  rewrite Z.shiftl_mul_pow2, Z.mul_1_l by lia. by rewrite (proj2 (Z.ltb_lt _ _)) by lia.
Qed.

Lemma elem_of_children f nb g : g ∈ map (child f nb) (seqZ 0 (2 ^ nb)) <-> child_of f nb g.
Proof.
  rewrite list_elem_of_fmap. unfold child_of. setoid_rewrite elem_of_seqZ. split.
  - intros (i & -> & ?). exists i. split; [lia|done].
  - intros (i & ? & ->). exists i. split; [done|lia].
Qed.

(** ** Parents *)

Lemma mask_testbit f i :
  wf_frag f -> 0 <= i -> Z.testbit (ceph_frag_mask f) i = (24 - bits f <=? i) && (i <? 24).
Proof.
  intros [Hb _] Hi. unfold ceph_frag_mask, shl. rewrite u32_small by lia.
  rewrite (proj2 (Z.ltb_lt _ _)), Z.land_spec by lia. unfold u32.
  change 0xffffff with (Z.ones 24). rewrite (Z.testbit_ones_nonneg 24 i) by lia.
  destruct (Z.ltb_spec i 24); [|by rewrite !andb_false_r].
  rewrite Z.mod_pow2_bits_low, Z.shiftl_spec by lia.
  destruct (Z.leb_spec (24 - bits f) i).
  - rewrite Z.testbit_ones_nonneg by lia. by rewrite (proj2 (Z.ltb_lt _ _)) by lia.
  - by rewrite Z.testbit_neg_r by lia.
Qed.

Lemma parent_spec f :
  wf_frag f -> 0 < bits f -> ceph_frag_parent f = ceph_frag_make (bits f - 1) (value f).
Proof.
  intros Hf Hp. destruct (Hf) as [Hb _]. pose proof (value_range f) as Hv.
  unfold ceph_frag_parent. rewrite u32_small by lia.
  assert (0 <= Z.land (value f) (shl (ceph_frag_mask f) 1)) by (apply Z.land_nonneg; lia).
  rewrite !ceph_frag_make_spec by lia. f_equal. apply Z.bits_inj'. intros i Hi.
  rewrite !round_testbit by lia. destruct (Z.leb_spec (24 - (bits f - 1)) i); [simpl|done].
  destruct (Z.ltb_spec i 24); [|by rewrite !Z.mod_pow2_bits_high by lia].
  rewrite !Z.mod_pow2_bits_low, Z.land_spec by lia. unfold shl. simpl. unfold u32.
  rewrite Z.mod_pow2_bits_low, Z.shiftl_spec, mask_testbit by (done || lia).
  rewrite (proj2 (Z.leb_le _ _)), (proj2 (Z.ltb_lt _ _)) by lia. by rewrite andb_true_r.
Qed.

(** The fragment of [k] bits around [x]. *)
Definition anc (x k : Z) : Z := ceph_frag_make k (value x).

Lemma anc_spec x k :
  wf_frag x -> 0 <= k <= bits x -> bits (anc x k) = k /\ wf_frag (anc x k) /\ inside (anc x k) x.
Proof.
  intros Hx Hk. destruct (Hx) as [Hb _]. pose proof (value_range x) as Hv.
  destruct (make_wf k (value x)) as (E1 & E2 & E3); [lia..|]. unfold anc.
  split_and!; [done..|]. split; [lia|]. unfold within, len. rewrite E1, E2, Z.mod_small by lia.
  apply round_bounds. lia.
Qed.

Lemma inside_anc g x : wf_frag g -> wf_frag x -> inside g x -> g = anc x (bits g).
Proof.
  intros Hg Hx Hi. destruct (Hg) as [Hb _]. destruct Hi as [Hle Hi].
  destruct (anc_spec x (bits g) Hx) as (E & Ha & Hai); [lia|].
  apply inside_same_bits; try done. apply (within_nested g _ (value x)); try done; [|lia].
  apply Hai.
Qed.

Lemma anc_self x : wf_frag x -> anc x (bits x) = x.
Proof. intros Hx. symmetry. by apply inside_anc; auto using inside_refl. Qed.

Lemma anc_zero x : wf_frag x -> anc x 0 = root.
Proof.
  intros Hx. symmetry. rewrite (inside_anc root x) by auto using root_wf, root_inside. done.
Qed.

Lemma parent_anc x k :
  wf_frag x -> 0 < k <= bits x -> Frag.parent (anc x k) = Some (anc x (k - 1)).
Proof.
  intros Hx Hk. destruct (anc_spec x k Hx) as (E & Ha & Hi); [lia|].
  destruct (anc_spec (anc x k) (k - 1) Ha) as (E' & Ha' & Hi'); [lia|].
  unfold Frag.parent. rewrite E, (proj2 (Z.ltb_lt _ _)), parent_spec by (done || lia).
  rewrite E. f_equal. change (ceph_frag_make (k - 1) (value (anc x k))) with (anc (anc x k) (k - 1)).
  rewrite (inside_anc (anc (anc x k) (k - 1)) x); [by rewrite E'|done..|].
  by apply (inside_trans _ (anc x k)).
Qed.
End FragFacts.
