(* ===== verification/FragTree.v ===== *)
(** * fragtree_t, src/include/frag.h

    A partition of the hash space by recursive splitting: the map from a
    fragment to the number of bits it is split by.  [FragTree] has the
    operations, [FragTreeFacts] the invariant ([wf_tree]: only nodes of the
    tree are split), the leaves, and what every operation does to them. *)

From S2P Require Import Prelude Encoding Frag.
Import Encoding.

Module FragTree.
Import Frag.

(** [_splits]: a fragment to the number of bits it is split by. *)
Abbreviation fragtree := (list (Z * Z)).

Definition get_split (s : fragtree) (hb : Z) : Z := default 0 (map_find s hb).

(** The loops pop a fragment of [b] bits and push its pieces, so each ends
    within the [2 ^ (25 - b) - 1] fragments below the one it starts from. *)
Definition leaves_step (s : fragtree) (st : list Z * list Z)
  : (list Z * list Z) + option (list Z) :=
  let '(q, ls) := st in   (* [q] is kept back first *)
  match q with
  | [] => inr (Some ls)
  | t :: q =>
      let nb := get_split s t in
      if negb (nb =? 0) then
        match Frag.split t nb with
        | None => inr None
        | Some children => inl (rev children ++ q, ls)
        end
      else inl (q, t :: ls)
  end.

Definition get_leaves_under_split (s : fragtree) (under : Z) (ls : list Z) : option (list Z) :=
  while 25 (leaves_step s) ([under], ls).
Definition get_leaves (s : fragtree) (ls : list Z) : option (list Z) :=
  get_leaves_under_split s root ls.

(** A fragment has at most 255 ancestors. *)
Fixpoint get_branch_loop (fuel : nat) (s : fragtree) (x : Z) : option Z :=
  match fuel with
  | O => None
  | S fuel =>
      if x =? root then Some x
      else if negb (get_split s x =? 0) then Some x
      else x ← parent x; get_branch_loop fuel s x
  end.
Definition get_branch (s : fragtree) (x : Z) : option Z := get_branch_loop 256 s x.
#[global] Arguments get_branch : simpl never.

Fixpoint get_branch_above_loop (fuel : nat) (s : fragtree) (x : Z) : option Z :=
  match fuel with
  | O => None
  | S fuel =>
      if x =? root then Some x
      else
        x ← parent x;
        if negb (get_split s x =? 0) then Some x else get_branch_above_loop fuel s x
  end.
Definition get_branch_above (s : fragtree) (x : Z) : option Z := get_branch_above_loop 256 s x.
#[global] Arguments get_branch_above : simpl never.

Definition get_branch_or_leaf (s : fragtree) (x : Z) : option Z :=
  branch ← get_branch s x;
  let nb := get_split s branch in
  if (0 <? nb) && (ceph_frag_bits branch + nb <=? ceph_frag_bits x)
  then Some (frag (ceph_frag_value x) (ceph_frag_bits branch + nb))
  else Some branch.

Definition under_step (s : fragtree) (x : Z) (st : list Z * list Z)
  : (list Z * list Z) + option (list Z) :=
  let '(q, ls) := st in   (* [q] is kept front first *)
  match q with
  | [] => inr (Some ls)
  | t :: q =>
      if (ceph_frag_bits x <=? ceph_frag_bits t) && negb (ceph_frag_contains_frag x t)
      then inl (q, ls)
      else
        let nb := get_split s t in
        if negb (nb =? 0) then
          match Frag.split t nb with
          | None => inr None
          | Some children => inl (q ++ children, ls)
          end
        else if ceph_frag_contains_frag x t then inl (q, ls ++ [t])
        else inl (q, ls)
  end.

Definition get_leaves_under (s : fragtree) (x : Z) (ls : list Z) : option (list Z) :=
  t ← get_branch_or_leaf s x;
  while 25 (under_step s x) ([t], ls).

Definition is_leaf (s : fragtree) (x : Z) : option bool :=
  ls ← get_leaves_under s x [];
  Some (match ls with t :: ls' => (t =? x) && match ls' with [] => true | _ => false end
                    | [] => false end).

Definition contains_step (s : fragtree) (x : Z) (q : list Z) : list Z + option bool :=
  match q with
  | [] => inr (Some false)
  | t :: q =>
      if (ceph_frag_bits x <=? ceph_frag_bits t) && negb (ceph_frag_contains_frag x t)
      then inl q
      else
        let nb := get_split s t in
        if negb (nb =? 0) then
          if t =? x then inr (Some false)
          else
            match Frag.split t nb with
            | None => inr None
            | Some children => inl (q ++ children)
            end
        else if t =? x then inr (Some true)
        else inl q
  end.

Definition contains (s : fragtree) (x : Z) : option bool :=
  t ← get_branch s x;
  while 25 (contains_step s x) [t].

(** [operator[]]: the [for] over the children, then the [while]. *)
Definition pick_step (t v nb : Z) (i : Z) : Z + option Z :=
  if i <? Z.shiftl 1 nb then
    match make_child t i nb with
    | None => inr None
    | Some n => if ceph_frag_contains_value n v then inr (Some n) else inl (i + 1)
    end
  else inr None.
Definition pick_child (t v nb : Z) : option Z := while 25 (pick_step t v nb) 0.

Definition at_step (s : fragtree) (v t : Z) : Z + option Z :=
  if negb (ceph_frag_contains_value t v) then inr None
  else
    let nb := get_split s t in
    if nb =? 0 then inr (Some t)
    else match pick_child t v nb with None => inr None | Some n => inl n end.
Definition at_value (s : fragtree) (v : Z) : option Z := while 5 (at_step s v) root.

(** ** Modifiers *)

(** The first pass over the children: [Some childbits] when all are split alike. *)
Fixpoint same_split (s : fragtree) (childbits : Z) (children : list Z) : option Z :=
  match children with
  | [] => Some childbits
  | c :: children =>
      let cb := get_split s c in
      if cb =? 0 then None
      else if negb (childbits =? 0) && negb (cb =? childbits) then None
      else same_split s cb children
  end.

Definition try_assimilate_children (s : fragtree) (x : Z) : option fragtree :=
  let nb := get_split s x in
  if nb =? 0 then Some s
  else
    children ← Frag.split x nb;
    match same_split s 0 children with
    | None => Some s
    | Some childbits =>
        let s := foldl map_erase s children in
        Some (map_set s x (s32 (get_split s x + childbits)))
    end.

Definition split (s : fragtree) (x b : Z) (simplify : bool) : option fragtree :=
  leaf ← is_leaf s x;
  assert! (leaf : bool);
  let s := map_set s x b in
  if simplify then up ← get_branch_above s x; try_assimilate_children s up else Some s.

(** [_splits[x]] makes an entry when there is none; it is erased at once. *)
Definition merge (s : fragtree) (x b : Z) (simplify : bool) : option fragtree :=
  leaf ← is_leaf s x;
  assert! negb leaf;
  assert! get_split s x =? b;
  let s := map_erase s x in
  if simplify then up ← get_branch_above s x; try_assimilate_children s up else Some s.

Fixpoint split_subs (s : fragtree) (subs : list Z) (b : Z) : option fragtree :=
  match subs with
  | [] => Some s
  | p :: subs => s ← split s p b false; split_subs s subs b
  end.

Definition hoover_step (st : fragtree * list Z) : (fragtree * list Z) + option fragtree :=
  let '(s, q) := st in
  match q with
  | [] => inr (Some s)
  | t :: q =>
      let nb := get_split s t in
      if negb (nb =? 0) then
        match merge s t nb false, Frag.split t nb with
        | Some s, Some children => inl (s, q ++ children)
        | _, _ => inr None
        end
      else inl (s, q)
  end.

Definition hoover (s : fragtree) (x : Z) : option fragtree := while 25 hoover_step (s, [x]).

(** [assert(is_leaf(x)); return true] *)
Definition leaf_now (s : fragtree) (x : Z) : option (fragtree * bool) :=
  leaf ← is_leaf s x;
  assert! (leaf : bool);
  Some (s, true).

Definition force_to_leaf (s : fragtree) (x : Z) : option (fragtree * bool) :=
  leaf ← is_leaf s x;
  if (leaf : bool) then Some (s, false)
  else
    up ← get_branch_or_leaf s x;
    assert! ceph_frag_bits up <=? ceph_frag_bits x;
    if ceph_frag_bits up <? ceph_frag_bits x then
      let spread := ceph_frag_bits x - ceph_frag_bits up in
      let nb := get_split s up in
      if nb =? 0 then s ← split s up spread true; leaf_now s x
      else
        assert! spread <? nb;
        s ← merge s up nb false;
        s ← split s up spread false;
        subs ← Frag.split up spread;
        s ← split_subs s subs (nb - spread);
        s ← hoover s x;
        leaf_now s x
    else s ← hoover s x; leaf_now s x.

Definition encode_tree (s : fragtree) : bytes := encode_map encode_frag encode_s32 s.
Definition decode_tree (p : bytes) : option (fragtree * bytes) :=
  decode_map decode_frag decode_s32 p.

Fixpoint decode_nohead (n : nat) (s : fragtree) (p : bytes) : option (fragtree * bytes) :=
  match n with
  | O => Some (s, p)
  | S n =>
      '(f, p) ← decode_frag p;
      '(b, p) ← decode_s32 p;
      decode_nohead n (map_set s f b) p
  end.
Definition encode_nohead (s : fragtree) : bytes :=
  concat (map (fun x => encode_frag x.1 ++ encode_s32 x.2) s).

End FragTree.

(** ** The tree as a partition *)

Module FragTreeFacts.
Import Frag FragTree FragFacts.


Abbreviation tree := (list (Z * Z)).

(** Each split leaves at most 24 bits. *)
Record sane (s : tree) : Prop := {
  sa_keys : keys_from 0 s;
  sa_nonzero : forall f, map_find s f <> Some 0;
  sa_split : forall f, get_split s f <> 0 ->
    wf_frag f /\ 0 < get_split s f /\ bits f + get_split s f <= 24
}.

(** The root and the pieces of the fragments that are split. *)
Definition is_node (s : tree) (f : Z) : Prop :=
  f = root \/ exists p, get_split s p <> 0 /\ child_of p (get_split s p) f.

(** Only nodes are split. *)
Record wf_tree (s : tree) : Prop := {
  wt_sane : sane s;
  wt_node : forall f, get_split s f <> 0 -> is_node s f
}.

Definition leaf (s : tree) (f : Z) : Prop := is_node s f /\ get_split s f = 0.

Lemma get_split_set s x b f :
  sane s -> get_split (map_set s x b) f = if f =? x then b else get_split s f.
Proof.
  intros Hs. unfold get_split. rewrite (map_find_set 0) by apply Hs. by destruct (f =? x).
Qed.

Lemma get_split_erase s x f :
  sane s -> get_split (map_erase s x) f = if f =? x then 0 else get_split s f.
Proof.
  intros Hs. unfold get_split. rewrite (map_find_erase 0) by apply Hs. by destruct (f =? x).
Qed.

(** A child of a split fragment. *)
Lemma split_child s p f :
  sane s -> get_split s p <> 0 ->
  child_of p (get_split s p) f <-> wf_frag f /\ inside p f /\ bits f = bits p + get_split s p.
Proof. intros Hs Hp. destruct (sa_split _ Hs p Hp) as (? & ? & ?). apply child_of_inside; lia || done. Qed.

Lemma node_wf s f : sane s -> is_node s f -> wf_frag f.
Proof.
  intros Hs [->|(p & Hp & Hc)]; [apply root_wf|]. by apply (split_child s p f Hs Hp) in Hc as [? _].
Qed.

Lemma inside_lt f g : wf_frag f -> wf_frag g -> inside f g -> f <> g -> bits f < bits g.
Proof.
  intros Hf Hg Hi Hn. destruct (Z.eq_dec (bits f) (bits g)); [|destruct Hi; lia].
  by rewrite (inside_same_bits f g) in Hn.
Qed.

(** Two fragments around a third are nested. *)
Lemma inside_both f g h :
  wf_frag f -> wf_frag g -> inside f h -> inside g h -> inside f g \/ inside g f.
Proof.
  intros Hf Hg [? H1] [? H2]. destruct (Z.le_ge_cases (bits f) (bits g)).
  - left. by apply (within_nested f g (value h)).
  - right. by apply (within_nested g f (value h)).
Qed.

Lemma inside_root f : wf_frag f -> inside f root -> f = root.
Proof. intros Hf Hi. apply inside_antisym; auto using root_wf, root_inside. Qed.

(** No node lies between a split fragment and its pieces. *)
Lemma no_between s f q :
  wf_tree s -> is_node s f -> get_split s q <> 0 -> inside q f -> f <> q ->
  bits q + get_split s q <= bits f.
Proof.
  intros [Hs Hw]. remember (Z.to_nat (bits f)) as n eqn:En. revert f q En.
  induction (lt_wf n) as [n _ IH]. intros f q -> Hf Hq Hi Hne.
  pose proof (node_wf s f Hs Hf) as Wf. destruct (sa_split _ Hs q Hq) as (Wq & ? & ?).
  pose proof (inside_lt q f Wq Wf Hi ltac:(congruence)). destruct (wf_bits _ Wq).
  destruct Hf as [->|(p & Hp & Hc)]; [by apply inside_root in Hi; [congruence|]|].
  apply (split_child s p f Hs Hp) in Hc as (_ & Hpf & Eb).
  destruct (sa_split _ Hs p Hp) as (Wp & ? & ?). destruct (wf_bits _ Wp).
  destruct (Z.eq_dec p q) as [->|Npq]; [lia|].
  destruct (inside_both q p f Wq Wp Hi Hpf) as [Hqp|Hpq].
  - pose proof (inside_lt q p Wq Wp Hqp ltac:(congruence)).
    assert (bits q + get_split s q <= bits p); [|lia].
    apply (IH (Z.to_nat (bits p)) ltac:(lia) p q); auto.
  - pose proof (inside_lt p q Wp Wq Hpq ltac:(congruence)).
    assert (bits p + get_split s p <= bits q); [|lia].
    apply (IH (Z.to_nat (bits q)) ltac:(lia) q p); auto.
Qed.

(** No other node lies inside a leaf. *)
Lemma leaf_minimal s f g : wf_tree s -> leaf s f -> is_node s g -> inside f g -> g = f.
Proof.
  intros Hw [Hf Lf]. pose proof (wt_sane _ Hw) as Hs. pose proof (node_wf s f Hs Hf) as Wf.
  remember (Z.to_nat (bits g)) as n eqn:En. revert g En.
  induction (lt_wf n) as [n _ IH]. intros g -> Hg Hi.
  pose proof (node_wf s g Hs Hg) as Wg.
  destruct (Hg) as [->|(p & Hp & Hc)]; [symmetry; by apply inside_root|].
  apply (split_child s p g Hs Hp) in Hc as (_ & Hpg & Eb).
  destruct (sa_split _ Hs p Hp) as (Wp & ? & ?). destruct (wf_bits _ Wp).
  destruct (inside_both f p g Wf Wp Hi Hpg) as [Hfp|Hpf].
  - assert (p = f) as ->; [|done].
    apply (IH (Z.to_nat (bits p)) ltac:(lia) p); auto using wt_node.
  - assert (f <> p) by congruence. pose proof (no_between s f p Hw Hf Hp Hpf ltac:(done)).
    symmetry. apply inside_same_bits; [done..|]. destruct Hi. lia.
Qed.

Lemma leaf_unique s f g v :
  wf_tree s -> leaf s f -> leaf s g -> within f v -> within g v -> f = g.
Proof.
  intros Hw Hf Hg Vf Vg. pose proof (wt_sane _ Hw) as Hs.
  pose proof (node_wf s f Hs (proj1 Hf)). pose proof (node_wf s g Hs (proj1 Hg)).
  destruct (Z.le_ge_cases (bits f) (bits g)).
  - symmetry. apply (leaf_minimal s f g Hw Hf); [apply Hg|by apply (within_nested f g v)].
  - apply (leaf_minimal s g f Hw Hg); [apply Hf|by apply (within_nested g f v)].
Qed.

(** ** Looking up a hash value *)

Lemma pick_child_spec t v nb :
  wf_frag t -> 0 < nb -> bits t + nb <= 24 -> 0 <= v -> within t (v mod 2 ^ 24) ->
  exists n, pick_child t v nb = Some n /\ child_of t nb n /\ within n (v mod 2 ^ 24).
Proof.
  intros Ht Hn Hb Hv Hw. destruct (child_of_value t nb _ Ht ltac:(lia) Hb Hw) as (j & Hj & Wj).
  apply (while_ends (fun i => 0 <= i <= j) (fun i => j + 1 - i)
    (fun n => child_of t nb n /\ within n (v mod 2 ^ 24))).
  - intros i Hi. unfold pick_step, make_child.
    rewrite Z.shiftl_mul_pow2, Z.mul_1_l by lia. rewrite (proj2 (Z.ltb_lt _ _)) by lia.
    destruct (child_spec t nb i) as (_ & _ & Wc); [done|lia..|].
    destruct (ceph_frag_contains_value _ v) eqn:Ec.
    + apply contains_value_within in Ec; [|done..]. eexists. split; [done|]. split; [|done].
      exists i. split; [lia|done].
    + assert (i <> j); [|lia]. intros ->. apply contains_value_within in Wj; [congruence|done..].
  - intros i Hi. lia.
  - lia.
  - assert (2 ^ nb <= 2 ^ 24) by (apply Z.pow_le_mono_r; destruct (wf_bits _ Ht); lia).
    change (2 ^ Z.of_nat 25) with (2 * 2 ^ 24). lia.
Qed.

Lemma at_value_spec s v :
  wf_tree s -> 0 <= v ->
  exists t, at_value s v = Some t /\ leaf s t /\ within t (v mod 2 ^ 24).
Proof.
  intros Hw Hv. pose proof (wt_sane _ Hw) as Hs.
  apply (while_ends (fun t => is_node s t /\ within t (v mod 2 ^ 24)) (fun t => 24 - bits t)
    (fun t => leaf s t /\ within t (v mod 2 ^ 24))).
  - intros t [Nt Wt]. pose proof (node_wf s t Hs Nt) as Ft. unfold at_step.
    rewrite (proj2 (contains_value_within t v Ft Hv) Wt). simpl.
    destruct (Z.eqb_spec (get_split s t) 0) as [E|E]; [by exists t|].
    destruct (sa_split _ Hs t E) as (_ & ? & ?).
    destruct (pick_child_spec t v (get_split s t)) as (n & -> & Hc & Wn); auto.
    split; [split; [right; by exists t|done]|].
    apply (split_child s t n Hs E) in Hc as (_ & _ & ->). lia.
  - intros t [Nt _]. pose proof (wf_bits _ (node_wf s t Hs Nt)). lia.
  - split; [by left|]. apply root_within, Z.mod_pos_bound. lia.
  - change (bits root) with 0. lia.
Qed.

(** ** Listing the leaves *)

(** [tiles lo hi ls]: the intervals of [ls], in order, are adjacent and fill
    [lo, hi). *)
Fixpoint tiles (lo hi : Z) (ls : list Z) : Prop :=
  match ls with [] => lo = hi | f :: ls => value f = lo /\ tiles (lo + len f) hi ls end.

Lemma tiles_app lo hi l1 l2 :
  tiles lo hi (l1 ++ l2) <-> exists mid, tiles lo mid l1 /\ tiles mid hi l2.
Proof.
  revert lo. induction l1 as [|f l1 IH]; intros lo; simpl.
  - split; [by exists lo|]. by intros (mid & -> & ?).
  - rewrite IH. naive_solver.
Qed.

Lemma tiles_children f nb :
  wf_frag f -> 0 <= nb -> bits f + nb <= 24 ->
  tiles (value f) (value f + len f) (map (child f nb) (seqZ 0 (2 ^ nb))).
Proof.
  intros Hf Hn Hb. set (L := 2 ^ (24 - (bits f + nb))).
  assert (EL : len f = 2 ^ nb * L)
    by (unfold L, len; rewrite <- Z.pow_add_r by lia; f_equal; lia).
  assert (H : forall k i, 0 <= i -> i + Z.of_nat k = 2 ^ nb ->
    tiles (value f + i * L) (value f + len f) (map (child f nb) (seqZ i (Z.of_nat k)))).
  { induction k as [|k IH]; intros i Hi Hk.
    - simpl. rewrite EL. nia.
    - rewrite seqZ_cons by lia. cbn [map tiles].
      destruct (child_spec f nb i Hf Hn Hb) as (E1 & E2 & _); [lia|]. split; [done|].
      unfold len at 1. rewrite E1. fold L.
      replace (value f + i * L + L) with (value f + Z.succ i * L) by lia.
      replace (Z.pred (Z.of_nat (S k))) with (Z.of_nat k) by lia. apply IH; lia. }
  specialize (H (Z.to_nat (2 ^ nb)) 0). rewrite Z2Nat.id in H by (apply Z.pow_nonneg; lia).
  rewrite Z.add_0_r in H. apply H; lia.
Qed.

Lemma tiles_covers lo hi ls v :
  tiles lo hi ls -> lo <= v < hi -> Forall wf_frag ls -> exists f, f ∈ ls /\ within f v.
Proof.
  revert lo. induction ls as [|f ls IH]; intros lo; simpl; [lia|].
  intros [Hf Ht] Hv Hw. apply Forall_cons in Hw as [? ?].
  destruct (decide (v < lo + len f)) as [D|D].
  - exists f. split; [by left|]. unfold within. lia.
  - destruct (IH _ Ht) as (g & ? & ?); [lia|done|]. exists g. split; [by right|done].
Qed.

(** The number of fragments at or below those of a queue. *)
Fixpoint weight (q : list Z) : Z :=
  match q with [] => 0 | t :: q => 2 ^ (25 - bits t) - 1 + weight q end.

Lemma weight_app q1 q2 : weight (q1 ++ q2) = weight q1 + weight q2.
Proof. induction q1; simpl; lia. Qed.

Lemma weight_rev q : weight (rev q) = weight q.
Proof. induction q as [|t q IH]; simpl; [done|]. rewrite weight_app, IH. simpl. lia. Qed.

Lemma weight_nonneg q : Forall wf_frag q -> 0 <= weight q.
Proof.
  induction 1 as [|t q Ht ? IH]; simpl; [lia|]. destruct (wf_bits _ Ht).
  pose proof (Z.pow_pos_nonneg 2 (25 - bits t)). lia.
Qed.

Lemma weight_children f nb :
  wf_frag f -> 0 < nb -> bits f + nb <= 24 ->
  weight (map (child f nb) (seqZ 0 (2 ^ nb))) < 2 ^ (25 - bits f) - 1.
Proof.
  intros Hf Hn Hb. set (W := 2 ^ (25 - (bits f + nb))).
  assert (EW : 2 ^ (25 - bits f) = 2 ^ nb * W)
    by (unfold W; rewrite <- Z.pow_add_r by (destruct (wf_bits _ Hf); lia); f_equal; lia).
  assert (H : forall k i, 0 <= i -> i + Z.of_nat k = 2 ^ nb ->
    weight (map (child f nb) (seqZ i (Z.of_nat k))) = Z.of_nat k * (W - 1)).
  { induction k as [|k IH]; intros i Hi Hk; [simpl; lia|].
    rewrite seqZ_cons by lia. cbn [map weight].
    destruct (child_spec f nb i Hf) as (E1 & _); [lia..|]. rewrite E1. fold W.
    replace (Z.pred (Z.of_nat (S k))) with (Z.of_nat k) by lia. rewrite IH; lia. }
  specialize (H (Z.to_nat (2 ^ nb)) 0). rewrite Z2Nat.id in H by (apply Z.pow_nonneg; lia).
  rewrite H by lia. assert (2 ^ 1 <= 2 ^ nb) by (apply Z.pow_le_mono_r; lia). lia.
Qed.

Lemma weight_single t : wf_frag t -> weight [t] < 2 ^ Z.of_nat 25.
Proof.
  intros Ht. simpl weight. destruct (wf_bits _ Ht).
  assert (2 ^ (25 - bits t) <= 2 ^ 25) by (apply Z.pow_le_mono_r; lia).
  change (2 ^ Z.of_nat 25) with (2 ^ 25). lia.
Qed.

Abbreviation children t nb := (map (child t nb) (seqZ 0 (2 ^ nb))).

(** What expanding a split fragment pushes: nodes, lighter than it. *)
Lemma split_children s t :
  sane s -> get_split s t <> 0 ->
  Frag.split t (get_split s t) = Some (children t (get_split s t)) /\
  Forall (is_node s) (children t (get_split s t)) /\
  weight (children t (get_split s t)) < weight [t].
Proof.
  intros Hs Ht. destruct (sa_split _ Hs t Ht) as (Wt & ? & ?). split_and!.
  - by apply split_spec.
  - apply Forall_forall. intros g Hg%elem_of_children. right. by exists t.
  - change (weight [t]) with (2 ^ (25 - bits t) - 1 + 0). rewrite Z.add_0_r.
    by apply weight_children.
Qed.

Lemma nodes_wf s q : sane s -> Forall (is_node s) q -> Forall wf_frag q.
Proof. intros Hs Hq. eapply Forall_impl; [exact Hq|]. intros x. by apply node_wf. Qed.

Lemma get_leaves_spec s :
  wf_tree s ->
  exists ls, get_leaves s [] = Some ls /\ Forall (leaf s) ls /\ tiles 0 (2 ^ 24) ls.
Proof.
  intros Hw. pose proof (wt_sane _ Hw) as Hs.
  apply (while_ends
    (fun st => Forall (is_node s) st.1 /\ Forall (leaf s) st.2 /\
               tiles 0 (2 ^ 24) (rev st.1 ++ st.2))
    (fun st => weight st.1)
    (fun ls => Forall (leaf s) ls /\ tiles 0 (2 ^ 24) ls)).
  - intros [q ls] (Hq & Hl & Ht). simpl in *. destruct q as [|t q]; simpl; [by exists ls|].
    apply Forall_cons in Hq as [Nt Hq]. simpl in Ht. rewrite <- app_assoc in Ht. simpl in Ht.
    destruct (Z.eqb_spec (get_split s t) 0) as [E|E]; simpl.
    + pose proof (weight_nonneg [t]) as H0. simpl in H0.
      split_and!; [done|constructor; [by split|done]|done|].
      assert (Hp : 0 < 2 ^ (25 - bits t) - 1); [|lia].
      pose proof (wf_bits _ (node_wf s t Hs Nt)).
      assert (2 ^ 1 <= 2 ^ (25 - bits t)) by (apply Z.pow_le_mono_r; lia). lia.
    + destruct (split_children s t Hs E) as (-> & Hc & Hlt).
      destruct (sa_split _ Hs t E) as (Wt & ? & ?). simpl.
      split_and!; [|done| |].
      * apply Forall_app. split; [by apply Forall_rev|done].
      * rewrite rev_app_distr, rev_involutive, <- app_assoc.
        apply tiles_app in Ht as (mid & T1 & T2). destruct T2 as [Ev T2].
        apply tiles_app. exists mid. split; [done|]. apply tiles_app. exists (mid + len t).
        split; [|done]. rewrite <- Ev. apply tiles_children; lia || done.
      * rewrite weight_app, weight_rev. simpl in Hlt. lia.
  - intros [q ls] (Hq & _). by apply weight_nonneg, (nodes_wf s).
  - simpl. split_and!; [constructor; [by left|done]|done|done|done].
  - by apply weight_single, root_wf.
Qed.

(** ** Branches *)

(** The chain of fragments around [x], from [k] bits up to the root, has no
    split from [k] down to, but not including, [j] bits. *)
Definition unsplit_from (s : tree) (x j k : Z) : Prop :=
  forall i, j < i <= k -> get_split s (anc x i) = 0.

Lemma get_branch_loop_spec s x fuel k :
  wf_frag x -> 0 <= k <= bits x -> k < Z.of_nat fuel ->
  exists j, get_branch_loop fuel s (anc x k) = Some (anc x j) /\ 0 <= j <= k /\
    unsplit_from s x j k /\ (j = 0 \/ get_split s (anc x j) <> 0).
Proof.
  intros Hx. revert k. induction fuel as [|fuel IH]; intros k Hk Hf; [lia|].
  cbn [get_branch_loop]. destruct (anc_spec x k Hx Hk) as (Eb & Wa & _).
  destruct (Z.eqb_spec (anc x k) root) as [E|E].
  { exists k. rewrite E in Eb. change (bits root) with 0 in Eb. subst k.
    split_and!; [done|lia|lia|unfold unsplit_from; lia|by left]. }
  destruct (Z.eqb_spec (get_split s (anc x k)) 0) as [E'|E']; cbn [negb].
  2: { exists k. split_and!; [done|lia|lia|unfold unsplit_from; lia|by right]. }
  assert (k <> 0) by (intros ->; by rewrite anc_zero in E).
  rewrite parent_anc by (done || lia). obind.
  destruct (IH (k - 1)) as (j & -> & ? & Hu & Hj); [lia..|]. exists j.
  split_and!; [done|lia|lia| |done].
  intros i Hi. destruct (Z.eq_dec i k) as [->|]; [done|]. apply Hu. lia.
Qed.

Lemma get_branch_spec s x :
  wf_frag x ->
  exists j, get_branch s x = Some (anc x j) /\ 0 <= j <= bits x /\
    unsplit_from s x j (bits x) /\ (j = 0 \/ get_split s (anc x j) <> 0).
Proof.
  intros Hx. destruct (wf_bits _ Hx).
  destruct (get_branch_loop_spec s x 256 (bits x) Hx) as (j & E & Hj); [lia|simpl; lia|].
  rewrite anc_self in E by done. exists j. split; [exact E|exact Hj].
Qed.

Lemma get_branch_above_spec s x :
  wf_frag x -> x <> root ->
  exists j, get_branch_above s x = Some (anc x j) /\ 0 <= j < bits x /\
    unsplit_from s x j (bits x - 1) /\ (j = 0 \/ get_split s (anc x j) <> 0).
Proof.
  intros Hx Hn. destruct (wf_bits _ Hx).
  assert (HL : forall fuel k, 0 < k <= bits x -> k < Z.of_nat fuel ->
    exists j, get_branch_above_loop fuel s (anc x k) = Some (anc x j) /\ 0 <= j < k /\
      unsplit_from s x j (k - 1) /\ (j = 0 \/ get_split s (anc x j) <> 0)).
  { induction fuel as [|fuel IH]; intros k Hk Hf; [lia|]. cbn [get_branch_above_loop].
    destruct (anc_spec x k Hx) as (Eb & Wa & _); [lia|].
    destruct (Z.eqb_spec (anc x k) root) as [E|E].
    { rewrite E in Eb. change (bits root) with 0 in Eb. lia. }
    rewrite parent_anc by (done || lia). obind.
    destruct (Z.eqb_spec (get_split s (anc x (k - 1))) 0) as [E'|E']; cbn [negb].
    2: { exists (k - 1). split_and!; [done|lia|lia|unfold unsplit_from; lia|by right]. }
    destruct (Z.eq_dec k 1) as [->|].
    { exists 0. destruct fuel; [lia|]. change (1 - 1) with 0. cbn [get_branch_above_loop].
      rewrite anc_zero by done. rewrite Z.eqb_refl.
      split_and!; [done|lia|lia|unfold unsplit_from; lia|by left]. }
    destruct (IH (k - 1)) as (j & -> & ? & Hu & Hj); [lia..|]. exists j.
    split_and!; [done|lia|lia| |done].
    intros i Hi. destruct (Z.eq_dec i (k - 1)) as [->|]; [done|]. apply Hu. lia. }
  destruct (HL 256%nat (bits x)) as (j & E & Hj).
  - destruct (Z.eq_dec (bits x) 0) as [E|]; [|lia]. by apply bits_zero_root in E.
  - lia.
  - rewrite anc_self in E by done. exists j. split; [exact E|exact Hj].
Qed.

(** The starting point of the searches below [x]: a leaf around [x], or a split
    fragment around [x] whose pieces are smaller than [x]. *)
Lemma get_branch_or_leaf_spec s x :
  sane s -> wf_frag x ->
  exists t, get_branch_or_leaf s x = Some t /\ wf_frag t /\ inside t x /\
    (leaf s t \/ get_split s t <> 0 /\ bits x < bits t + get_split s t).
Proof.
  intros Hs Hx. destruct (get_branch_spec s x Hx) as (j & E & Hj & Hu & Hr).
  unfold get_branch_or_leaf. rewrite E. obind.
  destruct (anc_spec x j Hx Hj) as (Eb & Wa & Ia). rewrite Eb.
  destruct (Z.eq_dec (get_split s (anc x j)) 0) as [Z0|Z0].
  - rewrite Z0. simpl. eexists. split_and!; [done..|]. left. split; [|done].
    left. destruct Hr as [->|]; [by apply anc_zero|done].
  - destruct (sa_split _ Hs _ Z0) as (_ & ? & ?). rewrite (proj2 (Z.ltb_lt _ _)) by lia. simpl.
    destruct (Z.leb_spec (j + get_split s (anc x j)) (bits x)).
    + change (frag (value x) (j + get_split s (anc x j))) with (anc x (j + get_split s (anc x j))).
      destruct (anc_spec x (j + get_split s (anc x j)) Hx) as (Eb' & Wa' & Ia'); [lia|].
      eexists. split_and!; [done..|]. left. split; [right|apply Hu; lia].
      exists (anc x j). split; [done|]. apply split_child; [done..|]. split_and!; [done| |lia].
      apply (within_nested _ _ (value x)); [done|done|apply Ia|apply Ia'|lia].
    + eexists. split_and!; [done..|]. right. rewrite Eb. split; [done|lia].
Qed.

(** ** Leaves under a fragment *)

Lemma weight_pop t q : wf_frag t -> weight q < weight (t :: q).
Proof.
  intros Ht. simpl. destruct (wf_bits _ Ht).
  assert (2 ^ 1 <= 2 ^ (25 - bits t)) by (apply Z.pow_le_mono_r; lia). lia.
Qed.

Lemma split_push s t q :
  sane s -> get_split s t <> 0 -> weight (q ++ children t (get_split s t)) < weight (t :: q).
Proof.
  intros Hs Ht. destruct (split_children s t Hs Ht) as (_ & _ & Hlt).
  rewrite weight_app. simpl in *. lia.
Qed.

(** Everything found is unsplit, inside [x], and a node if the start is. *)
Definition found (s : tree) (x t0 g : Z) : Prop :=
  get_split s g = 0 /\ inside x g /\ (g = t0 \/ is_node s g).

Lemma contains_frag_false f g : wf_frag f -> ceph_frag_contains_frag f g = false <-> ~ inside f g.
Proof. intros Hf. rewrite <- contains_frag_inside by done. by destruct (ceph_frag_contains_frag f g). Qed.

Lemma under_loop s x t0 (C : list Z * list Z -> Prop) :
  sane s -> wf_frag x -> wf_frag t0 ->
  C ([t0], []) ->
  (forall st st', C st -> under_step s x st = inl st' ->
     Forall (fun g => wf_frag g /\ (g = t0 \/ is_node s g)) st.1 -> C st') ->
  exists ls, while 25 (under_step s x) ([t0], []) = Some ls /\
    Forall (found s x t0) ls /\ C ([], ls).
Proof.
  intros Hs Hx Ht H0 HC.
  set (N := fun g => wf_frag g /\ (g = t0 \/ is_node s g)) in *.
  apply (while_ends
    (fun st => Forall N st.1 /\ Forall (found s x t0) st.2 /\ C st)
    (fun st => weight st.1)
    (fun ls => Forall (found s x t0) ls /\ C ([], ls))).
  - intros [q ls] (Hq & Hl & Hc). cbn [fst snd] in Hq, Hl.
    assert (Hc' : forall st', under_step s x (q, ls) = inl st' -> C st')
      by (intros st' E; by apply (HC (q, ls))).
    destruct q as [|t q]; [by exists ls|]. cbn [under_step] in Hc' |- *.
    pose proof Hq as Hq'. apply Forall_cons in Hq' as [[Wt Nt] Hq0].
    destruct ((bits x <=? bits t) && negb (ceph_frag_contains_frag x t)).
    { cbn [fst snd]. split_and!; auto using weight_pop. }
    destruct (Z.eqb_spec (get_split s t) 0) as [E|E]; cbn [negb] in *.
    + destruct (ceph_frag_contains_frag x t) eqn:Ec; cbn [fst snd]; split_and!;
        auto using weight_pop. apply Forall_app. split; [done|]. constructor; [|done].
      apply contains_frag_inside in Ec; [|done]. by split.
    + destruct (split_children s t Hs E) as (Es & Hch & _). rewrite Es in Hc' |- *.
      cbn [fst snd]. split_and!; auto using split_push. apply Forall_app. split; [done|].
      eapply Forall_impl; [exact Hch|]. intros g Hg. split; [by apply (node_wf s)|by right].
  - intros [q ls] (Hq & _). apply weight_nonneg. eapply Forall_impl; [exact Hq|]. by intros g [? _].
  - simpl. split_and!; auto. constructor; [|done]. split; [done|by left].
  - by apply weight_single.
Qed.

(** A node strictly inside a split fragment is inside one of its pieces. *)
Lemma inside_child s t g :
  sane s -> get_split s t <> 0 -> wf_frag g -> inside t g -> bits t + get_split s t <= bits g ->
  exists c, child_of t (get_split s t) c /\ inside c g.
Proof.
  intros Hs Ht Wg Hi Hb. destruct (sa_split _ Hs t Ht) as (Wt & ? & ?). destruct (wf_bits _ Wt).
  destruct (anc_spec g (bits t + get_split s t) Wg) as (Eb & Wc & Ic); [lia|].
  exists (anc g (bits t + get_split s t)). split; [|done]. apply split_child; [done..|].
  split_and!; [done| |done].
  apply (within_nested t _ (value g)); [done|done|apply Hi|apply Ic|lia].
Qed.

(** A step keeps what was found and queued behind the front. *)
Lemma under_step_keeps s x t q ls st' :
  under_step s x (t :: q, ls) = inl st' -> exists cs l, st' = (q ++ cs, ls ++ l).
Proof.
  cbn [under_step]. destruct (_ && _).
  { intros [= <-]. exists [], []. by rewrite !app_nil_r. }
  destruct (negb _).
  - destruct (Frag.split t (get_split s t)) as [cs|]; [|done]. intros [= <-]. exists cs, [].
    by rewrite app_nil_r.
  - destruct (ceph_frag_contains_frag x t); intros [= <-]; [exists [], [t]|exists [], []];
      by rewrite ?app_nil_r.
Qed.

(** A leaf in a node [t] that is not [t] is in one of its pieces. *)
Lemma leaf_below s t g :
  wf_tree s -> is_node s t -> leaf s g -> inside t g ->
  t = g /\ get_split s t = 0 \/
  get_split s t <> 0 /\ exists c, child_of t (get_split s t) c /\ inside c g.
Proof.
  intros Hw Nt Lg Ig. pose proof (wt_sane _ Hw) as Hs.
  destruct (Z.eq_dec (get_split s t) 0) as [E0|E0].
  - left. split; [|done]. symmetry. apply (leaf_minimal s t g Hw); [by split|apply Lg|done].
  - right. split; [done|]. apply (inside_child s t g Hs E0); [by apply (node_wf s), Lg|done|].
    apply (no_between s g t Hw); [apply Lg|done|done|]. intros ->. by destruct Lg.
Qed.

(** A leaf inside [x] below the front is found or stays below the queue. *)
Lemma under_step_leaf s x t q ls st' g :
  wf_tree s -> wf_frag x -> is_node s t -> under_step s x (t :: q, ls) = inl st' ->
  leaf s g -> inside x g -> inside t g -> g ∈ st'.2 \/ exists c, c ∈ st'.1 /\ inside c g.
Proof.
  intros Hw Hx Nt Hst Lg Ig It. pose proof (wt_sane _ Hw) as Hs.
  pose proof (node_wf s t Hs Nt) as Wt. cbn [under_step] in Hst.
  assert (Es : (bits x <=? bits t) && negb (ceph_frag_contains_frag x t) = false).
  { destruct (Z.leb_spec (bits x) (bits t)) as [Hb|]; [|done]. apply negb_false_iff.
    apply contains_frag_inside; [done|].
    apply (within_nested x t (value g)); [done|done|apply Ig|apply It|done]. }
  rewrite Es in Hst. destruct (leaf_below s t g Hw Nt Lg It) as [[-> E0]|[E0 (c & Cc & Ic)]].
  - rewrite E0, (proj2 (contains_frag_inside x g Hx) Ig) in Hst. simpl in Hst. simplify_eq.
    left. cbn [fst snd]. apply elem_of_app. right. by apply list_elem_of_singleton.
  - rewrite (proj2 (Z.eqb_neq _ _) E0) in Hst. cbn [negb] in Hst.
    destruct (split_children s t Hs E0) as (Ec & _). rewrite Ec in Hst. simplify_eq.
    right. exists c. cbn [fst snd]. split; [|done]. apply elem_of_app. right.
    by apply elem_of_children.
Qed.

Lemma get_leaves_under_spec s x :
  wf_tree s -> wf_frag x ->
  exists ls, get_leaves_under s x [] = Some ls /\ forall g, g ∈ ls <-> leaf s g /\ inside x g.
Proof.
  intros Hw Hx. pose proof (wt_sane _ Hw) as Hs.
  destruct (get_branch_or_leaf_spec s x Hs Hx) as (t & Et & Wt & It & Hc).
  unfold get_leaves_under. rewrite Et. obind.
  assert (Nt : is_node s t) by (destruct Hc as [[? _]|[? _]]; [done|by apply wt_node]).
  set (C := fun st : list Z * list Z =>
    forall g, leaf s g -> inside x g -> g ∈ st.2 \/ exists t, t ∈ st.1 /\ inside t g).
  destruct (under_loop s x t C Hs Hx Wt) as (ls & E & Hf & HC).
  - intros g _ Hg. right. exists t. split; [by left|]. by apply (inside_trans t x g).
  - intros [q ls] st' HC Hst Hq g Lg Ig. cbn [fst snd] in Hq.
    destruct q as [|u0 q]; [done|]. apply Forall_cons in Hq as [[Wu Nu] Hq].
    destruct (under_step_keeps s x u0 q ls st' Hst) as (cs & l & Est).
    destruct (HC g Lg Ig) as [Hin|(u & Hu & Iu)]; cbn [fst snd] in *.
    + left. rewrite Est. cbn [fst snd]. apply elem_of_app. by left.
    + apply elem_of_cons in Hu as [->|Hu].
      * apply (under_step_leaf s x u0 q ls st' g Hw Hx); try done. by destruct Nu as [->|?].
      * right. exists u. rewrite Est. cbn [fst snd]. split; [|done]. apply elem_of_app. by left.
  - exists ls. split; [done|]. intros g. split.
    + intros Hg. rewrite Forall_forall in Hf. destruct (Hf g Hg) as (? & ? & Hn).
      split; [|done]. split; [|done]. by destruct Hn as [->|?].
    + intros [Lg Ig]. destruct (HC g Lg Ig) as [?|(u & Hu & _)]; [done|]. by apply elem_of_nil in Hu.
Qed.

(** How many of a list hold a value. *)
Definition holding (v : Z) (l : list Z) : nat :=
  length (List.filter (fun f => (value f <=? v) && (v <? value f + len f)) l).

Lemma holding_app v l l' : holding v (l ++ l') = (holding v l + holding v l')%nat.
Proof. unfold holding. by rewrite List.filter_app, length_app. Qed.

Lemma holding_cons v f l : holding v (f :: l) = (holding v [f] + holding v l)%nat.
Proof. apply (holding_app v [f] l). Qed.

Lemma holding_self f l : wf_frag f -> f ∈ l -> (1 <= holding (value f) l)%nat.
Proof.
  intros Wf Hf. unfold holding. pose proof (len_pos f Wf).
  assert (Hin : List.In f (List.filter (fun g => (value g <=? value f) && (value f <? value g + len g)) l)).
  { apply filter_In. split; [by apply list_elem_of_In|]. lia. }
  destruct (List.filter _ l); [done|]. cbn. lia.
Qed.

Lemma tiles_holding lo hi l v :
  tiles lo hi l -> Forall wf_frag l -> (holding v l <= if ((lo <=? v) && (v <? hi))%Z then 1 else 0)%nat /\ lo <= hi.
Proof.
  intros Ht Hw. revert lo Ht. induction Hw as [|f l Wf _ IH]; cbn [tiles]; intros lo Ht.
  { unfold holding. cbn. lia. }
  destruct Ht as [<- Ht]. destruct (IH _ Ht) as [IH1 IH2]. pose proof (len_pos f Wf). rewrite holding_cons.
  unfold holding at 1. cbn [List.filter]. split; [|lia].
  destruct (Z.leb_spec (value f) v), (Z.ltb_spec v (value f + len f)), (Z.leb_spec (value f + len f) v), (Z.ltb_spec v hi);
    cbn [andb length] in *; lia.
Qed.

(** The pieces of a fragment hold no more than it does. *)
Lemma children_holding v s t :
  sane s -> get_split s t <> 0 -> (holding v (children t (get_split s t)) <= holding v [t])%nat.
Proof.
  intros Hs Ht. destruct (sa_split _ Hs t Ht) as (Wt & ? & ?). destruct (split_children s t Hs Ht) as (_ & Hn & _).
  destruct (tiles_holding (value t) (value t + len t) (children t (get_split s t)) v) as [Hh _].
  - apply tiles_children; [done|lia|done].
  - by apply (nodes_wf s).
  - unfold holding at 2. cbn [List.filter]. by destruct ((value t <=? v) && (v <? value t + len t)).
Qed.

Lemma nodup_holding l : Forall wf_frag l -> (forall v, holding v l <= 1)%nat -> NoDup l.
Proof.
  induction 1 as [|f l Wf _ IH]; intros Hh; constructor.
  - intros Hf. specialize (Hh (value f)). rewrite holding_cons in Hh. pose proof (holding_self f l Wf Hf).
    pose proof (holding_self f [f] Wf ltac:(by left)). lia.
  - apply IH. intros v. specialize (Hh v). rewrite holding_cons in Hh. lia.
Qed.

Lemma get_leaves_under_nodup s x ls :
  wf_tree s -> wf_frag x -> get_leaves_under s x [] = Some ls -> NoDup ls.
Proof.
  intros Hw Hx. pose proof (wt_sane _ Hw) as Hs.
  destruct (get_branch_or_leaf_spec s x Hs Hx) as (t & Et & Wt & It & Hc).
  unfold get_leaves_under. rewrite Et. obind.
  destruct (under_loop s x t (fun st => forall v, (holding v (st.1 ++ st.2) <= 1)%nat) Hs Hx Wt) as (ls' & E' & Hf & Hh).
  - intros v. unfold holding. cbn. by destruct (_ && _); cbn; lia.
  - intros [q l] st' Hh Hst Hq v. specialize (Hh v). cbn [fst snd] in *. destruct q as [|u q]; [done|].
    cbn [under_step] in Hst. cbn [app] in Hh. rewrite holding_cons in Hh. rewrite holding_app in Hh.
    destruct (_ && _); [simplify_eq; cbn [fst snd]; rewrite holding_app; lia|].
    destruct (Z.eqb_spec (get_split s u) 0) as [E0|E0]; cbn [negb] in Hst.
    + destruct (ceph_frag_contains_frag x u); simplify_eq; cbn [fst snd]; rewrite !holding_app; lia.
    + destruct (split_children s u Hs E0) as (Es & _). rewrite Es in Hst. simplify_eq. cbn [fst snd].
      rewrite !holding_app. pose proof (children_holding v s u Hs E0). lia.
  - rewrite E'. intros [= <-]. clear E'. apply nodup_holding; [|exact Hh].
    eapply Forall_impl; [exact Hf|]. intros g (_ & _ & [->|Hg]); [done|by apply (node_wf s)].
Qed.

(** [get_leaves_under] adds to the list it is given. *)
Lemma under_acc n s x q a l :
  while n (under_step s x) (q, a ++ l) = app a <$> while n (under_step s x) (q, l).
Proof.
  unfold while.
  pose proof (loop_map (fun st : list Z * list Z => (st.1, a ++ st.2)) (fmap (app a)) (under_step s x) n (q, l)) as E.
  cbn [fst snd] in E. rewrite E; [by destruct (loop n (under_step s x) (q, l)) as [|[]]|].
  clear. intros [[|u q] l]; [done|]. cbn [fst snd under_step]. destruct (_ && _); [done|]. destruct (negb _).
  - by destruct (Frag.split u (get_split s u)).
  - destruct (ceph_frag_contains_frag x u); [|done]. cbn [fst snd]. by rewrite <- app_assoc.
Qed.

Lemma get_leaves_under_acc s x a : get_leaves_under s x a = app a <$> get_leaves_under s x [].
Proof.
  unfold get_leaves_under. destruct (get_branch_or_leaf s x) as [t|]; [|reflexivity]. obind.
  rewrite <- under_acc. by rewrite app_nil_r.
Qed.

(** ** is_leaf *)

Lemma is_leaf_found s x :
  sane s -> wf_frag x ->
  exists b t, is_leaf s x = Some b /\ get_branch_or_leaf s x = Some t /\
    (b = true -> get_split s x = 0 /\ (x = t \/ is_node s x)).
Proof.
  intros Hs Hx. destruct (get_branch_or_leaf_spec s x Hs Hx) as (t & Et & Wt & _).
  unfold is_leaf, get_leaves_under. rewrite Et. obind.
  destruct (under_loop s x t (fun _ => True) Hs Hx Wt) as (ls & -> & Hf & _); [done..|]. obind.
  eexists _, t. split_and!; [done..|]. destruct ls as [|g ls]; [done|].
  intros [->%Z.eqb_eq _]%andb_true_iff. apply Forall_cons in Hf as [(? & _ & ?) _]. done.
Qed.

(** An unsplit fragment that its own search starts from is a leaf. *)
Lemma is_leaf_here s x :
  sane s -> wf_frag x -> get_branch_or_leaf s x = Some x -> get_split s x = 0 ->
  is_leaf s x = Some true.
Proof.
  intros Hs Hx Et E0. unfold is_leaf, get_leaves_under. rewrite Et. obind.
  destruct (under_loop s x x (fun st => st = ([x], []) \/ st = ([], [x])) Hs Hx Hx)
    as (ls & -> & _ & Hc); [by left| |].
  - intros st st' [->| ->] Hst _; [|done]. right. cbn [under_step] in Hst.
    rewrite (proj2 (contains_frag_inside x x Hx) (inside_refl x Hx)), E0, andb_false_r in Hst.
    simpl in Hst. by simplify_eq.
  - destruct Hc as [|Hc]; [done|]. simplify_eq. obind. by rewrite Z.eqb_refl.
Qed.

Lemma is_leaf_spec s x :
  wf_tree s -> wf_frag x -> exists b, is_leaf s x = Some b /\ (b = true <-> leaf s x).
Proof.
  intros Hw Hx. pose proof (wt_sane _ Hw) as Hs.
  destruct (is_leaf_found s x Hs Hx) as (b & t & Eb & Et & Hb). exists b. split; [done|].
  destruct (get_branch_or_leaf_spec s x Hs Hx) as (t' & Et' & Wt & It & Hc).
  assert (t' = t) as -> by congruence. split.
  - intros [E0 Hn]%Hb. destruct Hn as [->|Hn]; [|by split]. split; [|done].
    destruct Hc as [[? _]|[? _]]; [done|by apply wt_node].
  - intros [Nx E0]. assert (t = x) as ->.
    { destruct Hc as [Lt|[Ht Hlt]]; [by rewrite (leaf_minimal s t x Hw)|].
      destruct (Z.eq_dec t x); [done|]. pose proof (no_between s x t Hw Nx Ht It). lia. }
    rewrite (is_leaf_here s x) in Eb by done. congruence.
Qed.

Lemma tree_contains_spec s x :
  wf_tree s -> wf_frag x -> exists b, contains s x = Some b /\ (b = true <-> leaf s x).
Proof.
  intros Hw Hx. pose proof (wt_sane _ Hw) as Hs.
  destruct (get_branch_spec s x Hx) as (j & E & Hj & _ & Hr).
  destruct (anc_spec x j Hx Hj) as (_ & Wa & Ia). unfold contains. rewrite E. obind.
  apply (while_ends
    (fun q => Forall (is_node s) q /\ (leaf s x -> exists t, t ∈ q /\ inside t x)) weight
    (fun b => b = true <-> leaf s x)).
  - intros q (Hq & Hc). destruct q as [|t q]; cbn [contains_step].
    { exists false. split; [done|]. split; [done|]. intros (t & Ht & _)%Hc. by apply elem_of_nil in Ht. }
    apply Forall_cons in Hq as [Nt Hq]. pose proof (node_wf s t Hs Nt) as Wt.
    destruct ((bits x <=? bits t) && negb (ceph_frag_contains_frag x t)) eqn:Eskip.
    { split; [|by apply weight_pop]. split; [done|]. intros Lx. destruct (Hc Lx) as (u & Hu & Iu).
      apply elem_of_cons in Hu as [->|]; [|by exists u].
      apply andb_true_iff in Eskip as [Hb%Z.leb_le Hn%negb_true_iff].
      apply contains_frag_false in Hn; [|done]. exfalso. apply Hn.
      rewrite (inside_same_bits t x) by (done || destruct Iu; lia). by apply inside_refl. }
    destruct (Z.eqb_spec (get_split s t) 0) as [E0|E0]; cbn [negb].
    + destruct (Z.eqb_spec t x) as [->|Hne].
      { exists true. by split. }
      split; [|by apply weight_pop]. split; [done|]. intros Lx. destruct (Hc Lx) as (u & Hu & Iu).
      apply elem_of_cons in Hu as [->|]; [|by exists u]. exfalso. apply Hne. symmetry.
      by apply (leaf_minimal s t x Hw); [|apply Lx|].
    + destruct (Z.eqb_spec t x) as [->|Hne].
      { exists false. split; [done|]. split; [done|]. by intros [_ ?]. }
      destruct (split_children s t Hs E0) as (-> & Hch & _).
      split; [|by apply split_push]. split; [by apply Forall_app|]. intros Lx.
      destruct (Hc Lx) as (u & Hu & Iu). apply elem_of_cons in Hu as [->|Hu].
      2: { exists u. split; [apply elem_of_app; by left|done]. }
      destruct (leaf_below s t x Hw Nt Lx Iu) as [[-> ?]|[_ (c & Cc & Ic)]]; [done|].
      exists c. split; [|done]. apply elem_of_app. right. by apply elem_of_children.
  - intros q (Hq & _). by apply weight_nonneg, (nodes_wf s).
  - split; [|intros _; exists (anc x j); split; [by left|done]]. constructor; [|done].
    destruct Hr as [->|Hr]; [|by apply wt_node]. left. by apply anc_zero.
  - by apply weight_single.
Qed.

(** ** Splitting a leaf *)

Lemma sane_set s x b :
  sane s -> wf_frag x -> 0 <= x -> 0 < b -> bits x + b <= 24 -> sane (map_set s x b).
Proof.
  intros Hs Hx H0 Hb Hl. split; [by apply map_set_keys; [apply Hs|]| |].
  { intros f. rewrite (map_find_set 0) by apply Hs. destruct (f =? x); [injection; lia|apply Hs]. }
  intros f. rewrite get_split_set by done. destruct (Z.eqb_spec f x) as [->|]; [done|]. apply Hs.
Qed.

Lemma sane_erase s x : sane s -> sane (map_erase s x).
Proof.
  intros Hs. split; [by apply map_erase_keys, Hs| |].
  { intros f. rewrite (map_find_erase 0) by apply Hs. destruct (f =? x); [done|apply Hs]. }
  intros f. rewrite get_split_erase by done. destruct (f =? x); [done|]. apply Hs.
Qed.

Lemma wf_nonneg x : wf_frag x -> 0 <= x.
Proof.
  intros [Hb _]. pose proof (value_range x). rewrite (frag_eq x). lia.
Qed.

Lemma set_node s x b f :
  sane s -> get_split s x = 0 -> b <> 0 ->
  is_node (map_set s x b) f <-> is_node s f \/ child_of x b f.
Proof.
  intros Hs E0 Hb. split.
  - intros [->|(p & Hp & Hc)]; [by left; left|]. rewrite get_split_set in Hp, Hc by done.
    destruct (Z.eqb_spec p x) as [E|E]; [subst p; by right|]. left. right. by exists p.
  - intros [[->|(p & Hp & Hc)]|Hc]; [by left| |]; right.
    + exists p. rewrite get_split_set, (proj2 (Z.eqb_neq p x)) by (done || congruence). done.
    + exists x. by rewrite get_split_set, Z.eqb_refl.
Qed.

Lemma child_of_strict x b c :
  wf_frag x -> 0 < b -> bits x + b <= 24 -> child_of x b c -> wf_frag c /\ inside x c /\ c <> x.
Proof.
  intros Hx Hb Hl Hc. apply child_of_inside in Hc as (? & ? & Eb); [|done|lia|done].
  split_and!; [done..|]. intros ->. lia.
Qed.

Lemma set_wf s x b :
  wf_tree s -> leaf s x -> 0 < b -> bits x + b <= 24 ->
  wf_tree (map_set s x b) /\
  forall g, leaf (map_set s x b) g <-> leaf s g /\ g <> x \/ child_of x b g.
Proof.
  intros Hw Lx Hb Hl. pose proof (wt_sane _ Hw) as Hs. destruct (Lx) as [Nx E0].
  pose proof (node_wf s x Hs Nx) as Wx.
  assert (Hs' : sane (map_set s x b)) by (apply sane_set; auto using wf_nonneg).
  split.
  - split; [done|]. intros f. rewrite get_split_set by done. intros Hf. apply set_node; [done..|lia|].
    left. destruct (Z.eqb_spec f x) as [E|E]; [by subst f|by apply wt_node].
  - intros g. unfold leaf. rewrite set_node, get_split_set by (done || lia).
    destruct (Z.eqb_spec g x) as [->|Hne].
    + split; [intros [_ ?]; lia|]. intros [[_ ?]|Hc]; [done|].
      by destruct (child_of_strict x b x Wx Hb Hl Hc) as (_ & _ & ?).
    + split; [intros [[?|?] ?]; auto|]. intros [[[? ?] _]|Hc]; [auto|]. split; [by right|].
      destruct (Z.eq_dec (get_split s g) 0) as [|Hg]; [done|]. exfalso. apply Hne.
      destruct (child_of_strict x b g Wx Hb Hl Hc) as (_ & Hi & _).
      apply (leaf_minimal s x g Hw Lx); [by apply wt_node|done].
Qed.

(** ** Assimilating identically split children *)

Lemma same_split_spec s cb0 l cb :
  same_split s cb0 l = Some cb -> l <> [] \/ cb0 <> 0 ->
  cb <> 0 /\ (cb0 <> 0 -> cb = cb0) /\ Forall (fun c => get_split s c = cb) l.
Proof.
  revert cb0. induction l as [|c l IH]; simpl; intros cb0 H Hne.
  { simplify_eq. destruct Hne; done. }
  destruct (Z.eqb_spec (get_split s c) 0) as [|E0]; [done|].
  destruct (negb (cb0 =? 0) && negb (get_split s c =? cb0)) eqn:Ec; [done|].
  destruct (IH _ H) as (? & He & Hf); [by right|]. split_and!; [done| |].
  - intros Hn. rewrite He by done. destruct (Z.eqb_spec cb0 0); [done|].
    destruct (Z.eqb_spec (get_split s c) cb0); [done|]. done.
  - constructor; [by rewrite He|done].
Qed.

Lemma splits_erased_spec s l f :
  sane s ->
  sane (foldl map_erase s l) /\
  get_split (foldl map_erase s l) f = if decide (f ∈ l) then 0 else get_split s f.
Proof.
  revert s. induction l as [|c l IH]; intros s Hs; cbn [foldl].
  { split; [done|]. by rewrite decide_False by apply not_elem_of_nil. }
  destruct (IH (map_erase s c) (sane_erase s c Hs)) as [? ->]. split; [done|].
  rewrite get_split_erase by done. destruct (Z.eqb_spec f c) as [->|Hn].
  - rewrite (decide_True (P := c ∈ c :: l)) by (by left). by destruct (decide (c ∈ l)).
  - destruct (decide (f ∈ l)) as [D|D].
    + by rewrite decide_True by (by right).
    + rewrite decide_False; [done|]. by intros [?|?]%elem_of_cons.
Qed.

(** A node is a piece of one split fragment only. *)
Lemma parent_unique s p q f :
  wf_tree s -> get_split s p <> 0 -> get_split s q <> 0 ->
  child_of p (get_split s p) f -> child_of q (get_split s q) f -> p = q.
Proof.
  intros Hw Hp Hq Cp Cq. pose proof (wt_sane _ Hw) as Hs.
  apply split_child in Cp as (Wf & Ip & Ep); [|done..].
  apply split_child in Cq as (_ & Iq & Eq); [|done..].
  destruct (sa_split _ Hs p Hp) as (Wp & ? & ?). destruct (sa_split _ Hs q Hq) as (Wq & ? & ?).
  destruct (Z.eq_dec p q) as [|Hne]; [done|].
  destruct (inside_both p q f Wp Wq Ip Iq) as [Hi|Hi].
  - pose proof (no_between s q p Hw (wt_node _ Hw q Hq) Hp Hi ltac:(congruence)). lia.
  - pose proof (no_between s p q Hw (wt_node _ Hw p Hp) Hq Hi ltac:(congruence)). lia.
Qed.

(** Pieces of the pieces are pieces of the larger split. *)
Lemma child_of_add x nb cb f :
  wf_frag x -> 0 < nb -> 0 < cb -> bits x + nb + cb <= 24 ->
  child_of x (nb + cb) f <-> exists c, child_of x nb c /\ child_of c cb f.
Proof.
  intros Hx Hn Hc Hl. rewrite child_of_inside by (done || lia). split.
  - intros (Wf & Hi & Eb). destruct (wf_bits _ Hx).
    destruct (anc_spec f (bits x + nb) Wf) as (Ea & Wa & Ia); [lia|].
    exists (anc f (bits x + nb)). rewrite !child_of_inside by (done || lia).
    split_and!; [done| |done|done|done|lia].
    apply (within_nested x _ (value f)); [done|done|apply Hi|apply Ia|lia].
  - intros (c & Cc & Cf). apply child_of_inside in Cc as (Wc & Ic & Ec); [|done|lia|lia].
    apply child_of_inside in Cf as (Wf & If & Ef); [|done|lia|lia].
    split_and!; [done|by apply (inside_trans x c f)|lia].
Qed.

Section Assimilate.
Context (s : tree) (x nb cb : Z) (s' : tree).
Context (Hw : wf_tree s) (Hx : get_split s x = nb) (Hnb : nb <> 0) (Hcb : cb <> 0).
Context (Hch : forall c, child_of x nb c -> get_split s c = cb).
Context (Hs' : sane s').
Context (Hg : forall f, get_split s' f =
  if decide (f = x) then nb + cb else if decide (child_of x nb f) then 0 else get_split s f).

Lemma assimilate_bits : wf_frag x /\ 0 < nb /\ 0 < cb /\ bits x + nb + cb <= 24.
Proof using Hw Hx Hnb Hcb Hch.
  pose proof (wt_sane _ Hw) as Hs. destruct (sa_split _ Hs x) as (Wx & Pn & Bn); [congruence|].
  rewrite Hx in Pn, Bn.
  assert (Hc : child_of x nb (child x nb 0)).
  { exists 0. split; [|done]. pose proof (Z.pow_pos_nonneg 2 nb). lia. }
  pose proof (Hch _ Hc) as Ec. destruct (sa_split _ Hs (child x nb 0)) as (_ & ? & ?); [congruence|].
  apply child_of_inside in Hc as (_ & _ & Eb); [|done|lia|done].
  split_and!; [done|done|congruence|congruence].
Qed.

Lemma assimilate_node f : is_node s' f <-> is_node s f /\ ~ child_of x nb f.
Proof using All.
  destruct assimilate_bits as (Wx & ? & ? & ?). pose proof (wt_sane _ Hw) as Hs. split.
  - intros [->|(p & Hp & Hc)].
    { split; [by left|]. intros (_ & Hi & Eb)%child_of_inside; [|done|lia|lia].
      apply inside_root in Hi; [|done]. subst x. lia. }
    rewrite Hg in Hp, Hc. destruct (decide (p = x)) as [E|Npx]; [subst p|].
    + apply child_of_add in Hc as (c & Cc & Cf); [|done|lia..]. split.
      * right. exists c. by rewrite (Hch c Cc).
      * intros Cx. apply child_of_inside in Cc as (Wc & _ & Ec); [|done|lia|lia].
        apply child_of_inside in Cx as (_ & _ & Ex); [|done|lia|lia].
        apply child_of_inside in Cf as (_ & _ & Ef); [|done|lia|lia]. lia.
    + destruct (decide (child_of x nb p)); [done|]. split; [right; by exists p|].
      intros Cx. apply Npx. apply (parent_unique s p x f Hw); [done|congruence|done|congruence].
  - intros [[->|(p & Hp & Hc)] Hn]; [by left|]. right.
    destruct (decide (p = x)) as [->|Npx]; [congruence|].
    destruct (decide (child_of x nb p)) as [Cp|Cp].
    + exists x. rewrite Hg, decide_True by done. split; [lia|].
      apply child_of_add; [done|lia..|]. exists p. split; [done|]. by rewrite (Hch p Cp) in Hc.
    + exists p. by rewrite Hg, !decide_False by done.
Qed.

Lemma assimilate_wf : wf_tree s' /\ forall g, leaf s' g <-> leaf s g.
Proof using All.
  destruct assimilate_bits as (Wx & ? & ? & ?). pose proof (wt_sane _ Hw) as Hs. split.
  - split; [done|]. intros f Hf. rewrite Hg in Hf. apply assimilate_node.
    destruct (decide (f = x)) as [E|E]; [subst f|].
    + split; [apply wt_node; [done|congruence]|]. intros Hc.
      by apply child_of_strict in Hc as (_ & _ & ?); [|done|lia|lia].
    + destruct (decide (child_of x nb f)); [done|]. split; [by apply wt_node|done].
  - intros g. unfold leaf. rewrite assimilate_node, Hg. split.
    + intros [[Ng Nc] E]. destruct (decide (g = x)); [lia|].
      rewrite decide_False in E by done. done.
    + intros [Ng E]. assert (~ child_of x nb g) by (intros Hc; rewrite (Hch g Hc) in E; lia).
      split; [done|]. rewrite decide_False by congruence. by rewrite decide_False.
Qed.
End Assimilate.

Lemma try_assimilate_spec s x :
  wf_tree s ->
  exists s', try_assimilate_children s x = Some s' /\ wf_tree s' /\
    (forall g, leaf s' g <-> leaf s g).
Proof.
  intros Hw. pose proof (wt_sane _ Hw) as Hs. unfold try_assimilate_children.
  destruct (Z.eqb_spec (get_split s x) 0) as [|E0]; [by exists s|].
  destruct (split_children s x Hs E0) as (-> & _). obind.
  destruct (same_split s 0 (children x (get_split s x))) as [cb|] eqn:Ec; [|by exists s].
  destruct (sa_split _ Hs x E0) as (Wx & Hn & Hl).
  apply same_split_spec in Ec as (Hcb & _ & Hf).
  2: { left. intros E. apply (f_equal length) in E. rewrite length_map, length_seqZ in E.
       pose proof (Z.pow_pos_nonneg 2 (get_split s x)). simpl in E. lia. }
  rewrite Forall_forall in Hf.
  assert (Hch : forall c, child_of x (get_split s x) c -> get_split s c = cb).
  { intros c Hc. by apply Hf, elem_of_children. }
  set (l := children x (get_split s x)) in *.
  assert (Hm : forall f, f ∈ l <-> child_of x (get_split s x) f) by (intros; apply elem_of_children).
  clearbody l.
  assert (Hxl : x ∉ l).
  { rewrite Hm. intros Hc. by apply child_of_strict in Hc as (_ & _ & ?). }
  destruct (splits_erased_spec s l x Hs) as [Hs1 ->]. rewrite decide_False by done.
  destruct (assimilate_bits s x _ cb Hw eq_refl E0 Hcb Hch) as (_ & _ & ? & ?).
  rewrite s32_small by (destruct (wf_bits _ Wx); lia). eexists. split; [done|].
  apply (assimilate_wf s x (get_split s x) cb); auto.
  - apply sane_set; auto using wf_nonneg; lia.
  - intros f. rewrite get_split_set by done. destruct (Z.eqb_spec f x) as [->|Hne].
    { by rewrite decide_True. }
    rewrite (decide_False (P := f = x)) by done. destruct (splits_erased_spec s l f Hs) as [_ ->].
    destruct (decide (f ∈ l)) as [D|D], (decide (child_of x (get_split s x) f)) as [D'|D']; auto.
    + by apply Hm in D.
    + by apply Hm in D'.
Qed.

(** The optional last step of [split] and [merge]. *)
Lemma simplify_spec s x :
  wf_tree s -> wf_frag x ->
  exists s', (up ← get_branch_above s x; try_assimilate_children s up) = Some s' /\ wf_tree s' /\
    (forall g, leaf s' g <-> leaf s g).
Proof.
  intros Hw Hx. assert (exists up, get_branch_above s x = Some up) as [up ->].
  { destruct (Z.eq_dec x root) as [->|Hn]; [by exists root|].
    destruct (get_branch_above_spec s x Hx Hn) as (j & -> & _). eauto. }
  obind. by apply try_assimilate_spec.
Qed.

Lemma split_tree_spec s x b simplify :
  wf_tree s -> leaf s x -> 0 < b -> bits x + b <= 24 ->
  exists s', split s x b simplify = Some s' /\ wf_tree s' /\
    (forall g, leaf s' g <-> leaf s g /\ g <> x \/ child_of x b g).
Proof.
  intros Hw Lx Hb Hl. pose proof (node_wf s x (wt_sane _ Hw) (proj1 Lx)) as Wx.
  destruct (is_leaf_spec s x Hw Wx) as (y & Ey & Hy). unfold split. rewrite Ey. obind.
  rewrite (proj2 Hy Lx). destruct (set_wf s x b Hw Lx Hb Hl) as [Hw' Hg].
  destruct simplify; [|by exists (map_set s x b)].
  destruct (simplify_spec (map_set s x b) x Hw' Wx) as (s' & -> & ? & Hg').
  exists s'. split_and!; [done..|]. intros g. by rewrite Hg', Hg.
Qed.

(** [split] on a fragment that is not a leaf, [merge] on a leaf: assertion
    failures. *)
Lemma split_tree_aborts s x b simplify :
  wf_tree s -> wf_frag x -> ~ leaf s x -> split s x b simplify = None.
Proof.
  intros Hw Wx Nl. destruct (is_leaf_spec s x Hw Wx) as (y & Ey & Hy). unfold split.
  rewrite Ey. obind. destruct y; [|done]. by destruct Nl; apply Hy.
Qed.

(** ** Merging *)

Lemma is_leaf_key s x : sane s -> get_split s x <> 0 -> is_leaf s x = Some false.
Proof.
  intros Hs Hx. destruct (sa_split _ Hs x Hx) as (Wx & _).
  destruct (is_leaf_found s x Hs Wx) as (b & t & -> & _ & Hb). destruct b; [|done].
  by destruct (Hb eq_refl).
Qed.

Lemma merge_step s x :
  sane s -> get_split s x <> 0 -> merge s x (get_split s x) false = Some (map_erase s x).
Proof. intros Hs Hx. unfold merge. by rewrite is_leaf_key, Z.eqb_refl by done. Qed.

Lemma root_not_child s x : sane s -> get_split s x <> 0 -> ~ child_of x (get_split s x) root.
Proof.
  intros Hs Hx (_ & _ & Eb)%split_child; [|done..]. change (bits root) with 0 in Eb.
  destruct (sa_split _ Hs x Hx) as (Wx & ? & ?). destruct (wf_bits _ Wx). lia.
Qed.

Lemma erase_wf s x :
  wf_tree s -> get_split s x <> 0 ->
  (forall c, child_of x (get_split s x) c -> get_split s c = 0) ->
  wf_tree (map_erase s x) /\
  forall g, leaf (map_erase s x) g <-> leaf s g /\ ~ child_of x (get_split s x) g \/ g = x.
Proof.
  intros Hw Hx Hc. pose proof (wt_sane _ Hw) as Hs.
  assert (Hn : forall f, is_node (map_erase s x) f <-> is_node s f /\ ~ child_of x (get_split s x) f).
  { intros f. split.
    - intros [->|(p & Hp & Cp)]; [split; [by left|by apply root_not_child]|].
      rewrite get_split_erase in Hp, Cp by done. destruct (Z.eqb_spec p x) as [|Npx]; [done|].
      split; [right; by exists p|]. intros Cx. by apply Npx, (parent_unique s p x f).
    - intros [[->|(p & Hp & Cp)] Hnc]; [by left|]. right. exists p.
      rewrite get_split_erase by done. destruct (Z.eqb_spec p x) as [->|]; done. }
  assert (Nx : is_node (map_erase s x) x).
  { apply Hn. split; [by apply wt_node|]. intros Cx. by rewrite (Hc x Cx) in Hx. }
  split.
  - split; [by apply sane_erase|]. intros f Hf. rewrite get_split_erase in Hf by done.
    destruct (Z.eqb_spec f x) as [|Nf]; [done|]. apply Hn. split; [by apply wt_node|].
    intros Cf. by rewrite (Hc f Cf) in Hf.
  - intros g. unfold leaf. rewrite get_split_erase by done.
    destruct (Z.eqb_spec g x) as [->|Ng]; [by split; [right|]|]. rewrite Hn. naive_solver.
Qed.

Lemma merge_tree_spec s x simplify :
  wf_tree s -> get_split s x <> 0 ->
  (forall c, child_of x (get_split s x) c -> get_split s c = 0) ->
  exists s', merge s x (get_split s x) simplify = Some s' /\ wf_tree s' /\
    (forall g, leaf s' g <-> leaf s g /\ ~ child_of x (get_split s x) g \/ g = x).
Proof.
  intros Hw Hx Hc. pose proof (wt_sane _ Hw) as Hs. destruct (erase_wf s x Hw Hx Hc) as [Hw' Hg].
  unfold merge. rewrite is_leaf_key, Z.eqb_refl by done. cbn [mbind option_bind negb].
  destruct simplify; [|by exists (map_erase s x)]. destruct (sa_split _ Hs x Hx) as (Wx & _).
  destruct (simplify_spec _ x Hw' Wx) as (s' & -> & ? & Hg').
  exists s'. split_and!; [done..|]. intros g. by rewrite Hg', Hg.
Qed.

(** ** force_to_leaf *)

(** An unsplit piece of a split fragment, nothing split between the two. *)
Lemma here_child s p x :
  sane s -> get_split s x = 0 -> get_split s p <> 0 -> child_of p (get_split s p) x ->
  (forall i, bits p < i < bits x -> get_split s (anc x i) = 0) ->
  is_leaf s x = Some true.
Proof.
  intros Hs Hx Hp Cx Hb. apply split_child in Cx as (Wx & Ip & Eb); [|done..].
  destruct (sa_split _ Hs p Hp) as (Wp & ? & ?). destruct (wf_bits _ Wp).
  apply is_leaf_here; [done..| |done].
  pose proof (inside_anc p x Wp Wx Ip) as Ep.
  destruct (get_branch_spec s x Wx) as (j & E & Hj & Hu & Hr).
  assert (j = bits p) as ->.
  { destruct (Z.lt_trichotomy j (bits p)) as [Hlt|[|Hgt]]; [|done|].
    - destruct Hp. rewrite Ep. apply Hu. lia.
    - destruct Hr as [->|Hr]; [lia|]. destruct Hr.
      destruct (Z.eq_dec j (bits x)) as [->|]; [by rewrite anc_self|apply Hb; lia]. }
  unfold get_branch_or_leaf. rewrite E. obind. rewrite <- Ep.
  rewrite (proj2 (Z.ltb_lt _ _)), (proj2 (Z.leb_le _ _)) by lia. simpl.
  rewrite <- Eb. f_equal. by apply anc_self.
Qed.

Lemma here_root s : sane s -> get_split s root = 0 -> is_leaf s root = Some true.
Proof.
  intros Hs E0. apply is_leaf_here; auto using root_wf. unfold get_branch_or_leaf.
  change (get_branch s root) with (Some root). obind. by rewrite E0.
Qed.

(** Splitting a split in two: [up], split by [nb], is split by [spread] and its
    pieces by the rest. *)
Section Refine.
Context (s : tree) (up nb spread : Z) (s' : tree).
Context (Hw : wf_tree s) (Hup : get_split s up = nb) (Hsp : 0 < spread < nb) (Hs' : sane s').
Context (Hg : forall f, get_split s' f =
  if decide (f = up) then spread
  else if decide (child_of up spread f) then nb - spread else get_split s f).

Lemma refine_bits : wf_frag up /\ bits up + nb <= 24.
Proof using Hw Hup Hsp.
  destruct (sa_split _ (wt_sane _ Hw) up) as (? & _ & ?); [lia|]. by rewrite Hup in *.
Qed.

(** The fragments between [up] and its pieces are not nodes. *)
Lemma between_not_node f : wf_frag f -> inside up f -> bits up < bits f < bits up + nb -> ~ is_node s f.
Proof using Hw Hup Hsp.
  intros Wf Hi Hb Nf. pose proof (no_between s f up Hw Nf) as H. rewrite Hup in H.
  assert (f <> up) by (intros ->; lia). specialize (H ltac:(lia) Hi ltac:(done)). lia.
Qed.

Lemma mid_not_node f : child_of up spread f -> ~ is_node s f.
Proof using Hw Hup Hsp.
  destruct refine_bits. intros (? & ? & ?)%child_of_inside; [|done|lia|lia].
  apply between_not_node; [done..|lia].
Qed.

Lemma mid_not_up f : child_of up spread f -> f <> up.
Proof using Hw Hup Hsp.
  destruct refine_bits. intros Hc. by apply child_of_strict in Hc as (_ & _ & ?); [|done|lia|lia].
Qed.

Lemma refine_node f : is_node s' f <-> is_node s f \/ child_of up spread f.
Proof using All.
  destruct refine_bits as [Wup ?]. split.
  - intros [->|(p & Hp & Cp)]; [by left; left|]. rewrite Hg in Hp, Cp.
    destruct (decide (p = up)) as [E|E]; [subst p; by right|].
    destruct (decide (child_of up spread p)) as [Cup|Cup]; [|left; right; by exists p].
    left. right. exists up. split; [lia|]. rewrite Hup.
    replace nb with (spread + (nb - spread)) by lia. apply child_of_add; [done|lia..|]. by exists p.
  - intros [[->|(p & Hp & Cp)]|Hc]; [by left| |].
    + right. destruct (decide (p = up)) as [->|E].
      * rewrite Hup in Cp. replace nb with (spread + (nb - spread)) in Cp by lia.
        apply child_of_add in Cp as (c & Cc & Cf); [|done|lia..]. exists c.
        rewrite Hg, decide_False, decide_True by auto using mid_not_up. split; [lia|done].
      * exists p. assert (~ child_of up spread p).
        { intros Hc. apply (mid_not_node p Hc). by apply wt_node. }
        by rewrite Hg, !decide_False by done.
    + right. exists up. rewrite Hg, decide_True by done. split; [lia|done].
Qed.

Lemma refine_wf : wf_tree s' /\ forall g, leaf s' g <-> leaf s g.
Proof using All.
  split.
  - split; [done|]. intros f Hf. rewrite Hg in Hf. apply refine_node.
    destruct (decide (f = up)) as [E|E]; [left; apply wt_node; [done|subst f; lia]|].
    destruct (decide (child_of up spread f)); [by right|left; by apply wt_node].
  - intros g. unfold leaf. rewrite refine_node, Hg. split.
    + intros [Hn E]. destruct (decide (g = up)); [lia|].
      destruct (decide (child_of up spread g)); [lia|]. by destruct Hn.
    + intros [Hn E]. split; [by left|]. rewrite decide_False by (intros ->; lia).
      rewrite decide_False; [done|]. intros Hc. by apply (mid_not_node g).
Qed.
End Refine.

(** [merge(up); split(up, spread)] *)
Lemma resplit_spec s up spread :
  wf_tree s -> 0 < spread < get_split s up ->
  exists s', (s1 ← merge s up (get_split s up) false; split s1 up spread false) = Some s' /\
    sane s' /\ (forall f, get_split s' f = if decide (f = up) then spread else get_split s f).
Proof.
  intros Hw Hsp. pose proof (wt_sane _ Hw) as Hs. assert (Hup : get_split s up <> 0) by lia.
  destruct (sa_split _ Hs up Hup) as (Wup & ? & ?). rewrite merge_step by done. obind.
  pose proof (sane_erase s up Hs) as Hs1.
  assert (E1 : get_split (map_erase s up) up = 0) by (by rewrite get_split_erase, Z.eqb_refl).
  assert (El : is_leaf (map_erase s up) up = Some true).
  { destruct (wt_node _ Hw up Hup) as [->|(p & Hp & Cp)]; [by apply here_root|].
    apply split_child in Cp as Cp'; [|done..]. destruct Cp' as (_ & Ip & Eb).
    destruct (sa_split _ Hs p Hp) as (Wp & ? & ?).
    assert (p <> up) by (intros ->; lia).
    assert (Ep : get_split (map_erase s up) p = get_split s p)
      by (by rewrite get_split_erase, (proj2 (Z.eqb_neq _ _))).
    apply (here_child _ p); rewrite ?Ep; auto. intros i Hi. rewrite get_split_erase by done.
    destruct (Z.eqb_spec (anc up i) up) as [|Na]; [done|].
    destruct (Z.eq_dec (get_split s (anc up i)) 0) as [|Hk]; [done|]. exfalso.
    destruct (wf_bits _ Wp). destruct (anc_spec up i Wup) as (Ea & Wa & Ia); [lia|].
    apply (between_not_node s p (get_split s p) 1 Hw eq_refl ltac:(lia) (anc up i) Wa);
      [|lia|by apply wt_node].
    apply (within_nested p _ (value up)); [done|done|apply Ip|apply Ia|lia]. }
  unfold split. rewrite El. obind. eexists. split_and!; [done| |].
  - apply sane_set; auto using wf_nonneg; lia.
  - intros f. rewrite get_split_set, get_split_erase by done.
    destruct (Z.eqb_spec f up) as [->|]; [by rewrite decide_True|by rewrite decide_False].
Qed.

(** The loop over the new pieces. *)
Lemma split_subs_spec s up spread rest l sk :
  wf_tree s -> 0 < spread -> 0 < rest -> spread + rest = get_split s up ->
  sane sk -> NoDup l -> (forall c, c ∈ l -> child_of up spread c) ->
  (forall f, get_split sk f =
     if decide (f = up) then spread
     else if decide (child_of up spread f /\ f ∉ l) then rest else get_split s f) ->
  exists s', split_subs sk l rest = Some s' /\ sane s' /\
    (forall f, get_split s' f =
       if decide (f = up) then spread
       else if decide (child_of up spread f) then rest else get_split s f).
Proof.
  intros Hw Hsp Hr Esum. pose proof (wt_sane _ Hw) as Hs.
  assert (Hup : get_split s up <> 0) by lia. destruct (sa_split _ Hs up Hup) as (Wup & ? & ?).
  destruct (wf_bits _ Wup).
  revert sk. induction l as [|c l IH]; intros sk Hsk Hnd Hl Hg; cbn [split_subs].
  { exists sk. split_and!; [done..|]. intros f. rewrite Hg. destruct (decide (f = up)); [done|].
    destruct (decide (child_of up spread f)) as [D|D].
    - by rewrite decide_True by (split; [done|apply not_elem_of_nil]).
    - by rewrite decide_False by (by intros [? _]). }
  apply NoDup_cons in Hnd as [Hnc Hnd]. pose proof (Hl c ltac:(by left)) as Cc.
  apply child_of_inside in Cc as Cc'; [|done|lia|lia]. destruct Cc' as (Wc & Ic & Ec).
  assert (Nc : ~ is_node s c) by (apply (mid_not_node s up (spread + rest) spread); auto; lia).
  assert (c <> up) by (intros ->; lia).
  assert (Es : split sk c rest false = Some (map_set sk c rest)).
  { unfold split. rewrite (here_child sk up c); [done|done| | | |].
    - rewrite Hg, decide_False, decide_False by (done || (intros [_ Hn]; apply Hn; by left)).
      destruct (Z.eq_dec (get_split s c) 0) as [|Hk]; [done|]. by destruct Nc; apply wt_node.
    - rewrite Hg, decide_True by done. lia.
    - by rewrite Hg, decide_True.
    - intros i Hi. destruct (anc_spec c i Wc) as (Ea & Wa & Ia); [lia|].
      rewrite Hg, decide_False by (intros E; rewrite E in Ea; lia).
      rewrite decide_False.
      2: { intros [Ci _]. apply child_of_inside in Ci as (_ & _ & ?); [|done|lia|lia]. lia. }
      destruct (Z.eq_dec (get_split s (anc c i)) 0) as [|Hk]; [done|]. exfalso.
      apply (between_not_node s up (spread + rest) spread Hw ltac:(done) ltac:(lia) (anc c i) Wa);
        [|lia|by apply wt_node].
      apply (within_nested up _ (value c)); [done|done|apply Ic|apply Ia|lia]. }
  rewrite Es. obind. apply IH; [|done|intros d Hd; apply Hl; by right|].
  { apply sane_set; auto using wf_nonneg; lia. }
  intros f. rewrite get_split_set, Hg by done. destruct (Z.eqb_spec f c) as [->|Hne].
  - by rewrite decide_False, decide_True.
  - destruct (decide (f = up)); [done|].
    destruct (decide (child_of up spread f /\ f ∉ l)) as [[D1 D2]|D].
    + rewrite decide_True; [done|]. split; [done|]. by intros [?|?]%elem_of_cons.
    + rewrite decide_False; [done|]. intros [D1 D2]. apply D. split; [done|].
      intros ?. apply D2. by right.
Qed.

(** ** Removing everything below a fragment *)

(** [s'] is [s] with nothing split inside [x]. *)
Definition cleared (s s' : tree) (x : Z) : Prop :=
  forall f, wf_frag f -> get_split s' f = (if ceph_frag_contains_frag x f then 0 else get_split s f).

Record hoovering (s : tree) (x : Z) (sk : tree) (q : list Z) : Prop := {
  ho_sane : sane sk;
  ho_queue : Forall (fun t => wf_frag t /\ inside x t) q;
  ho_outside : forall f, ~ inside x f -> get_split sk f = get_split s f;
  ho_split : forall f, get_split sk f <> 0 -> get_split sk f = get_split s f;
  ho_below : forall f, get_split sk f <> 0 -> inside x f ->
    f ∈ q \/ exists r, get_split sk r <> 0 /\ inside x r /\ child_of r (get_split sk r) f
}.

Lemma hoover_step_ok s x sk q :
  wf_frag x -> hoovering s x sk q ->
  match hoover_step (sk, q) with
  | inl (sk', q') => hoovering s x sk' q' /\ weight q' < weight q
  | inr r => q = [] /\ r = Some sk
  end.
Proof.
  intros Wx [Hs Hq Ho Hsp Hb]. destruct q as [|t q]; cbn [hoover_step]; [done|].
  apply Forall_cons in Hq as [[Wt It] Hq].
  destruct (Z.eqb_spec (get_split sk t) 0) as [E0|E0]; cbn [negb].
  { split; [|by apply weight_pop]. split; auto. intros f Hf Hi.
    destruct (Hb f Hf Hi) as [[->|?]%elem_of_cons|?]; auto. done. }
  rewrite merge_step by done. destruct (split_children sk t Hs E0) as (-> & Hch & _).
  split; [|by apply split_push]. split.
  - by apply sane_erase.
  - apply Forall_app. split; [done|]. apply Forall_forall. intros c Hc%elem_of_children.
    apply split_child in Hc as (? & ? & _); [|done..]. split; [done|by apply (inside_trans x t c)].
  - intros f Hf. rewrite get_split_erase by done. destruct (Z.eqb_spec f t) as [->|]; [done|by apply Ho].
  - intros f Hf. rewrite get_split_erase in Hf |- * by done. destruct (f =? t); [done|by apply Hsp].
  - intros f Hf Hi. rewrite get_split_erase in Hf by done. destruct (Z.eqb_spec f t) as [|Nf]; [done|].
    destruct (Hb f Hf Hi) as [[|Hin]%elem_of_cons|(r & Hr & Ir & Cr)]; [done| |].
    + left. apply elem_of_app. by left.
    + destruct (Z.eq_dec r t) as [->|Nr].
      * left. apply elem_of_app. right. by apply elem_of_children.
      * right. exists r. by rewrite get_split_erase, (proj2 (Z.eqb_neq _ _)) by done.
Qed.

(** With the queue empty, nothing inside [x] is split. *)
Lemma hoovering_done s x sk : wf_frag x -> hoovering s x sk [] -> cleared s sk x.
Proof.
  intros Wx [Hs _ Ho _ Hb] f Wf.
  destruct (ceph_frag_contains_frag x f) eqn:Ec.
  2: { apply Ho. by apply contains_frag_false. }
  apply contains_frag_inside in Ec; [|done].
  remember (Z.to_nat (bits f)) as n eqn:En. revert f Wf Ec En.
  induction (lt_wf n) as [n _ IH]. intros f Wf Ec ->.
  destruct (Z.eq_dec (get_split sk f) 0) as [|Hf]; [done|]. exfalso.
  destruct (Hb f Hf Ec) as [Hin|(r & Hr & Ir & Cr)]; [by apply elem_of_nil in Hin|].
  apply split_child in Cr as (_ & _ & Eb); [|done..].
  destruct (sa_split _ Hs r Hr) as (Wr & ? & ?). destruct (wf_bits _ Wr).
  destruct Hr. apply (IH (Z.to_nat (bits r))); [lia|done..].
Qed.

Lemma hoover_spec s x :
  wf_tree s -> wf_frag x -> is_node s x ->
  exists s', hoover s x = Some s' /\ sane s' /\ cleared s s' x.
Proof.
  intros Hw Wx Nx. pose proof (wt_sane _ Hw) as Hs.
  apply (while_ends (fun st => hoovering s x st.1 st.2) (fun st => weight st.2)
    (fun s' => sane s' /\ cleared s s' x)).
  - intros [sk q] Hi. pose proof (hoover_step_ok s x sk q Wx Hi) as Hst. cbn [fst snd] in *.
    destruct (hoover_step (sk, q)) as [[sk' q']|r]; [done|]. destruct Hst as [-> ->].
    exists sk. split; [done|]. split; [apply Hi|by apply hoovering_done].
  - intros [sk q] Hi. apply weight_nonneg. eapply Forall_impl; [apply Hi|]. by intros t [? _].
  - cbn [fst snd]. split; auto.
    + constructor; [|done]. split; [done|by apply inside_refl].
    + intros f Hf Hi. destruct (Z.eq_dec f x) as [->|Hne]; [left; by left|]. right.
      destruct (sa_split _ Hs f Hf) as (Wf & _).
      destruct (wt_node _ Hw f Hf) as [->|(r & Hr & Cr)].
      { by apply inside_root in Hi. }
      exists r. split; [done|]. apply split_child in Cr as Cr'; [|done..]. destruct Cr' as (_ & Ir & Eb).
      destruct (sa_split _ Hs r Hr) as (Wr & _). split; [|done].
      destruct (inside_both x r f Wx Wr Hi Ir) as [?|Irx]; [done|].
      destruct (Z.eq_dec x r) as [->|Nxr]; [by apply inside_refl|].
      pose proof (no_between s x r Hw Nx Hr Irx Nxr).
      destruct Hne. symmetry. apply inside_same_bits; [done..|]. destruct Hi. lia.
  - by apply weight_single.
Qed.

(** What is left is a tree with [x] as a leaf. *)
Lemma cleared_wf s s' x :
  wf_tree s -> is_node s x -> sane s' -> cleared s s' x ->
  wf_tree s' /\ forall g, leaf s' g <-> g = x \/ leaf s g /\ ~ inside x g.
Proof.
  intros Hw Nx Hs' Hc. pose proof (wt_sane _ Hw) as Hs. pose proof (node_wf s x Hs Nx) as Wx.
  assert (Hout : forall f, wf_frag f -> ~ inside x f -> get_split s' f = get_split s f).
  { intros f Wf Hn. rewrite (Hc f Wf). by rewrite (proj2 (contains_frag_false x f Wx)). }
  assert (Hin : forall f, wf_frag f -> inside x f -> get_split s' f = 0).
  { intros f Wf Hi. rewrite (Hc f Wf). by rewrite (proj2 (contains_frag_inside x f Wx)). }
  assert (Hkey : forall f, get_split s' f <> 0 -> get_split s f <> 0 /\ ~ inside x f /\
    get_split s' f = get_split s f).
  { intros f Hf. destruct (sa_split _ Hs' f Hf) as (Wf & _).
    assert (~ inside x f) by (intros Hi; by rewrite (Hin f) in Hf). rewrite <- (Hout f) by done. done. }
  (* the pieces of a fragment not inside [x] are [x] or not inside [x] *)
  assert (Hpiece : forall p f, get_split s p <> 0 -> ~ inside x p -> child_of p (get_split s p) f ->
    inside x f -> f = x).
  { intros p f Hp Np Cp Hi. destruct (sa_split _ Hs p Hp) as (Wp & _).
    apply split_child in Cp as (Wf & Ip & Eb); [|done..].
    destruct (inside_both x p f Wx Wp Hi Ip) as [?|Ipx]; [done|].
    destruct (Z.eq_dec x p) as [->|Nxp]; [by destruct Np; apply inside_refl|].
    pose proof (no_between s x p Hw Nx Hp Ipx Nxp).
    symmetry. apply inside_same_bits; [done..|]. destruct Hi. lia. }
  assert (Hn : forall f, is_node s' f <-> f = x \/ is_node s f /\ ~ inside x f).
  { assert (Hback : forall f, is_node s f -> f = x \/ ~ inside x f -> is_node s' f).
    { intros f [->|(p & Hp & Cp)] Hf; [by left|].
      destruct (sa_split _ Hs p Hp) as (Wp & ? & ?).
      apply split_child in Cp as Cp'; [|done..]. destruct Cp' as (Wf & Ip & Eb).
      assert (~ inside x p).
      { intros Hi. destruct Hf as [->|Hf]; [|by apply Hf, (inside_trans x p f)].
        pose proof (inside_antisym x p Wx Wp Hi Ip). subst p. lia. }
      right. exists p. by rewrite (Hout p). }
    intros f. split.
    - intros [->|(p & Hp & Cp)].
      { destruct (Z.eq_dec root x) as [|Hne]; [by left|]. right. split; [by left|].
        intros Hi. by apply Hne; symmetry; apply inside_root. }
      destruct (Hkey p Hp) as (Hp' & Np & Ep). rewrite Ep in Cp.
      destruct (ceph_frag_contains_frag x f) eqn:Ec.
      + left. apply contains_frag_inside in Ec; [|done]. by apply (Hpiece p f).
      + right. split; [right; by exists p|]. by apply contains_frag_false in Ec.
    - intros [->|[Nf Hi]]; apply Hback; auto. }
  split.
  - split; [done|]. intros f Hf. destruct (Hkey f Hf) as (Hf' & Ni & _). apply Hn. right.
    split; [by apply wt_node|done].
  - intros g. unfold leaf. rewrite Hn. split.
    + intros [[->|[Ng Ni]] E]; [by left|]. right. rewrite Hout in E; [done|by apply (node_wf s)|done].
    + intros [->|[[Ng E] Ni]].
      * split; [by left|]. apply Hin; [done|by apply inside_refl].
      * split; [by right|]. rewrite Hout; [done|by apply (node_wf s)|done].
Qed.

Lemma leaf_now_spec s x : wf_tree s -> leaf s x -> leaf_now s x = Some (s, true).
Proof.
  intros Hw Lx. pose proof (node_wf s x (wt_sane _ Hw) (proj1 Lx)) as Wx.
  destruct (is_leaf_spec s x Hw Wx) as (b & Eb & Hb). unfold leaf_now. rewrite Eb. obind.
  by rewrite (proj2 Hb Lx).
Qed.

(** [force_to_leaf] from a tree of which [x] is a split node. *)
Lemma hoover_leaf s x :
  wf_tree s -> is_node s x ->
  exists s', (s1 ← hoover s x; leaf_now s1 x) = Some (s', true) /\ wf_tree s' /\
    (forall g, leaf s' g <-> g = x \/ leaf s g /\ ~ inside x g).
Proof.
  intros Hw Nx. pose proof (node_wf s x (wt_sane _ Hw) Nx) as Wx.
  destruct (hoover_spec s x Hw Wx Nx) as (s' & -> & Hs' & Hc). obind.
  destruct (cleared_wf s s' x Hw Nx Hs' Hc) as [Hw' Hg]. exists s'.
  split_and!; [|done..]. apply leaf_now_spec; [done|]. apply Hg. by left.
Qed.

(** The leaves of the result: [x], the leaves that do not overlap it, and the
    new pieces of the leaf that contained it. *)
Record forced (s s' : tree) (x : Z) : Prop := {
  fo_wf : wf_tree s';
  fo_leaf : leaf s' x;
  fo_kept : forall g, leaf s g -> ~ inside x g -> ~ inside g x -> leaf s' g
}.

Lemma nodup_children f nb : wf_frag f -> 0 <= nb -> bits f + nb <= 24 -> NoDup (children f nb).
Proof.
  intros Hf Hn Hb. apply NoDup_fmap_2_strong; [|apply NoDup_seqZ].
  intros i j Hi%elem_of_seqZ Hj%elem_of_seqZ E.
  destruct (child_spec f nb i Hf Hn Hb) as (_ & Ei & _); [lia|].
  destruct (child_spec f nb j Hf Hn Hb) as (_ & Ej & _); [lia|].
  rewrite E, Ej in Ei. pose proof (Z.pow_pos_nonneg 2 (24 - (bits f + nb)) ltac:(lia) ltac:(lia)).
  apply Z.add_cancel_l in Ei. symmetry. by apply Z.mul_cancel_r in Ei; [|lia].
Qed.

(** The intermediary split. *)
Lemma refine_spec s up spread :
  wf_tree s -> 0 < spread < get_split s up ->
  exists s', (s1 ← merge s up (get_split s up) false;
              s2 ← split s1 up spread false;
              subs ← Frag.split up spread;
              split_subs s2 subs (get_split s up - spread)) = Some s' /\
    wf_tree s' /\ (forall g, leaf s' g <-> leaf s g) /\
    (forall f, is_node s' f <-> is_node s f \/ child_of up spread f).
Proof.
  intros Hw Hsp. pose proof (wt_sane _ Hw) as Hs. assert (Hup : get_split s up <> 0) by lia.
  destruct (sa_split _ Hs up Hup) as (Wup & ? & ?).
  destruct (resplit_spec s up spread Hw Hsp) as (s2 & E2 & Hs2 & Hg2).
  destruct (merge s up (get_split s up) false) as [s1|]; [|done]. cbn [mbind option_bind] in E2 |- *.
  rewrite E2. obind. rewrite split_spec by lia. obind.
  destruct (split_subs_spec s up spread (get_split s up - spread) (children up spread) s2)
    as (s' & -> & Hs' & Hg'); auto; try lia.
  - apply nodup_children; lia || done.
  - intros c. apply elem_of_children.
  - intros f. rewrite Hg2. destruct (decide (f = up)); [done|]. rewrite decide_False; [done|].
    intros [Hc Hn]. by apply Hn, elem_of_children.
  - exists s'. split; [done|].
    destruct (refine_wf s up (get_split s up) spread s' Hw eq_refl Hsp Hs' Hg') as [? ?].
    split_and!; [done..|]. apply (refine_node s up (get_split s up) spread s' Hw eq_refl Hsp Hs' Hg').
Qed.

(** A fragment between [up] and its pieces. *)
Lemma force_between s up x :
  wf_tree s -> child_of up (bits x - bits up) x -> 0 < bits x - bits up < get_split s up ->
  exists s', (s1 ← merge s up (get_split s up) false;
              s2 ← split s1 up (bits x - bits up) false;
              subs ← Frag.split up (bits x - bits up);
              s3 ← split_subs s2 subs (get_split s up - (bits x - bits up));
              s4 ← hoover s3 x;
              leaf_now s4 x) = Some (s', true) /\ forced s s' x.
Proof.
  intros Hw Cx Hsp.
  destruct (refine_spec s up (bits x - bits up) Hw Hsp) as (s3 & E3 & Hw3 & Hg3 & Hn3).
  apply bind_Some in E3 as (s1 & E1 & E3). apply bind_Some in E3 as (s2 & E2 & E3).
  apply bind_Some in E3 as (subs & Esubs & E3).
  destruct (hoover_leaf s3 x Hw3) as (s' & E' & Hw' & Hg); [apply Hn3; by right|].
  exists s'. split.
  - apply bind_Some. exists s1. split; [exact E1|]. apply bind_Some. exists s2. split; [exact E2|].
    apply bind_Some. exists subs. split; [exact Esubs|]. apply bind_Some. exists s3.
    split; [exact E3|exact E'].
  - split; [done|apply Hg; by left|]. intros g Lg Hn _. apply Hg. right. by rewrite Hg3.
Qed.

Lemma force_to_leaf_spec s x :
  wf_tree s -> wf_frag x ->
  exists s' b, force_to_leaf s x = Some (s', b) /\ forced s s' x /\
    (b = false <-> leaf s x) /\ (b = false -> s' = s).
Proof.
  intros Hw Wx. pose proof (wt_sane _ Hw) as Hs. unfold force_to_leaf.
  destruct (is_leaf_spec s x Hw Wx) as (b & -> & Hb). obind. destruct b.
  { exists s, false. split; [done|]. assert (leaf s x) by (by apply Hb). split_and!; [by split|done..]. }
  assert (Nl : ~ leaf s x) by (intros Lx; by apply Hb in Lx).
  destruct (get_branch_or_leaf_spec s x Hs Wx) as (up & -> & Wup & Iup & Hc). obind.
  rewrite (proj2 (Z.leb_le _ _)) by apply Iup.
  destruct (Z.ltb_spec (bits up) (bits x)) as [Hlt|Hge].
  2: { assert (up = x) as -> by (apply inside_same_bits; [done..|destruct Iup; lia]).
       destruct Hc as [|[Hk _]]; [done|].
       destruct (hoover_leaf s x Hw (wt_node _ Hw x Hk)) as (s' & -> & Hw' & Hg).
       exists s', true. split; [done|]. split_and!; [|done..]. split; [done|apply Hg; by left|].
       intros g Lg Hn _. apply Hg. by right. }
  assert (Cx : child_of up (bits x - bits up) x).
  { apply child_of_inside; [done|lia|destruct (wf_bits _ Wx); lia|]. split_and!; [done..|lia]. }
  destruct (Z.eqb_spec (get_split s up) 0) as [E0|E0].
  - destruct Hc as [Lup|[? _]]; [|done].
    destruct (split_tree_spec s up (bits x - bits up) true Hw Lup) as (s' & -> & Hw' & Hg);
      [lia|destruct (wf_bits _ Wx); lia|]. obind.
    assert (Lx : leaf s' x) by (apply Hg; by right). rewrite leaf_now_spec by done.
    exists s', true. split; [done|]. split_and!; [|done..]. split; [done..|].
    intros g Lg _ Hn. apply Hg. left. split; [done|]. by intros ->.
  - destruct Hc as [[_ ?]|[_ Hlt2]]; [done|]. rewrite (proj2 (Z.ltb_lt _ _)) by lia.
    destruct (force_between s up x Hw Cx) as (s' & E' & Hf); [lia|].
    exists s', true. split; [exact E'|]. by split_and!.
Qed.

(** ** Properties *)

(** C23: the leaves of a well-formed tree, in the order [get_leaves] lists them,
    are adjacent intervals that fill the 24-bit hash space, and [operator[]]
    returns, for every 32-bit hash, the one leaf whose interval holds it: it
    terminates, fails no assertion, and agrees with [is_leaf], [contains] and
    [get_leaves_under]. *)
Theorem leaves_partition s v :
  wf_tree s -> 0 <= v < 2 ^ 32 ->
  exists ls t, get_leaves s [] = Some ls /\ tiles 0 (2 ^ 24) ls /\
    at_value s v = Some t /\ ceph_frag_contains_value t v = true /\ t ∈ ls /\
    (forall u, u ∈ ls -> is_leaf s u = Some true /\ contains s u = Some true /\
       (ceph_frag_contains_value u v = true -> u = t)).
Proof.
  intros Hw Hv. destruct (get_leaves_spec s Hw) as (ls & El & Hl & Ht).
  destruct (at_value_spec s v Hw) as (t & Et & Lt & Wt); [lia|]. pose proof (wt_sane _ Hw) as Hs.
  rewrite Forall_forall in Hl. exists ls, t. pose proof (node_wf s t Hs (proj1 Lt)).
  assert (Wl : Forall wf_frag ls).
  { apply Forall_forall. intros u Hu. apply (node_wf s u Hs), Hl, Hu. }
  split_and!; [done..| | |].
  - by apply contains_value_within; [|lia|].
  - destruct (tiles_covers 0 (2 ^ 24) ls (v mod 2 ^ 24) Ht) as (u & Hu & Wu);
      [apply Z.mod_pos_bound; lia|done|].
    by rewrite (leaf_unique s t u (v mod 2 ^ 24) Hw Lt (Hl u Hu) Wt Wu).
  - intros u Hu. pose proof (Hl u Hu) as Lu. pose proof (node_wf s u Hs (proj1 Lu)) as Wu.
    destruct (is_leaf_spec s u Hw Wu) as (b & -> & Hb).
    destruct (tree_contains_spec s u Hw Wu) as (c & -> & Hc).
    rewrite (proj2 Hb Lu), (proj2 Hc Lu). split_and!; [done..|].
    intros Hin%contains_value_within; [|done|lia]. by apply (leaf_unique s u t (v mod 2 ^ 24)).
Qed.

Lemma set_erase s x b : sane s -> get_split s x = 0 -> 0 <= x -> map_erase (map_set s x b) x = s.
Proof.
  intros Hs E0 Hx. pose proof (sa_keys _ Hs) as Hk.
  assert (Hf : map_find s x = None).
  { unfold get_split in E0. destruct (map_find s x) as [v|] eqn:E; [|done]. simpl in E0. subst v.
    by apply (sa_nonzero _ Hs) in E. }
  apply (map_find_ext 0); [by apply map_erase_keys, map_set_keys|done|].
  intros k. rewrite (map_find_erase 0), (map_find_set 0) by auto using map_set_keys.
  destruct (Z.eqb_spec k x) as [->|]; [by rewrite Hf|done].
Qed.

(** Splitting a leaf replaces it, among the leaves, by its pieces and
    touches no other leaf, whether or not the tree is simplified afterwards;
    a fragment that is not a leaf is refused; and merging the pieces back
    gives the tree one started from. *)
Theorem split_merge_correct s x b :
  wf_tree s -> wf_frag x -> 0 < b -> bits x + b <= 24 ->
  (leaf s x ->
     (forall simplify, exists s', split s x b simplify = Some s' /\ wf_tree s' /\
        forall g, leaf s' g <-> leaf s g /\ g <> x \/ child_of x b g) /\
     (exists s', split s x b false = Some s' /\ merge s' x b false = Some s)) /\
  (~ leaf s x -> forall simplify, split s x b simplify = None).
Proof.
  intros Hw Wx Hb Hl. split; [|intros Nl simplify; by apply split_tree_aborts].
  intros Lx. split; [intros simplify; by apply split_tree_spec|]. pose proof (wt_sane _ Hw) as Hs.
  destruct (set_wf s x b Hw Lx Hb Hl) as [Hw' _].
  exists (map_set s x b). split.
  - destruct (is_leaf_spec s x Hw Wx) as (y & Ey & Hy). unfold split. rewrite Ey. obind.
    by rewrite (proj2 Hy Lx).
  - assert (E : get_split (map_set s x b) x = b) by (by rewrite get_split_set, Z.eqb_refl).
    rewrite <- E at 2. rewrite merge_step by (apply Hw' || lia).
    f_equal. apply set_erase; [done|apply Lx|by apply wf_nonneg].
Qed.

(** [merge] of a fragment whose pieces are leaves makes it a leaf and keeps
    the other leaves; with [simplify] the splits above may be assimilated,
    which changes no leaf. *)
Theorem merge_correct s x simplify :
  wf_tree s -> get_split s x <> 0 ->
  (forall c, child_of x (get_split s x) c -> leaf s c) ->
  exists s', merge s x (get_split s x) simplify = Some s' /\ wf_tree s' /\
    (forall g, leaf s' g <-> leaf s g /\ ~ child_of x (get_split s x) g \/ g = x).
Proof. intros Hw Hx Hc. apply merge_tree_spec; [done..|]. intros c Cc. by apply Hc. Qed.

(** C22: [force_to_leaf] always succeeds: afterwards the fragment is a leaf of a
    well-formed tree, the leaves that do not overlap it are still leaves, and
    every other leaf is a piece of the leaf that contained it before.  It
    returns false, and changes nothing, exactly when the fragment already was
    a leaf. *)
Theorem force_to_leaf_correct s x :
  wf_tree s -> wf_frag x ->
  exists s' b, force_to_leaf s x = Some (s', b) /\ wf_tree s' /\ leaf s' x /\
    (b = false <-> leaf s x) /\ (b = false -> s' = s) /\
    (forall g, leaf s g -> ~ inside x g -> ~ inside g x -> leaf s' g) /\
    (forall g, leaf s' g -> g = x \/ leaf s g \/ exists h, leaf s h /\ inside h x /\ inside h g).
Proof.
  intros Hw Wx. destruct (force_to_leaf_spec s x Hw Wx) as (s' & b & E & [Hw' Lx Hk] & Hb & Hb').
  exists s', b. do 6 (split; [done|]). intros g Lg.
  pose proof (node_wf s' g (wt_sane _ Hw') (proj1 Lg)) as Wg. pose proof (value_range g).
  destruct (at_value_spec s (value g) Hw) as (h & _ & Lh & Hh); [lia|]. rewrite Z.mod_small in Hh by lia.
  pose proof (node_wf s h (wt_sane _ Hw) (proj1 Lh)) as Wh.
  destruct (ceph_frag_contains_frag x h) eqn:E1.
  { left. apply contains_frag_inside in E1; [|done].
    apply (leaf_unique s' g x (value g) Hw' Lg Lx); [by apply within_self|].
    by apply (inside_within x h). }
  destruct (ceph_frag_contains_frag h x) eqn:E2.
  2: { right. left. apply contains_frag_false in E1, E2; [|done..].
       by rewrite (leaf_unique s' g h (value g) Hw' Lg (Hk h Lh E1 E2) (within_self g Wg) Hh). }
  apply contains_frag_inside in E2; [|done]. right. right. exists h. split_and!; [done..|].
  split; [|done]. destruct (Z.le_gt_cases (bits h) (bits g)) as [|Hlt]; [done|]. exfalso.
  assert (inside g x).
  { apply (inside_trans g h x); [done..| |done]. apply (within_nested g h (value g)); auto using within_self; lia. }
  assert (x = g) by (apply (leaf_minimal s' g x Hw' Lg (proj1 Lx)); done). subst g.
  destruct E2. lia.
Qed.

(** A tree is read back as it was written. *)
Theorem fragtree_roundtrip s rest :
  wf_tree s -> Z.of_nat (length s) < 2 ^ 32 ->
  decode_tree (encode_tree s ++ rest) = Some (s, rest).
Proof.
  intros Hw Hl. pose proof (wt_sane _ Hw) as Hs. unfold decode_tree, encode_tree.
  apply (decode_map_app _ _ _ _ _ _ 0); [done|apply Hs|].
  apply Forall_forall. intros [f b] Hin.
  pose proof (map_find_elem 0 s f b (sa_keys _ Hs) Hin) as Hf.
  assert (E : get_split s f = b) by (unfold get_split; by rewrite Hf).
  assert (b <> 0) by (intros ->; by apply (sa_nonzero _ Hs) in Hf).
  destruct (sa_split _ Hs f) as (Wf & ? & ?); [congruence|]. rewrite E in *.
  pose proof (wf_nonneg f Wf). pose proof (value_range f). destruct (wf_bits _ Wf).
  split; intros r; cbn [fst snd].
  - apply decode_uint_small. rewrite (frag_eq f). change (256 ^ Z.of_nat 4) with (2 ^ 32). lia.
  - apply decode_s32_app. lia.
Qed.

(** ** Witnesses *)

Lemma wf_empty_tree : wf_tree [] /\ leaf [] root.
Proof. split; [split; [split|]; done|split; [by left|done]]. Qed.

Definition half : Z := 0x1800000.   (* 1/1 *)
Definition example : tree := [(root, 1); (half, 2)].

Lemma half_child : child_of root 1 half.
Proof. exists 1. split; [lia|reflexivity]. Qed.

Lemma half_only_wf : wf_tree [(root, 1)] /\ leaf [(root, 1)] half.
Proof.
  destruct wf_empty_tree as [Hw Hl]. change (bits root) with 0 in *.
  destruct (set_wf [] root 1 Hw Hl) as [? Hg]; [lia|done|]. split; [done|].
  apply Hg. right. apply half_child.
Qed.

Lemma example_wf : wf_tree example /\ (forall g, child_of half 2 g -> leaf example g).
Proof.
  destruct half_only_wf as [Hw Hl].
  destruct (set_wf [(root, 1)] half 2 Hw Hl) as [? Hg]; [lia|done|]. split; [done|].
  intros g Cg. apply Hg. by right.
Qed.

Lemma half_wf : wf_frag half.
Proof. split; [vm_compute; split; discriminate|]. by exists 1. Qed.

Definition quarter : Z := 0x3a00000.   (* 5/3 *)

Lemma quarter_wf : wf_frag quarter.
Proof. split; [vm_compute; split; discriminate|]. by exists 5. Qed.

Lemma quarter_leaf : leaf example quarter.
Proof. apply example_wf. exists 1. split; [lia|reflexivity]. Qed.

Lemma leaves_partition_witness :
  exists ls t, get_leaves example [] = Some ls /\ at_value example 0xb12345 = Some t /\
    t ∈ ls /\ t = quarter.
Proof.
  destruct (leaves_partition example 0xb12345 (proj1 example_wf) ltac:(lia))
    as (ls & t & El & _ & Et & _ & Hin & _).
  exists ls, t. split; [exact El|]. split; [exact Et|]. split; [exact Hin|].
  revert Et. vm_compute. congruence.
Defined.

Lemma split_merge_correct_witness :
  exists s', split example quarter 3 false = Some s' /\ merge s' quarter 3 false = Some example.
Proof.
  destruct (split_merge_correct example quarter 3 (proj1 example_wf) quarter_wf
    ltac:(lia) ltac:(vm_compute; discriminate)) as [H _].
  exact (proj2 (H quarter_leaf)).
Defined.

Lemma merge_correct_witness :
  exists s', merge example half (get_split example half) true = Some s' /\ wf_tree s' /\ leaf s' half.
Proof.
  destruct (merge_correct example half true (proj1 example_wf)) as (s' & E & Hw & Hg).
  - vm_compute. discriminate.
  - exact (proj2 example_wf).
  - exists s'. split; [exact E|]. split; [exact Hw|]. apply Hg. right. reflexivity.
Defined.

Lemma force_to_leaf_correct_witness :
  exists s' b, force_to_leaf example half = Some (s', b) /\ leaf s' half /\ b = true.
Proof.
  destruct (force_to_leaf_correct example half (proj1 example_wf) half_wf)
    as (s' & b & E & _ & Hl & _).
  exists s', b. split; [exact E|]. split; [exact Hl|]. revert E. vm_compute. congruence.
Defined.

Lemma fragtree_roundtrip_witness :
  decode_tree (encode_tree example ++ [7]) = Some (example, [7]).
Proof. apply (fragtree_roundtrip example [7] (proj1 example_wf)). vm_compute. reflexivity. Defined.

End FragTreeFacts.
