(* ===== verification/FragSet.v ===== *)
(** * fragset_t, src/include/frag.h

    A set of fragments that merges two halves of a fragment into it.  The
    [std::set] is the ascending list of its encodings, and an iterator the
    element it points to.  The file also holds the relations of a fragment to
    its halves, its sibling and its neighbours. *)

From S2P Require Import Prelude Frag FragTree.
Import Frag FragFacts.

Module FragSet.

(** ** std::set<frag_t> *)

Fixpoint set_insert (s : list Z) (x : Z) : list Z :=
  match s with
  | [] => [x]
  | y :: s' => if y <? x then y :: set_insert s' x else if y =? x then s else x :: s
  end.
Definition set_erase (s : list Z) (x : Z) : list Z := List.filter (fun y => negb (y =? x)) s.
Definition set_count (s : list Z) (x : Z) : bool := existsb (fun y => y =? x) s.

(** [++p] *)
Definition set_next (s : list Z) (p : Z) : option Z := List.find (fun y => p <? y) s.

(** ** fragset_t *)

(** A fragment has at most 255 ancestors. *)
Fixpoint contains_loop (fuel : nat) (s : list Z) (f : Z) : option bool :=
  match fuel with
  | O => None
  | S fuel =>
      if set_count s f then Some true
      else if ceph_frag_bits f =? 0 then Some false
      else f ← parent f; contains_loop fuel s f
  end.
Definition contains (s : list Z) (f : Z) : option bool := contains_loop 256 s f.

(** One pass of [simplify] from the iterator [p]; each step moves it to a
    larger element. *)
Fixpoint simplify_pass (fuel : nat) (s : list Z) (p : option Z) (clean : bool)
  : option (list Z * bool) :=
  match p with
  | None => Some (s, clean)
  | Some x =>
      match fuel with
      | O => None
      | S fuel =>
          if negb (is_root x) && set_count s (ceph_frag_sibling x) then
            sib ← get_sibling x;
            up ← parent x;
            let s := set_erase s sib in
            let s := set_insert s up in
            let next := set_next s x in
            let s := set_erase s x in
            simplify_pass fuel s next false
          else simplify_pass fuel s (set_next s x) clean
      end
  end.

(** Every pass but the last merges two elements into one. *)
Fixpoint simplify_loop (fuel : nat) (s : list Z) : option (list Z) :=
  match fuel with
  | O => None
  | S fuel =>
      '(s, clean) ← simplify_pass (length s) s (head s) true;
      if (clean : bool) then Some s else simplify_loop fuel s
  end.
Definition simplify (s : list Z) : option (list Z) := simplify_loop (S (length s)) s.

Definition insert (s : list Z) (f : Z) : option (list Z) := simplify (set_insert s f).

(** ** The list as a set *)

Fixpoint ascending (lo : Z) (s : list Z) : Prop :=
  match s with [] => True | x :: s => lo <= x /\ ascending (x + 1) s end.

Lemma ascending_weaken lo lo' s : lo' <= lo -> ascending lo s -> ascending lo' s.
Proof. destruct s; simpl; [done|]. intuition lia. Qed.

Lemma ascending_ge lo s : ascending lo s -> Forall (fun x => lo <= x) s.
Proof.
  revert lo. induction s as [|x s IH]; intros lo; simpl; [constructor|].
  intros [? H]. constructor; [done|]. eapply Forall_impl; [by apply IH|]. simpl. lia.
Qed.

Lemma set_insert_elem s x y : y ∈ set_insert s x <-> y = x \/ y ∈ s.
Proof.
  induction s as [|z s IH]; simpl; [set_solver|].
  destruct (z <? x); [rewrite !elem_of_cons, IH; tauto|].
  destruct (Z.eqb_spec z x) as [->|]; [|set_solver]. set_solver.
Qed.

Lemma set_insert_ascending lo s x : ascending lo s -> lo <= x -> ascending lo (set_insert s x).
Proof.
  revert lo. induction s as [|z s IH]; intros lo; simpl; [done|]. intros [? H] ?.
  zcase; subst; simpl; split_and!; try lia; try done. apply IH; [done|lia].
Qed.

Lemma set_insert_length s x : (length (set_insert s x) <= S (length s))%nat.
Proof. induction s as [|z s IH]; simpl; [lia|]. repeat case_match; simpl; lia. Qed.

Lemma set_erase_elem s x y : y ∈ set_erase s x <-> y ∈ s /\ y <> x.
Proof.
  unfold set_erase. induction s as [|z s IH]; simpl; [set_solver|].
  destruct (Z.eqb_spec z x) as [->|]; simpl; rewrite ?elem_of_cons, IH; naive_solver.
Qed.

Lemma set_erase_ascending lo s x : ascending lo s -> ascending lo (set_erase s x).
Proof.
  unfold set_erase. revert lo. induction s as [|z s IH]; intros lo; simpl; [done|]. intros [? H].
  destruct (z =? x); simpl; [|by auto]. eapply ascending_weaken; [|by apply IH]. lia.
Qed.

Lemma set_erase_length lo s x :
  ascending lo s -> x ∈ s -> length s = S (length (set_erase s x)).
Proof.
  unfold set_erase. revert lo. induction s as [|z s IH]; intros lo; simpl; [by intros _ ?%elem_of_nil|].
  intros [? H] [E|Hin]%elem_of_cons.
  - subst z. rewrite Z.eqb_refl. simpl. f_equal. pose proof (ascending_ge _ _ H) as Hge.
    clear -Hge. induction Hge as [|y s ? ? IH]; simpl; [done|].
    rewrite (proj2 (Z.eqb_neq _ _)) by lia. simpl. by f_equal.
  - pose proof (ascending_ge _ _ H) as Hge. rewrite Forall_forall in Hge. specialize (Hge _ Hin).
    rewrite (proj2 (Z.eqb_neq _ _)) by lia. simpl. f_equal. by eapply IH.
Qed.

Lemma set_count_elem s x : set_count s x = true <-> x ∈ s.
Proof.
  unfold set_count. rewrite existsb_exists. setoid_rewrite Z.eqb_eq.
  setoid_rewrite <- list_elem_of_In. naive_solver.
Qed.

(** The elements the iterator has still to visit. *)
Definition after (s : list Z) (p : Z) : list Z := List.filter (fun y => p <? y) s.

Lemma set_next_spec lo s p :
  ascending lo s ->
  match set_next s p with
  | Some x => x ∈ s /\ after s p = x :: after s x
  | None => after s p = []
  end.
Proof.
  unfold set_next, after. revert lo. induction s as [|z s IH]; intros lo; simpl; [done|].
  intros [? H]. destruct (Z.ltb_spec p z) as [Hp|Hp].
  - split; [by left|]. f_equal. rewrite Z.ltb_irrefl. pose proof (ascending_ge _ _ H) as Hge.
    clear -Hge Hp. induction Hge as [|y s ? ? IH]; simpl; [done|].
    rewrite (proj2 (Z.ltb_lt p y)), (proj2 (Z.ltb_lt z y)) by lia. by f_equal.
  - specialize (IH _ H). destruct (List.find _ s) as [x|] eqn:E; [|done].
    destruct IH as [Hin IH]. split; [by right|].
    pose proof (ascending_ge _ _ H) as Hge. rewrite Forall_forall in Hge. specialize (Hge _ Hin).
    by rewrite (proj2 (Z.ltb_ge x z)) by lia.
Qed.

(** ** Halves and siblings *)

Lemma parent_child f :
  wf_frag f -> 0 < bits f ->
  wf_frag (anc f (bits f - 1)) /\ bits (anc f (bits f - 1)) = bits f - 1 /\
  child_of (anc f (bits f - 1)) 1 f.
Proof.
  intros Hf Hb. destruct (anc_spec f (bits f - 1) Hf) as (Ea & Wa & Ia); [lia|].
  split_and!; [done..|]. destruct (wf_bits _ Hf).
  apply child_of_inside; [done|lia|lia|]. split_and!; [done..|lia].
Qed.

Lemma lxor_one k i : 0 <= k -> 0 <= i < 2 -> Z.lxor (2 * k + i) 1 = 2 * k + (1 - i).
Proof.
  intros Hk Hi. assert (i = 0 \/ i = 1) as [->| ->] by lia; destruct k; done.
Qed.

(** The sibling is the other half of the parent. *)
Lemma sibling_spec f :
  wf_frag f -> 0 < bits f ->
  exists i, 0 <= i < 2 /\ f = child (anc f (bits f - 1)) 1 i /\
    ceph_frag_sibling f = child (anc f (bits f - 1)) 1 (1 - i).
Proof.
  intros Hf Hb. destruct (parent_child f Hf Hb) as (Wp & Ep & (i & Hi & Ei)).
  set (p := anc f (bits f - 1)) in *. clearbody p. change (2 ^ 1) with 2 in Hi.
  exists i. split; [done|]. split; [done|].
  destruct (wf_bits _ Hf). pose proof (value_range p) as Hvp.
  destruct (child_spec p 1 i Wp) as (_ & Vi & _); [lia..|]. rewrite <- Ei in Vi.
  destruct (child_spec p 1 (1 - i) Wp) as (Bj & Vj & Wj); [lia..|].
  replace (24 - (bits p + 1)) with (24 - bits f) in * by lia.
  destruct (wf_div _ Wp) as [k Hk]. unfold len in Hk.
  replace (24 - bits p) with (1 + (24 - bits f)) in Hk by lia. rewrite Z.pow_add_r in Hk by lia.
  set (L := 2 ^ (24 - bits f)) in *. assert (0 < L) by (apply Z.pow_pos_nonneg; lia).
  assert (0 <= k) by nia.
  assert (Ex : Z.lxor (value f) (Z.shiftr 0x1000000 (bits f)) = value (child p 1 (1 - i))).
  { rewrite Z.shiftr_div_pow2 by lia. change 0x1000000 with (2 ^ 24).
    rewrite <- Z.pow_sub_r by lia. fold L. rewrite Vi, Vj, Hk.
    replace (k * (2 ^ 1 * L) + i * L) with ((2 * k + i) * L) by lia.
    replace (k * (2 ^ 1 * L) + (1 - i) * L) with ((2 * k + (1 - i)) * L) by lia.
    rewrite <- (Z.mul_1_l L) at 2. unfold L. rewrite <- !Z.shiftl_mul_pow2, <- Z.shiftl_lxor by lia.
    by rewrite lxor_one by lia. }
  unfold ceph_frag_sibling. rewrite Ex. replace (bits f) with (bits (child p 1 (1 - i))) by lia.
  by apply anc_self.
Qed.

Record sibling_facts (f : Z) : Prop := {
  sib_wf : wf_frag (ceph_frag_sibling f);
  sib_bits : bits (ceph_frag_sibling f) = bits f;
  sib_ne : ceph_frag_sibling f <> f;
  sib_parent : anc (ceph_frag_sibling f) (bits f - 1) = anc f (bits f - 1);
  sib_cover : forall v, within (anc f (bits f - 1)) v <-> within f v \/ within (ceph_frag_sibling f) v
}.

Lemma sibling_props f : wf_frag f -> 0 < bits f -> sibling_facts f.
Proof.
  intros Hf Hb. destruct (parent_child f Hf Hb) as (Wp & Ep & _). destruct (wf_bits _ Hf).
  destruct (sibling_spec f Hf Hb) as (i & Hi & Ef & Es). set (p := anc f (bits f - 1)) in *.
  destruct (child_spec p 1 (1 - i) Wp) as (Bj & Vj & Wj); [lia..|].
  destruct (child_spec p 1 i Wp) as (Bi & Vi & Wi); [lia..|]. rewrite <- Ef in *. rewrite <- Es in *.
  assert (Is : inside p (ceph_frag_sibling f)) by (rewrite Es; apply child_inside; done || lia).
  assert (If : inside p f) by (rewrite Ef; apply child_inside; done || lia).
  split; [done|lia| | |].
  - intros E. rewrite E, Vi in Vj.
    pose proof (Z.pow_pos_nonneg 2 (24 - (bits p + 1)) ltac:(lia) ltac:(lia)).
    assert (i = 0 \/ i = 1) as [->| ->] by lia; lia.
  - fold p. rewrite <- Ep. symmetry. by apply inside_anc.
  - intros v. fold p. split.
    + intros Hv. destruct (child_of_value p 1 v Wp) as (j & Hj & Wjv); [lia..|done|].
      change (2 ^ 1) with 2 in Hj. destruct (Z.eq_dec j i) as [->|]; [left; by rewrite Ef|right].
      rewrite Es. by replace (1 - i) with j by lia.
    + intros [Hv|Hv]; [by apply (inside_within p f)|by apply (inside_within p (ceph_frag_sibling f))].
Qed.

(** ** Simplification *)

Record fs_ok (s : list Z) : Prop := { fs_asc : ascending 0 s; fs_wf : Forall wf_frag s }.

(** [v] is in some fragment of the set. *)
Definition covered (s : list Z) (v : Z) : Prop := exists g, g ∈ s /\ within g v.

(** No two elements are the halves of a fragment. *)
Definition no_siblings (s : list Z) : Prop :=
  forall g, g ∈ s -> 0 < bits g -> ceph_frag_sibling g ∉ s.

Lemma after_insert s up x : up <= x -> after (set_insert s up) x = after s x.
Proof.
  intros Hu. unfold after. induction s as [|z s IH]; simpl.
  { by rewrite (proj2 (Z.ltb_ge x up)) by lia. }
  destruct (Z.ltb_spec z up); simpl; [by rewrite IH|].
  destruct (z =? up); simpl; [done|]. by rewrite (proj2 (Z.ltb_ge x up)) by lia.
Qed.

Lemma after_erase s z x : (length (after (set_erase s z) x) <= length (after s x))%nat.
Proof.
  unfold after, set_erase. induction s as [|y s IH]; simpl; [lia|].
  destruct (y =? z); simpl; destruct (x <? y) eqn:E; simpl; lia.
Qed.

Lemma merge_up_lt x : wf_frag x -> 0 < bits x -> anc x (bits x - 1) < x.
Proof.
  intros Wx Hb. destruct (parent_child x Wx Hb) as (_ & Ep & _).
  pose proof (value_range x). pose proof (value_range (anc x (bits x - 1))).
  pose proof (frag_eq x) as Ex. pose proof (frag_eq (anc x (bits x - 1))) as Ea.
  rewrite Ep in Ea. lia.
Qed.

(** Replacing two halves by their parent. *)
Lemma merge_pair s x :
  fs_ok s -> x ∈ s -> 0 < bits x -> ceph_frag_sibling x ∈ s ->
  let s2 := set_insert (set_erase s (ceph_frag_sibling x)) (anc x (bits x - 1)) in
  let s3 := set_erase s2 x in
  fs_ok s3 /\ (forall v, covered s3 v <-> covered s v) /\ (length s3 < length s)%nat /\
  x ∈ s2 /\ ascending 0 s2.
Proof.
  intros [Ha Hw] Hx Hb Hs s2 s3. rewrite Forall_forall in Hw. pose proof (Hw _ Hx) as Wx.
  destruct (sibling_props x Wx Hb) as [Ws Bs Ns _ Hc].
  destruct (parent_child x Wx Hb) as (Wp & Ep & _). set (up := anc x (bits x - 1)) in *.
  pose proof (FragTreeFacts.wf_nonneg up Wp). pose proof (merge_up_lt x Wx Hb) as Hlt. fold up in Hlt.
  assert (H2 : forall y, y ∈ s2 <-> y = up \/ y ∈ s /\ y <> ceph_frag_sibling x)
    by (intros y; unfold s2; by rewrite set_insert_elem, set_erase_elem).
  assert (H3 : forall y, y ∈ s3 <-> (y = up \/ y ∈ s /\ y <> ceph_frag_sibling x) /\ y <> x)
    by (intros y; unfold s3; by rewrite set_erase_elem, H2).
  assert (A2 : ascending 0 s2) by (apply set_insert_ascending; [by apply set_erase_ascending|done]).
  assert (X2 : x ∈ s2) by (apply H2; right; done).
  split_and!; [split| | |done|done].
  - by apply set_erase_ascending.
  - apply Forall_forall. intros y [[->|[? _]] _]%H3; [done|by apply Hw].
  - intros v. unfold covered. split.
    + intros (g & [[->|[Hg _]] _]%H3 & Hv); [|by exists g].
      apply Hc in Hv as [Hv|Hv]; [by exists x|by exists (ceph_frag_sibling x)].
    + intros (g & Hg & Hv).
      destruct (decide (g = x \/ g = ceph_frag_sibling x)) as [D|D].
      * exists up. split; [apply H3; split; [by left|lia]|]. apply Hc. destruct D as [->| ->]; auto.
      * exists g. split; [|done]. apply H3. tauto.
  - pose proof (set_erase_length 0 s _ Ha Hs). pose proof (set_erase_length 0 s2 x A2 X2).
    pose proof (set_insert_length (set_erase s (ceph_frag_sibling x)) up) as Hl. fold s2 in Hl.
    fold s3 in H1. lia.
Qed.

(** The elements from the iterator on. *)
Definition from (s : list Z) (p : option Z) : list Z :=
  match p with None => [] | Some x => x :: after s x end.

Lemma from_next lo s x : ascending lo s -> from s (set_next s x) = after s x.
Proof.
  intros Ha. pose proof (set_next_spec lo s x Ha) as H. destruct (set_next s x); simpl; [|done].
  by destruct H as [_ ->].
Qed.

(** What a pass does to the set it starts from. *)
Record passed (s : list Z) (p : option Z) (clean : bool) (s' : list Z) (c : bool) : Prop := {
  pa_ok : fs_ok s';
  pa_cover : forall v, covered s' v <-> covered s v;
  pa_length : (length s' <= length s)%nat;
  pa_clean : if c then clean = true /\ s' = s /\
       forall g, g ∈ from s p -> 0 < bits g -> ceph_frag_sibling g ∉ s
     else clean = false \/ (length s' < length s)%nat
}.

Lemma passed_end s clean : fs_ok s -> passed s None clean s clean.
Proof.
  intros Hok. split; try done. destruct clean; [|by left]. split_and!; try done.
  intros g Hg. by apply elem_of_nil in Hg.
Qed.

Lemma passed_skip s x clean s' c :
  fs_ok s -> (0 < bits x -> ceph_frag_sibling x ∉ s) ->
  passed s (set_next s x) clean s' c -> passed s (Some x) clean s' c.
Proof.
  intros Hok Hx [? ? ? Hc]. split; try done. destruct c; [|done].
  destruct Hc as (? & ? & Hc). split_and!; try done. intros g Hg Hb.
  rewrite (from_next 0) in Hc by apply Hok.
  apply elem_of_cons in Hg as [->|Hg]; [by apply Hx|by apply Hc].
Qed.

Lemma passed_merge s s3 p x clean s' c :
  (forall v, covered s3 v <-> covered s v) -> (length s3 < length s)%nat ->
  passed s3 p false s' c -> passed s (Some x) clean s' c.
Proof.
  intros Hcov Hl [? Hc ? Hcl]. split; [done| |lia|].
  - intros v. by rewrite Hc, Hcov.
  - destruct c; [by destruct Hcl|]. right. lia.
Qed.

Lemma simplify_pass_spec fuel s p clean :
  fs_ok s -> (forall x, p = Some x -> x ∈ s) -> (length (from s p) <= fuel)%nat ->
  exists s' c, simplify_pass fuel s p clean = Some (s', c) /\ passed s p clean s' c.
Proof.
  revert s p clean. induction fuel as [|fuel IH]; intros s p clean Hok Hp Hf.
  { destruct p as [x|]; simpl in *; [lia|]. exists s, clean. auto using passed_end. }
  destruct p as [x|]; cbn [simplify_pass]; [|exists s, clean; auto using passed_end].
  pose proof (Hp x eq_refl) as Hx. destruct (Hok) as [Ha Hw]. rewrite Forall_forall in Hw.
  pose proof (Hw _ Hx) as Wx. destruct (wf_bits _ Wx). simpl in Hf.
  unfold is_root, get_sibling, is_root. destruct (Z.eqb_spec (bits x) 0) as [E0|E0]; cbn [negb andb].
  2: destruct (set_count s (ceph_frag_sibling x)) eqn:Ec.
  2: { apply set_count_elem in Ec. obind.
       pose proof (parent_anc x (bits x) Wx ltac:(lia)) as Ep.
       rewrite anc_self in Ep by done. rewrite Ep. obind.
       destruct (merge_pair s x Hok Hx ltac:(lia) Ec) as (Hok3 & Hcov & Hl & X2 & A2).
       set (s2 := set_insert _ _) in *. pose proof (set_next_spec 0 s2 x A2) as Hn.
       destruct (IH (set_erase s2 x) (set_next s2 x) false Hok3) as (s' & c & -> & Hps).
       - intros y Hy. rewrite Hy in Hn. destruct Hn as [Hin Haf]. apply set_erase_elem.
         split; [done|]. intros ->. assert (x ∈ after s2 x) by (rewrite Haf; by left).
         unfold after in *. apply list_elem_of_In, filter_In in H1 as [_ H1]. lia.
       - assert (length (from (set_erase s2 x) (set_next s2 x)) <= length (from s2 (set_next s2 x)))%nat.
         { destruct (set_next s2 x); simpl; [|lia]. pose proof (after_erase s2 x z). lia. }
         rewrite (from_next 0 s2) in H1 by done. unfold s2 in H1.
         rewrite after_insert in H1 by (pose proof (merge_up_lt x Wx ltac:(lia)); lia).
         pose proof (after_erase s (ceph_frag_sibling x) x). unfold s2 at 1 2. lia.
       - exists s', c. split; [done|]. by apply (passed_merge s (set_erase s2 x) (set_next s2 x)). }
  all: destruct (IH s (set_next s x) clean Hok) as (s' & c & -> & Hps);
    [intros y Hy; pose proof (set_next_spec 0 s x Ha) as Hn; rewrite Hy in Hn; apply Hn|
     rewrite (from_next 0) by done; lia|].
  all: exists s', c; split; [done|]; apply passed_skip; try done; try lia.
  intros _ Hin. apply set_count_elem in Hin. congruence.
Qed.

Lemma from_head lo s : ascending lo s -> from s (head s) = s.
Proof.
  destruct s as [|x s]; simpl; [done|]. intros [_ H]. f_equal. unfold after. simpl.
  rewrite Z.ltb_irrefl. pose proof (ascending_ge _ _ H) as Hge. clear -Hge.
  induction Hge as [|y s ? ? IH]; simpl; [done|]. rewrite (proj2 (Z.ltb_lt x y)) by lia. by f_equal.
Qed.

Lemma simplify_loop_spec fuel s :
  fs_ok s -> (length s < fuel)%nat ->
  exists s', simplify_loop fuel s = Some s' /\ fs_ok s' /\ (forall v, covered s' v <-> covered s v) /\
    no_siblings s'.
Proof.
  revert s. induction fuel as [|fuel IH]; intros s Hok Hl; [lia|]. cbn [simplify_loop].
  pose proof (from_head 0 s (fs_asc _ Hok)) as Hh.
  destruct (simplify_pass_spec (length s) s (head s) true Hok) as (s' & c & -> & [Hok' Hc Hl' Hcl]).
  { intros x Hx. destruct s; simplify_eq/=. by left. }
  { by rewrite Hh. }
  obind. destruct c.
  - destruct Hcl as (_ & -> & Hs). exists s. split_and!; try done. intros g Hg. apply Hs. by rewrite Hh.
  - destruct Hcl as [|Hlt]; [done|]. destruct (IH s' Hok') as (s'' & -> & ? & Hc' & ?); [lia|].
    exists s''. split_and!; try done. intros v. by rewrite Hc', Hc.
Qed.

Lemma fragset_insert_spec s f :
  fs_ok s -> wf_frag f ->
  exists s', insert s f = Some s' /\ fs_ok s' /\ no_siblings s' /\
    (forall v, covered s' v <-> within f v \/ covered s v).
Proof.
  intros [Ha Hw] Hf.
  assert (Hok : fs_ok (set_insert s f)).
  { split; [apply set_insert_ascending; auto using FragTreeFacts.wf_nonneg|].
    rewrite Forall_forall in *. intros x [->|?]%set_insert_elem; auto. }
  destruct (simplify_loop_spec (S (length (set_insert s f))) _ Hok) as (s' & E & ? & Hc & ?); [lia|].
  exists s'. split_and!; try done. intros v. rewrite Hc. unfold covered.
  setoid_rewrite set_insert_elem. naive_solver.
Qed.

(** ** Membership *)

Lemma contains_loop_spec s f fuel k :
  wf_frag f -> 0 <= k <= bits f -> k < Z.of_nat fuel ->
  exists b, contains_loop fuel s (anc f k) = Some b /\
    (b = true <-> exists j, 0 <= j <= k /\ anc f j ∈ s).
Proof.
  intros Wf. revert k. induction fuel as [|fuel IH]; intros k Hk Hl; [lia|]. cbn [contains_loop].
  destruct (set_count s (anc f k)) eqn:Ec.
  { apply set_count_elem in Ec. exists true. split; [done|]. split; [|done]. intros _.
    exists k. split; [lia|done]. }
  assert (Hn : anc f k ∉ s) by (rewrite <- set_count_elem; congruence).
  destruct (anc_spec f k Wf Hk) as (Eb & _). rewrite Eb. destruct (Z.eqb_spec k 0) as [->|Hk0].
  { exists false. split; [done|]. split; [done|]. intros (j & ? & Hj).
    by replace j with 0 in Hj by lia. }
  rewrite parent_anc by (done || lia). obind.
  destruct (IH (k - 1)) as (b & -> & Hb); [lia..|]. exists b. split; [done|]. rewrite Hb. split.
  - intros (j & ? & ?). exists j. split; [lia|done].
  - intros (j & ? & Hj). exists j. split; [|done]. destruct (Z.eq_dec j k) as [->|]; [done|lia].
Qed.

(** A covered fragment of a set without siblings has an ancestor in it. *)
Lemma covered_ancestor s f :
  fs_ok s -> no_siblings s -> wf_frag f -> (forall v, within f v -> covered s v) ->
  exists j, 0 <= j <= bits f /\ anc f j ∈ s.
Proof.
  intros [_ Hw] Hns. rewrite Forall_forall in Hw.
  remember (Z.to_nat (24 - bits f)) as n eqn:En. revert f En.
  induction (lt_wf n) as [n _ IH]. intros f -> Wf Hc. destruct (wf_bits _ Wf).
  destruct (Z.eq_dec (bits f) 24) as [E24|].
  { destruct (Hc (value f) (within_self f Wf)) as (g & Hg & Hv). pose proof (Hw _ Hg) as Wg.
    destruct (wf_bits _ Wg). exists (bits g). split; [lia|].
    rewrite <- (inside_anc g f); [done..|]. split; [lia|done]. }
  (* each half has an ancestor in the set: one of [f], or itself *)
  assert (Hhalf : forall i, 0 <= i < 2 ->
    (exists j, 0 <= j <= bits f /\ anc f j ∈ s) \/ child f 1 i ∈ s).
  { intros i Hi. destruct (child_spec f 1 i Wf) as (Eb & _ & Wc); [lia..|].
    pose proof (child_inside f 1 i Wf ltac:(lia) ltac:(lia) Hi) as Ic.
    destruct (IH (Z.to_nat (24 - bits (child f 1 i)))  ltac:(lia) (child f 1 i)) as (j & Hj & Hin);
      [done..| |].
    { intros v Hv. apply Hc. by apply (inside_within f (child f 1 i)). }
    destruct (Z.eq_dec j (bits (child f 1 i))) as [->|].
    - right. by rewrite anc_self in Hin.
    - left. exists j. split; [lia|]. destruct (anc_spec f j Wf) as (Ea & Wa & Ia); [lia|].
      rewrite (inside_anc (anc f j) (child f 1 i)); [by rewrite Ea|done..|].
      by apply (inside_trans (anc f j) f). }
  destruct (Hhalf 0) as [|In0]; [lia|done|]. destruct (Hhalf 1) as [|In1]; [lia|done|]. exfalso.
  destruct (child_spec f 1 0 Wf) as (Eb & _ & Wc); [lia..|].
  apply (Hns (child f 1 0) In0); [lia|].
  destruct (sibling_spec (child f 1 0) Wc) as (i & Hi & E1 & E2); [lia|].
  assert (Ea : anc (child f 1 0) (bits (child f 1 0) - 1) = f).
  { rewrite Eb. replace (bits f + 1 - 1) with (bits f) by lia. symmetry. apply inside_anc; [done..|].
    apply child_inside; done || lia. }
  rewrite Ea in E1, E2. rewrite E2. destruct (Z.eq_dec i 0) as [->|]; [done|].
  assert (i = 1) as -> by lia. exfalso. destruct (child_spec f 1 1 Wf) as (_ & V1 & _); [lia..|].
  destruct (child_spec f 1 0 Wf) as (_ & V0 & _); [lia..|]. rewrite E1, V1 in V0.
  pose proof (Z.pow_pos_nonneg 2 (24 - (bits f + 1)) ltac:(lia) ltac:(lia)). lia.
Qed.

(** C32: inserting a fragment in a set of fragments terminates, and the set then
    covers exactly the hash values it covered and those of the new fragment; it holds no two halves of a
    fragment, and [contains] on it answers whether a fragment is covered
    entirely, by whatever pieces it was inserted. *)
Theorem fragset_insert_correct s f :
  fs_ok s -> wf_frag f ->
  exists s', insert s f = Some s' /\ fs_ok s' /\ no_siblings s' /\
    (forall v, covered s' v <-> within f v \/ covered s v) /\
    (forall g, wf_frag g ->
       exists b, contains s' g = Some b /\
         (b = true <-> forall v, within g v -> within f v \/ covered s v)).
Proof.
  intros Hok Wf. destruct (fragset_insert_spec s f Hok Wf) as (s' & E & Hok' & Hns & Hc).
  exists s'. do 4 (split; [done|]). intros g Wg. destruct (wf_bits _ Wg).
  destruct (contains_loop_spec s' g 256 (bits g) Wg) as (b & Eb & Hb); [lia|lia|].
  rewrite anc_self in Eb by done. exists b. split; [exact Eb|]. rewrite Hb. split.
  - intros (j & Hj & Hin) v Hv. apply Hc. exists (anc g j). split; [done|].
    destruct (anc_spec g j Wg Hj) as (_ & Wa & Ia). by apply (inside_within (anc g j) g).
  - intros Hall. apply covered_ancestor; try done. intros v Hv. by apply Hc, Hall.
Qed.

(** ** Halves and neighbours *)

Lemma left_child_spec f : wf_frag f -> bits f < 24 -> ceph_frag_left_child f = child f 1 0.
Proof.
  intros [Hb _] Hl. unfold ceph_frag_left_child, ceph_frag_make_child, shl.
  rewrite u32_small by lia. rewrite Z.shiftl_0_l. change (u32 0) with 0.
  by destruct (_ <? _); rewrite Z.lor_0_r.
Qed.

Lemma right_child_spec f : wf_frag f -> bits f < 24 -> ceph_frag_right_child f = child f 1 1.
Proof.
  intros [Hb _] Hl. unfold ceph_frag_right_child, ceph_frag_make_child, shl.
  rewrite !u32_small with (x := bits f + 1) by lia. rewrite u32_small with (x := 1 + bits f) by lia.
  rewrite (proj2 (Z.ltb_lt _ _)) by lia. rewrite Z.shiftl_mul_pow2, Z.shiftr_div_pow2 by lia.
  change 0x1000000 with (2 ^ 24). rewrite <- Z.pow_sub_r, Z.mul_1_l by lia.
  rewrite u32_small; [by replace (24 - (1 + bits f)) with (24 - (bits f + 1)) by lia|].
  split; [apply Z.pow_nonneg; lia|]. apply (Z.le_lt_trans _ (2 ^ 24)); [|lia].
  apply Z.pow_le_mono_r; lia.
Qed.

Lemma is_left_spec f i :
  wf_frag f -> bits f < 24 -> 0 <= i < 2 ->
  ceph_frag_is_left_child (child f 1 i) = (i =? 0).
Proof.
  intros Wf Hl Hi. destruct (wf_bits _ Wf).
  destruct (child_spec f 1 i Wf) as (Eb & Ev & Wc); [lia..|].
  unfold ceph_frag_is_left_child. rewrite Eb, (proj2 (Z.ltb_lt _ _)) by lia. cbn [andb].
  destruct (wf_div _ Wf) as [k Hk]. unfold len in Hk.
  replace (24 - bits f) with (1 + (24 - (bits f + 1))) in Hk by lia. rewrite Z.pow_add_r in Hk by lia.
  rewrite Ev, Hk, Z.shiftr_div_pow2 by lia. change 0x1000000 with (2 ^ 24).
  rewrite <- Z.pow_sub_r by lia. set (n := 24 - (bits f + 1)).
  replace (k * (2 ^ 1 * 2 ^ n) + i * 2 ^ n) with ((2 * k + i) * 2 ^ n) by lia.
  rewrite <- (Z.mul_1_l (2 ^ n)) at 2. rewrite <- !Z.shiftl_mul_pow2 by lia.
  rewrite <- Z.shiftl_land, Z.shiftl_mul_pow2 by lia. change 1 with (Z.ones 1).
  rewrite Z.land_ones by lia. replace ((2 * k + i) mod 2 ^ 1) with i.
  - pose proof (Z.pow_pos_nonneg 2 n ltac:(lia) ltac:(lia)). destruct (Z.eqb_spec i 0) as [->|]; [done|].
    apply Z.eqb_neq. nia.
  - rewrite Z.add_comm, Z.mul_comm, Z.mod_add by lia. symmetry. apply Z.mod_small. lia.
Qed.

(** A fragment's left and right children are its two halves: they are each
    other's siblings, have it as parent, and hold exactly its hash values. *)
Theorem frag_halves_correct f v :
  wf_frag f -> bits f < 24 -> 0 <= v < 2 ^ 32 ->
  let l := ceph_frag_left_child f in
  let r := ceph_frag_right_child f in
  wf_frag l /\ wf_frag r /\ l <> r /\ parent l = Some f /\ parent r = Some f /\
  ceph_frag_sibling l = r /\ ceph_frag_sibling r = l /\
  ceph_frag_is_left_child l = true /\ ceph_frag_is_left_child r = false /\
  ceph_frag_contains_value f v = ceph_frag_contains_value l v || ceph_frag_contains_value r v.
Proof.
  intros Wf Hl Hv l r. unfold l, r. rewrite left_child_spec, right_child_spec by done.
  destruct (wf_bits _ Wf).
  destruct (child_spec f 1 0 Wf) as (B0 & V0 & W0); [lia..|].
  destruct (child_spec f 1 1 Wf) as (B1 & V1 & W1); [lia..|].
  pose proof (Z.pow_pos_nonneg 2 (24 - (bits f + 1)) ltac:(lia) ltac:(lia)) as HL.
  assert (Hne : child f 1 0 <> child f 1 1) by (intros E; rewrite E, V1 in V0; lia).
  assert (Hanc : forall i, 0 <= i < 2 -> anc (child f 1 i) (bits (child f 1 i) - 1) = f).
  { intros i Hi. destruct (child_spec f 1 i Wf) as (Bi & _ & Wi); [lia..|]. rewrite Bi.
    replace (bits f + 1 - 1) with (bits f) by lia. symmetry. apply inside_anc; [done..|].
    apply child_inside; done || lia. }
  assert (Hpar : forall i, 0 <= i < 2 -> parent (child f 1 i) = Some f).
  { intros i Hi. destruct (child_spec f 1 i Wf) as (Bi & _ & Wi); [lia..|].
    rewrite <- (anc_self (child f 1 i) Wi), parent_anc, Hanc by (done || lia). done. }
  destruct (sibling_spec (child f 1 0) W0) as (i & Hi & E1 & E2); [lia|]. rewrite Hanc in E1, E2 by lia.
  destruct (sibling_spec (child f 1 1) W1) as (j & Hj & E3 & E4); [lia|]. rewrite Hanc in E3, E4 by lia.
  assert (i = 0) as -> by (destruct (Z.eq_dec i 1) as [->|]; [done|lia]).
  assert (j = 1) as -> by (destruct (Z.eq_dec j 0) as [->|]; [by symmetry in E3|lia]).
  rewrite !is_left_spec by (done || lia).
  split_and!; auto; try (apply Hpar; lia).
  apply eq_true_iff_eq. rewrite orb_true_iff, !contains_value_within by (done || lia).
  pose proof (sib_cover _ (sibling_props (child f 1 0) W0 ltac:(lia)) (v mod 2 ^ 24)) as Hc.
  rewrite Hanc, E2 in Hc by lia. exact Hc.
Qed.

Lemma mask_value f : wf_frag f -> ceph_frag_mask f = 2 ^ 24 - len f.
Proof.
  intros Wf. destruct (wf_bits _ Wf). pose proof (len_pos f Wf).
  transitivity (Z.land 0xffffff (ceph_frag_mask f)).
  { unfold ceph_frag_mask. symmetry. by rewrite Z.land_comm, <- Z.land_assoc, Z.land_diag. }
  rewrite mask_round by (done || lia). rewrite Z.mod_small by lia. unfold len in *.
  apply round_unique; [lia| |lia].
  exists (2 ^ bits f - 1). rewrite Z.mul_sub_distr_r, <- Z.pow_add_r by lia.
  replace (bits f + (24 - bits f)) with 24 by lia. lia.
Qed.

Lemma frag_end f : wf_frag f -> value f + len f <= 2 ^ 24.
Proof.
  intros Wf. pose proof (len_pos f Wf).
  assert (Hr : within root (value f + len f - 1)); [|rewrite root_within in Hr; lia].
  apply (inside_within root f); auto using root_wf, root_inside. unfold within. lia.
Qed.

(** [next] of a fragment that is not the rightmost is the fragment of the
    same size that starts where it ends, and sorts after it; the rightmost ends
    the hash space. *)
Theorem frag_next_adjacent f :
  wf_frag f ->
  if ceph_frag_is_rightmost f then value f + len f = 2 ^ 24 /\ next f = None
  else exists g, next f = Some g /\ wf_frag g /\ bits g = bits f /\ value g = value f + len f /\
         ceph_frag_compare f g = -1.
Proof.
  intros Wf. destruct (wf_bits _ Wf). pose proof (frag_end f Wf). pose proof (len_pos f Wf).
  pose proof (value_range f). unfold next. destruct (ceph_frag_is_rightmost f) eqn:Er; simpl.
  { split; [|done]. unfold ceph_frag_is_rightmost in Er. rewrite mask_value, Z.eqb_eq in Er by done. lia. }
  unfold ceph_frag_is_rightmost in Er. rewrite mask_value, Z.eqb_neq in Er by done.
  unfold ceph_frag_next. rewrite Z.shiftr_div_pow2 by lia. change 0x1000000 with (2 ^ 24).
  rewrite <- Z.pow_sub_r by lia. fold (len f).
  assert (value f + len f < 2 ^ 24).
  { destruct (wf_div _ Wf) as [k Hk]. unfold len in *.
    assert (E24 : 2 ^ 24 = 2 ^ bits f * 2 ^ (24 - bits f))
      by (rewrite <- Z.pow_add_r by lia; f_equal; lia). lia. }
  rewrite u32_small by lia.
  destruct (make_wf (bits f) (value f + len f)) as (Eb & Ev & Wg); [lia..|].
  assert (Hd : (2 ^ (24 - bits f) | value f + len f)) by (apply Z.divide_add_r; [apply Wf|done]).
  rewrite Z.mod_small, round_id in Ev by (done || lia).
  exists (ceph_frag_make (bits f) (value f + len f)). split_and!; [done..|].
  unfold ceph_frag_compare. rewrite Ev. by rewrite (proj2 (Z.ltb_lt _ _)) by lia.
Qed.

(** [ceph_frag_is_right_child] compares the masked bit with 1, so a right half
    is not recognised unless it has 24 bits. *)
Example right_child_not_right : ceph_frag_is_right_child (ceph_frag_right_child root) = false.
Proof. reflexivity. Qed.

(** ** Witnesses *)

Lemma frag_halves_correct_witness :
  parent (ceph_frag_right_child root) = Some root /\
  ceph_frag_sibling (ceph_frag_left_child root) = FragTreeFacts.half.
Proof.
  destruct (frag_halves_correct root 5 root_wf) as (_ & _ & _ & _ & Hp & Hs & _); [reflexivity|lia|].
  split; [exact Hp|exact Hs].
Defined.

Lemma frag_next_adjacent_witness : next 0x1000000 = Some FragTreeFacts.half.
Proof.
  assert (W : wf_frag 0x1000000).
  { split; [vm_compute; split; discriminate|]. by exists 0. }
  destruct (frag_next_adjacent 0x1000000 W) as (g & E & _ & _).
  rewrite E. revert E. vm_compute. congruence.
Defined.

Definition halves : list Z := [0x1000000].   (* 0/1 *)

Lemma halves_ok : fs_ok halves.
Proof.
  split; [done|]. constructor; [|done]. split; [vm_compute; split; discriminate|]. by exists 0.
Qed.

Lemma fragset_insert_correct_witness :
  exists s', insert halves FragTreeFacts.half = Some s' /\ s' = [root] /\ contains s' root = Some true.
Proof.
  destruct (fragset_insert_correct halves FragTreeFacts.half halves_ok FragTreeFacts.half_wf)
    as (s' & E & _).
  assert (Es : s' = [root]) by (revert E; vm_compute; congruence).
  exists s'. split; [exact E|]. split; [exact Es|].
  subst s'. reflexivity.
Defined.

End FragSet.
