(* ===== verification/Flock.v ===== *)
(** * File locks, src/mds/flock.h and flock.cc

    [ceph_lock_state_t]: the byte-range locks of one inode, held and waiting,
    with a count per client, and the deadlock search across inodes.

    A multimap is the list of its nodes in key order; a node has an identity,
    which is what an iterator is, so that the lists of iterators the code keeps
    stay meaningful while nodes are added and removed.  An iterator to a node
    that is gone, and [ceph_abort], are [None].  The process-wide
    [global_waiting_locks] is passed around; the entries name the lock state by
    a number, and [states] finds it.

    The theorems are of locks whose ends are within a [limit], at most [2 ^ 63];
    setting a lock needs [2 ^ 31], as the code keeps the end of merged locks in
    an [int], and [merge_end_truncated] is what happens beyond. *)

From Stdlib Require Import Sorted.
From S2P Require Import Prelude.

Module Flock.

Definition CEPH_LOCK_FCNTL : Z := 1.
Definition CEPH_LOCK_SHARED : Z := 1.
Definition CEPH_LOCK_EXCL : Z := 2.
Definition CEPH_LOCK_UNLOCK : Z := 4.

Record filelock := MkLock {
  start : Z;
  length_ : Z;
  client : Z;
  owner : Z;
  pid : Z;
  type : Z
}.

#[export] Instance filelock_eq_dec : EqDecision filelock.
Proof. solve_decision. Defined.

Definition with_start (s : Z) (l : filelock) : filelock :=
  MkLock s (length_ l) (client l) (owner l) (pid l) (type l).
Definition with_length (n : Z) (l : filelock) : filelock :=
  MkLock (start l) n (client l) (owner l) (pid l) (type l).
Definition with_type (t : Z) (l : filelock) : filelock :=
  MkLock (start l) (length_ l) (client l) (owner l) (pid l) t.

(** The new protocol sets the top bit of [owner]. *)
Definition new_owner (l : filelock) : bool := Z.testbit (owner l) 63.

Definition ceph_filelock_owner_equal (l r : filelock) : bool :=
  if negb (client l =? client r) || negb (owner l =? owner r) then false
  else if new_owner l then true
  else pid l =? pid r.

Definition ceph_filelock_owner_compare (l r : filelock) : Z :=
  if negb (client l =? client r) then (if client r <? client l then 1 else -1)
  else if negb (owner l =? owner r) then (if owner r <? owner l then 1 else -1)
  else if new_owner l then 0
  else if negb (pid l =? pid r) then (if pid r <? pid l then 1 else -1)
  else 0.

Definition ceph_filelock_compare (l r : filelock) : Z :=
  let ret := ceph_filelock_owner_compare l r in
  if negb (ret =? 0) then ret
  else if negb (start l =? start r) then (if start r <? start l then 1 else -1)
  else if negb (length_ l =? length_ r) then (if length_ r <? length_ l then 1 else -1)
  else if negb (type l =? type r) then (if type r <? type l then 1 else -1)
  else 0.

Definition lock_lt (l r : filelock) : bool := ceph_filelock_compare l r <? 0.
Definition lock_eq (l r : filelock) : bool := ceph_filelock_compare l r =? 0.

(** ** multimap<uint64_t, ceph_filelock> *)

Record node := MkNode { nid : nat; first : Z; second : filelock }.

#[export] Instance node_eq_dec : EqDecision node.
Proof. solve_decision. Defined.

(** A new element goes after those with the same key. *)
Fixpoint mm_insert (mm : list node) (n : node) : list node :=
  match mm with
  | [] => [n]
  | x :: mm' => if first x <=? first n then x :: mm_insert mm' n else n :: mm
  end.
Definition mm_erase (mm : list node) (i : nat) : list node :=
  List.filter (fun x => negb (nid x =? i)%nat) mm.
Definition mm_at (mm : list node) (i : nat) : option node :=
  List.find (fun x => (nid x =? i)%nat) mm.
Definition mm_update (mm : list node) (i : nat) (f : filelock -> filelock) : list node :=
  map (fun x => if (nid x =? i)%nat then MkNode (nid x) (first x) (f (second x)) else x) mm.

(** The elements from [find(key)] on. *)
Fixpoint mm_find (mm : list node) (key : Z) : list node :=
  match mm with
  | [] => []
  | x :: mm' => if first x =? key then mm else mm_find mm' key
  end.

Record lock_state := MkState {
  ltype : Z;
  held_locks : list node;
  waiting_locks : list node;
  client_held_lock_counts : list (Z * Z);
  client_waiting_lock_counts : list (Z * Z);
  next_id : nat
}.

Abbreviation waiters := (list (filelock * nat)).

Definition set_held (h : list node) (s : lock_state) : lock_state :=
  MkState (ltype s) h (waiting_locks s) (client_held_lock_counts s)
    (client_waiting_lock_counts s) (next_id s).
Definition set_held_counts (c : list (Z * Z)) (s : lock_state) : lock_state :=
  MkState (ltype s) (held_locks s) (waiting_locks s) c (client_waiting_lock_counts s) (next_id s).
Definition set_waiting (w : list node) (c : list (Z * Z)) (s : lock_state) : lock_state :=
  MkState (ltype s) (held_locks s) w (client_held_lock_counts s) c (next_id s).

(** [m[c] += d] *)
Definition count_add (m : list (Z * Z)) (c d : Z) : list (Z * Z) :=
  map_set m c (default 0 (map_find m c) + d).
(** [if (!m[c]) m.erase(c)] *)
Definition count_trim (m : list (Z * Z)) (c : Z) : list (Z * Z) :=
  if default 0 (map_find m c) =? 0 then map_erase m c else m.

(** [held_locks.insert(pair(l.start, l))] *)
Definition held_insert (l : filelock) (s : lock_state) : lock_state :=
  MkState (ltype s) (mm_insert (held_locks s) (MkNode (next_id s) (start l) l)) (waiting_locks s)
    (client_held_lock_counts s) (client_waiting_lock_counts s) (S (next_id s)).
Definition held_erase (i : nat) (s : lock_state) : lock_state :=
  set_held (mm_erase (held_locks s) i) s.
Definition held_set_length (i : nat) (n : Z) (s : lock_state) : lock_state :=
  set_held (mm_update (held_locks s) i (with_length n)) s.
Definition held_count (c d : Z) (s : lock_state) : lock_state :=
  set_held_counts (count_add (client_held_lock_counts s) (s64 c) d) s.
Definition held_trim (c : Z) (s : lock_state) : lock_state :=
  set_held_counts (count_trim (client_held_lock_counts s) (s64 c)) s.

(** ** Waiting locks *)

(** From the first equal entry on, the first that belongs to [me]. *)
Fixpoint erase_equal (fl : filelock) (me : nat) (g : waiters) : waiters :=
  match g with
  | [] => []
  | (k, s) :: g' =>
      if negb (lock_eq k fl) then g
      else if (s =? me)%nat then g' else (k, s) :: erase_equal fl me g'
  end.
Fixpoint remove_global_waiting (fl : filelock) (me : nat) (g : waiters) : waiters :=
  match g with
  | [] => []
  | (k, s) :: g' =>
      if lock_eq k fl then erase_equal fl me g else (k, s) :: remove_global_waiting fl me g'
  end.
Fixpoint insert_global_waiting (fl : filelock) (me : nat) (g : waiters) : waiters :=
  match g with
  | [] => [(fl, me)]
  | (k, s) :: g' =>
      if lock_lt fl k then (fl, me) :: g else (k, s) :: insert_global_waiting fl me g'
  end.

(** The destructor. *)
Definition destroy (me : nat) (s : lock_state) (g : waiters) : waiters :=
  if ltype s =? CEPH_LOCK_FCNTL then
    foldl (fun g n => remove_global_waiting (second n) me g) g (waiting_locks s)
  else g.

(** The waiting lock that [is_waiting] and [remove_waiting] look for, from
    [waiting_locks.find(fl.start)] on. *)
Fixpoint find_waiting (fl : filelock) (l : list node) : option node :=
  match l with
  | [] => None
  | p :: l =>
      if start fl <? start (second p) then None
      else if (length_ (second p) =? length_ fl) && ceph_filelock_owner_equal (second p) fl
      then Some p
      else find_waiting fl l
  end.

Definition is_waiting (fl : filelock) (s : lock_state) : bool :=
  match find_waiting fl (mm_find (waiting_locks s) (start fl)) with Some _ => true | None => false end.

Definition remove_waiting (me : nat) (fl : filelock) (s : lock_state) (g : waiters)
  : lock_state * waiters :=
  match find_waiting fl (mm_find (waiting_locks s) (start fl)) with
  | None => (s, g)
  | Some p =>
      let g := if ltype s =? CEPH_LOCK_FCNTL then remove_global_waiting (second p) me g else g in
      let c := s64 (client fl) in
      let counts := count_trim (count_add (client_waiting_lock_counts s) c (-1)) c in
      (set_waiting (mm_erase (waiting_locks s) (nid p)) counts s, g)
  end.

Definition add_waiting (me : nat) (fl : filelock) (s : lock_state) (g : waiters)
  : lock_state * waiters :=
  let s := MkState (ltype s) (held_locks s)
             (mm_insert (waiting_locks s) (MkNode (next_id s) (start fl) fl))
             (client_held_lock_counts s)
             (count_add (client_waiting_lock_counts s) (s64 (client fl)) 1) (S (next_id s)) in
  let g := if ltype s =? CEPH_LOCK_FCNTL then insert_global_waiting fl me g else g in
  (s, g).

(** ** Overlaps *)

Definition MAX_OFFSET : Z := 2 ^ 64 - 1.

Definition share_space_range (n : node) (s e : Z) : bool :=
  ((s <=? first n) && (first n <=? e)) ||
  ((first n <? s) &&
   ((s <=? first n +u64 length_ (second n) -u64 1) || (length_ (second n) =? 0))).

Definition share_space (n : node) (lock : filelock) : bool :=
  let e := if negb (length_ lock =? 0) then start lock +u64 (length_ lock -u64 1) else MAX_OFFSET in
  share_space_range n (start lock) e.

(** The elements from [get_last_before(end, lock_map)] back to the first. *)
Definition back_from_last_before (e : Z) (mm : list node) : list node :=
  let p := find_first (fun n => e <? first n) mm in
  if (p =? 0)%nat then match mm with [] => [] | n :: _ => [n] end
  else rev (take p mm).

(** The [while (cont)] of [get_overlapping_locks]. *)
Fixpoint overlap_loop (lock check : filelock) (back : list node) (overlaps neighbors : list nat)
  : list nat * list nat :=
  match back with
  | [] => (overlaps, neighbors)
  | n :: back =>
      let '(overlaps, neighbors) :=
        if share_space n lock then (nid n :: overlaps, neighbors)
        else if ceph_filelock_owner_equal check (second n) && share_space n check
        then (overlaps, nid n :: neighbors)
        else (overlaps, neighbors) in
      if (first n <? start lock) && (type (second n) =? CEPH_LOCK_EXCL)
      then (overlaps, neighbors)
      else overlap_loop lock check back overlaps neighbors
  end.

Definition neighbor_check_lock (lock : filelock) : filelock :=
  if negb (start lock =? 0) then
    let l := with_start (start lock -u64 1) lock in
    if negb (length_ l =? 0) then with_length (length_ l +u64 2) l else l
  else if negb (length_ lock =? 0) then with_length (length_ lock +u64 1) lock
  else lock.

Definition get_overlapping_locks (lock : filelock) (s : lock_state) : list nat * list nat :=
  let endpoint := if negb (length_ lock =? 0) then start lock +u64 length_ lock else MAX_OFFSET in
  overlap_loop lock (neighbor_check_lock lock)
    (back_from_last_before endpoint (held_locks s)) [] [].

(** [split_by_owner]: the rest of [locks], and [owned_locks]. *)
Fixpoint split_by_owner (own : filelock) (mm : list node) (locks : list nat)
  : option (list nat * list nat) :=
  match locks with
  | [] => Some ([], [])
  | i :: locks =>
      n ← mm_at mm i;
      '(rest, owned) ← split_by_owner own mm locks;
      Some (if ceph_filelock_owner_equal (second n) own then (rest, i :: owned)
            else (i :: rest, owned))
  end.

Fixpoint contains_exclusive_lock (mm : list node) (locks : list nat) : option (option filelock) :=
  match locks with
  | [] => Some None
  | i :: locks =>
      n ← mm_at mm i;
      if type (second n) =? CEPH_LOCK_EXCL then Some (Some (second n))
      else contains_exclusive_lock mm locks
  end.

(** The locks the iterators of the list point to. *)
Definition locks_at (mm : list node) (ids : list nat) : option (list filelock) :=
  mapM (fun i => second <$> mm_at mm i) ids.

(** ** Deadlock detection *)

Definition MAX_DEADLK_DEPTH : nat := 5.

(** [lock_owners.insert(tmp)] on an ordered set *)
Fixpoint owners_insert (tmp : filelock) (s : list filelock) : list filelock :=
  match s with
  | [] => [tmp]
  | x :: s' =>
      if lock_lt x tmp then x :: owners_insert tmp s'
      else if lock_lt tmp x then tmp :: s
      else s
  end.

Definition owner_key (l : filelock) : filelock := with_type 0 (with_length 0 (with_start 0 l)).

(** The owners of the conflicting locks; [None] when a circle is detected. *)
Fixpoint conflict_owners (fl : filelock) (first_fl : option filelock) (overlapping : list filelock)
  (owners : list filelock) : option (list filelock) :=
  match overlapping with
  | [] => Some owners
  | p :: overlapping =>
      if (type fl =? CEPH_LOCK_SHARED) && (type p =? CEPH_LOCK_SHARED)
      then conflict_owners fl first_fl overlapping owners
      else if match first_fl with Some f => ceph_filelock_owner_equal f p | None => false end
      then None
      else conflict_owners fl first_fl overlapping (owners_insert (owner_key p) owners)
  end.

(** The entries visited from [global_waiting_locks.lower_bound(o)]. *)
Fixpoint run_of (o : filelock) (g : waiters) : waiters :=
  match g with
  | [] => []
  | (w, st) :: g => if ceph_filelock_owner_equal w o then (w, st) :: run_of o g else []
  end.
Fixpoint waiting_of (o : filelock) (g : waiters) : waiters :=
  match g with
  | [] => []
  | (w, st) :: g' => if lock_lt w o then waiting_of o g' else run_of o g
  end.

(** Stops at the first [true]. *)
Fixpoint any {A} (f : A -> option bool) (l : list A) : option bool :=
  match l with
  | [] => Some false
  | x :: l => b ← f x; if (b : bool) then Some true else any f l
  end.

(** The other owners' locks that a waiting lock overlaps in its inode. *)
Definition blockers (w : filelock) (st : lock_state) : option (list filelock) :=
  let '(overlaps, _) := get_overlapping_locks w st in
  '(rest, _) ← split_by_owner w (held_locks st) overlaps;
  locks_at (held_locks st) rest.

(** [more] is [MAX_DEADLK_DEPTH - depth]. *)
Fixpoint is_deadlock (more : nat) (states : nat -> option lock_state) (g : waiters) (ty : Z)
  (fl : filelock) (overlapping : list filelock) (first_fl : option filelock) : option bool :=
  if negb (ty =? CEPH_LOCK_FCNTL) then Some false
  else
    match conflict_owners fl first_fl overlapping [] with
    | None => Some true
    | Some lock_owners =>
        match more with
        | O => Some false
        | S more =>
            let first_fl := default fl first_fl in
            any (fun o =>
              any (fun q : filelock * nat =>
                st ← states q.2;
                ls ← blockers q.1 st;
                match ls with
                | [] => Some false
                | _ => is_deadlock more states g ty q.1 ls (Some first_fl)
                end) (waiting_of o g)) lock_owners
        end
    end.

(** ** Changing held locks *)

(** One overlapping lock of the same owner; [new_to_end] is computed before the
    loop. *)
Definition adjust_old (new_to_end : bool) (i : nat) (new : filelock) (s : lock_state)
  : option (filelock * lock_state) :=
  n ← mm_at (held_locks s) i;
  let old := second n in
  let old_to_end := length_ old =? 0 in
  let old_start := start old in
  let old_end := old_start +u64 length_ old -u64 1 in
  let new_start := start new in
  let new_end := new_start +u64 length_ new -u64 1 in
  let c := client old in
  let '(new, s) :=
    if new_to_end || old_to_end then
      if type old =? type new then
        (with_length 0 (with_start (if new_start <? old_start then new_start else old_start) new),
         held_count c (-1) (held_erase i s))
      else if new_to_end then
        if old_start <? new_start then (new, held_set_length i (new_start -u64 old_start) s)
        else (new, held_count c (-1) (held_erase i s))
      else
        let appended := with_start (new_end +u64 1) old in
        let s := held_count c 1 (held_insert appended s) in
        if old_start <? new_start then (new, held_set_length i (new_start -u64 old_start) s)
        else (new, held_count c (-1) (held_erase i s))
    else
      if type old =? type new then
        let start' := if old_start <? new_start then old_start else new_start in
        (* int new_end *)
        let end' := s32 (if old_end <? new_end then new_end else old_end) in
        (with_length (u64 end' -u64 start' +u64 1) (with_start start' new),
         held_count c (-1) (held_erase i s))
      else
        let s :=
          if new_end <? old_end then
            let a := new_end +u64 1 in
            let appended := with_length (old_end -u64 a +u64 1) (with_start a old) in
            held_count c 1 (held_insert appended s)
          else s in
        if old_start <? new_start then (new, held_set_length i (new_start -u64 old_start) s)
        else (new, held_count c (-1) (held_erase i s)) in
  Some (new, held_trim c s).

Fixpoint adjust_olds (new_to_end : bool) (olds : list nat) (new : filelock) (s : lock_state)
  : option (filelock * lock_state) :=
  match olds with
  | [] => Some (new, s)
  | i :: olds => '(new, s) ← adjust_old new_to_end i new s; adjust_olds new_to_end olds new s
  end.

(** One neighbouring lock of the same owner. *)
Definition coalesce (i : nat) (new : filelock) (s : lock_state) : option (filelock * lock_state) :=
  n ← mm_at (held_locks s) i;
  let old := second n in
  let c := client old in
  '(new, s) ←
    (if type old =? type new then
       new ←
         (if length_ new =? 0 then
            if start old +u64 length_ old =? start new then Some (with_start (start old) new)
            else None
          else if length_ old =? 0 then
            if start new +u64 length_ new =? start old then Some (with_length 0 new) else None
          else if start old +u64 length_ old =? start new then
            Some (with_length (length_ old +u64 length_ new) (with_start (start old) new))
          else if start new +u64 length_ new =? start old then
            Some (with_length (length_ old +u64 length_ new) new)
          else Some new);
       Some (new, held_count c (-1) (held_erase i s))
     else Some (new, s));
  Some (new, held_trim c s).

Fixpoint coalesce_all (neighbors : list nat) (new : filelock) (s : lock_state)
  : option (filelock * lock_state) :=
  match neighbors with
  | [] => Some (new, s)
  | i :: neighbors => '(new, s) ← coalesce i new s; coalesce_all neighbors new s
  end.

Definition adjust_locks (olds : list nat) (new : filelock) (neighbors : list nat) (s : lock_state)
  : option (filelock * lock_state) :=
  '(new, s) ← adjust_olds (length_ new =? 0) olds new s;
  coalesce_all neighbors new s.

(** ** The operations *)

Record add_result := MkAdd {
  ar_state : lock_state;
  ar_waiters : waiters;
  ar_lock : filelock;
  ar_set : bool;
  ar_deadlock : bool
}.

(** The lock is set: the waiting entry goes, the held locks make room. *)
Definition set_lock (me : nat) (new : filelock) (self neighbors : list nat) (s : lock_state)
  (g : waiters) : option add_result :=
  let '(s, g) := remove_waiting me new s g in
  '(new, s) ← adjust_locks self new neighbors s;
  Some (MkAdd (held_count (client new) 1 (held_insert new s)) g new true false).

(** The lock is blocked by [overlapping]. *)
Definition block_lock (states : nat -> option lock_state) (me : nat) (new : filelock)
  (overlapping : list nat) (wait_on_fail replay : bool) (s : lock_state) (g : waiters)
  : option add_result :=
  if wait_on_fail && negb replay then
    ls ← locks_at (held_locks s) overlapping;
    dead ← is_deadlock MAX_DEADLK_DEPTH states g (ltype s) new ls None;
    if (dead : bool) then Some (MkAdd s g new false true)
    else let '(s, g) := add_waiting me new s g in Some (MkAdd s g new false false)
  else Some (MkAdd s g new false false).

Definition add_lock (states : nat -> option lock_state) (me : nat) (new : filelock)
  (wait_on_fail replay : bool) (s : lock_state) (g : waiters) : option add_result :=
  let '(overlaps, neighbors) := get_overlapping_locks new s in
  '(overlapping, self) ← split_by_owner new (held_locks s) overlaps;
  match overlapping with
  | [] => set_lock me new self neighbors s g
  | _ =>
      if type new =? CEPH_LOCK_EXCL then
        block_lock states me new overlapping wait_on_fail replay s g
      else
        excl ← contains_exclusive_lock (held_locks s) overlapping;
        match excl with
        | Some _ => block_lock states me new overlapping wait_on_fail replay s g
        | None => set_lock me new self neighbors s g
        end
  end.

(** The lock [testing_lock] is replaced by. *)
Definition look_for_lock (testing : filelock) (s : lock_state) : option filelock :=
  let '(overlaps, _) := get_overlapping_locks testing s in
  '(overlapping, _) ← split_by_owner testing (held_locks s) overlaps;
  match overlapping with
  | [] => Some (with_type CEPH_LOCK_UNLOCK testing)
  | i :: _ =>
      if type testing =? CEPH_LOCK_EXCL then second <$> mm_at (held_locks s) i
      else
        excl ← contains_exclusive_lock (held_locks s) overlapping;
        Some (match excl with Some l => l | None => with_type CEPH_LOCK_UNLOCK testing end)
  end.

(** One lock of the owner that overlaps the removed range. *)
Definition remove_old (removal : filelock) (i : nat) (s : lock_state) : option lock_state :=
  n ← mm_at (held_locks s) i;
  let old := second n in
  let remove_to_end := length_ removal =? 0 in
  let removal_start := start removal in
  let removal_end := removal_start +u64 length_ removal -u64 1 in
  let old_to_end := length_ old =? 0 in
  let old_end := start old +u64 length_ old -u64 1 in
  let c := client old in
  let shrink s := held_set_length i (removal_start -u64 start old) s in
  let drop s := held_count c (-1) (held_erase i s) in
  let s :=
    if remove_to_end then
      if start old <? removal_start then shrink s else drop s
    else if old_to_end then
      let s := held_count c 1 (held_insert (with_start (removal_end +u64 1) old) s) in
      if removal_start <=? start old then drop s else shrink s
    else
      let s :=
        if removal_end <? old_end then
          let a := removal_end +u64 1 in
          held_count c 1
            (held_insert (with_length (old_end -u64 a +u64 1) (with_start a old)) s)
        else s in
      if start old <? removal_start then shrink s else drop s in
  Some (held_trim c s).

Fixpoint remove_olds (removal : filelock) (self : list nat) (s : lock_state) : option lock_state :=
  match self with
  | [] => Some s
  | i :: self => s ← remove_old removal i s; remove_olds removal self s
  end.

(** [activated_locks] is not touched. *)
Definition remove_lock (removal : filelock) (s : lock_state) : option lock_state :=
  let '(overlaps, _) := get_overlapping_locks removal s in
  '(_, self) ← split_by_owner removal (held_locks s) overlaps;
  remove_olds removal self s.

Definition has_client (m : list (Z * Z)) (c : Z) : bool :=
  match map_find m c with Some _ => true | None => false end.
Definition of_client (c : Z) (n : node) : bool := s64 (client (second n)) =? c.

Definition remove_all_from (me : nat) (c : Z) (s : lock_state) (g : waiters)
  : lock_state * waiters * bool :=
  let cleared_any := has_client (client_held_lock_counts s) c in
  let s :=
    if cleared_any then
      set_held_counts (map_erase (client_held_lock_counts s) c)
        (set_held (List.filter (fun n => negb (of_client c n)) (held_locks s)) s)
    else s in
  if has_client (client_waiting_lock_counts s) c then
    let gone := List.filter (of_client c) (waiting_locks s) in
    let g := if ltype s =? CEPH_LOCK_FCNTL
             then foldl (fun g n => remove_global_waiting (second n) me g) g gone else g in
    (set_waiting (List.filter (fun n => negb (of_client c n)) (waiting_locks s))
       (map_erase (client_waiting_lock_counts s) c) s, g, cleared_any)
  else (s, g, cleared_any).

(** ** Encoding *)

Definition empty (s : lock_state) : bool :=
  match held_locks s, waiting_locks s, client_held_lock_counts s, client_waiting_lock_counts s with
  | [], [], [], [] => true
  | _, _, _, _ => false
  end.
End Flock.

(** ** Nodes and counts *)

Module FlockFacts.
Import Flock.

(** Who a lock belongs to. *)
Definition okey (l : filelock) : Z * Z * Z :=
  (client l, owner l, if new_owner l then 0 else pid l).

Lemma owner_equal_okey l r : ceph_filelock_owner_equal l r = true <-> okey l = okey r.
Proof.
  unfold ceph_filelock_owner_equal, okey, new_owner.
  destruct (Z.eqb_spec (client l) (client r)) as [->|]; cbn [negb orb]; [|split; congruence].
  destruct (Z.eqb_spec (owner l) (owner r)) as [->|]; cbn [negb orb]; [|split; congruence].
  destruct (Z.testbit (owner r) 63); [done|]. rewrite Z.eqb_eq. split; congruence.
Qed.

(** One past the last byte; a length of 0 reaches to the end of the file. *)
Definition fin (l : filelock) : Z := if length_ l =? 0 then 2 ^ 64 else start l + length_ l.
Definition covers (l : filelock) (x : Z) : Prop := start l <= x < fin l.

(** The end of what may be locked, up to which the theorems speak of locks. *)
Class limit := lim : Z.

Section limited.
Context {Lm : limit}.

(** A lock whose ends are within the limit, which is at most [2 ^ 63], the end of
    what a file offset can name. *)
Record valid (l : filelock) : Prop := {
  va_start : 0 <= start l /\ start l <= lim <= 2 ^ 63;
  va_length : 0 <= length_ l;
  va_end : length_ l = 0 \/ start l + length_ l <= lim;
  va_type : type l = CEPH_LOCK_SHARED \/ type l = CEPH_LOCK_EXCL;
  va_client : 0 <= client l < 2 ^ 63
}.

Lemma fin_range l : valid l -> start l < fin l <= 2 ^ 64.
Proof.
  intros [? ? He _ _]. unfold fin. destruct (Z.eqb_spec (length_ l) 0); [lia|]. destruct He; lia.
Qed.

(** Two locks that share a byte are shared locks of different owners. *)
Definition compat (a b : filelock) : Prop :=
  forall x, covers a x -> covers b x ->
    okey a <> okey b /\ type a = CEPH_LOCK_SHARED /\ type b = CEPH_LOCK_SHARED.

Lemma compat_sym a b : compat a b -> compat b a.
Proof. intros H x Ha Hb. destruct (H x Hb Ha) as (? & ? & ?). split_and!; auto. Qed.

(** A piece of a lock is compatible with what the lock is. *)
Lemma compat_piece a a' b :
  compat a b -> okey a' = okey a -> type a' = type a -> (forall x, covers a' x -> covers a x) ->
  compat a' b.
Proof. intros H Eo Et Hs x Ha Hb. rewrite Eo, Et. by apply (H x); [apply Hs|]. Qed.

Definition cnt (c : Z) (h : list node) : Z := Z.of_nat (length (List.filter (of_client c) h)).

Lemma cnt_cons c n h : cnt c (n :: h) = (if of_client c n then 1 else 0) + cnt c h.
Proof. unfold cnt. simpl. destruct (of_client c n); simpl; lia. Qed.

Lemma cnt_nonneg c h : 0 <= cnt c h.
Proof. unfold cnt. lia. Qed.

Lemma cnt_insert c h n : cnt c (mm_insert h n) = (if of_client c n then 1 else 0) + cnt c h.
Proof.
  induction h as [|x h IH]; simpl; [by rewrite cnt_cons|].
  destruct (first x <=? first n); rewrite !cnt_cons; [rewrite IH|]; lia.
Qed.

Lemma cnt_update c h i f :
  (forall l, client (f l) = client l) -> cnt c (mm_update h i f) = cnt c h.
Proof.
  intros Hf. induction h as [|x h IH]; simpl; [done|]. rewrite !cnt_cons, IH. f_equal.
  destruct (_ =? _)%nat; [|done]. unfold of_client. simpl. by rewrite Hf.
Qed.

Lemma elem_insert h n x : x ∈ mm_insert h n <-> x = n \/ x ∈ h.
Proof.
  induction h as [|y h IH]; simpl; [set_solver|]. destruct (_ <=? _); set_solver.
Qed.

Lemma elem_erase h i x : x ∈ mm_erase h i <-> x ∈ h /\ nid x <> i.
Proof.
  unfold mm_erase. rewrite !list_elem_of_In, filter_In, negb_true_iff, Nat.eqb_neq. done.
Qed.

Lemma elem_update h i f x :
  x ∈ mm_update h i f <->
  (x ∈ h /\ nid x <> i) \/ exists y, y ∈ h /\ nid y = i /\ x = MkNode i (first y) (f (second y)).
Proof.
  unfold mm_update. rewrite list_elem_of_fmap. split.
  - intros (y & -> & Hy). destruct (Nat.eqb_spec (nid y) i) as [E|E]; [right|by left].
    exists y. split_and!; [done..|]. by rewrite E.
  - intros [[Hx Hn]|(y & Hy & E & ->)].
    + exists x. split; [|done]. by destruct (Nat.eqb_spec (nid x) i).
    + exists y. split; [|done]. rewrite E, Nat.eqb_refl. done.
Qed.

Definition ids (h : list node) : list nat := map nid h.

Lemma mm_at_elem h i n : NoDup (ids h) -> mm_at h i = Some n <-> n ∈ h /\ nid n = i.
Proof.
  unfold mm_at, ids. induction h as [|x h IH]; simpl; intros Hnd.
  { split; [done|]. by intros [?%elem_of_nil _]. }
  apply NoDup_cons in Hnd as [Hx Hnd]. destruct (Nat.eqb_spec (nid x) i) as [E|E].
  - split; [intros [= <-]; split; [by left|done]|]. intros [[->|Hin]%elem_of_cons En]; [done|].
    destruct Hx. rewrite E, <- En. apply list_elem_of_fmap. eauto.
  - rewrite IH by done. split; intros [Hin En]; (split; [|done]); [by right|].
    apply elem_of_cons in Hin as [->|]; [done|done].
Qed.

Lemma nid_inj h a b : NoDup (ids h) -> a ∈ h -> b ∈ h -> nid a = nid b -> a = b.
Proof.
  intros Hi Ha Hb E. pose proof (proj2 (mm_at_elem _ (nid b) a Hi) (conj Ha E)).
  pose proof (proj2 (mm_at_elem _ (nid b) b Hi) (conj Hb eq_refl)). congruence.
Qed.

Lemma cnt_erase c h n :
  NoDup (ids h) -> n ∈ h -> cnt c (mm_erase h (nid n)) = cnt c h - (if of_client c n then 1 else 0).
Proof.
  unfold mm_erase, ids. induction h as [|x h IH]; simpl; intros Hnd Hin; [by apply elem_of_nil in Hin|].
  apply NoDup_cons in Hnd as [Hx Hnd]. apply elem_of_cons in Hin as [->|Hin].
  - rewrite Nat.eqb_refl. simpl. rewrite cnt_cons.
    assert (E : List.filter (fun y => negb (nid y =? nid x)%nat) h = h).
    { clear -Hx. induction h as [|y h IH]; simpl; [done|]. simpl in Hx.
      apply not_elem_of_cons in Hx as [Hn Hx]. rewrite (proj2 (Nat.eqb_neq _ _)) by congruence. simpl.
      by rewrite IH. }
    rewrite E. lia.
  - assert (nid x <> nid n).
    { intros E. apply Hx. rewrite E. apply list_elem_of_fmap. eauto. }
    rewrite (proj2 (Nat.eqb_neq _ _)) by done. simpl. rewrite !cnt_cons, IH by done. lia.
Qed.

(** ** Well-formed states *)

Definition sorted (h : list node) : Prop := StronglySorted (fun a b => first a <= first b) h.

Lemma sorted_insert h n : sorted h -> sorted (mm_insert h n).
Proof.
  induction 1 as [|x h Hs IH Hx]; simpl; [by repeat constructor|].
  destruct (Z.leb_spec (first x) (first n)).
  - constructor; [done|]. rewrite Forall_forall in *. intros y [->|Hy]%elem_insert; auto.
  - constructor; [by constructor|]. constructor; [lia|]. eapply Forall_impl; [exact Hx|]. simpl. lia.
Qed.

Lemma sorted_erase h i : sorted h -> sorted (mm_erase h i).
Proof.
  unfold mm_erase. induction 1 as [|x h Hs IH Hx]; simpl; [constructor|].
  destruct (negb _); [|done]. constructor; [done|]. rewrite Forall_forall in *. intros y Hy.
  apply list_elem_of_In, filter_In in Hy as [Hy _]. apply Hx. by apply list_elem_of_In.
Qed.

Lemma sorted_update h i f : sorted h -> sorted (mm_update h i f).
Proof.
  induction 1 as [|x h Hs IH Hx]; simpl; [constructor|]. constructor; [done|].
  rewrite Forall_forall in *. intros y Hy. unfold mm_update in Hy.
  apply list_elem_of_fmap in Hy as (z & -> & Hz). specialize (Hx z Hz).
  by destruct (nid x =? i)%nat, (nid z =? i)%nat.
Qed.

(** Everything but the compatibility of the locks; the count of the client
    [c] may be an explicit 0. *)
Record shape (c : Z) (s : lock_state) : Prop := {
  sh_ids : NoDup (ids (held_locks s));
  sh_fresh : Forall (fun n => (nid n < next_id s)%nat) (held_locks s);
  sh_sorted : sorted (held_locks s);
  sh_valid : Forall (fun n => first n = start (second n) /\ valid (second n)) (held_locks s);
  sh_keys : keys_from 0 (client_held_lock_counts s);
  sh_counts : forall d, default 0 (map_find (client_held_lock_counts s) d) = cnt d (held_locks s);
  sh_nonzero : forall d, d <> c -> map_find (client_held_lock_counts s) d <> Some 0
}.

Record wf_locks (s : lock_state) : Prop := {
  wl_shape : forall c, shape c s;
  wl_compat : forall a b, a ∈ held_locks s -> b ∈ held_locks s -> nid a <> nid b ->
    compat (second a) (second b)
}.

Lemma of_client_valid d l i k : valid l -> of_client d (MkNode i k l) = (client l =? d).
Proof. intros [_ _ _ _ Hc]. unfold of_client. simpl. by rewrite s64_small by lia. Qed.

Lemma count_add_shape m h c k delta :
  keys_from 0 m -> 0 <= c ->
  (forall d, default 0 (map_find m d) = cnt d h + (if c =? d then - delta else 0) + k d) ->
  keys_from 0 (count_add m c delta) /\
  (forall d, default 0 (map_find (count_add m c delta) d) = cnt d h + k d) /\
  (forall d, d <> c -> map_find (count_add m c delta) d = map_find m d).
Proof.
  intros Hk Hc Hd. unfold count_add. split_and!.
  - by apply map_set_keys.
  - intros d. rewrite (map_find_set 0) by done. specialize (Hd d).
    destruct (Z.eqb_spec d c) as [->|Hn]; simpl.
    + rewrite Z.eqb_refl in Hd. lia.
    + rewrite (proj2 (Z.eqb_neq c d)) in Hd by congruence. lia.
  - intros d Hn. rewrite (map_find_set 0) by done. by rewrite (proj2 (Z.eqb_neq _ _)).
Qed.

Lemma shape_insert c s l :
  shape c s -> valid l -> client l = c -> shape c (held_count c 1 (held_insert l s)).
Proof.
  intros [Hi Hf Hs Hv Hk Hc Hz] Vl El.
  assert (E64 : s64 c = c) by (apply s64_small; destruct Vl; lia).
  destruct (count_add_shape (client_held_lock_counts s) (mm_insert (held_locks s) (MkNode (next_id s) (start l) l))
    c (fun _ => 0) 1 Hk) as (K & C & N); [destruct Vl; lia| |].
  { intros d. rewrite Hc, cnt_insert, of_client_valid, El by done. destruct (c =? d); lia. }
  split; simpl; rewrite ?E64; auto.
  - rewrite Forall_forall in Hf. unfold ids. clear -Hi Hf.
    assert (Hp : mm_insert (held_locks s) (MkNode (next_id s) (start l) l) ≡ₚ
                 MkNode (next_id s) (start l) l :: held_locks s).
    { clear. induction (held_locks s) as [|x h IH]; simpl; [done|]. destruct (_ <=? _); [|done].
      rewrite IH. solve_Permutation. }
    rewrite Hp. simpl. constructor; [|done]. intros Hin. apply list_elem_of_fmap in Hin as (x & E & Hx).
    specialize (Hf x Hx). simpl in Hf. lia.
  - rewrite Forall_forall in *. intros x [->|Hx]%elem_insert; simpl; [lia|]. specialize (Hf x Hx). simpl in Hf. lia.
  - by apply sorted_insert.
  - rewrite Forall_forall in *. intros x [->|Hx]%elem_insert; [done|by apply Hv].
  - intros d. specialize (C d). lia.
  - intros d Hd. rewrite N by done. by apply Hz.
Qed.

Lemma nodup_filter (h : list node) f : NoDup (ids h) -> NoDup (ids (List.filter f h)).
Proof.
  unfold ids. induction h as [|x h IH]; simpl; [done|]. intros [Hx Hn]%NoDup_cons.
  destruct (f x); simpl; [|by apply IH]. constructor; [|by apply IH].
  intros Hin. apply Hx. apply list_elem_of_fmap in Hin as (y & -> & Hy). apply list_elem_of_fmap.
  exists y. split; [done|]. apply list_elem_of_In, filter_In in Hy as [Hy _]. by apply list_elem_of_In.
Qed.

Lemma shape_erase c s n :
  shape c s -> n ∈ held_locks s -> client (second n) = c ->
  shape c (held_count c (-1) (held_erase (nid n) s)).
Proof.
  intros [Hi Hf Hs Hv Hk Hc Hz] Hn El. rewrite Forall_forall in Hv.
  pose proof (proj2 (Hv n Hn)) as Vl. assert (E64 : s64 c = c) by (apply s64_small; destruct Vl; lia).
  assert (Eof : forall d, of_client d n = (c =? d)).
  { intros d. destruct n as [i k l]. simpl in *. rewrite of_client_valid by done. by rewrite El. }
  destruct (count_add_shape (client_held_lock_counts s) (mm_erase (held_locks s) (nid n))
    c (fun _ => 0) (-1) Hk) as (K & C & N); [destruct Vl; lia| |].
  { intros d. rewrite Hc, cnt_erase, Eof by done. destruct (c =? d); lia. }
  split; simpl; rewrite ?E64; auto.
  - by apply nodup_filter.
  - rewrite Forall_forall in *. intros x [Hx _]%elem_erase. by apply Hf.
  - by apply sorted_erase.
  - rewrite Forall_forall. intros x [Hx _]%elem_erase. by apply Hv.
  - intros d. specialize (C d). lia.
  - intros d Hd. rewrite N by done. by apply Hz.
Qed.

Lemma ids_update h i f : ids (mm_update h i f) = ids h.
Proof.
  unfold ids, mm_update. rewrite map_map. apply map_ext. intros x. by destruct (_ =? _)%nat.
Qed.

Lemma shape_set_length c s n k :
  shape c s -> n ∈ held_locks s -> valid (with_length k (second n)) ->
  shape c (held_set_length (nid n) k s).
Proof.
  intros [Hi Hf Hs Hv Hk Hc Hz] Hn Vl.
  assert (Hone : forall y, y ∈ held_locks s -> nid y = nid n -> y = n).
  { intros y Hy E. by apply (nid_inj (held_locks s)). }
  split; simpl; auto.
  - by rewrite ids_update.
  - rewrite Forall_forall in *. intros x [[Hx _]|(y & Hy & E & ->)]%elem_update; simpl; auto.
  - by apply sorted_update.
  - rewrite Forall_forall in *. intros x [[Hx _]|(y & Hy & E & ->)]%elem_update; auto. simpl.
    rewrite (Hone y Hy E). split; [by apply Hv|done].
  - intros d. by rewrite cnt_update.
Qed.

Lemma shape_trim c s : shape c s -> 0 <= c < 2 ^ 63 -> forall d, shape d (held_trim c s).
Proof.
  intros [Hi Hf Hs Hv Hk Hc Hz] Hr d. unfold held_trim, count_trim. rewrite s64_small by lia.
  destruct (Z.eqb_spec (default 0 (map_find (client_held_lock_counts s) c)) 0) as [E|E];
    split; simpl; auto.
  - by apply map_erase_keys.
  - intros e. rewrite (map_find_erase 0) by done. destruct (Z.eqb_spec e c) as [->|]; [|apply Hc].
    simpl. by rewrite <- Hc.
  - intros e _. rewrite (map_find_erase 0) by done. destruct (Z.eqb_spec e c) as [->|]; [done|by apply Hz].
  - intros e _. destruct (Z.eq_dec e c) as [->|]; [|by apply Hz]. intros E'. by rewrite E' in E.
Qed.

(** ** Cutting a range out of a lock *)

(** What [remove_old] leaves of the lock of [n]: the part before the range, in
    its node, and the part after it, in a new one. *)
Definition left_part (cut l : filelock) : filelock := with_length (start cut - start l) l.
Definition right_part (cut l : filelock) : filelock :=
  with_length (if length_ l =? 0 then 0 else fin l - fin cut) (with_start (fin cut) l).

Definition cut_out (cut : filelock) (n : node) (s : lock_state) : lock_state :=
  let l := second n in
  let c := client l in
  let s := if fin cut <? fin l then held_count c 1 (held_insert (right_part cut l) s) else s in
  let s := if start l <? start cut then held_set_length (nid n) (start cut - start l) s
           else held_count c (-1) (held_erase (nid n) s) in
  held_trim c s.

Lemma remove_old_cut cut n s :
  NoDup (ids (held_locks s)) -> n ∈ held_locks s -> valid (second n) -> valid cut ->
  remove_old cut (nid n) s = Some (cut_out cut n s).
Proof.
  intros Hi Hn [S1 L1 E1 _ _] [S2 L2 E2 _ _]. unfold remove_old, cut_out.
  rewrite (proj2 (mm_at_elem _ _ n Hi)) by done. obind. cbv zeta. unfold right_part, fin.
  set (l := second n) in *. clearbody l.
  destruct (Z.eqb_spec (length_ cut) 0) as [C0|C0].
  { replace (2 ^ 64 <? _) with false by (destruct (length_ l =? 0); symmetry; apply Z.ltb_ge; lia).
    destruct (Z.ltb_spec (start l) (start cut)); [|done]. by rewrite u64_small by lia. }
  destruct E2 as [|E2]; [done|].
  assert (Ec : start cut +u64 length_ cut -u64 1 +u64 1 = start cut + length_ cut).
  { rewrite (u64_small (start cut + _)), (u64_small (_ - 1)), u64_small by lia. lia. }
  destruct (Z.eqb_spec (length_ l) 0) as [Z0|Z0].
  { rewrite Ec, (proj2 (Z.ltb_lt _ (2 ^ 64))) by lia. 
    replace (with_length 0 (with_start (start cut + length_ cut) l))
      with (with_start (start cut + length_ cut) l) by (destruct l; simpl in *; by subst).
    destruct (Z.ltb_spec (start l) (start cut)).
    - rewrite (proj2 (Z.leb_gt _ _)) by lia. by rewrite u64_small by lia.
    - by rewrite (proj2 (Z.leb_le _ _)) by lia. }
  destruct E1 as [|E1]; [done|]. rewrite Ec.
  rewrite !(u64_small (start l + _)), !(u64_small (start cut + _)) by lia.
  rewrite !(u64_small (_ - 1)) by lia.
  replace (start cut + length_ cut - 1 <? start l + length_ l - 1)
    with (start cut + length_ cut <? start l + length_ l) by (zcase; lia).
  destruct (Z.ltb_spec (start cut + length_ cut) (start l + length_ l));
    destruct (Z.ltb_spec (start l) (start cut)); rewrite ?u64_small by (rewrite ?u64_small; lia);
    repeat f_equal; lia.
Qed.

(** What it means to cut a range out of the lock of [n]. *)
Record carved (cut : filelock) (n : node) (s s' : lock_state) : Prop := {
  ca_wf : wf_locks s';
  ca_next : (next_id s <= next_id s')%nat;
  ca_waiting : waiting_locks s' = waiting_locks s;
  ca_wcounts : client_waiting_lock_counts s' = client_waiting_lock_counts s;
  ca_type : ltype s' = ltype s;
  ca_keep : forall m, m ∈ held_locks s -> nid m <> nid n -> m ∈ held_locks s';
  ca_piece : forall m, m ∈ held_locks s' ->
    (m ∈ held_locks s /\ nid m <> nid n) \/
    ((nid m = nid n \/ next_id s <= nid m)%nat /\
     okey (second m) = okey (second n) /\ type (second m) = type (second n) /\
     forall x, covers (second m) x -> covers (second n) x /\ ~ covers cut x);
  ca_rest : forall x, covers (second n) x -> ~ covers cut x ->
    exists m, m ∈ held_locks s' /\ okey (second m) = okey (second n) /\
      type (second m) = type (second n) /\ covers (second m) x
}.

Lemma left_part_spec cut l :
  valid l -> valid cut -> start l < start cut <= fin l ->
  valid (left_part cut l) /\ forall x, covers (left_part cut l) x <-> start l <= x < start cut.
Proof.
  intros [S1 L1 E1 T1 C1] [S2 _ _ _ _] Hs. unfold left_part. split.
  - split; simpl; auto; try lia.
  - intros x. unfold covers, fin. simpl. rewrite (proj2 (Z.eqb_neq _ _)) by lia. lia.
Qed.

Lemma right_part_spec cut l :
  valid l -> valid cut -> start l <= fin cut < fin l ->
  valid (right_part cut l) /\ forall x, covers (right_part cut l) x <-> fin cut <= x < fin l.
Proof.
  intros Vl Vc Hs. pose proof (fin_range l Vl). destruct Vl as [S1 L1 E1 T1 C1], Vc as [S2 L2 E2 _ _].
  assert (Hc : fin cut <= lim).
  { unfold fin in *. destruct (Z.eqb_spec (length_ cut) 0); [lia|]. destruct E2; [done|lia]. }
  unfold right_part. assert (Hb : 0 <= fin cut) by lia. set (b := fin cut) in *. clearbody b.
  unfold covers, fin in *. destruct (Z.eqb_spec (length_ l) 0) as [E|E]; simpl.
  - split; [split; simpl; auto; lia|done].
  - split; [split; simpl; auto; lia|]. intros x. rewrite (proj2 (Z.eqb_neq _ _)) by lia. lia.
Qed.

Lemma elem_cut cut n s m :
  n ∈ held_locks s -> NoDup (ids (held_locks s)) -> (nid n < next_id s)%nat ->
  m ∈ held_locks (cut_out cut n s) <->
  (m ∈ held_locks s /\ nid m <> nid n) \/
  (start (second n) < start cut /\ m = MkNode (nid n) (first n) (left_part cut (second n))) \/
  (fin cut < fin (second n) /\ m = MkNode (next_id s) (fin cut) (right_part cut (second n))).
Proof.
  intros Hn Hi Hf. unfold cut_out. set (l := second n). set (R := right_part cut l).
  set (s1 := if fin cut <? fin l then held_count (client l) 1 (held_insert R s) else s).
  assert (H1 : forall y, y ∈ held_locks s1 <->
    y ∈ held_locks s \/ (fin cut < fin l /\ y = MkNode (next_id s) (fin cut) R)).
  { intros y. unfold s1. destruct (Z.ltb_spec (fin cut) (fin l)); simpl; [|naive_solver lia].
    rewrite elem_insert. simpl. naive_solver. }
  assert (Hone : forall y, y ∈ held_locks s1 -> nid y = nid n -> y = n).
  { intros y [Hy|[_ ->]]%H1 E; [|simpl in E; lia]. by apply (nid_inj (held_locks s)). }
  destruct (Z.ltb_spec (start l) (start cut)) as [Hlt|Hge]; simpl.
  - rewrite elem_update, H1. split.
    + intros [[[?|?] ?]|(y & Hy & E & ->)]; [by left|by right; right|].
      right. left. by rewrite (Hone y Hy E).
    + intros [[? ?]|[[_ ->]|[? ->]]].
      * left. split; [by left|done].
      * right. exists n. split_and!; [apply H1; by left|done|done].
      * left. split; [by right|simpl; lia].
  - rewrite elem_erase, H1. split.
    + intros [[?|?] ?]; [by left|by right; right].
    + intros [[? ?]|[[? _]|[? ->]]]; [|lia|]; (split; [by auto|]); [done|simpl; lia].
Qed.

Lemma shape_cut cut n s :
  (forall c, shape c s) -> n ∈ held_locks s -> valid cut ->
  start cut < fin (second n) -> start (second n) < fin cut ->
  forall c, shape c (cut_out cut n s).
Proof.
  intros Hs Hn Vc H1 H2. pose proof (Hs (client (second n))) as Hsh.
  pose proof (sh_valid _ _ Hsh) as Hv. rewrite Forall_forall in Hv.
  destruct (Hv n Hn) as [_ Vl]. set (l := second n) in *.
  unfold cut_out. fold l. apply shape_trim; [|destruct Vl; lia].
  set (s1 := if fin cut <? fin l then held_count (client l) 1 (held_insert (right_part cut l) s) else s).
  assert (Hs1 : shape (client l) s1).
  { unfold s1. destruct (Z.ltb_spec (fin cut) (fin l)); [|done].
    apply shape_insert; [done| |done]. apply right_part_spec; [done..|lia]. }
  assert (Hn1 : n ∈ held_locks s1).
  { unfold s1. destruct (_ <? _); [|done]. simpl. apply elem_insert. by right. }
  clearbody s1. destruct (Z.ltb_spec (start l) (start cut)).
  - apply shape_set_length; [done..|]. apply (left_part_spec cut l); [done..|lia].
  - by apply shape_erase.
Qed.

Lemma cut_out_spec cut n s :
  wf_locks s -> n ∈ held_locks s -> valid cut ->
  start cut < fin (second n) -> start (second n) < fin cut ->
  carved cut n s (cut_out cut n s).
Proof.
  intros [Hs Hc] Hn Vc H1 H2. pose proof (Hs 0) as Hsh.
  pose proof (sh_fresh _ _ Hsh) as Hf. rewrite Forall_forall in Hf. specialize (Hf n Hn).
  pose proof (sh_valid _ _ Hsh) as Hv. rewrite Forall_forall in Hv. destruct (Hv n Hn) as [_ Vl].
  pose proof (fun m => elem_cut cut n s m Hn (sh_ids _ _ Hsh) Hf) as Hel.
  (* a new piece *)
  assert (Hp : forall m, m ∈ held_locks (cut_out cut n s) -> ~ (m ∈ held_locks s /\ nid m <> nid n) ->
    (nid m = nid n \/ next_id s <= nid m)%nat /\
    okey (second m) = okey (second n) /\ type (second m) = type (second n) /\
    forall x, covers (second m) x -> covers (second n) x /\ ~ covers cut x /\
      (nid m = nid n <-> x < start cut)).
  { intros m [?|[[Hlt ->]|[Hlt ->]]]%Hel Hno; [done| |]; simpl.
    - split_and!; [by left|done|done|]. intros x Hx. destruct (left_part_spec cut (second n)) as [_ Lp]; [done|done|lia|].
      apply Lp in Hx. unfold covers. split_and!; lia.
    - split_and!; [by right|done|done|]. intros x Hx. destruct (right_part_spec cut (second n)) as [_ Rp]; [done|done|lia|].
      apply Rp in Hx.      pose proof (fin_range cut Vc). unfold covers. split_and!; lia. }
  split.
  - split; [by apply shape_cut|]. intros a b Ha Hb Hne.
    destruct (decide (a ∈ held_locks s /\ nid a <> nid n)) as [[Oa Na]|Na];
      destruct (decide (b ∈ held_locks s /\ nid b <> nid n)) as [[Ob Nb]|Nb].
    + by apply Hc.
    + destruct (Hp b Hb Nb) as (_ & Eo & Et & Hx). apply compat_sym.
      apply (compat_piece (second n)); [by apply Hc|done..|]. intros x Cx. by apply Hx.
    + destruct (Hp a Ha Na) as (_ & Eo & Et & Hx).
      apply (compat_piece (second n)); [by apply Hc|done..|]. intros x Cx. by apply Hx.
    + intros x Cax Cbx. exfalso. destruct (Hp a Ha Na) as (_ & _ & _ & Hxa).
      destruct (Hp b Hb Nb) as (_ & _ & _ & Hxb).
      destruct (Hxa x Cax) as (_ & _ & Ia). destruct (Hxb x Cbx) as (_ & _ & Ib).
      apply Hel in Ha as [?|[[? ->]|[? ->]]]; [done| |]; apply Hel in Hb as [?|[[? ->]|[? ->]]];
        try done; simpl in *; lia.
  - unfold cut_out. repeat case_match; simpl; lia.
  - unfold cut_out. repeat case_match; done.
  - unfold cut_out. repeat case_match; done.
  - unfold cut_out. repeat case_match; done.
  - intros m Hm Hne. apply Hel. by left.
  - intros m Hm. destruct (decide (m ∈ held_locks s /\ nid m <> nid n)) as [|Nm]; [by left|right].
    destruct (Hp m Hm Nm) as (? & ? & ? & Hx). split_and!; [done..|].
    intros x Cx. destruct (Hx x Cx) as (? & ? & _). done.
  - intros x Cx Nx. unfold covers in Nx. destruct (decide (x < start cut)) as [D|D].
    + exists (MkNode (nid n) (first n) (left_part cut (second n))).
      assert (start (second n) < start cut) by (destruct Cx; lia).
      split; [apply Hel; right; by left|]. split_and!; [done..|]. destruct (left_part_spec cut (second n)) as [_ Lp]; [done|done|lia|].
      apply Lp. destruct Cx; lia.
    + exists (MkNode (next_id s) (fin cut) (right_part cut (second n))).
      assert (fin cut <= x < fin (second n)) by (destruct Cx; lia).
      split; [apply Hel; right; right; split; [lia|done]|]. split_and!; [done..|].
      destruct (right_part_spec cut (second n)) as [_ Rp]; [done|done|lia|]. by apply Rp.
Qed.
(** ** The locks a range overlaps *)

Definition overlap (a b : filelock) : Prop := start a < fin b /\ start b < fin a.
Definition adjacent (a b : filelock) : Prop := fin a = start b \/ fin b = start a.

Lemma overlap_covers a b : valid a -> valid b -> overlap a b <-> exists x, covers a x /\ covers b x.
Proof.
  intros Va Vb. pose proof (fin_range a Va). pose proof (fin_range b Vb). unfold overlap, covers. split.
  - intros [? ?]. exists (Z.max (start a) (start b)). lia.
  - intros (x & ? & ?). lia.
Qed.

Lemma share_space_range_spec n s e :
  first n = start (second n) -> valid (second n) -> 0 <= s < 2 ^ 64 -> s <= e ->
  share_space_range n s e = true <-> start (second n) <= e /\ s < fin (second n).
Proof.
  intros E Vl Hs He. pose proof (fin_range _ Vl). destruct Vl as [S1 L1 E1 _ _].
  unfold share_space_range, fin in *. rewrite E. destruct (Z.eqb_spec (length_ (second n)) 0) as [Z0|Z0].
  - rewrite orb_true_r, andb_true_r, orb_true_iff, andb_true_iff, !Z.leb_le, Z.ltb_lt. lia.
  - destruct E1 as [|E1]; [done|]. rewrite (u64_small (_ + _)), (u64_small (_ - 1)) by lia.
    rewrite orb_false_r, orb_true_iff, !andb_true_iff, !Z.leb_le, Z.ltb_lt. lia.
Qed.

Lemma share_space_spec n lock :
  first n = start (second n) -> valid (second n) -> valid lock ->
  share_space n lock = true <-> overlap (second n) lock.
Proof.
  intros E Vl Vc. pose proof (fin_range _ Vl) as F1. pose proof (fin_range _ Vc) as F2.
  pose proof Vl as [S1 L1 E1 _ _]. destruct Vc as [S2 L2 E2 _ _]. unfold share_space, overlap.
  set (f := fin (second n)) in *.
  assert (R : forall s e, 0 <= s < 2 ^ 64 -> s <= e ->
    share_space_range n s e = true <-> start (second n) <= e /\ s < f)
    by (intros; by apply share_space_range_spec).
  unfold fin, MAX_OFFSET in *. clearbody f.
  destruct (Z.eqb_spec (length_ lock) 0) as [Z0|Z0]; cbn [negb]; [rewrite R; lia|].
  destruct E2 as [|E2]; [done|]. rewrite (u64_small (_ - 1)), u64_small, R; lia.
Qed.

Lemma share_check_spec n lock :
  first n = start (second n) -> valid (second n) -> valid lock ->
  share_space n (neighbor_check_lock lock) = true <->
  start (second n) <= fin lock /\ start lock <= fin (second n).
Proof.
  intros E Vl Vc. pose proof (fin_range _ Vl) as F1. pose proof (fin_range _ Vc) as F2.
  pose proof Vl as [S1 L1 E1 _ _]. destruct Vc as [S2 L2 E2 T2 C2]. unfold share_space, neighbor_check_lock.
  set (f := fin (second n)) in *.
  assert (R : forall s e, 0 <= s < 2 ^ 64 -> s <= e ->
    share_space_range n s e = true <-> start (second n) <= e /\ s < f)
    by (intros; by apply share_space_range_spec).
  unfold fin, MAX_OFFSET in *. clearbody f.
  destruct (Z.eqb_spec (start lock) 0) as [S0|S0]; cbn [negb];
    destruct (Z.eqb_spec (length_ lock) 0) as [Z0|Z0]; cbn [negb].
  - rewrite (proj2 (Z.eqb_eq _ _) Z0). cbn [negb]. rewrite R; lia.
  - destruct E2 as [|E2]; [done|]. unfold with_length. simpl.
    rewrite (u64_small (length_ lock + 1)), (proj2 (Z.eqb_neq _ _)) by lia. cbn [negb].
    rewrite (u64_small (_ - 1)), u64_small, R; lia.
  - unfold with_start. simpl. rewrite (proj2 (Z.eqb_eq _ _) Z0). simpl.
    rewrite (proj2 (Z.eqb_eq _ _) Z0). cbn [negb]. rewrite u64_small, R; lia.
  - destruct E2 as [|E2]; [done|]. unfold with_length, with_start. simpl.
    rewrite (proj2 (Z.eqb_neq _ _) Z0). simpl.
    rewrite (u64_small (length_ lock + 2)), (proj2 (Z.eqb_neq _ _)) by lia. cbn [negb].
    rewrite (u64_small (start lock - 1)), (u64_small (_ + 2 - 1)), u64_small, R; lia.
Qed.

Definition is_neighbor (lock : filelock) (n : node) : bool :=
  negb (share_space n lock) &&
  (ceph_filelock_owner_equal (neighbor_check_lock lock) (second n) &&
   share_space n (neighbor_check_lock lock)).
Definition stops (lock : filelock) (n : node) : bool :=
  (first n <? start lock) && (type (second n) =? CEPH_LOCK_EXCL).
Definition apart (lock : filelock) (n : node) : Prop :=
  share_space n lock = false /\ is_neighbor lock n = false.

Lemma filter_none {A} (f : A -> bool) l : Forall (fun x => f x = false) l -> List.filter f l = [].
Proof. induction 1 as [|x l E _ IH]; simpl; [done|]. by rewrite E. Qed.

Lemma filter_rev {A} (f : A -> bool) l : List.filter f (rev l) = rev (List.filter f l).
Proof.
  induction l as [|x l IH]; simpl; [done|]. rewrite List.filter_app, IH. simpl.
  destruct (f x); simpl; [done|]. by rewrite app_nil_r.
Qed.

Lemma overlap_loop_filter lock back o nb :
  StronglySorted (fun a b => stops lock a = true -> apart lock b) back ->
  overlap_loop lock (neighbor_check_lock lock) back o nb =
  (ids (List.filter (fun n => share_space n lock) (rev back)) ++ o,
   ids (List.filter (is_neighbor lock) (rev back)) ++ nb).
Proof.
  intros Hs. revert o nb. induction Hs as [|n back Hs IH Hn]; intros o nb; [done|].
  simpl overlap_loop. fold (stops lock n). simpl rev. rewrite !List.filter_app. unfold ids.
  rewrite !map_app, <- !app_assoc. simpl.
  assert (Hstop : stops lock n = true ->
    List.filter (fun n => share_space n lock) (rev back) = [] /\
    List.filter (is_neighbor lock) (rev back) = []).
  { intros E. rewrite !filter_rev, !filter_none; [done|..];
      (eapply Forall_impl; [exact Hn|]; simpl; intros b Hb; by apply Hb). }
  unfold is_neighbor at 2. destruct (share_space n lock) eqn:E1; simpl.
  - destruct (stops lock n) eqn:E; [|by rewrite IH]. destruct (Hstop eq_refl) as [-> ->]. done.
  - destruct (ceph_filelock_owner_equal _ _ && _) eqn:E2; simpl;
      (destruct (stops lock n) eqn:E; [|by rewrite IH]); destruct (Hstop eq_refl) as [-> ->]; done.
Qed.

Lemma apart_spec lock n :
  first n = start (second n) -> valid (second n) -> valid lock ->
  fin (second n) < start lock \/ fin lock < start (second n) -> apart lock n.
Proof.
  intros E Vn Vl H. unfold apart, is_neighbor. pose proof (fin_range _ Vn). pose proof (fin_range _ Vl).
  destruct (share_space n lock) eqn:E1.
  { apply share_space_spec in E1; [|done..]. unfold overlap in E1. lia. }
  destruct (share_space n (neighbor_check_lock lock)) eqn:E2.
  { apply share_check_spec in E2; [|done..]. lia. }
  by rewrite andb_false_r.
Qed.

(** A node that stops the walk leaves nothing to find before it. *)
Lemma stops_apart s lock a b :
  wf_locks s -> valid lock -> a ∈ held_locks s -> b ∈ held_locks s -> nid a <> nid b ->
  first b <= first a -> stops lock a = true -> apart lock b.
Proof.
  intros [Hs Hc] Vl Ha Hb Hne Hle [Hst Ht]%andb_true_iff. rewrite Z.ltb_lt in Hst. rewrite Z.eqb_eq in Ht.
  pose proof (sh_valid _ _ (Hs 0)) as Hv. rewrite Forall_forall in Hv.
  destruct (Hv a Ha) as [Ea Va], (Hv b Hb) as [Eb Vb]. apply apart_spec; [done..|left].
  pose proof (fin_range _ Va). pose proof (fin_range _ Vb).
  destruct (Z.le_gt_cases (start lock) (fin (second b))) as [H1|H1]; [|lia]. exfalso.
  destruct (Hc a b Ha Hb Hne (first a)) as (_ & Hx & _); [unfold covers; lia..|]. rewrite Hx in Ht.
  discriminate.
Qed.

Lemma sorted_rev_take h p : sorted h -> StronglySorted (fun a b => first b <= first a) (rev (take p h)).
Proof.
  intros Hs. assert (Ht : sorted (take p h)).
  { revert p. induction Hs as [|x h Hs IH Hx]; intros [|p]; simpl; try constructor; [apply IH|].
    by apply Forall_take. }
  induction Ht as [|x l Hl IH Hx]; simpl; [constructor|].
  assert (Hr : Forall (fun y => first x <= first y) (rev l)).
  { rewrite Forall_forall in *. intros y Hy. apply Hx. apply list_elem_of_In. apply list_elem_of_In in Hy.
    by apply in_rev. }
  revert IH Hr. generalize (rev l). clear. intros l Hl. induction Hl as [|y l Hs IH Hy]; simpl; intros Hr.
  - by repeat constructor.
  - inversion Hr; subst. constructor; [by apply IH|]. apply Forall_app. split; [done|]. by repeat constructor.
Qed.

Lemma strongly_sorted_impl (R R' : node -> node -> Prop) l :
  StronglySorted R l -> NoDup (ids l) ->
  (forall a b, a ∈ l -> b ∈ l -> nid a <> nid b -> R a b -> R' a b) -> StronglySorted R' l.
Proof.
  unfold ids. induction 1 as [|x l Hs IH Hx]; intros Hnd HR; [constructor|]. simpl in Hnd.
  apply NoDup_cons in Hnd as [Hnx Hnd]. constructor.
  - apply IH; [done|]. intros a b Ha Hb. apply HR; by right.
  - rewrite Forall_forall in *. intros y Hy. apply HR; [by left|by right| |by apply Hx].
    intros E. apply Hnx. rewrite E. apply list_elem_of_fmap. eauto.
Qed.

Lemma get_overlapping_locks_spec lock s :
  wf_locks s -> valid lock ->
  get_overlapping_locks lock s =
  (ids (List.filter (fun n => share_space n lock) (held_locks s)),
   ids (List.filter (is_neighbor lock) (held_locks s))).
Proof.
  intros Hwf Vl. pose proof (wl_shape _ Hwf 0) as Hsh.
  pose proof (sh_valid _ _ Hsh) as Hv. pose proof (fin_range _ Vl) as Hfr.
  unfold get_overlapping_locks, back_from_last_before.
  set (e := if negb (length_ lock =? 0) then _ else _).
  assert (Hlast : forall n, n ∈ held_locks s -> e < first n -> apart lock n).
  { rewrite Forall_forall in Hv. intros n Hn He. destruct (Hv n Hn) as [En Vn].
    apply apart_spec; [done..|right]. unfold e, MAX_OFFSET, fin in *. destruct Vl as [S L E _ _], Vn as [Sn _ _ _ _].
    destruct (Z.eqb_spec (length_ lock) 0); cbn [negb] in He; [lia|].
    destruct E as [|E]; [done|]. rewrite u64_small in He; lia. }
  destruct (find_first_spec (fun n => e <? first n) (held_locks s)) as (l1 & l2 & Eh & -> & H1 & H2).
  assert (Hl2 : Forall (apart lock) l2).
  { rewrite Forall_forall. intros n Hn. apply Hlast; [rewrite Eh; set_solver|].
    pose proof (sh_sorted _ _ Hsh) as Hso. rewrite Eh in Hso. clear -Hso H2 Hn.
    induction l1 as [|x l1 IH]; simpl in Hso; [|inversion Hso; by apply IH].
    destruct l2 as [|y l2]; [by apply elem_of_nil in Hn|]. apply Z.ltb_lt in H2.
    inversion Hso as [|? ? _ Hf]; subst. rewrite Forall_forall in Hf.
    apply elem_of_cons in Hn as [->|Hn]; [done|]. specialize (Hf n Hn). lia. }
  assert (Et : take (length l1) (held_locks s) = l1) by (rewrite Eh; apply take_app_length).
  assert (F1 : List.filter (fun n => share_space n lock) (held_locks s) =
    List.filter (fun n => share_space n lock) l1 /\
    List.filter (is_neighbor lock) (held_locks s) = List.filter (is_neighbor lock) l1).
  { rewrite Eh, !List.filter_app, !(filter_none _ l2), !app_nil_r; [done|..];
      (eapply Forall_impl; [exact Hl2|]; by intros ? [? ?]). }
  destruct F1 as [-> ->]. destruct (Nat.eqb_spec (length l1) 0) as [E0|E0].
  - apply length_zero_iff_nil in E0. subst l1. simpl in Eh. rewrite Eh.
    destruct l2 as [|n l2]; [done|]. rewrite overlap_loop_filter by (repeat constructor).
    inversion Hl2 as [|? ? [A1 A2] _]; subst. simpl. by rewrite A1, A2.
  - rewrite overlap_loop_filter; [by rewrite Et, rev_involutive, !app_nil_r|].
    pose proof (sorted_rev_take _ (length l1) (sh_sorted _ _ Hsh)) as Hr. rewrite Et in Hr |- *.
    assert (Hin : forall a, a ∈ rev l1 -> a ∈ held_locks s).
    { intros a Ha. rewrite Eh. apply elem_of_app. left. apply list_elem_of_In, in_rev, list_elem_of_In, Ha. }
    eapply strongly_sorted_impl; [exact Hr| |].
    + pose proof (sh_ids _ _ Hsh) as Hi. rewrite Eh in Hi. unfold ids in *. rewrite map_app in Hi.
      apply NoDup_app in Hi as [Hi _]. rewrite map_rev. by rewrite <- (Permutation_rev (map nid l1)).
    + intros a b Ha Hb Hne Hle. apply (stops_apart s); auto.
Qed.

Lemma split_by_owner_spec own h l :
  NoDup (ids h) -> (forall n, n ∈ l -> n ∈ h) ->
  split_by_owner own h (ids l) =
  Some (ids (List.filter (fun n => negb (ceph_filelock_owner_equal (second n) own)) l),
        ids (List.filter (fun n => ceph_filelock_owner_equal (second n) own) l)).
Proof.
  intros Hnd. induction l as [|n l IH]; intros Hin; simpl; [done|].
  rewrite (proj2 (mm_at_elem h (nid n) n Hnd)) by (split; [apply Hin; by left|done]). obind.
  unfold ids in *. rewrite IH by (intros m Hm; apply Hin; by right). obind.
  by destruct (ceph_filelock_owner_equal (second n) own).
Qed.

Lemma contains_exclusive_spec h l :
  NoDup (ids h) -> (forall n, n ∈ l -> n ∈ h) ->
  contains_exclusive_lock h (ids l) =
  Some (second <$> List.find (fun n => type (second n) =? CEPH_LOCK_EXCL) l).
Proof.
  intros Hnd. induction l as [|n l IH]; intros Hin; simpl; [done|].
  rewrite (proj2 (mm_at_elem h (nid n) n Hnd)) by (split; [apply Hin; by left|done]). obind.
  destruct (_ =? _); [done|]. apply IH. intros m Hm. apply Hin. by right.
Qed.

Lemma locks_at_spec h l :
  NoDup (ids h) -> (forall n, n ∈ l -> n ∈ h) -> locks_at h (ids l) = Some (map second l).
Proof.
  intros Hnd. unfold locks_at, ids. induction l as [|n l IH]; intros Hin; simpl; [done|].
  rewrite (proj2 (mm_at_elem h (nid n) n Hnd)) by (split; [apply Hin; by left|done]). simpl.
  rewrite IH by (intros m Hm; apply Hin; by right). done.
Qed.

(** ** What is held *)

(** A client process holds a lock of some type on a byte. *)
Definition holds (s : lock_state) (k : Z * Z * Z) (t x : Z) : Prop :=
  exists n, n ∈ held_locks s /\ okey (second n) = k /\ type (second n) = t /\ covers (second n) x.

Lemma same_node s a b x :
  wf_locks s -> a ∈ held_locks s -> b ∈ held_locks s -> okey (second a) = okey (second b) ->
  covers (second a) x -> covers (second b) x -> a = b.
Proof.
  intros [Hs Hc] Ha Hb E Ca Cb. destruct (decide (nid a = nid b)) as [En|En].
  - apply (nid_inj (held_locks s)); [apply (Hs 0)|done..].
  - by destruct (Hc a b Ha Hb En x Ca Cb).
Qed.

Lemma holds_type s k t t' x : wf_locks s -> holds s k t x -> holds s k t' x -> t = t'.
Proof.
  intros Hwf (n & Hn & <- & <- & Cn) (m & Hm & Ek & <- & Cm).
  by rewrite (same_node s n m x).
Qed.

(** Different clients hold a byte only when both hold it shared. *)
Lemma holds_shared s k k' t t' x :
  wf_locks s -> holds s k t x -> holds s k' t' x -> k <> k' ->
  t = CEPH_LOCK_SHARED /\ t' = CEPH_LOCK_SHARED.
Proof.
  intros [Hs Hc] (n & Hn & <- & <- & Cn) (m & Hm & <- & <- & Cm) Hk.
  destruct (Hc n m Hn Hm) with x as (_ & ? & ?); [|done..].
  intros E. apply Hk. by rewrite (nid_inj _ n m (sh_ids _ _ (Hs 0)) Hn Hm E).
Qed.

(** Another owner's lock overlaps the new one and one of them is exclusive. *)
Definition conflict (s : lock_state) (new : filelock) : Prop :=
  exists n, n ∈ held_locks s /\ okey (second n) <> okey new /\ overlap (second n) new /\
    (type new = CEPH_LOCK_EXCL \/ type (second n) = CEPH_LOCK_EXCL).

(** ** Making room for a new lock *)

(** The new lock absorbs the lock of [n] when they are of one type. *)
Definition absorbs (new : filelock) (n : node) (new' : filelock) : Prop :=
  valid new' /\ okey new' = okey new /\ type new' = type new /\
  if decide (type (second n) = type new)
  then start new' = Z.min (start new) (start (second n)) /\ fin new' = Z.max (fin new) (fin (second n))
  else new' = new.

Lemma adjust_other to_end n new s :
  NoDup (ids (held_locks s)) -> n ∈ held_locks s -> type (second n) <> type new ->
  to_end = (length_ new =? 0) ->
  adjust_old to_end (nid n) new s = (fun s => (new, s)) <$> remove_old new (nid n) s.
Proof.
  intros Hi Hn Ht ->. unfold adjust_old, remove_old.
  rewrite (proj2 (mm_at_elem _ _ n Hi)) by done. obind. cbv zeta.
  rewrite (proj2 (Z.eqb_neq _ _) Ht). destruct (length_ new =? 0); cbn [orb].
  { by destruct (start (second n) <? start new). }
  destruct (length_ (second n) =? 0); cbn [orb].
  - rewrite Z.leb_antisym. by destruct (start (second n) <? start new).
  - by destruct (start (second n) <? start new).
Qed.

Lemma cut_out_whole new n s :
  start new <= start (second n) -> fin (second n) <= fin new ->
  cut_out new n s = held_trim (client (second n)) (held_count (client (second n)) (-1) (held_erase (nid n) s)).
Proof.
  intros H1 H2. unfold cut_out. rewrite (proj2 (Z.ltb_ge _ _) H1), (proj2 (Z.ltb_ge _ _) H2). done.
Qed.

Lemma merge_absorbs new n st len :
  valid new -> valid (second n) -> type (second n) = type new ->
  st = Z.min (start new) (start (second n)) ->
  (len = 0 /\ (length_ new = 0 \/ length_ (second n) = 0)) \/
  (length_ new <> 0 /\ length_ (second n) <> 0 /\ st + len = Z.max (fin new) (fin (second n))) ->
  absorbs new n (with_length len (with_start st new)).
Proof.
  intros Vn Vo Ht -> Hl. pose proof (fin_range _ Vn). pose proof (fin_range _ Vo).
  destruct Vn as [S1 L1 E1 T1 C1], Vo as [S2 L2 E2 T2 C2]. unfold absorbs. rewrite decide_True by done.
  destruct Hl as [[-> Hz]|(N1 & N2 & E)].
  - split_and!; [split; simpl; auto; lia|done|done|done|]. unfold fin in *. simpl.
    destruct (Z.eqb_spec (length_ new) 0), (Z.eqb_spec (length_ (second n)) 0); lia.
  - destruct E1 as [|E1], E2 as [|E2]; try done. unfold fin in *. simpl in *.
    rewrite (proj2 (Z.eqb_neq _ _) N1), (proj2 (Z.eqb_neq _ _) N2) in *.
    split_and!; [split; simpl; auto; lia|done|done|done|].
    rewrite (proj2 (Z.eqb_neq _ _)) by lia. lia.
Qed.

Lemma absorbs_whole new n new' s :
  absorbs new n new' -> type (second n) = type new ->
  cut_out new' n s = held_trim (client (second n)) (held_count (client (second n)) (-1) (held_erase (nid n) s)).
Proof.
  intros (_ & _ & _ & H) Ht. rewrite decide_True in H by done. apply cut_out_whole; lia.
Qed.

Lemma adjust_old_spec to_end n new s :
  lim <= 2 ^ 31 -> wf_locks s -> n ∈ held_locks s -> valid new -> overlap (second n) new -> to_end = (length_ new =? 0) ->
  exists new', adjust_old to_end (nid n) new s = Some (new', cut_out new' n s) /\ absorbs new n new'.
Proof.
  intros Hlim Hwf Hn Vn Hov ->. pose proof (wl_shape _ Hwf 0) as Hsh. pose proof (sh_ids _ _ Hsh) as Hi.
  pose proof (sh_valid _ _ Hsh) as Hv. rewrite Forall_forall in Hv. destruct (Hv n Hn) as [_ Vo].
  destruct (decide (type (second n) = type new)) as [Ht|Ht].
  2:{ exists new. rewrite adjust_other, remove_old_cut by done. split; [done|].
      unfold absorbs. by rewrite decide_False. }
  assert (Hm : forall st len, absorbs new n (with_length len (with_start st new)) ->
    Some (with_length len (with_start st new),
      held_trim (client (second n)) (held_count (client (second n)) (-1) (held_erase (nid n) s))) =
    Some (with_length len (with_start st new), cut_out (with_length len (with_start st new)) n s)).
  { intros st len Ha. by rewrite (absorbs_whole new n) by done. }
  unfold adjust_old. rewrite (proj2 (mm_at_elem _ _ n Hi)) by done. obind. cbv zeta.
  rewrite (proj2 (Z.eqb_eq _ _) Ht). pose proof (fin_range _ Vn). pose proof (fin_range _ Vo).
  destruct (_ || _) eqn:E0.
  - eexists. split; [apply Hm|]; (apply merge_absorbs; [done..| |left]);
      [destruct (Z.ltb_spec (start new) (start (second n))); lia| |
       destruct (Z.ltb_spec (start new) (start (second n))); lia|];
      rewrite orb_true_iff, !Z.eqb_eq in E0; done.
  - rewrite orb_false_iff, !Z.eqb_neq in E0. destruct E0 as [N1 N2].
    assert (Ha : absorbs new n
      (with_length (Z.max (fin new) (fin (second n)) - Z.min (start new) (start (second n)))
        (with_start (Z.min (start new) (start (second n))) new))).
    { apply merge_absorbs; [done..|]. right. split_and!; [done..|]. lia. }
    eexists. split; [|exact Ha]. rewrite <- Hm by exact Ha. clear Hm Ha.
    destruct Vn as [S1 L1 E1 _ _], Vo as [S2 L2 E2 _ _], E1 as [|E1], E2 as [|E2]; try done.
    unfold fin in *. rewrite (proj2 (Z.eqb_neq _ _) N1), (proj2 (Z.eqb_neq _ _) N2) in *.
    rewrite (u64_small (start new + _)), (u64_small (start (second n) + _)), !(u64_small (_ - 1)) by lia.
    set (e := if _ <? _ then _ else _ : Z).
    assert (Ee : e = Z.max (start new + length_ new) (start (second n) + length_ (second n)) - 1)
      by (unfold e; zcase; lia).
    assert (Es : (if start (second n) <? start new then start (second n) else start new) =
      Z.min (start new) (start (second n))) by (zcase; lia).
    rewrite s32_small, Es, (u64_small e), (u64_small (e - _)), u64_small by lia. repeat f_equal; lia.
Qed.

Lemma coalesce_spec n new s :
  wf_locks s -> n ∈ held_locks s -> valid new -> adjacent (second n) new ->
  exists new' s', coalesce (nid n) new s = Some (new', s') /\ absorbs new n new' /\
    s' = if decide (type (second n) = type new) then cut_out new' n s
         else held_trim (client (second n)) s.
Proof.
  intros Hwf Hn Vn Hadj. pose proof (wl_shape _ Hwf 0) as Hsh. pose proof (sh_ids _ _ Hsh) as Hi.
  pose proof (sh_valid _ _ Hsh) as Hv. rewrite Forall_forall in Hv. destruct (Hv n Hn) as [_ Vo].
  unfold coalesce. rewrite (proj2 (mm_at_elem _ _ n Hi)) by done. obind. cbv zeta.
  destruct (decide (type (second n) = type new)) as [Ht|Ht].
  2:{ rewrite (proj2 (Z.eqb_neq _ _) Ht). obind. do 2 eexists. split; [done|]. split; [|done].
      unfold absorbs. by rewrite decide_False. }
  rewrite (proj2 (Z.eqb_eq _ _) Ht).
  assert (Hm : forall r st len, absorbs new n (with_length len (with_start st new)) ->
    r = Some (with_length len (with_start st new)) ->
    exists new' s',
    ('(new0, s0) ← (new0 ← r; Some (new0, held_count (client (second n)) (-1) (held_erase (nid n) s)));
     Some (new0, held_trim (client (second n)) s0)) = Some (new', s') /\
    absorbs new n new' /\ s' = cut_out new' n s).
  { intros r st len Ha ->. obind. do 2 eexists. split; [done|]. split; [exact Ha|].
    by rewrite (absorbs_whole new n) by done. }
  pose proof (fin_range _ Vn) as F1. pose proof (fin_range _ Vo) as F2.
  assert (Hw : forall st, with_start st new = with_length (length_ new) (with_start st new)) by done.
  assert (Hs : forall len, with_length len new = with_length len (with_start (start new) new)) by done.
  pose proof Vn as [S1 L1 E1 _ _]. pose proof Vo as [S2 L2 E2 _ _]. unfold adjacent, fin in *.
  destruct (Z.eqb_spec (length_ new) 0) as [Z1|Z1].
  { destruct (Z.eqb_spec (length_ (second n)) 0) as [Z2|Z2]; [lia|].
    rewrite (u64_small (start (second n) + _)), (proj2 (Z.eqb_eq _ _)) by lia. rewrite Hw.
    eapply Hm; [|done]. apply merge_absorbs; [done..|lia|]. left. split; [done|by left]. }
  destruct E1 as [|E1]; [done|]. destruct (Z.eqb_spec (length_ (second n)) 0) as [Z2|Z2].
  { rewrite (u64_small (start new + _)), (proj2 (Z.eqb_eq _ _)) by lia. rewrite Hs.
    eapply Hm; [|done]. apply merge_absorbs; [done..|lia|]. left. split; [done|by right]. }
  destruct E2 as [|E2]; [done|]. rewrite (u64_small (start (second n) + _)), (u64_small (start new + _)) by lia.
  rewrite (u64_small (_ + length_ new)) by lia.
  destruct (Z.eqb_spec (start (second n) + length_ (second n)) (start new)) as [Q|Q].
  - eapply Hm; [|done]. apply merge_absorbs; [done..|lia|right]. split_and!; [done..|].
    unfold fin. rewrite (proj2 (Z.eqb_neq _ _) Z1), (proj2 (Z.eqb_neq _ _) Z2). lia.
  - rewrite (proj2 (Z.eqb_eq _ _)) by lia. rewrite Hs. eapply Hm; [|done].
    apply merge_absorbs; [done..|lia|right]. split_and!; [done..|].
    unfold fin. rewrite (proj2 (Z.eqb_neq _ _) Z1), (proj2 (Z.eqb_neq _ _) Z2). lia.
Qed.

(** The state while [new0] makes its room, grown to [new], with the
    overlapping locks [olds] and the neighbours [nbs] still to visit. *)
Record adjusting (s0 : lock_state) (new0 : filelock) (olds nbs : list node)
  (new : filelock) (s : lock_state) : Prop := {
  ad_wf : wf_locks s;
  ad_valid : valid new;
  ad_key : okey new = okey new0;
  ad_type : type new = type new0;
  ad_up : forall x, covers new0 x -> covers new x;
  ad_down : forall x, covers new x -> covers new0 x \/ holds s0 (okey new0) (type new0) x;
  ad_rest : forall k t x, ~ (k = okey new0 /\ covers new x) -> holds s k t x <-> holds s0 k t x;
  ad_only : forall m, m ∈ held_locks s -> okey (second m) = okey new0 -> overlap (second m) new -> m ∈ olds;
  ad_olds : forall m, m ∈ olds ->
    m ∈ held_locks s /\ okey (second m) = okey new0 /\ overlap (second m) new;
  ad_nbs : forall m, m ∈ nbs ->
    m ∈ held_locks s /\ okey (second m) = okey new0 /\ adjacent (second m) new;
  ad_sorted : sorted olds;
  ad_nodup : NoDup (olds ++ nbs);
  ad_waiting : waiting_locks s = waiting_locks s0;
  ad_wcounts : client_waiting_lock_counts s = client_waiting_lock_counts s0;
  ad_ltype : ltype s = ltype s0;
  ad_next : (next_id s0 <= next_id s)%nat
}.

Lemma absorbs_covers new n new' :
  absorbs new n new' -> start (second n) <= fin new -> start new <= fin (second n) ->
  valid new -> valid (second n) ->
  forall x, covers new' x <->
    covers new x \/ (type (second n) = type new /\ covers (second n) x).
Proof.
  intros (V' & _ & _ & H) H1 H2 Vn Vo x. pose proof (fin_range _ Vn). pose proof (fin_range _ Vo).
  unfold covers. destruct (decide _) as [Ht|Ht]; [lia|]. subst. intuition.
Qed.

Lemma held_holds s n x : n ∈ held_locks s -> covers (second n) x ->
  holds s (okey (second n)) (type (second n)) x.
Proof. intros Hn Cx. by exists n. Qed.

Lemma carved_holds cut n s s' k t x :
  carved cut n s s' -> n ∈ held_locks s -> NoDup (ids (held_locks s)) ->
  ~ (k = okey (second n) /\ covers cut x) -> holds s' k t x <-> holds s k t x.
Proof.
  intros Hca Hn Hi Hx. split.
  - intros (m & Hm & <- & <- & Cm). destruct (ca_piece _ _ _ _ Hca m Hm) as [[Ho _]|(_ & Ek & Et & Hp)].
    + by exists m.
    + exists n. split_and!; [done..|]. by apply Hp.
  - intros (m & Hm & <- & <- & Cm). destruct (decide (nid m = nid n)) as [E|E].
    + rewrite (nid_inj _ m n Hi Hm Hn E) in *. destruct (ca_rest _ _ _ _ Hca x Cm) as (p & ? & ? & ? & ?).
      { intros Cx. by apply Hx. }
      by exists p.
    + exists m. split_and!; [by apply (ca_keep _ _ _ _ Hca)|done..].
Qed.

(** The locks of one owner do not overlap. *)
Lemma own_locks_apart s m n :
  wf_locks s -> m ∈ held_locks s -> n ∈ held_locks s -> okey (second m) = okey (second n) -> m <> n ->
  fin (second m) <= start (second n) \/ fin (second n) <= start (second m).
Proof.
  intros Hwf Hm Hn Hk Hne. pose proof (sh_valid _ _ (wl_shape _ Hwf 0)) as Hv. rewrite Forall_forall in Hv.
  pose proof (fin_range _ (proj2 (Hv m Hm))). pose proof (fin_range _ (proj2 (Hv n Hn))).
  destruct (Z.le_gt_cases (fin (second m)) (start (second n))) as [|G1]; [by left|].
  destruct (Z.le_gt_cases (fin (second n)) (start (second m))) as [|G2]; [by right|].
  destruct Hne. apply (same_node s m n (Z.max (start (second m)) (start (second n))));
    [done..|unfold covers; lia|unfold covers; lia].
Qed.

Lemma adjusting_member s0 new0 olds nbs new s n :
  adjusting s0 new0 olds nbs new s -> n ∈ olds ++ nbs ->
  n ∈ held_locks s /\ okey (second n) = okey new0 /\ valid (second n) /\
  start (second n) <= fin new /\ start new <= fin (second n).
Proof.
  intros Had Hin. assert (H : n ∈ held_locks s /\ okey (second n) = okey new0 /\
    (overlap (second n) new \/ adjacent (second n) new)).
  { apply elem_of_app in Hin as [Hin|Hin];
      [destruct (ad_olds _ _ _ _ _ _ Had n Hin) as (? & ? & ?)|
       destruct (ad_nbs _ _ _ _ _ _ Had n Hin) as (? & ? & ?)]; auto. }
  destruct H as (Hn & Hk & Ht).
  pose proof (sh_valid _ _ (wl_shape _ (ad_wf _ _ _ _ _ _ Had) 0)) as Hv. rewrite Forall_forall in Hv.
  destruct (Hv n Hn) as [_ Vo]. pose proof (fin_range _ Vo).
  pose proof (fin_range _ (ad_valid _ _ _ _ _ _ Had)).
  split_and!; [done..| |]; destruct Ht as [[? ?]|[?|?]]; lia.
Qed.

(** Absorbing one lock that touches the new one. *)
Lemma adjusting_step s0 new0 olds nbs new s n new' olds' nbs' :
  adjusting s0 new0 olds nbs new s -> olds ++ nbs = n :: olds' ++ nbs' ->
  (forall m, m ∈ olds <-> m ∈ olds' \/ (m = n /\ n ∈ olds)) -> (forall m, m ∈ nbs' -> m ∈ nbs) ->
  sorted olds' -> absorbs new n new' -> overlap (second n) new' ->
  adjusting s0 new0 olds' nbs' new' (cut_out new' n s).
Proof.
  intros Had Hsplit Hsub Hsub' Hso' Hab Hov.
  destruct (adjusting_member _ _ _ _ _ _ n Had) as (Hn & Kn & Vo & Ht1 & Ht2); [rewrite Hsplit; by left|].
  destruct Had as [Hwf Vn Hk Ht Hup Hdown Hrest Honly Holds Hnbs Hso Hnd Hw1 Hw2 Hw3 Hnx].
  rewrite Hsplit in Hnd. apply NoDup_cons in Hnd as [Hnin Hnd].
  pose proof (sh_ids _ _ (wl_shape _ Hwf 0)) as Hi.
  pose proof (fin_range _ Vn) as F1. pose proof (fin_range _ Vo) as F2.
  pose proof (absorbs_covers _ _ _ Hab Ht1 Ht2 Vn Vo) as Hcov. destruct Hab as (V' & K' & T' & Hhull).
  assert (Hca : carved new' n s (cut_out new' n s)) by (destruct Hov; by apply cut_out_spec).
  assert (Hoth : forall m, m ∈ held_locks s -> okey (second m) = okey new0 -> m <> n ->
    fin (second m) <= start (second n) \/ fin (second n) <= start (second m))
    by (intros; apply (own_locks_apart s); [done..|congruence|done]).
  assert (Hrange : forall m, m ∈ held_locks s -> start (second m) < fin (second m)).
  { intros m Hm. pose proof (sh_valid _ _ (wl_shape _ Hwf 0)) as Hv. rewrite Forall_forall in Hv.
    apply fin_range, Hv, Hm. }
  assert (Hmem : forall m, m ∈ olds' ++ nbs' -> m <> n) by (intros m Hm ->; done).
  pose proof (ca_wf _ _ _ _ Hca) as Hwf'. pose proof (fin_range _ V') as F3.
  split; try done; try congruence.
  - intros x Cx. apply Hcov. left. by apply Hup.
  - intros x [Cx|[Et Cx]]%Hcov; [by apply Hdown|].
    destruct (decide (start new <= x < fin new)) as [D|D]; [by apply Hdown|right].
    apply Hrest; [by intros [_ C]|]. rewrite <- Kn, <- Ht, <- Et. by apply held_holds.
  - intros k t x Hx. rewrite (carved_holds _ _ _ _ _ _ _ Hca Hn Hi) by (by rewrite Kn).
    apply Hrest. intros [-> Cx]. apply Hx. split; [done|]. apply Hcov. by left.
  - intros m Hm Km Ho. destruct (ca_piece _ _ _ _ Hca m Hm) as [[Ho1 Hne]|(_ & _ & _ & Hp)].
    + assert (m <> n) by congruence. assert (Hmo : m ∈ olds).
      { apply Honly; [done..|]. pose proof (Hrange m Ho1). destruct (Hoth m Ho1 Km) as [Q|Q]; [done|..];
          unfold overlap in *; destruct (decide _); subst; lia. }
      destruct (proj1 (Hsub m) Hmo) as [|[E _]]; [done|congruence].
    + pose proof (sh_valid _ _ (wl_shape _ Hwf' 0)) as Hv'. rewrite Forall_forall in Hv'.
      apply overlap_covers in Ho as (x & C1 & C2); [|by apply Hv'|done]. by destruct (Hp x C1).
  - intros m Hm. assert (m <> n) by (apply Hmem; set_solver).
    destruct (Holds m) as (Hm1 & Km & Ho); [apply Hsub; by left|].
    split_and!; [apply (ca_keep _ _ _ _ Hca); [done|]|done|].
    { intros E. by apply (nid_inj _ m n Hi) in E. }
    unfold overlap in *. destruct (decide _); subst; lia.
  - intros m Hm. assert (m <> n) by (apply Hmem; set_solver).
    destruct (Hnbs m) as (Hm1 & Km & Ho); [by apply Hsub'|].
    split_and!; [apply (ca_keep _ _ _ _ Hca); [done|]|done|].
    { intros E. by apply (nid_inj _ m n Hi) in E. }
    pose proof (Hrange m Hm1). unfold adjacent in *.
    destruct (Hoth m Hm1 Km) as [Q|Q]; [done|..]; destruct (decide _); subst; lia.
  - by rewrite (ca_waiting _ _ _ _ Hca).
  - by rewrite (ca_wcounts _ _ _ _ Hca).
  - by rewrite (ca_type _ _ _ _ Hca).
  - pose proof (ca_next _ _ _ _ Hca). lia.
Qed.

Lemma to_end_fin l : valid l -> (length_ l =? 0) = (fin l =? 2 ^ 64).
Proof.
  intros [? ? E _ _]. unfold fin. destruct (Z.eqb_spec (length_ l) 0); [done|].
  destruct E; [done|]. symmetry. apply Z.eqb_neq. lia.
Qed.

Lemma adjust_olds_spec s0 new0 olds nbs new s to_end :
  lim <= 2 ^ 31 -> adjusting s0 new0 olds nbs new s -> olds = [] \/ to_end = (length_ new =? 0) ->
  exists new' s', adjust_olds to_end (ids olds) new s = Some (new', s') /\
    adjusting s0 new0 [] nbs new' s'.
Proof.
  intros Hlim. revert new s. induction olds as [|n olds IH]; intros new s Had Hflag; simpl; [by exists new, s|].
  destruct Hflag as [|Hflag]; [done|].
  destruct (adjusting_member _ _ _ _ _ _ n Had) as (Hn & Kn & Vo & _ & _); [by left|].
  destruct (ad_olds _ _ _ _ _ _ Had n) as (_ & _ & Hov); [by left|].
  pose proof (ad_wf _ _ _ _ _ _ Had) as Hwf. pose proof (ad_valid _ _ _ _ _ _ Had) as Vn.
  destruct (adjust_old_spec to_end n new s) as (new' & -> & Hab); [done..|]. obind.
  pose proof (ad_sorted _ _ _ _ _ _ Had) as Hso. inversion Hso as [|? ? Hso' Hfst]; subst.
  assert (Had' : adjusting s0 new0 olds nbs new' (cut_out new' n s)).
  { eapply adjusting_step; [exact Had|done| |done|done|done|].
    - intros m. rewrite elem_of_cons. split; [|naive_solver]. intros [->|?]; [right|by left].
      split; [done|by left].
    - destruct Hab as (V' & _ & _ & Hh). unfold overlap in *. destruct (decide _); [|by subst].
      pose proof (fin_range _ Vn). pose proof (fin_range _ Vo). lia. }
  apply IH; [done|]. destruct olds as [|m olds]; [by left|right].
  (* an unbounded lock of the owner is its last *)
  assert (Hlast : fin (second n) < 2 ^ 64).
  { destruct (adjusting_member _ _ _ _ _ _ m Had) as (Hm & Km & Vm & _ & _); [by right; left|].
    pose proof (fin_range _ Vm). pose proof (fin_range _ Vo). apply Forall_inv in Hfst.
    pose proof (sh_valid _ _ (wl_shape _ Hwf 0)) as Hv. rewrite Forall_forall in Hv.
    rewrite (proj1 (Hv m Hm)), (proj1 (Hv n Hn)) in Hfst.
    destruct (own_locks_apart s n m) as [?|?]; [done..|congruence| |lia|lia].
    intros ->. pose proof (ad_nodup _ _ _ _ _ _ Had) as Hnd. simpl in Hnd.
    apply NoDup_cons in Hnd as [Hnd _]. apply Hnd. by left. }
  destruct Hab as (V' & _ & _ & Hh). rewrite !to_end_fin by done.
  destruct (decide _); [|by subst]. destruct Hh as [_ ->]. zcase.
Qed.

Lemma wf_frame s s' :
  wf_locks s -> held_locks s' = held_locks s -> next_id s' = next_id s ->
  client_held_lock_counts s' = client_held_lock_counts s -> wf_locks s'.
Proof.
  intros [Hs Hc] E1 E2 E3. split; [|by rewrite E1]. intros c. destruct (Hs c) as [? ? ? ? ? ? ?].
  split; rewrite ?E1, ?E2, ?E3; done.
Qed.

Lemma wf_trim s c : wf_locks s -> 0 <= c < 2 ^ 63 -> wf_locks (held_trim c s).
Proof. intros [Hs Hc] Hr. split; [|done]. by apply shape_trim. Qed.

Lemma coalesce_all_spec s0 new0 nbs new s :
  adjusting s0 new0 [] nbs new s ->
  exists new' s', coalesce_all (ids nbs) new s = Some (new', s') /\
    adjusting s0 new0 [] [] new' s'.
Proof.
  revert new s. induction nbs as [|n nbs IH]; intros new s Had; simpl; [by exists new, s|].
  destruct (adjusting_member _ _ _ _ _ _ n Had) as (Hn & Kn & Vo & _ & _); [by left|].
  destruct (ad_nbs _ _ _ _ _ _ Had n) as (_ & _ & Hadj); [by left|].
  pose proof (ad_wf _ _ _ _ _ _ Had) as Hwf. pose proof (ad_valid _ _ _ _ _ _ Had) as Vn.
  destruct (coalesce_spec n new s) as (new' & s' & -> & Hab & Es'); [done..|]. obind. apply IH.
  subst s'. destruct (decide (type (second n) = type new)) as [Ht|Ht].
  - eapply adjusting_step; [exact Had|done| | |constructor|done|].
    + set_solver.
    + set_solver.
    + destruct Hab as (V' & _ & _ & Hh). rewrite decide_True in Hh by done. unfold overlap.
      pose proof (fin_range _ Vn). pose proof (fin_range _ Vo). lia.
  - destruct Hab as (_ & _ & _ & Hh). rewrite decide_False in Hh by done. subst new'.
    destruct Had as [_ _ Hk Htp Hup Hdown Hrest Honly Holds Hnbs Hso Hnd Hw1 Hw2 Hw3 Hnx].
    split; try done.
    + apply wf_trim; [done|]. destruct Vo; lia.
    + intros m Hm. apply Hnbs. by right.
    + by apply NoDup_cons in Hnd as [_ Hnd].
Qed.

(** ** Setting a lock *)

Lemma wf_insert s l :
  wf_locks s -> valid l -> (forall m, m ∈ held_locks s -> compat l (second m)) ->
  wf_locks (held_count (client l) 1 (held_insert l s)).
Proof.
  intros [Hs Hc] Vl Hnew. pose proof (shape_insert (client l) s l (Hs _) Vl eq_refl) as Hsh.
  split.
  - intros c. destruct Hsh as [? ? ? ? ? Hcn Hz]. split; try done. intros d _.
    destruct (decide (d = client l)) as [->|Hd]; [|by apply Hz]. intros E.
    specialize (Hcn (client l)). rewrite E in Hcn. simpl in Hcn. rewrite cnt_insert in Hcn.
    rewrite of_client_valid, Z.eqb_refl in Hcn by done. pose proof (cnt_nonneg (client l) (held_locks s)). lia.
  - intros a b. simpl. rewrite !elem_insert.
    pose proof (sh_fresh _ _ (Hs 0)) as Hf. rewrite Forall_forall in Hf.
    intros [->|Ha] [->|Hb] Hne; simpl in *; [done|by apply Hnew| |by apply Hc].
    by apply compat_sym, Hnew.
Qed.

Lemma holds_insert s l k t x :
  holds (held_count (client l) 1 (held_insert l s)) k t x <->
  (k = okey l /\ t = type l /\ covers l x) \/ holds s k t x.
Proof.
  unfold holds. simpl. split.
  - intros (n & [->|Hn]%elem_insert & <- & <- & Cx); [by left|right]. by exists n.
  - intros [(-> & -> & Cx)|(n & Hn & ? & ? & ?)].
    + eexists. split; [apply elem_insert; by left|]. done.
    + exists n. split; [apply elem_insert; by right|]. done.
Qed.

Definition overlaps_of (lock : filelock) (s : lock_state) : list node :=
  List.filter (fun n => share_space n lock) (held_locks s).
Definition others_of (lock : filelock) (s : lock_state) : list node :=
  List.filter (fun n => negb (ceph_filelock_owner_equal (second n) lock)) (overlaps_of lock s).
Definition own_of (lock : filelock) (s : lock_state) : list node :=
  List.filter (fun n => ceph_filelock_owner_equal (second n) lock) (overlaps_of lock s).

Lemma elem_overlaps lock s n :
  wf_locks s -> valid lock -> n ∈ overlaps_of lock s <-> n ∈ held_locks s /\ overlap (second n) lock.
Proof.
  intros Hwf Vl. unfold overlaps_of. rewrite !list_elem_of_In, filter_In, <- list_elem_of_In.
  pose proof (sh_valid _ _ (wl_shape _ Hwf 0)) as Hv. rewrite Forall_forall in Hv.
  split; intros [Hn Hs]; (split; [done|]); destruct (Hv n Hn); by apply share_space_spec.
Qed.

Lemma elem_others lock s n :
  wf_locks s -> valid lock ->
  n ∈ others_of lock s <-> n ∈ held_locks s /\ overlap (second n) lock /\ okey (second n) <> okey lock.
Proof.
  intros Hwf Vl. unfold others_of. rewrite list_elem_of_In, filter_In, <- list_elem_of_In, elem_overlaps by done.
  rewrite negb_true_iff, <- not_true_iff_false, owner_equal_okey. tauto.
Qed.

Lemma elem_own lock s n :
  wf_locks s -> valid lock ->
  n ∈ own_of lock s <-> n ∈ held_locks s /\ overlap (second n) lock /\ okey (second n) = okey lock.
Proof.
  intros Hwf Vl. unfold own_of. rewrite list_elem_of_In, filter_In, <- list_elem_of_In, elem_overlaps by done.
  rewrite owner_equal_okey. tauto.
Qed.

Lemma elem_neighbors lock s n :
  wf_locks s -> valid lock ->
  n ∈ List.filter (is_neighbor lock) (held_locks s) <->
  n ∈ held_locks s /\ okey (second n) = okey lock /\ adjacent (second n) lock.
Proof.
  intros Hwf Vl. rewrite list_elem_of_In, filter_In, <- list_elem_of_In.
  pose proof (sh_valid _ _ (wl_shape _ Hwf 0)) as Hv. rewrite Forall_forall in Hv.
  assert (Hk : okey (neighbor_check_lock lock) = okey lock)
    by (unfold neighbor_check_lock; repeat case_match; done).
  split; intros (Hn & H); destruct (Hv n Hn) as [E Vn]; pose proof (fin_range _ Vn); pose proof (fin_range _ Vl).
  - unfold is_neighbor in H. rewrite !andb_true_iff, negb_true_iff, <- not_true_iff_false in H.
    rewrite share_space_spec, owner_equal_okey, share_check_spec, Hk in H by done.
    destruct H as (? & ? & ?). split_and!; [done..|]. unfold overlap, adjacent in *. lia.
  - split; [done|]. unfold is_neighbor. rewrite !andb_true_iff, negb_true_iff, <- not_true_iff_false.
    rewrite share_space_spec, owner_equal_okey, share_check_spec, Hk by done.
    destruct H as (? & ?). unfold overlap, adjacent in *. split_and!; [lia|done|lia|lia].
Qed.

Lemma filter_nodup {A} (f : A -> bool) l : NoDup l -> NoDup (List.filter f l).
Proof. rewrite !NoDup_ListNoDup. apply List.NoDup_filter. Qed.

Lemma sorted_filter f h : sorted h -> sorted (List.filter f h).
Proof.
  induction 1 as [|x h Hs IH Hx]; simpl; [constructor|]. destruct (f x); [|done]. constructor; [done|].
  rewrite Forall_forall in *. intros y Hy. apply list_elem_of_In, filter_In in Hy as [Hy _].
  by apply Hx, list_elem_of_In.
Qed.

Lemma adjusting_start s new :
  wf_locks s -> valid new ->
  adjusting s new (own_of new s) (List.filter (is_neighbor new) (held_locks s)) new s.
Proof.
  intros Hwf Vn. pose proof (wl_shape _ Hwf 0) as Hsh.
  assert (Hnd : NoDup (held_locks s)) by (eapply NoDup_fmap_1, (sh_ids _ _ Hsh)).
  split; try done.
  - intros x ?. by left.
  - intros m Hm Hk Ho. by apply elem_own.
  - intros m Hm. apply elem_own in Hm as (? & ? & ?); done.
  - intros m Hm. apply elem_neighbors in Hm as (? & ? & ?); done.
  - apply sorted_filter, sorted_filter, (sh_sorted _ _ Hsh).
  - apply NoDup_app. split_and!; [by repeat apply filter_nodup| |by apply filter_nodup].
    intros m Hm Hm'. apply elem_own in Hm as (_ & [? ?] & _); [|done..].
    apply elem_neighbors in Hm' as (_ & _ & [?|?]); [lia|lia|done..].
Qed.

Lemma remove_waiting_frame me fl s g :
  let s' := (remove_waiting me fl s g).1 in
  held_locks s' = held_locks s /\ next_id s' = next_id s /\
  client_held_lock_counts s' = client_held_lock_counts s /\ ltype s' = ltype s.
Proof. unfold remove_waiting. by destruct (find_waiting _ _). Qed.

(** The modes after a lock is set: its own on its range, the rest as it was. *)
Definition overlay (s : lock_state) (new : filelock) (s' : lock_state) : Prop :=
  forall k t x,
    (k = okey new /\ covers new x -> holds s' k t x <-> t = type new) /\
    (~ (k = okey new /\ covers new x) -> holds s' k t x <-> holds s k t x).

Lemma adjusted_compat s0 new0 new s m :
  wf_locks s0 -> ~ conflict s0 new0 -> valid new0 ->
  adjusting s0 new0 [] [] new s -> m ∈ held_locks s -> compat new (second m).
Proof.
  intros Hwf0 Hno V0 Had Hm x Cn Cm. pose proof (ad_wf _ _ _ _ _ _ Had) as Hwf.
  pose proof (sh_valid _ _ (wl_shape _ Hwf 0)) as Hv. rewrite Forall_forall in Hv.
  pose proof (ad_valid _ _ _ _ _ _ Had) as Vn. rewrite (ad_key _ _ _ _ _ _ Had), (ad_type _ _ _ _ _ _ Had).
  assert (Hne : okey (second m) <> okey new0).
  { intros E. assert (Hin : m ∈ @nil node); [|by apply elem_of_nil in Hin].
    apply (ad_only _ _ _ _ _ _ Had m Hm E). apply overlap_covers; [by apply Hv|done|by exists x]. }
  split; [congruence|].
  assert (Hh : holds s0 (okey (second m)) (type (second m)) x).
  { apply (ad_rest _ _ _ _ _ _ Had); [by intros [? _]|]. by apply held_holds. }
  destruct (ad_down _ _ _ _ _ _ Had x Cn) as [C0|H0].
  - destruct Hh as (n & Hn & Ek & Et & Cx). pose proof (sh_valid _ _ (wl_shape _ Hwf0 0)) as Hv0.
    rewrite Forall_forall in Hv0. rewrite <- Et.
    assert (Hov : overlap (second n) new0) by (apply overlap_covers; [by apply Hv0|done|by exists x]).
    destruct (va_type _ V0) as [T1|T1], (va_type _ (proj2 (Hv0 n Hn))) as [T2|T2]; try done;
      destruct Hno; exists n; split_and!; try done; rewrite ?Ek; auto.
  - destruct (holds_shared s0 _ _ _ _ x Hwf0 H0 Hh) as [? ?]; [congruence|done].
Qed.

(** The waiting locks and their counts are kept as the held ones are. *)
Definition mirror (s : lock_state) : lock_state :=
  MkState (ltype s) (waiting_locks s) (held_locks s) (client_waiting_lock_counts s)
    (client_held_lock_counts s) (next_id s).
Definition wf_waiting (s : lock_state) : Prop := forall c, shape c (mirror s).

Lemma shape_nonempty c s : shape c s -> cnt c (held_locks s) <> 0 -> forall d, shape d s.
Proof.
  intros [? ? ? ? ? Hc Hz] Hn d. split; try done. intros e _ E.
  destruct (decide (e = c)) as [->|]; [|by apply (Hz e)]. apply Hn. by rewrite <- Hc, E.
Qed.

Lemma add_waiting_wf me fl s g : wf_waiting s -> valid fl -> wf_waiting (add_waiting me fl s g).1.
Proof.
  intros Hw Vf. pose proof (shape_insert (client fl) (mirror s) fl (Hw _) Vf eq_refl) as Hs.
  intros d. apply (shape_nonempty (client fl)); [exact Hs|]. simpl. rewrite cnt_insert, of_client_valid, Z.eqb_refl by done.
  pose proof (cnt_nonneg (client fl) (waiting_locks s)). lia.
Qed.

Lemma find_waiting_spec fl l p : find_waiting fl l = Some p -> p ∈ l /\ okey (second p) = okey fl.
Proof.
  induction l as [|x l IH]; simpl; [done|]. destruct (_ <? _); [done|].
  destruct (_ && _) eqn:E; [|intros H; destruct (IH H); split; [by right|done]].
  intros [= <-]. apply andb_true_iff in E as [_ E]. split; [by left|]. by apply owner_equal_okey.
Qed.

Lemma mm_find_sub mm key n : n ∈ mm_find mm key -> n ∈ mm.
Proof.
  induction mm as [|x mm IH]; simpl; [done|]. destruct (_ =? _); [done|]. intros H. right. by apply IH.
Qed.

Lemma remove_waiting_wf me fl s g : wf_waiting s -> wf_waiting (remove_waiting me fl s g).1.
Proof.
  intros Hw. unfold remove_waiting. destruct (find_waiting _ _) as [p|] eqn:E; [|done]. simpl.
  apply find_waiting_spec in E as [Hp%mm_find_sub Hk]. assert (Ec : client (second p) = client fl) by (unfold okey in Hk; congruence).
  assert (Vp : valid (second p)).
  { pose proof (sh_valid _ _ (Hw 0)) as Hv. rewrite Forall_forall in Hv. by apply Hv. }
  pose proof (shape_erase (client (second p)) (mirror s) p (Hw _) Hp eq_refl) as Hs.
  intros d. rewrite <- Ec. apply (shape_trim _ _ Hs). destruct Vp; lia.
Qed.

Lemma wf_waiting_frame s s' :
  wf_waiting s -> waiting_locks s' = waiting_locks s ->
  client_waiting_lock_counts s' = client_waiting_lock_counts s -> (next_id s <= next_id s')%nat ->
  wf_waiting s'.
Proof.
  intros Hw E1 E2 E3 c. destruct (Hw c) as [? Hf ? ? ? ? ?]. split; simpl; rewrite ?E1, ?E2; try done.
  eapply Forall_impl; [exact Hf|]. simpl. lia.
Qed.

Lemma set_lock_spec me new s g :
  lim <= 2 ^ 31 -> wf_locks s -> valid new -> ~ conflict s new ->
  exists r,
    set_lock me new (ids (own_of new s)) (ids (List.filter (is_neighbor new) (held_locks s))) s g = Some r /\
    ar_set r = true /\ ar_deadlock r = false /\ wf_locks (ar_state r) /\
    overlay s new (ar_state r) /\ ar_waiters r = (remove_waiting me new s g).2 /\
    (wf_waiting s -> wf_waiting (ar_state r)) /\ ltype (ar_state r) = ltype s.
Proof.
  intros Hlim Hwf Vn Hno. pose proof (remove_waiting_frame me new s g) as Hfr. simpl in Hfr.
  pose proof (remove_waiting_wf me new s g) as Hww1.
  unfold set_lock. destruct (remove_waiting me new s g) as [s1 g1]. simpl in Hfr, Hww1.
  destruct Hfr as (E1 & E2 & E3 & E4).
  assert (Hwf1 : wf_locks s1) by (by apply (wf_frame s)).
  assert (Hh : forall k t x, holds s1 k t x <-> holds s k t x) by (intros; unfold holds; by rewrite E1).
  assert (Hno1 : ~ conflict s1 new) by (unfold conflict; by rewrite E1).
  pose proof (adjusting_start s1 new Hwf1 Vn) as Had.
  replace (own_of new s1) with (own_of new s) in Had by (unfold own_of, overlaps_of; by rewrite E1).
  rewrite E1 in Had. unfold adjust_locks.
  destruct (adjust_olds_spec _ _ _ _ _ _ (length_ new =? 0) Hlim Had) as (n1 & s2 & -> & Had1); [by right|]. obind.
  destruct (coalesce_all_spec _ _ _ _ _ Had1) as (n2 & s3 & -> & Had2). obind.
  pose proof (ad_wf _ _ _ _ _ _ Had2) as Hwf3. pose proof (ad_valid _ _ _ _ _ _ Had2) as V2.
  eexists. split; [done|]. simpl. split_and!; try done.
  - apply wf_insert; [done..|]. intros m Hm. by apply (adjusted_compat s1 new n2 s3).
  - intros k t x. rewrite holds_insert, (ad_key _ _ _ _ _ _ Had2), (ad_type _ _ _ _ _ _ Had2). split.
    + intros [-> C0]. pose proof (ad_up _ _ _ _ _ _ Had2 x C0) as C2. split; [|tauto].
      intros [(_ & -> & _)|Hx]; [done|]. exfalso. destruct Hx as (m & Hm & Ek & _ & Cx).
      destruct (adjusted_compat s1 new n2 s3 m Hwf1 Hno1 Vn Had2 Hm x C2 Cx) as [Hne _].
      apply Hne. by rewrite (ad_key _ _ _ _ _ _ Had2).
    + intros Hx. destruct (decide (k = okey new /\ start n2 <= x < fin n2)) as [[-> C2]|D].
      * assert (H1 : holds s (okey new) (type new) x).
        { destruct (ad_down _ _ _ _ _ _ Had2 x C2) as [C0|H1]; [by destruct Hx|by apply Hh]. }
        split; [|intros H2; left; by rewrite (holds_type s _ _ _ _ Hwf H2 H1)].
        intros [(_ & -> & _)|Hx3]; [done|]. destruct Hx3 as (m & Hm & Ek & _ & Cx).
        destruct (adjusted_compat s1 new n2 s3 m Hwf1 Hno1 Vn Had2 Hm x C2 Cx) as [Hne _].
        destruct Hne. by rewrite (ad_key _ _ _ _ _ _ Had2).
      * rewrite <- Hh, <- (ad_rest _ _ _ _ _ _ Had2) by done. split; [|by right].
        intros [(-> & _ & C2)|]; [by destruct D|done].
  - intros Hww. apply (wf_waiting_frame s1); [by apply Hww1|apply Had2|apply Had2|].
    simpl. pose proof (ad_next _ _ _ _ _ _ Had2). lia.
  - simpl. by rewrite (ad_ltype _ _ _ _ _ _ Had2).
Qed.

(** ** Deadlocks *)

Definition pid_key (l : filelock) : Z := if new_owner l then 0 else pid l.

Definition owner_before (l r : filelock) : Prop :=
  client l < client r \/ client l = client r /\
  (owner l < owner r \/ owner l = owner r /\ pid_key l < pid_key r).

Lemma owner_compare_spec l r :
  (ceph_filelock_owner_compare l r = -1 /\ owner_before l r) \/
  (ceph_filelock_owner_compare l r = 0 /\ okey l = okey r) \/
  (ceph_filelock_owner_compare l r = 1 /\ owner_before r l).
Proof.
  unfold ceph_filelock_owner_compare, owner_before, okey, pid_key, new_owner.
  destruct (Z.eqb_spec (client l) (client r)) as [E1|E1]; cbn [negb].
  2:{ destruct (Z.ltb_spec (client r) (client l)); lia. }
  destruct (Z.eqb_spec (owner l) (owner r)) as [E2|E2]; cbn [negb].
  2:{ destruct (Z.ltb_spec (owner r) (owner l)); lia. }
  rewrite E1, E2. destruct (Z.testbit (owner r) 63); [by right; left|].
  destruct (Z.eqb_spec (pid l) (pid r)) as [->|E3]; cbn [negb]; [by right; left|].
  destruct (Z.ltb_spec (pid r) (pid l)); lia.
Qed.

Lemma lock_lt_spec l r :
  lock_lt l r = true <-> owner_before l r \/ okey l = okey r /\
    (start l < start r \/ start l = start r /\
     (length_ l < length_ r \/ length_ l = length_ r /\ type l < type r)).
Proof.
  unfold lock_lt, ceph_filelock_compare. rewrite Z.ltb_lt.
  assert (Hk : okey l = okey r -> ~ owner_before l r).
  { unfold okey, owner_before. fold (pid_key l) (pid_key r). intros [= ? ? ?]. lia. }
  assert (Hk' : owner_before r l -> okey l <> okey r /\ ~ owner_before l r).
  { unfold okey, owner_before. fold (pid_key l) (pid_key r). intros H. split; [|lia].
    intros [= ? ? ?]. lia. }
  destruct (owner_compare_spec l r) as [[-> H]|[[-> H]|[-> H]]]; cbn [Z.eqb negb].
  - split; [by left|lia].
  - specialize (Hk H).
    transitivity (start l < start r \/ start l = start r /\
      (length_ l < length_ r \/ length_ l = length_ r /\ type l < type r)); [|tauto].
    destruct (Z.eqb_spec (start l) (start r)); cbn [negb]; [|destruct (Z.ltb_spec (start r) (start l)); lia].
    destruct (Z.eqb_spec (length_ l) (length_ r)); cbn [negb];
      [|destruct (Z.ltb_spec (length_ r) (length_ l)); lia].
    destruct (Z.eqb_spec (type l) (type r)); cbn [negb]; [lia|].
    destruct (Z.ltb_spec (type r) (type l)); lia.
  - destruct (Hk' H). split; [lia|]. tauto.
Qed.

Lemma okey_parts l r :
  okey l = okey r <-> client l = client r /\ owner l = owner r /\ pid_key l = pid_key r.
Proof. unfold okey. fold (pid_key l) (pid_key r). split; [by intros [= ? ? ?]|]. by intros (-> & -> & ->). Qed.

Lemma lock_lt_le l m r : lock_lt m l = false -> lock_lt r m = false -> lock_lt r l = false.
Proof.
  rewrite <- !not_true_iff_false, !lock_lt_spec, !okey_parts. unfold owner_before. lia.
Qed.

Lemma owner_before_neq o w : owner_before o w -> okey w <> okey o.
Proof. rewrite okey_parts. unfold owner_before. lia. Qed.

Lemma owner_before_later o w w' :
  owner_before o w -> lock_lt w' w = false -> owner_before o w'.
Proof.
  rewrite <- not_true_iff_false, lock_lt_spec, okey_parts. unfold owner_before. lia.
Qed.

(** [global_waiting_locks] is in key order. *)
Definition sorted_waiters (g : waiters) : Prop :=
  StronglySorted (fun a b => lock_lt b.1 a.1 = false) g.

(** Every waiter's inode is there, and well formed. *)
Definition waiters_ok (states : nat -> option lock_state) (g : waiters) : Prop :=
  sorted_waiters g /\
  Forall (fun q => valid q.1 /\ exists st, states q.2 = Some st /\ wf_locks st) g.

Lemma run_of_spec o g q :
  sorted_waiters g -> Forall (fun q => lock_lt q.1 o = false) g ->
  q ∈ run_of o g <-> q ∈ g /\ okey q.1 = okey o.
Proof.
  intros Hs Ho. induction Hs as [|[w i] h Hs IH Hw]; simpl; [by rewrite elem_of_nil; tauto|].
  inversion Ho as [|? ? Ow Ho']; subst. specialize (IH Ho'). simpl in Ow.
  destruct (ceph_filelock_owner_equal w o) eqn:E.
  - apply owner_equal_okey in E. rewrite !elem_of_cons, IH. split; [|tauto].
    intros [->|?]; [by split; [left|]|tauto].
  - rewrite <- not_true_iff_false, owner_equal_okey in E. rewrite elem_of_nil, elem_of_cons.
    split; [done|]. intros [[->|Hq] Hk]; [done|]. rewrite Forall_forall in Hw. specialize (Hw q Hq).
    apply (owner_before_neq o q.1); [|done]. apply (owner_before_later o w); [|done].
    destruct (owner_compare_spec o w) as [[_ ?]|[[_ ?]|[_ H]]]; [done|congruence|].
    rewrite <- not_true_iff_false, lock_lt_spec in Ow. tauto.
Qed.

(** From the lower bound of an owner on, all of that owner's waiting locks. *)
Lemma waiting_of_spec o g q :
  sorted_waiters g -> Forall (fun q => valid q.1) g ->
  start o = 0 -> length_ o = 0 -> type o = 0 ->
  q ∈ waiting_of o g <-> q ∈ g /\ okey q.1 = okey o.
Proof.
  intros Hs Hv S0 L0 T0. induction Hs as [|[w i] g Hs IH Hw]; simpl; [by rewrite elem_of_nil; tauto|].
  inversion Hv as [|? ? Vw Hv']; subst. simpl in Vw. specialize (IH Hv').
  destruct (lock_lt w o) eqn:E.
  { rewrite IH, elem_of_cons. split; [tauto|]. intros [[->|?] Hk]; [|done]. simpl in Hk. exfalso.
    apply lock_lt_spec in E as [H|[_ H]]; [by apply owner_before_neq in H|].
    destruct Vw as [? ? _ [T|T] _]; unfold CEPH_LOCK_SHARED, CEPH_LOCK_EXCL in T; lia. }
  apply (run_of_spec o ((w, i) :: g)); [by constructor|]. constructor; [done|].
  eapply Forall_impl; [exact Hw|]. simpl. intros q' Hq'. by apply (lock_lt_le o w).
Qed.

(** Two locks on a byte that cannot both be held. *)
Definition conflicting (a b : filelock) : Prop :=
  ~ (type a = CEPH_LOCK_SHARED /\ type b = CEPH_LOCK_SHARED).

Lemma owners_insert_spec o os x :
  x ∈ map okey (owners_insert o os) <-> x = okey o \/ x ∈ map okey os.
Proof.
  induction os as [|y os IH]; simpl; [set_solver|]. destruct (lock_lt y o) eqn:E1; simpl.
  { rewrite !elem_of_cons, IH. tauto. }
  destruct (lock_lt o y) eqn:E2; simpl; [by rewrite !elem_of_cons|].
  rewrite !elem_of_cons. split; [tauto|]. intros [->|?]; [|tauto]. left.
  rewrite <- not_true_iff_false, lock_lt_spec in E1, E2.
  destruct (owner_compare_spec o y) as [[_ ?]|[[_ ?]|[_ H]]]; tauto.
Qed.

Definition zeroed (o : filelock) : Prop := start o = 0 /\ length_ o = 0 /\ type o = 0.

Lemma owners_insert_zeroed o os : zeroed o -> Forall zeroed os -> Forall zeroed (owners_insert o os).
Proof.
  intros Ho. induction 1 as [|y os Hy Hos IH]; simpl; [by constructor|].
  destruct (lock_lt y o); [by constructor|]. destruct (lock_lt o y); repeat constructor; auto; apply Hy || apply Ho.
Qed.

Lemma conflict_owners_spec fl f ls acc :
  Forall zeroed acc ->
  match conflict_owners fl f ls acc with
  | None => exists p f', f = Some f' /\ p ∈ ls /\ conflicting fl p /\ okey p = okey f'
  | Some os =>
      (forall p f', p ∈ ls -> conflicting fl p -> f = Some f' -> okey p <> okey f') /\
      Forall zeroed os /\
      forall k, k ∈ map okey os <-> k ∈ map okey acc \/ exists p, p ∈ ls /\ conflicting fl p /\ okey p = k
  end.
Proof.
  revert acc. induction ls as [|p ls IH]; intros acc Hz; simpl.
  { split_and!; [by intros ? ? ?%elem_of_nil|done|]. intros k. split; [by left|].
    intros [?|(? & ?%elem_of_nil & _)]; done. }
  destruct ((type fl =? CEPH_LOCK_SHARED) && (type p =? CEPH_LOCK_SHARED)) eqn:E.
  { rewrite andb_true_iff, !Z.eqb_eq in E. assert (Hc : ~ conflicting fl p) by (intros H; by apply H).
    specialize (IH acc Hz). destruct (conflict_owners fl f ls acc) as [os|].
    - destruct IH as (H1 & H2 & H3). split_and!; [|done|].
      + intros q f' [->|Hq]%elem_of_cons Hcq; [done|by apply H1].
      + intros k. rewrite H3. split; (intros [?|(q & Hq & ? & ?)]; [by left|right]).
        * exists q. split; [by right|done].
        * apply elem_of_cons in Hq as [->|Hq]; [done|]. by exists q.
    - destruct IH as (q & f' & ? & ? & ? & ?). exists q, f'. split_and!; [done|by right|done..]. }
  assert (Hc : conflicting fl p).
  { intros [E1 E2]. rewrite E1, E2 in E. discriminate. }
  destruct (match f with Some f => ceph_filelock_owner_equal f p | None => false end) eqn:Ef.
  { destruct f as [f|]; [|done]. apply owner_equal_okey in Ef. exists p, f. split_and!; [done|by left|done..]. }
  specialize (IH (owners_insert (owner_key p) acc) (owners_insert_zeroed (owner_key p) _ (conj eq_refl (conj eq_refl eq_refl)) Hz)).
  destruct (conflict_owners _ _ _ _) as [os|].
  - destruct IH as (H1 & H2 & H3). split_and!; [|done|].
    + intros q f' [->|Hq]%elem_of_cons Hcq ->; [|by apply (H1 q f')].
      rewrite <- not_true_iff_false, owner_equal_okey in Ef. congruence.
    + intros k. rewrite H3, owners_insert_spec. split.
      * intros [[->|?]|(q & Hq & ? & ?)]; [right|by left|right].
        { exists p. split_and!; [by left|done|done]. }
        exists q. split; [by right|done].
      * intros [?|(q & Hq & ? & ?)]; [by left; right|].
        apply elem_of_cons in Hq as [->|Hq]; [left; left; done|right]. by exists q.
  - destruct IH as (q & f' & ? & ? & ? & ?). exists q, f'. split_and!; [done|by right|done..].
Qed.

Lemma any_spec {A} (f : A -> option bool) l :
  (forall x, x ∈ l -> exists b, f x = Some b) ->
  exists b, any f l = Some b /\ (b = true <-> exists x, x ∈ l /\ f x = Some true).
Proof.
  induction l as [|x l IH]; intros Ht; simpl.
  { exists false. split; [done|]. split; [done|]. by intros (? & ?%elem_of_nil & _). }
  destruct (Ht x) as [b Eb]; [by left|]. rewrite Eb. obind. destruct b.
  { exists true. split; [done|]. split; [|done]. intros _. exists x. split; [by left|done]. }
  destruct IH as (b & Eb' & Hb); [intros y Hy; apply Ht; by right|]. exists b. split; [done|].
  rewrite Hb. split; intros (y & Hy & E); exists y; (split; [|done]); [by right|].
  apply elem_of_cons in Hy as [->|]; [congruence|done].
Qed.

(** A chain of at most [n] waiting locks, from the lock [fl] that meets the
    locks [ls] to a lock of the owner [f]. *)
Inductive chain (states : nat -> option lock_state) (g : waiters) (f : Z * Z * Z)
  : nat -> filelock -> list filelock -> Prop :=
| chain_circle n fl ls p :
    p ∈ ls -> conflicting fl p -> okey p = f -> chain states g f n fl ls
| chain_next n fl ls p w i st :
    p ∈ ls -> conflicting fl p -> (w, i) ∈ g -> okey w = okey p -> states i = Some st ->
    chain states g f n w (map second (others_of w st)) -> chain states g f (S n) fl ls.

Lemma blockers_spec w st :
  wf_locks st -> valid w -> blockers w st = Some (map second (others_of w st)).
Proof.
  intros Hwf Vw. pose proof (sh_ids _ _ (wl_shape _ Hwf 0)) as Hi. unfold blockers.
  rewrite get_overlapping_locks_spec by done. fold (overlaps_of w st).
  rewrite split_by_owner_spec; [|done|by intros n [? _]%elem_overlaps]. obind.
  apply locks_at_spec; [done|]. intros n Hn. by apply elem_others in Hn as [? _].
Qed.

Lemma chain_nil states g f n fl : ~ chain states g f n fl [].
Proof.
  intros H. inversion H; subst; match goal with E : _ ∈ [] |- _ => by apply elem_of_nil in E end.
Qed.

(** The two loops over the owners and their waiting locks. *)
Lemma deadlock_next states g f more os (rec : filelock -> list filelock -> option bool) :
  waiters_ok states g -> Forall zeroed os ->
  (forall w ls, exists b, rec w ls = Some b /\ (b = true <-> chain states g f more w ls)) ->
  exists b,
    any (fun o => any (fun q : filelock * nat =>
      st ← states q.2; ls ← blockers q.1 st;
      match ls with [] => Some false | _ => rec q.1 ls end) (waiting_of o g)) os = Some b /\
    (b = true <-> exists w i st, (w, i) ∈ g /\ okey w ∈ map okey os /\ states i = Some st /\
      chain states g f more w (map second (others_of w st))).
Proof.
  intros [Hs Hg] Hz Hrec. rewrite Forall_forall in Hg; rewrite Forall_forall in Hz.
  assert (Hv : Forall (fun q : filelock * nat => valid q.1) g)
    by (rewrite Forall_forall; intros q Hq; by apply Hg).
  assert (Hin : forall q, q ∈ g -> exists b st,
    states q.2 = Some st /\ (st ← states q.2; ls ← blockers q.1 st;
       match ls with [] => Some false | _ => rec q.1 ls end) = Some b /\
    (b = true <-> chain states g f more q.1 (map second (others_of q.1 st)))).
  { intros q Hq. destruct (Hg q Hq) as (Vq & st & Est & Hwf). rewrite Est. obind.
    rewrite blockers_spec by done. obind. destruct (map second (others_of q.1 st)) as [|l ls] eqn:El.
    - exists false, st. split_and!; [done..|]. rewrite El. split; [done|]. by intros ?%chain_nil.
    - destruct (Hrec q.1 (l :: ls)) as (b & Eb & Hb). exists b, st. rewrite El. done. }
  assert (Hwo : forall o q, o ∈ os -> q ∈ waiting_of o g <-> q ∈ g /\ okey q.1 = okey o).
  { intros o q Ho. destruct (Hz o Ho) as (? & ? & ?). by apply waiting_of_spec. }
  set (F := fun q : filelock * nat => st ← states q.2; ls ← blockers q.1 st;
       match ls with [] => Some false | _ => rec q.1 ls end) in *.
  assert (Hown : forall o, o ∈ os -> exists b, any F (waiting_of o g) = Some b /\
    (b = true <-> exists w i st, (w, i) ∈ g /\ okey w = okey o /\ states i = Some st /\
      chain states g f more w (map second (others_of w st)))).
  { intros o Ho. destruct (any_spec F (waiting_of o g)) as (b & Eb & Hb).
    { intros q Hq. apply Hwo in Hq as [Hq _]; [|done]. destruct (Hin q Hq) as (b & st & _ & E & _). by exists b. }
    exists b. split; [done|]. rewrite Hb. split.
    - intros ([w i] & Hq & E). apply Hwo in Hq as [Hq Hk]; [|done].
      destruct (Hin _ Hq) as (b' & st & Est & E2 & Hch). exists w, i, st. split_and!; [done..|].
      apply Hch. change (F (w, i) = Some b') in E2. congruence.
    - intros (w & i & st & Hq & Hk & Est & Hch). exists (w, i). split; [by apply Hwo|].
      destruct (Hin _ Hq) as (b' & st' & Est' & E2 & Hch'). change (F (w, i) = Some b') in E2.
      assert (st' = st) as -> by (simpl in Est'; congruence). rewrite E2. f_equal. by apply Hch'. }
  destruct (any_spec (fun o => any F (waiting_of o g)) os) as (b & Eb & Hb).
  { intros o Ho. destruct (Hown o Ho) as (b & Eb & _). by exists b. }
  exists b. split; [exact Eb|]. rewrite Hb. split.
  - intros (o & Ho & E). destruct (Hown o Ho) as (b' & Eb' & Hb'). rewrite E in Eb'. injection Eb' as <-.
    destruct (proj1 Hb' eq_refl) as (w & i & st & Hq & Hk & ? & ?). exists w, i, st. split_and!; [done| |done..].
    rewrite Hk. apply list_elem_of_fmap. by exists o.
  - intros (w & i & st & Hq & Hk & ? & ?). apply list_elem_of_fmap in Hk as (o & Hk & Ho).
    exists o. split; [done|]. destruct (Hown o Ho) as (b' & -> & Hb'). f_equal. apply Hb'. by exists w, i, st.
Qed.

Lemma deadlock_rec states g f more fl ls :
  waiters_ok states g ->
  exists b, is_deadlock more states g CEPH_LOCK_FCNTL fl ls (Some f) = Some b /\
    (b = true <-> chain states g (okey f) more fl ls).
Proof.
  intros Hok. revert fl ls. induction more as [|more IH]; intros fl ls; simpl;
    pose proof (conflict_owners_spec fl (Some f) ls [] (Forall_nil_2 _)) as Hco;
    destruct (conflict_owners fl (Some f) ls []) as [os|].
  - exists false. split; [done|]. split; [done|]. intros H. inversion H as [? ? ? p Hp Hc Hk|]; subst.
    by destruct (proj1 Hco p f Hp Hc eq_refl).
  - exists true. split; [done|]. split; [|done]. destruct Hco as (p & f' & [= <-] & ? & ? & ?). intros _.
    by apply chain_circle with p.
  - destruct Hco as (H1 & H2 & H3).
    destruct (deadlock_next states g (okey f) more os
      (fun w ls => is_deadlock more states g CEPH_LOCK_FCNTL w ls (Some f)) Hok H2 IH) as (b & Eb & Hb).
    exists b. split; [exact Eb|]. rewrite Hb. split.
    + intros (w & i & st & Hq & Hk & Est & Hch). apply H3 in Hk as [Hk|(p & Hp & Hc & Hk)]; [by apply elem_of_nil in Hk|].
      by apply chain_next with p w i st.
    + intros H. inversion H as [? ? ? p Hp Hc Hk|? ? ? p w i st Hp Hc Hq Hk Est Hch]; subst.
      { by destruct (H1 p f Hp Hc eq_refl). }
      exists w, i, st. split_and!; [done| |done|done]. apply H3. right. by exists p.
  - exists true. split; [done|]. split; [|done]. destruct Hco as (p & f' & [= <-] & ? & ? & ?). intros _.
    by apply chain_circle with p.
Qed.

(** The call of [add_lock]: the locks are of other owners. *)
Lemma deadlock_start states g more fl ls :
  waiters_ok states g -> (forall p, p ∈ ls -> okey p <> okey fl) ->
  exists b, is_deadlock (S more) states g CEPH_LOCK_FCNTL fl ls None = Some b /\
    (b = true <-> chain states g (okey fl) (S more) fl ls).
Proof.
  intros Hok Hne. simpl. pose proof (conflict_owners_spec fl None ls [] (Forall_nil_2 _)) as Hco.
  destruct (conflict_owners fl None ls []) as [os|]; [|by destruct Hco as (? & ? & ? & _)].
  destruct Hco as (_ & H2 & H3).
  destruct (deadlock_next states g (okey fl) more os
    (fun w ls => is_deadlock more states g CEPH_LOCK_FCNTL w ls (Some fl)) Hok H2) as (b & Eb & Hb).
  { intros w l. by apply deadlock_rec. }
  exists b. split; [exact Eb|]. rewrite Hb. split.
  - intros (w & i & st & Hq & Hk & Est & Hch). apply H3 in Hk as [Hk|(p & Hp & Hc & Hk)]; [by apply elem_of_nil in Hk|].
    by apply chain_next with p w i st.
  - intros H. inversion H as [? ? ? p Hp Hc Hk|? ? ? p w i st Hp Hc Hq Hk Est Hch]; subst.
    { by destruct (Hne p Hp). }
    exists w, i, st. split_and!; [done| |done|done]. apply H3. right. by exists p.
Qed.

(** ** The queue of waiters *)

Lemma insert_waiting_elem fl me g q : q ∈ insert_global_waiting fl me g <-> q = (fl, me) \/ q ∈ g.
Proof. induction g as [|[k i] g IH]; simpl; [set_solver|]. destruct (lock_lt fl k); set_solver. Qed.

Lemma lock_lt_asym l r : lock_lt l r = true -> lock_lt r l = false.
Proof.
  rewrite <- not_true_iff_false, !lock_lt_spec, !okey_parts. unfold owner_before. lia.
Qed.

Lemma insert_waiting_sorted fl me g : sorted_waiters g -> sorted_waiters (insert_global_waiting fl me g).
Proof.
  induction 1 as [|[k i] g Hs IH Hk]; simpl; [by repeat constructor|].
  destruct (lock_lt fl k) eqn:E.
  - apply lock_lt_asym in E. constructor; [by constructor|]. constructor; [done|].
    eapply Forall_impl; [exact Hk|]. simpl. intros q Hq. by apply (lock_lt_le fl k).
  - constructor; [done|]. rewrite Forall_forall in *. intros q [->|Hq]%insert_waiting_elem; [done|by apply Hk].
Qed.

Lemma remove_waiting_sublist fl me g : remove_global_waiting fl me g `sublist_of` g.
Proof.
  assert (He : forall g, erase_equal fl me g `sublist_of` g).
  { clear g. induction g as [|[k i] g IH]; simpl; [constructor|]. destruct (negb _); [done|].
    destruct (i =? me)%nat; [by apply sublist_cons|by apply sublist_skip]. }
  induction g as [|[k i] g IH]; cbn [remove_global_waiting]; [constructor|].
  destruct (lock_eq k fl); [apply (He ((k, i) :: g))|by apply sublist_skip].
Qed.

Lemma sublist_sorted g g' : g' `sublist_of` g -> sorted_waiters g -> sorted_waiters g'.
Proof.
  induction 1 as [|q g' g H IH|q g' g H IH]; intros Hs; [done| |];
    inversion Hs as [|? ? Hs' Hq]; subst; [|by apply IH].
  constructor; [by apply IH|]. rewrite Forall_forall in *. intros x Hx. apply Hq.
  eapply elem_of_submseteq; [exact Hx|]. by apply sublist_submseteq.
Qed.

Lemma remove_waiting_waiters me fl s g : (remove_waiting me fl s g).2 `sublist_of` g.
Proof.
  unfold remove_waiting. destruct (find_waiting _ _); simpl; [|done].
  destruct (_ =? _); [apply remove_waiting_sublist|done].
Qed.

End limited.
End FlockFacts.

(** ** Correctness *)

Module FlockCorrect.
Import Flock FlockFacts.

Section limited.
Context {Lm : limit}.

Lemma others_nil s new : wf_locks s -> valid new -> others_of new s = [] -> ~ conflict s new.
Proof.
  intros Hwf Vn E (n & Hn & Hk & Hov & _).
  assert (Hin : n ∈ others_of new s) by (by apply elem_others). rewrite E in Hin. by apply elem_of_nil in Hin.
Qed.

Lemma find_type_excl new s :
  wf_locks s -> valid new -> type new <> CEPH_LOCK_EXCL ->
  match List.find (fun n => type (second n) =? CEPH_LOCK_EXCL) (others_of new s) with
  | Some n => n ∈ others_of new s /\ type (second n) = CEPH_LOCK_EXCL /\ conflict s new
  | None => ~ conflict s new
  end.
Proof.
  intros Hwf Vn Ht. destruct (List.find _ _) as [n|] eqn:E.
  - apply find_some in E as [Hin Hty]. apply list_elem_of_In in Hin. apply Z.eqb_eq in Hty. split_and!; [done..|].
    pose proof Hin as (? & ? & ?)%elem_others; [|done..]. exists n. auto.
  - intros (n & Hn & Hk & Hov & [?|He]); [done|]. assert (Hin : n ∈ others_of new s) by (by apply elem_others).
    apply list_elem_of_In in Hin. apply (find_none _ _ E) in Hin. simpl in Hin. by rewrite He in Hin.
Qed.

(** The blocked branches. *)
Definition blocked (states : nat -> option lock_state) (me : nat) (new : filelock) (wait replay : bool)
  (s : lock_state) (g : waiters) (r : add_result) : Prop :=
  ar_set r = false /\
  (ar_deadlock r = true <->
    wait && negb replay = true /\ ltype s = CEPH_LOCK_FCNTL /\
    chain states g (okey new) MAX_DEADLK_DEPTH new (map second (others_of new s))) /\
  (ar_state r, ar_waiters r) =
    if wait && negb replay && negb (ar_deadlock r) then add_waiting me new s g else (s, g).

Lemma block_lock_spec states me new wait replay s g :
  wf_locks s -> valid new -> waiters_ok states g ->
  exists r, block_lock states me new (ids (others_of new s)) wait replay s g = Some r /\
    blocked states me new wait replay s g r.
Proof.
  intros Hwf Vn Hok. unfold block_lock, blocked. destruct (wait && negb replay) eqn:E.
  2:{ eexists. split; [done|]. simpl. split; [done|]. split; [|done]. split; [done|]. by intros [? _]. }
  rewrite locks_at_spec; [|apply (wl_shape _ Hwf 0)|intros n Hn; by apply elem_others in Hn as [? _]]. obind.
  assert (Hd : exists b, is_deadlock MAX_DEADLK_DEPTH states g (ltype s) new
      (map second (others_of new s)) None = Some b /\
    (b = true <-> ltype s = CEPH_LOCK_FCNTL /\
      chain states g (okey new) MAX_DEADLK_DEPTH new (map second (others_of new s)))).
  { destruct (decide (ltype s = CEPH_LOCK_FCNTL)) as [->|Hl].
    - destruct (deadlock_start states g 4 new (map second (others_of new s)) Hok) as (b & Eb & Hb).
      + intros p Hp. apply list_elem_of_fmap in Hp as (n & -> & Hn). by apply elem_others in Hn as (_ & _ & ?).
      + exists b. split; [exact Eb|]. unfold MAX_DEADLK_DEPTH. tauto.
    - exists false. split; [|naive_solver]. unfold MAX_DEADLK_DEPTH. cbn [is_deadlock].
      by rewrite (proj2 (Z.eqb_neq _ _) Hl). }
  destruct Hd as (b & -> & Hb). obind. destruct b.
  - eexists. split; [done|]. simpl. split_and!; [done|tauto|done].
  - destruct (add_waiting me new s g) as [s' g'] eqn:Ea. eexists. split; [done|]. simpl.
    split; [done|]. split; [|done]. split; [done|]. intros [_ Hc]. by apply Hb in Hc.
Qed.

(** What [add_lock] promises of its result. *)
Definition add_outcome (states : nat -> option lock_state) (me : nat) (new : filelock)
  (wait replay : bool) (s : lock_state) (g : waiters) (r : add_result) : Prop :=
  (ar_set r = true <-> ~ conflict s new) /\
  wf_locks (ar_state r) /\ wf_waiting (ar_state r) /\ sorted_waiters (ar_waiters r) /\
  (ar_set r = true -> overlay s new (ar_state r) /\ ar_deadlock r = false) /\
  (ar_set r = false -> held_locks (ar_state r) = held_locks s /\ blocked states me new wait replay s g r).

Lemma set_outcome states me new wait replay s g :
  lim <= 2 ^ 31 -> wf_locks s -> wf_waiting s -> valid new -> waiters_ok states g ->
  (~ conflict s new -> exists r,
    set_lock me new (ids (own_of new s)) (ids (List.filter (is_neighbor new) (held_locks s))) s g = Some r /\
    add_outcome states me new wait replay s g r) /\
  (conflict s new -> exists r,
    block_lock states me new (ids (others_of new s)) wait replay s g = Some r /\
    add_outcome states me new wait replay s g r).
Proof.
  intros Hlim Hwf Hww Vn Hok. split.
  - intros Hno. destruct (set_lock_spec me new s g Hlim Hwf Vn Hno) as (r & -> & E1 & E2 & W & O & Eg & Hw & _).
    exists r. split; [done|]. unfold add_outcome. rewrite E1, E2, Eg. split_and!; try done; [by apply Hw|].
    apply (sublist_sorted g); [apply remove_waiting_waiters|apply Hok].
  - intros Hc. destruct (block_lock_spec states me new wait replay s g Hwf Vn Hok) as (r & -> & Hb).
    exists r. split; [done|]. pose proof Hb as (E1 & _ & E3). unfold add_outcome. rewrite E1.
    assert (H : wf_locks (ar_state r) /\ wf_waiting (ar_state r) /\ sorted_waiters (ar_waiters r) /\
      held_locks (ar_state r) = held_locks s).
    { destruct (_ && _); injection E3 as -> ->; [|split_and!; try done; apply Hok]. split_and!.
      - destruct Hwf as [Hs Hcm]. split; [|done]. intros c. destruct (Hs c) as [? Hf ? ? ? ? ?]. split; try done.
        simpl. eapply Forall_impl; [exact Hf|]. simpl. lia.
      - by apply (add_waiting_wf me new s g).
      - simpl. destruct (_ =? _); [by apply insert_waiting_sorted, Hok|apply Hok].
      - done. }
    destruct H as (? & ? & ? & ?). split_and!; try done.
Qed.

(** C3: as long as no lock held, waiting or asked for has an end beyond byte
    [2 ^ 31], [add_lock] sets the lock exactly when no other owner's lock conflicts
    with it.  When it does, the owner holds the type of the new lock on its
    range and every other byte is held as before, for every owner, however many
    of the owner's locks had to be cut, merged or coalesced; the state stays
    well formed, so no two owners ever hold conflicting locks and the counts per
    client are right.  When it does not, nothing is changed but the queue of
    waiting locks, and the deadlock flag is set exactly when a chain of at most
    five waiting locks leads back to the owner.  The bound is that of the [int] in
    which [adjust_locks] keeps the end of a merged lock; a lock without an end may
    start anywhere below it.  Clients are numbered from 0, and a type is shared or
    exclusive. *)
Theorem add_lock_correct states me new wait replay s g :
  lim <= 2 ^ 31 -> wf_locks s -> wf_waiting s -> valid new -> waiters_ok states g ->
  exists r, add_lock states me new wait replay s g = Some r /\
    add_outcome states me new wait replay s g r.
Proof.
  intros Hlim Hwf Hww Vn Hok. pose proof (sh_ids _ _ (wl_shape _ Hwf 0)) as Hi. unfold add_lock.
  rewrite get_overlapping_locks_spec by done. fold (overlaps_of new s).
  rewrite split_by_owner_spec; [|done|by intros n [? _]%elem_overlaps]. obind.
  fold (others_of new s) (own_of new s).
  destruct (set_outcome states me new wait replay s g Hlim Hwf Hww Vn Hok) as [Hset Hblock].
  destruct (others_of new s) as [|n0 ns] eqn:Eo; [by apply Hset, others_nil|].
  cbn [ids map]. change (nid n0 :: map nid ns) with (ids (n0 :: ns)).
  destruct (Z.eqb_spec (type new) CEPH_LOCK_EXCL) as [Ht|Ht].
  - assert (Hin : n0 ∈ others_of new s) by (rewrite Eo; by left).
    apply elem_others in Hin as (? & ? & ?); [|done..]. apply Hblock. exists n0. auto.
  - rewrite <- Eo in *. rewrite contains_exclusive_spec; [|done|by intros n [? _]%elem_others]. obind.
    pose proof (find_type_excl new s Hwf Vn Ht) as Hf. destruct (List.find _ _) as [n|]; simpl.
    + apply Hblock, Hf.
    + by apply Hset.
Qed.

(** ** Removing locks *)

(** The state while [cut] is removed, with [olds] still to cut. *)
Record removing (s0 : lock_state) (cut : filelock) (olds : list node) (s : lock_state) : Prop := {
  re_wf : wf_locks s;
  re_waiting : wf_waiting s0 -> wf_waiting s;
  re_olds : forall m, m ∈ olds -> m ∈ held_locks s /\ okey (second m) = okey cut /\ overlap (second m) cut;
  re_only : forall m, m ∈ held_locks s -> okey (second m) = okey cut -> overlap (second m) cut -> m ∈ olds;
  re_rest : forall k t x, ~ (k = okey cut /\ covers cut x) -> holds s k t x <-> holds s0 k t x
}.

Lemma removing_step s0 cut n olds s :
  valid cut -> NoDup (n :: olds) -> removing s0 cut (n :: olds) s -> removing s0 cut olds (cut_out cut n s).
Proof.
  intros Vc [Hnin Hnd]%NoDup_cons [Hwf Hww Holds Honly Hrest].
  destruct (Holds n) as (Hn & Kn & Hov); [by left|].
  pose proof (sh_ids _ _ (wl_shape _ Hwf 0)) as Hi.
  assert (Hca : carved cut n s (cut_out cut n s)) by (destruct Hov; by apply cut_out_spec).
  pose proof (ca_wf _ _ _ _ Hca) as Hwf'. split; [done|..].
  - intros Hw. apply (wf_waiting_frame s); [by apply Hww|apply Hca..].
  - intros m Hm. destruct (Holds m) as (? & ? & ?); [by right|]. split_and!; try done.
    apply (ca_keep _ _ _ _ Hca); [done|]. intros E. by rewrite (nid_inj _ m n Hi) in Hm.
  - intros m Hm Km Ho. destruct (ca_piece _ _ _ _ Hca m Hm) as [[Hm1 Hne]|(_ & _ & _ & Hp)].
    + assert (Hin : m ∈ n :: olds) by (by apply Honly). apply elem_of_cons in Hin as [->|]; done.
    + pose proof (sh_valid _ _ (wl_shape _ Hwf' 0)) as Hv'. rewrite Forall_forall in Hv'.
      apply overlap_covers in Ho as (x & C1 & C2); [|by apply Hv'|done]. by destruct (Hp x C1).
  - intros k t x Hx. rewrite (carved_holds _ _ _ _ _ _ _ Hca Hn Hi); [by apply Hrest|]. by rewrite Kn.
Qed.

Lemma remove_olds_spec s0 cut olds s :
  valid cut -> NoDup olds -> removing s0 cut olds s ->
  exists s', remove_olds cut (ids olds) s = Some s' /\ removing s0 cut [] s'.
Proof.
  intros Vc. revert s. induction olds as [|n olds IH]; intros s Hnd Hre; simpl; [by exists s|].
  destruct (re_olds _ _ _ _ Hre n) as (Hn & _ & _); [by left|]. pose proof (re_wf _ _ _ _ Hre) as Hwf.
  pose proof (sh_valid _ _ (wl_shape _ Hwf 0)) as Hv. rewrite Forall_forall in Hv. destruct (Hv n Hn) as [_ Vo].
  rewrite remove_old_cut; [|apply (wl_shape _ Hwf 0)|done..]. obind.
  apply IH; [by apply NoDup_cons in Hnd as [_ ?]|]. by apply removing_step.
Qed.

Lemma overlap_loop_type t lock chk back o nb :
  overlap_loop (with_type t lock) (with_type t chk) back o nb = overlap_loop lock chk back o nb.
Proof.
  revert o nb. induction back as [|n back IH]; intros o nb; [done|]. simpl overlap_loop.
  change (share_space n (with_type t lock)) with (share_space n lock).
  change (share_space n (with_type t chk)) with (share_space n chk).
  change (ceph_filelock_owner_equal (with_type t chk)) with (ceph_filelock_owner_equal chk).
  destruct (share_space n lock); [|destruct (_ && share_space n chk)];
    (destruct (_ && (type _ =? _)); [done|apply IH]).
Qed.

(** The type of the lock is not looked at. *)
Lemma remove_lock_type t cut s : remove_lock (with_type t cut) s = remove_lock cut s.
Proof.
  assert (H : forall l s, remove_olds (with_type t cut) l s = remove_olds cut l s).
  { clear. induction l as [|i l IH]; intros s; simpl; [done|].
    change (remove_old (with_type t cut) i s) with (remove_old cut i s).
    destruct (remove_old cut i s); obind; auto. }
  unfold remove_lock.
  assert (Hg : get_overlapping_locks (with_type t cut) s = get_overlapping_locks cut s).
  { unfold get_overlapping_locks. cbn [with_type start length_].
    replace (neighbor_check_lock (with_type t cut)) with (with_type t (neighbor_check_lock cut))
      by (unfold neighbor_check_lock; simpl; by repeat case_match).
    apply overlap_loop_type. }
  rewrite Hg. clear Hg. destruct (get_overlapping_locks cut s) as [o nb].
  assert (Hs : split_by_owner (with_type t cut) (held_locks s) o = split_by_owner cut (held_locks s) o).
  { induction o as [|i o IH]; simpl; [done|]. destruct (mm_at _ i); obind; [|done]. rewrite IH. by destruct (split_by_owner _ _ o) as [[? ?]|]. }
  rewrite Hs. destruct (split_by_owner cut _ _) as [[a b]|]; obind; [apply H|done].
Qed.

(** C38: as long as no lock held, waiting or removed has an end beyond byte
    [2 ^ 63], the largest file offset, [remove_lock] takes the removed range away
    from the locks of its owner and nothing else: every owner holds after it exactly what it held before, but
    for the owner's own bytes of the range.  The state stays well formed, so the
    locks that were cut in two, shortened or dropped are counted right.  The type
    of the removal, which is that of an unlock, does not matter. *)
Theorem remove_lock_correct removal s :
  wf_locks s -> wf_waiting s -> valid (with_type CEPH_LOCK_SHARED removal) ->
  exists s', remove_lock removal s = Some s' /\ wf_locks s' /\ wf_waiting s' /\
    forall k t x, holds s' k t x <-> holds s k t x /\ ~ (k = okey removal /\ covers removal x).
Proof.
  intros Hwf Hww Vr. pose proof (sh_ids _ _ (wl_shape _ Hwf 0)) as Hi.
  rewrite <- (remove_lock_type CEPH_LOCK_SHARED).
  assert (Ek : okey removal = okey (with_type CEPH_LOCK_SHARED removal)) by done.
  assert (Ec : forall x, covers removal x <-> covers (with_type CEPH_LOCK_SHARED removal) x) by done.
  setoid_rewrite Ec. rewrite Ek. clear Ek Ec. set (cut := with_type CEPH_LOCK_SHARED removal) in *.
  unfold remove_lock. rewrite get_overlapping_locks_spec by done. fold (overlaps_of cut s).
  rewrite split_by_owner_spec; [|done|by intros n [? _]%elem_overlaps]. obind. fold (own_of cut s).
  assert (Hnd : NoDup (own_of cut s)).
  { repeat apply filter_nodup. eapply NoDup_fmap_1, Hi. }
  destruct (remove_olds_spec s cut (own_of cut s) s Vr Hnd) as (s' & -> & [W WW _ Honly Hrest]).
  { split; try done.
    - intros m Hm. apply elem_own in Hm as (? & ? & ?); done.
    - intros m Hm Hk Ho. by apply elem_own. }
  exists s'. split_and!; [done|done|by apply WW|]. intros k t x.
  destruct (decide (k = okey cut /\ start cut <= x < fin cut)) as [[-> Cx]|D].
  - split; [|by intros [_ []]]. intros (n & Hn & Kn & _ & Cn). exfalso.
    assert (Hin : n ∈ @nil node); [|by apply elem_of_nil in Hin]. apply Honly; [done..|].
    pose proof (sh_valid _ _ (wl_shape _ W 0)) as Hv. rewrite Forall_forall in Hv.
    apply overlap_covers; [by apply Hv|done|by exists x].
  - rewrite Hrest by done. split; [done|by intros [? _]].
Qed.

(** [look_for_lock] answers with a lock of another owner that conflicts
    with the tested one exactly when there is one, and otherwise says the range
    is free by turning the tested lock into an unlock. *)
Theorem look_for_lock_correct testing s :
  wf_locks s -> valid testing ->
  exists l, look_for_lock testing s = Some l /\
    (conflict s testing ->
      exists n, n ∈ held_locks s /\ l = second n /\ okey l <> okey testing /\ overlap l testing /\
        (type testing = CEPH_LOCK_EXCL \/ type l = CEPH_LOCK_EXCL)) /\
    (~ conflict s testing -> l = with_type CEPH_LOCK_UNLOCK testing).
Proof.
  intros Hwf Vn. pose proof (sh_ids _ _ (wl_shape _ Hwf 0)) as Hi. unfold look_for_lock.
  rewrite get_overlapping_locks_spec by done. fold (overlaps_of testing s).
  rewrite split_by_owner_spec; [|done|by intros n [? _]%elem_overlaps]. obind. fold (others_of testing s).
  destruct (others_of testing s) as [|n0 ns] eqn:Eo.
  { eexists. split; [done|]. split; [|done]. intros Hc. by apply others_nil in Eo. }
  cbn [ids map]. change (nid n0 :: map nid ns) with (ids (n0 :: ns)). rewrite <- Eo.
  assert (Hin : n0 ∈ others_of testing s) by (rewrite Eo; by left).
  apply elem_others in Hin as (Hn & Hov & Hk); [|done..].
  destruct (Z.eqb_spec (type testing) CEPH_LOCK_EXCL) as [Ht|Ht].
  - rewrite (proj2 (mm_at_elem _ _ n0 Hi)) by done. eexists. split; [done|]. split.
    + intros _. exists n0. split_and!; auto.
    + intros Hno. destruct Hno. exists n0. split_and!; auto.
  - rewrite contains_exclusive_spec; [|done|by intros n [? _]%elem_others]. obind.
    pose proof (find_type_excl testing s Hwf Vn Ht) as Hf. destruct (List.find _ _) as [n|]; simpl.
    + destruct Hf as (Hin & Hty & Hc). apply elem_others in Hin as (? & ? & ?); [|done..].
      eexists. split; [done|]. split; [|done]. intros _. exists n. split_and!; auto.
    + eexists. split; [done|]. by split.
Qed.

Definition without (c : Z) (h : list node) : list node := List.filter (fun n => negb (of_client c n)) h.

Lemma cnt_without c d h : cnt d (without c h) = if d =? c then 0 else cnt d h.
Proof.
  unfold without. induction h as [|n h IH]; simpl; [by destruct (d =? c)|]. rewrite (cnt_cons d n).
  destruct (of_client c n) eqn:Ec; simpl; rewrite ?cnt_cons, IH; unfold of_client in *;
    [apply Z.eqb_eq in Ec|apply Z.eqb_neq in Ec]; zcase.
Qed.

Lemma without_client c h n :
  Forall (fun n => first n = start (second n) /\ valid (second n)) h ->
  n ∈ without c h <-> n ∈ h /\ client (second n) <> c.
Proof.
  intros Hv. unfold without. rewrite list_elem_of_In, filter_In, <- list_elem_of_In, negb_true_iff.
  rewrite Forall_forall in Hv. split; intros [Hn Hc]; (split; [done|]); destruct (Hv n Hn) as [_ [_ _ _ _ ?]];
    unfold of_client in *; rewrite s64_small in * by lia; by apply Z.eqb_neq.
Qed.

Lemma shape_without c s :
  (forall d, shape d s) ->
  forall d, shape d (set_held_counts (map_erase (client_held_lock_counts s) c)
    (set_held (without c (held_locks s)) s)).
Proof.
  intros Hs d. destruct (Hs d) as [Hi Hf Hso Hv Hk Hc Hz]. rewrite Forall_forall in Hf, Hv.
  assert (Hsub : forall n, n ∈ without c (held_locks s) -> n ∈ held_locks s).
  { intros n Hn. apply list_elem_of_In, filter_In in Hn as [Hn _]. by apply list_elem_of_In. }
  split; simpl.
  - by apply nodup_filter.
  - rewrite Forall_forall. auto.
  - by apply sorted_filter.
  - rewrite Forall_forall. auto.
  - by apply map_erase_keys.
  - intros e. rewrite (map_find_erase 0), cnt_without by done. destruct (e =? c); [done|]. apply Hc.
  - intros e He. rewrite (map_find_erase 0) by done. destruct (e =? c); [done|]. by apply (sh_nonzero _ _ (Hs d)).
Qed.

Lemma has_client_cnt s c : (forall d, shape d s) ->
  has_client (client_held_lock_counts s) c = true <-> 0 < cnt c (held_locks s).
Proof.
  intros Hs. unfold has_client. rewrite <- (sh_counts _ _ (Hs 0)).
  pose proof (sh_nonzero _ _ (Hs (c + 1)) c) as Hz. pose proof (cnt_nonneg c (held_locks s)) as Hp.
  rewrite <- (sh_counts _ _ (Hs 0)) in Hp. destruct (map_find _ c) as [v|]; simpl in *; [|done].
  split; [|done]. intros _. destruct (Z.eq_dec v 0) as [->|]; [|lia]. destruct Hz; [lia|done].
Qed.

Lemma without_none c h : cnt c h = 0 -> without c h = h.
Proof.
  unfold without. induction h as [|n h IH]; simpl; [done|]. rewrite cnt_cons. pose proof (cnt_nonneg c h).
  destruct (of_client c n); [lia|]. simpl. intros E. by rewrite IH by lia.
Qed.

(** The sweep over the locks of one map. *)
Definition sweep (c : Z) (s : lock_state) : lock_state :=
  if has_client (client_held_lock_counts s) c
  then set_held_counts (map_erase (client_held_lock_counts s) c) (set_held (without c (held_locks s)) s)
  else s.

(** The conditional sweep leaves what the unconditional one would. *)
Lemma sweep_spec s c : (forall d, shape d s) ->
  (forall d, shape d (sweep c s)) /\ held_locks (sweep c s) = without c (held_locks s) /\
  (has_client (client_held_lock_counts s) c = true <->
    exists n, n ∈ held_locks s /\ client (second n) = c) /\
  has_client (client_held_lock_counts (sweep c s)) c = false /\
  waiting_locks (sweep c s) = waiting_locks s /\
  client_waiting_lock_counts (sweep c s) = client_waiting_lock_counts s /\
  next_id (sweep c s) = next_id s.
Proof.
  intros Hs. pose proof (has_client_cnt s c Hs) as Hb. pose proof (cnt_nonneg c (held_locks s)).
  assert (He : 0 < cnt c (held_locks s) <-> exists n, n ∈ held_locks s /\ client (second n) = c).
  { pose proof (sh_valid _ _ (Hs 0)) as Hv. revert Hv. clear. induction (held_locks s) as [|n h IH]; intros Hv.
    - split; [done|]. by intros (? & ?%elem_of_nil & _).
    - inversion Hv as [|? ? [_ [_ _ _ _ Hr]] Hv']; subst. rewrite cnt_cons. unfold of_client.
      rewrite s64_small by lia. pose proof (cnt_nonneg c h). destruct (Z.eqb_spec (client (second n)) c) as [E|E].
      + split; [|lia]. intros _. exists n. split; [by left|done].
      + rewrite Z.add_0_l, IH by done. split; intros (m & Hm & Em); exists m; (split; [|done]); [by right|].
        apply elem_of_cons in Hm as [->|]; done. }
  assert (Hw : has_client (client_held_lock_counts (sweep c s)) c = false).
  { unfold sweep. destruct (has_client _ c) eqn:E; [|done]. unfold has_client. simpl.
    rewrite (map_find_erase 0) by apply (Hs 0). by rewrite Z.eqb_refl. }
  unfold sweep in *. destruct (has_client (client_held_lock_counts s) c).
  - split_and!; try done; [by apply shape_without|tauto..].
  - assert (E : cnt c (held_locks s) = 0).
    { destruct (Z.eq_dec (cnt c (held_locks s)) 0); [done|]. assert (false = true) by (apply Hb; lia). done. }
    split_and!; try done; [by rewrite without_none|tauto..].
Qed.

Lemma remove_all_from_sweep me c s g :
  exists g', remove_all_from me c s g =
    (mirror (sweep c (mirror (sweep c s))), g', has_client (client_held_lock_counts s) c).
Proof.
  unfold remove_all_from. cbv zeta. fold (without c (held_locks s)). fold (sweep c s).
  assert (E : mirror (sweep c (mirror (sweep c s))) =
    if has_client (client_waiting_lock_counts (sweep c s)) c
    then set_waiting (without c (waiting_locks (sweep c s)))
           (map_erase (client_waiting_lock_counts (sweep c s)) c) (sweep c s)
    else sweep c s).
  { generalize (sweep c s) as t. intros t. unfold sweep. simpl. destruct (has_client _ c); [done|by destruct t]. }
  rewrite E. destruct (has_client (client_waiting_lock_counts (sweep c s)) c); by eexists.
Qed.

(** When a client goes, [remove_all_from] drops every lock it holds or
    waits for and no other, keeps the counts right, and reports whether a held
    lock went. *)
Theorem remove_all_from_correct me c s g :
  wf_locks s -> wf_waiting s ->
  let '(s', g', cleared) := remove_all_from me c s g in
  wf_locks s' /\ wf_waiting s' /\
  (forall n, n ∈ held_locks s' <-> n ∈ held_locks s /\ client (second n) <> c) /\
  (forall n, n ∈ waiting_locks s' <-> n ∈ waiting_locks s /\ client (second n) <> c) /\
  (cleared = true <-> exists n, n ∈ held_locks s /\ client (second n) = c) /\
  has_client (client_held_lock_counts s') c = false /\
  has_client (client_waiting_lock_counts s') c = false.
Proof.
  intros Hwf Hww. destruct (sweep_spec s c (wl_shape _ Hwf)) as (H1 & H2 & H3 & H4 & H5 & H6 & H7).
  assert (Hww1 : wf_waiting (sweep c s)) by (apply (wf_waiting_frame s); [done..|lia]).
  destruct (sweep_spec (mirror (sweep c s)) c Hww1) as (M1 & M2 & _ & M4 & M5 & M6 & M7).
  destruct (remove_all_from_sweep me c s g) as [g' ->]. simpl in M2. rewrite H5 in M2.
  pose proof (sh_valid _ _ (wl_shape _ Hwf 0)) as Hv. pose proof (sh_valid _ _ (Hww 0)) as Hv'.
  assert (W1 : wf_locks (sweep c s)).
  { split; [done|]. rewrite H2. intros a b [Ha _]%without_client [Hb _]%without_client; [|done..].
    by apply (wl_compat _ Hwf). }
  split_and!.
  - apply (wf_frame (sweep c s)); [done|done|by simpl; rewrite M7|done].
  - intros d. replace (mirror (mirror _)) with (sweep c (mirror (sweep c s))); [done|].
    by destruct (sweep c (mirror (sweep c s))).
  - intros n. simpl. rewrite M5. simpl. rewrite H2. by apply without_client.
  - intros n. simpl. rewrite M2. by apply without_client.
  - apply H3.
  - simpl. by rewrite M6.
  - done.
Qed.

End limited.

(** ** Examples *)

Definition ex_lock (c st len ty : Z) : filelock := MkLock st len c 7 100 ty.

(** Client 1 reads the first ten bytes, client 2 writes from byte 20 on, and
    client 3 waits for byte 25. *)
Definition ex_state : lock_state :=
  MkState CEPH_LOCK_FCNTL
    [MkNode 0 0 (ex_lock 1 0 10 CEPH_LOCK_SHARED); MkNode 1 20 (ex_lock 2 20 0 CEPH_LOCK_EXCL)]
    [MkNode 2 25 (ex_lock 3 25 1 CEPH_LOCK_SHARED)] [(1, 1); (2, 1)] [(3, 1)] 3.
Definition ex_waiters : waiters := [(ex_lock 3 25 1 CEPH_LOCK_SHARED, 0%nat)].
Definition ex_states (i : nat) : option lock_state := if (i =? 0)%nat then Some ex_state else None.

Section limited.
Context {Lm : limit}.

Lemma ex_valid c st len ty :
  0 <= st /\ st <= lim <= 2 ^ 63 -> 0 <= len -> len = 0 \/ st + len <= lim ->
  ty = CEPH_LOCK_SHARED \/ ty = CEPH_LOCK_EXCL -> 0 <= c < 2 ^ 63 -> valid (ex_lock c st len ty).
Proof. by split. Qed.

Ltac ex_valid := apply ex_valid; unfold lim in *; [lia..|by auto|lia].

Lemma ex_wf : 26 <= lim <= 2 ^ 63 -> wf_locks ex_state.
Proof.
  intros Hlim. split.
  - intros c. split; simpl.
    + by apply (bool_decide_unpack _).
    + repeat constructor.
    + repeat constructor; simpl; lia.
    + repeat (apply Forall_cons; split; [split; [done|ex_valid]|]). by apply Forall_nil.
    + lia.
    + by intros [|[p|[p|p|]|]|].
    + by intros [|[p|[p|p|]|]|] _.
  - intros a b. simpl. rewrite !elem_of_cons, !elem_of_nil.
    intros [->|[->|[]]] [->|[->|[]]] Hne x; simpl; try done; unfold covers, fin; simpl; lia.
Qed.

Lemma ex_ww : 26 <= lim <= 2 ^ 63 -> wf_waiting ex_state.
Proof.
  intros Hlim c. split; simpl.
  + by apply (bool_decide_unpack _).
  + repeat constructor.
  + repeat constructor; simpl; lia.
  + repeat (apply Forall_cons; split; [split; [done|ex_valid]|]). by apply Forall_nil.
  + lia.
  + by intros [|[[p|p|]|p|]|].
  + by intros [|[[p|p|]|p|]|] _.
Qed.

Lemma ex_waiters_ok : 26 <= lim <= 2 ^ 63 -> waiters_ok ex_states ex_waiters.
Proof.
  intros Hlim. split; [by repeat constructor|]. constructor; [|constructor]. split; [ex_valid|].
  exists ex_state. split; [done|]. by apply ex_wf.
Qed.

End limited.

Ltac ex_valid := apply ex_valid; unfold lim; [lia..|by auto|lia].

(** Client 1 asks for bytes 5 to 19 as well: one lock of twenty bytes. *)
Lemma add_lock_witness :
  ar_lock <$> add_lock ex_states 0 (ex_lock 1 5 15 CEPH_LOCK_SHARED) true false ex_state ex_waiters =
    Some (ex_lock 1 0 20 CEPH_LOCK_SHARED) /\
  exists r, add_lock ex_states 0 (ex_lock 1 5 15 CEPH_LOCK_SHARED) true false ex_state ex_waiters = Some r /\
    add_outcome (Lm := 2 ^ 31) ex_states 0 (ex_lock 1 5 15 CEPH_LOCK_SHARED) true false ex_state ex_waiters r.
Proof.
  split; [reflexivity|].
  apply (add_lock_correct (Lm := 2 ^ 31) ex_states 0 (ex_lock 1 5 15 CEPH_LOCK_SHARED) true false ex_state ex_waiters);
    [done|by apply ex_wf|by apply ex_ww|ex_valid|by apply ex_waiters_ok].
Defined.

(** Three bytes in the middle of a terabyte are cut out of the lock of client 2. *)
Lemma remove_lock_witness :
  (fun s => map second (held_locks s)) <$> remove_lock (ex_lock 2 (2 ^ 40) 3 CEPH_LOCK_UNLOCK) ex_state =
    Some [ex_lock 1 0 10 CEPH_LOCK_SHARED; ex_lock 2 20 (2 ^ 40 - 20) CEPH_LOCK_EXCL;
          ex_lock 2 (2 ^ 40 + 3) 0 CEPH_LOCK_EXCL] /\
  exists s', remove_lock (ex_lock 2 (2 ^ 40) 3 CEPH_LOCK_UNLOCK) ex_state = Some s' /\
    wf_locks (Lm := 2 ^ 63) s' /\ wf_waiting (Lm := 2 ^ 63) s' /\
    forall k t x, holds s' k t x <->
      holds ex_state k t x /\
      ~ (k = okey (ex_lock 2 (2 ^ 40) 3 CEPH_LOCK_UNLOCK) /\ covers (ex_lock 2 (2 ^ 40) 3 CEPH_LOCK_UNLOCK) x).
Proof.
  split; [reflexivity|]. apply (remove_lock_correct (Lm := 2 ^ 63) (ex_lock 2 (2 ^ 40) 3 CEPH_LOCK_UNLOCK) ex_state);
    [by apply ex_wf|by apply ex_ww|]. change (valid (Lm := 2 ^ 63) (ex_lock 2 (2 ^ 40) 3 CEPH_LOCK_SHARED)). ex_valid.
Defined.

Lemma look_for_lock_witness :
  exists l, look_for_lock (ex_lock 1 30 5 CEPH_LOCK_SHARED) ex_state = Some l /\
    (conflict ex_state (ex_lock 1 30 5 CEPH_LOCK_SHARED) ->
      exists n, n ∈ held_locks ex_state /\ l = second n /\ okey l <> okey (ex_lock 1 30 5 CEPH_LOCK_SHARED) /\
        overlap l (ex_lock 1 30 5 CEPH_LOCK_SHARED) /\
        (type (ex_lock 1 30 5 CEPH_LOCK_SHARED) = CEPH_LOCK_EXCL \/ type l = CEPH_LOCK_EXCL)) /\
    (~ conflict ex_state (ex_lock 1 30 5 CEPH_LOCK_SHARED) ->
      l = with_type CEPH_LOCK_UNLOCK (ex_lock 1 30 5 CEPH_LOCK_SHARED)).
Proof.
  apply (look_for_lock_correct (Lm := 2 ^ 63) (ex_lock 1 30 5 CEPH_LOCK_SHARED) ex_state); [by apply ex_wf|ex_valid].
Defined.

Lemma remove_all_from_witness :
  let '(s', g', cleared) := remove_all_from 0 3 ex_state ex_waiters in
  wf_locks (Lm := 2 ^ 63) s' /\ wf_waiting (Lm := 2 ^ 63) s' /\
  (forall n, n ∈ held_locks s' <-> n ∈ held_locks ex_state /\ client (second n) <> 3) /\
  (forall n, n ∈ waiting_locks s' <-> n ∈ waiting_locks ex_state /\ client (second n) <> 3) /\
  (cleared = true <-> exists n, n ∈ held_locks ex_state /\ client (second n) = 3) /\
  has_client (client_held_lock_counts s') 3 = false /\
  has_client (client_waiting_lock_counts s') 3 = false.
Proof. apply (remove_all_from_correct (Lm := 2 ^ 63) 0 3 ex_state ex_waiters); [by apply ex_wf|by apply ex_ww]. Defined.

(** [adjust_locks] keeps the end of a merged lock in an [int]: of two locks of
    one owner at 2 GiB, the merged one does not cover the bytes of either. *)
Example merge_end_truncated :
  let old := ex_lock 1 (2 ^ 31) 100 CEPH_LOCK_SHARED in
  let new := ex_lock 1 (2 ^ 31 + 50) 100 CEPH_LOCK_SHARED in
  let s := MkState CEPH_LOCK_FCNTL [MkNode 0 (2 ^ 31) old] [] [(1, 1)] [] 1 in
  ar_lock <$> add_lock (fun _ => None) 0 new false false s [] =
  Some (ex_lock 1 (2 ^ 31) (2 ^ 64 - 2 ^ 32 + 150) CEPH_LOCK_SHARED).
Proof. vm_compute. reflexivity. Qed.
End FlockCorrect.
