(* ===== verification/Double.v ===== *)
(** * Doubles

    The balancer computes with [double].  Its operations are the members of a
    class, so that the code is one definition for both instances: the binary64
    of IEEE 754 (the specification of floats of the Standard Library), in which
    the examples are evaluated, and the exact rationals, in which what the
    arithmetic means to compute is proved.  [sqrt], [exp] and [pow] are libm's,
    and are parameters where they are used. *)

From Stdlib Require Import QArith Qround SpecFloat.
From S2P Require Import Prelude.

Declare Scope double_scope.
Delimit Scope double_scope with D.

Class Double (D : Type) := {
  d_int : Z -> D;
  d_ratio : Z -> positive -> D;
  dadd : D -> D -> D;
  dsub : D -> D -> D;
  dmul : D -> D -> D;
  ddiv : D -> D -> D;
  dlt : D -> D -> bool;
  dle : D -> D -> bool;
  deq : D -> D -> bool;
  to_float : D -> D;
  to_int : D -> Z
}.

Infix "+" := dadd : double_scope.
Infix "-" := dsub : double_scope.
Infix "*" := dmul : double_scope.
Infix "/" := ddiv : double_scope.
Infix "<?" := dlt : double_scope.
Infix "<=?" := dle : double_scope.
Infix "=?" := deq : double_scope.
Notation "x >? y" := (dlt y x) (at level 70) : double_scope.
Notation "x >=? y" := (dle y x) (at level 70) : double_scope.

(** ** binary64 *)

Definition binary64 : Type := spec_float.

Definition b64_prec : Z := 53.
Definition b64_emax : Z := 1024.

Definition b64_int (z : Z) : binary64 := binary_normalize b64_prec b64_emax z 0 false.

(** The nearest value of single precision. *)
Definition b64_single (x : binary64) : binary64 :=
  match x with
  | S754_finite s m e =>
      match binary_round 24 128 s m e with
      | S754_finite s m e => binary_round b64_prec b64_emax s m e
      | y => y
      end
  | _ => x
  end.

(** Truncation. *)
Definition b64_trunc (x : binary64) : Z :=
  match x with
  | S754_finite s m e =>
      let a := if 0 <=? e then Zpos m * 2 ^ e else Zpos m / 2 ^ (- e) in
      if s then - a else a
  | _ => 0
  end.

#[export] Instance binary64_double : Double binary64 := {
  d_int := b64_int;
  d_ratio n d := SFdiv b64_prec b64_emax (b64_int n) (b64_int (Zpos d));
  dadd := SFadd b64_prec b64_emax;
  dsub := SFsub b64_prec b64_emax;
  dmul := SFmul b64_prec b64_emax;
  ddiv := SFdiv b64_prec b64_emax;
  dlt := SFltb;
  dle := SFleb;
  deq := SFeqb;
  to_float := b64_single;
  to_int := b64_trunc
}.

(** ** Exact arithmetic *)

Definition Qltb (x y : Q) : bool := negb (Qle_bool y x).
Definition Qtrunc (x : Q) : Z := if Qle_bool 0 x then Qfloor x else Qceiling x.

#[export] Instance Q_double : Double Q := {
  d_int := inject_Z;
  d_ratio := Qmake;
  dadd := Qplus;
  dsub := Qminus;
  dmul := Qmult;
  ddiv := Qdiv;
  dlt := Qltb;
  dle := Qle_bool;
  deq := Qeq_bool;
  to_float x := x;
  to_int := Qtrunc
}.

Lemma dlt_Q (x y : Q) : dlt x y = true <-> (x < y)%Q.
Proof.
  unfold dlt. simpl. unfold Qltb. rewrite negb_true_iff, <- not_true_iff_false, Qle_bool_iff.
  split; [apply Qnot_le_lt|apply Qlt_not_le].
Qed.

Lemma dle_Q (x y : Q) : dle x y = true <-> (x <= y)%Q.
Proof. apply Qle_bool_iff. Qed.

Lemma dlt_Q_false (x y : Q) : dlt x y = false <-> (y <= x)%Q.
Proof. rewrite <- not_true_iff_false, dlt_Q. split; [apply Qnot_lt_le|intros ? ?; by apply (Qlt_not_le x y)]. Qed.

Lemma dle_Q_false (x y : Q) : dle x y = false <-> (y < x)%Q.
Proof. rewrite <- not_true_iff_false, dle_Q. split; [apply Qnot_le_lt|apply Qlt_not_le]. Qed.

(** A quotient of integers: its product, and where it is in the unit interval. *)
Lemma ratio_Q (a b : Z) :
  0 < b -> ((inject_Z a / inject_Z b) * inject_Z b == inject_Z a)%Q /\
  (a <= b <-> (inject_Z a / inject_Z b <= 1)%Q) /\ (0 <= a <-> (0 <= inject_Z a / inject_Z b)%Q).
Proof.
  intros Hb. assert (Hq : (0 < inject_Z b)%Q) by (by rewrite <- (Zlt_Qlt 0)).
  split_and!.
  - field. intros E. rewrite E in Hq. by apply Qlt_irrefl in Hq.
  - rewrite Zle_Qle. split; intros H; [apply Qle_shift_div_r; [done|by rewrite Qmult_1_l]|].
    apply (Qmult_le_r _ _ (/ inject_Z b)); [by apply Qinv_lt_0_compat|].
    change (inject_Z a / inject_Z b <= inject_Z b / inject_Z b)%Q.
    unfold Qdiv at 2. rewrite Qmult_inv_r; [done|]. intros E. rewrite E in Hq. by apply Qlt_irrefl in Hq.
  - rewrite (Zle_Qle 0 a). split; intros H; [apply Qle_shift_div_l; [done|by rewrite Qmult_0_l]|].
    apply (Qmult_le_r _ _ (/ inject_Z b)); [by apply Qinv_lt_0_compat|]. rewrite Qmult_0_l. exact H.
Qed.

(** Subtracting a number of binary64 from itself gives zero. *)
Definition finite64 (x : binary64) : Prop :=
  match x with S754_zero _ | S754_finite _ _ _ => True | _ => False end.

Lemma b64_sub_self (x : binary64) : finite64 x -> dsub x x = S754_zero false.
Proof.
  destruct x as [s|s| |s m e]; try done; intros _; [by destruct s|].
  cbn [dsub binary64_double]. unfold SFsub. by rewrite Z.sub_diag.
Qed.
