(* ===== verification/PathUtil.v ===== *)
(** * Paths and workloads, src/mds/adsl/PathUtil.cc

    The strings of the tracing code as lists of characters, the ordered map
    with string keys, and [WL_Matcher], which names the workload a path belongs
    to. *)

From Stdlib Require Import Ascii String.
From stdpp Require Import list.
From S2P Require Import Prelude.

Abbreviation str := (list ascii).

(** [s "..."] is a literal. *)
Definition s_ (x : string) : str := list_ascii_of_string x.

Module Str.

Definition eqb (a b : str) : bool := bool_decide (a = b).

(** The order of [std::string]: characters compare as unsigned. *)
Fixpoint ltb (a b : str) : bool :=
  match a, b with
  | _, [] => false
  | [], _ :: _ => true
  | x :: a, y :: b =>
      if (N_of_ascii x <? N_of_ascii y)%N then true
      else if (N_of_ascii y <? N_of_ascii x)%N then false
      else ltb a b
  end.

Fixpoint prefixb (p x : str) : bool :=
  match p, x with
  | [], _ => true
  | _, [] => false
  | c :: p, d :: x => bool_decide (c = d) && prefixb p x
  end.

(** [x.find(p, pos)]; [None] is [npos]. *)
Fixpoint find (p x : str) : option nat :=
  if prefixb p x then Some 0%nat
  else match x with [] => None | _ :: x => S <$> find p x end.
Definition find_at (p x : str) (pos : nat) : option nat :=
  if (length x <? pos)%nat then None else (fun n => pos + n)%nat <$> find p (drop pos x).

Lemma prefixb_spec p x : prefixb p x = true <-> exists r, x = p ++ r.
Proof.
  revert x. induction p as [|c p IH]; intros x; simpl; [split; [by exists x|done]|].
  destruct x as [|d x]; [split; [done|by intros [? ?]]|].
  rewrite andb_true_iff, bool_decide_eq_true, IH. split.
  - intros [-> [r ->]]. by exists r.
  - intros [r [= -> ->]]. split; [done|by exists r].
Qed.

Lemma find_cons p c x :
  find p (c :: x) = if prefixb p (c :: x) then Some 0%nat else S <$> find p x.
Proof. done. Qed.

Lemma find_nil p : find p [] = if prefixb p [] then Some 0%nat else None.
Proof. done. Qed.

Lemma find_zero p x : find p x = Some 0%nat <-> prefixb p x = true.
Proof.
  destruct x as [|c x].
  - rewrite find_nil. by destruct (prefixb p []).
  - rewrite find_cons. destruct (prefixb p (c :: x)); [done|]. by destruct (find p x).
Qed.

(** A pattern is found exactly when it is a part of the string. *)
Lemma find_spec p x : (exists n, find p x = Some n) <-> exists a b, x = a ++ p ++ b.
Proof.
  induction x as [|c x IH].
  - rewrite find_nil. destruct (prefixb p []) eqn:E.
    + apply prefixb_spec in E as [r E]. split; [|by exists 0%nat]. intros _. by exists [], r.
    + split; [by intros [? ?]|]. intros (a & b & H). exfalso. apply not_true_iff_false in E. apply E.
      apply prefixb_spec. destruct a; [by exists b|done].
  - rewrite find_cons. destruct (prefixb p (c :: x)) eqn:E.
    + apply prefixb_spec in E as [r E]. split; [|by exists 0%nat]. intros _. by exists [], r.
    + split.
      * intros [n H]. destruct (find p x) as [m|] eqn:Em; [|done].
        destruct (proj1 IH (ex_intro _ m eq_refl)) as (a & b & ->). by exists (c :: a), b.
      * intros ([|a0 a] & b & H).
        { apply not_true_iff_false in E. destruct E. apply prefixb_spec. by exists b. }
        injection H as -> ->. destruct (proj2 IH) as [n ->]; [by exists a, b|]. by exists (S n).
Qed.
End Str.

(** ** Ordered maps with string keys *)

Module StrMap.

Fixpoint find {V} (m : list (str * V)) (k : str) : option V :=
  match m with
  | [] => None
  | (k', v) :: m => if Str.eqb k' k then Some v else find m k
  end.

(** [insert] leaves an entry that is there. *)
Fixpoint insert {V} (m : list (str * V)) (k : str) (v : V) : list (str * V) :=
  match m with
  | [] => [(k, v)]
  | (k', v') :: m' =>
      if Str.ltb k' k then (k', v') :: insert m' k v
      else if Str.eqb k' k then m
      else (k, v) :: m
  end.

(** Changing the value of an entry through an iterator. *)
Fixpoint update {V} (m : list (str * V)) (k : str) (f : V -> V) : list (str * V) :=
  match m with
  | [] => []
  | (k', v) :: m => if Str.eqb k' k then (k', f v) :: m else (k', v) :: update m k f
  end.

Lemma eqb_refl k : Str.eqb k k = true.
Proof. by apply bool_decide_eq_true. Qed.

Lemma ltb_irrefl k : Str.ltb k k = false.
Proof. induction k as [|c k IH]; simpl; [done|]. by rewrite N.ltb_irrefl. Qed.

Lemma insert_find {V} (m : list (str * V)) k v k' :
  find m k = None -> find (insert m k v) k' = if Str.eqb k k' then Some v else find m k'.
Proof.
  induction m as [|[j w] m IH]; simpl; intros H; [done|]. destruct (Str.eqb j k) eqn:E; [done|].
  destruct (Str.ltb j k); simpl.
  - rewrite IH by done. destruct (Str.eqb j k') eqn:E1; [|done].
    apply bool_decide_eq_true in E1. subst j. destruct (Str.eqb k k') eqn:E2; [|done].
    apply bool_decide_eq_true in E2. subst. by rewrite eqb_refl in E.
  - done.
Qed.

Lemma update_find {V} (m : list (str * V)) k f k' :
  find (update m k f) k' = if Str.eqb k k' then f <$> find m k' else find m k'.
Proof.
  induction m as [|[j w] m IH]; simpl; [by destruct (Str.eqb k k')|].
  destruct (Str.eqb j k) eqn:E; simpl.
  - apply bool_decide_eq_true in E. subst j. by destruct (Str.eqb k k').
  - rewrite IH. destruct (Str.eqb j k') eqn:E1; [|done]. apply bool_decide_eq_true in E1. subst j.
    destruct (Str.eqb k k') eqn:E2; [|done]. apply bool_decide_eq_true in E2. subst. by rewrite eqb_refl in E.
Qed.
End StrMap.

(** ** Workloads *)

Module PathUtil.

Inductive WorkloadType := WLT_SCAN | WLT_ZIPF | WLT_MIXED | WLT_ROOT.

(** The constructor's [patterns]. *)
Definition patterns : list (str * str) :=
  foldl (fun m kv => StrMap.insert m (s_ kv.1) (s_ kv.2)) []
    [("ai", "/ai"); ("tar", "/tar/"); ("tar_0", "/tar_0/"); ("tar_1", "/tar_1/");
     ("tar_2", "/tar_2/"); ("tar_3", "/tar_3/"); ("tar_4", "/tar_4/");
     ("ycsb-zipfian", "/ycsbzipf"); ("web", "/web"); ("fb-create", "/filebench/fb_create");
     ("fb-lsdir", "/filebench/fb_lsdir"); ("fb-stat", "/filebench/fb_stat");
     ("fb-zipfian", "/filebench/fb_zipfian/"); ("test", "/test")]%string.

Fixpoint match_in (pats : list (str * str)) (path : str) : str :=
  match pats with
  | [] => s_ "other"
  | (key, pat) :: pats =>
      match Str.find pat path with Some _ => key | None => match_in pats path end
  end.

(** [WL_Matcher::match] *)
Definition match_ (path : str) : str :=
  match path with [] => s_ "root" | _ => match_in patterns path end.

Definition workload2type (typestr : str) : WorkloadType :=
  let is_one_of := existsb (fun x => Str.eqb typestr (s_ x)) in
  if is_one_of ["ai"; "tar"; "tar_0"; "tar_1"; "tar_2"; "tar_3"; "tar_4"; "fb-lsdir"; "fb-stat"]%string
  then WLT_SCAN
  else if is_one_of ["web"; "test"; "ycsb-zipfian"; "fb-zipfian"; "fb-create"]%string then WLT_ZIPF
  else if is_one_of ["root"]%string then WLT_ROOT
  else WLT_MIXED.

Definition req2workload (reqs : list (str * Z)) : list (str * Z) :=
  foldl (fun cnt_map r =>
    let workload := match_ r.1 in
    match StrMap.find cnt_map workload with
    | Some _ => StrMap.update cnt_map workload (fun n => s32 (n + r.2))
    | None => StrMap.insert cnt_map workload r.2
    end) [] reqs.

Definition part_of (p x : str) : Prop := exists a b, x = a ++ p ++ b.

Lemma match_in_spec pats path :
  (exists pre k pat post, pats = pre ++ (k, pat) :: post /\ match_in pats path = k /\ part_of pat path /\
     Forall (fun kp => ~ part_of kp.2 path) pre) \/
  (match_in pats path = s_ "other" /\ Forall (fun kp => ~ part_of kp.2 path) pats).
Proof.
  induction pats as [|[k pat] pats IH]; simpl; [by right|].
  destruct (Str.find pat path) as [n|] eqn:E.
  - left. exists [], k, pat, pats. split_and!; [done..|apply Str.find_spec; by exists n|constructor].
  - assert (Hn : ~ part_of pat path).
    { intros H. apply Str.find_spec in H as [n H]. congruence. }
    destruct IH as [(pre & k' & pat' & post & -> & H1 & H2 & H3)|[H1 H2]]; [left|right].
    + exists ((k, pat) :: pre), k', pat', post. split_and!; [done..|by constructor].
    + split; [done|by constructor].
Qed.

(** The workload of a path is [root] for the empty path, the key of the
    first pattern, in key order, that is a part of the path, or [other] when
    none is; [workload2type] classifies as root the empty path and no other. *)
Theorem match_correct path :
  (path = [] -> match_ path = s_ "root") /\
  (path <> [] ->
    (exists pre k pat post, patterns = pre ++ (k, pat) :: post /\ match_ path = k /\ part_of pat path /\
       Forall (fun kp => ~ part_of kp.2 path) pre) \/
    (match_ path = s_ "other" /\ Forall (fun kp => ~ part_of kp.2 path) patterns)) /\
  (workload2type (match_ path) = WLT_ROOT <-> path = []).
Proof.
  split; [by intros ->|]. destruct path as [|c path]; [by split|].
  pose proof (match_in_spec patterns (c :: path)) as H. split; [by intros _|].
  split; [|done]. change (match_ (c :: path)) with (match_in patterns (c :: path)).
  assert (Hk : Forall (fun kp => workload2type kp.1 <> WLT_ROOT) patterns)
    by (vm_compute; repeat constructor; discriminate).
  destruct H as [(pre & k & pat & post & Ep & -> & _)|[-> _]]; [|by vm_compute].
  rewrite Ep in Hk. apply Forall_app in Hk as [_ Hk]. by apply Forall_inv in Hk.
Qed.

(** ** Requests per workload *)

Definition requests_of (w : str) (reqs : list (str * Z)) : Z :=
  foldr (fun r n => (if Str.eqb (match_ r.1) w then r.2 else 0) + n) 0 reqs.

Lemma requests_of_nonneg w reqs : Forall (fun r => 0 <= r.2) reqs -> 0 <= requests_of w reqs.
Proof. induction 1 as [|r reqs H _ IH]; simpl; [done|]. destruct (Str.eqb _ _); lia. Qed.

Lemma requests_of_app w a b : requests_of w (a ++ b) = requests_of w a + requests_of w b.
Proof. induction a as [|r a IH]; simpl; [done|]. rewrite IH. lia. Qed.

(** [req2workload] adds up the requests of the paths of each workload, as
    long as the sums fit the counter. *)
Theorem req2workload_correct reqs :
  Forall (fun r => 0 <= r.2) reqs -> (forall w, requests_of w reqs < 2 ^ 31) ->
  forall w, default 0 (StrMap.find (req2workload reqs) w) = requests_of w reqs.
Proof.
  unfold req2workload. induction reqs as [|r reqs IH] using rev_ind; intros Hp Hb w; [done|].
  apply Forall_app in Hp as [Hp Hr]. apply Forall_inv in Hr. rewrite foldl_app. simpl.
  assert (Hs : forall w, requests_of w reqs <= requests_of w (reqs ++ [r])).
  { intros w'. rewrite requests_of_app. simpl. destruct (Str.eqb _ _); lia. }
  specialize (IH Hp (fun w => Z.le_lt_trans _ _ _ (Hs w) (Hb w))).
  set (m := foldl _ [] reqs) in *. rewrite requests_of_app. simpl. rewrite Z.add_0_r.
  destruct (StrMap.find m (match_ r.1)) as [n|] eqn:E.
  - rewrite StrMap.update_find, <- IH. destruct (Str.eqb (match_ r.1) w) eqn:Ew; [|lia].
    apply bool_decide_eq_true in Ew. subst w. rewrite E. simpl. apply s32_small.
    specialize (Hb (match_ r.1)). rewrite requests_of_app, <- IH, E in Hb. simpl in Hb.
    rewrite StrMap.eqb_refl in Hb. pose proof (requests_of_nonneg (match_ r.1) reqs Hp) as Hn.
    rewrite <- IH, E in Hn. simpl in Hn. lia.
  - rewrite StrMap.insert_find, <- IH by done. destruct (Str.eqb (match_ r.1) w) eqn:Ew; [|lia].
    apply bool_decide_eq_true in Ew. subst w. rewrite E. simpl. lia.
Qed.

Lemma req2workload_witness :
  let reqs := [(s_ "/web/a", 3); (s_ "/ai/x", 2); (s_ "/web/b", 4)] in
  req2workload reqs = [(s_ "ai", 2); (s_ "web", 7)] /\
  forall w, default 0 (StrMap.find (req2workload reqs) w) = requests_of w reqs.
Proof.
  split; [reflexivity|]. apply (req2workload_correct [(s_ "/web/a", 3); (s_ "/ai/x", 2); (s_ "/web/b", 4)]).
  - by repeat constructor.
  - intros w. unfold requests_of. simpl. repeat destruct (Str.eqb _ w); lia.
Defined.
End PathUtil.
