(* ===== verification/ReqTracer.v ===== *)
(** * The request tracer, src/mds/adsl/ReqTracer.h and ReqTracer.cc

    [ReqTracer] counts the requests of each path per epoch and keeps the last
    epochs in a queue; [alpha_beta] reads off it how much of a subtree is
    visited again.  [string::back] of an empty string is undefined and is
    [None], as are the iterators of an empty queue. *)

From Stdlib Require Import Ascii String QArith Lqa.
From stdpp Require Import list.
From S2P Require Import Prelude Double PathUtil.

Module ReqTracer.

Definition slash : ascii := "/"%char.
Definition REQTRACER_QUEUE_LEN_DEFAULT : nat := 5.

(** The [while] of [polish], from the back of the string. *)
Fixpoint polish_rev (r : str) : option str :=
  match r with
  | [] => None
  | c :: r' => if bool_decide (c = slash) then polish_rev r' else Some r
  end.
Definition polish (path : str) : option str :=
  r ← polish_rev (rev path);
  let path := rev r in
  Some (if (length path =? 0)%nat then [slash] else path).

Definition check_path_under (parent child : str) (direct : bool) : bool :=
  if Str.eqb parent child then true
  else
    match Str.find (if negb (Str.eqb parent [slash]) then parent ++ [slash] else parent) child with
    | Some O =>
        if direct then
          match Str.find_at [slash] child (length parent + 1) with None => true | Some _ => false end
        else true
    | _ => false
    end.

(** ** ReqCollector *)

Abbreviation coll := (list (str * Z)).

Definition collector_hit (path : str) (c : coll) : option coll :=
  path ← polish path;
  Some (match StrMap.find c path with
        | Some _ => StrMap.update c path (fun n => s32 (n + 1))
        | None => StrMap.insert c path 1
        end).

Definition has (path : str) (nested : bool) (c : coll) : option bool :=
  path ← polish path;
  Some (if negb nested then match StrMap.find c path with Some _ => true | None => false end
        else existsb (fun kv => check_path_under path kv.1 false) c).

Definition get (path : str) (nested : bool) (c : coll) : option Z :=
  path ← polish path;
  Some (if negb nested then default 0 (StrMap.find c path)
        else foldl (fun n kv => if check_path_under path kv.1 false then s32 (n + kv.2) else n) 0 c).

Definition size (c : coll) : Z := Z.of_nat (length c).
Definition total (c : coll) : Z := foldl (fun n kv => s32 (n + kv.2)) 0 c.

(** ** ReqTracer *)

Record tracer := MkTracer { _data : list coll; _last : coll }.

Definition new_tracer (queue_len : nat) : tracer := MkTracer (repeat [] queue_len) [].

(** Any of the epochs but the newest. *)
Fixpoint visited_in (path : str) (nested : bool) (data : list coll) : option bool :=
  match data with
  | [] => None
  | [_] => Some false
  | c :: data => b ← has path nested c; if (b : bool) then Some true else visited_in path nested data
  end.
Definition visited (path : str) (nested : bool) (t : tracer) : option bool :=
  visited_in path nested (_data t).

Fixpoint visited_count_in (path : str) (nested : bool) (data : list coll) (count : Z) : option Z :=
  match data with
  | [] => Some count
  | c :: data => n ← get path nested c; visited_count_in path nested data (s32 (count + n))
  end.
Definition visited_count (path : str) (nested : bool) (t : tracer) : option Z :=
  visited_count_in path nested (_data t) 0.

Definition switch_epoch (t : tracer) : option tracer :=
  assert! (0 <? Z.of_nat (length (_data t)));
  Some (MkTracer (tail (_data t) ++ [_last t]) []).

Definition hit (path : str) (t : tracer) : option tracer :=
  c ← collector_hit path (_last t);
  Some (MkTracer (_data t) c).

Record counts := MkCounts { oldcnt : Z; newcnt : Z; betacnt : Z; betastrs : list str }.

(** The loop of [alpha_beta] over the newest epoch. *)
Fixpoint alpha_beta_loop (path : str) (t : tracer) (c : coll) (k : counts) : option counts :=
  match c with
  | [] => Some k
  | (fullpath, n) :: c =>
      if negb (check_path_under path fullpath false) then alpha_beta_loop path t c k
      else
        v ← visited fullpath true t;
        alpha_beta_loop path t c
          (if (v : bool) then
             MkCounts (s32 (oldcnt k + n)) (newcnt k) (s32 (betacnt k + 1)) (betastrs k ++ [fullpath])
           else MkCounts (oldcnt k) (s32 (newcnt k + n)) (betacnt k) (betastrs k))
  end.

Section ab.
Context {D} `{Double D}.

Definition ratios (subtree_size : Z) (k : counts) : D * D :=
  let total := s32 (oldcnt k + newcnt k) in
  let alpha := if negb (total =? 0) then (d_int (oldcnt k) / d_int (s32 (oldcnt k + newcnt k)))%D else d_int 0 in
  let beta := if negb (subtree_size =? 0)
              then (d_int (s32 (subtree_size - betacnt k)) / d_int subtree_size)%D else d_int 0 in
  (alpha, beta).

Definition alpha_beta (path : str) (subtree_size : Z) (strs : list str) (t : tracer)
  : option (D * D * list str) :=
  c ← last (_data t);
  k ← alpha_beta_loop path t c (MkCounts 0 0 0 strs);
  Some (ratios subtree_size k, betastrs k).
End ab.

(** ** Paths *)

Lemma polish_rev_spec r q :
  polish_rev r = Some q <-> exists n c r', r = repeat slash n ++ c :: r' /\ q = c :: r' /\ c <> slash.
Proof.
  induction r as [|c r IH]; simpl.
  - split; [done|]. by intros ([|n] & c & r' & H & _).
  - destruct (bool_decide_reflect (c = slash)) as [->|Hc].
    + rewrite IH. split; intros (n & d & r' & H & -> & Hd).
      * exists (S n), d, r'. by rewrite H.
      * destruct n as [|n]; simpl in H; [by injection H as <- _|]. injection H as ->. by exists n, d, r'.
    + split; [intros [= <-]; by exists 0%nat, c, r|]. intros ([|n] & d & r' & H & -> & Hd); [by rewrite H|].
      by injection H as ->.
Qed.

Lemma repeat_rev {A} (x : A) n : rev (repeat x n) = repeat x n.
Proof.
  induction n as [|n IH]; simpl; [done|]. rewrite IH. clear. induction n as [|n IH]; simpl; [done|]. by rewrite IH.
Qed.

(** A polished path has no trailing slash. *)
Lemma polish_spec p q :
  polish p = Some q <-> exists n, p = q ++ repeat slash n /\ exists r c, q = r ++ [c] /\ c <> slash.
Proof.
  unfold polish. rewrite bind_Some. split.
  - intros (x & Hx & [= <-]). apply polish_rev_spec in Hx as (n & c & r' & E & -> & Hc).
    assert (Ep : p = rev (c :: r') ++ repeat slash n).
    { rewrite <- (rev_involutive p), E, rev_app_distr, repeat_rev. done. }
    simpl in Ep |- *. rewrite length_app, Nat.add_comm. simpl. exists n. split; [done|]. by exists (rev r'), c.
  - intros (n & -> & r & c & -> & Hc). exists (c :: rev r). split.
    + apply polish_rev_spec. exists n, c, (rev r). split; [|done].
      rewrite !rev_app_distr, repeat_rev. done.
    + simpl. rewrite rev_involutive, length_app, Nat.add_comm. done.
Qed.

Lemma polish_polished p q : polish p = Some q -> polish q = Some q.
Proof.
  intros (n & _ & H)%polish_spec. apply polish_spec. exists 0%nat. by rewrite app_nil_r.
Qed.

(** The loop reads the back of the emptied string: the path of the root, for
    which the rest of the function is there, is never polished. *)
Example polish_root : polish [slash] = None /\ polish [] = None.
Proof. done. Qed.

(** An absolute path of components. *)
Definition component (c : str) : Prop := c <> [] /\ slash ∉ c.
Fixpoint join (cs : list str) : str := match cs with [] => [] | c :: cs => slash :: c ++ join cs end.
Definition path_of (cs : list str) : str := match cs with [] => [slash] | _ => join cs end.

Definition slash_or_end (x : str) : Prop := match x with [] => True | c :: _ => c = slash end.

Lemma join_slash cs : slash_or_end (join cs).
Proof. by destruct cs. Qed.

Lemma component_split a b x y :
  slash ∉ a -> slash ∉ b -> slash_or_end x -> slash_or_end y -> a ++ x = b ++ y -> a = b /\ x = y.
Proof.
  revert b. induction a as [|c a IH]; intros [|d b] Ha Hb Hx Hy E; simpl in *; try done.
  - subst x. simpl in Hx. subst d. destruct Hb. by left.
  - subst y. simpl in Hy. subst c. destruct Ha. by left.
  - injection E as -> E. apply not_elem_of_cons in Ha as [_ Ha], Hb as [_ Hb].
    destruct (IH b Ha Hb Hx Hy E) as [-> ->]. done.
Qed.

Lemma join_app a b : join (a ++ b) = join a ++ join b.
Proof. induction a as [|c a IH]; simpl; [done|]. by rewrite IH, <- app_assoc. Qed.

(** What follows a path is a path. *)
Lemma join_extends p c r :
  Forall component p -> Forall component c -> slash_or_end r -> join c = join p ++ r ->
  exists k, c = p ++ k /\ r = join k.
Proof.
  intros Hp. revert c. induction Hp as [|a p [_ Ha] Hp IH]; intros c Hc Hr E; simpl in E; [by exists c|].
  destruct c as [|b c]; [done|]. simpl in E. injection E as E. inversion Hc as [|? ? [_ Hb] Hc']; subst.
  rewrite <- app_assoc in E.
  apply component_split in E as [-> E]; [|done|done|apply join_slash|].
  - destruct (IH c Hc' Hr E) as (k & -> & ->). by exists k.
  - pose proof (join_slash p). destruct (join p); [exact Hr|done].
Qed.

Lemma join_length cs : Forall component cs -> (2 * length cs <= length (join cs))%nat.
Proof.
  induction 1 as [|c cs [Hc _] _ IH]; simpl; [lia|]. rewrite length_app. destruct c; [done|]. simpl. lia.
Qed.

Lemma find_slash_none x : Str.find [slash] x = None <-> slash ∉ x.
Proof.
  destruct (Str.find [slash] x) as [n|] eqn:E.
  - split; [done|]. intros H. destruct (proj1 (Str.find_spec [slash] x)) as (a & b & ->); [by exists n|].
    destruct H. set_solver.
  - split; [|done]. intros _ H. apply list_elem_of_split in H as (a & b & ->).
    destruct (proj2 (Str.find_spec [slash] (a ++ slash :: b))) as [n En]; [by exists a, b|congruence].
Qed.

Lemma no_slash_join k : slash ∉ join k <-> k = [].
Proof. destruct k as [|c k]; simpl; [set_solver|]. set_solver. Qed.

(** The test for a direct child: no slash after the first component. *)
Lemma direct_spec p k :
  Forall component p -> Forall component k -> k <> [] ->
  Str.find_at [slash] (path_of (p ++ k)) (length (path_of p) + 1) = None <-> (length k <= 1)%nat.
Proof.
  intros Hp Hk Hne. destruct k as [|x k]; [done|]. inversion Hk as [|? ? [Hx0 Hx] Hk']; subst.
  assert (E : path_of (p ++ x :: k) = join p ++ slash :: x ++ join k).
  { transitivity (join (p ++ x :: k)); [by destruct p|]. by rewrite join_app. }
  assert (Hs : forall y, slash ∉ y -> slash ∉ y ++ join k <-> (length (x :: k) <= 1)%nat).
  { intros y Hy. rewrite not_elem_of_app, no_slash_join. destruct k as [|z k]; simpl.
    - split; [lia|done].
    - split; [by intros [_ ?]|lia]. }
  rewrite E. unfold Str.find_at. destruct p as [|a p].
  - simpl app. change (length (path_of []) + 1)%nat with 2%nat. destruct x as [|c x]; [done|]. simpl.
    rewrite fmap_None, find_slash_none. apply not_elem_of_cons in Hx as [_ Hx]. by apply (Hs x).
  - change (path_of (a :: p)) with (join (a :: p)). set (q := join (a :: p)).
    rewrite (proj2 (Nat.ltb_ge _ _)) by (rewrite length_app; simpl; lia).
    rewrite fmap_None, find_slash_none, Nat.add_comm. change (S (length q)) with (1 + length q)%nat.
    replace (drop (1 + length q) (q ++ slash :: x ++ join k)) with (x ++ join k); [by apply Hs|].
    change (slash :: x ++ join k) with ([slash] ++ x ++ join k). rewrite app_assoc.
    rewrite drop_app_length'; [done|]. rewrite length_app. simpl. lia.
Qed.

Lemma path_of_inj p c : Forall component p -> Forall component c -> path_of p = path_of c <-> p = c.
Proof.
  intros Hp Hc. split; [|by intros ->]. intros E. pose proof (join_length p Hp). pose proof (join_length c Hc).
  destruct p as [|a p], c as [|b c]; try done; simpl path_of in E.
  - apply (f_equal length) in E. simpl in *. lia.
  - apply (f_equal length) in E. simpl in *. lia.
  - destruct (join_extends (a :: p) (b :: c) []) as (k & -> & Ek); [done..|by rewrite app_nil_r|].
    destruct k; [by rewrite app_nil_r|done].
Qed.

(** The pattern is at the front of the longer paths. *)
Lemma under_prefix p c :
  Forall component p -> Forall component c -> p <> c ->
  Str.find (if negb (Str.eqb (path_of p) [slash]) then path_of p ++ [slash] else path_of p) (path_of c) =
    Some 0%nat <-> exists k, c = p ++ k.
Proof.
  intros Hp Hc Hne. rewrite Str.find_zero, Str.prefixb_spec. unfold Str.eqb. destruct p as [|a p].
  - rewrite (bool_decide_true (path_of [] = [slash])) by done. cbn [negb]. split; [by exists c|]. intros _.
    destruct c as [|b c]; [by exists []|]. by eexists.
  - pose proof (join_length (a :: p) Hp) as Hl. simpl in Hl. rewrite bool_decide_false.
    2:{ intros E'. apply (f_equal length) in E'. simpl in *. lia. }
    cbn [negb]. split.
    + intros [r Er]. rewrite <- app_assoc in Er. destruct c as [|b c].
      { apply (f_equal length) in Er. simpl in *. rewrite !length_app in *. simpl in *. lia. }
      destruct (join_extends (a :: p) (b :: c) (slash :: r)) as (k & Ek & _); [done..|by exists k].
    + intros [k ->]. destruct k as [|x k]; [by rewrite app_nil_r in Hne|]. exists (x ++ join k).
      change (path_of ((a :: p) ++ x :: k)) with (join ((a :: p) ++ x :: k)).
      rewrite join_app, <- app_assoc. done.
Qed.

(** On absolute paths, [check_path_under] holds exactly when the components
    of the parent are a prefix of those of the child, and, when a direct child
    is asked for, at most one component follows; no path is taken to be under
    another because their names begin alike. *)
Theorem check_path_under_correct p c direct :
  Forall component p -> Forall component c ->
  check_path_under (path_of p) (path_of c) direct = true <->
  exists k, c = p ++ k /\ (direct = true -> (length k <= 1)%nat).
Proof.
  intros Hp Hc. unfold check_path_under.
  destruct (Str.eqb (path_of p) (path_of c)) eqn:E.
  { apply bool_decide_eq_true, path_of_inj in E as <-; [|done..]. split; [|done]. intros _. exists [].
    rewrite app_nil_r. split; [done|simpl; lia]. }
  assert (Hne : p <> c).
  { apply bool_decide_eq_false in E. intros ->. done. }
  pose proof (under_prefix p c Hp Hc Hne) as Hpre. destruct (Str.find _ (path_of c)) as [[|n]|].
  - destruct (proj1 Hpre eq_refl) as [k ->]. apply Forall_app in Hc as [_ Hk].
    assert (Hk0 : k <> []) by (intros ->; by rewrite app_nil_r in Hne).
    pose proof (direct_spec p k Hp Hk Hk0) as Hd. destruct direct.
    + split.
      * intros Hf. exists k. split; [done|]. intros _. apply Hd. by destruct (Str.find_at _ _ _).
      * intros (k' & Ek & Hl). apply app_inv_head in Ek as <-. by rewrite (proj2 Hd) by auto.
    + split; [|done]. intros _. by exists k.
  - split; [done|]. intros (k & Ek & _). by assert (Some (S n) = Some 0%nat) by (apply Hpre; by exists k).
  - split; [done|]. intros (k & Ek & _). by assert (None = Some 0%nat) by (apply Hpre; by exists k).
Qed.

Lemma check_path_under_witness :
  check_path_under (path_of [s_ "a"]) (path_of [s_ "ab"; s_ "c"]) false = false /\
  (check_path_under (path_of [s_ "a"]) (path_of [s_ "a"; s_ "c"]) true = true <->
   exists k, [s_ "a"; s_ "c"] = [s_ "a"] ++ k /\ (true = true -> (length k <= 1)%nat)).
Proof.
  split; [reflexivity|]. apply (check_path_under_correct [s_ "a"] [s_ "a"; s_ "c"] true);
    repeat (constructor; [split; [done|by apply (bool_decide_unpack _)]|]); constructor.
Defined.

(** ** The window of epochs *)

(** A path that has a character other than a slash. *)
Definition polishable (p : str) : Prop := exists c, c ∈ p /\ c <> slash.

Lemma polish_some p : polishable p <-> is_Some (polish p).
Proof.
  transitivity (is_Some (polish_rev (rev p))).
  2:{ unfold polish. destruct (polish_rev (rev p)); cbn; [|done]. by split; intros _; eexists. }
  transitivity (polishable (rev p)).
  { unfold polishable. by setoid_rewrite list_elem_of_In; setoid_rewrite <- in_rev. }
  induction (rev p) as [|c l IH]; simpl.
  { split; [by intros (? & ?%elem_of_nil & _)|by intros []]. }
  destruct (bool_decide (c = slash)) eqn:E.
  - apply bool_decide_eq_true in E as ->. rewrite <- IH. split.
    + intros (c & [->|Hc]%elem_of_cons & Hn); [done|by exists c].
    + intros (c & Hc & Hn). exists c. split; [by right|done].
  - apply bool_decide_eq_false in E. split; [by eexists|]. intros _. exists c. split; [by left|done].
Qed.

(** How often a path is among the requests. *)
Definition hits_of (q : str) (hs : list str) : Z :=
  foldr (fun p n => (if decide (polish p = Some q) then 1 else 0) + n) 0 hs.

Lemma hits_of_range q hs : 0 <= hits_of q hs <= Z.of_nat (length hs).
Proof. induction hs as [|p hs IH]; simpl; [lia|]. destruct (decide _); lia. Qed.

Definition tallies (hs : list str) (c : coll) : Prop :=
  (forall q, default 0 (StrMap.find c q) = hits_of q hs) /\
  (forall q n, StrMap.find c q = Some n -> 0 < n).

Lemma tallies_hit hs c p q :
  tallies hs c -> polish p = Some q -> Z.of_nat (length hs) < 2 ^ 31 - 1 ->
  exists c', collector_hit p c = Some c' /\ tallies (p :: hs) c'.
Proof.
  intros [Ht Hpos] Hq Hl. unfold collector_hit. rewrite Hq. obind. eexists. split; [done|].
  assert (Hif : forall k, (if decide (polish p = Some k) then 1 else 0) = if Str.eqb q k then 1 else 0).
  { intros k. rewrite Hq. destruct (decide (Some q = Some k)) as [[= ->]|Hk]; [by rewrite StrMap.eqb_refl|].
    unfold Str.eqb. by rewrite bool_decide_false by congruence. }
  destruct (StrMap.find c q) as [n|] eqn:E.
  - pose proof (Ht q) as Hn. rewrite E in Hn. simpl in Hn. pose proof (hits_of_range q hs) as Hr.
    rewrite <- Hn in Hr. pose proof (Hpos q n E) as Hn0. split.
    + intros k. simpl. rewrite Hif, StrMap.update_find, <- Ht. destruct (Str.eqb q k) eqn:Ek; [|lia].
      apply bool_decide_eq_true in Ek as <-. rewrite E. simpl. rewrite s32_small; lia.
    + intros k m. rewrite StrMap.update_find. destruct (Str.eqb q k) eqn:Ek; [|by apply Hpos].
      apply bool_decide_eq_true in Ek as <-. rewrite E. intros [= <-]. rewrite s32_small; lia.
  - split.
    + intros k. simpl. rewrite Hif, StrMap.insert_find, <- Ht by done. destruct (Str.eqb q k) eqn:Ek; [|lia].
      apply bool_decide_eq_true in Ek as <-. rewrite E. simpl. lia.
    + intros k m. rewrite StrMap.insert_find by done. destruct (Str.eqb q k); [intros [= <-]; lia|eauto].
Qed.

(** What the tracer is asked to do. *)
Inductive event := EHit (path : str) | ESwitch.

Definition step (e : event) (t : tracer) : option tracer :=
  match e with EHit p => hit p t | ESwitch => switch_epoch t end.
Fixpoint run (es : list event) (t : tracer) : option tracer :=
  match es with [] => Some t | e :: es => t ← step e t; run es t end.

(** The requests of the finished epochs, the newest first, and of the current
    one. *)
Fixpoint epochs (es : list event) (done : list (list str)) (cur : list str) : list (list str) * list str :=
  match es with
  | [] => (done, cur)
  | EHit p :: es => epochs es done (p :: cur)
  | ESwitch :: es => epochs es (cur :: done) []
  end.

(** The queue holds the tallies of the last [n] epochs; before the first, the
    epochs are empty. *)
Definition traces (n : nat) (done : list (list str)) (cur : list str) (t : tracer) : Prop :=
  tallies cur (_last t) /\
  Forall2 tallies (rev (take n (done ++ repeat [] n))) (_data t).

Lemma tallies_nil : tallies [] [].
Proof. by split. Qed.

Lemma traces_new n : traces n [] [] (new_tracer n).
Proof.
  split; [apply tallies_nil|]. simpl. rewrite firstn_all2 by (rewrite repeat_length; lia). rewrite repeat_rev.
  induction n as [|n IH]; simpl; constructor; [apply tallies_nil|done].
Qed.

Lemma take_window n (d : list (list str)) c :
  rev (take (S n) (c :: d ++ repeat [] (S n))) = tail (rev (take (S n) (d ++ repeat [] (S n)))) ++ [c].
Proof.
  assert (Hl : (S n <= length (d ++ repeat [] (S n)))%nat) by (rewrite length_app, repeat_length; lia).
  assert (E : take (S n) (d ++ repeat [] (S n)) = take n (d ++ repeat [] (S n)) ++
    [default [] ((d ++ repeat [] (S n)) !! n)]).
  { destruct (lookup_lt_is_Some_2 (d ++ repeat [] (S n)) n) as [x Ex]; [lia|]. rewrite Ex. by apply take_S_r. }
  rewrite E, rev_app_distr. simpl. done.
Qed.

Lemma traces_step n done cur t e :
  (0 < n)%nat -> traces n done cur t ->
  (forall p, e = EHit p -> polishable p /\ Z.of_nat (length cur) < 2 ^ 31 - 1) ->
  exists t', step e t = Some t' /\
    match e with EHit p => traces n done (p :: cur) t' | ESwitch => traces n (cur :: done) [] t' end.
Proof.
  intros Hn [Hl Hd] Hp. destruct e as [p|]; simpl.
  - destruct (Hp p eq_refl) as [[q Hq]%polish_some Hb]. destruct (tallies_hit cur (_last t) p q Hl Hq Hb) as (c & Ec & Hc).
    unfold hit. rewrite Ec. obind. eexists. split; [reflexivity|]. by split.
  - destruct n as [|n]; [lia|]. unfold switch_epoch.
    assert (Hlen : length (_data t) = S n).
    { apply Forall2_length in Hd. rewrite length_rev, length_take, length_app, repeat_length in Hd. lia. }
    rewrite (proj2 (Z.ltb_lt _ _)) by lia. eexists. split; [reflexivity|]. split; [apply tallies_nil|].
    change (Forall2 tallies (rev (take (S n) (cur :: done ++ repeat [] (S n)))) (tail (_data t) ++ [_last t])).
    rewrite take_window. apply Forall2_app; [|constructor; [exact Hl|by apply Forall2_nil]].
    destruct Hd; simpl; [constructor|done].
Qed.

(** C39: from a new tracer that keeps at least one epoch, whatever the requests
    and epoch changes are, fewer than 2^31 - 1 of them, as long as each path has
    a character other than a slash, the tracer never fails, and its queue holds,
    for each of the last epochs and for no other, how often each path was
    requested in it; the current epoch is counted apart. A path of slashes only
    has no defined behaviour in [polish]. *)
Theorem tracer_window n es :
  (0 < n)%nat -> Z.of_nat (length es) < 2 ^ 31 - 1 ->
  (forall p, EHit p ∈ es -> polishable p) ->
  exists t, run es (new_tracer n) = Some t /\ length (_data t) = n /\
    let '(done, cur) := epochs es [] [] in traces n done cur t.
Proof.
  intros Hn Hl Hp.
  assert (H : forall done cur t, traces n done cur t -> Z.of_nat (length cur + length es) < 2 ^ 31 - 1 ->
    exists t', run es t = Some t' /\ let '(done, cur) := epochs es done cur in traces n done cur t').
  { clear Hl. induction es as [|e es IH]; intros done cur t Ht Hl; simpl; [by exists t|]. simpl in Hl.
    destruct (traces_step n done cur t e Hn Ht) as (t1 & -> & Ht1).
    { intros p ->. split; [apply Hp; by left|lia]. }
    obind. destruct e as [p|]; (apply IH; [intros q Hq; apply Hp; by right|done|simpl in *; lia]). }
  destruct (H [] [] (new_tracer n) (traces_new n)) as (t & Et & Ht); [simpl; lia|].
  exists t. destruct (epochs es [] []) as [done cur]. split_and!; [done| |done].
  destruct Ht as [_ Hd]. apply Forall2_length in Hd.
  rewrite length_rev, length_take, length_app, repeat_length in Hd. lia.
Qed.

Lemma tracer_window_witness :
  let es := [EHit (s_ "/a/"); EHit (s_ "/a"); ESwitch; EHit (s_ "/b"); ESwitch; EHit (s_ "/c")] in
  run es (new_tracer 2) = Some (MkTracer [[(s_ "/a", 2)]; [(s_ "/b", 1)]] [(s_ "/c", 1)]) /\
  exists t, run es (new_tracer 2) = Some t /\ length (_data t) = 2%nat /\
    let '(done, cur) := epochs es [] [] in traces 2 done cur t.
Proof.
  split; [reflexivity|].
  apply (tracer_window 2 [EHit (s_ "/a/"); EHit (s_ "/a"); ESwitch; EHit (s_ "/b"); ESwitch; EHit (s_ "/c")]).
  - lia.
  - simpl. lia.
  - intros p Hp.
    repeat (apply elem_of_cons in Hp as [E|Hp]; [first [discriminate E|injection E as ->; by apply polish_some; eexists]|]).
    by apply elem_of_nil in Hp.
Defined.

(** ** How much is visited again *)

(** A path below [p] was requested in an earlier epoch of the queue. *)
Definition seen_before (p : str) (t : tracer) : Prop :=
  exists c kv, c ∈ removelast (_data t) /\ kv ∈ c /\ check_path_under p kv.1 false = true.

Lemma visited_spec p t :
  polish p = Some p -> _data t <> [] ->
  exists b, visited p true t = Some b /\ (b = true <-> seen_before p t).
Proof.
  intros Hp Hne. unfold visited, seen_before. induction (_data t) as [|c data IH]; [done|].
  destruct data as [|c' data].
  - exists false. split; [done|]. split; [done|]. by intros (? & ? & ?%elem_of_nil & _).
  - destruct IH as (b & Eb & Hb); [done|]. change (removelast (c :: c' :: data)) with (c :: removelast (c' :: data)).
    change (visited_in p true (c :: c' :: data)) with
      (b ← has p true c; if (b : bool) then Some true else visited_in p true (c' :: data)).
    unfold has at 1. rewrite Hp. obind. cbn [negb].
    destruct (existsb (fun kv => check_path_under p kv.1 false) c) eqn:E.
    + exists true. split; [done|]. split; [|done]. intros _. apply existsb_exists in E as (kv & Hkv & Hc).
      exists c, kv. split_and!; [by left|by apply list_elem_of_In|done].
    + exists b. split; [exact Eb|]. rewrite Hb. split; intros (d & kv & Hd & Hkv & Hc); exists d, kv.
      * split_and!; [by right|done|done].
      * apply elem_of_cons in Hd as [->|Hd]; [|done]. exfalso. apply not_true_iff_false in E. apply E.
        apply existsb_exists. exists kv. split; [by apply list_elem_of_In|done].
Qed.

(** The entries of the newest epoch under a path that satisfy a test. *)
Definition under (path : str) (f : str -> bool) (c : coll) : coll :=
  List.filter (fun kv => check_path_under path kv.1 false && f kv.1) c.
Definition amount (c : coll) : Z := foldr (fun kv n => kv.2 + n) 0 c.

Lemma amount_nonneg c : Forall (fun kv => 0 < kv.2) c -> 0 <= amount c.
Proof. induction 1; simpl; lia. Qed.

Lemma amount_filter f c : Forall (fun kv => 0 < kv.2) c -> 0 <= amount (List.filter f c) <= amount c.
Proof. induction 1 as [|kv c H _ IH]; simpl; [lia|]. destruct (f kv); simpl; lia. Qed.

Lemma alpha_beta_loop_spec path t c v k :
  Forall (fun kv => 0 < kv.2) c -> (forall kv, kv ∈ c -> visited kv.1 true t = Some (v kv.1)) ->
  0 <= oldcnt k -> 0 <= newcnt k -> 0 <= betacnt k ->
  oldcnt k + newcnt k + amount c < 2 ^ 31 -> betacnt k + Z.of_nat (length c) < 2 ^ 31 ->
  alpha_beta_loop path t c k = Some (MkCounts
    (oldcnt k + amount (under path v c)) (newcnt k + amount (under path (fun p => negb (v p)) c))
    (betacnt k + Z.of_nat (length (under path v c))) (betastrs k ++ map fst (under path v c))).
Proof.
  intros Hp Hv. revert k. induction c as [|[p n] c IH]; intros k Ho Hn Hb Hs Hl; simpl.
  { rewrite !Z.add_0_r, app_nil_r. by destruct k. }
  apply Forall_cons in Hp as [Hn0 Hp]. simpl in Hs, Hl, Hn0. pose proof (amount_nonneg c Hp) as Ha.
  specialize (IH Hp (fun kv Hkv => Hv kv (list_elem_of_further kv (p, n) c Hkv))).
  unfold under. simpl. destruct (check_path_under path p false); cbn [negb andb].
  2:{ apply IH; lia. }
  pose proof (Hv (p, n) (list_elem_of_here _ _)) as Hvp. simpl in Hvp. rewrite Hvp. obind.
  destruct (v p); cbn [negb].
  - rewrite !s32_small by lia. rewrite IH; simpl; [|lia..]. f_equal. unfold under. f_equal; [lia|lia|].
    by rewrite <- app_assoc.
  - rewrite !s32_small by lia. rewrite IH; simpl; [|lia..]. f_equal. unfold under. f_equal; lia.
Qed.

Lemma under_split path v c :
  amount (under path v c) + amount (under path (fun p => negb (v p)) c) =
  amount (under path (fun _ => true) c).
Proof.
  unfold under. induction c as [|[p n] c IH]; simpl; [done|].
  destruct (check_path_under path p false); simpl; [|done]. destruct (v p); simpl; lia.
Qed.

Lemma ratios_Q size k :
  0 <= oldcnt k -> 0 <= newcnt k -> oldcnt k + newcnt k < 2 ^ 31 -> 0 < size < 2 ^ 31 ->
  0 <= betacnt k < 2 ^ 31 ->
  exists alpha beta : Q, ratios size k = (alpha, beta) /\ (0 <= alpha <= 1)%Q /\
    (alpha * inject_Z (oldcnt k + newcnt k) == inject_Z (oldcnt k))%Q /\
    (beta * inject_Z size == inject_Z (size - betacnt k))%Q /\ (beta <= 1)%Q /\
    ((0 <= beta)%Q <-> betacnt k <= size).
Proof.
  intros Ho Hn Ht Hs Hb. unfold ratios. rewrite !s32_small by lia.
  rewrite (proj2 (Z.eqb_neq size 0)) by lia. cbn [negb].
  destruct (ratio_Q (size - betacnt k) size) as (B1 & B2 & B3); [lia|].
  do 2 eexists. split; [reflexivity|]. split; [|split]; [| |split_and!; [exact B1|apply B2; lia|]].
  - destruct (Z.eqb_spec (oldcnt k + newcnt k) 0) as [E|E]; cbn [negb]; [by split|].
    destruct (ratio_Q (oldcnt k) (oldcnt k + newcnt k)) as (_ & A2 & A3); [lia|].
    split; [apply A3|apply A2]; lia.
  - destruct (Z.eqb_spec (oldcnt k + newcnt k) 0) as [E|E]; cbn [negb].
    + replace (oldcnt k) with 0 by lia. apply Qmult_0_l.
    + apply (ratio_Q (oldcnt k) (oldcnt k + newcnt k)). lia.
  - rewrite <- B3. lia.
Qed.

(** [alpha] is the share of the newest epoch's requests below the path that
    go to paths under which an earlier epoch of the queue saw a request, and is
    between 0 and 1; [beta] is the share of the subtree that those paths are
    not, at most 1, and negative exactly when they outnumber the subtree; the
    paths themselves are appended in order.  In exact arithmetic. *)
Theorem alpha_beta_correct path size strs t c :
  last (_data t) = Some c ->
  Forall (fun kv => 0 < kv.2) c -> Forall (fun kv => polish kv.1 = Some kv.1) c ->
  amount c < 2 ^ 31 -> Z.of_nat (length c) < 2 ^ 31 -> 0 < size < 2 ^ 31 ->
  exists (v : str -> bool) (alpha beta : Q),
    (forall kv, kv ∈ c -> v kv.1 = true <-> seen_before kv.1 t) /\
    alpha_beta path size strs t = Some (alpha, beta, strs ++ map fst (under path v c)) /\
    (0 <= alpha <= 1)%Q /\
    (alpha * inject_Z (amount (under path (fun _ => true) c)) == inject_Z (amount (under path v c)))%Q /\
    (beta * inject_Z size == inject_Z (size - Z.of_nat (length (under path v c))))%Q /\
    (beta <= 1)%Q /\ ((0 <= beta)%Q <-> Z.of_nat (length (under path v c)) <= size).
Proof.
  intros Hc Hpos Hpol Ha Hl Hs. rewrite Forall_forall in Hpol.
  assert (Hne : _data t <> []) by (intros E; by rewrite E in Hc).
  set (v := fun p => default false (visited p true t)).
  assert (Hv : forall kv, kv ∈ c -> visited kv.1 true t = Some (v kv.1) /\ (v kv.1 = true <-> seen_before kv.1 t)).
  { intros kv Hkv. destruct (visited_spec kv.1 t (Hpol kv Hkv) Hne) as (b & Eb & Hb). unfold v. by rewrite Eb. }
  unfold alpha_beta. rewrite Hc. obind.
  rewrite (alpha_beta_loop_spec path t c v) by (done || simpl; lia || (intros; by apply Hv)). obind.
  pose proof (amount_filter (fun kv => check_path_under path kv.1 false && v kv.1) c Hpos) as H1.
  pose proof (amount_filter (fun kv => check_path_under path kv.1 false && true) c Hpos) as H2.
  pose proof (amount_filter (fun kv => check_path_under path kv.1 false && negb (v kv.1)) c Hpos) as H3.
  pose proof (under_split path v c) as Hsp.
  pose proof (List.filter_length_le (fun kv => check_path_under path kv.1 false && v kv.1) c) as H4.
  fold (under path v c) (under path (fun _ => true) c) (under path (fun p => negb (v p)) c) in *.
  set (k := MkCounts _ _ _ _).
  destruct (ratios_Q size k) as (alpha & beta & -> & R1 & R2 & R3 & R4 & R5); [simpl; lia..|].
  exists v, alpha, beta. split; [by intros kv Hkv; apply Hv|]. split; [done|]. split; [done|].
  simpl in R2, R3, R5. rewrite !Z.add_0_l in *. rewrite Hsp in R2. split_and!; done.
Qed.

Lemma alpha_beta_witness :
  let old := [(s_ "/a/x", 3)] in
  let new := [(s_ "/a/x", 3); (s_ "/a/y", 1); (s_ "/b", 5)] in
  let t := MkTracer [old; new] [] in
  exists (v : str -> bool) (alpha beta : Q),
    (forall kv, kv ∈ new -> v kv.1 = true <-> seen_before kv.1 t) /\
    alpha_beta (s_ "/a") 10 [] t = Some (alpha, beta, [] ++ map fst (under (s_ "/a") v new)) /\
    (0 <= alpha <= 1)%Q /\
    (alpha * inject_Z (amount (under (s_ "/a") (fun _ => true) new)) == inject_Z (amount (under (s_ "/a") v new)))%Q /\
    (beta * inject_Z 10 == inject_Z (10 - Z.of_nat (length (under (s_ "/a") v new))))%Q /\
    (beta <= 1)%Q /\ ((0 <= beta)%Q <-> Z.of_nat (length (under (s_ "/a") v new)) <= 10).
Proof.
  apply (alpha_beta_correct (s_ "/a") 10 []
    (MkTracer [[(s_ "/a/x", 3)]; [(s_ "/a/x", 3); (s_ "/a/y", 1); (s_ "/b", 5)]] [])
    [(s_ "/a/x", 3); (s_ "/a/y", 1); (s_ "/b", 5)]);
    [done|by repeat constructor|by repeat constructor|simpl; lia..].
Defined.
End ReqTracer.
