(* ===== verification/HitCount.v ===== *)
(** * Hit counting, src/mds/adsl/ReqCounter.*, adsl/mdstypes.*, CInode.cc and CDir.cc

    What the Lunule balancer measures: [ReqCounter], the epochs in which an inode
    was hit; [dirfrag_pot_load_t], the potential load of a directory fragment;
    the new and old hits of an inode and its ancestors; the size of the
    authoritative subtree, cached per epoch; and [CDir::get_load], the load of a
    fragment they give. *)

From Stdlib Require Import QArith Lqa.
From stdpp Require Import list.
From S2P Require Import Prelude Double.

(** ** ReqCounter *)

Module ReqCounter.

Definition REQCOUNTER_QUEUE_LEN_DEFAULT : Z := 5.

Record counter := MkCounter { _data : list bool; _last_hit : bool; _cache_hit_times : Z }.

(** The constructor sets [_data] only, whatever [queue_len] is: the other
    members are what was in the memory. *)
Definition new_counter (memory_hit : bool) (memory_times : Z) : counter :=
  MkCounter (repeat false (Z.to_nat REQCOUNTER_QUEUE_LEN_DEFAULT)) memory_hit memory_times.

(** The front leaves the queue, [b] enters it. *)
Definition push (b : bool) (c : counter) : option counter :=
  match _data c with
  | [] => None
  | front :: data =>
      Some (MkCounter (data ++ [b]) (_last_hit c) (s32 (_cache_hit_times c - Z.b2z front)))
  end.

Fixpoint push_empty (n : nat) (c : counter) : option counter :=
  match n with O => Some c | S n => c ← push false c; push_empty n c end.

Definition switch_epoch (epoch_num : Z) (c : counter) : option counter :=
  if REQCOUNTER_QUEUE_LEN_DEFAULT + 1 <? epoch_num then Some (new_counter false 0)
  else
    front ← head (_data c);
    let times := s32 (_cache_hit_times c + (Z.b2z (_last_hit c) - Z.b2z front)) in
    push_empty (Z.to_nat (epoch_num - 1)) (MkCounter (tail (_data c) ++ [_last_hit c]) false times).

(** -1, hit this epoch already; 0, hit before; 1, a new hit. *)
Definition hit (c : counter) : Z * counter :=
  if _last_hit c then (-1, c)
  else (if _cache_hit_times c =? 0 then 1 else 0,
        MkCounter (_data c) true (_cache_hit_times c)).
End ReqCounter.

(** ** dirfrag_pot_load_t *)

Module PotLoad.
Section pot.
Context {D} `{Double D}.

Record pot := MkPot { value : D; last_value : D; last_epoch : Z }.

Definition new_pot : pot := MkPot (d_int 0) (d_int 0) (-1).

Definition _update_epoch (epoch : Z) (p : pot) : pot :=
  if last_epoch p <? epoch then
    MkPot (value p / d_int 4)%D (if s32 (epoch - last_epoch p) =? 1 then value p else d_int 0) epoch
  else p.

Definition adjust (adj : D) (epoch : Z) (p : pot) : pot :=
  let p := _update_epoch epoch p in MkPot (value p + adj)%D (last_value p) (last_epoch p).
Definition inc (epoch : Z) (p : pot) : pot := adjust (d_int 1) epoch p.

Definition add (another p : pot) : pot :=
  if last_epoch another <? last_epoch p then p else adjust (value another) (last_epoch another) p.

Definition clear (epoch : Z) (p : pot) : pot :=
  MkPot (d_int 0) (d_int 0) (last_epoch (_update_epoch epoch p)).

Definition pot_load (epoch : Z) (use_current : bool) (p : pot) : D * pot :=
  let p := if 0 <? epoch then _update_epoch epoch p else p in
  (if use_current then value p else last_value p, p).
End pot.
Arguments pot : clear implicits.
End PotLoad.

(** ** Hits of an inode *)

Module Hits.
Import ReqCounter.

Record istate := MkI {
  hitcount : counter;
  newoldhit : Z * Z;
  last_newoldhit : Z * Z;
  beat_epoch : Z;
  subtree_size : Z
}.

(** The constructor of CInode. *)
Definition new_istate (memory_hit : bool) (memory_times : Z) : istate :=
  MkI (new_counter memory_hit memory_times) (0, 0) (0, 0) (-1) 0.

(** [newoldhit[newold]++] *)
Definition bump (newold : Z) (s : istate) : istate :=
  let '(o, n) := newoldhit s in
  MkI (hitcount s) (if newold =? 0 then (s32 (o + 1), n) else (o, s32 (n + 1)))
    (last_newoldhit s) (beat_epoch s) (subtree_size s).

Definition maybe_update_epoch (epoch : Z) (s : istate) : option (Z * istate) :=
  let ret := s32 (epoch - beat_epoch s) in
  s ← (if beat_epoch s <? epoch then
         c ← switch_epoch (s32 (epoch - beat_epoch s)) (hitcount s);
         Some (MkI c (0, 0) (newoldhit s) (beat_epoch s) (subtree_size s))
       else Some s);
  Some (if ret <? 0 then 2 else ret,
        MkI (hitcount s) (newoldhit s) (last_newoldhit s) epoch (subtree_size s)).

(** [CInode::hit] on the inode and its ancestors. *)
Definition hit_chain (check_epoch : bool) (epoch : Z) (s : istate) (ancestors : list istate)
  : option (Z * istate * list istate) :=
  '(r, s) ← (if check_epoch then maybe_update_epoch epoch s else Some (0, s));
  if check_epoch && (r <? 0) then Some (-2, s, ancestors)
  else
    let '(newold, c) := hit (hitcount s) in
    let s := MkI c (newoldhit s) (last_newoldhit s) (beat_epoch s) (subtree_size s) in
    if newold <? 0 then Some (newold, s, ancestors)
    else Some (newold, bump newold s, map (bump newold) ancestors).

Definition last_hit_amount (s : istate) : Z := s32 ((last_newoldhit s).1 + (last_newoldhit s).2).

(** ** The authoritative subtree *)

(** A directory fragment with its items; of a dentry only whether it is primary
    matters. *)
Inductive cinode := CInode (s : istate) (frags : list cdir)
with cdir := CDir (auth : bool) (epoch : Z) (nested : Z) (items : list citem)
with citem := Primary (i : cinode) | Other.

Definition dir_auth (d : cdir) : bool := let '(CDir a _ _ _) := d in a.
Definition dir_epoch (d : cdir) : Z := let '(CDir _ e _ _) := d in e.
Definition dir_nested (d : cdir) : Z := let '(CDir _ _ n _) := d in n.
Definition dir_items (d : cdir) : list citem := let '(CDir _ _ _ l) := d in l.
Definition inode_state (i : cinode) : istate := let '(CInode s _) := i in s.
Definition inode_frags (i : cinode) : list cdir := let '(CInode _ f) := i in f.

Definition set_size (n : Z) (s : istate) : istate :=
  MkI (hitcount s) (newoldhit s) (last_newoldhit s) (beat_epoch s) n.

(** Adds up the sizes of the elements of a list, which the calls may update. *)
Definition sum_sizes {A} (size : A -> option (Z * A)) : list A -> Z -> option (Z * list A) :=
  fix go l n :=
    match l with
    | [] => Some (n, [])
    | a :: l => '(m, a) ← size a; '(n, l) ← go l (s32 (n + m)); Some (n, a :: l)
    end.

(** [CDir::get_authsubtree_size_slow]: the sizes of the inodes of the primary
    dentries, as [isize] gives them, and the dentries themselves. *)
Definition dir_size_with (isize : cinode -> option (Z * cinode)) (epoch : Z) (d : cdir)
  : option (Z * cdir) :=
  match d with
  | CDir auth e nested items =>
      if epoch <=? e then Some (nested, CDir auth e nested items)
      else
        '(n, items) ←
          sum_sizes (fun it =>
            match it with
            | Primary i => '(m, i) ← isize i; Some (m, Primary i)
            | Other => Some (0, Other)
            end) items 0;
        let n := s32 (n + Z.of_nat (length items)) in
        Some (n, CDir auth epoch n items)
  end.

(** [CInode::get_authsubtree_size_slow], over the authoritative fragments. *)
Fixpoint inode_size (epoch : Z) (i : cinode) : option (Z * cinode) :=
  match i with
  | CInode s frags =>
      if Z.rem epoch 3 =? 0 then Some (subtree_size s, CInode s frags)
      else
        '(r, s) ← maybe_update_epoch epoch s;
        if r <=? 0 then Some (subtree_size s, CInode s frags)
        else
          '(n, frags) ←
            sum_sizes (fun d => if dir_auth d then dir_size_with (inode_size epoch) epoch d
                                else Some (0, d)) frags 0;
          Some (n, CInode (set_size n s) frags)
  end.

Definition dir_size (epoch : Z) (d : cdir) : option (Z * cdir) :=
  dir_size_with (inode_size epoch) epoch d.

(** [CDir::_maybe_update_epoch] *)
Definition dir_update_epoch (epoch : Z) (d : cdir) : option cdir :=
  match d with
  | CDir auth e nested items =>
      if e <? epoch then
        '(n, d) ← dir_size epoch (CDir auth epoch nested items);
        Some (CDir (dir_auth d) (dir_epoch d) n (dir_items d))
      else Some d
  end.

(** A fragment of a new CDir; the constructor leaves [beat_epoch] as it was in
    the memory. *)
Definition new_cdir (auth : bool) (memory_epoch : Z) : cdir := CDir auth memory_epoch 0 [].

(** ** The load of a fragment *)

Section load.
Context {D} `{Double D}.

(** At least a tenth. *)
Definition clamp (x : D) : D := if (x <=? d_ratio 1 10)%D then d_ratio 1 10 else x.

Definition ratios (subtree_size : Z) (last : Z * Z) : D * D :=
  let '(oldcnt, newcnt) := last in
  let total := s32 (oldcnt + newcnt) in
  let alpha := if negb (total =? 0) then (d_int oldcnt / d_int total)%D else d_int 0 in
  let beta := if negb (subtree_size =? 0)
              then (d_int (s32 (subtree_size - oldcnt)) / d_int subtree_size)%D else d_int 0 in
  (clamp alpha, clamp beta).

(** [CInode::alpha_beta] *)
Definition alpha_beta (epoch : Z) (i : cinode) : option (D * D * cinode) :=
  '(size, i) ← inode_size epoch i;
  '(_, s) ← maybe_update_epoch epoch (inode_state i);
  Some (ratios size (last_newoldhit s), CInode s (inode_frags i)).

(** [CDir::get_load] of the [k]-th fragment of the inode; [pot_auth] is that of
    the fragment.  The popularity it also computes is not used. *)
Definition get_load (epoch : Z) (i : cinode) (k : nat) (pot_auth : PotLoad.pot D)
  : option (D * cinode * PotLoad.pot D) :=
  d ← inode_frags i !! k;
  d ← dir_update_epoch epoch d;
  '((alpha, beta), i) ← alpha_beta (dir_epoch d) (CInode (inode_state i) (<[k := d]> (inode_frags i)));
  let '(p, pot_auth) := PotLoad.pot_load epoch false pot_auth in
  Some ((alpha * d_int (last_newoldhit (inode_state i)).1 + beta * p)%D, i, pot_auth).
End load.
End Hits.

(** ** The counter against the set of epochs hit *)

Module CounterFacts.
Import ReqCounter.

(** What the next calls answer, and their specification over the epochs at
    which the counter was hit. *)
Inductive cop := Hit | Switch (n : Z).

Fixpoint run (ops : list cop) (c : counter) : option (list Z) :=
  match ops with
  | [] => Some []
  | Hit :: ops => let '(r, c) := hit c in rs ← run ops c; Some (r :: rs)
  | Switch n :: ops => c ← switch_epoch n c; run ops c
  end.

Definition hit_at (hits : list Z) (e : Z) : bool := existsb (Z.eqb e) hits.

Definition answer (e : Z) (hits : list Z) : Z :=
  if hit_at hits e then -1
  else if existsb (fun x => (e - 5 <=? x) && (x <? e)) hits then 0 else 1.

Fixpoint spec (ops : list cop) (e : Z) (hits : list Z) : list Z :=
  match ops with
  | [] => []
  | Hit :: ops => answer e hits :: spec ops e (e :: hits)
  | Switch n :: ops => spec ops (e + n) hits
  end.


Definition window (H : Z -> bool) (e : Z) : list bool :=
  [H (e - 5); H (e - 4); H (e - 3); H (e - 2); H (e - 1)].

Fixpoint trues (l : list bool) : Z :=
  match l with [] => 0 | b :: l => Z.b2z b + trues l end.

(** The counter at epoch [e]. *)
Definition holds (hits : list Z) (e : Z) (c : counter) : Prop :=
  let H := hit_at hits in
  c = MkCounter (window H e) (H e) (trues (window H e)) /\ (forall x, e < x -> H x = false).

Lemma holds_new e : holds [] e (new_counter false 0).
Proof. done. Qed.

Lemma switch_holds n hits e c :
  holds hits e c -> 1 <= n ->
  exists c', switch_epoch n c = Some c' /\ holds hits (e + n) c'.
Proof.
  intros [-> Hf] Hn. unfold switch_epoch, REQCOUNTER_QUEUE_LEN_DEFAULT.
  destruct (Z.ltb_spec (5 + 1) n).
  - eexists. split; [done|]. split; [|intros; apply Hf; lia].
    unfold window. rewrite !Hf by lia. done.
  - assert (n = 1 \/ n = 2 \/ n = 3 \/ n = 4 \/ n = 5 \/ n = 6) as Hc by lia.
    set (H' := hit_at hits) in *.
    exists (MkCounter (window H' (e + n)) (H' (e + n)) (trues (window H' (e + n)))).
    split; [|split; [done|intros; apply Hf; lia]].
    unfold window. rewrite (Hf (e + n)) by lia.
    destruct Hc as [->|[->|[->|[->|[->| ->]]]]];
    repeat match goal with |- context [H' (e + ?a - ?b)] =>
      first [rewrite (Hf (e + a - b)) by lia
            |replace (e + a - b) with (e - (b - a)) by lia;
             let k := eval vm_compute in (b - a) in change (b - a) with k] end;
    rewrite ?Z.sub_0_r;
    destruct (H' (e - 5)), (H' (e - 4)), (H' (e - 3)), (H' (e - 2)), (H' (e - 1)), (H' e);
    reflexivity.
Qed.

Lemma trues_nonneg l : 0 <= trues l.
Proof. induction l as [|[] l IH]; simpl; lia. Qed.

Lemma trues_zero l : (trues l =? 0) = negb (existsb id l).
Proof.
  induction l as [|[] l IH]; simpl; [done| |done].
  pose proof (trues_nonneg l). apply Z.eqb_neq. unfold Z.b2z. lia.
Qed.

(** The window holds a hit when some hit is among the five epochs before. *)
Lemma window_spec hits e :
  existsb id (window (hit_at hits) e) = existsb (fun x => (e - 5 <=? x) && (x <? e)) hits.
Proof.
  apply eq_true_iff_eq. unfold window, hit_at. simpl. rewrite !orb_true_iff, !existsb_exists.
  unfold id. setoid_rewrite andb_true_iff.
  setoid_rewrite Z.leb_le. setoid_rewrite Z.ltb_lt. setoid_rewrite Z.eqb_eq.
  split.
  - intros [(x & ? & ?)|[(x & ? & ?)|[(x & ? & ?)|[(x & ? & ?)|[(x & ? & ?)|?]]]]]; try done;
    exists x; (split; [done|lia]).
  - intros (x & ? & ?).
    assert (e - 5 = x \/ e - 4 = x \/ e - 3 = x \/ e - 2 = x \/ e - 1 = x) by lia.
    naive_solver.
Qed.

Lemma hit_holds hits e c :
  holds hits e c -> exists c', hit c = (answer e hits, c') /\ holds (e :: hits) e c'.
Proof.
  intros [-> Hf]. unfold hit, answer. cbn [_last_hit _cache_hit_times _data].
  assert (Hw : window (hit_at (e :: hits)) e = window (hit_at hits) e).
  { unfold window, hit_at. simpl. by rewrite !(proj2 (Z.eqb_neq _ _)) by lia. }
  assert (Hl : forall x, e < x -> hit_at (e :: hits) x = false).
  { intros x ?. unfold hit_at. simpl. rewrite (proj2 (Z.eqb_neq _ _)) by lia. by apply Hf. }
  assert (He : hit_at (e :: hits) e = true) by (unfold hit_at; simpl; by rewrite Z.eqb_refl).
  rewrite trues_zero, window_spec. unfold holds. rewrite Hw, He.
  destruct (hit_at hits e) eqn:E; [by eauto|].
  destruct (existsb _ _); simpl; eauto.
Qed.




(** A counter that was never hit can answer that it was: the constructor does
    not set [_last_hit] and [_cache_hit_times]. *)
Example counter_uninitialised :
  run [Hit] (new_counter true 0) = Some [-1] /\ run [Hit] (new_counter false 3) = Some [0] /\
  spec [Hit] 0 [] = [1].
Proof. done. Qed.
End CounterFacts.

(** ** The potential load *)

Module PotFacts.
Import PotLoad.
Open Scope Q_scope.

Definition adjust_all (epoch : Z) (l : list Q) (p : pot Q) : pot Q :=
  fold_left (fun p x => adjust x epoch p) l p.

(** The adjustments of a series of epochs. *)
Definition adjust_epochs (groups : list (Z * list Q)) (p : pot Q) : pot Q :=
  fold_left (fun p g => adjust_all g.1 g.2 p) groups p.

Definition total (l : list Q) : Q := fold_right Qplus 0 l.

(** Newest first, each epoch weighs a quarter of the next active one. *)
Fixpoint faded (l : list Q) : Q :=
  match l with [] => 0 | x :: l => x + faded l / 4 end.

(** Epochs in order, each with an adjustment. *)
Fixpoint in_order (last : Z) (groups : list (Z * list Q)) : Prop :=
  match groups with
  | [] => True
  | (e, l) :: groups => (last < e)%Z /\ l <> [] /\ in_order e groups
  end.

Lemma update_same (p : pot Q) e : last_epoch p = e -> _update_epoch e p = p.
Proof. intros <-. unfold _update_epoch. by rewrite Z.ltb_irrefl. Qed.

Lemma adjust_all_same e l (p : pot Q) :
  last_epoch p = e ->
  value (adjust_all e l p) == value p + total l /\ last_epoch (adjust_all e l p) = e.
Proof.
  unfold adjust_all. revert p. induction l as [|x l IH]; intros p Hp; simpl; [by split; [ring|]|].
  destruct (IH (adjust x e p)) as [-> ->].
  - unfold adjust. by rewrite update_same.
  - split; [|done]. unfold adjust. rewrite (update_same p) by done. simpl. ring.
Qed.

Lemma adjust_all_next e l (p : pot Q) :
  (last_epoch p < e)%Z -> l <> [] ->
  value (adjust_all e l p) == total l + value p / 4 /\ last_epoch (adjust_all e l p) = e.
Proof.
  intros Hp Hl. destruct l as [|x l]; [done|].
  change (adjust_all e (x :: l) p) with (adjust_all e l (adjust x e p)).
  assert (Hu : _update_epoch e p = MkPot (value p / 4)
            (if (s32 (e - last_epoch p) =? 1)%Z then value p else 0) e).
  { unfold _update_epoch. by rewrite (proj2 (Z.ltb_lt _ _)). }
  assert (Hx : value (adjust x e p) == x + value p / 4).
  { unfold adjust. rewrite Hu. simpl. ring. }
  destruct (adjust_all_same e l (adjust x e p)) as [-> ->].
  { unfold adjust. by rewrite Hu. }
  split; [|done]. rewrite Hx. simpl. ring.
Qed.

Lemma list_last_cons {A} (x : A) l d : List.last (x :: l) d = List.last l x.
Proof. revert x d. induction l as [|y l IH]; intros x d; [done|].
  change (List.last (y :: l) d = List.last (y :: l) x). by rewrite !IH.
Qed.

Lemma adjust_epochs_spec groups (p : pot Q) hist :
  in_order (last_epoch p) groups -> value p == faded hist ->
  value (adjust_epochs groups p) == faded (rev (map (fun g => total g.2) groups) ++ hist) /\
  last_epoch (adjust_epochs groups p) = List.last (map fst groups) (last_epoch p).
Proof.
  revert p hist. induction groups as [|[e l] groups IH]; intros p hist; [done|].
  intros (He & Hl & Hg) Hv. destruct (adjust_all_next e l p He Hl) as [H1 H2].
  change (adjust_epochs ((e, l) :: groups) p) with (adjust_epochs groups (adjust_all e l p)).
  destruct (IH (adjust_all e l p) (total l :: hist)) as [IH1 IH2].
  - by rewrite H2.
  - rewrite H1, Hv. done.
  - rewrite IH1, IH2, H2. cbn [map rev]. rewrite <- app_assoc. split; [done|].
    by rewrite list_last_cons.
Qed.

(** After adjustments in any series of epochs the potential load is their sum,
    each epoch fading to a quarter with every later one that had adjustments;
    reading it in the next epoch gives that value, and reading it later gives
    zero. *)
Theorem pot_load_correct groups e d :
  in_order (-1) groups -> groups <> [] -> List.last (map fst groups) (-1)%Z = e ->
  (0 <= e)%Z -> (1 < d)%Z -> (e + d < 2 ^ 31)%Z ->
  let p := adjust_epochs groups new_pot in
  value p == faded (rev (map (fun g => total g.2) groups)) /\
  fst (pot_load (e + 1)%Z false p) == value p /\
  fst (pot_load (e + d)%Z false p) == 0.
Proof.
  intros Hg Hn He Hp Hd Hb p.
  destruct (adjust_epochs_spec groups new_pot []) as [H1 H2]; [done..|].
  rewrite app_nil_r in H1. fold p in H1, H2. simpl in H2. rewrite He in H2.
  split; [done|]. unfold pot_load, _update_epoch. rewrite H2.
  rewrite !(proj2 (Z.ltb_lt _ _)) by lia. cbn [fst last_value].
  replace (e + 1 - e)%Z with 1%Z by lia. replace (e + d - e)%Z with d by lia.
  rewrite (s32_small d) by lia. rewrite (proj2 (Z.eqb_neq d 1)) by lia. done.
Qed.

Lemma pot_load_witness :
  let p := adjust_epochs [(0%Z, [1; 1]); (4%Z, [3])] new_pot in
  value p == faded [3; 2] /\ fst (pot_load 5 false p) == value p /\ fst (pot_load 6 false p) == 0.
Proof.
  destruct (pot_load_correct [(0%Z, [1; 1]); (4%Z, [3])] 4 2) as (H1 & H2 & H3);
    [simpl; split_and!; done || lia|done|done|lia|lia|lia|].
  split; [exact H1|]. split; [exact H2|exact H3].
Defined.
End PotFacts.

(** ** The hits of an inode and its ancestors *)

Module HitFacts.
Import ReqCounter Hits CounterFacts.

(** [newoldhit] with one more hit of the kind. *)
Definition counted (newold : Z) (s s' : istate) : Prop :=
  newoldhit s' = (if newold =? 0 then (s32 ((newoldhit s).1 + 1), (newoldhit s).2)
                  else ((newoldhit s).1, s32 ((newoldhit s).2 + 1))) /\
  hitcount s' = hitcount s /\ last_newoldhit s' = last_newoldhit s /\
  beat_epoch s' = beat_epoch s /\ subtree_size s' = subtree_size s.

Lemma bump_counted n s : counted n s (bump n s).
Proof. unfold counted, bump. by destruct s as [? [] ? ? ?]; simpl; destruct (n =? 0). Qed.

(** The epochs that were hit are [hits] as far as the counter can tell in [epoch]:
    it holds them, or, whatever it holds, they are too long ago. *)
Definition known (hits : list Z) (epoch : Z) (s : istate) : Prop :=
  holds hits (beat_epoch s) (hitcount s) \/ hits = [] /\ 6 < epoch - beat_epoch s.

Lemma switch_known hits epoch s :
  known hits epoch s -> beat_epoch s < epoch ->
  exists c, switch_epoch (epoch - beat_epoch s) (hitcount s) = Some c /\ holds hits epoch c.
Proof.
  intros [Hc|[-> Hn]] He.
  - destruct (switch_holds (epoch - beat_epoch s) hits (beat_epoch s) (hitcount s)) as (c & Hs & Hh); [done|lia|].
    exists c. split; [done|]. by replace epoch with (beat_epoch s + (epoch - beat_epoch s)) by lia.
  - unfold switch_epoch. rewrite (proj2 (Z.ltb_lt _ _)) by (unfold REQCOUNTER_QUEUE_LEN_DEFAULT; lia).
    eexists. split; [done|]. apply holds_new.
Qed.

(** The counter, the hits and the epoch of an inode after an epoch switch. *)
Lemma maybe_update_newer epoch s hits :
  known hits epoch s -> beat_epoch s < epoch < 2 ^ 31 - 1 -> -1 <= beat_epoch s ->
  exists c, maybe_update_epoch epoch s =
    Some (epoch - beat_epoch s, MkI c (0, 0) (newoldhit s) epoch (subtree_size s)) /\
    holds hits epoch c.
Proof.
  intros Hc He Hb. destruct (switch_known hits epoch s Hc) as (c & Hs & Hh); [lia|]. exists c. split; [|done]. unfold maybe_update_epoch.
  rewrite (proj2 (Z.ltb_lt (beat_epoch s) epoch)) by lia. wrap.
  rewrite Hs. obind. by rewrite (proj2 (Z.ltb_ge (epoch - beat_epoch s) 0)) by lia.
Qed.

Lemma maybe_update_same s : maybe_update_epoch (beat_epoch s) s = Some (0, s).
Proof. unfold maybe_update_epoch. rewrite Z.ltb_irrefl, Z.sub_diag. by destruct s. Qed.

(** C36: A hit in an epoch that is not older than that of the inode, with a counter
    that holds the epochs hit so far or was last switched more than six epochs
    ago, first moves the hits of the inode to the last epoch if the epoch is new;
    it answers as the epochs hit so far say, and counts in the inode and in
    every ancestor as a new or an old hit, not at all when the inode was hit in
    the epoch already.  A new inode is at epoch -1 with a counter that the
    constructor does not set, so it is as described from epoch 6 on; an ancestor
    is counted in whatever epoch it is. *)
Theorem hit_chain_correct epoch s ancestors hits :
  known hits epoch s -> -1 <= beat_epoch s <= epoch -> epoch < 2 ^ 31 - 1 ->
  exists s' anc',
    hit_chain true epoch s ancestors = Some (answer epoch hits, s', anc') /\
    holds (epoch :: hits) epoch (hitcount s') /\ beat_epoch s' = epoch /\
    last_newoldhit s' = (if beat_epoch s <? epoch then newoldhit s else last_newoldhit s) /\
    let base := if beat_epoch s <? epoch then (0, 0) else newoldhit s in
    if answer epoch hits <? 0 then anc' = ancestors /\ newoldhit s' = base
    else Forall2 (counted (answer epoch hits)) ancestors anc' /\
      newoldhit s' = if answer epoch hits =? 0 then (s32 (base.1 + 1), base.2)
                     else (base.1, s32 (base.2 + 1)).
Proof.
  intros Hc Hb He.
  assert (exists r c, maybe_update_epoch epoch s = Some (r, MkI c
      (if beat_epoch s <? epoch then (0, 0) else newoldhit s)
      (if beat_epoch s <? epoch then newoldhit s else last_newoldhit s) epoch (subtree_size s)) /\
      0 <= r /\ holds hits epoch c) as (r & c & Hu & Hr & Hh).
  { destruct (Z.ltb_spec (beat_epoch s) epoch).
    - destruct (maybe_update_newer epoch s hits) as (c & -> & Hh); [done|lia..|].
      eexists _, c. split; [done|]. split; [lia|done].
    - assert (epoch = beat_epoch s) as -> by lia. rewrite maybe_update_same.
      eexists 0, (hitcount s). destruct Hc as [Hc|[_ ?]]; [|lia]. by destruct s. }
  unfold hit_chain. rewrite Hu. obind. rewrite (proj2 (Z.ltb_ge r 0)) by lia. cbn [andb hitcount].
  destruct (hit_holds hits epoch c Hh) as (c' & -> & Hh').
  destruct (answer epoch hits <? 0).
  - eexists _, _. split; [done|]. split; [exact Hh'|]. by repeat (split; [done|]).
  - eexists _, _. split; [done|]. unfold bump; cbn [newoldhit last_newoldhit].
    destruct (if beat_epoch s <? epoch then (0, 0) else newoldhit s) as [o n].
    split; [by destruct (_ =? 0)|]. split; [by destruct (_ =? 0)|].
    split; [by destruct (_ =? 0)|]. split; [|by destruct (_ =? 0)]. apply Forall2_fmap_r, Forall_Forall2_diag, Forall_true.
    intros x. apply bump_counted.
Qed.

Lemma hit_chain_witness :
  exists s' anc', hit_chain true 2 (new_istate false 0) [new_istate false 0] = Some (1, s', anc') /\
    newoldhit s' = (0, 1) /\ map newoldhit anc' = [(0, 1)].
Proof.
  destruct (hit_chain_correct 2 (new_istate false 0) [new_istate false 0] [])
    as (s' & anc' & H & _ & _ & _ & Ha & Hn); [by left|simpl; lia|lia|].
  exists s', anc'. split; [exact H|]. split; [exact Hn|].
  inversion Ha as [|? y ? l Hy Hl]; subst. inversion Hl; subst. simpl. by rewrite (proj1 Hy).
Defined.

(** The guard of [hit] against an older epoch never holds: the epoch moves back. *)
Lemma hit_never_stale epoch s anc r s' anc' :
  hit_chain true epoch s anc = Some (r, s', anc') -> r <> -2 /\ beat_epoch s' = epoch.
Proof.
  unfold hit_chain, maybe_update_epoch, hit. intros H.
  destruct (if beat_epoch s <? epoch then _ else _) as [s0|]; [|done]. revert H. obind.
  assert (Hn : ((if s32 (epoch - beat_epoch s) <? 0 then 2 else s32 (epoch - beat_epoch s)) <? 0) = false).
  { destruct (Z.ltb_spec (s32 (epoch - beat_epoch s)) 0); [done|]. by apply Z.ltb_ge. }
  rewrite Hn. cbn [andb hitcount]. unfold bump.
  destruct (_last_hit _); [by intros [= <- <- <-]|].
  cbn [newoldhit]. destruct (newoldhit s0) as [o n].
  destruct (_ =? 0); cbn; intros [= <- <- <-]; done.
Qed.
End HitFacts.

(** ** The size of the authoritative subtree *)

Module SizeFacts.
Import ReqCounter Hits CounterFacts HitFacts.

Definition on_item (P : cinode -> Prop) (it : citem) : Prop :=
  match it with Primary i => P i | Other => True end.

(** Induction over the tree. *)
Section tree_ind.
Context (P : cinode -> Prop) (Q : cdir -> Prop).
Context (HI : forall s frags, Forall Q frags -> P (CInode s frags)).
Context (HD : forall a e n items, Forall (on_item P) items -> Q (CDir a e n items)).

Fixpoint tree_ind (i : cinode) : P i :=
  match i with
  | CInode s frags =>
      HI s frags ((fix go l : Forall Q l :=
        match l with
        | [] => Forall_nil_2 Q
        | d :: l => Forall_cons_2 Q d l (tree_ind_dir d) (go l)
        end) frags)
  end
with tree_ind_dir (d : cdir) : Q d :=
  match d with
  | CDir a e n items =>
      HD a e n items ((fix go l : Forall (on_item P) l :=
        match l with
        | [] => Forall_nil_2 (on_item P)
        | it :: l => Forall_cons_2 (on_item P) it l
            (match it with Primary i => tree_ind i | Other => I end) (go l)
        end) items)
  end.
End tree_ind.

Definition zsum {A} (f : A -> Z) : list A -> Z :=
  fix go l := match l with [] => 0 | a :: l => f a + go l end.

(** The dentries below the inode in authoritative fragments, where a fragment
    that was counted in epoch [e] already gives what it has cached. *)
Fixpoint count (e : Z) (i : cinode) : Z :=
  match i with
  | CInode _ frags => zsum (fun d => if dir_auth d then dir_count e d else 0) frags
  end
with dir_count (e : Z) (d : cdir) : Z :=
  match d with
  | CDir _ e' nested items =>
      if e <=? e' then nested
      else zsum (fun it => match it with Primary i => count e i | Other => 0 end) items +
           Z.of_nat (length items)
  end.

(** No inode that is reached was entered in epoch [e], and its counter is known;
    no cached count is negative. *)
Fixpoint countable (e : Z) (i : cinode) : Prop :=
  match i with
  | CInode s frags =>
      -1 <= beat_epoch s < e /\ (exists hits, known hits e s) /\
      (fix go l := match l with
                   | [] => True
                   | d :: l => (dir_auth d = true -> dir_countable e d) /\ go l
                   end) frags
  end
with dir_countable (e : Z) (d : cdir) : Prop :=
  match d with
  | CDir _ e' nested items =>
      if e <=? e' then 0 <= nested
      else (fix go l := match l with
                        | [] => True
                        | Primary i :: l => countable e i /\ go l
                        | Other :: l => go l
                        end) items
  end.

Lemma countable_frags e s frags :
  countable e (CInode s frags) <->
  -1 <= beat_epoch s < e /\ (exists hits, known hits e s) /\
  Forall (fun d => dir_auth d = true -> dir_countable e d) frags.
Proof.
  cbn [countable]. assert (forall A B C C' : Prop, (C <-> C') -> (A /\ B /\ C <-> A /\ B /\ C')) as L by tauto.
  apply L. clear. induction frags as [|d l IH]; [by split; [intros; apply Forall_nil_2|]|].
  rewrite Forall_cons. tauto.
Qed.

Lemma countable_items e a e' n items :
  dir_countable e (CDir a e' n items) <->
  if e <=? e' then 0 <= n else Forall (on_item (countable e)) items.
Proof.
  cbn [dir_countable]. destruct (e <=? e'); [done|].
  induction items as [|[i|] l IH]; [by split; [intros; apply Forall_nil_2|]|..];
    rewrite Forall_cons; simpl; tauto.
Qed.

Lemma zsum_nonneg {A} (f : A -> Z) l : Forall (fun a => 0 <= f a) l -> 0 <= zsum f l.
Proof. induction 1; simpl; lia. Qed.

Lemma counts_nonneg e i : countable e i -> 0 <= count e i.
Proof.
  pattern i. apply (tree_ind _ (fun d => dir_countable e d -> 0 <= dir_count e d)); clear i.
  - intros s frags IH (_ & _ & Hf)%countable_frags. cbn [count]. apply zsum_nonneg.
    apply Forall_forall. intros d Hd. destruct (dir_auth d) eqn:E; [|done].
    rewrite Forall_forall in IH, Hf. apply IH; [done|]. by apply Hf.
  - intros a e' n items IH Hc%countable_items. cbn [dir_count]. destruct (e <=? e'); [done|].
    apply Z.add_nonneg_nonneg; [|lia]. apply zsum_nonneg. apply Forall_forall. intros [i|] Hi; [|done].
    rewrite Forall_forall in IH, Hc. by apply (IH _ Hi), (Hc _ Hi).
Qed.

Lemma dir_count_nonneg e d : dir_countable e d -> 0 <= dir_count e d.
Proof.
  destruct d as [a e' n items]. intros Hc%countable_items. cbn [dir_count].
  destruct (e <=? e'); [done|]. apply Z.add_nonneg_nonneg; [|lia]. apply zsum_nonneg.
  eapply Forall_impl; [done|]. intros [i|]; [apply counts_nonneg|done].
Qed.

Lemma sum_sizes_cons {A} (size : A -> option (Z * A)) a l n :
  sum_sizes size (a :: l) n =
  ('(m, a) ← size a; '(n, l) ← sum_sizes size l (s32 (n + m)); Some (n, a :: l)).
Proof. done. Qed.

(** Summing elements whose sizes are right and whose total fits an [int]. *)
Lemma sum_sizes_spec {A} (size : A -> option (Z * A)) (f : A -> Z) l n :
  Forall (fun a => 0 <= f a /\ (f a < 2 ^ 31 -> exists a', size a = Some (f a, a'))) l ->
  0 <= n -> n + zsum f l < 2 ^ 31 ->
  exists l', sum_sizes size l n = Some (n + zsum f l, l') /\ length l' = length l.
Proof.
  revert n. induction l as [|a l IH]; intros n Hf Hn Hb.
  { exists []. simpl. by rewrite Z.add_0_r. }
  cbn [zsum] in *. rewrite sum_sizes_cons.
  apply Forall_cons in Hf as [[Ha Hs] Hf].
  assert (0 <= zsum f l) by (apply zsum_nonneg; eapply Forall_impl; [done|]; simpl; tauto).
  destruct Hs as [a' Hs]; [lia|]. rewrite Hs. obind. rewrite (s32_small (n + f a)) by lia.
  destruct (IH (n + f a)) as (l' & Hl & ?); [done|lia|lia|]. rewrite Hl. obind.
  exists (a' :: l'). split; [do 2 f_equal; lia|]. simpl. lia.
Qed.

Lemma sizes_spec e i :
  Z.rem e 3 <> 0 -> e < 2 ^ 31 - 1 -> countable e i -> count e i < 2 ^ 31 ->
  exists i', inode_size e i = Some (count e i, i') /\ subtree_size (inode_state i') = count e i /\
    beat_epoch (inode_state i') = e /\
    last_newoldhit (inode_state i') = newoldhit (inode_state i).
Proof.
  intros H3 He. pattern i.
  apply (tree_ind _ (fun d => dir_countable e d -> dir_count e d < 2 ^ 31 ->
    exists d', dir_size e d = Some (dir_count e d, d'))); clear i.
  - intros s frags IH (Hb & [hits Hh] & Hf)%countable_frags Hc. cbn [inode_size].
    change (dir_size_with (inode_size e) e) with (dir_size e).
    rewrite (proj2 (Z.eqb_neq _ _)) by done.
    destruct (maybe_update_newer e s hits) as (c & -> & _); [done|lia|lia|]. obind.
    rewrite (proj2 (Z.leb_gt _ _)) by lia. cbn [count] in Hc |- *.
    destruct (sum_sizes_spec (fun d => if dir_auth d then dir_size e d else Some (0, d))
      (fun d => if dir_auth d then dir_count e d else 0) frags 0) as (l' & -> & _); [|lia|lia|].
    + rewrite Forall_forall in IH. rewrite Forall_forall in Hf. apply Forall_forall.
      intros d Hd. destruct (dir_auth d) eqn:E; [|split; [lia|by eauto]].
      split; [by apply dir_count_nonneg, Hf|]. intros. apply IH; auto.
    + obind. eexists. done.
  - intros a e' n items IH Hc%countable_items Hb. unfold dir_size. cbn [dir_size_with dir_count] in Hb |- *.
    destruct (e <=? e'); [by eauto|].
    destruct (sum_sizes_spec (fun it => match it with
        | Primary i => '(m, i) ← inode_size e i; Some (m, Primary i) | Other => Some (0, Other) end)
      (fun it => match it with Primary i => count e i | Other => 0 end) items 0)
      as (l' & -> & Hl); [|lia|lia|].
    + rewrite Forall_forall in IH. rewrite Forall_forall in Hc. apply Forall_forall.
      intros [i|] Hi; [|split; [lia|by eauto]]. specialize (Hc _ Hi). split; [by apply counts_nonneg|].
      intros Hlt. destruct (IH _ Hi Hc Hlt) as (i' & -> & _). obind. eauto.
    + obind. rewrite Hl. eexists. f_equal. f_equal. rewrite s32_small; [lia|].
      assert (0 <= zsum (fun it => match it with Primary i => count e i | Other => 0 end) items);
        [|lia]. apply zsum_nonneg. eapply Forall_impl; [done|]. intros [i|]; [apply counts_nonneg|done].
Qed.

(** C37: In an epoch divisible by three an inode answers the size of its subtree
    that it has kept, and nothing changes.  In another epoch, as long as the
    inodes reached have not entered it and the size fits an [int], the answer is
    the sum over the authoritative fragments below the inode, where a fragment
    that has not entered the epoch adds the number of its dentries, and one that
    has adds the count it has kept, without a look below it.  The size is kept, and
    a second call in the epoch answers it again. *)
Theorem subtree_size_correct e i :
  (Z.rem e 3 = 0 -> inode_size e i = Some (subtree_size (inode_state i), i)) /\
  (Z.rem e 3 <> 0 -> e < 2 ^ 31 - 1 -> countable e i -> count e i < 2 ^ 31 ->
   exists i', inode_size e i = Some (count e i, i') /\ inode_size e i' = Some (count e i, i')).
Proof.
  split.
  { intros H3. destruct i as [s frags]. cbn [inode_size]. by rewrite (proj2 (Z.eqb_eq _ _)). }
  intros H3 He Hc Hb. destruct (sizes_spec e i) as (i' & Hi & Hs & Hbe & _); [done..|].
  exists i'. split; [done|]. destruct i' as [s' frags]. cbn [inode_size inode_state] in *.
  rewrite (proj2 (Z.eqb_neq _ _)) by done.
  pose proof (maybe_update_same s') as Hm. rewrite Hbe in Hm. rewrite Hm. obind.
  cbn. by rewrite Hs.
Qed.

(** A directory of two dentries, one a directory with one. *)
Definition small_tree : cinode :=
  CInode (new_istate false 0)
    [CDir true (-1) 0 [Other; Primary (CInode (new_istate false 0) [CDir true (-1) 0 [Other]])];
     CDir false (-1) 0 [Other]].

Lemma small_tree_countable : countable 1 small_tree.
Proof.
  cbn. repeat split; try lia; try (exists []; left; apply holds_new); done.
Qed.

Lemma subtree_size_witness :
  exists i', inode_size 1 small_tree = Some (3, i') /\ inode_size 1 i' = Some (3, i').
Proof. apply (proj2 (subtree_size_correct 1 small_tree)); [done|lia|apply small_tree_countable|done]. Defined.

(** [_maybe_update_epoch] enters the epoch before it asks for the size, which
    then answers what is cached: the count is never taken again. *)
Lemma dir_update_stale epoch auth e nested items :
  dir_update_epoch epoch (CDir auth e nested items) = Some (CDir auth (Z.max e epoch) nested items).
Proof.
  unfold dir_update_epoch. destruct (Z.ltb_spec e epoch).
  - unfold dir_size. cbn [dir_size_with]. rewrite (proj2 (Z.leb_le _ _)) by lia. obind. cbn. by rewrite Z.max_r by lia.
  - by rewrite Z.max_l by lia.
Qed.
End SizeFacts.

(** ** The load of a fragment *)

Module LoadFacts.
Import ReqCounter Hits CounterFacts HitFacts SizeFacts.

Lemma clamp_bounds (x : Q) : (x <= 1 -> 1 # 10 <= clamp x <= 1)%Q.
Proof.
  intros Hx. unfold clamp. cbn [d_ratio Q_double].
  destruct (dle x (1 # 10)) eqn:E; [by split|]. apply dle_Q_false in E. split; lra.
Qed.

Lemma ratios_bounds size old new :
  0 <= old -> 0 <= new -> old + new < 2 ^ 31 -> 0 <= size < 2 ^ 31 ->
  exists alpha beta : Q, ratios size (old, new) = (alpha, beta) /\
    (1 # 10 <= alpha <= 1)%Q /\ (1 # 10 <= beta <= 1)%Q.
Proof.
  intros Ho Hn Hb Hs. unfold ratios. rewrite !s32_small by lia.
  eexists _, _. split; [done|]. cbn [d_int ddiv Q_double].
  split; apply clamp_bounds.
  - destruct (Z.eqb_spec (old + new) 0); [by vm_compute|].
    destruct (ratio_Q old (old + new)) as (_ & [L _] & _); [lia|]. apply L. lia.
  - destruct (Z.eqb_spec size 0); [by vm_compute|].
    destruct (ratio_Q (size - old) size) as (_ & [L _] & _); [lia|]. apply L. lia.
Qed.

(** The inode with the epoch of its [k]-th fragment entered. *)
Definition entered (e : Z) (i : cinode) (k : nat) : cinode :=
  CInode (inode_state i)
    match inode_frags i !! k with
    | Some d => <[k := CDir (dir_auth d) e (dir_nested d) (dir_items d)]> (inode_frags i)
    | None => inode_frags i
    end.

(** In a new epoch the load of a fragment is [alpha] times the old hits of the
    epoch before on its directory plus [beta] times the potential load, with
    both weights between a tenth and one: it is never negative and at most the
    hits and the potential load together. *)
Theorem get_load_bounds e i k d (pot : PotLoad.pot Q) :
  inode_frags i !! k = Some d -> dir_epoch d < e ->
  Z.rem e 3 <> 0 -> e < 2 ^ 31 - 1 ->
  countable e (entered e i k) -> count e (entered e i k) < 2 ^ 31 ->
  0 <= (newoldhit (inode_state i)).1 -> 0 <= (newoldhit (inode_state i)).2 ->
  (newoldhit (inode_state i)).1 + (newoldhit (inode_state i)).2 < 2 ^ 31 ->
  let '(p, pot') := PotLoad.pot_load e false pot in
  (0 <= p)%Q ->
  exists (alpha beta : Q) i',
    let old := inject_Z (newoldhit (inode_state i)).1 in
    get_load e i k pot = Some ((alpha * old + beta * p)%Q, i', pot') /\
    ratios (count e (entered e i k)) (newoldhit (inode_state i)) = (alpha, beta) /\
    (1 # 10 <= alpha <= 1)%Q /\ (1 # 10 <= beta <= 1)%Q /\
    (0 <= alpha * old + beta * p <= old + p)%Q.
Proof.
  intros Hk Hd H3 He Hc Hb Ho Hn Hs. destruct (PotLoad.pot_load e false pot) as [p pot'] eqn:Ep.
  intros Hp. destruct (sizes_spec e (entered e i k)) as (i' & Hi & _ & Hbe & Hl); [done..|].
  pose proof (counts_nonneg _ _ Hc) as Hc0.
  destruct (newoldhit (inode_state i)) as [old new] eqn:Eo. cbn [fst snd] in Ho, Hn, Hs |- *.
  destruct (ratios_bounds (count e (entered e i k)) old new) as (alpha & beta & Hr & Ha & Hbt);
    [done..|lia|].
  exists alpha, beta, (CInode (inode_state i') (inode_frags i')). split; [|split; [done|]].
  - unfold get_load. rewrite Hk. obind. destruct d as [a ed n items].
    rewrite dir_update_stale. obind. cbn [dir_epoch] in Hd |- *. rewrite Z.max_r by lia.
    replace (<[k := CDir a e n items]> (inode_frags i)) with (inode_frags (entered e i k))
      by (unfold entered; cbn [inode_frags]; by rewrite Hk).
    unfold alpha_beta. fold (entered e i k).
    change (CInode (inode_state i) (inode_frags (entered e i k))) with (entered e i k).
    rewrite Hi. obind. pose proof (maybe_update_same (inode_state i')) as Hm. rewrite Hbe in Hm.
    rewrite Hm. obind. rewrite Hl. unfold entered at 2. cbn [inode_state]. rewrite Eo, Hr, Ep.
    cbn [inode_state]. rewrite Hl. unfold entered. cbn [inode_state]. by rewrite Eo.
  - split; [done|]. split; [done|].
    assert (0 <= inject_Z old)%Q by by rewrite <- (Zle_Qle 0). split; nra.
Qed.

Lemma get_load_witness :
  exists (alpha beta : Q) i',
    get_load 1 small_tree 0 (PotLoad.MkPot 4%Q 0%Q 0) =
      Some ((alpha * 0 + beta * 4)%Q, i', PotLoad.MkPot (4 / 4)%Q 4%Q 1) /\
    (0 <= alpha * 0 + beta * 4 <= 0 + 4)%Q.
Proof.
  pose proof (get_load_bounds 1 small_tree 0
    (CDir true (-1) 0 [Other; Primary (CInode (new_istate false 0) [CDir true (-1) 0 [Other]])])
    (PotLoad.MkPot 4%Q 0%Q 0)) as H.
  destruct H as (alpha & beta & i' & H & _ & _ & _ & Hb);
    [done|done|done|lia| |done|done|done|done|done|].
  - cbn. repeat split; try lia; try (exists []; left; apply holds_new); done.
  - exists alpha, beta, i'. split; [exact H|exact Hb].
Defined.

(** The size [get_load] works with lacks the fragment it is asked for: the tree
    has three dentries, and its size is taken to be that of the fragment when
    it was new. *)
Example get_load_size_stale :
  count 1 small_tree = 3 /\ count 1 (entered 1 small_tree 0) = 0.
Proof. done. Qed.
End LoadFacts.
