(* ===== verification/Load.v ===== *)
(** * Popularity, src/common/DecayCounter.*, the load vectors of mds/mdstypes.h and their use in MDBalancer.cc

    The counters that decay with time, the vectors of them that a directory
    fragment and an MDS carry, and how a hit, an import and an export change
    those of the ancestors.  [exp] is libm's and is a parameter; [DecayRate] is
    its [k]. *)

From Stdlib Require Import QArith Lqa.
From stdpp Require Import list.
From S2P Require Import Prelude Double HitCount.

(** ** Time *)

Record utime := MkTime { sec : Z; nsec : Z }.

(** [operator-=] *)
Definition utime_sub (l r : utime) : utime :=
  let s := u32 (sec l - sec r) in
  if nsec r <=? nsec l then MkTime s (u32 (nsec l - nsec r))
  else MkTime (u32 (s - 1)) (u32 (nsec l + (1000000000 - nsec r))).

Module Load.
Section load.
Context {D} `{Double D} (exp : D -> D).

Definition utime_double (t : utime) : D := (d_int (sec t) + d_int (nsec t) / d_int 1000000000)%D.

(** ** DecayCounter *)

Record decay_counter := MkDecay { val : D; delta : D; vel : D; last_decay : utime; rate : D }.

Definition new_decay (now : utime) : decay_counter :=
  MkDecay (d_int 0) (d_int 0) (d_int 0) now (d_int 0).

Definition decay (now : utime) (k : D) (c : decay_counter) : decay_counter :=
  let el := utime_sub now (last_decay c) in
  if 1 <=? sec el then
    let newval := ((val c + delta c) * exp (utime_double el * k))%D in
    let newval := if (newval <? d_ratio 1 100)%D then d_int 0 else newval in
    let vel' := (vel c + (newval - val c) * utime_double el)%D in
    MkDecay newval (d_int 0) (vel' * exp (utime_double el * k))%D now (rate c)
  else c.

Definition get (now : utime) (k : D) (c : decay_counter) : D * decay_counter :=
  let c := decay now k c in ((val c + delta c)%D, c).

Definition get_last (c : decay_counter) : D := val c.

Definition hit (now : utime) (k v : D) (c : decay_counter) : D * decay_counter :=
  let c := decay now k c in
  let c := MkDecay (val c) (delta c + v)%D (vel c) (last_decay c) (rate c) in
  ((val c + delta c)%D, c).

Definition adjust (a : D) (c : decay_counter) : decay_counter :=
  MkDecay (val c + a)%D (delta c) (vel c) (last_decay c) (rate c).
Definition adjust_at (now : utime) (k a : D) (c : decay_counter) : decay_counter :=
  adjust a (decay now k c).

Definition scale (f : D) (c : decay_counter) : decay_counter :=
  MkDecay (val c * f)%D (delta c * f)%D (vel c * f)%D (last_decay c) (rate c).

Definition reset (now : utime) (c : decay_counter) : decay_counter :=
  MkDecay (d_int 0) (d_int 0) (vel c) now (rate c).

(** ** dirfrag_load_vec_t *)

Record load_vec := MkVec {
  ird : decay_counter; iwr : decay_counter; readdir : decay_counter;
  fetch : decay_counter; store : decay_counter
}.

Definition new_vec (now : utime) : load_vec :=
  let c := new_decay now in MkVec c c c c c.

Definition vec_map (f : decay_counter -> decay_counter) (v : load_vec) : load_vec :=
  MkVec (f (ird v)) (f (iwr v)) (f (readdir v)) (f (fetch v)) (f (store v)).

(** [get(type)] changed by [f]; [None] outside the array. *)
Definition vec_at (type : Z) (f : decay_counter -> decay_counter) (v : load_vec) : option load_vec :=
  match type with
  | 0 => Some (MkVec (f (ird v)) (iwr v) (readdir v) (fetch v) (store v))
  | 1 => Some (MkVec (ird v) (f (iwr v)) (readdir v) (fetch v) (store v))
  | 2 => Some (MkVec (ird v) (iwr v) (f (readdir v)) (fetch v) (store v))
  | 3 => Some (MkVec (ird v) (iwr v) (readdir v) (f (fetch v)) (store v))
  | 4 => Some (MkVec (ird v) (iwr v) (readdir v) (fetch v) (f (store v)))
  | _ => None
  end.

Definition vec_adjust (now : utime) (k d : D) (v : load_vec) : load_vec :=
  vec_map (adjust_at now k d) v.
Definition vec_zero (now : utime) (v : load_vec) : load_vec := vec_map (reset now) v.
Definition vec_scale (f : D) (v : load_vec) : load_vec := vec_map (scale f) v.

(** [meta_load(now, rate)], which decays the counters. *)
Definition meta_load (now : utime) (k : D) (v : load_vec) : D * load_vec :=
  let v := vec_map (decay now k) v in
  let g c := (val c + delta c)%D in
  ((d_int 1 * g (ird v) + d_int 2 * g (iwr v) + d_int 1 * g (readdir v) +
    d_int 2 * g (fetch v) + d_int 4 * g (store v))%D, v).

(** [meta_load()] *)
Definition meta_load_last (v : load_vec) : D :=
  (d_int 1 * get_last (ird v) + d_int 2 * get_last (iwr v) + d_int 1 * get_last (readdir v) +
   d_int 2 * get_last (fetch v) + d_int 4 * get_last (store v))%D.

(** [add] and [sub]: each counter is adjusted by that of [r], which decays. *)
Definition vec_add (now : utime) (k : D) (r v : load_vec) : load_vec * load_vec :=
  let r := vec_map (decay now k) r in
  let f c x := adjust (val x + delta x)%D c in
  (MkVec (f (ird v) (ird r)) (f (iwr v) (iwr r)) (f (readdir v) (readdir r))
         (f (fetch v) (fetch r)) (f (store v) (store r)), r).
Definition vec_sub (now : utime) (k : D) (r v : load_vec) : load_vec * load_vec :=
  let r := vec_map (decay now k) r in
  let f c x := adjust (d_int 0 - (val x + delta x))%D c in
  (MkVec (f (ird v) (ird r)) (f (iwr v) (iwr r)) (f (readdir v) (readdir r))
         (f (fetch v) (fetch r)) (f (store v) (store r)), r).

(** ** mds_load_t *)

Record mds_load_t := MkLoad {
  auth : load_vec; all : load_vec;
  pot_auth : PotLoad.pot D; pot_all : PotLoad.pot D;
  req_rate : D; cache_hit_rate : D; queue_len : D; cpu_load_avg : D
}.

Definition new_load (t : utime) : mds_load_t :=
  MkLoad (new_vec t) (new_vec t) PotLoad.new_pot PotLoad.new_pot
    (d_int 0) (d_int 0) (d_int 0) (d_int 0).

(** [mds_bal_mode] outside its values aborts. *)
Definition mds_pop_load (mode : Z) (l : mds_load_t) : option D :=
  match mode with
  | 0 => Some (d_ratio 8 10 * meta_load_last (auth l) + d_ratio 2 10 * meta_load_last (all l) +
               req_rate l + d_int 10 * queue_len l)%D
  | 1 => Some (req_rate l + d_int 10 * queue_len l)%D
  | 2 => Some (cpu_load_avg l)
  | _ => None
  end.

Definition set_pots (pa pl : PotLoad.pot D) (l : mds_load_t) : mds_load_t :=
  MkLoad (auth l) (all l) pa pl (req_rate l) (cache_hit_rate l) (queue_len l) (cpu_load_avg l).

Definition mds_pot_load (is_auth : bool) (epoch : Z) (l : mds_load_t) : D * mds_load_t :=
  let '(a, pa) := PotLoad.pot_load epoch false (pot_auth l) in
  if is_auth then (a, set_pots pa (pot_all l) l)
  else
    let '(b, pl) := PotLoad.pot_load epoch false (pot_all l) in
    ((d_ratio 8 10 * a + d_ratio 2 10 * b)%D, set_pots pa pl l).

(** [mds_load]: the last branch passes [epoch] where [mds_pot_load] has [auth]. *)
Definition mds_load (mode : Z) (now : utime) (k alpha beta : D) (epoch : Z) (is_auth : bool)
  (l : mds_load_t) : option (D * mds_load_t) :=
  if is_auth then
    let '(m, v) := meta_load now k (auth l) in
    let '(p, pl) := PotLoad.pot_load epoch false (pot_all l) in
    Some ((alpha * m + beta * p)%D,
          MkLoad v (all l) (pot_auth l) pl (req_rate l) (cache_hit_rate l) (queue_len l) (cpu_load_avg l))
  else
    pop ← mds_pop_load mode l;
    let '(p, l) := mds_pot_load (negb (epoch =? 0)) (-1) l in
    Some ((alpha * pop + beta * p)%D, l).

(** ** load_spread_t *)

Definition MAX : Z := 4.

Record spread := MkSpread { last : list Z; p : Z; n : Z; count : decay_counter }.

Definition new_spread (now : utime) : spread := MkSpread [-1; -1; -1; -1] 0 0 (new_decay now).

(** [last[p++] = who] outside the array is undefined. *)
Definition spread_hit (now : utime) (k : D) (who : Z) (s : spread) : option (D * spread) :=
  if existsb (Z.eqb who) (take (Z.to_nat (n s)) (last s)) then Some (get_last (count s), s)
  else
    assert! (0 <=? p s) && (p s <? MAX);
    let last' := <[Z.to_nat (p s) := who]> (last s) in
    let p' := p s + 1 in
    let n' := if n s <? MAX then n s + 1 else n s in
    if n' =? 1 then Some (d_int 0, MkSpread last' p' n' (count s))
    else
      let p' := if p' =? MAX then 0 else p' in
      let '(v, c) := hit now k (d_int 1) (count s) in
      Some (v, MkSpread last' p' n' c).

Definition spread_get (now : utime) (k : D) (s : spread) : D * spread :=
  let '(v, c) := get now k (count s) in (v, MkSpread (last s) (p s) (n s) c).

(** ** The ancestors of a directory fragment *)

Record dirpop := MkPop {
  is_auth : bool; is_subtree_root : bool;
  pop_nested : load_vec; pop_auth_subtree : load_vec; pop_auth_subtree_nested : load_vec
}.

(** A hit of [amount], and the adjustment for a replication when there is one. *)
Definition hit_vec (now : utime) (k : D) (type : Z) (amount rd_adj : D) (v : load_vec) : option load_vec :=
  v ← vec_at type (fun c => (hit now k amount c).2) v;
  if (rd_adj =? d_int 0)%D then Some v else vec_at 0 (adjust_at now k rd_adj) v.

(** The loop of [hit_dir] over the fragment and its ancestors. *)
Fixpoint hit_ancestors (now : utime) (k : D) (type : Z) (amount rd_adj : D)
  (hit_subtree hit_subtree_nested : bool) (dirs : list dirpop) : option (list dirpop) :=
  match dirs with
  | [] => Some []
  | d :: dirs =>
      nested ← hit_vec now k type amount rd_adj (pop_nested d);
      sub ← (if hit_subtree then hit_vec now k type amount rd_adj (pop_auth_subtree d)
             else Some (pop_auth_subtree d));
      subnested ← (if hit_subtree_nested
                   then hit_vec now k type amount rd_adj (pop_auth_subtree_nested d)
                   else Some (pop_auth_subtree_nested d));
      let hit_subtree := if is_subtree_root d then false else hit_subtree in
      dirs ← hit_ancestors now k type amount rd_adj hit_subtree hit_subtree_nested dirs;
      Some (MkPop (is_auth d) (is_subtree_root d) nested sub subnested :: dirs)
  end.

Definition hit_dir_pops (now : utime) (k : D) (type : Z) (amount rd_adj : D) (dirs : list dirpop)
  : option (list dirpop) :=
  match dirs with
  | [] => None
  | d :: _ => hit_ancestors now k type amount rd_adj (is_auth d) (is_auth d) dirs
  end.

(** [subtract_export] and [add_import] on the ancestors of the fragment. *)
Fixpoint subtract_export (now : utime) (k : D) (subload : load_vec) (ancestors : list dirpop) : list dirpop :=
  match ancestors with
  | [] => []
  | d :: ancestors =>
      let '(nested, subload) := vec_sub now k subload (pop_nested d) in
      let '(subnested, subload) := vec_sub now k subload (pop_auth_subtree_nested d) in
      MkPop (is_auth d) (is_subtree_root d) nested (pop_auth_subtree d) subnested ::
        subtract_export now k subload ancestors
  end.

Fixpoint add_import (now : utime) (k : D) (subload : load_vec) (ancestors : list dirpop) : list dirpop :=
  match ancestors with
  | [] => []
  | d :: ancestors =>
      let '(nested, subload) := vec_add now k subload (pop_nested d) in
      let '(subnested, subload) := vec_add now k subload (pop_auth_subtree_nested d) in
      MkPop (is_auth d) (is_subtree_root d) nested (pop_auth_subtree d) subnested ::
        add_import now k subload ancestors
  end.
End load.
Arguments decay_counter : clear implicits.
Arguments load_vec : clear implicits.
Arguments mds_load_t : clear implicits.
Arguments dirpop : clear implicits.
Arguments spread : clear implicits.
End Load.

Module LoadCorrect.
Import Load.

(** ** Decay *)

Section decay.
Open Scope Q_scope.
Context (exp : Q -> Q).
Hypothesis exp_nonpos : forall x, x <= 0 -> 0 < exp x <= 1.

Lemma utime_double_nonneg (t : utime) : (0 <= sec t)%Z -> (0 <= nsec t)%Z -> 0 <= utime_double t.
Proof.
  intros Hs Hn. unfold utime_double. cbn [d_int dadd ddiv Q_double].
  rewrite (Zle_Qle 0) in Hs. destruct (ratio_Q (nsec t) 1000000000) as (_ & _ & [L _]); [lia|].
  specialize (L Hn). change (inject_Z 0) with 0 in Hs. lra.
Qed.

Lemma utime_sub_nonneg l r : (0 <= sec (utime_sub l r) /\ 0 <= nsec (utime_sub l r))%Z.
Proof. unfold utime_sub. destruct (_ <=? _)%Z; simpl; split; apply u32_range. Qed.

(** Reading a counter gives at most what was counted, and nothing negative;
    within a second exactly what was counted. *)
Lemma get_bounds now k (c : decay_counter Q) :
  k <= 0 -> 0 <= val c + delta c ->
  0 <= (get exp now k c).1 <= val c + delta c /\
  (sec (utime_sub now (last_decay c)) = 0%Z -> (get exp now k c).1 = val c + delta c).
Proof.
  intros Hk Hc. unfold get, decay. destruct (Z.leb_spec 1 (sec (utime_sub now (last_decay c)))).
  2: { split; [|done]. cbn. lra. }
  split; [|lia]. cbn [fst val delta dmul dadd Q_double d_int].
  assert (He : utime_double (utime_sub now (last_decay c)) * k <= 0).
  { destruct (utime_sub_nonneg now (last_decay c)) as [Hs Hn].
    pose proof (utime_double_nonneg _ Hs Hn). nra. }
  apply exp_nonpos in He. set (x := exp _) in *. set (t := val c + delta c) in *.
  assert (0 <= t * x) by (apply Qmult_le_0_compat; lra).
  assert (t * x <= t) by nra. change (inject_Z 0) with 0.
  destruct (dlt _ _); split; lra.
Qed.
End decay.

(** ** The clients that spread the reads of a fragment *)

Section spread.
Context (exp : Q -> Q) (k : Q).

Fixpoint spread_run (hits : list (utime * Z)) (s : spread Q) : option (spread Q) :=
  match hits with
  | [] => Some s
  | (now, who) :: hits => '(_, s) ← spread_hit exp now k who s; spread_run hits s
  end.

(** A queue of the last four clients that were not in it, newest first. *)
Definition remember (q : list Z) (who : Z) : list Z :=
  if existsb (Z.eqb who) q then q else take 4 (who :: q).

(** The array is the queue, rotated once it is full. *)
Inductive ring : list Z -> spread Q -> Prop :=
| ring_0 c : ring [] (MkSpread [-1; -1; -1; -1] 0 0 c)
| ring_1 a c : ring [a] (MkSpread [a; -1; -1; -1] 1 1 c)
| ring_2 a b c : ring [b; a] (MkSpread [a; b; -1; -1] 2 2 c)
| ring_3 a b d c : ring [d; b; a] (MkSpread [a; b; d; -1] 3 3 c)
| ring_4 a b d e c : ring [e; d; b; a] (MkSpread [a; b; d; e] 0 4 c)
| ring_5 a b d e c : ring [a; e; d; b] (MkSpread [a; b; d; e] 1 4 c)
| ring_6 a b d e c : ring [b; a; e; d] (MkSpread [a; b; d; e] 2 4 c)
| ring_7 a b d e c : ring [d; b; a; e] (MkSpread [a; b; d; e] 3 4 c).

Lemma ring_members q s who :
  ring q s -> existsb (Z.eqb who) (take (Z.to_nat (n s)) (last s)) = existsb (Z.eqb who) q.
Proof.
  destruct 1; cbn [n last];
  match goal with |- context [Z.to_nat ?z] => let m := eval vm_compute in (Z.to_nat z) in change (Z.to_nat z) with m end;
  cbn [take existsb];
  repeat match goal with |- context [Z.eqb who ?x] => destruct (Z.eqb who x) end; done.
Qed.

Lemma ring_step now who q s :
  ring q s ->
  exists v s', spread_hit exp now k who s = Some (v, s') /\ ring (remember q who) s'.
Proof.
  intros Hr. unfold spread_hit, remember. rewrite (ring_members q s who Hr).
  destruct (existsb (Z.eqb who) q); [by eauto|].
  destruct Hr; eexists _, _; (split; [reflexivity|]); constructor.
Qed.

(** Whatever clients hit a fragment, [load_spread_t] stays within its array of
    four, and the clients it remembers are those of a queue of the last four
    clients that were not in the queue when they came. *)
Theorem spread_refines hits now :
  exists s, spread_run hits (new_spread now) = Some s /\
    (forall who, existsb (Z.eqb who) (take (Z.to_nat (n s)) (last s)) =
                 existsb (Z.eqb who) (fold_left (fun q h => remember q h.2) hits [])) /\
    0 <= p s < MAX /\ 0 <= n s <= MAX /\ length (last s) = 4%nat.
Proof.
  assert (exists s, spread_run hits (new_spread now) = Some s /\
            ring (fold_left (fun q h => remember q h.2) hits []) s) as (s & Hs & Hr).
  { assert (Hr : ring [] (new_spread now)) by constructor. revert Hr.
    generalize (new_spread now), (@nil Z). induction hits as [|[t who] hits IH]; intros s q Hr; simpl.
    - eauto.
    - destruct (ring_step t who q s Hr) as (v & s' & -> & Hr'). obind. by apply IH. }
  exists s. split; [done|]. split; [intros; by apply ring_members|].
  destruct Hr; cbn; unfold MAX; lia.
Qed.
End spread.

(** ** A hit on a fragment *)

Section hit.
Context (exp : Q -> Q) (now : utime) (k amount rd_adj : Q).

Definition hit_or (b : bool) (type : Z) (v v' : load_vec Q) : Prop :=
  if b then hit_vec exp now k type amount rd_adj v = Some v' else v' = v.

(** What the hit does at a fragment of the path to the root. *)
Definition hit_at (type : Z) (sub nested : bool) (d d' : dirpop Q) : Prop :=
  is_auth d' = is_auth d /\ is_subtree_root d' = is_subtree_root d /\
  hit_or true type (pop_nested d) (pop_nested d') /\
  hit_or sub type (pop_auth_subtree d) (pop_auth_subtree d') /\
  hit_or nested type (pop_auth_subtree_nested d) (pop_auth_subtree_nested d').

Lemma vec_at_some type f (v : load_vec Q) : 0 <= type <= 4 -> is_Some (vec_at type f v).
Proof.
  intros. assert (type = 0 \/ type = 1 \/ type = 2 \/ type = 3 \/ type = 4) as Hc by lia.
  destruct Hc as [->|[->|[->|[->| ->]]]]; by eexists.
Qed.

Lemma hit_vec_some type v : 0 <= type <= 4 -> exists v', hit_vec exp now k type amount rd_adj v = Some v'.
Proof.
  intros Ht. unfold hit_vec. destruct (vec_at_some type (fun c => (hit exp now k amount c).2) v Ht) as [w ->].
  obind. destruct (deq _ _); [by eauto|]. apply vec_at_some. lia.
Qed.

Lemma hit_or_some (b : bool) type v : 0 <= type <= 4 ->
  exists v', (if b then hit_vec exp now k type amount rd_adj v else Some v) = Some v' /\ hit_or b type v v'.
Proof.
  intros Ht. destruct b; [|by eexists]. destruct (hit_vec_some type v Ht) as [v' E]. by exists v'.
Qed.

Lemma hit_ancestors_spec type sub nested (dirs : list (dirpop Q)) :
  0 <= type <= 4 ->
  exists dirs', hit_ancestors exp now k type amount rd_adj sub nested dirs = Some dirs' /\
    length dirs' = length dirs /\
    forall i d d', dirs !! i = Some d -> dirs' !! i = Some d' ->
      hit_at type (sub && negb (existsb is_subtree_root (take i dirs))) nested d d'.
Proof.
  intros Ht. revert sub. induction dirs as [|d dirs IH]; intros sub; simpl.
  { exists []. done. }
  destruct (hit_vec_some type (pop_nested d) Ht) as [v1 E1]. rewrite E1. obind.
  destruct (hit_or_some sub type (pop_auth_subtree d) Ht) as (v2 & -> & H2). obind.
  destruct (hit_or_some nested type (pop_auth_subtree_nested d) Ht) as (v3 & -> & H3). obind.
  destruct (IH (if is_subtree_root d then false else sub)) as (dirs' & -> & Hl & Hi). obind.
  eexists. split; [done|]. split; [simpl; by rewrite Hl|].
  intros [|i] x x'; simpl.
  - intros [= <-] [= <-]. rewrite andb_true_r. by split_and!.
  - intros Hx Hx'. specialize (Hi i x x' Hx Hx'). destruct (is_subtree_root d); simpl in *; [|done].
    by rewrite andb_false_r.
Qed.

(** A hit on a directory fragment reaches the nested popularity of it and of
    every ancestor; the popularity of the authoritative subtree from an
    authoritative fragment up to the first subtree root, that one included; and
    the nested authoritative popularity of all of them when the fragment is
    authoritative. *)
Theorem hit_dir_pops_correct type d dirs :
  0 <= type <= 4 ->
  exists dirs', hit_dir_pops exp now k type amount rd_adj (d :: dirs) = Some dirs' /\
    length dirs' = S (length dirs) /\
    forall i x x', (d :: dirs) !! i = Some x -> dirs' !! i = Some x' ->
      hit_at type (is_auth d && negb (existsb is_subtree_root (take i (d :: dirs)))) (is_auth d) x x'.
Proof. apply (hit_ancestors_spec type (is_auth d) (is_auth d) (d :: dirs)). Qed.
End hit.

(** ** Imports and exports *)

Section transfer.
Context (exp : Q -> Q) (now : utime) (k : Q).

Definition same_counter (c c' : decay_counter Q) : Prop :=
  (val c == val c')%Q /\ delta c = delta c' /\ vel c = vel c' /\
  last_decay c = last_decay c' /\ rate c = rate c'.
Definition same_vec (v v' : load_vec Q) : Prop :=
  same_counter (ird v) (ird v') /\ same_counter (iwr v) (iwr v') /\
  same_counter (readdir v) (readdir v') /\ same_counter (fetch v) (fetch v') /\
  same_counter (store v) (store v').
Definition same_pop (d d' : dirpop Q) : Prop :=
  is_auth d = is_auth d' /\ is_subtree_root d = is_subtree_root d' /\
  same_vec (pop_nested d) (pop_nested d') /\ pop_auth_subtree d = pop_auth_subtree d' /\
  same_vec (pop_auth_subtree_nested d) (pop_auth_subtree_nested d').

Lemma adjust_cancel (a : Q) c : same_counter (adjust (0 - a)%Q (adjust a c)) c.
Proof. repeat split. cbn. lra. Qed.

Lemma vec_cancel r v :
  same_vec (vec_sub exp now k r (vec_add exp now k r v).1).1 v /\
  (vec_sub exp now k r v).2 = (vec_add exp now k r v).2.
Proof. split; [|done]. unfold same_vec. split_and!; apply adjust_cancel. Qed.

(** Taking an exported fragment's popularity off its ancestors undoes adding it
    for an import: every counter of every ancestor is as it was. *)
Theorem import_export_cancel subload ancestors :
  Forall2 same_pop (subtract_export exp now k subload (add_import exp now k subload ancestors)) ancestors.
Proof.
  revert subload. induction ancestors as [|d l IH]; intros r; cbn [add_import].
  { constructor. }
  destruct (vec_add exp now k r (pop_nested d)) as [v1 r1] eqn:E1.
  destruct (vec_add exp now k r1 (pop_auth_subtree_nested d)) as [v2 r2] eqn:E2.
  cbn [subtract_export pop_nested pop_auth_subtree_nested is_auth is_subtree_root pop_auth_subtree].
  destruct (vec_cancel r (pop_nested d)) as [C1 _]. rewrite E1 in C1.
  destruct (vec_cancel r1 (pop_auth_subtree_nested d)) as [C2 _]. rewrite E2 in C2.
  assert (S1 : (vec_sub exp now k r v1).2 = r1) by (change r1 with (v1, r1).2; by rewrite <- E1).
  assert (S2 : (vec_sub exp now k r1 v2).2 = r2) by (change r2 with (v2, r2).2; by rewrite <- E2).
  cbn [fst] in C1, C2. revert C1 C2 S1 S2.
  destruct (vec_sub exp now k r v1) as [w1 s1]. cbn [fst snd]. intros C1 C2 -> S2. revert C2 S2.
  destruct (vec_sub exp now k r1 v2) as [w2 s2]. cbn [fst snd]. intros C2 ->.
  constructor; [|apply IH].
  split; [done|]. split; [done|]. split; [exact C1|]. split; [done|exact C2].
Qed.
End transfer.

(** A hit of a fragment below a subtree root. *)
Lemma hit_dir_pops_witness :
  let d := MkPop true false (new_vec (MkTime 0 0)) (new_vec (MkTime 0 0)) (new_vec (MkTime 0 0)) in
  exists dirs', hit_dir_pops (fun _ => 1%Q) (MkTime 0 0) 0%Q 0 1%Q 0%Q [d] = Some dirs' /\
    length dirs' = 1%nat.
Proof.
  intros d. destruct (hit_dir_pops_correct (fun _ => 1%Q) (MkTime 0 0) 0%Q 1%Q 0%Q 0 d [])
    as (dirs' & H & Hl & _); [lia|]. exists dirs'. split; [exact H|exact Hl].
Defined.
End LoadCorrect.
