(* ===== verification/StrHash.v ===== *)
(** * Hashes of dentry names, src/common/ceph_hash.cc

    The hash decides which fragment of a directory holds a name. *)

From S2P Require Import Prelude Encoding.
Import Encoding.

Module StrHash.

Definition CEPH_STR_HASH_LINUX : Z := 1.
Definition CEPH_STR_HASH_RJENKINS : Z := 2.

(** A line of [mix]: two subtractions and an exclusive or with a shifted word. *)
Definition mix_right (n x y z : Z) : Z := Z.lxor (u32 (u32 (x - y) - z)) (Z.shiftr z n).
Definition mix_left (n x y z : Z) : Z := Z.lxor (u32 (u32 (x - y) - z)) (u32 (Z.shiftl z n)).

Definition mix (s : Z * Z * Z) : Z * Z * Z :=
  let '(a, b, c) := s in
  let a := mix_right 13 a b c in
  let b := mix_left 8 b c a in
  let c := mix_right 13 c a b in
  let a := mix_right 12 a b c in
  let b := mix_left 16 b c a in
  let c := mix_right 5 c a b in
  let a := mix_right 3 a b c in
  let b := mix_left 10 b c a in
  let c := mix_right 15 c a b in
  (a, b, c).

Definition word (k0 k1 k2 k3 : Z) : Z :=
  u32 (u32 (u32 (k0 + Z.shiftl k1 8) + Z.shiftl k2 16) + Z.shiftl k3 24).

(** The bytes before the last eleven, twelve at a time. *)
Fixpoint mix_words (k : bytes) (s : Z * Z * Z) : bytes * (Z * Z * Z) :=
  match k with
  | k0 :: k1 :: k2 :: k3 :: k4 :: k5 :: k6 :: k7 :: k8 :: k9 :: k10 :: k11 :: rest =>
      let '(a, b, c) := s in
      mix_words rest (mix (u32 (a + word k0 k1 k2 k3), u32 (b + word k4 k5 k6 k7),
                           u32 (c + word k8 k9 k10 k11)))
  | _ => (k, s)
  end.

(** A case of the [switch], which falls through: [x] plus byte [n], when there
    is one, shifted. *)
Definition add_byte (k : bytes) (n : nat) (shift x : Z) : Z :=
  match k !! n with Some c => u32 (x + Z.shiftl c shift) | None => x end.

Definition ceph_str_hash_rjenkins (str : bytes) : Z :=
  let '(k, (a, b, c)) := mix_words str (0x9e3779b9, 0x9e3779b9, 0) in
  let c := u32 (c + u32 (Z.of_nat (length str))) in
  let c := add_byte k 8 8 (add_byte k 9 16 (add_byte k 10 24 c)) in
  let b := add_byte k 4 0 (add_byte k 5 8 (add_byte k 6 16 (add_byte k 7 24 b))) in
  let a := add_byte k 0 0 (add_byte k 1 8 (add_byte k 2 16 (add_byte k 3 24 a))) in
  (mix (a, b, c)).2.

Definition linux_step (hash c : Z) : Z := u32 ((hash + Z.shiftl c 4 + Z.shiftr c 4) * 11).
Definition ceph_str_hash_linux (str : bytes) : Z := foldl linux_step 0 str.

Definition ceph_str_hash (type : Z) (s : bytes) : Z :=
  if type =? CEPH_STR_HASH_LINUX then ceph_str_hash_linux s
  else if type =? CEPH_STR_HASH_RJENKINS then ceph_str_hash_rjenkins s
  else u32 (-1).

Definition ceph_str_hash_valid (type : Z) : bool :=
  (type =? CEPH_STR_HASH_LINUX) || (type =? CEPH_STR_HASH_RJENKINS).

End StrHash.

Module StrHashFacts.
Import StrHash.

Definition word32 (x : Z) : Prop := 0 <= x < 2 ^ 32.

Lemma log2_word x : word32 x -> Z.log2 x < 32.
Proof. intros []. destruct (Z.eq_dec x 0) as [->|]; [done|]. apply Z.log2_lt_pow2; lia. Qed.

Lemma lxor_word x y : word32 x -> word32 y -> word32 (Z.lxor x y).
Proof.
  intros Hx Hy. assert (0 <= Z.lxor x y) by (apply Z.lxor_nonneg; unfold word32 in *; lia).
  split; [done|]. destruct (Z.eq_dec (Z.lxor x y) 0) as [->|]; [done|].
  apply Z.log2_lt_pow2; [lia|]. pose proof (log2_word x Hx). pose proof (log2_word y Hy).
  destruct Hx, Hy. pose proof (Z.log2_lxor x y). lia.
Qed.

Lemma shiftr_word x n : word32 x -> 0 <= n -> word32 (Z.shiftr x n).
Proof.
  intros [] ?. split; [by apply Z.shiftr_nonneg|]. rewrite Z.shiftr_div_pow2 by done.
  pose proof (Z.pow_pos_nonneg 2 n ltac:(lia) ltac:(lia)).
  eapply Z.le_lt_trans; [apply Z.div_le_upper_bound with (q := x)|]; [lia| |lia]. nia.
Qed.

(** The last line of [mix] leaves a word. *)
Lemma mix_word a b c : word32 ((mix (a, b, c)).2) .
Proof.
  unfold mix. cbn [snd]. set (b' := mix_left 10 _ _ _). unfold mix_right at 1.
  apply lxor_word; [apply u32_range|]. apply shiftr_word; [|lia].
  apply lxor_word; apply u32_range.
Qed.

(** A hash is a 32-bit word, whatever its kind. *)
Lemma str_hash_range type s : 0 <= ceph_str_hash type s < 2 ^ 32.
Proof.
  unfold ceph_str_hash. destruct (type =? _).
  { unfold ceph_str_hash_linux. destruct s as [|c s _] using rev_ind; [done|].
    rewrite foldl_snoc. apply u32_range. }
  destruct (type =? _); [|done]. unfold ceph_str_hash_rjenkins.
  destruct (mix_words _ _) as [k [[a b] c]]. apply mix_word.
Qed.

(** The dcache hash is a polynomial in 11 of the bytes, each with its nibbles
    spread. *)
Fixpoint linux_poly (s : bytes) : Z :=
  match s with
  | [] => 0
  | c :: s => (16 * c + c / 16) * 11 ^ Z.of_nat (length (c :: s)) + linux_poly s
  end.

Lemma linux_step_word h c : linux_step (u32 h) c = u32 ((h + (16 * c + c / 16)) * 11).
Proof.
  unfold linux_step, u32. rewrite Z.shiftl_mul_pow2, Z.shiftr_div_pow2 by lia.
  rewrite <- Z.add_assoc, <- Zmult_mod_idemp_l, Zplus_mod_idemp_l, Zmult_mod_idemp_l.
  do 2 f_equal. change (2 ^ 4) with 16. lia.
Qed.

(** C33: The loop of the dcache hash, with its wrap at every step, computes the
    polynomial [linux_poly] of the bytes modulo 2^32. *)
Theorem linux_hash_poly s : ceph_str_hash_linux s = u32 (linux_poly s).
Proof.
  assert (H : forall h, u32 (foldl linux_step (u32 h) s) =
                        u32 (h * 11 ^ Z.of_nat (length s) + linux_poly s)).
  { induction s as [|c s IH]; intros h; cbn [foldl linux_poly].
    { simpl length. rewrite Z.pow_0_r. unfold u32. rewrite Zmod_mod. f_equal. lia. }
    rewrite linux_step_word, IH. f_equal. simpl length. rewrite Nat2Z.inj_succ, Z.pow_succ_r by lia. nia. }
  specialize (H 0). rewrite Z.mul_0_l, Z.add_0_l in H. rewrite <- H. unfold ceph_str_hash_linux.
  change (u32 0) with 0. symmetry. apply u32_small.
  destruct s as [|c s _] using rev_ind; [done|]. rewrite foldl_snoc. apply u32_range.
Qed.

End StrHashFacts.
