(* ===== verification/CacheDir.v ===== *)
(** * A directory of the cache and its fragments, src/mds/CDir.cc, CInode.cc

    A directory inode ([CInode]) and the fragments ([CDir]) of it that are in
    the cache: their pins and auth pins, freezing, waiters, dentries and
    statistics, and how a fragment is split and fragments are merged.

    A fragment is addressed by its [frag_t], the key of [dirfrags].  What the
    code does to the directory above (pins of the parent dentry, contexts
    queued on the daemon) is recorded in [calls].  Times are integers.  Counts
    of entries and of pins are integers without a wrap: they count objects in
    memory.  Not modelled: roots of freezing trees ([None]), the bloom filter,
    the LRU lists, and the audit that [mds_debug_auth_pins] turns on. *)

From S2P Require Import Prelude Encoding Frag FragTree Double Load StrHash.
Import Encoding.

Module CacheDir.
Import Frag FragTree StrHash.

(** ** Statistics, src/mds/mdstypes.h *)

Record frag_info_t := MkFragInfo {
  fi_version : Z; mtime : Z; change_attr : Z; nfiles : Z; nsubdirs : Z
}.

Record nest_info_t := MkNestInfo {
  ni_version : Z; rctime : Z; rbytes : Z; rfiles : Z; rsubdirs : Z; rsnaprealms : Z
}.

Definition new_frag_info : frag_info_t := MkFragInfo 0 0 0 0 0.
Definition new_nest_info : nest_info_t := MkNestInfo 0 0 0 0 0 0.

Definition size (f : frag_info_t) : Z := nfiles f + nsubdirs f.

Definition frag_add_delta (cur acc f : frag_info_t) : frag_info_t :=
  MkFragInfo (fi_version f)
    (if mtime f <? mtime cur then mtime cur else mtime f)
    (if change_attr f <? change_attr cur then change_attr cur else change_attr f)
    (nfiles f + (nfiles cur - nfiles acc)) (nsubdirs f + (nsubdirs cur - nsubdirs acc)).

Definition frag_add (other f : frag_info_t) : frag_info_t :=
  MkFragInfo (fi_version f)
    (if mtime f <? mtime other then mtime other else mtime f)
    (if change_attr f <? change_attr other then change_attr other else change_attr f)
    (nfiles f + nfiles other) (nsubdirs f + nsubdirs other).

Definition nest_add_delta (cur acc n : nest_info_t) : nest_info_t :=
  MkNestInfo (ni_version n)
    (if rctime n <? rctime cur then rctime cur else rctime n)
    (rbytes n + (rbytes cur - rbytes acc)) (rfiles n + (rfiles cur - rfiles acc))
    (rsubdirs n + (rsubdirs cur - rsubdirs acc))
    (rsnaprealms n + (rsnaprealms cur - rsnaprealms acc)).

Definition nest_add (other n : nest_info_t) : nest_info_t :=
  MkNestInfo (ni_version n)
    (if rctime n <? rctime other then rctime other else rctime n)
    (rbytes n + rbytes other) (rfiles n + rfiles other) (rsubdirs n + rsubdirs other)
    (rsnaprealms n + rsnaprealms other).

Record fnode_t := MkFnode {
  version : Z;
  fragstat : frag_info_t; accounted_fragstat : frag_info_t;
  rstat : nest_info_t; accounted_rstat : nest_info_t
}.

(** [memset(&fnode, 0, sizeof(fnode))] *)
Definition zero_fnode : fnode_t :=
  MkFnode 0 new_frag_info new_frag_info new_nest_info new_nest_info.

(** ** Dentries *)

(** What a fragment reads of an inode linked to a dentry of it: the accounted
    [rstat] is that of the projected inode. *)
Record child := MkChild {
  c_ino : Z; c_is_dir : bool; c_rstat : nest_info_t; c_dirty_rstat : bool; c_auth_pins : Z
}.

Inductive linkage_t := Null | Remote (remote_ino remote_d_type : Z) | Primary (inode : child).

Definition CEPH_NOSNAP : Z := 2 ^ 64 - 2.
Definition DT_DIR : Z := 4.

(** [dn_fragmenting] is [STATE_FRAGMENTING] and [dn_pinned] the number of
    [PIN_FRAGMENTING] pins. *)
Record dentry := MkDentry {
  name : bytes; hash : Z; last : Z; linkage : linkage_t; dn_is_projected : bool;
  dn_auth_pins : Z; dn_nested_auth_pins : Z; dn_dirty : bool; client_leases : bool;
  dn_fragmenting : bool; dn_pinned : Z
}.

Definition is_null (l : linkage_t) : bool := match l with Null => true | _ => false end.

(** [string_view::compare] *)
Fixpoint name_compare (x y : bytes) : comparison :=
  match x, y with
  | [], [] => Eq
  | [], _ :: _ => Lt
  | _ :: _, [] => Gt
  | a :: x, b :: y => match a ?= b with Eq => name_compare x y | c => c end
  end.

(** [operator<] of [dentry_key_t], on the keys of two dentries. *)
Definition dn_lt (x y : dentry) : bool :=
  let c := ceph_frag_value (hash x) - ceph_frag_value (hash y) in
  if negb (c =? 0) then c <? 0
  else match name_compare (name x) (name y) with
       | Lt => true | Gt => false | Eq => last x <? last y
       end.

(** [items[dn->key()] = dn] and [items.erase(dn->key())] *)
Fixpoint items_set (l : list dentry) (dn : dentry) : list dentry :=
  match l with
  | [] => [dn]
  | x :: l' => if dn_lt x dn then x :: items_set l' dn
               else if dn_lt dn x then dn :: l else dn :: l'
  end.

Definition items_erase (l : list dentry) (dn : dentry) : list dentry :=
  List.filter (fun x => dn_lt x dn || dn_lt dn x) l.

Definition get_num_dir_auth_pins (dn : dentry) : option Z :=
  assert! negb (dn_is_projected dn);
  Some (match linkage dn with Primary i => dn_auth_pins dn + c_auth_pins i | _ => dn_auth_pins dn end).

(** [string_snap_t] and its order. *)
Abbreviation string_snap_t := (bytes * Z)%type.
Definition snap_lt (x y : string_snap_t) : bool :=
  match name_compare x.1 y.1 with Lt => true | Gt => false | Eq => x.2 <? y.2 end.

(** A context that waits, and those that wait for a dentry. *)
Abbreviation context := Z.
Abbreviation dentry_waiters := (list (string_snap_t * list context)).

(** [m[k]] with [l] pushed at its back. *)
Fixpoint add_dentry_waiters (m : dentry_waiters) (k : string_snap_t) (l : list context) : dentry_waiters :=
  match m with
  | [] => [(k, l)]
  | (k', l') :: m' =>
      if snap_lt k' k then (k', l') :: add_dentry_waiters m' k l
      else if snap_lt k k' then (k, l) :: m else (k', l' ++ l) :: m'
  end.

(** ** MDSCacheObject *)

Definition PIN_DNWAITER : Z := 1.
Definition PIN_CHILD : Z := 3.
Definition PIN_FROZEN : Z := 4.
Definition PIN_SUBTREE : Z := 5.
Definition PIN_IMPORTBOUND : Z := 9.
Definition PIN_EXPORTBOUND : Z := 10.
Definition PIN_STICKY : Z := 11.
Definition PIN_REPLICATED : Z := 1000.
Definition PIN_DIRTY : Z := 1001.
Definition PIN_WAITER : Z := 1004.
Definition PIN_AUTHPIN : Z := 1006.

(** Pins of an inode. *)
Definition PIN_DIRFRAG : Z := -1.
Definition PIN_FREEZING : Z := 13.
Definition PIN_INODE_FROZEN : Z := 14.

(** [ref_map[by]] is 0 where the map has no entry. *)
Record pinset := MkPins { ref : Z; ref_map : Z -> Z }.

Definition no_pins : pinset := MkPins 0 (fun _ => 0).

Definition pin_set (m : Z -> Z) (by_ v : Z) : Z -> Z := fun p => if p =? by_ then v else m p.

(** The flag says that [first_get] or [last_put] runs. *)
Definition pin_get (by_ : Z) (p : pinset) : pinset * bool :=
  (MkPins (ref p + 1) (pin_set (ref_map p) by_ (ref_map p by_ + 1)), ref p =? 0).
Definition pin_put (by_ : Z) (p : pinset) : option (pinset * bool) :=
  if (ref p =? 0) || (ref_map p by_ =? 0) then None
  else Some (MkPins (ref p - 1) (pin_set (ref_map p) by_ (ref_map p by_ - 1)), ref p - 1 =? 0).

Definition STATE_COMPLETE : Z := 2 ^ 1.
Definition STATE_FROZENTREE : Z := 2 ^ 2.
Definition STATE_FREEZINGTREE : Z := 2 ^ 3.
Definition STATE_FROZENDIR : Z := 2 ^ 4.
Definition STATE_FREEZINGDIR : Z := 2 ^ 5.
Definition STATE_CREATING : Z := 2 ^ 8.
Definition STATE_IMPORTBOUND : Z := 2 ^ 10.
Definition STATE_EXPORTBOUND : Z := 2 ^ 11.
Definition STATE_FRAGMENTING : Z := 2 ^ 14.
Definition STATE_STICKY : Z := 2 ^ 15.
Definition STATE_DNPINNEDFRAG : Z := 2 ^ 16.
Definition STATE_DIRTYDFT : Z := 2 ^ 18.
Definition STATE_BADFRAG : Z := 2 ^ 19.
Definition STATE_AUXSUBTREE : Z := 2 ^ 20.
Definition STATE_REJOINUNDEF : Z := 2 ^ 26.
Definition STATE_DIRTY : Z := 2 ^ 29.
Definition STATE_AUTH : Z := 2 ^ 30.

Definition MASK_STATE_FRAGMENT_KEPT : Z :=
  Z.lor STATE_DIRTY (Z.lor STATE_EXPORTBOUND (Z.lor STATE_IMPORTBOUND
    (Z.lor STATE_AUXSUBTREE STATE_REJOINUNDEF))).

Definition WAIT_DENTRY : Z := 2 ^ 0.
Definition WAIT_FROZEN : Z := 2 ^ 2.
Definition WAIT_CREATED : Z := 2 ^ 3.
Definition WAIT_SINGLEAUTH : Z := 2 ^ 60.
Definition WAIT_UNFREEZE : Z := 2 ^ 59.
Definition WAIT_ANY_MASK : Z := u64 (-1).

(** An entry of [waiting]: mask, sequence number of an ordered waiter or 0. *)
Record waiter := MkWaiter { w_mask : Z; w_seq : Z; w_context : context }.

Definition waits_for (mask : Z) (w : waiter) : bool := negb (Z.land (w_mask w) mask =? 0).

(** [ordered_waiters.insert] keeps an entry that is there. *)
Definition ordered_waiters (l : list waiter) : list context :=
  map snd (foldl (fun m w => map_emplace m (w_seq w) (w_context w)) [] l).

(** What [take_waiting] takes, in its order, and what it leaves. *)
Definition taken (mask : Z) (l : list waiter) : list context :=
  let t := List.filter (waits_for mask) l in
  map w_context (List.filter (fun w => negb (0 <? w_seq w)) t) ++
  ordered_waiters (List.filter (fun w => 0 <? w_seq w) t).
Definition left_waiting (mask : Z) (l : list waiter) : list waiter :=
  List.filter (fun w => negb (waits_for mask w)) l.

(** ** CInode: pins and auth pins *)

(** Calls to what is above the directory, and contexts that are queued or run. *)
Inductive call :=
  | ParentGet | ParentPut
  | ParentNested (adjustment diradj : Z)
  | EvalStray
  | QueueWaiters (l : list context)
  | FinishContexts (l : list context) (result : Z)
  | ExportPinQueued.

Inductive freeze := Thawed | Freezing (auth_pin_freeze_allowance : Z) | Frozen.

(** [CDir]'s counts of what lies below it. *)
Record density := MkDensity {
  num_dentries_nested : Z; num_dentries_auth_subtree : Z; num_dentries_auth_subtree_nested : Z
}.

(** What does not change: [i_parent] is whether the fragment that holds the
    inode is frozen, and whether it is a frozen directory; [dirty_refs] is
    [is_dirty() + is_dirty_parent()]; [export_pin] is [get_export_pin(false)]
    and [export_pinnable] that pins are on and the inode a normal directory. *)
Record ienv := MkEnv {
  i_auth : bool; i_parent : option (bool * bool); i_notifyref : bool; dirty_refs : Z;
  rstat_version : Z; dirstat_version : Z; dl_dir_hash : Z;
  export_pin : Z; export_pinnable : bool
}.

(** [above] has the counts of the fragments above, from the parent up. *)
Record inode := MkInode {
  env : ienv;
  i_pins : pinset; i_auth_pins : Z; i_nested_auth_pins : Z;
  i_freeze : freeze; i_waiting : list waiter;
  queued_export_pin : bool; above : list density; calls : list call
}.

Definition i_call (c : call) (i : inode) : inode :=
  MkInode (env i) (i_pins i) (i_auth_pins i) (i_nested_auth_pins i) (i_freeze i) (i_waiting i)
    (queued_export_pin i) (above i) (calls i ++ [c]).
Definition parent_call (c : call) (i : inode) : inode :=
  match i_parent (env i) with Some _ => i_call c i | None => i end.
Definition set_i_pins (p : pinset) (i : inode) : inode :=
  MkInode (env i) p (i_auth_pins i) (i_nested_auth_pins i) (i_freeze i) (i_waiting i)
    (queued_export_pin i) (above i) (calls i).
Definition set_i_auths (a n : Z) (i : inode) : inode :=
  MkInode (env i) (i_pins i) a n (i_freeze i) (i_waiting i) (queued_export_pin i) (above i) (calls i).
Definition set_i_freeze (f : freeze) (l : list waiter) (i : inode) : inode :=
  MkInode (env i) (i_pins i) (i_auth_pins i) (i_nested_auth_pins i) f l
    (queued_export_pin i) (above i) (calls i).
Definition set_queued (b : bool) (i : inode) : inode :=
  MkInode (env i) (i_pins i) (i_auth_pins i) (i_nested_auth_pins i) (i_freeze i) (i_waiting i)
    b (above i) (calls i).
Definition set_above (l : list density) (i : inode) : inode :=
  MkInode (env i) (i_pins i) (i_auth_pins i) (i_nested_auth_pins i) (i_freeze i) (i_waiting i)
    (queued_export_pin i) l (calls i).

Definition i_get (by_ : Z) (i : inode) : inode :=
  let '(p, first) := pin_get by_ (i_pins i) in
  set_i_pins p (if first then parent_call ParentGet i else i).

(** [_put] runs when [STATE_NOTIFYREF] is set. *)
Definition i_put (by_ : Z) (i : inode) : option inode :=
  '(p, last) ← pin_put by_ (i_pins i);
  let i := set_i_pins p (if (last : bool) then parent_call ParentPut i else i) in
  Some (if i_notifyref (env i) && (ref p =? dirty_refs (env i)) then i_call EvalStray i else i).

Definition i_auth_pin (i : inode) : inode :=
  let i := if i_auth_pins i =? 0 then i_get PIN_AUTHPIN i else i in
  parent_call (ParentNested 1 1) (set_i_auths (i_auth_pins i + 1) (i_nested_auth_pins i) i).

(** [finish_waiting(WAIT_FROZEN)] of an inode, whose [WAIT_FROZEN] is bit 1. *)
Definition i_finish_frozen (i : inode) : option inode :=
  match i_waiting i with
  | [] => Some (i_call (FinishContexts [] 0) i)
  | _ :: _ =>
      let l := left_waiting (2 ^ 1) (i_waiting i) in
      let ls := taken (2 ^ 1) (i_waiting i) in
      let i := set_i_freeze (i_freeze i) l i in
      i ← (match l with [] => i_put PIN_WAITER i | _ :: _ => Some i end);
      Some (i_call (FinishContexts ls 0) i)
  end.

Definition i_auth_unpin (i : inode) : option inode :=
  let i := set_i_auths (i_auth_pins i - 1) (i_nested_auth_pins i) i in
  i ← (if i_auth_pins i =? 0 then i_put PIN_AUTHPIN i else Some i);
  assert! 0 <=? i_auth_pins i;
  let i := parent_call (ParentNested (-1) (-1)) i in
  match i_freeze i with
  | Freezing allowance =>
      if i_auth_pins i =? allowance then
        let i := i_get PIN_INODE_FROZEN i in
        i ← i_put PIN_FREEZING i;
        i_finish_frozen (set_i_freeze Frozen (i_waiting i) i)
      else Some i
  | _ => Some i
  end.

Definition i_adjust_nested_auth_pins (a : Z) (i : inode) : option inode :=
  assert! negb (a =? 0);
  let i := set_i_auths (i_auth_pins i) (i_nested_auth_pins i + a) i in
  assert! 0 <=? i_nested_auth_pins i;
  Some (parent_call (ParentNested a 0) i).

Definition is_frozen_inode (i : inode) : bool := match i_freeze i with Frozen => true | _ => false end.
Definition i_is_frozen (i : inode) : bool :=
  is_frozen_inode i || match i_parent (env i) with Some (frozen, _) => frozen | None => false end.
Definition i_is_frozen_dir (i : inode) : bool :=
  match i_parent (env i) with Some (_, frozen_dir) => frozen_dir | None => false end.

(** [inc_density] and [dec_density] of the parent, each of which goes on to the
    top; the epoch that they enter changes no count. *)
Definition inc_density (d : density) (i : inode) : inode :=
  set_above (map (fun x => MkDensity (num_dentries_nested x + num_dentries_nested d)
    (num_dentries_auth_subtree x + num_dentries_auth_subtree d)
    (num_dentries_auth_subtree_nested x + num_dentries_auth_subtree_nested d)) (above i)) i.
Definition dec_density (d : density) (i : inode) : inode :=
  set_above (map (fun x => MkDensity (num_dentries_nested x - num_dentries_nested d)
    (num_dentries_auth_subtree x - num_dentries_auth_subtree d)
    (num_dentries_auth_subtree_nested x - num_dentries_auth_subtree_nested d)) (above i)) i.

(** ** CDir *)

Definition CDIR_AUTH_UNKNOWN : Z := -2.
Definition CDIR_AUTH_DEFAULT : Z * Z := (-1, CDIR_AUTH_UNKNOWN).

Record auths := MkAuths { auth_pins : Z; nested_auth_pins : Z; dir_auth_pins : Z }.

Record content := MkContent {
  items : list dentry;
  num_head_items : Z; num_head_null : Z; num_snap_items : Z; num_snap_null : Z;
  num_dirty : Z; dirty_dentries : list string_snap_t; dirty_rstat_inodes : list Z
}.

Record waits := MkWaits { waiting_on_dentry : dentry_waiters; waiting : list waiter }.

Section dir.
Context {D} `{Double D}.

Record pops := MkPops {
  pop_me : Load.load_vec D; pop_nested : Load.load_vec D;
  pop_auth_subtree : Load.load_vec D; pop_auth_subtree_nested : Load.load_vec D
}.

Definition scale_pops (f : D) (p : pops) : pops :=
  MkPops (Load.vec_scale f (pop_me p)) (Load.vec_scale f (pop_nested p))
    (Load.vec_scale f (pop_auth_subtree p)) (Load.vec_scale f (pop_auth_subtree_nested p)).

Definition new_pops (now : utime) : pops :=
  MkPops (Load.new_vec now) (Load.new_vec now) (Load.new_vec now) (Load.new_vec now).

Record cdir := MkDir {
  dfrag : Z; state : Z; dir_auth : Z * Z;
  pins : pinset; pinned : auths; replicas : list (Z * Z);
  holds : content; fnode : fnode_t; projected_version : Z; is_projected : bool;
  waits_ : waits; dens : density; beat_epoch : Z; pop : pops
}.

(** The constructor does not set [beat_epoch]: [memory] is what was there. *)
Definition new_cdir (fg : Z) (auth : bool) (now : utime) (memory : Z) : cdir :=
  MkDir fg (if auth then STATE_AUTH else 0) CDIR_AUTH_DEFAULT no_pins (MkAuths 0 0 0) []
    (MkContent [] 0 0 0 0 0 [] []) zero_fnode 0 false (MkWaits [] []) (MkDensity 0 0 0) memory
    (new_pops now).

Definition set_state (s : Z) (d : cdir) : cdir :=
  MkDir (dfrag d) s (dir_auth d) (pins d) (pinned d) (replicas d) (holds d) (fnode d)
    (projected_version d) (is_projected d) (waits_ d) (dens d) (beat_epoch d) (pop d).
Definition set_auth (a : Z * Z) (d : cdir) : cdir :=
  MkDir (dfrag d) (state d) a (pins d) (pinned d) (replicas d) (holds d) (fnode d)
    (projected_version d) (is_projected d) (waits_ d) (dens d) (beat_epoch d) (pop d).
Definition set_pins (p : pinset) (d : cdir) : cdir :=
  MkDir (dfrag d) (state d) (dir_auth d) p (pinned d) (replicas d) (holds d) (fnode d)
    (projected_version d) (is_projected d) (waits_ d) (dens d) (beat_epoch d) (pop d).
Definition set_pinned (a : auths) (d : cdir) : cdir :=
  MkDir (dfrag d) (state d) (dir_auth d) (pins d) a (replicas d) (holds d) (fnode d)
    (projected_version d) (is_projected d) (waits_ d) (dens d) (beat_epoch d) (pop d).
Definition set_replicas (r : list (Z * Z)) (d : cdir) : cdir :=
  MkDir (dfrag d) (state d) (dir_auth d) (pins d) (pinned d) r (holds d) (fnode d)
    (projected_version d) (is_projected d) (waits_ d) (dens d) (beat_epoch d) (pop d).
Definition set_holds (c : content) (d : cdir) : cdir :=
  MkDir (dfrag d) (state d) (dir_auth d) (pins d) (pinned d) (replicas d) c (fnode d)
    (projected_version d) (is_projected d) (waits_ d) (dens d) (beat_epoch d) (pop d).
Definition set_fnode (f : fnode_t) (pv : Z) (d : cdir) : cdir :=
  MkDir (dfrag d) (state d) (dir_auth d) (pins d) (pinned d) (replicas d) (holds d) f
    pv (is_projected d) (waits_ d) (dens d) (beat_epoch d) (pop d).
Definition set_waits (w : waits) (d : cdir) : cdir :=
  MkDir (dfrag d) (state d) (dir_auth d) (pins d) (pinned d) (replicas d) (holds d) (fnode d)
    (projected_version d) (is_projected d) w (dens d) (beat_epoch d) (pop d).
Definition set_dens (n : density) (e : Z) (d : cdir) : cdir :=
  MkDir (dfrag d) (state d) (dir_auth d) (pins d) (pinned d) (replicas d) (holds d) (fnode d)
    (projected_version d) (is_projected d) (waits_ d) n e (pop d).
Definition set_pop (p : pops) (d : cdir) : cdir :=
  MkDir (dfrag d) (state d) (dir_auth d) (pins d) (pinned d) (replicas d) (holds d) (fnode d)
    (projected_version d) (is_projected d) (waits_ d) (dens d) (beat_epoch d) p.

(** *** State, pins and waiters *)

Definition state_test (d : cdir) (mask : Z) : bool := negb (Z.land (state d) mask =? 0).
Definition state_clear (mask : Z) (d : cdir) : cdir := set_state (Z.ldiff (state d) mask) d.
Definition state_set (mask : Z) (d : cdir) : cdir := set_state (Z.lor (state d) mask) d.

Definition is_auth (d : cdir) : bool := state_test d STATE_AUTH.
Definition is_dirty (d : cdir) : bool := state_test d STATE_DIRTY.
Definition is_complete (d : cdir) : bool := state_test d STATE_COMPLETE.
Definition is_frozen_dir (d : cdir) : bool := state_test d STATE_FROZENDIR.
Definition is_freezing_dir (d : cdir) : bool := state_test d STATE_FREEZINGDIR.
Definition is_subtree_root (d : cdir) : bool := negb (bool_decide (dir_auth d = CDIR_AUTH_DEFAULT)).
Definition is_replicated (d : cdir) : bool := match replicas d with [] => false | _ :: _ => true end.

Definition get_num_any (d : cdir) : Z :=
  num_head_items (holds d) + num_head_null (holds d) + num_snap_items (holds d) + num_snap_null (holds d).
Definition get_cum_auth_pins (d : cdir) : Z := auth_pins (pinned d) + nested_auth_pins (pinned d).

(** [first_get] and [last_put] pin the inode. *)
Definition get (by_ : Z) (d : cdir) (i : inode) : cdir * inode :=
  let '(p, first) := pin_get by_ (pins d) in
  (set_pins p d, if first then i_get PIN_DIRFRAG i else i).
Definition put (by_ : Z) (d : cdir) (i : inode) : option (cdir * inode) :=
  '(p, last) ← pin_put by_ (pins d);
  i ← (if (last : bool) then i_put PIN_DIRFRAG i else Some i);
  Some (set_pins p d, i).

Definition all_dentry_waiters (m : dentry_waiters) : list context := concat (map snd m).

(** [MDSCacheObject::take_waiting] *)
Definition take_waiting_base (mask : Z) (ls : list context) (d : cdir) (i : inode)
  : option (cdir * inode * list context) :=
  match waiting (waits_ d) with
  | [] => Some (d, i, ls)
  | l =>
      let rest := left_waiting mask l in
      let d := set_waits (MkWaits (waiting_on_dentry (waits_ d)) rest) d in
      '(d, i) ← (match rest with [] => put PIN_WAITER d i | _ :: _ => Some (d, i) end);
      Some (d, i, ls ++ taken mask l)
  end.

Definition take_waiting (mask : Z) (ls : list context) (d : cdir) (i : inode)
  : option (cdir * inode * list context) :=
  match waiting_on_dentry (waits_ d) with
  | [] => take_waiting_base mask ls d i
  | m =>
      if negb (Z.land mask WAIT_DENTRY =? 0) then
        let d := set_waits (MkWaits [] (waiting (waits_ d))) d in
        '(d, i) ← put PIN_DNWAITER d i;
        take_waiting_base mask (ls ++ all_dentry_waiters m) d i
      else take_waiting_base mask ls d i
  end.

Definition finish_waiting (mask result : Z) (d : cdir) (i : inode) : option (cdir * inode) :=
  '(d, i, finished) ← take_waiting mask [] d i;
  Some (d, if result <? 0 then i_call (FinishContexts finished result) i
           else i_call (QueueWaiters finished) i).

Definition mark_clean (d : cdir) (i : inode) : option (cdir * inode) :=
  if state_test d STATE_DIRTY then put PIN_DIRTY (state_clear STATE_DIRTY d) i else Some (d, i).

Definition mark_complete (d : cdir) : cdir := state_set STATE_COMPLETE d.

(** *** Auth pins and freezing *)

Definition auth_pin (d : cdir) (i : inode) : option (cdir * inode) :=
  let '(d, i) := if auth_pins (pinned d) =? 0 then get PIN_AUTHPIN d i else (d, i) in
  let a := pinned d in
  let d := set_pinned (MkAuths (auth_pins a + 1) (nested_auth_pins a) (dir_auth_pins a)) d in
  i ← (if negb (is_subtree_root d) && (get_cum_auth_pins d =? 1)
       then i_adjust_nested_auth_pins 1 i else Some i);
  Some (d, i).

Definition _freeze_dir (d : cdir) (i : inode) : cdir * inode :=
  let d := state_set STATE_FROZENDIR (state_clear STATE_FREEZINGDIR d) in
  let '(d, i) := get PIN_FROZEN d i in
  (d, if is_auth d && negb (is_subtree_root d) then i_auth_pin i else i).

(** With [unpin] for [auth_unpin]. *)
Definition maybe_finish_freeze_with (unpin : cdir -> inode -> option (cdir * inode))
  (d : cdir) (i : inode) : option (cdir * inode) :=
  if negb (auth_pins (pinned d) =? 1) || negb (dir_auth_pins (pinned d) =? 0) then Some (d, i)
  else
    '(d, i) ← (if state_test d STATE_FREEZINGDIR then
                 let '(d, i) := _freeze_dir d i in
                 '(d, i) ← unpin d i;
                 finish_waiting WAIT_FROZEN 0 d i
               else Some (d, i));
    if negb (nested_auth_pins (pinned d) =? 0) then Some (d, i)
    else if state_test d STATE_FREEZINGTREE then None   (* not modelled *)
    else Some (d, i).

(** [auth_unpin] and [maybe_finish_freeze] call each other; the inner call of
    [auth_unpin] leaves no auth pin and calls no further. *)
Fixpoint auth_unpin_n (n : nat) (d : cdir) (i : inode) : option (cdir * inode) :=
  match n with
  | O => None
  | S n =>
      let a := pinned d in
      let d := set_pinned (MkAuths (auth_pins a - 1) (nested_auth_pins a) (dir_auth_pins a)) d in
      '(d, i) ← (if auth_pins (pinned d) =? 0 then put PIN_AUTHPIN d i else Some (d, i));
      assert! 0 <=? auth_pins (pinned d);
      let newcum := get_cum_auth_pins d in
      '(d, i) ← maybe_finish_freeze_with (auth_unpin_n n) d i;
      i ← (if negb (is_subtree_root d) && (newcum =? 0)
           then i_adjust_nested_auth_pins (-1) i else Some i);
      Some (d, i)
  end.

Definition auth_unpin (d : cdir) (i : inode) : option (cdir * inode) := auth_unpin_n 2 d i.
Definition maybe_finish_freeze (d : cdir) (i : inode) : option (cdir * inode) :=
  maybe_finish_freeze_with auth_unpin d i.

Definition adjust_nested_auth_pins (inc dirinc : Z) (d : cdir) (i : inode) : option (cdir * inode) :=
  assert! negb (inc =? 0);
  let a := pinned d in
  let d := set_pinned (MkAuths (auth_pins a) (nested_auth_pins a + inc) (dir_auth_pins a + dirinc)) d in
  assert! (0 <=? nested_auth_pins (pinned d)) && (0 <=? dir_auth_pins (pinned d));
  let newcum := get_cum_auth_pins d in
  '(d, i) ← maybe_finish_freeze d i;
  i ← (if is_subtree_root d then Some i
       else if newcum =? 0 then i_adjust_nested_auth_pins (-1) i
       else if newcum =? inc then i_adjust_nested_auth_pins 1 i
       else Some i);
  Some (d, i).

Definition is_freezeable_dir (freezing : Z) (d : cdir) (i : inode) : bool :=
  if (0 <? auth_pins (pinned d) - freezing) || (0 <? dir_auth_pins (pinned d)) then false
  else negb (negb (is_subtree_root d) && i_is_frozen i && negb (i_is_frozen_dir i)).

Definition unfreeze_dir (d : cdir) (i : inode) : option (cdir * inode) :=
  if state_test d STATE_FROZENDIR then
    '(d, i) ← put PIN_FROZEN (state_clear STATE_FROZENDIR d) i;
    i ← (if is_auth d && negb (is_subtree_root d) then i_auth_unpin i else Some i);
    finish_waiting WAIT_UNFREEZE 0 d i
  else
    '(d, i) ← finish_waiting WAIT_FROZEN (-1) d i;
    assert! state_test d STATE_FREEZINGDIR;
    '(d, i) ← auth_unpin (state_clear STATE_FREEZINGDIR d) i;
    finish_waiting WAIT_UNFREEZE 0 d i.

Definition set_dir_auth (a : Z * Z) (d : cdir) (i : inode) : option (cdir * inode) :=
  let was_subtree := is_subtree_root d in
  let was_ambiguous := 0 <=? (dir_auth d).2 in
  let d := set_auth a d in
  i ← (if negb was_subtree && is_subtree_root d then
         i ← (if negb (get_cum_auth_pins d =? 0) then i_adjust_nested_auth_pins (-1) i else Some i);
         if i_auth (env i) then
           assert! negb (state_test d STATE_FROZENTREE);
           if is_frozen_dir d then i_auth_unpin i else Some i
         else Some i
       else Some i);
  i ← (if was_subtree && negb (is_subtree_root d) then
         i ← (if negb (get_cum_auth_pins d =? 0) then i_adjust_nested_auth_pins 1 i else Some i);
         if i_auth (env i) then
           assert! negb (state_test d STATE_FROZENTREE);
           Some (if is_frozen_dir d then i_auth_pin i else i)
         else Some i
       else Some i);
  if was_ambiguous && ((dir_auth d).2 =? CDIR_AUTH_UNKNOWN) then
    '(d, i, ls) ← take_waiting WAIT_SINGLEAUTH [] d i;
    Some (d, i_call (QueueWaiters ls) i)
  else Some (d, i).

(** *** Dentries *)

Definition dn_key (dn : dentry) : string_snap_t := (name dn, last dn).

(** The counts after a dentry is taken in. *)
Definition count_dentry (dn : dentry) (c : content) : content :=
  let head := last dn =? CEPH_NOSNAP in
  let null := is_null (linkage dn) in
  let one (b : bool) := if b then 1 else 0 in
  MkContent (items c)
    (num_head_items c + one (head && negb null)) (num_head_null c + one (head && null))
    (num_snap_items c + one (negb head && negb null)) (num_snap_null c + one (negb head && null))
    (num_dirty c) (dirty_dentries c)
    (match linkage dn with
     | Primary in_ => if c_dirty_rstat in_ then dirty_rstat_inodes c ++ [c_ino in_] else dirty_rstat_inodes c
     | _ => dirty_rstat_inodes c
     end).

(** What a head dentry adds to [fragstat] and [rstat]. *)
Definition account_dentry (dn : dentry) (f : fnode_t) : fnode_t :=
  let add_entry (is_dir : bool) (s : frag_info_t) :=
    MkFragInfo (fi_version s) (mtime s) (change_attr s)
      (if is_dir then nfiles s else nfiles s + 1) (if is_dir then nsubdirs s + 1 else nsubdirs s) in
  if negb (last dn =? CEPH_NOSNAP) then f
  else match linkage dn with
       | Null => f
       | Primary in_ =>
           MkFnode (version f) (add_entry (c_is_dir in_) (fragstat f)) (accounted_fragstat f)
             (nest_add (c_rstat in_) (rstat f)) (accounted_rstat f)
       | Remote _ d_type =>
           MkFnode (version f) (add_entry (d_type =? DT_DIR) (fragstat f)) (accounted_fragstat f)
             (rstat f) (accounted_rstat f)
       end.

(** An element of an [elist] that is pushed on another leaves the first. *)
Definition drop_dentry (dn : dentry) (c : content) : content :=
  MkContent (items_erase (items c) dn)
    (num_head_items c) (num_head_null c) (num_snap_items c) (num_snap_null c) (num_dirty c)
    (if dn_dirty dn then List.filter (fun k => negb (bool_decide (k = dn_key dn))) (dirty_dentries c)
     else dirty_dentries c)
    (match linkage dn with
     | Primary in_ => if c_dirty_rstat in_
                      then List.filter (fun x => negb (x =? c_ino in_)) (dirty_rstat_inodes c)
                      else dirty_rstat_inodes c
     | _ => dirty_rstat_inodes c
     end).

(** [f->steal_dentry(dn)], [old] being [dn->dir]. *)
Definition steal_dentry (dn : dentry) (f old : cdir) (i : inode) : option (cdir * cdir * inode) :=
  let c := holds f in
  let f := set_holds (MkContent (items_set (items c) dn) (num_head_items c) (num_head_null c)
             (num_snap_items c) (num_snap_null c) (num_dirty c) (dirty_dentries c)
             (dirty_rstat_inodes c)) f in
  let old := set_holds (drop_dentry dn (holds old)) old in
  '(old, i) ← (match items (holds old) with [] => put PIN_CHILD old i | _ :: _ => Some (old, i) end);
  let '(f, i) := if get_num_any f =? 0 then get PIN_CHILD f i else (f, i) in
  let f := set_holds (count_dentry dn (holds f)) f in
  let f := set_fnode (account_dentry dn (fnode f)) (projected_version f) f in
  '(f, old, i) ← (if negb (dn_auth_pins dn =? 0) || negb (dn_nested_auth_pins dn =? 0) then
      let ap := dn_auth_pins dn + dn_nested_auth_pins dn in
      dap ← get_num_dir_auth_pins dn;
      assert! dap <=? ap;
      '(f, i) ← adjust_nested_auth_pins ap dap f i;
      '(old, i) ← adjust_nested_auth_pins (- ap) (- dap) old i;
      Some (f, old, i)
    else Some (f, old, i));
  let c := holds f in
  let f := if dn_dirty dn
           then set_holds (MkContent (items c) (num_head_items c) (num_head_null c) (num_snap_items c)
                  (num_snap_null c) (num_dirty c + 1) (dirty_dentries c ++ [dn_key dn])
                  (dirty_rstat_inodes c)) f
           else f in
  Some (f, old, i).

(** *** The fragments of a directory *)

(** The inode and the fragments of it that are in the cache. *)
Record diri := MkDiri {
  ino : inode; stickydir_ref : Z; dirfragtree : list (Z * Z); dirfrags : list (Z * cdir)
}.

Definition set_ino (i : inode) (s : diri) : diri :=
  MkDiri i (stickydir_ref s) (dirfragtree s) (dirfrags s).
Definition set_tree (t : list (Z * Z)) (s : diri) : diri := MkDiri (ino s) (stickydir_ref s) t (dirfrags s).
Definition get_dirfrag (fg : Z) (s : diri) : option cdir := map_find (dirfrags s) fg.

(** A fragment as it was changed, with the inode. *)
Definition store (d : cdir) (i : inode) (s : diri) : diri :=
  MkDiri i (stickydir_ref s) (dirfragtree s) (map_set (dirfrags s) (dfrag d) d).

Definition hash_dentry_name (type : Z) (dn : bytes) : option Z :=
  let which := if type =? 0 then CEPH_STR_HASH_LINUX else type in
  assert! ceph_str_hash_valid which;
  Some (ceph_str_hash which dn).

Definition pick_dirfrag (dn : bytes) (s : diri) : option Z :=
  match dirfragtree s with
  | [] => Some root
  | t => h ← hash_dentry_name (dl_dir_hash (env (ino s))) dn; at_value t h
  end.

Definition MDS_RANK_NONE : Z := -1.

(** Whether a fragment makes [maybe_export_pin] queue its inode. *)
Definition export_pin_due (pin : Z) (d : cdir) : bool :=
  is_auth d &&
  (if negb (pin =? MDS_RANK_NONE) then
     if is_subtree_root d then negb (state_test d STATE_AUXSUBTREE) || negb (pin =? (dir_auth d).1)
     else true
   else state_test d STATE_AUXSUBTREE).

Definition maybe_export_pin (update : bool) (dirs : list (Z * cdir)) (i : inode) : inode :=
  if negb (export_pinnable (env i)) then i
  else if (export_pin (env i) =? MDS_RANK_NONE) && negb update then i
  else if queued_export_pin i then i
  else if existsb (fun p => export_pin_due (export_pin (env i)) p.2) dirs
       then i_call ExportPinQueued (set_queued true i) else i.

(** The epoch is entered before the count is taken, which then is the cached one. *)
Definition _maybe_update_epoch (epoch : Z) (d : cdir) : cdir :=
  if beat_epoch d <? epoch then set_dens (dens d) epoch d else d.

Definition add_dirfrag (d : cdir) (i : inode) (s : diri) : option diri :=
  assert! negb (bool_decide (is_Some (get_dirfrag (dfrag d) s)));
  let '(d, i) := if 0 <? stickydir_ref s then get PIN_STICKY (state_set STATE_STICKY d) i else (d, i) in
  let i := maybe_export_pin false (map_set (dirfrags s) (dfrag d) d) i in
  let d := _maybe_update_epoch (-1) d in
  let i := match i_parent (env i) with Some _ => inc_density (dens d) i | None => i end in
  Some (store d i s).

(** [remove_dentry] of a null dentry *)
Definition remove_null_dentry (dn : dentry) (d : cdir) (i : inode) : option (cdir * inode) :=
  assert! negb (client_leases dn);
  assert! negb (state_test d STATE_DNPINNEDFRAG) || negb (dn_pinned dn =? 0);
  let c := holds d in
  let head := last dn =? CEPH_NOSNAP in
  let dirty := dn_dirty dn in
  assert! negb dirty || (0 <? num_dirty c);
  let d := set_holds (MkContent (items_erase (items c) dn) (num_head_items c)
             (if head then num_head_null c - 1 else num_head_null c) (num_snap_items c)
             (if head then num_snap_null c else num_snap_null c - 1)
             (if dirty then num_dirty c - 1 else num_dirty c)
             (if dirty then List.filter (fun k => negb (bool_decide (k = dn_key dn))) (dirty_dentries c)
              else dirty_dentries c) (dirty_rstat_inodes c)) d in
  '(d, i) ← (if get_num_any d =? 0 then put PIN_CHILD d i else Some (d, i));
  assert! get_num_any d =? Z.of_nat (length (items (holds d)));
  Some (d, i).

Fixpoint remove_nulls (l : list dentry) (d : cdir) (i : inode) : option (cdir * inode) :=
  match l with
  | [] => Some (d, i)
  | dn :: l =>
      '(d, i) ← (if is_null (linkage dn) && negb (dn_is_projected dn)
                 then remove_null_dentry dn d i else Some (d, i));
      remove_nulls l d i
  end.

Definition remove_null_dentries (d : cdir) (i : inode) : option (cdir * inode) :=
  '(d, i) ← remove_nulls (items (holds d)) d i;
  assert! (num_snap_null (holds d) =? 0) && (num_head_null (holds d) =? 0) &&
          (get_num_any d =? Z.of_nat (length (items (holds d))));
  Some (d, i).

Definition close_dirfrag (fg : Z) (s : diri) : option diri :=
  d ← get_dirfrag fg s;
  '(d, i) ← remove_null_dentries d (ino s);
  '(d, i) ← (if is_dirty d then mark_clean d i else Some (d, i));
  '(d, i) ← (if 0 <? stickydir_ref s then put PIN_STICKY (state_clear STATE_STICKY d) i else Some (d, i));
  let d := _maybe_update_epoch (-1) d in
  let i := match i_parent (env i) with Some _ => dec_density (dens d) i | None => i end in
  assert! ref (pins d) =? 0;
  Some (MkDiri i (stickydir_ref s) (dirfragtree s) (map_erase (dirfrags s) fg)).

(** *** Refragmenting *)

Definition prepare_old_fragment (dw : dentry_waiters) (replay : bool) (d : cdir) (i : inode)
  : option (cdir * inode * dentry_waiters) :=
  '(d, i) ← (if negb replay && is_auth d then auth_pin d i else Some (d, i));
  match waiting_on_dentry (waits_ d) with
  | [] => Some (d, i, dw)
  | m =>
      let dw := foldl (fun dw p => add_dentry_waiters dw p.1 p.2) dw m in
      '(d, i) ← put PIN_DNWAITER (set_waits (MkWaits [] (waiting (waits_ d))) d) i;
      Some (d, i, dw)
  end.

Definition prepare_new_fragment (replay : bool) (d : cdir) (i : inode) (s : diri) : option diri :=
  let '(d, i) := if negb replay && is_auth d
                 then let '(d, i) := _freeze_dir d i in (mark_complete d, i) else (d, i) in
  add_dirfrag d i s.

Definition clear_replica_map (d : cdir) (i : inode) : option (cdir * inode) :=
  '(d, i) ← (if is_replicated d then put PIN_REPLICATED d i else Some (d, i));
  Some (set_replicas [] d, i).

Definition put_if (b : bool) (by_ : Z) (d : cdir) (i : inode) : option (cdir * inode) :=
  if b then put by_ d i else Some (d, i).
Definition get_if (b : bool) (by_ : Z) (d : cdir) (i : inode) : cdir * inode :=
  if b then get by_ d i else (d, i).

Definition finish_old_fragment (ws : list context) (replay : bool) (d : cdir) (i : inode)
  : option (cdir * inode * list context) :=
  '(d, i, ws) ← (if negb replay then
      '(d, i, ws) ← take_waiting WAIT_ANY_MASK ws d i;
      '(d, i) ← (if is_auth d then
          '(d, i) ← auth_unpin d i;
          assert! is_frozen_dir d;
          unfreeze_dir d i
        else Some (d, i));
      Some (d, i, ws)
    else Some (d, i, ws));
  assert! (nested_auth_pins (pinned d) =? 0) && (dir_auth_pins (pinned d) =? 0) &&
          (auth_pins (pinned d) =? 0);
  let c := holds d in
  let d := set_holds (MkContent (items c) 0 0 0 0 (num_dirty c) (dirty_dentries c)
             (dirty_rstat_inodes c)) d in
  '(d, i) ← (if is_auth d then clear_replica_map d i else Some (d, i));
  '(d, i) ← (if is_dirty d then mark_clean d i else Some (d, i));
  '(d, i) ← put_if (state_test d STATE_IMPORTBOUND) PIN_IMPORTBOUND d i;
  '(d, i) ← put_if (state_test d STATE_EXPORTBOUND) PIN_EXPORTBOUND d i;
  '(d, i) ← put_if (is_subtree_root d) PIN_SUBTREE d i;
  '(d, i) ← put_if (0 <? auth_pins (pinned d)) PIN_AUTHPIN d i;
  assert! ref (pins d) =? (if state_test d STATE_STICKY then 1 else 0);
  Some (d, i, ws).

Definition init_fragment_pins (d : cdir) (i : inode) : cdir * inode :=
  let '(d, i) := get_if (is_replicated d) PIN_REPLICATED d i in
  let '(d, i) := get_if (state_test d STATE_DIRTY) PIN_DIRTY d i in
  let '(d, i) := get_if (state_test d STATE_EXPORTBOUND) PIN_EXPORTBOUND d i in
  let '(d, i) := get_if (state_test d STATE_IMPORTBOUND) PIN_IMPORTBOUND d i in
  get_if (is_subtree_root d) PIN_SUBTREE d i.

(** What the accounted statistics have that the statistics do not. *)
Definition rstatdiff (i : inode) (f : fnode_t) (n : nest_info_t) : nest_info_t :=
  if ni_version (accounted_rstat f) =? rstat_version (env i)
  then nest_add_delta (accounted_rstat f) (rstat f) n else n.
Definition fragstatdiff (i : inode) (f : fnode_t) (n : frag_info_t) : frag_info_t :=
  if fi_version (accounted_fragstat f) =? dirstat_version (env i)
  then frag_add_delta (accounted_fragstat f) (fragstat f) n else n.

(** The statistics of a new fragment, all of them accounted. *)
Definition settle_fnode (i : inode) (f : fnode_t) : fnode_t :=
  let r := rstat f in
  let r := MkNestInfo (rstat_version (env i)) (rctime r) (rbytes r) (rfiles r) (rsubdirs r) (rsnaprealms r) in
  let s := fragstat f in
  let s := MkFragInfo (dirstat_version (env i)) (mtime s) (change_attr s) (nfiles s) (nsubdirs s) in
  MkFnode (version f) s s r r.

(** The fragment is given what was not accounted. *)
Definition give_diff (rd : nest_info_t) (fd : frag_info_t) (f : fnode_t) : fnode_t :=
  MkFnode (version f) (fragstat f) (frag_add fd (accounted_fragstat f)) (rstat f)
    (nest_add rd (accounted_rstat f)).

Definition on_fnode (g : fnode_t -> fnode_t) (d : cdir) : cdir :=
  set_fnode (g (fnode d)) (projected_version d) d.

(** One fragment of the split of [d]. *)
Definition create_subfrag (bits : Z) (replay : bool) (now : utime) (memory : Z) (d : cdir) (fg : Z) (s : diri)
  : option diri :=
  let f := new_cdir fg (is_auth d) now memory in
  let f := state_set (Z.land (state d) (Z.lor MASK_STATE_FRAGMENT_KEPT STATE_COMPLETE)) f in
  let f := set_auth (dir_auth d) (set_replicas (replicas d) f) in
  let '(f, i) := init_fragment_pins f (ino s) in
  let v := version (fnode d) in
  let f := set_fnode (MkFnode v (fragstat (fnode f)) (accounted_fragstat (fnode f)) (rstat (fnode f))
             (accounted_rstat (fnode f))) v f in
  let f := set_pop (scale_pops (d_int 1 / d_int (Z.shiftl 1 bits))%D (pop d)) f in
  '(f, i) ← set_dir_auth (dir_auth d) f i;
  prepare_new_fragment replay f i s.

Fixpoint create_subfrags (bits : Z) (replay : bool) (now : utime) (memory : Z -> Z) (d : cdir)
  (frags : list Z) (s : diri) : option diri :=
  match frags with
  | [] => Some s
  | fg :: frags =>
      s ← create_subfrag bits replay now (memory fg) d fg s;
      create_subfrags bits replay now memory d frags s
  end.

(** The index in [subfrags] of the fragment of a name, and that fragment. *)
Definition subfrag_of (fg : Z) (frags : list Z) (dn : bytes) (s : diri) : option Z :=
  subfrag ← pick_dirfrag dn s;
  let n := Z.shiftr (Z.land (ceph_frag_value subfrag)
             (Z.lxor (ceph_frag_mask subfrag) (ceph_frag_mask fg))) (ceph_frag_mask_shift subfrag) in
  frags !! Z.to_nat n.

(** [while (!items.empty())]: a turn takes the first dentry away. *)
Fixpoint repartition (n : nat) (fg : Z) (frags : list Z) (s : diri) : option diri :=
  d ← get_dirfrag fg s;
  match items (holds d), n with
  | [], _ => Some s
  | _ :: _, O => None
  | dn :: _, S n =>
      to ← subfrag_of fg frags (name dn) s;
      f ← get_dirfrag to s;
      '(f, d, i) ← steal_dentry dn f d (ino s);
      repartition n fg frags (store d i (store f i s))
  end.

Fixpoint move_waiters (fg : Z) (frags : list Z) (dw : dentry_waiters) (s : diri) : option diri :=
  match dw with
  | [] => Some s
  | (k, l) :: dw =>
      to ← subfrag_of fg frags k.1 s;
      f ← get_dirfrag to s;
      let '(f, i) := match waiting_on_dentry (waits_ f) with
                     | [] => get PIN_DNWAITER f (ino s) | _ :: _ => (f, ino s) end in
      let w := waits_ f in
      let f := set_waits (MkWaits (add_dentry_waiters (waiting_on_dentry w) k l) (waiting w)) f in
      move_waiters fg frags dw (store f i s)
  end.

(** A change of the fnode of every fragment of a list. *)
Fixpoint on_fnodes (g : fnode_t -> fnode_t) (frags : list Z) (s : diri) : option diri :=
  match frags with
  | [] => Some s
  | fg :: frags => f ← get_dirfrag fg s; on_fnodes g frags (store (on_fnode g f) (ino s) s)
  end.

(** [dir->split(bits, subs, waiters, replay)] for the fragment [fg]: the new
    fragments and the waiters. *)
Definition split (bits : Z) (fg : Z) (replay : bool) (now : utime) (memory : Z -> Z)
  (ws : list context) (s : diri) : option (diri * list Z * list context) :=
  d ← get_dirfrag fg s;
  assert! replay || is_complete d || negb (is_auth d);
  frags ← Frag.split (dfrag d) bits;
  let rd := rstatdiff (ino s) (fnode d) new_nest_info in
  let fd := fragstatdiff (ino s) (fnode d) new_frag_info in
  '(d, i, dw) ← prepare_old_fragment [] replay d (ino s);
  let s := store d i s in
  s ← create_subfrags bits replay now memory d frags s;
  s ← repartition (length (items (holds d))) fg frags s;
  s ← move_waiters fg frags dw s;
  s ← on_fnodes (settle_fnode (ino s)) frags s;
  s ← on_fnodes (give_diff rd fd) (take 1 frags) s;
  d ← get_dirfrag fg s;
  '(d, i, ws) ← finish_old_fragment ws replay d (ino s);
  Some (store d i s, frags, ws).

(** The authority that the fragments to merge agree on. *)
Fixpoint merged_auth (dirs : list cdir) (new_auth : Z * Z) : option (Z * Z) :=
  match dirs with
  | [] => Some new_auth
  | dir :: dirs =>
      if negb (bool_decide (dir_auth dir = CDIR_AUTH_DEFAULT)) && negb (bool_decide (dir_auth dir = new_auth))
      then assert! bool_decide (new_auth = CDIR_AUTH_DEFAULT); merged_auth dirs (dir_auth dir)
      else merged_auth dirs new_auth
  end.

(** [while (!dir->items.empty())] of [merge]. *)
Fixpoint steal_all (n : nat) (fg from : Z) (s : diri) : option diri :=
  d ← get_dirfrag from s;
  match items (holds d), n with
  | [], _ => Some s
  | _ :: _, O => None
  | dn :: _, S n =>
      f ← get_dirfrag fg s;
      '(f, d, i) ← steal_dentry dn f d (ino s);
      steal_all n fg from (store d i (store f i s))
  end.

(** The nonces of [r] where they are larger. *)
Definition merge_replicas (r m : list (Z * Z)) : list (Z * Z) :=
  foldl (fun m p => let cur := default 0 (map_find m p.1) in
                    map_set m p.1 (if cur <? p.2 then p.2 else cur)) m r.

Definition set_version (v : Z) (d : cdir) : option cdir :=
  assert! negb (is_projected d);
  let f := fnode d in
  Some (set_fnode (MkFnode v (fragstat f) (accounted_fragstat f) (rstat f) (accounted_rstat f)) v d).

(** What a fragment that is merged leaves to the new one. *)
Definition merge_state (d f : cdir) : option cdir :=
  let f := set_replicas (merge_replicas (replicas d) (replicas f)) f in
  f ← (if version (fnode f) <? version (fnode d) then set_version (version (fnode d)) f else Some f);
  Some (state_set (Z.land (state d) MASK_STATE_FRAGMENT_KEPT) f).

(** What [merge] gathers over the fragments. *)
Record gathered := MkGathered {
  g_rstat : nest_info_t; g_fragstat : frag_info_t; g_waiters : dentry_waiters; g_queue : list context
}.

(** The fragment [from] goes into [fg]. *)
Definition merge_frag (fg : Z) (replay : bool) (from : Z) (g : gathered) (s : diri)
  : option (diri * gathered) :=
  d ← get_dirfrag from s;
  assert! negb (is_auth d) || is_complete d || replay;
  let rd := rstatdiff (ino s) (fnode d) (g_rstat g) in
  let fd := fragstatdiff (ino s) (fnode d) (g_fragstat g) in
  '(d, i, dw) ← prepare_old_fragment (g_waiters g) replay d (ino s);
  s ← steal_all (length (items (holds d))) fg from (store d i s);
  d ← get_dirfrag from s;
  f ← get_dirfrag fg s;
  f ← merge_state d f;
  '(d, i, ws) ← finish_old_fragment (g_queue g) replay d (ino s);
  s ← close_dirfrag from (store d i (store f i s));
  Some (s, MkGathered rd fd dw ws).

Fixpoint merge_frags (fg : Z) (replay : bool) (subs : list Z) (g : gathered) (s : diri)
  : option (diri * gathered) :=
  match subs with
  | [] => Some (s, g)
  | from :: subs => '(s, g) ← merge_frag fg replay from g s; merge_frags fg replay subs g s
  end.

(** [f->merge(subs, waiters, replay)] for a new fragment [f] of [fg]. *)
Definition merge (f : cdir) (subs : list Z) (replay : bool) (ws : list context) (s : diri)
  : option (diri * list context) :=
  dirs ← mapM (fun fg => get_dirfrag fg s) subs;
  new_auth ← merged_auth dirs CDIR_AUTH_DEFAULT;
  '(f, i) ← set_dir_auth new_auth f (ino s);
  let fg := dfrag f in
  s ← prepare_new_fragment replay f i s;
  '(s, g) ← merge_frags fg replay subs (MkGathered new_nest_info new_frag_info [] ws) s;
  f ← get_dirfrag fg s;
  let '(f, i) := match g_waiters g with
    | [] => (f, ino s)
    | dw => let '(f, i) := get PIN_DNWAITER f (ino s) in
            let w := waits_ f in
            (set_waits (MkWaits (foldl (fun m p => add_dentry_waiters m p.1 p.2) (waiting_on_dentry w) dw)
               (waiting w)) f, i)
    end in
  let f := if is_auth f && negb replay then mark_complete f else f in
  let f := on_fnode (give_diff (g_rstat g) (g_fragstat g)) (on_fnode (settle_fnode i) f) in
  let '(f, i) := init_fragment_pins f i in
  Some (store f i s, g_queue g).

(** The second pass of [get_dirfrags_under] over the fragments in the cache. *)
Fixpoint visit_dirfrags (fg : Z) (dft : list (Z * Z)) (dirs : list (Z * cdir)) (tmpdft : list (Z * Z))
  (ls : list Z) : option (list (Z * Z) * list Z) :=
  match dirs with
  | [] => Some (tmpdft, ls)
  | (x, _) :: dirs =>
      '(tmpdft, _) ← force_to_leaf tmpdft x;
      leaf ← is_leaf dft x;
      visit_dirfrags fg dft dirs tmpdft
        (if ceph_frag_contains_frag fg x && negb leaf then ls ++ [x] else ls)
  end.

(** [get_dirfrags_under(fg, ls)]: whether all are in the cache, and the list. *)
Definition get_dirfrags_under (fg : Z) (s : diri) : option (bool * list Z) :=
  fglist ← get_leaves_under (dirfragtree s) fg [];
  let have x := bool_decide (is_Some (get_dirfrag x s)) in
  let ls := List.filter have fglist in
  if forallb have fglist then Some (true, ls)
  else
    '(tmpdft, _) ← force_to_leaf [] fg;
    '(tmpdft, ls) ← visit_dirfrags fg (dirfragtree s) (dirfrags s) tmpdft ls;
    (* [fglist] is not cleared *)
    fglist ← get_leaves_under tmpdft fg fglist;
    Some (forallb have fglist, ls).

Definition verify_dirfrags (s : diri) : option unit :=
  bad ← mapM (fun p => leaf ← is_leaf (dirfragtree s) p.1; Some (negb leaf)) (dirfrags s);
  assert! forallb negb bad; Some tt.

End dir.
End CacheDir.
