(* ===== verification/CacheDirFacts.v ===== *)
(** * Pins, auth pins and freezing of a directory's fragments

    The pins that a fragment must have are a function of the rest of it
    ([expected]); the inode counts its pinned, auth-pinned and frozen
    fragments ([imoves]).  Every operation of [CacheDir] on one fragment keeps
    both, and fails none of its assertions. *)

From S2P Require Import Prelude Encoding Frag FragTree Double Load StrHash CacheDir.
Import Encoding.

Module CacheDirFacts.
Import Frag FragTree StrHash CacheDir.

Definition b2z (b : bool) : Z := if b then 1 else 0.

Lemma b2z_range b : 0 <= b2z b <= 1.
Proof. destruct b; simpl; lia. Qed.

(** ** The inode *)

(** The pins of the inode that the operations use are there. *)
Record iok (i : inode) : Prop := {
  io_nonneg : forall p, 0 <= ref_map (i_pins i) p;
  io_sum : ref_map (i_pins i) PIN_DIRFRAG + ref_map (i_pins i) PIN_AUTHPIN +
           ref_map (i_pins i) PIN_FREEZING + ref_map (i_pins i) PIN_INODE_FROZEN +
           ref_map (i_pins i) PIN_WAITER <= ref (i_pins i);
  io_auth : 0 <= i_auth_pins i;
  io_authpin : ref_map (i_pins i) PIN_AUTHPIN = b2z (0 <? i_auth_pins i);
  io_nested : 0 <= i_nested_auth_pins i;
  io_freezing : forall a, i_freeze i = Freezing a -> 1 <= ref_map (i_pins i) PIN_FREEZING;
  io_waiting : i_waiting i <> [] -> 1 <= ref_map (i_pins i) PIN_WAITER
}.

(** [i'] has [x] more pinned fragments, [y] more with auth pins in them and [z]
    more auth pins. *)
Record imoves (i i' : inode) (x y z : Z) : Prop := {
  im_env : env i' = env i;
  im_above : above i' = above i;
  im_dirfrag : ref_map (i_pins i') PIN_DIRFRAG = ref_map (i_pins i) PIN_DIRFRAG + x;
  im_nested : i_nested_auth_pins i' = i_nested_auth_pins i + y;
  im_auth : i_auth_pins i' = i_auth_pins i + z;
  im_ok : iok i'
}.

Lemma imoves_refl i : iok i -> imoves i i 0 0 0.
Proof. intros. by split; try lia. Qed.

Lemma imoves_trans i1 i2 i3 x y z x' y' z' x'' y'' z'' :
  imoves i1 i2 x y z -> imoves i2 i3 x' y' z' -> x'' = x + x' -> y'' = y + y' -> z'' = z + z' ->
  imoves i1 i3 x'' y'' z''.
Proof. intros [] [] -> -> ->. split; try congruence; try lia. Qed.

Lemma imoves_then i1 i2 i3 x y z : imoves i1 i2 x y z -> imoves i2 i3 0 0 0 -> imoves i1 i3 x y z.
Proof. intros. eapply imoves_trans; eauto; lia. Qed.

Lemma i_call_ok c i : iok i -> imoves i (i_call c i) 0 0 0.
Proof. intros Hi. split; cbn; try done; try lia. by destruct Hi; split. Qed.

Lemma parent_call_ok c i : iok i -> imoves i (parent_call c i) 0 0 0.
Proof. intros. unfold parent_call. destruct (i_parent _); auto using i_call_ok, imoves_refl. Qed.

(** Case analysis on which pin is meant. *)
Ltac pin_cases :=
  unfold pin_set, PIN_DNWAITER, PIN_CHILD, PIN_FROZEN, PIN_SUBTREE, PIN_IMPORTBOUND, PIN_EXPORTBOUND,
    PIN_STICKY, PIN_REPLICATED, PIN_DIRTY, PIN_WAITER, PIN_AUTHPIN, PIN_DIRFRAG, PIN_FREEZING,
    PIN_INODE_FROZEN in *.

Lemma parent_call_same c i :
  env (parent_call c i) = env i /\ above (parent_call c i) = above i /\
  i_pins (parent_call c i) = i_pins i /\ i_auth_pins (parent_call c i) = i_auth_pins i /\
  i_nested_auth_pins (parent_call c i) = i_nested_auth_pins i /\
  i_freeze (parent_call c i) = i_freeze i /\ i_waiting (parent_call c i) = i_waiting i.
Proof. unfold parent_call. by destruct (i_parent _). Qed.

(** What the pins of the inode do. *)
Lemma i_get_same by_ i :
  env (i_get by_ i) = env i /\ above (i_get by_ i) = above i /\
  i_pins (i_get by_ i) = (pin_get by_ (i_pins i)).1 /\ i_auth_pins (i_get by_ i) = i_auth_pins i /\
  i_nested_auth_pins (i_get by_ i) = i_nested_auth_pins i /\
  i_freeze (i_get by_ i) = i_freeze i /\ i_waiting (i_get by_ i) = i_waiting i.
Proof.
  unfold i_get. cbn [pin_get]. destruct (ref _ =? 0); [|done]. cbn.
  destruct (parent_call_same ParentGet i) as (? & ? & _ & ?). done.
Qed.

Lemma i_put_same by_ i :
  1 <= ref_map (i_pins i) by_ -> 1 <= ref (i_pins i) ->
  exists i', i_put by_ i = Some i' /\ env i' = env i /\ above i' = above i /\
    i_pins i' = MkPins (ref (i_pins i) - 1) (pin_set (ref_map (i_pins i)) by_ (ref_map (i_pins i) by_ - 1)) /\
    i_auth_pins i' = i_auth_pins i /\ i_nested_auth_pins i' = i_nested_auth_pins i /\
    i_freeze i' = i_freeze i /\ i_waiting i' = i_waiting i.
Proof.
  intros H1 H2. unfold i_put, pin_put.
  rewrite !(proj2 (Z.eqb_neq _ _)) by lia. cbn [orb mbind option_bind].
  eexists. split; [done|]. set (i1 := if ref (i_pins i) - 1 =? 0 then _ else _).
  assert (H : env i1 = env i /\ above i1 = above i /\ i_auth_pins i1 = i_auth_pins i /\
    i_nested_auth_pins i1 = i_nested_auth_pins i /\ i_freeze i1 = i_freeze i /\ i_waiting i1 = i_waiting i).
  { unfold i1. destruct (_ =? _); [|done]. destruct (parent_call_same ParentPut i) as (?&?&_&?). done. }
  destruct H as (?&?&?&?&?&?). by destruct (_ && _).
Qed.

(** [imoves] from the fields of the new inode: [E1] to [E7]. *)
Ltac imoves_tac Hi E1 E2 E3 E4 E5 E6 E7 :=
  destruct Hi; unfold b2z in *;
  match goal with H : _ = (if 0 <? ?x then _ else _) |- _ => destruct (Z.ltb_spec 0 x) end;
  split; rewrite ?E1, ?E2, ?E3, ?E4, ?E5; cbn; pin_cases; zcase; try done; try lia;
  split; rewrite ?E3, ?E4, ?E5, ?E6, ?E7; cbn; unfold b2z; pin_cases; intros; zcase; eauto; try lia;
  try congruence; subst; match goal with H : forall p, 0 <= ref_map (i_pins ?i) p |- context [ref_map (i_pins ?i) ?q] =>
    pose proof (H q); lia end.

Lemma i_get_dirfrag i : iok i -> imoves i (i_get PIN_DIRFRAG i) 1 0 0.
Proof.
  intros Hi. pose proof (i_get_same PIN_DIRFRAG i) as (E1 & E2 & E3 & E4 & E5 & E6 & E7).
  set (i' := i_get PIN_DIRFRAG i) in *. clearbody i'. imoves_tac Hi E1 E2 E3 E4 E5 E6 E7.
Qed.

Lemma i_put_dirfrag i :
  iok i -> 1 <= ref_map (i_pins i) PIN_DIRFRAG ->
  exists i', i_put PIN_DIRFRAG i = Some i' /\ imoves i i' (-1) 0 0.
Proof.
  intros Hi H. destruct (i_put_same PIN_DIRFRAG i H) as (i' & -> & E1 & E2 & E3 & E4 & E5 & E6 & E7).
  { destruct Hi. pose proof (io_nonneg0 PIN_AUTHPIN). pose proof (io_nonneg0 PIN_FREEZING).
    pose proof (io_nonneg0 PIN_INODE_FROZEN). pose proof (io_nonneg0 PIN_WAITER). lia. }
  exists i'. split; [done|]. imoves_tac Hi E1 E2 E3 E4 E5 E6 E7.
Qed.

Lemma i_auth_pin_ok i : iok i -> imoves i (i_auth_pin i) 0 0 1.
Proof.
  intros Hi. unfold i_auth_pin. set (i1 := if i_auth_pins i =? 0 then _ else _).
  assert (H : env i1 = env i /\ above i1 = above i /\
    i_pins i1 = (if i_auth_pins i =? 0 then (pin_get PIN_AUTHPIN (i_pins i)).1 else i_pins i) /\
    i_auth_pins i1 = i_auth_pins i /\ i_nested_auth_pins i1 = i_nested_auth_pins i /\
    i_freeze i1 = i_freeze i /\ i_waiting i1 = i_waiting i).
  { unfold i1. destruct (_ =? 0); [|done]. apply i_get_same. }
  destruct H as (E1 & E2 & E3 & E4 & E5 & E6 & E7). clearbody i1.
  destruct (parent_call_same (ParentNested 1 1)
    (set_i_auths (i_auth_pins i1 + 1) (i_nested_auth_pins i1) i1)) as (F1 & F2 & F3 & F4 & F5 & F6 & F7).
  set (i' := parent_call _ _) in *. clearbody i'. cbn in F1, F2, F3, F4, F5, F6, F7.
  rewrite E1 in F1. rewrite E2 in F2. rewrite E3 in F3. rewrite E4 in F4. rewrite E5 in F5.
  rewrite E6 in F6. rewrite E7 in F7.
  destruct (Z.eqb_spec (i_auth_pins i) 0) as [E|E].
  - imoves_tac Hi F1 F2 F3 F4 F5 F6 F7.
  - imoves_tac Hi F1 F2 F3 F4 F5 F6 F7.
Qed.

(** The pins of [io_sum] are among the references. *)
Lemma io_one i p :
  iok i -> p ∈ [PIN_DIRFRAG; PIN_AUTHPIN; PIN_FREEZING; PIN_INODE_FROZEN; PIN_WAITER] ->
  1 <= ref_map (i_pins i) p -> 1 <= ref (i_pins i).
Proof.
  intros Hi Hp H1. destruct Hi. pose proof (io_nonneg0 PIN_DIRFRAG). pose proof (io_nonneg0 PIN_AUTHPIN).
  pose proof (io_nonneg0 PIN_FREEZING). pose proof (io_nonneg0 PIN_INODE_FROZEN).
  pose proof (io_nonneg0 PIN_WAITER). repeat (apply elem_of_cons in Hp as [->|Hp]; [lia|]).
  by apply elem_of_nil in Hp.
Qed.

Lemma i_finish_frozen_ok i :
  iok i -> exists i', i_finish_frozen i = Some i' /\ imoves i i' 0 0 0.
Proof.
  intros Hi. unfold i_finish_frozen. destruct (i_waiting i) as [|w l] eqn:Ew; [eauto using i_call_ok|].
  set (rest := left_waiting _ _). set (ls := taken _ _). clearbody ls.
  assert (H1 : 1 <= ref_map (i_pins i) PIN_WAITER) by (apply (io_waiting i Hi); congruence).
  destruct rest as [|w' rest].
  - destruct (i_put_same PIN_WAITER (set_i_freeze (i_freeze i) [] i) H1)
      as (i' & -> & E1 & E2 & E3 & E4 & E5 & E6 & E7).
    { cbn. apply (io_one i PIN_WAITER Hi); [set_solver|done]. }
    obind. eexists. split; [done|]. cbn in E1, E2, E3, E4, E5, E6, E7.
    assert (Hm : imoves i i' 0 0 0) by imoves_tac Hi E1 E2 E3 E4 E5 E6 E7.
    by eapply imoves_then; [|apply i_call_ok, (im_ok _ _ _ _ _ Hm)].
  - obind. eexists. split; [done|]. split; cbn; try done; try lia. destruct Hi; split; cbn; auto.
Qed.

Lemma i_freeze_now i a :
  iok i -> i_freeze i = Freezing a ->
  exists i', (i ← i_put PIN_FREEZING (i_get PIN_INODE_FROZEN i);
              i_finish_frozen (set_i_freeze Frozen (i_waiting i) i)) = Some i' /\ imoves i i' 0 0 0.
Proof.
  intros Hi Ef. pose proof (io_freezing i Hi a Ef) as H1.
  pose proof (io_one i PIN_FREEZING Hi ltac:(set_solver) H1) as H2.
  destruct (i_get_same PIN_INODE_FROZEN i) as (E1 & E2 & E3 & E4 & E5 & E6 & E7).
  set (i1 := i_get PIN_INODE_FROZEN i) in *. clearbody i1.
  destruct (i_put_same PIN_FREEZING i1) as (i2 & -> & F1 & F2 & F3 & F4 & F5 & F6 & F7).
  { rewrite E3. cbn. by pin_cases. }
  { rewrite E3. cbn. lia. }
  obind. rewrite E3 in F3. cbn in F3.
  assert (Hm : imoves i (set_i_freeze Frozen (i_waiting i2) i2) 0 0 0).
  { rewrite E1 in F1. rewrite E2 in F2. rewrite E4 in F4. rewrite E5 in F5. rewrite E7 in F7.
    set (j := set_i_freeze Frozen (i_waiting i2) i2).
    assert (G1 : env j = env i) by (by rewrite <- F1). assert (G2 : above j = above i) by (by rewrite <- F2).
    assert (G3 : i_pins j = i_pins i2) by done. rewrite F3 in G3.
    assert (G4 : i_auth_pins j = i_auth_pins i) by (by rewrite <- F4).
    assert (G5 : i_nested_auth_pins j = i_nested_auth_pins i) by (by rewrite <- F5).
    assert (G6 : i_freeze j = Frozen) by done. assert (G7 : i_waiting j = i_waiting i) by (by rewrite <- F7).
    clearbody j. clear -Hi G1 G2 G3 G4 G5 G6 G7 H1 H2. imoves_tac Hi G1 G2 G3 G4 G5 G6 G7. }
  destruct (i_finish_frozen_ok _ (im_ok _ _ _ _ _ Hm)) as (i' & -> & Hm'). exists i'. split; [done|].
  by eapply imoves_then.
Qed.

Lemma i_auth_unpin_ok i :
  iok i -> 1 <= i_auth_pins i -> exists i', i_auth_unpin i = Some i' /\ imoves i i' 0 0 (-1).
Proof.
  intros Hi H1. unfold i_auth_unpin. set (i1 := set_i_auths _ _ i).
  set (m := if i_auth_pins i1 =? 0 then _ else _).
  assert (Hm : exists i2, m = Some i2 /\ imoves i i2 0 0 (-1)).
  { unfold m. cbn. destruct (Z.eqb_spec (i_auth_pins i - 1) 0) as [E|E].
    - assert (Ha : ref_map (i_pins i) PIN_AUTHPIN = 1).
      { rewrite (io_authpin i Hi). unfold b2z. zcase. }
      destruct (i_put_same PIN_AUTHPIN i1) as (i' & -> & E1 & E2 & E3 & E4 & E5 & E6 & E7).
      { unfold i1. cbn. lia. } { unfold i1. cbn. apply (io_one i PIN_AUTHPIN Hi); [set_solver|lia]. }
      exists i'. split; [done|]. cbn in E1, E2, E3, E4, E5, E6, E7. imoves_tac Hi E1 E2 E3 E4 E5 E6 E7.
    - exists i1. split; [done|]. split; cbn; try done; try lia. destruct Hi. split; cbn; eauto; try lia.
      rewrite io_authpin0. unfold b2z. zcase. }
  destruct Hm as (i2 & -> & Hm). obind.
  rewrite (im_auth _ _ _ _ _ Hm), (proj2 (Z.leb_le _ _)) by lia.
  pose proof (parent_call_ok (ParentNested (-1) (-1)) i2 (im_ok _ _ _ _ _ Hm)) as Hp.
  set (i3 := parent_call _ _) in *. clearbody i3.
  assert (H3 : imoves i i3 0 0 (-1)) by (by eapply imoves_then).
  destruct (i_freeze i3) as [|a|] eqn:Ef; eauto. destruct (_ =? a); eauto.
  destruct (i_freeze_now i3 a (im_ok _ _ _ _ _ H3) Ef) as (i' & -> & H4). exists i'. split; [done|].
  by eapply imoves_then.
Qed.

Lemma i_nested_ok i a :
  iok i -> a <> 0 -> 0 <= i_nested_auth_pins i + a ->
  exists i', i_adjust_nested_auth_pins a i = Some i' /\ imoves i i' 0 a 0.
Proof.
  intros Hi Ha H0. unfold i_adjust_nested_auth_pins. rewrite (proj2 (Z.eqb_neq _ _)) by done. cbn [negb].
  cbn. rewrite (proj2 (Z.leb_le _ _)) by done. eexists. split; [done|].
  assert (Hm : imoves i (set_i_auths (i_auth_pins i) (i_nested_auth_pins i + a) i) 0 a 0).
  { split; cbn; try done; try lia. destruct Hi. split; cbn; eauto. }
  eapply imoves_then; [exact Hm|apply parent_call_ok, (im_ok _ _ _ _ _ Hm)].
Qed.

(** ** The pins of a fragment *)

Definition all_pins : list Z :=
  [PIN_DNWAITER; PIN_CHILD; PIN_FROZEN; PIN_SUBTREE; PIN_IMPORTBOUND; PIN_EXPORTBOUND; PIN_STICKY;
   PIN_REPLICATED; PIN_DIRTY; PIN_WAITER; PIN_AUTHPIN].

Definition sum_pins (e : Z -> Z) : Z := foldr (fun p n => e p + n) 0 all_pins.

(** [ps] has the pins [e]. *)
Record pins_are (e : Z -> Z) (ps : pinset) : Prop := {
  pa_map : forall p, ref_map ps p = e p;
  pa_ref : ref ps = sum_pins e;
  pa_nonneg : forall p, 0 <= e p
}.

Definition bump (e : Z -> Z) (by_ n : Z) : Z -> Z := fun p => if p =? by_ then e p + n else e p.

Lemma sum_bump e by_ n : by_ ∈ all_pins -> sum_pins (bump e by_ n) = sum_pins e + n.
Proof.
  intros H. unfold all_pins in H. unfold sum_pins, bump. cbn [foldr all_pins].
  repeat (apply elem_of_cons in H as [->|H]; [pin_cases; cbn; lia|]).
  by apply elem_of_nil in H.
Qed.

Lemma sum_ge e by_ : (forall p, 0 <= e p) -> by_ ∈ all_pins -> e by_ <= sum_pins e.
Proof.
  intros H0. unfold sum_pins. induction all_pins as [|q l IH]; intros H; [by apply elem_of_nil in H|].
  assert (0 <= foldr (fun p n => e p + n) 0 l).
  { clear -H0. induction l as [|x l IH]; simpl; [lia|]. specialize (H0 x). lia. }
  simpl. apply elem_of_cons in H as [->|H]; [lia|]. specialize (IH H). pose proof (H0 q). lia.
Qed.

Lemma pins_are_ext e e' ps : (forall p, e p = e' p) -> pins_are e ps -> pins_are e' ps.
Proof.
  intros E []. split; intros; rewrite <- ?E; auto.
  rewrite pa_ref0. unfold sum_pins. induction all_pins as [|q l IH]; simpl; [done|]. by rewrite E, IH.
Qed.

Lemma pins_ref e ps : pins_are e ps -> 0 <= ref ps.
Proof.
  intros []. rewrite pa_ref0. unfold sum_pins. clear -pa_nonneg0.
  induction all_pins as [|x l IH]; simpl; [lia|]. specialize (pa_nonneg0 x). lia.
Qed.

Lemma pin_get_are e by_ ps :
  pins_are e ps -> by_ ∈ all_pins -> pins_are (bump e by_ 1) (pin_get by_ ps).1.
Proof.
  intros [] Hin. split; cbn [pin_get fst ref ref_map].
  - intros p. unfold pin_set, bump. rewrite !pa_map0. zcase; congruence.
  - by rewrite sum_bump, pa_ref0.
  - intros p. unfold bump. pose proof (pa_nonneg0 p). zcase.
Qed.

Lemma pin_put_are e by_ ps :
  pins_are e ps -> by_ ∈ all_pins -> 1 <= e by_ ->
  exists ps', pin_put by_ ps = Some (ps', ref ps - 1 =? 0) /\ pins_are (bump e by_ (-1)) ps' /\
    ref ps' = ref ps - 1.
Proof.
  intros [] Hin H1. unfold pin_put. pose proof (sum_ge e by_ pa_nonneg0 Hin).
  rewrite pa_map0, !(proj2 (Z.eqb_neq _ _)) by lia. eexists. split; [done|]. split; [|done]. split; cbn [ref ref_map].
  - intros p. unfold pin_set, bump. rewrite !pa_map0. zcase; subst; lia.
  - rewrite sum_bump by done. lia.
  - intros p. unfold bump. pose proof (pa_nonneg0 p). zcase; subst; lia.
Qed.

Lemma in_all_pins p : bool_decide (p ∈ all_pins) = true -> p ∈ all_pins.
Proof. by intros ?%bool_decide_eq_true. Qed.

Ltac is_pin := apply in_all_pins; vm_compute; reflexivity.

Section dir.
Context {D} `{Double D}.
Implicit Types d f : cdir (D := D).

(** *** State bits *)

Lemma state_test_bit d k : 0 <= k -> state_test d (2 ^ k) = Z.testbit (state d) k.
Proof.
  intros Hk. unfold state_test. destruct (Z.testbit (state d) k) eqn:E.
  - destruct (Z.eqb_spec (Z.land (state d) (2 ^ k)) 0) as [E0|]; [|done].
    apply (f_equal (fun x => Z.testbit x k)) in E0.
    by rewrite Z.land_spec, E, Z.pow2_bits_true, Z.bits_0 in E0.
  - destruct (Z.eqb_spec (Z.land (state d) (2 ^ k)) 0) as [|E0]; [done|]. destruct E0.
    apply Z.bits_inj'. intros n Hn. rewrite Z.land_spec, Z.bits_0, Z.pow2_bits_eqb by done.
    destruct (Z.eqb_spec k n) as [->|]; [by rewrite E|by rewrite andb_false_r].
Qed.

Lemma bit_set s k j : 0 <= k -> Z.testbit (Z.lor s (2 ^ k)) j = Z.testbit s j || (k =? j).
Proof. intros. by rewrite Z.lor_spec, Z.pow2_bits_eqb. Qed.

Lemma bit_clear s k j : 0 <= k -> Z.testbit (Z.ldiff s (2 ^ k)) j = Z.testbit s j && negb (k =? j).
Proof. intros. by rewrite Z.ldiff_spec, Z.pow2_bits_eqb. Qed.

End dir.

(** Flags as bits of the state, whatever the fields around it. *)
Ltac flags :=
  unfold is_auth, is_dirty, is_complete, is_frozen_dir, is_freezing_dir, state_set, state_clear,
    mark_complete in *;
  unfold STATE_COMPLETE, STATE_FROZENTREE, STATE_FREEZINGTREE, STATE_FROZENDIR, STATE_FREEZINGDIR,
    STATE_IMPORTBOUND, STATE_EXPORTBOUND, STATE_STICKY, STATE_AUXSUBTREE, STATE_REJOINUNDEF, STATE_DIRTY,
    STATE_AUTH, STATE_CREATING, STATE_FRAGMENTING, STATE_DNPINNEDFRAG, STATE_DIRTYDFT, STATE_BADFRAG in *;
  repeat (rewrite state_test_bit in * by lia);
  cbn [state set_state set_auth set_pins set_pinned set_replicas set_holds set_fnode set_waits
       set_dens set_pop] in *;
  repeat (rewrite bit_set in * by lia); repeat (rewrite bit_clear in * by lia).

(** Which pin [p] is. *)
Ltac pin_split p :=
  repeat match goal with |- context [p =? ?k] => destruct (Z.eqb_spec p k); [subst p|] end;
  repeat match goal with |- context [?a =? ?b] =>
    let r := eval vm_compute in (a =? b) in
    match r with true => idtac | false => idtac end; change (a =? b) with r; cbv iota end.

(** Closes a goal that a hypothesis or computation gives. *)
Ltac given := first [assumption | reflexivity | done].

Definition some {A} (l : list A) : bool := match l with [] => false | _ :: _ => true end.

Section ops.
Context {D} `{Double D}.
Implicit Types d f : cdir (D := D).

(** The pins that the rest of the fragment calls for; [w] withholds those that
    [init_fragment_pins] takes. *)
Definition expected (w : bool) d (p : Z) : Z :=
  if p =? PIN_DNWAITER then b2z (some (waiting_on_dentry (waits_ d)))
  else if p =? PIN_CHILD then b2z (some (items (holds d)))
  else if p =? PIN_FROZEN then b2z (is_frozen_dir d)
  else if p =? PIN_SUBTREE then b2z (negb w && is_subtree_root d)
  else if p =? PIN_IMPORTBOUND then b2z (negb w && state_test d STATE_IMPORTBOUND)
  else if p =? PIN_EXPORTBOUND then b2z (negb w && state_test d STATE_EXPORTBOUND)
  else if p =? PIN_STICKY then b2z (state_test d STATE_STICKY)
  else if p =? PIN_REPLICATED then b2z (negb w && is_replicated d)
  else if p =? PIN_DIRTY then b2z (negb w && state_test d STATE_DIRTY)
  else if p =? PIN_WAITER then b2z (some (waiting (waits_ d)))
  else if p =? PIN_AUTHPIN then b2z (0 <? auth_pins (pinned d))
  else 0.

Definition pins_ok (w : bool) d : Prop := pins_are (expected w d) (pins d).

(** What a fragment counts for in the inode. *)
Definition rl d : Z := b2z (0 <? ref (pins d)).
Definition nl d : Z := b2z (negb (is_subtree_root d) && (0 <? get_cum_auth_pins d)).
Definition fl d : Z := b2z (is_frozen_dir d && is_auth d && negb (is_subtree_root d)).

Definition moved d (i : inode) d' (i' : inode) : Prop :=
  imoves i i' (rl d' - rl d) (nl d' - nl d) (fl d' - fl d).

(** The inode's counts cover the fragment. *)
Record backed d (i : inode) : Prop := {
  ba_ok : iok i;
  ba_ref : rl d <= ref_map (i_pins i) PIN_DIRFRAG;
  ba_nested : nl d <= i_nested_auth_pins i;
  ba_frozen : fl d <= i_auth_pins i
}.

Lemma nl_range d : 0 <= nl d <= 1.
Proof. apply b2z_range. Qed.

Lemma moved_refl d i : iok i -> moved d i d i.
Proof. intros. unfold moved. rewrite !Z.sub_diag. by apply imoves_refl. Qed.

Lemma moved_trans d1 i1 d2 i2 d3 i3 : moved d1 i1 d2 i2 -> moved d2 i2 d3 i3 -> moved d1 i1 d3 i3.
Proof. unfold moved. intros. eapply imoves_trans; eauto; lia. Qed.

Lemma moved_backed d i d' i' : backed d i -> moved d i d' i' -> backed d' i'.
Proof. intros [] []. split; [done|lia..]. Qed.

(** A change that the inode does not count. *)
Lemma moved_same d i d' : iok i -> rl d' = rl d -> nl d' = nl d -> fl d' = fl d -> moved d i d' i.
Proof. intros ? E1 E2 E3. unfold moved. rewrite E1, E2, E3, !Z.sub_diag. by apply imoves_refl. Qed.

Lemma get_ok by_ d i :
  iok i -> 0 <= ref (pins d) ->
  exists i', get by_ d i = (set_pins (pin_get by_ (pins d)).1 d, i') /\
    moved d i (set_pins (pin_get by_ (pins d)).1 d) i'.
Proof.
  intros Hi Hr. unfold get. cbn [pin_get fst]. eexists. split; [done|].
  unfold moved, rl, nl, fl. cbn. rewrite !Z.sub_diag.
  destruct (Z.eqb_spec (ref (pins d)) 0) as [E|E].
  - rewrite E. cbn. by apply i_get_dirfrag.
  - replace (_ - _) with 0 by (unfold b2z; zcase). by apply imoves_refl.
Qed.

Lemma put_ok e by_ d i :
  backed d i -> pins_are e (pins d) -> by_ ∈ all_pins -> 1 <= e by_ ->
  exists ps i', put by_ d i = Some (set_pins ps d, i') /\ pins_are (bump e by_ (-1)) ps /\
    moved d i (set_pins ps d) i'.
Proof.
  intros [Hi Hr _ _] He Hin H1. destruct (pin_put_are e by_ (pins d) He Hin H1) as (ps & Ep & Hps & Er).
  pose proof (pins_ref _ _ Hps). unfold put. rewrite Ep. obind.
  unfold moved, rl, nl, fl in *. destruct (Z.eqb_spec (ref (pins d) - 1) 0) as [E|E].
  - destruct (i_put_dirfrag i Hi) as (i' & -> & Hm).
    { replace (ref (pins d)) with 1 in Hr by lia. exact Hr. }
    obind. exists ps, i'. split_and!; [done..|]. cbn. rewrite !Z.sub_diag, Er.
    replace (ref (pins d)) with 1 by lia. exact Hm.
  - obind. exists ps, i. split_and!; [done..|]. cbn. rewrite !Z.sub_diag, Er.
    replace (_ - _) with 0 by (unfold b2z; zcase). by apply imoves_refl.
Qed.

(** A change of the fragment together with the pin it drops or takes. *)
Lemma put_step w d d1 by_ i :
  backed d1 i -> pins_ok w d -> pins d1 = pins d -> by_ ∈ all_pins -> 1 <= expected w d by_ ->
  (forall p, bump (expected w d) by_ (-1) p = expected w d1 p) ->
  exists ps i', put by_ d1 i = Some (set_pins ps d1, i') /\ pins_ok w (set_pins ps d1) /\
    moved d1 i (set_pins ps d1) i'.
Proof.
  intros Hb Hp E Hin H1 He. unfold pins_ok in Hp. rewrite <- E in Hp.
  destruct (put_ok _ by_ d1 i Hb Hp Hin H1) as (ps & i' & -> & Hps & Hm). exists ps, i'.
  split_and!; [done| |done]. by eapply pins_are_ext; [|exact Hps].
Qed.

Lemma get_step w d d1 by_ i :
  iok i -> pins_ok w d -> pins d1 = pins d -> by_ ∈ all_pins ->
  (forall p, bump (expected w d) by_ 1 p = expected w d1 p) ->
  exists ps i', get by_ d1 i = (set_pins ps d1, i') /\ pins_ok w (set_pins ps d1) /\
    moved d1 i (set_pins ps d1) i'.
Proof.
  intros Hi Hp E Hin He. unfold pins_ok in Hp. rewrite <- E in Hp.
  destruct (get_ok by_ d1 i Hi (pins_ref _ _ Hp)) as (i' & -> & Hm). do 2 eexists.
  split_and!; [done| |done]. eapply pins_are_ext; [|by apply (pin_get_are _ by_ _ Hp)]. done.
Qed.

(** A change that needs no pin. *)
Lemma pins_same w d d1 :
  pins_ok w d -> pins d1 = pins d -> (forall p, expected w d p = expected w d1 p) -> pins_ok w d1.
Proof. unfold pins_ok. intros Hp -> He. by eapply pins_are_ext. Qed.

(** *** Waiters *)

Lemma take_base_ok w mask ls d i :
  backed d i -> pins_ok w d ->
  exists ps i', let d' := set_waits (MkWaits (waiting_on_dentry (waits_ d))
                            (left_waiting mask (waiting (waits_ d)))) (set_pins ps d) in
    take_waiting_base mask ls d i = Some (d', i', ls ++ taken mask (waiting (waits_ d))) /\
    pins_ok w d' /\ moved d i d' i'.
Proof.
  intros Hb Hp. unfold take_waiting_base. destruct (waiting (waits_ d)) as [|x l] eqn:Ew.
  { exists (pins d), i. cbn. rewrite app_nil_r. rewrite <- Ew.
    assert (Ed : set_waits (MkWaits (waiting_on_dentry (waits_ d)) (waiting (waits_ d)))
      (set_pins (pins d) d) = d) by (by destruct d as [?????????? [] ???]).
    rewrite Ed. split_and!; [given..|]. apply moved_refl, Hb. }
  generalize (left_waiting mask (x :: l)) as rest. intros rest.
  set (d1 := set_waits (MkWaits (waiting_on_dentry (waits_ d)) rest) d).
  assert (Hm : moved d i d1 i) by (by apply moved_same; [apply Hb|..]).
  destruct rest as [|y rest].
  - destruct (put_step w d d1 PIN_WAITER i) as (ps & i' & -> & Hok & Hm').
    { by eapply moved_backed. } { done. } { done. } { is_pin. }
    { cbn. rewrite Ew. done. }
    { intros p. unfold bump, expected. cbn -[b2z Z.eqb]. rewrite Ew. pin_split p; done. }
    obind. exists ps, i'. split_and!; [given..|]. exact (moved_trans _ _ _ _ _ _ Hm Hm').
  - obind. exists (pins d), i. assert (Ed : set_waits (MkWaits (waiting_on_dentry (waits_ d)) (y :: rest))
      (set_pins (pins d) d) = d1) by (by destruct d). rewrite Ed. split_and!; [given| |given].
    apply (pins_same w d); [done..|]. intros p. unfold expected. cbn -[b2z Z.eqb]. rewrite Ew.
    pin_split p; done.
Qed.

(** What [take_waiting] leaves of the dentry waiters, and takes of them. *)
Definition rest_on_dentry (mask : Z) (m : dentry_waiters) : dentry_waiters :=
  if Z.land mask WAIT_DENTRY =? 0 then m else [].
Definition taken_on_dentry (mask : Z) (m : dentry_waiters) : list context :=
  if Z.land mask WAIT_DENTRY =? 0 then [] else all_dentry_waiters m.

Lemma take_ok w mask ls d i :
  backed d i -> pins_ok w d ->
  exists ps i', let d' := set_waits (MkWaits (rest_on_dentry mask (waiting_on_dentry (waits_ d)))
                            (left_waiting mask (waiting (waits_ d)))) (set_pins ps d) in
    take_waiting mask ls d i =
      Some (d', i', ls ++ taken_on_dentry mask (waiting_on_dentry (waits_ d)) ++
                    taken mask (waiting (waits_ d))) /\
    pins_ok w d' /\ moved d i d' i'.
Proof.
  intros Hb Hp. unfold take_waiting, rest_on_dentry, taken_on_dentry.
  destruct (waiting_on_dentry (waits_ d)) as [|x l] eqn:Ew.
  { destruct (take_base_ok w mask ls d i Hb Hp) as (ps & i' & -> & Hok & Hm). rewrite Ew in *.
    exists ps, i'. destruct (_ =? 0); done. }
  destruct (Z.land mask WAIT_DENTRY =? 0) eqn:Em; cbn [negb].
  { destruct (take_base_ok w mask ls d i Hb Hp) as (ps & i' & -> & Hok & Hm). rewrite Ew in *. eauto. }
  set (d1 := set_waits (MkWaits [] (waiting (waits_ d))) d).
  assert (Hm : moved d i d1 i) by (by apply moved_same; [apply Hb|..]).
  destruct (put_step w d d1 PIN_DNWAITER i) as (ps & i' & -> & Hok & Hm').
  { by eapply moved_backed. } { done. } { done. } { is_pin. }
  { unfold expected. cbn. rewrite Ew. done. }
  { intros p. unfold bump, expected. cbn -[b2z Z.eqb]. rewrite Ew. pin_split p; done. }
  obind. pose proof (moved_trans _ _ _ _ _ _ Hm Hm') as Hm1.
  destruct (take_base_ok w mask (ls ++ all_dentry_waiters (x :: l)) (set_pins ps d1) i')
    as (ps2 & i2 & -> & Hok2 & Hm2); [by eapply moved_backed|done|].
  exists ps2, i2. cbn -[all_dentry_waiters left_waiting taken] in *. rewrite <- app_assoc.
  split_and!; [given..|]. exact (moved_trans _ _ _ _ _ _ Hm1 Hm2).
Qed.

Lemma finish_waiting_ok w mask result d i :
  backed d i -> pins_ok w d ->
  exists ps i', let d' := set_waits (MkWaits (rest_on_dentry mask (waiting_on_dentry (waits_ d)))
                            (left_waiting mask (waiting (waits_ d)))) (set_pins ps d) in
    finish_waiting mask result d i = Some (d', i') /\ pins_ok w d' /\ moved d i d' i'.
Proof.
  intros Hb Hp. unfold finish_waiting. destruct (take_ok w mask [] d i Hb Hp) as (ps & i' & -> & Hok & Hm).
  obind. eexists _, _. split_and!; [given..|]. destruct (result <? 0);
    (eapply imoves_then; [exact Hm|apply i_call_ok, (im_ok _ _ _ _ _ Hm)]).
Qed.

(** *** Auth pins *)

Lemma cum_pinned a d : get_cum_auth_pins (set_pinned a d) = auth_pins a + nested_auth_pins a.
Proof. done. Qed.

Lemma rl_pinned a d : rl (set_pinned a d) = rl d.
Proof. done. Qed.
Lemma fl_pinned a d : fl (set_pinned a d) = fl d.
Proof. done. Qed.

Lemma nest_one d a :
  0 <= get_cum_auth_pins d -> auth_pins a + nested_auth_pins a = get_cum_auth_pins d + 1 ->
  nl (set_pinned a d) - nl d = b2z (negb (is_subtree_root d) && (get_cum_auth_pins d + 1 =? 1)).
Proof.
  intros H0 E. unfold nl. rewrite cum_pinned, E. change (is_subtree_root (set_pinned a d)) with (is_subtree_root d).
  destruct (is_subtree_root d); cbn; [done|]. unfold b2z. zcase.
Qed.

Lemma auth_pin_ok w d i :
  backed d i -> pins_ok w d -> 0 <= auth_pins (pinned d) -> 0 <= nested_auth_pins (pinned d) ->
  exists ps i', let d' := set_pinned (MkAuths (auth_pins (pinned d) + 1) (nested_auth_pins (pinned d))
                            (dir_auth_pins (pinned d))) (set_pins ps d) in
    auth_pin d i = Some (d', i') /\ pins_ok w d' /\ moved d i d' i'.
Proof.
  intros Hb Hp Ha Hn. unfold auth_pin.
  set (q := if auth_pins (pinned d) =? 0 then _ else _).
  assert (Hq : exists ps i1, q = (set_pins ps d, i1) /\ moved d i (set_pins ps d) i1 /\
    pins_ok w (set_pinned (MkAuths (auth_pins (pinned d) + 1) (nested_auth_pins (pinned d))
                 (dir_auth_pins (pinned d))) (set_pins ps d))).
  { unfold q. destruct (Z.eqb_spec (auth_pins (pinned d)) 0) as [E|E].
    - destruct (get_ok PIN_AUTHPIN d i (ba_ok _ _ Hb) (pins_ref _ _ Hp)) as (i1 & -> & Hm).
      do 2 eexists. split_and!; [given..|].
      eapply pins_are_ext; [|apply (pin_get_are _ PIN_AUTHPIN _ Hp); is_pin].
      intros p. unfold bump, expected. cbn -[b2z Z.eqb]. pin_split p; try done. rewrite E. done.
    - exists (pins d), i. split_and!; [by destruct d|by destruct d; apply moved_refl, Hb|].
      eapply pins_are_ext; [|exact Hp]. intros p. unfold expected. cbn -[b2z Z.eqb]. pin_split p; try done.
      unfold b2z. zcase. }
  destruct Hq as (ps & i1 & -> & Hm & Hok). exists ps.
  set (d1 := set_pins ps d) in *. cbn [pinned set_pins d1].
  set (d2 := set_pinned _ d1) in *. pose proof (moved_backed _ _ _ _ Hb Hm) as Hb1.
  assert (En : nl d2 - nl d1 = b2z (negb (is_subtree_root d2) && (get_cum_auth_pins d2 =? 1))).
  { unfold d2. rewrite nest_one; [|unfold d1; cbn; unfold get_cum_auth_pins; cbn; lia..].
    rewrite cum_pinned. cbn. do 3 f_equal. unfold get_cum_auth_pins. cbn. lia. }
  destruct (negb (is_subtree_root d2) && (get_cum_auth_pins d2 =? 1)).
  - destruct (i_nested_ok i1 1 (ba_ok _ _ Hb1)) as (i2 & -> & Hm2); [lia| |].
    { pose proof (io_nested _ (ba_ok _ _ Hb1)). lia. }
    obind. exists i2. split_and!; [given..|]. eapply moved_trans; [exact Hm|]. unfold moved. rewrite En.
    unfold d2. rewrite rl_pinned, fl_pinned, !Z.sub_diag. exact Hm2.
  - obind. exists i1. split_and!; [given..|]. eapply moved_trans; [exact Hm|]. unfold moved. rewrite En.
    unfold d2. rewrite rl_pinned, fl_pinned, !Z.sub_diag. apply imoves_refl, Hb1.
Qed.

(** Neither the fragment nor a tree at it is about to freeze. *)
Definition calm d : Prop :=
  state_test d STATE_FREEZINGDIR = false /\ state_test d STATE_FREEZINGTREE = false.

Lemma finish_freeze_calm u d i : calm d -> maybe_finish_freeze_with u d i = Some (d, i).
Proof.
  intros [E1 E2]. unfold maybe_finish_freeze_with. rewrite E1. destruct (_ || _); [done|].
  obind. rewrite E2. by destruct (negb _).
Qed.

Lemma auth_unpin_n_ok n w d i :
  backed d i -> pins_ok w d -> calm d -> 1 <= auth_pins (pinned d) -> 0 <= nested_auth_pins (pinned d) ->
  exists ps i', let d' := set_pinned (MkAuths (auth_pins (pinned d) - 1) (nested_auth_pins (pinned d))
                            (dir_auth_pins (pinned d))) (set_pins ps d) in
    auth_unpin_n (S n) d i = Some (d', i') /\ pins_ok w d' /\ moved d i d' i'.
Proof.
  intros Hb Hp Hc Ha Hn. cbn [auth_unpin_n].
  set (d1 := set_pinned _ d). assert (Hd1 : iok i /\ rl d <= ref_map (i_pins i) PIN_DIRFRAG) by (split; apply Hb).
  set (m := if auth_pins (pinned d1) =? 0 then _ else _).
  assert (Hm : exists ps i1, m = Some (set_pins ps d1, i1) /\ pins_ok w (set_pins ps d1) /\
    imoves i i1 (rl (set_pins ps d1) - rl d) 0 0).
  { unfold m. cbn [d1 pinned set_pinned auth_pins].
    destruct (Z.eqb_spec (auth_pins (pinned d) - 1) 0) as [E|E].
    - destruct (put_ok (expected w d) PIN_AUTHPIN d i Hb Hp) as (ps & i1 & Ep & Hps & Hm); [is_pin| |].
      { unfold expected, b2z. cbn. zcase. }
      exists ps, i1. unfold put in *. cbn [pins d1 set_pinned]. destruct (pin_put _ _) as [[q l]|]; [|done].
      cbn in Ep |- *. destruct (if l then _ else _); [|done]. cbn in Ep |- *. simplify_eq.
      split_and!; [done| |].
      + eapply pins_are_ext; [|exact Hps]. intros p. unfold bump, expected. cbn -[b2z Z.eqb].
        pin_split p; try done. unfold b2z. zcase.
      + unfold moved in Hm. rewrite !Z.sub_diag in Hm. exact Hm.
    - exists (pins d), i. split_and!; [by destruct d| |].
      + apply (pins_same w d); [done..|]. intros p. unfold expected. cbn -[b2z Z.eqb]. pin_split p; try done.
        unfold b2z. zcase.
      + change (rl (set_pins (pins d) d1)) with (rl d). rewrite Z.sub_diag. apply imoves_refl, Hb. }
  destruct Hm as (ps & i1 & -> & Hok & Hm). exists ps. obind. cbn [pinned set_pins d1 set_pinned auth_pins].
  rewrite (proj2 (Z.leb_le _ _)) by lia. rewrite finish_freeze_calm by exact Hc. obind.
  set (d2 := set_pins ps d1) in *. change (set_pinned _ (set_pins ps d)) with d2.
  assert (En : nl d2 - nl d = - b2z (negb (is_subtree_root d2) && (get_cum_auth_pins d2 =? 0))).
  { unfold nl. change (is_subtree_root d2) with (is_subtree_root d).
    assert (get_cum_auth_pins d2 = get_cum_auth_pins d - 1) as -> by (unfold get_cum_auth_pins; cbn; lia).
    destruct (is_subtree_root d); [done|]. unfold get_cum_auth_pins, b2z. cbn. zcase. }
  assert (Ef : fl d2 - fl d = 0) by (change (fl d2) with (fl d); lia).
  pose proof (ba_nested _ _ Hb) as Hbn.
  destruct (negb (is_subtree_root d2) && (get_cum_auth_pins d2 =? 0)); cbn in En.
  - destruct (i_nested_ok i1 (-1) (im_ok _ _ _ _ _ Hm)) as (i2 & -> & Hm2); [lia| |].
    { rewrite (im_nested _ _ _ _ _ Hm). pose proof (nl_range d2). lia. }
    obind. exists i2. split_and!; [done..|]. unfold moved. rewrite En, Ef.
    eapply imoves_trans; [exact Hm|exact Hm2|lia..].
  - obind. exists i1. split_and!; [done..|]. unfold moved. by rewrite En, Ef.
Qed.

Lemma auth_unpin_ok w d i :
  backed d i -> pins_ok w d -> calm d -> 1 <= auth_pins (pinned d) -> 0 <= nested_auth_pins (pinned d) ->
  exists ps i', let d' := set_pinned (MkAuths (auth_pins (pinned d) - 1) (nested_auth_pins (pinned d))
                            (dir_auth_pins (pinned d))) (set_pins ps d) in
    auth_unpin d i = Some (d', i') /\ pins_ok w d' /\ moved d i d' i'.
Proof. apply (auth_unpin_n_ok 1). Qed.

Lemma adjust_nested_ok w inc dirinc d i :
  backed d i -> pins_ok w d -> calm d -> inc <> 0 -> 0 <= auth_pins (pinned d) ->
  0 <= nested_auth_pins (pinned d) ->
  0 <= nested_auth_pins (pinned d) + inc -> 0 <= dir_auth_pins (pinned d) + dirinc ->
  exists i', let d' := set_pinned (MkAuths (auth_pins (pinned d)) (nested_auth_pins (pinned d) + inc)
                         (dir_auth_pins (pinned d) + dirinc)) d in
    adjust_nested_auth_pins inc dirinc d i = Some (d', i') /\ pins_ok w d' /\ moved d i d' i'.
Proof.
  intros Hb Hp Hc Hi Ha Hn Hn' Hd. unfold adjust_nested_auth_pins, maybe_finish_freeze.
  rewrite (proj2 (Z.eqb_neq _ _)) by done. cbn [negb]. set (d' := set_pinned _ d).
  cbn [pinned d' set_pinned nested_auth_pins dir_auth_pins]. rewrite !(proj2 (Z.leb_le _ _)) by done. cbn [andb].
  rewrite finish_freeze_calm by exact Hc. obind.
  assert (Hok : pins_ok w d') by (apply (pins_same w d); done).
  pose proof (ba_nested _ _ Hb) as Hbn. pose proof (io_nested _ (ba_ok _ _ Hb)).
  assert (Hr : rl d' - rl d = 0) by (change (rl d') with (rl d); lia).
  assert (Hf : fl d' - fl d = 0) by (change (fl d') with (fl d); lia).
  assert (En : nl d' - nl d = if is_subtree_root d' then 0 else
    if get_cum_auth_pins d' =? 0 then -1 else if get_cum_auth_pins d' =? inc then 1 else 0).
  { unfold nl. change (is_subtree_root d') with (is_subtree_root d).
    assert (get_cum_auth_pins d' = get_cum_auth_pins d + inc) as -> by (unfold get_cum_auth_pins; cbn; lia).
    destruct (is_subtree_root d); [done|]. unfold get_cum_auth_pins, b2z. cbn. zcase. }
  pose proof (nl_range d') as [Hl _].
  unfold moved. rewrite Hr, Hf, En in *.
  destruct (is_subtree_root d'); [obind; exists i; split_and!; [done..|apply imoves_refl, Hb]|].
  destruct (_ =? 0).
  { destruct (i_nested_ok i (-1) (ba_ok _ _ Hb)) as (i' & -> & Hm); [lia..|]. obind. eauto. }
  destruct (_ =? inc); [|obind; exists i; split_and!; [done..|apply imoves_refl, Hb]].
  destruct (i_nested_ok i 1 (ba_ok _ _ Hb)) as (i' & -> & Hm); [lia..|]. obind. eauto.
Qed.

(** *** Freezing *)

Lemma sub_refl_pins p d : is_subtree_root (set_pins p d) = is_subtree_root d.
Proof. done. Qed.

Lemma freeze_dir_ok w d i :
  backed d i -> pins_ok w d -> is_frozen_dir d = false ->
  exists ps i', let d' := set_pins ps (state_set STATE_FROZENDIR (state_clear STATE_FREEZINGDIR d)) in
    _freeze_dir d i = (d', i') /\ pins_ok w d' /\ moved d i d' i'.
Proof.
  intros Hb Hp Hf. unfold _freeze_dir. set (d1 := state_set _ _).
  assert (Eb : forall k, 0 <= k -> state_test d1 (2 ^ k) = (state_test d (2 ^ k) && negb (5 =? k)) || (4 =? k)).
  { intros k Hk. unfold d1. flags. done. }
  destruct (get_step w d d1 PIN_FROZEN i) as (ps & i1 & -> & Hok & Hm); [apply Hb|done..|is_pin| |].
  { intros p. unfold bump, expected, is_frozen_dir in *. rewrite Hf.
    unfold STATE_IMPORTBOUND, STATE_EXPORTBOUND, STATE_STICKY, STATE_DIRTY, STATE_FROZENDIR.
    rewrite !Eb by lia. cbn -[b2z Z.eqb state_test]. rewrite !andb_true_r, !orb_false_r, !orb_true_r. pin_split p; done. }
  assert (Hl : rl d1 = rl d /\ nl d1 = nl d /\ is_auth d1 = is_auth d /\ is_frozen_dir d1 = true).
  { split_and!; [done..| |]; unfold is_auth, is_frozen_dir, STATE_AUTH, STATE_FROZENDIR; rewrite Eb by lia;
      cbn -[state_test]; by rewrite ?andb_true_r, ?orb_false_r, ?orb_true_r. }
  destruct Hl as (El & En & Ea & Ef). exists ps.
  set (d2 := set_pins ps d1) in *. change (is_auth d2) with (is_auth d1).
  assert (Efl : fl d2 - fl d = b2z (is_auth d1 && negb (is_subtree_root d2))).
  { unfold fl. change (is_frozen_dir d2) with (is_frozen_dir d1). change (is_auth d2) with (is_auth d1).
    rewrite Ef, Hf. cbn. lia. }
  assert (Hm1 : imoves i i1 (rl d2 - rl d) 0 0).
  { unfold moved in Hm. change (nl d2) with (nl d1) in Hm. change (fl d2) with (fl d1) in Hm.
    by rewrite !Z.sub_diag, El in Hm. }
  eexists. split_and!; [done..|]. unfold moved. rewrite Efl. change (nl d2) with (nl d1). rewrite En, Z.sub_diag.
  destruct (is_auth d1 && negb (is_subtree_root d2)); [|exact Hm1].
  eapply imoves_trans; [exact Hm1|apply i_auth_pin_ok, (im_ok _ _ _ _ _ Hm1)|cbn; lia..].
Qed.

Lemma unfreeze_dir_ok w d i :
  backed d i -> pins_ok w d -> is_frozen_dir d = true ->
  exists ps i', let d' := set_waits (MkWaits (waiting_on_dentry (waits_ d))
                            (left_waiting WAIT_UNFREEZE (waiting (waits_ d))))
                            (set_pins ps (state_clear STATE_FROZENDIR d)) in
    unfreeze_dir d i = Some (d', i') /\ pins_ok w d' /\ moved d i d' i'.
Proof.
  intros Hb Hp Hf. unfold unfreeze_dir. unfold is_frozen_dir in Hf. rewrite Hf.
  set (d1 := state_clear _ _).
  assert (Eb : forall k, 0 <= k -> state_test d1 (2 ^ k) = state_test d (2 ^ k) && negb (4 =? k)).
  { intros k Hk. unfold d1. flags. done. }
  assert (Hb1 : rl d1 = rl d /\ nl d1 = nl d /\ is_auth d1 = is_auth d /\ is_frozen_dir d1 = false).
  { split_and!; [done..| |]; unfold is_auth, is_frozen_dir, STATE_AUTH, STATE_FROZENDIR; rewrite Eb by lia;
      cbn -[state_test]; by rewrite ?andb_true_r, ?andb_false_r. }
  destruct Hb1 as (El & En & Ea & Ef).
  assert (Ef1 : fl d1 = 0) by (unfold fl; by rewrite Ef).
  destruct (put_step w d d1 PIN_FROZEN i) as (ps & i1 & -> & Hok & Hm).
  { destruct Hb. split; rewrite ?El, ?En, ?Ef1; try done. by apply io_auth. }
  { done. } { done. } { is_pin. } { unfold expected, is_frozen_dir. cbn -[state_test]. by rewrite Hf. }
  { intros p. unfold bump, expected, is_frozen_dir.
    unfold STATE_IMPORTBOUND, STATE_EXPORTBOUND, STATE_STICKY, STATE_DIRTY, STATE_FROZENDIR in *.
    rewrite !Eb, Hf by lia. cbn -[b2z Z.eqb state_test]. rewrite !andb_true_r. pin_split p; done. }
  obind. set (d2 := set_pins ps d1) in *.
  assert (Hm1 : imoves i i1 (rl d2 - rl d) 0 0).
  { unfold moved in Hm. change (nl d2) with (nl d1) in Hm. change (fl d2) with (fl d1) in Hm.
    by rewrite !Z.sub_diag, El in Hm. }
  assert (Efl : fl d = b2z (is_auth d2 && negb (is_subtree_root d2))).
  { unfold fl, is_frozen_dir. rewrite Hf. cbn [andb]. change (is_auth d2) with (is_auth d1). by rewrite Ea. }
  assert (Hi : exists i2, (if is_auth d2 && negb (is_subtree_root d2) then i_auth_unpin i1 else Some i1) = Some i2 /\
    moved d i d2 i2).
  { unfold moved. change (nl d2) with (nl d1). change (fl d2) with (fl d1). rewrite En, Ef1, Z.sub_diag, Efl.
    destruct (is_auth d2 && negb (is_subtree_root d2)); [|by exists i1].
    destruct (i_auth_unpin_ok i1 (im_ok _ _ _ _ _ Hm1)) as (i2 & -> & Hm2).
    { rewrite (im_auth _ _ _ _ _ Hm1). pose proof (ba_frozen _ _ Hb). rewrite Efl in *. cbn in *. lia. }
    exists i2. split; [done|]. eapply imoves_trans; [exact Hm1|exact Hm2|cbn; lia..]. }
  destruct Hi as (i2 & -> & Hm2). obind.
  destruct (finish_waiting_ok w WAIT_UNFREEZE 0 d2 i2) as (ps3 & i3 & -> & Hok3 & Hm3); [|done|].
  { by eapply moved_backed. }
  exists ps3, i3. split_and!; [reflexivity|exact Hok3|exact (moved_trans _ _ _ _ _ _ Hm2 Hm3)].
Qed.

(** *** Pins taken and dropped on a condition *)

Lemma bump_0 e by_ p : bump e by_ 0 p = e p.
Proof. unfold bump. destruct (_ =? _); lia. Qed.

Lemma get_if_ok e b by_ d i :
  iok i -> pins_are e (pins d) -> by_ ∈ all_pins ->
  exists ps i', get_if b by_ d i = (set_pins ps d, i') /\ pins_are (bump e by_ (b2z b)) ps /\
    moved d i (set_pins ps d) i'.
Proof.
  intros Hi He Hin. unfold get_if. destruct b.
  - destruct (get_ok by_ d i Hi (pins_ref _ _ He)) as (i' & -> & Hm). do 2 eexists.
    split_and!; [done| |done]. by apply (pin_get_are e).
  - exists (pins d), i. split_and!; [by destruct d| |by destruct d; apply moved_refl].
    eapply pins_are_ext; [|exact He]. intros p. by rewrite bump_0.
Qed.

Lemma put_if_ok e b by_ d i :
  backed d i -> pins_are e (pins d) -> by_ ∈ all_pins -> (b = true -> 1 <= e by_) ->
  exists ps i', put_if b by_ d i = Some (set_pins ps d, i') /\ pins_are (bump e by_ (- b2z b)) ps /\
    moved d i (set_pins ps d) i'.
Proof.
  intros Hb He Hin H1. unfold put_if. destruct b; [by apply put_ok; auto|].
  exists (pins d), i. split_and!; [by destruct d| |by destruct d; apply moved_refl, Hb].
  eapply pins_are_ext; [|exact He]. intros p. by rewrite bump_0.
Qed.

Lemma init_pins_ok d i :
  iok i -> pins_ok true d ->
  exists ps i', init_fragment_pins d i = (set_pins ps d, i') /\ pins_ok false (set_pins ps d) /\
    moved d i (set_pins ps d) i'.
Proof.
  intros Hi Hp. unfold init_fragment_pins.
  destruct (get_if_ok _ (is_replicated d) PIN_REPLICATED d i Hi Hp) as (p1 & i1 & -> & H1 & M1); [is_pin|].
  destruct (get_if_ok _ (state_test d STATE_DIRTY) PIN_DIRTY (set_pins p1 d) i1 (im_ok _ _ _ _ _ M1) H1)
    as (p2 & i2 & E2 & H2 & M2); [is_pin|].
  destruct (get_if_ok _ (state_test d STATE_EXPORTBOUND) PIN_EXPORTBOUND (set_pins p2 d) i2
    (im_ok _ _ _ _ _ M2) H2) as (p3 & i3 & E3 & H3 & M3); [is_pin|].
  destruct (get_if_ok _ (state_test d STATE_IMPORTBOUND) PIN_IMPORTBOUND (set_pins p3 d) i3
    (im_ok _ _ _ _ _ M3) H3) as (p4 & i4 & E4 & H4 & M4); [is_pin|].
  destruct (get_if_ok _ (is_subtree_root d) PIN_SUBTREE (set_pins p4 d) i4
    (im_ok _ _ _ _ _ M4) H4) as (p5 & i5 & E5 & H5 & M5); [is_pin|].
  cbn [set_pins state dir_auth] in E2, E3, E4, E5.
  change (state_test (set_pins p1 d) STATE_DIRTY) with (state_test d STATE_DIRTY). rewrite E2.
  change (state_test (set_pins p2 (set_pins p1 d)) STATE_EXPORTBOUND) with (state_test d STATE_EXPORTBOUND).
  change (set_pins p2 (set_pins p1 d)) with (set_pins p2 d). rewrite E3.
  change (set_pins p3 (set_pins p2 d)) with (set_pins p3 d).
  change (state_test (set_pins p3 d) STATE_IMPORTBOUND) with (state_test d STATE_IMPORTBOUND). rewrite E4.
  change (set_pins p4 (set_pins p3 d)) with (set_pins p4 d).
  change (is_subtree_root (set_pins p4 d)) with (is_subtree_root d). rewrite E5.
  exists p5, i5. split_and!; [done| |].
  - eapply pins_are_ext; [|exact H5]. intros p. unfold bump, expected.
    change (state_test (set_pins p5 d)) with (state_test d). change (is_replicated (set_pins p5 d)) with (is_replicated d).
    change (is_subtree_root (set_pins p5 d)) with (is_subtree_root d).
    cbn -[b2z Z.eqb state_test is_replicated is_subtree_root].
    pin_split p; try done; lia.
  - exact (moved_trans _ _ _ _ _ _ M1 (moved_trans _ _ _ _ _ _ M2 (moved_trans _ _ _ _ _ _ M3
             (moved_trans _ _ _ _ _ _ M4 M5)))).
Qed.

(** *** The fragments that are split or merged *)

(** [!replay && is_auth()]: the operation is carried out, not replayed. *)
Definition live (replay : bool) d : bool := negb replay && is_auth d.

Definition add_waiters (dw m : dentry_waiters) : dentry_waiters :=
  foldl (fun dw p => add_dentry_waiters dw p.1 p.2) dw m.

Lemma prepare_old_ok dw replay d i :
  backed d i -> pins_ok false d -> 0 <= auth_pins (pinned d) -> 0 <= nested_auth_pins (pinned d) ->
  exists ps i', let d' := set_waits (MkWaits [] (waiting (waits_ d)))
      (set_pinned (MkAuths (auth_pins (pinned d) + b2z (live replay d)) (nested_auth_pins (pinned d))
                     (dir_auth_pins (pinned d))) (set_pins ps d)) in
    prepare_old_fragment dw replay d i = Some (d', i', add_waiters dw (waiting_on_dentry (waits_ d))) /\
    pins_ok false d' /\ moved d i d' i'.
Proof.
  intros Hb Hp Ha Hn. unfold prepare_old_fragment. fold (live replay d).
  set (m := if live replay d then _ else _).
  assert (Hm : exists ps i1, let d1 := set_pinned (MkAuths (auth_pins (pinned d) + b2z (live replay d))
      (nested_auth_pins (pinned d)) (dir_auth_pins (pinned d))) (set_pins ps d) in
    m = Some (d1, i1) /\ pins_ok false d1 /\ moved d i d1 i1).
  { unfold m. destruct (live replay d); cbn [b2z]; [by apply auth_pin_ok|].
    exists (pins d), i. rewrite Z.add_0_r. cbn zeta.
    assert (Ed : set_pinned (MkAuths (auth_pins (pinned d)) (nested_auth_pins (pinned d))
      (dir_auth_pins (pinned d))) (set_pins (pins d) d) = d) by (by destruct d as [???? [] ?????????]).
    rewrite Ed. split_and!; [done..|apply moved_refl, Hb]. }
  destruct Hm as (ps & i1 & -> & Hok & Hm). obind. cbn zeta in *. set (d1 := set_pinned _ _) in *.
  change (waits_ d1) with (waits_ d). destruct (waiting_on_dentry (waits_ d)) as [|x l] eqn:Ew.
  - exists ps, i1. assert (Ed : set_waits (MkWaits [] (waiting (waits_ d))) d1 = d1).
    { unfold d1. destruct d as [?????????? [] ???]. cbn in Ew |- *. by subst. }
    change (set_pinned _ (set_pins ps d)) with d1. rewrite Ed. done.
  - set (d2 := set_waits (MkWaits [] (waiting (waits_ d))) d1).
    assert (Hb2 : backed d2 i1) by (eapply moved_backed in Hm; [|done]; by destruct Hm).
    destruct (put_step false d1 d2 PIN_DNWAITER i1) as (ps2 & i2 & -> & Hok2 & Hm2); [done..|is_pin| | |].
    { unfold expected. cbn. rewrite Ew. done. }
    { intros p. unfold bump, expected. cbn -[b2z Z.eqb]. rewrite Ew. pin_split p; done. }
    obind. exists ps2, i2. split_and!; [reflexivity|exact Hok2|exact (moved_trans _ _ _ _ _ _ Hm Hm2)].
Qed.

(** Only a sticky pin is left. *)
Definition sticky_only d (p : Z) : Z := if p =? PIN_STICKY then b2z (state_test d STATE_STICKY) else 0.

(** The end of [finish_old_fragment], once nothing waits or is auth pinned. *)
Definition finish_rest (ws : list context) d (i : inode) : option (cdir * inode * list context) :=
  '(d, i) ← (if is_auth d then clear_replica_map d i else Some (d, i));
  '(d, i) ← (if is_dirty d then mark_clean d i else Some (d, i));
  '(d, i) ← put_if (state_test d STATE_IMPORTBOUND) PIN_IMPORTBOUND d i;
  '(d, i) ← put_if (state_test d STATE_EXPORTBOUND) PIN_EXPORTBOUND d i;
  '(d, i) ← put_if (is_subtree_root d) PIN_SUBTREE d i;
  '(d, i) ← put_if (0 <? auth_pins (pinned d)) PIN_AUTHPIN d i;
  assert! ref (pins d) =? (if state_test d STATE_STICKY then 1 else 0);
  Some (d, i, ws).

(** A fragment that holds and waits for nothing. *)
Record drained d : Prop := {
  dr_items : items (holds d) = [];
  dr_waits : waits_ d = MkWaits [] [];
  dr_auths : auth_pins (pinned d) = 0 /\ nested_auth_pins (pinned d) = 0 /\ dir_auth_pins (pinned d) = 0;
  dr_frozen : is_frozen_dir d = false;
  dr_replicas : is_auth d = false -> replicas d = []
}.

Definition clean_state (s : Z) : Z := if Z.testbit s 29 then Z.ldiff s STATE_DIRTY else s.

Lemma clean_bit s k : 0 <= k -> Z.testbit (clean_state s) k = Z.testbit s k && negb (29 =? k).
Proof.
  intros Hk. unfold clean_state, STATE_DIRTY. destruct (Z.testbit s 29) eqn:E; [by rewrite bit_clear|].
  destruct (Z.eqb_spec 29 k); [subst; by rewrite E|by rewrite andb_true_r].
Qed.

Lemma clear_replicas_ok d i :
  backed d i -> pins_ok false d -> (is_auth d = false -> replicas d = []) ->
  exists ps i', let d' := set_replicas [] (set_pins ps d) in
    (if is_auth d then clear_replica_map d i else Some (d, i)) = Some (d', i') /\
    pins_ok false d' /\ moved d i d' i'.
Proof.
  intros Hb Hp Hr. unfold clear_replica_map, is_replicated. destruct (is_auth d).
  2: { exists (pins d), i. cbn zeta. assert (Ed : set_replicas [] (set_pins (pins d) d) = d).
       { destruct d. cbn in Hr |- *. by rewrite Hr. }
       rewrite Ed. split_and!; [done..|apply moved_refl, Hb]. }
  clear Hr. destruct (replicas d) as [|r l] eqn:Er.
  { obind. exists (pins d), i. cbn zeta. assert (Ed : set_replicas [] (set_pins (pins d) d) = set_replicas [] d) by (by destruct d).
    rewrite Ed. split_and!; [done| |by apply moved_same; [apply Hb|..]].
    apply (pins_same false d); [done..|]. intros p. unfold expected, is_replicated. cbn -[b2z Z.eqb].
    rewrite Er. pin_split p; done. }
  destruct (put_ok _ PIN_REPLICATED d i Hb Hp) as (ps & i' & -> & Hps & Hm); [is_pin| |].
  { unfold expected, is_replicated. cbn -[b2z Z.eqb]. rewrite Er. done. }
  obind. exists ps, i'. split_and!; [done| |exact Hm]. eapply pins_are_ext; [|exact Hps].
  intros p. unfold bump, expected, is_replicated. cbn -[b2z Z.eqb]. rewrite Er. pin_split p; done.
Qed.

Lemma mark_clean_ok d i :
  backed d i -> pins_ok false d ->
  exists ps i', let d' := set_pins ps (set_state (clean_state (state d)) d) in
    (if is_dirty d then mark_clean d i else Some (d, i)) = Some (d', i') /\
    pins_ok false d' /\ moved d i d' i'.
Proof.
  intros Hb Hp. unfold mark_clean, is_dirty, clean_state.
  assert (Et : state_test d STATE_DIRTY = Z.testbit (state d) 29) by (unfold STATE_DIRTY; by apply state_test_bit).
  rewrite Et. destruct (Z.testbit (state d) 29) eqn:E.
  2: { exists (pins d), i. cbn zeta. assert (Ed : set_pins (pins d) (set_state (state d) d) = d) by (by destruct d).
       rewrite Ed. split_and!; [done..|apply moved_refl, Hb]. }
  set (d1 := state_clear STATE_DIRTY d).
  assert (Eb : forall k, 0 <= k -> state_test d1 (2 ^ k) = state_test d (2 ^ k) && negb (29 =? k)).
  { intros k Hk. unfold d1. flags. done. }
  assert (El : is_auth d1 = is_auth d /\ is_frozen_dir d1 = is_frozen_dir d).
  { split; unfold is_auth, is_frozen_dir, STATE_AUTH, STATE_FROZENDIR; rewrite Eb by lia;
      cbn -[state_test]; by rewrite andb_true_r. }
  destruct El as [Ea Ef].
  assert (Hm : moved d i d1 i).
  { apply moved_same; [apply Hb|done..|]. unfold fl. by rewrite Ea, Ef. }
  destruct (put_step false d d1 PIN_DIRTY i) as (ps & i' & -> & Hok & Hm').
  { by eapply moved_backed. } { done. } { done. } { is_pin. } { unfold expected. cbn -[state_test]. by rewrite Et. }
  { intros p. unfold bump, expected, is_frozen_dir.
    unfold STATE_IMPORTBOUND, STATE_EXPORTBOUND, STATE_STICKY, STATE_DIRTY, STATE_FROZENDIR in *.
    rewrite !Eb, Et by lia. cbn -[b2z Z.eqb state_test]. rewrite !andb_true_r. pin_split p; done. }
  exists ps, i'. split_and!; [reflexivity|exact Hok|exact (moved_trans _ _ _ _ _ _ Hm Hm')].
Qed.

Lemma sum_sticky d : sum_pins (sticky_only d) = b2z (state_test d STATE_STICKY).
Proof. unfold sum_pins, sticky_only. cbn -[b2z state_test]. pin_cases. cbn -[b2z state_test]. lia. Qed.

Lemma finish_rest_ok ws d i :
  backed d i -> pins_ok false d -> drained d ->
  exists ps i', let d' := set_pins ps (set_state (clean_state (state d)) (set_replicas [] d)) in
    finish_rest ws d i = Some (d', i', ws) /\ pins_are (sticky_only d) ps /\ moved d i d' i'.
Proof.
  intros Hb Hp [Hi Hw (Ha & _) Hf Hr]. unfold finish_rest.
  destruct (clear_replicas_ok d i Hb Hp Hr) as (p1 & i1 & -> & H1 & M1). obind. cbn zeta in *.
  set (d1 := set_replicas [] (set_pins p1 d)) in *. pose proof (moved_backed _ _ _ _ Hb M1) as B1.
  destruct (mark_clean_ok d1 i1 B1 H1) as (p2 & i2 & -> & H2 & M2). obind. cbn zeta in *.
  set (d2 := set_pins p2 _) in *. pose proof (moved_backed _ _ _ _ B1 M2) as B2.
  assert (Eb : forall k, 0 <= k -> state_test d2 (2 ^ k) = state_test d (2 ^ k) && negb (29 =? k)).
  { intros k Hk. rewrite !state_test_bit by done. by apply clean_bit. }
  destruct (put_if_ok _ (state_test d2 STATE_IMPORTBOUND) PIN_IMPORTBOUND d2 i2 B2 H2)
    as (p3 & i3 & -> & H3 & M3); [is_pin|unfold expected; cbn -[state_test]; by intros ->|]. obind.
  pose proof (moved_backed _ _ _ _ B2 M3) as B3.
  destruct (put_if_ok _ (state_test d2 STATE_EXPORTBOUND) PIN_EXPORTBOUND (set_pins p3 d2) i3 B3 H3)
    as (p4 & i4 & E4 & H4 & M4); [is_pin|unfold bump, expected; cbn -[state_test]; by intros ->|].
  pose proof (moved_backed _ _ _ _ B3 M4) as B4.
  destruct (put_if_ok _ (is_subtree_root d2) PIN_SUBTREE (set_pins p4 d2) i4 B4 H4)
    as (p5 & i5 & E5 & H5 & M5); [is_pin|unfold bump, expected; cbn -[is_subtree_root]; by intros ->|].
  change (state_test (set_pins p3 d2) STATE_EXPORTBOUND) with (state_test d2 STATE_EXPORTBOUND). rewrite E4.
  obind. change (set_pins p4 (set_pins p3 d2)) with (set_pins p4 d2).
  change (is_subtree_root (set_pins p4 d2)) with (is_subtree_root d2). rewrite E5. obind.
  change (set_pins p5 (set_pins p4 d2)) with (set_pins p5 d2).
  change (pinned (set_pins p5 d2)) with (pinned d). rewrite Ha. cbn [put_if Z.ltb Z.compare]. obind.
  assert (Hs : pins_are (sticky_only d) p5).
  { eapply pins_are_ext; [|exact H5]. intros p. unfold bump, expected, sticky_only, is_frozen_dir in *.
    change (items (holds d2)) with (items (holds d)). change (waits_ d2) with (waits_ d).
    change (pinned d2) with (pinned d). change (is_replicated d2) with false.
    unfold STATE_IMPORTBOUND, STATE_EXPORTBOUND, STATE_STICKY, STATE_DIRTY, STATE_FROZENDIR in *.
    rewrite !Eb, Hi, Hw, Ha, Hf by lia. cbn -[b2z Z.eqb state_test is_subtree_root].
    rewrite !andb_true_r, !andb_false_r. pin_split p; try done; lia. }
  change (pins (set_pins p5 d2)) with p5. rewrite (pa_ref _ _ Hs), sum_sticky.
  change (state_test (set_pins p5 d2) STATE_STICKY) with (state_test d2 (2 ^ 15)). rewrite Eb by lia.
  cbn [negb Z.eqb]. rewrite andb_true_r. unfold STATE_STICKY, b2z. rewrite Z.eqb_refl.
  exists p5, i5. split_and!; [reflexivity|done|].
  exact (moved_trans _ _ _ _ _ _ M1 (moved_trans _ _ _ _ _ _ M2 (moved_trans _ _ _ _ _ _ M3
           (moved_trans _ _ _ _ _ _ M4 M5)))).
Qed.

(** Every waiter waits for something. *)
Definition waiters_ok d : Prop := Forall (fun x => 0 < w_mask x < 2 ^ 64) (waiting (waits_ d)).

Lemma waits_for_any x : 0 < w_mask x < 2 ^ 64 -> waits_for WAIT_ANY_MASK x = true.
Proof.
  intros Hx. unfold waits_for, WAIT_ANY_MASK. change (u64 (-1)) with (Z.ones 64).
  rewrite Z.land_ones, Z.mod_small by lia. by rewrite (proj2 (Z.eqb_neq _ _)) by lia.
Qed.

Lemma left_any l : Forall (fun x => 0 < w_mask x < 2 ^ 64) l -> left_waiting WAIT_ANY_MASK l = [].
Proof.
  intros Hl. unfold left_waiting. induction Hl as [|x l Hx _ IH]; [done|]. cbn [List.filter].
  rewrite waits_for_any by done. done.
Qed.

(** What [finish_old_fragment] leaves of a fragment. *)
Definition thawed_state (replay : bool) d : Z :=
  if live replay d then Z.ldiff (state d) STATE_FROZENDIR else state d.
Definition corpse (replay : bool) d : cdir :=
  let c := holds d in
  set_state (clean_state (thawed_state replay d)) (set_replicas []
    (set_holds (MkContent [] 0 0 0 0 (num_dirty c) (dirty_dentries c) (dirty_rstat_inodes c))
      (set_waits (MkWaits [] []) (set_pinned (MkAuths 0 0 0) d)))).

(** A fragment whose dentries are gone, pinned as [prepare_old_fragment] does. *)
Record emptied (replay : bool) d : Prop := {
  em_items : items (holds d) = [];
  em_dnwait : waiting_on_dentry (waits_ d) = [];
  em_auths : pinned d = MkAuths (b2z (live replay d)) 0 0;
  em_frozen : is_frozen_dir d = live replay d;
  em_calm : calm d;
  em_waiters : waiters_ok d;
  em_replay : replay = true -> waiting (waits_ d) = [];
  em_replicas : is_auth d = false -> replicas d = []
}.

(** The contexts it hands on. *)
Definition woken (replay : bool) (ws : list context) d : list context :=
  if replay then ws else ws ++ taken WAIT_ANY_MASK (waiting (waits_ d)).

(** The first part of [finish_old_fragment]. *)
Lemma finish_front_ok ws replay d i :
  backed d i -> pins_ok false d -> emptied replay d ->
  exists ps i', let d' := set_state (thawed_state replay d) (set_waits (MkWaits [] [])
                                (set_pinned (MkAuths 0 0 0) (set_pins ps d))) in
    (if negb replay then
       '(d, i, ws) ← take_waiting WAIT_ANY_MASK ws d i;
       '(d, i) ← (if is_auth d then
           '(d, i) ← auth_unpin d i;
           assert! is_frozen_dir d;
           unfreeze_dir d i
         else Some (d, i));
       Some (d, i, ws)
     else Some (d, i, ws)) = Some (d', i', woken replay ws d) /\ pins_ok false d' /\ moved d i d' i'.
Proof.
  intros Hb Hp [Hi Hdw Ha Hf Hc Hwt Hre Hr]. unfold thawed_state in *. destruct replay; cbn [negb].
  { exists (pins d), i. cbn [live negb andb] in *. cbn zeta.
    assert (Ed : set_state (state d) (set_waits (MkWaits [] []) (set_pinned (MkAuths 0 0 0) (set_pins (pins d) d))) = d).
    { specialize (Hre eq_refl). destruct d as [???? a ????? [x y] ???]. cbn in *. by subst. }
    rewrite Ed. split_and!; [done..|apply moved_refl, Hb]. }
  clear Hre. destruct (take_ok false WAIT_ANY_MASK ws d i Hb Hp) as (p1 & i1 & -> & H1 & M1). obind.
  rewrite (left_any _ Hwt) in *. rewrite Hdw. change (ws ++ taken_on_dentry WAIT_ANY_MASK [] ++ taken WAIT_ANY_MASK (waiting (waits_ d)))
    with (woken false ws d). assert (Em : rest_on_dentry WAIT_ANY_MASK [] = []) by done.
  rewrite Em in *. cbn zeta in *. clear Em. set (d1 := set_waits _ _) in *.
  change (is_auth d1) with (is_auth d). unfold live in *. cbn [negb andb] in *.
  destruct (is_auth d) eqn:Ea; cbn [b2z] in Ha.
  2: { obind. exists p1, i1. cbn zeta.
       assert (Ed : set_state (state d) (set_waits (MkWaits [] []) (set_pinned (MkAuths 0 0 0) (set_pins p1 d))) = d1).
       { unfold d1. destruct d as [???? a ?????????]. cbn in *. by subst. }
       rewrite Ed. done. }
  pose proof (moved_backed _ _ _ _ Hb M1) as B1.
  destruct (auth_unpin_ok false d1 i1 B1 H1) as (p2 & i2 & -> & H2 & M2).
  { exact Hc. } { change (pinned d1) with (pinned d). rewrite Ha. cbn. lia. }
  { change (pinned d1) with (pinned d). rewrite Ha. cbn. lia. }
  obind. change (pinned d1) with (pinned d) in *. rewrite Ha in *. cbn [auth_pins nested_auth_pins dir_auth_pins] in *.
  cbn zeta in *. change (1 - 1) with 0 in *. set (d2 := set_pinned _ _) in *.
  change (is_frozen_dir d2) with (is_frozen_dir d). rewrite Hf.
  pose proof (moved_backed _ _ _ _ B1 M2) as B2.
  destruct (unfreeze_dir_ok false d2 i2 B2 H2) as (p3 & i3 & -> & H3 & M3); [done|]. obind.
  exists p3, i3. split_and!; [reflexivity|exact H3|].
  exact (moved_trans _ _ _ _ _ _ M1 (moved_trans _ _ _ _ _ _ M2 M3)).
Qed.

Lemma finish_old_ok ws replay d i :
  backed d i -> pins_ok false d -> emptied replay d ->
  exists ps i', finish_old_fragment ws replay d i =
      Some (set_pins ps (corpse replay d), i', woken replay ws d) /\
    pins_are (sticky_only d) ps /\ moved d i (set_pins ps (corpse replay d)) i'.
Proof.
  intros Hb Hp He. unfold finish_old_fragment.
  destruct (finish_front_ok ws replay d i Hb Hp He) as (p1 & i1 & -> & H1 & M1). obind. cbn zeta in *.
  destruct He as [Hi Hdw Ha Hf Hc Hwt Hre Hr]. set (d1 := set_state _ _) in *.
  change (pinned d1) with (MkAuths 0 0 0). cbn [nested_auth_pins dir_auth_pins auth_pins Z.eqb andb].
  set (d2 := set_holds _ d1).
  assert (Hok2 : pins_ok false d2) by (by apply (pins_same false d1)).
  assert (M2 : moved d1 i1 d2 i1) by (by apply moved_same; [apply (im_ok _ _ _ _ _ M1)|..]).
  assert (Eb : forall k, 0 <= k -> Z.testbit (thawed_state replay d) k =
    Z.testbit (state d) k && negb (live replay d && (4 =? k))).
  { intros k Hk. unfold thawed_state, STATE_FROZENDIR. destruct (live replay d); cbn [andb negb].
    - by apply bit_clear. - by rewrite andb_true_r. }
  assert (Ht : forall k, 0 <= k -> state_test d2 (2 ^ k) =
    state_test d (2 ^ k) && negb (live replay d && (4 =? k))).
  { intros k Hk. rewrite !state_test_bit by done. by apply Eb. }
  assert (Hd2 : drained d2).
  { split; try done.
    - unfold is_frozen_dir in *. change STATE_FROZENDIR with (2 ^ 4) in *. rewrite Ht, Hf by lia.
      by destruct (live replay d).
    - unfold is_auth in *. change STATE_AUTH with (2 ^ 30) in *. rewrite Ht by lia. cbn [Z.eqb].
      rewrite andb_false_r, andb_true_r. exact Hr. }
  pose proof (moved_backed _ _ _ _ Hb (moved_trans _ _ _ _ _ _ M1 M2)) as B2.
  destruct (finish_rest_ok (woken replay ws d) d2 i1 B2 Hok2 Hd2) as (p3 & i3 & E3 & H3 & M3). unfold finish_rest in E3.
  rewrite E3. exists p3, i3. split_and!.
  - by unfold corpse, d2, d1; cbn; rewrite Hi.
  - eapply pins_are_ext; [|exact H3]. intros p. unfold sticky_only. change STATE_STICKY with (2 ^ 15).
    rewrite Ht by lia. cbn [Z.eqb]. by rewrite andb_false_r, andb_true_r.
  - pose proof (moved_trans _ _ _ _ _ _ M1 (moved_trans _ _ _ _ _ _ M2 M3)) as M. cbn zeta in M.
    unfold corpse. unfold d2, d1 in M. cbn in M. rewrite Hi in M. exact M.
Qed.

End ops.

End CacheDirFacts.
