(* ===== verification/DirSplit.v ===== *)
(** * Splitting and merging fragments

    [CDir::split] and [CDir::merge] carried out on well-formed fragments fail
    no assertion; every dentry ends in the one fragment that its hash is in;
    the pins, the counts and the statistics stay right. *)

From S2P Require Import Prelude Encoding Frag FragTree Double Load StrHash CacheDir CacheDirFacts.
Import Encoding.

Module DirSplit.
Import Frag FragTree FragFacts FragTreeFacts StrHash CacheDir CacheDirFacts.

(** ** The order of dentries *)

Lemma name_compare_refl x : name_compare x x = Eq.
Proof. induction x as [|a x IH]; [done|]. cbn. by rewrite Z.compare_refl. Qed.

Lemma dn_lt_irrefl dn : dn_lt dn dn = false.
Proof. unfold dn_lt. rewrite Z.sub_diag. cbn. rewrite name_compare_refl. lia. Qed.

(** Keys that differ. *)
Definition differ (x y : dentry) : bool := dn_lt x y || dn_lt y x.

Lemma differ_sym x y : differ x y = differ y x.
Proof. apply orb_comm. Qed.

Fixpoint distinct (l : list dentry) : Prop :=
  match l with
  | [] => True
  | x :: l => Forall (fun y => differ x y = true) l /\ distinct l
  end.

Lemma items_erase_head dn l : distinct (dn :: l) -> items_erase (dn :: l) dn = l.
Proof.
  intros [Hd _]. unfold items_erase. cbn [List.filter]. rewrite dn_lt_irrefl. cbn [orb].
  induction Hd as [|x l Hx _ IH]; [done|]. cbn [List.filter].
  rewrite differ_sym in Hx. unfold differ in Hx. by rewrite Hx, IH.
Qed.

Lemma items_set_perm l dn :
  Forall (fun x => differ x dn = true) l -> items_set l dn ≡ₚ dn :: l.
Proof.
  intros Hl. induction Hl as [|x l Hx _ IH]; [done|]. cbn. unfold differ in Hx.
  destruct (dn_lt x dn); [by rewrite IH, Permutation_swap|]. cbn in Hx. by rewrite Hx.
Qed.

Lemma distinct_perm l l' : l ≡ₚ l' -> distinct l -> distinct l'.
Proof.
  induction 1 as [|x l l' Hp IH|x y l|l1 l2 l3 _ IH1 _ IH2]; [done|..]; cbn.
  - intros [Hx Hd]. split; [by rewrite <- Hp|auto].
  - intros [[Hxy Hy]%Forall_cons [Hx Hd]]. rewrite differ_sym in Hxy. split; [by constructor|done].
  - auto.
Qed.

(** ** Dentries *)

Definition ap (dn : dentry) : Z := dn_auth_pins dn + dn_nested_auth_pins dn.
Definition dap (dn : dentry) : Z :=
  match linkage dn with Primary i => dn_auth_pins dn + c_auth_pins i | _ => dn_auth_pins dn end.

Definition total {A} (f : A -> Z) (l : list A) : Z := foldr (fun x n => f x + n) 0 l.

Lemma total_cons {A} (f : A -> Z) x l : total f (x :: l) = f x + total f l.
Proof. done. Qed.

Lemma total_over_app {A} (f : A -> Z) l l' : total f (l ++ l') = total f l + total f l'.
Proof. induction l as [|x l IH]; [done|]. cbn [app]. rewrite !total_cons, IH. lia. Qed.

Lemma total_perm {A} (f : A -> Z) l l' : l ≡ₚ l' -> total f l = total f l'.
Proof. unfold total. induction 1; cbn in *; lia. Qed.

Lemma total_over_nonneg {A} (f : A -> Z) l : Forall (fun x => 0 <= f x) l -> 0 <= total f l.
Proof. unfold total. induction 1; cbn in *; lia. Qed.

(** Auth pins of a dentry: those below it that pin the directory are some. *)
Record dn_ok (dn : dentry) : Prop := {
  dn_own : 0 <= dn_auth_pins dn;
  dn_below : 0 <= dn_nested_auth_pins dn;
  dn_dir : 0 <= dap dn <= ap dn;
  dn_settled : 0 < ap dn -> dn_is_projected dn = false
}.

(** The four kinds of entry. *)
Definition headed (dn : dentry) : bool := last dn =? CEPH_NOSNAP.
Definition head_item (dn : dentry) : Z := b2z (headed dn && negb (is_null (linkage dn))).
Definition head_null (dn : dentry) : Z := b2z (headed dn && is_null (linkage dn)).
Definition snap_item (dn : dentry) : Z := b2z (negb (headed dn) && negb (is_null (linkage dn))).
Definition snap_null (dn : dentry) : Z := b2z (negb (headed dn) && is_null (linkage dn)).
Definition dirty_one (dn : dentry) : Z := b2z (dn_dirty dn).

Lemma kinds dn : head_item dn + head_null dn + snap_item dn + snap_null dn = 1.
Proof. unfold head_item, head_null, snap_item, snap_null. by destruct (headed dn), (is_null _). Qed.

(** The counts are those of the entries. *)
Record counted (c : content) : Prop := {
  co_head_items : num_head_items c = total head_item (items c);
  co_head_null : num_head_null c = total head_null (items c);
  co_snap_items : num_snap_items c = total snap_item (items c);
  co_snap_null : num_snap_null c = total snap_null (items c);
  co_dirty : num_dirty c = total dirty_one (items c)
}.

Lemma total_kinds l :
  total head_item l + total head_null l + total snap_item l + total snap_null l = Z.of_nat (length l).
Proof. induction l as [|dn l IH]; [done|]. cbn [total foldr length]. pose proof (kinds dn). unfold total in *. lia. Qed.

Section dir.
Context {D} `{Double D}.
Implicit Types d f : cdir (D := D).

Lemma counted_any d : counted (holds d) -> get_num_any d = Z.of_nat (length (items (holds d))).
Proof. intros []. unfold get_num_any. pose proof (total_kinds (items (holds d))). lia. Qed.

(** What a fragment holds. *)
Record content_ok d : Prop := {
  ct_distinct : distinct (items (holds d));
  ct_dentries : Forall dn_ok (items (holds d));
  ct_nested : nested_auth_pins (pinned d) = total ap (items (holds d));
  ct_dir : dir_auth_pins (pinned d) = total dap (items (holds d));
  ct_own : 0 <= auth_pins (pinned d)
}.

Lemma content_nested d : content_ok d -> 0 <= nested_auth_pins (pinned d) /\ 0 <= dir_auth_pins (pinned d).
Proof.
  intros [_ Hd Hn Hr _]. rewrite Hn, Hr. split; apply total_over_nonneg; (eapply Forall_impl; [exact Hd|]);
    intros dn []; unfold ap in *; lia.
Qed.

(** The content of a fragment that takes a dentry in. *)
Definition gain (dn : dentry) (c : content) : content :=
  let c := count_dentry dn (MkContent (items_set (items c) dn) (num_head_items c) (num_head_null c)
             (num_snap_items c) (num_snap_null c) (num_dirty c) (dirty_dentries c) (dirty_rstat_inodes c)) in
  if dn_dirty dn
  then MkContent (items c) (num_head_items c) (num_head_null c) (num_snap_items c) (num_snap_null c)
         (num_dirty c + 1) (dirty_dentries c ++ [dn_key dn]) (dirty_rstat_inodes c)
  else c.

Lemma gain_items dn c : items (gain dn c) = items_set (items c) dn.
Proof. unfold gain. by destruct (dn_dirty dn). Qed.

Lemma gain_counted dn c :
  Forall (fun x => differ x dn = true) (items c) -> counted c -> counted (gain dn c).
Proof.
  intros Hf []. pose proof (items_set_perm _ _ Hf) as Hp.
  split; rewrite gain_items, (total_perm _ _ _ Hp), total_cons;
    [rewrite <- co_head_items0|rewrite <- co_head_null0|rewrite <- co_snap_items0|
     rewrite <- co_snap_null0|rewrite <- co_dirty0]; unfold gain;
    unfold dirty_one, head_item, head_null, snap_item, snap_null, headed, b2z;
    destruct (dn_dirty dn); cbn; lia.
Qed.

(** [f] with the dentry and [old] without it. *)
Definition stolen (dn : dentry) f : cdir :=
  set_pinned (MkAuths (auth_pins (pinned f)) (nested_auth_pins (pinned f) + ap dn)
                (dir_auth_pins (pinned f) + dap dn))
    (set_fnode (account_dentry dn (fnode f)) (projected_version f) (set_holds (gain dn (holds f)) f)).
Definition robbed (dn : dentry) d : cdir :=
  set_pinned (MkAuths (auth_pins (pinned d)) (nested_auth_pins (pinned d) - ap dn)
                (dir_auth_pins (pinned d) - dap dn)) (set_holds (drop_dentry dn (holds d)) d).

Lemma stolen_content dn f :
  content_ok f -> dn_ok dn -> Forall (fun x => differ x dn = true) (items (holds f)) ->
  content_ok (stolen dn f).
Proof.
  intros [] Hdn Hf. pose proof (items_set_perm _ _ Hf) as Hp. unfold stolen.
  split; cbn [holds pinned set_pinned set_fnode set_holds auth_pins nested_auth_pins dir_auth_pins];
    rewrite ?gain_items; [..|done].
  - eapply distinct_perm; [symmetry; exact Hp|]. split; [|done]. eapply Forall_impl; [exact Hf|].
    intros x. by rewrite differ_sym.
  - rewrite Hp. by constructor.
  - rewrite (total_perm _ _ _ Hp). cbn. unfold total in *. lia.
  - rewrite (total_perm _ _ _ Hp). cbn. unfold total in *. lia.
Qed.

Lemma robbed_content dn l d :
  content_ok d -> items (holds d) = dn :: l ->
  content_ok (robbed dn d) /\ items (holds (robbed dn d)) = l.
Proof.
  intros [] E. rewrite E in *. assert (El : items (holds (robbed dn d)) = l).
  { cbn. rewrite E. by apply items_erase_head. }
  split; [|done]. apply Forall_cons in ct_dentries0 as [_ ?]. destruct ct_distinct0 as [_ ?].
  split; rewrite ?El; try done; cbn in *; unfold total in *; lia.
Qed.

(** ** Stealing a dentry *)

(** The inode's counts cover two fragments, and follow changes of both. *)
Record backed2 f d (i : inode) : Prop := {
  b2_ok : iok i;
  b2_ref : rl f + rl d <= ref_map (i_pins i) PIN_DIRFRAG;
  b2_nested : nl f + nl d <= i_nested_auth_pins i;
  b2_frozen : fl f + fl d <= i_auth_pins i
}.

Definition moved2 f d (i : inode) f' d' (i' : inode) : Prop :=
  imoves i i' (rl f' - rl f + (rl d' - rl d)) (nl f' - nl f + (nl d' - nl d)) (fl f' - fl f + (fl d' - fl d)).

Lemma moved2_trans f1 d1 i1 f2 d2 i2 f3 d3 i3 :
  moved2 f1 d1 i1 f2 d2 i2 -> moved2 f2 d2 i2 f3 d3 i3 -> moved2 f1 d1 i1 f3 d3 i3.
Proof. unfold moved2. intros. eapply imoves_trans; eauto; lia. Qed.

Lemma moved2_backed f d i f' d' i' : backed2 f d i -> moved2 f d i f' d' i' -> backed2 f' d' i'.
Proof. intros [] []. split; [done|lia..]. Qed.

Lemma moved2_l f d i f' i' : moved f i f' i' -> moved2 f d i f' d i'.
Proof. unfold moved, moved2. rewrite !Z.sub_diag, !Z.add_0_r. done. Qed.

Lemma moved2_r f d i d' i' : moved d i d' i' -> moved2 f d i f d' i'.
Proof. unfold moved, moved2. rewrite !Z.sub_diag, !Z.add_0_l. done. Qed.

Lemma loads_nonneg d : 0 <= rl d /\ 0 <= nl d /\ 0 <= fl d.
Proof. split_and!; apply b2z_range. Qed.

Lemma backed2_l f d i : backed2 f d i -> backed f i.
Proof. intros []. pose proof (loads_nonneg d). split; [done|lia..]. Qed.

Lemma backed2_r f d i : backed2 f d i -> backed d i.
Proof. intros []. pose proof (loads_nonneg f). split; [done|lia..]. Qed.

(** The pin of the old fragment's first dentry. *)
Lemma drop_ok dn l d i :
  backed d i -> pins_ok false d -> items (holds d) = dn :: l -> distinct (dn :: l) ->
  exists ps i', let d1 := set_holds (drop_dentry dn (holds d)) d in
    (match items (holds d1) with [] => put PIN_CHILD d1 i | _ :: _ => Some (d1, i) end) =
      Some (set_pins ps d1, i') /\
    pins_ok false (set_pins ps d1) /\ moved d i (set_pins ps d1) i'.
Proof.
  intros Hb Hp Ei Hd. cbn zeta. set (d1 := set_holds _ d).
  assert (E1 : items (holds d1) = l) by (cbn; rewrite Ei; by apply items_erase_head).
  assert (Hm : moved d i d1 i) by (by apply moved_same; [apply Hb|..]).
  rewrite E1. destruct l as [|x l].
  - destruct (put_step false d d1 PIN_CHILD i) as (ps & i' & -> & Hok & Hm').
    { by eapply moved_backed. } { done. } { done. } { is_pin. }
    { unfold expected. cbn -[items]. by rewrite Ei. }
    { intros p. unfold bump, expected. rewrite E1, Ei. cbn -[b2z Z.eqb items]. pin_split p; done. }
    exists ps, i'. split_and!; [done..|]. exact (moved_trans _ _ _ _ _ _ Hm Hm').
  - exists (pins d), i. split_and!; [done| |exact Hm].
    apply (pins_same false d); [done..|]. intros p. unfold expected. change (holds (set_pins (pins d) d1)) with (holds d1).
    rewrite E1, Ei. cbn -[b2z Z.eqb]. pin_split p; done.
Qed.

(** The pin of the new fragment's first dentry. *)
Lemma take_in_ok w c f i :
  backed f i -> pins_ok w f -> counted (holds f) -> some (items c) = true ->
  exists ps i', let f1 := set_holds c f in
    (if get_num_any f =? 0 then get PIN_CHILD f1 i else (f1, i)) = (set_pins ps f1, i') /\
    pins_ok w (set_pins ps f1) /\ moved f i (set_pins ps f1) i'.
Proof.
  intros Hb Hp Hc Hs. cbn zeta. set (f1 := set_holds c f). rewrite (counted_any _ Hc).
  assert (Hm : moved f i f1 i) by (by apply moved_same; [apply Hb|..]).
  destruct (items (holds f)) as [|x l] eqn:Ei.
  - destruct (get_step w f f1 PIN_CHILD i) as (ps & i' & E & Hok & Hm'); [apply Hb|done..|is_pin| |].
    { intros p. unfold bump, expected. rewrite Ei. change (items (holds f1)) with (items c). rewrite Hs.
      cbn -[b2z Z.eqb items]. pin_split p; done. }
    exists ps, i'. split_and!; [done..|exact (moved_trans _ _ _ _ _ _ Hm Hm')].
  - rewrite (proj2 (Z.eqb_neq _ _)) by (cbn; lia). exists (pins f), i. split_and!; [done| |exact Hm].
    apply (pins_same w f); [done..|]. intros p. unfold expected. rewrite Ei.
    change (items (holds (set_pins (pins f) f1))) with (items c). rewrite Hs. done.
Qed.

Lemma auths_same d : set_pinned (MkAuths (auth_pins (pinned d)) (nested_auth_pins (pinned d) + 0)
  (dir_auth_pins (pinned d) + 0)) d = d.
Proof. rewrite !Z.add_0_r. by destruct d as [???? [] ?????????]. Qed.

(** The auth pins of the dentry go with it. *)
Lemma move_pins_ok w dn f d i :
  backed2 f d i -> pins_ok w f -> pins_ok false d -> calm f -> calm d -> dn_ok dn ->
  0 <= auth_pins (pinned f) -> 0 <= auth_pins (pinned d) ->
  0 <= nested_auth_pins (pinned f) -> 0 <= dir_auth_pins (pinned f) ->
  ap dn <= nested_auth_pins (pinned d) -> dap dn <= dir_auth_pins (pinned d) ->
  exists i',
    let f' := set_pinned (MkAuths (auth_pins (pinned f)) (nested_auth_pins (pinned f) + ap dn)
                (dir_auth_pins (pinned f) + dap dn)) f in
    let d' := set_pinned (MkAuths (auth_pins (pinned d)) (nested_auth_pins (pinned d) + - ap dn)
                (dir_auth_pins (pinned d) + - dap dn)) d in
    (if negb (dn_auth_pins dn =? 0) || negb (dn_nested_auth_pins dn =? 0) then
      let a := dn_auth_pins dn + dn_nested_auth_pins dn in
      dap ← get_num_dir_auth_pins dn;
      assert! dap <=? a;
      '(f, i) ← adjust_nested_auth_pins a dap f i;
      '(old, i) ← adjust_nested_auth_pins (- a) (- dap) d i;
      Some (f, old, i)
     else Some (f, d, i)) = Some (f', d', i') /\
    pins_ok w f' /\ pins_ok false d' /\ moved2 f d i f' d' i'.
Proof.
  intros Hb Hf Hd Cf Cd [Ho Hn Hl Hs] Af Ad Nf Df Nd Dd. cbn zeta. fold (ap dn).
  assert (Eb : negb (dn_auth_pins dn =? 0) || negb (dn_nested_auth_pins dn =? 0) = (0 <? ap dn)).
  { unfold ap. zcase. }
  rewrite Eb. destruct (Z.ltb_spec 0 (ap dn)) as [Hap|Hap].
  2: { assert (ap dn = 0 /\ dap dn = 0) as [-> ->] by (unfold ap in *; lia).
       exists i. change (- 0) with 0. rewrite !auths_same. split_and!; [done..|].
       unfold moved2. rewrite !Z.sub_diag. apply imoves_refl, Hb. }
  unfold get_num_dir_auth_pins. rewrite Hs by done. cbn [negb]. fold (dap dn). obind.
  rewrite (proj2 (Z.leb_le _ _)) by lia.
  destruct (adjust_nested_ok w (ap dn) (dap dn) f i (backed2_l _ _ _ Hb) Hf Cf)
    as (i1 & -> & Hok1 & Hm1); [lia..|]. obind. cbn zeta in *.
  pose proof (moved2_l f d i _ i1 Hm1) as M1. pose proof (moved2_backed _ _ _ _ _ _ Hb M1) as B1.
  destruct (adjust_nested_ok false (- ap dn) (- dap dn) d i1 (backed2_r _ _ _ B1) Hd Cd)
    as (i2 & -> & Hok2 & Hm2); [lia..|]. obind. cbn zeta in *. exists i2. split_and!; [done..|].
  eapply moved2_trans; [exact M1|]. by apply moved2_r.
Qed.

Lemma steal_ok w f d i dn l :
  backed2 f d i -> pins_ok w f -> pins_ok false d -> calm f -> calm d ->
  content_ok f -> counted (holds f) -> content_ok d -> items (holds d) = dn :: l ->
  exists pf pd i',
    steal_dentry dn f d i = Some (set_pins pf (stolen dn f), set_pins pd (robbed dn d), i') /\
    pins_ok w (set_pins pf (stolen dn f)) /\ pins_ok false (set_pins pd (robbed dn d)) /\
    moved2 f d i (set_pins pf (stolen dn f)) (set_pins pd (robbed dn d)) i'.
Proof.
  intros Hb Hf Hd Cf Cd Kf Ff Kd Ei. pose proof (ct_distinct _ Kd) as Hdi. rewrite Ei in Hdi.
  pose proof (content_nested _ Kf) as [Nf Df]. unfold steal_dentry.
  destruct (drop_ok dn l d i (backed2_r _ _ _ Hb) Hd Ei Hdi) as (p1 & i1 & -> & Hok1 & Hm1). obind.
  set (d1 := set_pins p1 _) in *. pose proof (moved2_r f d i d1 i1 Hm1) as M1.
  pose proof (moved2_backed _ _ _ _ _ _ Hb M1) as B1. set (c1 := MkContent (items_set _ _) _ _ _ _ _ _ _).
  destruct (take_in_ok w c1 f i1 (backed2_l _ _ _ B1) Hf Ff) as (p2 & i2 & E2 & Hok2 & Hm2).
  { cbn. destruct (items (holds f)) as [|x m]; [done|]. cbn. destruct (dn_lt x dn); [done|]. by destruct (dn_lt dn x). }
  cbn zeta in E2. change (get_num_any (set_holds c1 f)) with (get_num_any f). rewrite E2. cbn zeta in Hok2, Hm2.
  pose proof (moved2_l f d1 i1 _ i2 Hm2) as M2. pose proof (moved2_backed _ _ _ _ _ _ B1 M2) as B2.
  set (f2 := set_fnode _ _ _).
  assert (Hf2 : pins_ok w f2) by (apply (pins_same w (set_pins p2 (set_holds c1 f))); done).
  assert (Hdn : dn_ok dn) by (pose proof (ct_dentries _ Kd) as Hk; rewrite Ei in Hk; by apply Forall_cons in Hk as [? _]).
  assert (Hnd : ap dn <= nested_auth_pins (pinned d) /\ dap dn <= dir_auth_pins (pinned d)).
  { rewrite (ct_nested _ Kd), (ct_dir _ Kd), Ei, !total_cons. pose proof (ct_dentries _ Kd) as Hk. rewrite Ei in Hk.
    apply Forall_cons in Hk as [_ Hk].
    assert (0 <= total ap l /\ 0 <= total dap l); [|lia].
    split; apply total_over_nonneg; (eapply Forall_impl; [exact Hk|]); intros x []; unfold ap in *; lia. }
  destruct (move_pins_ok w dn f2 d1 i2) as (i3 & E3 & Hok3 & Hok4 & Hm3); try done.
  { destruct B2. by split. } { apply (ct_own _ Kf). } { apply (ct_own _ Kd). } { apply Hnd. } { apply Hnd. }
  cbn zeta in *. rewrite E3. obind. exists p2, p1, i3.
  assert (M : moved2 f d i (set_pins p2 (stolen dn f)) (set_pins p1 (robbed dn d)) i3).
  { eapply moved2_trans; [exact M1|]. eapply moved2_trans; [exact M2|]. exact Hm3. }
  split_and!; [|..|exact M].
  - unfold stolen, robbed, gain. by destruct (dn_dirty dn).
  - eapply (pins_same w _ _ Hok3); [done|]. intros p. unfold expected, stolen. cbn -[b2z Z.eqb items gain].
    rewrite gain_items. done.
  - exact Hok4.
Qed.

(** ** The fragments of a directory *)

Implicit Types s : diri (D := D).

Definition loads (g : cdir (D := D) -> Z) (l : list (Z * cdir)) : Z := total (fun p => g p.2) l.

Lemma loads_set g lo l fg d :
  keys_from lo l ->
  loads g (map_set l fg d) = loads g l - match map_find l fg with Some d0 => g d0 | None => 0 end + g d.
Proof.
  intros Hk. destruct (map_set_find lo l fg d Hk) as (l1 & l2 & o & -> & -> & Ho). unfold loads.
  rewrite !total_over_app, total_cons. destruct (map_find _ _); subst o; rewrite ?total_cons; cbn; lia.
Qed.

Lemma loads_erase g lo l fg :
  keys_from lo l ->
  loads g (map_erase l fg) = loads g l - match map_find l fg with Some d0 => g d0 | None => 0 end.
Proof.
  unfold loads, total, map_erase. revert lo. induction l as [|[k d0] l IH]; intros lo; cbn; [done|].
  intros [? Hk]. specialize (IH _ Hk). destruct (Z.eqb_spec k fg) as [->|]; cbn [negb]; [|cbn; lia].
  rewrite IH, (map_find_below (fg + 1)) by (done || lia). cbn. lia.
Qed.

Lemma loads_ge g lo l fg d :
  keys_from lo l -> (forall d, 0 <= g d) -> map_find l fg = Some d -> g d <= loads g l.
Proof.
  intros Hk H0 Hf. pose proof (loads_erase g lo l fg Hk) as E. rewrite Hf in E.
  assert (0 <= loads g (map_erase l fg)); [|lia].
  apply total_over_nonneg, Forall_forall. intros x _. apply H0.
Qed.

Lemma loads_ge2 g lo l x y d f :
  keys_from lo l -> (forall d, 0 <= g d) -> x <> y -> map_find l x = Some d -> map_find l y = Some f ->
  g f + g d <= loads g l.
Proof.
  intros Hk H0 Hne Hx Hy. pose proof (loads_erase g lo l x Hk) as E. rewrite Hx in E.
  assert (g f <= loads g (map_erase l x)); [|lia].
  apply (loads_ge g lo _ y); [by apply map_erase_keys|done|].
  rewrite map_find_erase_any, (proj2 (Z.eqb_neq _ _)) by done. done.
Qed.

(** The inode counts its fragments; [k] of its auth pins are not theirs. *)
Record sok (k : Z) s : Prop := {
  so_keys : keys_from 0 (dirfrags s);
  so_frag : forall fg d, get_dirfrag fg s = Some d -> dfrag d = fg;
  so_ok : iok (ino s);
  so_k : 0 <= k;
  so_ref : ref_map (i_pins (ino s)) PIN_DIRFRAG = loads rl (dirfrags s);
  so_nested : i_nested_auth_pins (ino s) = loads nl (dirfrags s);
  so_auth : i_auth_pins (ino s) = k + loads fl (dirfrags s)
}.

Lemma rl_nonneg d : 0 <= rl d. Proof. apply loads_nonneg. Qed.
Lemma nl_nonneg d : 0 <= nl d. Proof. apply loads_nonneg. Qed.
Lemma fl_nonneg d : 0 <= fl d. Proof. apply loads_nonneg. Qed.

Lemma sok_backed k s fg d : sok k s -> get_dirfrag fg s = Some d -> backed d (ino s).
Proof.
  intros [] Hd. split; [done|..].
  - rewrite so_ref0. eapply loads_ge; eauto using rl_nonneg.
  - rewrite so_nested0. eapply loads_ge; eauto using nl_nonneg.
  - rewrite so_auth0. pose proof (loads_ge fl 0 _ fg d so_keys0 fl_nonneg Hd). lia.
Qed.

Lemma sok_backed2 k s x y d f :
  sok k s -> x <> y -> get_dirfrag x s = Some d -> get_dirfrag y s = Some f -> backed2 f d (ino s).
Proof.
  intros [] Hne Hx Hy. split; [done|..].
  - rewrite so_ref0. eapply loads_ge2; eauto using rl_nonneg.
  - rewrite so_nested0. eapply loads_ge2; eauto using nl_nonneg.
  - rewrite so_auth0. pose proof (loads_ge2 fl 0 _ x y d f so_keys0 fl_nonneg Hne Hx Hy). lia.
Qed.

Lemma get_store fg d i s : get_dirfrag fg (store d i s) = if fg =? dfrag d then Some d else get_dirfrag fg s.
Proof. unfold get_dirfrag. cbn. apply map_find_set_any. Qed.

(** A fragment is put in the map; [x] is what it counted for before. *)
Lemma sok_set k s d i x y z :
  sok k s -> 0 <= dfrag d -> imoves (ino s) i (rl d - x) (nl d - y) (fl d - z) ->
  x = match get_dirfrag (dfrag d) s with Some d0 => rl d0 | None => 0 end ->
  y = match get_dirfrag (dfrag d) s with Some d0 => nl d0 | None => 0 end ->
  z = match get_dirfrag (dfrag d) s with Some d0 => fl d0 | None => 0 end ->
  sok k (store d i s).
Proof.
  intros [] H0 [] -> -> ->. split; cbn [ino dirfrags store]; try done.
  - by apply map_set_keys.
  - intros fg d'. rewrite get_store. destruct (Z.eqb_spec fg (dfrag d)); [by intros [= <-]|apply so_frag0].
  - rewrite im_dirfrag0, so_ref0, (loads_set _ 0) by done. unfold get_dirfrag. lia.
  - rewrite im_nested0, so_nested0, (loads_set _ 0) by done. unfold get_dirfrag. lia.
  - rewrite im_auth0, so_auth0, (loads_set _ 0) by done. unfold get_dirfrag. lia.
Qed.

Lemma map_find_pos {V} lo (l : list (Z * V)) k v : keys_from lo l -> map_find l k = Some v -> lo <= k.
Proof.
  intros Hk Hf. destruct (Z.le_gt_cases lo k) as [|Hlt]; [done|].
  by rewrite (map_find_below lo) in Hf.
Qed.

(** One operation on a fragment, and one on two. *)
Lemma sok_store k s fg d d' i' :
  sok k s -> get_dirfrag fg s = Some d -> dfrag d' = fg -> moved d (ino s) d' i' -> sok k (store d' i' s).
Proof.
  intros Hs Hd <- Hm. eapply (sok_set k s d' i' (rl d) (nl d) (fl d)); rewrite ?Hd; try done.
  eapply map_find_pos; [apply Hs|exact Hd].
Qed.

Lemma sok_store2 k s x y d f d' f' i' :
  sok k s -> x <> y -> get_dirfrag x s = Some d -> get_dirfrag y s = Some f ->
  dfrag d' = x -> dfrag f' = y -> moved2 f d (ino s) f' d' i' -> sok k (store d' i' (store f' i' s)).
Proof.
  intros [] Hne Hx Hy Ed Ef []. unfold get_dirfrag in *.
  assert (Hk : keys_from 0 (map_set (dirfrags s) y f')).
  { apply map_set_keys; [done|]. eapply map_find_pos; [|exact Hy]. done. }
  assert (Hl : forall g, loads g (map_set (map_set (dirfrags s) y f') x d') =
    loads g (dirfrags s) - g f + g f' - g d + g d').
  { intros g. rewrite (loads_set _ 0), map_find_set_any, (proj2 (Z.eqb_neq _ _)), Hx by done.
    rewrite (loads_set _ 0), Hy by done. lia. }
  split; cbn [ino dirfrags store]; rewrite ?Ed, ?Ef, ?Hl; try done; try lia.
  - apply map_set_keys; [done|]. eapply map_find_pos; [|exact Hx]. done.
  - intros fg e. unfold get_dirfrag. cbn. rewrite Ed, Ef, !map_find_set_any.
    destruct (Z.eqb_spec fg x); [intros [= <-]; congruence|].
    destruct (Z.eqb_spec fg y); [intros [= <-]; congruence|]. apply so_frag0.
Qed.

(** ** New fragments *)

Lemma export_pin_moves update (l : list (Z * cdir (D := D))) i :
  iok i -> imoves i (maybe_export_pin update l i) 0 0 0.
Proof.
  intros Hi. unfold maybe_export_pin.
  destruct (negb _); [by apply imoves_refl|]. destruct (_ && _); [by apply imoves_refl|].
  destruct (queued_export_pin i); [by apply imoves_refl|]. destruct (existsb _ _); [|by apply imoves_refl].
  split; cbn; try done; try lia. destruct Hi. by split.
Qed.

Lemma inc_zero i : inc_density (MkDensity 0 0 0) i = i.
Proof.
  unfold inc_density, set_above. destruct i as [?????? ? l ?]. cbn. f_equal.
  induction l as [|[a b c] l IH]; [done|]. cbn. by rewrite IH, !Z.add_0_r.
Qed.

Definition stick (r : Z) (st : Z) : Z := if 0 <? r then Z.lor st STATE_STICKY else st.

Lemma stick_bit r st k :
  0 <= k -> Z.testbit (stick r st) k = Z.testbit st k || ((0 <? r) && (15 =? k)).
Proof.
  intros Hk. unfold stick, STATE_STICKY. destruct (0 <? r); cbn [andb]; [by apply bit_set|by rewrite orb_false_r].
Qed.

(** A change of state bits that are not counted. *)
Lemma state_loads st d :
  Z.testbit st 4 = Z.testbit (state d) 4 -> Z.testbit st 30 = Z.testbit (state d) 30 ->
  rl (set_state st d) = rl d /\ nl (set_state st d) = nl d /\ fl (set_state st d) = fl d.
Proof.
  intros E4 E30. split_and!; [done..|]. unfold fl, is_frozen_dir, is_auth, STATE_FROZENDIR, STATE_AUTH.
  rewrite !state_test_bit by lia. cbn [state set_state]. rewrite E4, E30. done.
Qed.

Lemma add_dirfrag_ok w k s f i :
  sok k s -> get_dirfrag (dfrag f) s = None -> 0 <= dfrag f ->
  imoves (ino s) i (rl f) (nl f) (fl f) -> pins_ok w f -> state_test f STATE_STICKY = false ->
  dens f = MkDensity 0 0 0 ->
  exists ps e i', let f' := set_dens (MkDensity 0 0 0) e (set_pins ps (set_state (stick (stickydir_ref s) (state f)) f)) in
    add_dirfrag f i s = Some (store f' i' s) /\ pins_ok w f' /\ sok k (store f' i' s) /\
    env i' = env (ino s) /\ above i' = above (ino s).
Proof.
  intros Hs Hn H0 Hm Hp Hst Hde. unfold add_dirfrag. rewrite bool_decide_eq_false_2 by (rewrite Hn; by intros []).
  cbn [negb]. set (q := if 0 <? stickydir_ref s then _ else _).
  set (f1 := set_state (stick (stickydir_ref s) (state f)) f).
  assert (El : rl f1 = rl f /\ nl f1 = nl f /\ fl f1 = fl f).
  { apply state_loads; rewrite stick_bit by lia; cbn; by rewrite andb_false_r, orb_false_r. }
  destruct El as (E1 & E2 & E3).
  assert (Hq : exists ps i1, q = (set_pins ps f1, i1) /\ pins_ok w (set_pins ps f1) /\ moved f i (set_pins ps f1) i1).
  { unfold q, f1, stick. destruct (0 <? stickydir_ref s) eqn:Es.
    - assert (Ht : forall j, 0 <= j -> state_test f1 (2 ^ j) = state_test f (2 ^ j) || (15 =? j)).
      { intros j Hj. rewrite !state_test_bit by done. unfold f1. cbn [state set_state].
        rewrite stick_bit by done. by rewrite Es. }
      destruct (get_step w f f1 PIN_STICKY i) as (ps & i1 & E & Hok & Hm1);
        [apply (im_ok _ _ _ _ _ Hm)|done..|is_pin| |].
      { intros p. unfold bump, expected, is_frozen_dir in *. change (is_subtree_root f1) with (is_subtree_root f).
        change (is_replicated f1) with (is_replicated f).
        unfold STATE_IMPORTBOUND, STATE_EXPORTBOUND, STATE_STICKY, STATE_DIRTY, STATE_FROZENDIR in *.
        rewrite !Ht, Hst by lia. cbn -[b2z Z.eqb state_test is_subtree_root is_replicated].
        rewrite !orb_false_r. pin_split p; done. }
      exists ps, i1. unfold f1, stick in E, Hok, Hm1, E1, E2, E3. rewrite Es in *.
      split_and!; [exact E|exact Hok|]. unfold moved in *. by rewrite E1, E2, E3 in Hm1.
    - exists (pins f), i. unfold f1, stick in E1, E2, E3. rewrite Es in *.
      assert (Ed : set_pins (pins f) (set_state (state f) f) = f) by (by destruct f). rewrite Ed.
      split_and!; [done..|apply moved_refl, (im_ok _ _ _ _ _ Hm)]. }
  destruct Hq as (ps & i1 & -> & Hok & Hm1). exists ps.
  set (l := map_set _ _ _). pose proof (export_pin_moves false l i1 (im_ok _ _ _ _ _ Hm1)) as Hx.
  set (i2 := maybe_export_pin false l i1) in *. clearbody i2.
  assert (He : exists e, _maybe_update_epoch (-1) (set_pins ps f1) = set_dens (MkDensity 0 0 0) e (set_pins ps f1)).
  { unfold _maybe_update_epoch. change (dens (set_pins ps f1)) with (dens f). rewrite Hde.
    destruct (_ <? -1); [by eexists|]. exists (beat_epoch f). unfold f1. destruct f. cbn in *. by subst. }
  destruct He as (e & ->). exists e. cbn [dens set_dens]. rewrite inc_zero.
  exists i2. set (f' := set_dens _ e _). assert (Ei : match i_parent (env i2) with Some _ => i2 | None => i2 end = i2)
    by (by destruct (i_parent _)). rewrite Ei.
  pose proof (imoves_trans _ _ _ _ _ _ _ _ _ (rl f') (nl f') (fl f') Hm (imoves_then _ _ _ _ _ _ Hm1 Hx)) as M.
  specialize (M ltac:(change (rl f') with (rl (set_pins ps f1)); lia)
    ltac:(change (nl f') with (nl (set_pins ps f1)); lia) ltac:(change (fl f') with (fl (set_pins ps f1)); lia)).
  split_and!; [done|exact Hok| |apply M|apply M].
  apply (sok_set k s f' i2 0 0 0); change (dfrag f') with (dfrag f); rewrite ?Hn, ?Z.sub_0_r; done.
Qed.

(** The state of a fragment that is added frozen, if it is live. *)
Definition added_state (replay : bool) (r : Z) f : Z :=
  stick r (if live replay f
           then Z.lor (Z.lor (Z.ldiff (state f) STATE_FREEZINGDIR) STATE_FROZENDIR) STATE_COMPLETE
           else state f).

Lemma added_bit replay r f k :
  0 <= k ->
  Z.testbit (added_state replay r f) k =
    (Z.testbit (state f) k && negb (live replay f && (5 =? k)) || live replay f && ((4 =? k) || (1 =? k)))
    || ((0 <? r) && (15 =? k)).
Proof.
  intros Hk. unfold added_state, STATE_FREEZINGDIR, STATE_FROZENDIR, STATE_COMPLETE. rewrite stick_bit by done.
  destruct (live replay f); cbn [andb negb].
  - by rewrite !bit_set, bit_clear, !orb_assoc by lia.
  - by rewrite andb_true_r, orb_false_r.
Qed.

Lemma prepare_new_ok w k replay s f i :
  sok k s -> get_dirfrag (dfrag f) s = None -> 0 <= dfrag f ->
  imoves (ino s) i (rl f) (nl f) (fl f) -> pins_ok w f -> is_frozen_dir f = false ->
  state_test f STATE_STICKY = false -> dens f = MkDensity 0 0 0 ->
  exists ps e i', let f' := set_dens (MkDensity 0 0 0) e (set_pins ps
                              (set_state (added_state replay (stickydir_ref s) f) f)) in
    prepare_new_fragment replay f i s = Some (store f' i' s) /\ pins_ok w f' /\ sok k (store f' i' s) /\
    env i' = env (ino s) /\ above i' = above (ino s).
Proof.
  intros Hs Hn H0 Hm Hp Hfr Hst Hde. unfold prepare_new_fragment, added_state. fold (live replay f).
  destruct (live replay f); [|by apply add_dirfrag_ok].
  assert (Hb : backed f i).
  { split; [apply (im_ok _ _ _ _ _ Hm)|..].
    - rewrite (im_dirfrag _ _ _ _ _ Hm). pose proof (io_nonneg _ (so_ok _ _ Hs) PIN_DIRFRAG). lia.
    - rewrite (im_nested _ _ _ _ _ Hm). pose proof (io_nested _ (so_ok _ _ Hs)). lia.
    - rewrite (im_auth _ _ _ _ _ Hm). pose proof (io_auth _ (so_ok _ _ Hs)). lia. }
  destruct (freeze_dir_ok w f i Hb Hp Hfr) as (p1 & i1 & -> & Hok & Hm1). cbn zeta in *.
  set (f1 := set_pins p1 _) in *. set (f2 := mark_complete f1).
  assert (Et : forall j, 0 <= j -> state_test f2 (2 ^ j) = state_test f1 (2 ^ j) || (1 =? j)).
  { intros j Hj. rewrite !state_test_bit by done. by apply bit_set. }
  assert (El : rl f2 = rl f1 /\ nl f2 = nl f1 /\ fl f2 = fl f1).
  { apply state_loads; unfold STATE_COMPLETE; rewrite bit_set by lia; cbn; by rewrite orb_false_r. }
  destruct El as (E1 & E2 & E3).
  destruct (add_dirfrag_ok w k s f2 i1) as (p2 & e & i2 & Ea & Hok2 & Hs2 & He); try done.
  - eapply imoves_trans; [exact Hm|exact Hm1|rewrite ?E1, ?E2, ?E3; lia..].
  - apply (pins_same w f1); [done..|]. intros p. unfold expected, is_frozen_dir.
    change (is_subtree_root f2) with (is_subtree_root f1). change (is_replicated f2) with (is_replicated f1).
    unfold STATE_IMPORTBOUND, STATE_EXPORTBOUND, STATE_STICKY, STATE_DIRTY, STATE_FROZENDIR in *.
    rewrite !Et by lia. cbn -[b2z Z.eqb state_test is_subtree_root is_replicated].
    rewrite !orb_false_r. pin_split p; done.
  - unfold STATE_STICKY in *. rewrite Et, state_test_bit by lia. rewrite state_test_bit in Hst by lia.
    unfold f1, state_set, state_clear, STATE_FROZENDIR, STATE_FREEZINGDIR. cbn [state set_pins set_state].
    rewrite bit_set, bit_clear, Hst by lia. done.
  - exists p2, e, i2. done.
Qed.

Lemma set_dir_auth_same a f i : dir_auth f = a -> set_dir_auth a f i = Some (set_auth a f, i).
Proof.
  intros E. unfold set_dir_auth. change (is_subtree_root (set_auth a f)) with (negb (bool_decide (a = CDIR_AUTH_DEFAULT))).
  assert (Er : is_subtree_root f = negb (bool_decide (a = CDIR_AUTH_DEFAULT))) by (unfold is_subtree_root; by rewrite E).
  rewrite Er. destruct (bool_decide _); cbn [negb andb]; obind; cbn [dir_auth set_auth]; rewrite E;
    unfold CDIR_AUTH_UNKNOWN; destruct (Z.leb_spec 0 a.2); cbn [andb]; [|done| |done];
    by rewrite (proj2 (Z.eqb_neq _ _)) by lia.
Qed.

(** ** The fragments of a split *)

(** The sums of [nest_info_t], and what a dentry adds to them. *)
Definition sums : list (nest_info_t -> Z) := [rbytes; rfiles; rsubdirs; rsnaprealms].
Definition below (g : nest_info_t -> Z) (dn : dentry) : Z :=
  if headed dn then match linkage dn with Primary i => g (c_rstat i) | _ => 0 end else 0.

(** The statistics are those of the entries. *)
Record stat_ok (f : fnode_t) (l : list dentry) : Prop := {
  st_size : size (fragstat f) = total head_item l;
  st_sums : Forall (fun g => g (rstat f) = total (below g) l) sums
}.

Lemma account_stat dn (n : fnode_t) l : stat_ok n l -> stat_ok (account_dentry dn n) (dn :: l).
Proof.
  intros [Hz Hs]. repeat (apply Forall_cons in Hs as [? Hs]).
  unfold account_dentry, sums, head_item, below, headed in *.
  destruct (Z.eqb_spec (last dn) CEPH_NOSNAP) as [E|E]; cbn [negb].
  - destruct (linkage dn) as [|r t|i] eqn:El; split; unfold head_item, below, headed;
      repeat (apply Forall_cons; split); try constructor; rewrite ?total_cons, ?E, ?El, ?Z.eqb_refl;
      cbn -[total]; unfold size in *; cbn; try (destruct (t =? DT_DIR)); try (destruct (c_is_dir i)); lia.
  - split; unfold head_item, below, headed; repeat (apply Forall_cons; split); try constructor;
      rewrite total_cons, (proj2 (Z.eqb_neq _ _) E); cbn -[total]; lia.
Qed.

Lemma stat_perm (n : fnode_t) l l' : l ≡ₚ l' -> stat_ok n l -> stat_ok n l'.
Proof.
  intros Hp [Hz Hs]. split; [by rewrite <- (total_perm _ _ _ Hp)|].
  eapply Forall_impl; [exact Hs|]. intros g Hg. cbn in Hg. by rewrite <- (total_perm _ _ _ Hp).
Qed.

(** A fragment of the split of [d], that has taken the dentries [l]. *)
Definition init_state d : Z :=
  Z.lor (if is_auth d then STATE_AUTH else 0)
    (Z.land (state d) (Z.lor MASK_STATE_FRAGMENT_KEPT STATE_COMPLETE)).

Definition sub_state (replay : bool) (r : Z) d : Z :=
  stick r (if live replay d
           then Z.lor (Z.lor (Z.ldiff (init_state d) STATE_FREEZINGDIR) STATE_FROZENDIR) STATE_COMPLETE
           else init_state d).

Record subfrag_ok (replay : bool) (r bits : Z) d (fg : Z) (l : list dentry) f : Prop := {
  sf_frag : dfrag f = fg;
  sf_items : items (holds f) ≡ₚ l;
  sf_counted : counted (holds f);
  sf_content : content_ok f;
  sf_pins : pins_ok false f;
  sf_auth_pins : auth_pins (pinned f) = 0;
  sf_state : state f = sub_state replay r d;
  sf_auth : dir_auth f = dir_auth d;
  sf_replicas : replicas f = replicas d;
  sf_stat : stat_ok (fnode f) l;
  sf_version : version (fnode f) = version (fnode d);
  sf_pop : pop f = scale_pops (d_int 1 / d_int (Z.shiftl 1 bits))%D (pop d);
  sf_waiting : waiting (waits_ f) = [];
  sf_dens : dens f = MkDensity 0 0 0
}.

Lemma kept_bit d k :
  0 <= k ->
  Z.testbit (Z.land (state d) (Z.lor MASK_STATE_FRAGMENT_KEPT STATE_COMPLETE)) k =
  Z.testbit (state d) k && ((29 =? k) || (11 =? k) || (10 =? k) || (20 =? k) || (26 =? k) || (1 =? k)).
Proof.
  intros Hk. unfold MASK_STATE_FRAGMENT_KEPT, STATE_COMPLETE, STATE_DIRTY, STATE_EXPORTBOUND, STATE_IMPORTBOUND,
    STATE_AUXSUBTREE, STATE_REJOINUNDEF.
  rewrite Z.land_spec, !Z.lor_spec, !Z.pow2_bits_eqb by lia. by rewrite !orb_assoc.
Qed.

Lemma init_bit d k :
  0 <= k ->
  Z.testbit (init_state d) k =
  is_auth d && (30 =? k) ||
  Z.testbit (state d) k && ((29 =? k) || (11 =? k) || (10 =? k) || (20 =? k) || (26 =? k) || (1 =? k)).
Proof.
  intros Hk. unfold init_state, STATE_AUTH. rewrite Z.lor_spec, kept_bit by done. f_equal.
  destruct (is_auth d); cbn [andb]; [by rewrite Z.pow2_bits_eqb by lia|by rewrite Z.bits_0].
Qed.

Lemma sub_bit replay r d k :
  0 <= k ->
  Z.testbit (sub_state replay r d) k =
    (Z.testbit (init_state d) k && negb (live replay d && (5 =? k)) || live replay d && ((4 =? k) || (1 =? k)))
    || ((0 <? r) && (15 =? k)).
Proof.
  intros Hk. unfold sub_state, STATE_FREEZINGDIR, STATE_FROZENDIR, STATE_COMPLETE. rewrite stick_bit by done.
  destruct (live replay d); cbn [andb negb].
  - by rewrite !bit_set, bit_clear, !orb_assoc by lia.
  - by rewrite andb_true_r, orb_false_r.
Qed.

Lemma sub_calm replay r bits d fg l f : subfrag_ok replay r bits d fg l f -> calm f.
Proof.
  intros Hf. split; unfold STATE_FREEZINGDIR, STATE_FREEZINGTREE; rewrite state_test_bit, (sf_state _ _ _ _ _ _ _ Hf) by lia;
    rewrite sub_bit, init_bit by lia; cbn; rewrite ?andb_false_r, ?orb_false_r; cbn; rewrite ?andb_false_r; done.
Qed.

(** It is authoritative as the old one is, and frozen if the split is live. *)
Lemma sub_flags replay r bits d fg l f :
  subfrag_ok replay r bits d fg l f -> is_auth f = is_auth d /\ is_frozen_dir f = live replay d.
Proof.
  intros Hf. unfold is_auth at 1, is_frozen_dir, STATE_AUTH, STATE_FROZENDIR.
  rewrite !state_test_bit, (sf_state _ _ _ _ _ _ _ Hf), !sub_bit, !init_bit by lia. cbn.
  by rewrite !andb_false_r, !andb_true_r, !orb_false_r, ?andb_false_r, ?orb_false_r.
Qed.

(** What no step of a split changes. *)
Record same_inode s s' : Prop := {
  sm_env : env (ino s') = env (ino s);
  sm_above : above (ino s') = above (ino s);
  sm_sticky : stickydir_ref s' = stickydir_ref s;
  sm_tree : dirfragtree s' = dirfragtree s
}.

Lemma same_refl s : same_inode s s.
Proof. by split. Qed.

Lemma same_trans s1 s2 s3 : same_inode s1 s2 -> same_inode s2 s3 -> same_inode s1 s3.
Proof. intros [] []. split; congruence. Qed.

Lemma same_moved i' s s' x y z :
  imoves (ino s) i' x y z -> ino s' = i' -> stickydir_ref s' = stickydir_ref s ->
  dirfragtree s' = dirfragtree s -> same_inode s s'.
Proof. intros [] <- ? ?. by split. Qed.

Lemma create_subfrag_ok k bits replay now mem d fg s :
  sok k s -> get_dirfrag fg s = None -> 0 <= fg ->
  exists f i', create_subfrag bits replay now mem d fg s = Some (store f i' s) /\
    subfrag_ok replay (stickydir_ref s) bits d fg [] f /\ waiting_on_dentry (waits_ f) = [] /\
    sok k (store f i' s) /\ same_inode s (store f i' s).
Proof.
  intros Hs Hn H0. unfold create_subfrag. set (f0 := set_auth _ _).
  assert (Hb : forall j, 0 <= j -> state_test f0 (2 ^ j) = Z.testbit (init_state d) j).
  { intros j Hj. rewrite state_test_bit by done. done. }
  assert (Hb4 : state_test f0 (2 ^ 4) = false /\ state_test f0 (2 ^ 15) = false /\
    state_test f0 (2 ^ 30) = is_auth d).
  { rewrite !Hb, !init_bit by lia. cbn. by rewrite !andb_false_r, andb_true_r, !orb_false_r. }
  destruct Hb4 as (E4 & E15 & E30).
  assert (Hp0 : pins_ok true f0).
  { apply (pins_are_ext (fun _ => 0)); [|by split]. intros p. unfold expected, is_frozen_dir.
    unfold STATE_STICKY, STATE_FROZENDIR. rewrite E4, E15. cbn. pin_split p; done. }
  destruct (init_pins_ok f0 (ino s) (so_ok _ _ Hs) Hp0) as (p1 & i1 & -> & Hp1 & Hm1).
  rewrite set_dir_auth_same by done. obind. set (f1 := set_auth _ _).
  assert (Hok1 : pins_ok false f1) by (by apply (pins_same false (set_pins p1 f0))).
  assert (Hm : imoves (ino s) i1 (rl f1) (nl f1) (fl f1)).
  { assert (Ef : fl f0 = 0) by (unfold fl, is_frozen_dir, STATE_FROZENDIR; by rewrite E4).
    unfold moved in Hm1. rewrite Ef in Hm1. change (rl f0) with 0 in Hm1.
    assert (En : nl f0 = 0) by (unfold nl; cbn; by rewrite andb_false_r). rewrite En, !Z.sub_0_r in Hm1. exact Hm1. }
  destruct (prepare_new_ok false k replay s f1 i1) as (p2 & e & i2 & -> & Hok2 & Hs2 & He & Ha); try done.
  cbn zeta in *. do 2 eexists. split_and!; [done| |done|done|by split].
  assert (El : live replay f1 = live replay d) by (unfold live, is_auth at 1, STATE_AUTH; f_equal; exact E30).
  assert (Est : added_state replay (stickydir_ref s) f1 = sub_state replay (stickydir_ref s) d).
  { unfold added_state, sub_state. rewrite El. done. }
  split; first [exact Est | done | (by split) | (split; cbn; [done | by repeat constructor])].
Qed.

Lemma create_subfrags_ok k bits replay now mem d frags s :
  sok k s -> NoDup frags -> Forall (fun fg => get_dirfrag fg s = None /\ 0 <= fg) frags ->
  exists s', create_subfrags bits replay now mem d frags s = Some s' /\ sok k s' /\ same_inode s s' /\
    (forall x, x ∉ frags -> get_dirfrag x s' = get_dirfrag x s) /\
    (forall c, c ∈ frags -> exists f, get_dirfrag c s' = Some f /\
       subfrag_ok replay (stickydir_ref s) bits d c [] f /\ waiting_on_dentry (waits_ f) = []).
Proof.
  revert s. induction frags as [|fg frags IH]; intros s Hs Hnd Hn; cbn [create_subfrags].
  { exists s. split_and!; [done..|apply same_refl|done|]. by intros c ?%elem_of_nil. }
  apply NoDup_cons in Hnd as [Hni Hnd]. apply Forall_cons in Hn as [[Hn H0] Hns].
  destruct (create_subfrag_ok k bits replay now (mem fg) d fg s Hs Hn H0) as (f & i1 & -> & Hf & Hw & Hs1 & Hm1).
  obind. assert (Hg : forall x, get_dirfrag x (store f i1 s) = if x =? fg then Some f else get_dirfrag x s).
  { intros x. rewrite get_store. by rewrite (sf_frag _ _ _ _ _ _ _ Hf). }
  destruct (IH (store f i1 s)) as (s' & -> & Hs' & Hm' & Ho & Hc); [done|done|..].
  { rewrite Forall_forall in Hns |- *. intros x Hx. rewrite Hg. destruct (Z.eqb_spec x fg); [by subst|auto]. }
  exists s'. split_and!; [done|done|by eapply same_trans| |].
  - intros x [Hx1 Hx2]%not_elem_of_cons. rewrite Ho by done. rewrite Hg. by rewrite (proj2 (Z.eqb_neq _ _)).
  - intros c [->|Hc']%elem_of_cons; [|by apply Hc]. rewrite Ho, Hg, Z.eqb_refl by done. eauto.
Qed.

End dir.
End DirSplit.
