(* ===== verification/DirFragment.v ===== *)
(** * What splitting and merging fragments does

    [CDir::split] and [CDir::merge] as a whole, on the fragments of a directory
    that are as the cache keeps them: the lemmas of [DirSplit] put together. *)

From S2P Require Import Prelude Encoding Frag FragTree Double Load StrHash CacheDir CacheDirFacts DirSplit.
Import Encoding.

Module DirFragment.
Import Frag FragTree FragFacts FragTreeFacts StrHash StrHashFacts CacheDir CacheDirFacts DirSplit.

(** ** The piece of a name *)

(** The number that [split] computes from a piece is its index. *)
Lemma subfrag_index fg nb j :
  wf_frag fg -> 0 <= nb -> bits fg + nb <= 24 -> 0 <= j < 2 ^ nb ->
  let c := ceph_frag_make_child fg nb j in
  Z.shiftr (Z.land (ceph_frag_value c) (Z.lxor (ceph_frag_mask c) (ceph_frag_mask fg)))
    (ceph_frag_mask_shift c) = j.
Proof.
  intros Wf Hn Hb Hj. cbn zeta. destruct (child_spec fg nb j Wf Hn Hb Hj) as (Ec & Ev & Wc).
  destruct (Wf) as [Bf [k Hk]]. unfold len in Hk. set (m := 24 - (bits fg + nb)) in *.
  unfold ceph_frag_mask_shift. rewrite Ec, u32_small by lia. fold m.
  assert (Em : 2 ^ (24 - bits fg) = 2 ^ nb * 2 ^ m) by (rewrite <- Z.pow_add_r by lia; f_equal; lia).
  assert (E : value (ceph_frag_make_child fg nb j) / 2 ^ m = j + k * 2 ^ nb).
  { rewrite Ev, Hk, Em. replace (k * (2 ^ nb * 2 ^ m) + j * 2 ^ m) with ((j + k * 2 ^ nb) * 2 ^ m) by lia.
    apply Z.div_mul. pose proof (Z.pow_pos_nonneg 2 m). lia. }
  transitivity ((value (ceph_frag_make_child fg nb j) / 2 ^ m) mod 2 ^ nb).
  2: { rewrite E, Z.mod_add, Z.mod_small by lia. done. }
  apply Z.bits_inj'. intros i Hi. rewrite Z.shiftr_spec, Z.land_spec, Z.lxor_spec by done.
  rewrite !mask_testbit, Ec by (done || lia). rewrite <- Z.shiftr_div_pow2 by lia.
  destruct (Z.ltb_spec i nb).
  - rewrite Z.mod_pow2_bits_low, Z.shiftr_spec by lia.
    rewrite !(proj2 (Z.leb_le _ _)), (proj2 (Z.ltb_lt _ _)), (proj2 (Z.leb_gt (24 - bits fg) _)) by lia.
    by rewrite andb_true_r.
  - rewrite Z.mod_pow2_bits_high by lia. rewrite !(proj2 (Z.leb_le _ _)) by lia.
    by rewrite xorb_nilpotent, andb_false_r.
Qed.

(** The hash of a name, where the type of hash is one that the code knows. *)
Definition hash_type (i : inode) : Z :=
  if dl_dir_hash (env i) =? 0 then CEPH_STR_HASH_LINUX else dl_dir_hash (env i).
Definition name_hash (i : inode) (nm : bytes) : Z := ceph_str_hash (hash_type i) nm mod 2 ^ 24.

(** The fragment [c] is the place of a name. *)
Definition holds_name (i : inode) (c : Z) (nm : bytes) : bool :=
  ceph_frag_contains_value c (ceph_str_hash (hash_type i) nm).

Section dir.
Context {D} `{Double D}.
Implicit Types d f : cdir (D := D).
Implicit Types s : diri (D := D).

(** The tree has the pieces of [fg] for leaves. *)
Record ready (nb : Z) (fg : Z) s : Prop := {
  rd_hash : ceph_str_hash_valid (hash_type (ino s)) = true;
  rd_tree : wf_tree (dirfragtree s);
  rd_wf : wf_frag fg;
  rd_bits : 0 < nb;
  rd_room : ceph_frag_bits fg + nb <= 24;
  rd_leaves : forall c, child_of fg nb c -> leaf (dirfragtree s) c
}.

Lemma ready_same nb fg s s' : same_inode s s' -> ready nb fg s -> ready nb fg s'.
Proof.
  intros [] []. unfold hash_type in *. split; try done.
  - unfold hash_type. by rewrite sm_env0.
  - by rewrite sm_tree0.
  - by rewrite sm_tree0.
Qed.

Definition pieces (fg nb : Z) : list Z := map (ceph_frag_make_child fg nb) (seqZ 0 (2 ^ nb)).

Lemma elem_of_pieces fg nb c : c ∈ pieces fg nb <-> child_of fg nb c.
Proof. apply elem_of_children. Qed.

Lemma piece_wf nb fg s c : ready nb fg s -> c ∈ pieces fg nb -> wf_frag c /\ inside fg c /\ c <> fg.
Proof. intros [] Hc%elem_of_pieces. by apply (child_of_strict fg nb). Qed.

(** A piece holds a name, and only one does. *)
Lemma piece_unique nb fg s c c' nm :
  ready nb fg s -> c ∈ pieces fg nb -> c' ∈ pieces fg nb ->
  holds_name (ino s) c nm = true -> holds_name (ino s) c' nm = true -> c = c'.
Proof.
  intros Hr Hc Hc'. destruct (piece_wf _ _ _ _ Hr Hc) as (W & _). destruct (piece_wf _ _ _ _ Hr Hc') as (W' & _).
  pose proof (str_hash_range (hash_type (ino s)) nm) as Hh. unfold holds_name.
  rewrite !contains_value_within by (done || lia). apply elem_of_pieces in Hc, Hc'.
  apply (leaf_unique (dirfragtree s)); apply Hr; done.
Qed.

Lemma pick_dirfrag_ok nb fg s nm :
  ready nb fg s -> holds_name (ino s) fg nm = true ->
  exists c, pick_dirfrag nm s = Some c /\ c ∈ pieces fg nb /\ holds_name (ino s) c nm = true.
Proof.
  intros [Hv Ht Hw Hb Hl Hc] Hn. pose proof (str_hash_range (hash_type (ino s)) nm) as Hh.
  unfold holds_name in *. apply contains_value_within in Hn; [|done|lia].
  destruct (child_of_value fg nb _ Hw ltac:(lia) Hl Hn) as (j & Hj & Wj).
  set (c := ceph_frag_make_child fg nb j) in *.
  assert (Cc : child_of fg nb c) by (by exists j). pose proof (Hc c Cc) as Lc.
  destruct (child_of_strict fg nb c) as (Wc & Ic & Ne); [done..|].
  exists c. split_and!; [|by apply elem_of_pieces|by apply contains_value_within; [|lia|]].
  unfold pick_dirfrag. destruct (dirfragtree s) as [|x t] eqn:Et.
  { destruct Lc as [[E|(p & Hp & _)] _]; [|done]. rewrite E in Ic. apply inside_root in Ic; [|done]. congruence. }
  rewrite <- Et in *. unfold hash_dentry_name. fold (hash_type (ino s)). rewrite Hv. obind.
  destruct (at_value_spec (dirfragtree s) (ceph_str_hash (hash_type (ino s)) nm) Ht ltac:(lia)) as (c' & -> & Lc' & Wc').
  f_equal. by apply (leaf_unique (dirfragtree s) c' c (ceph_str_hash (hash_type (ino s)) nm mod 2 ^ 24)).
Qed.

Lemma subfrag_of_ok nb fg s nm :
  ready nb fg s -> holds_name (ino s) fg nm = true ->
  exists c, subfrag_of fg (pieces fg nb) nm s = Some c /\ c ∈ pieces fg nb /\ holds_name (ino s) c nm = true.
Proof.
  intros Hr Hn. destruct (pick_dirfrag_ok nb fg s nm Hr Hn) as (c & E & Hc & Hh). exists c.
  split_and!; [|done..]. unfold subfrag_of. rewrite E. obind. apply elem_of_pieces in Hc as (j & Hj & ->).
  destruct Hr. rewrite subfrag_index by (done || lia). unfold pieces.
  rewrite list_lookup_fmap, lookup_seqZ_lt by lia. cbn. repeat f_equal. lia.
Qed.

Lemma holds_name_same s s' : same_inode s s' -> holds_name (ino s') = holds_name (ino s).
Proof. intros []. unfold holds_name, hash_type. by rewrite sm_env0. Qed.

(** ** Handing the dentries out *)

Lemma distinct_mid l x l' : distinct (l ++ x :: l') -> Forall (fun y => differ y x = true) l.
Proof.
  induction l as [|y l IH]; [constructor|]. cbn. intros [Hy Hd]. constructor; [|auto].
  apply Forall_app in Hy as [_ Hy]. by apply Forall_cons in Hy as [? _].
Qed.

(** What is left of the old fragment when its dentries are [l]. *)
Record shrunk d0 (l : list dentry) d : Prop := {
  sh_rest : d = set_pins (pins d) (set_pinned (MkAuths (auth_pins (pinned d0)) (nested_auth_pins (pinned d))
                  (dir_auth_pins (pinned d))) (set_holds (holds d) d0));
  sh_items : items (holds d) = l;
  sh_content : content_ok d;
  sh_pins : pins_ok false d
}.

Lemma shrunk_state d0 l d : shrunk d0 l d -> state d = state d0 /\ dfrag d = dfrag d0.
Proof. intros [E _ _ _]. by rewrite E. Qed.

Lemma shrunk_calm d0 l d : shrunk d0 l d -> calm d0 -> calm d.
Proof. intros [E _ _ _]. rewrite E. done. Qed.

Lemma shrunk_step d0 dn l d pd :
  shrunk d0 (dn :: l) d -> pins_ok false (set_pins pd (robbed dn d)) -> shrunk d0 l (set_pins pd (robbed dn d)).
Proof.
  intros [E Ei Kd Hd] Hp. destruct (robbed_content dn l d Kd Ei) as [[] El]. split; [|done|by split|done].
  rewrite E. done.
Qed.

(** A piece takes one more. *)
Lemma subfrag_step replay r nb d0 c l f dn pf :
  subfrag_ok replay r nb d0 c l f -> dn_ok dn -> Forall (fun x => differ x dn = true) l ->
  pins_ok false (set_pins pf (stolen dn f)) -> subfrag_ok replay r nb d0 c (l ++ [dn]) (set_pins pf (stolen dn f)).
Proof.
  intros [] Hdn Hl Hp. assert (Hf : Forall (fun x => differ x dn = true) (items (holds f))) by (by rewrite sf_items0).
  assert (Ei : items (holds (set_pins pf (stolen dn f))) ≡ₚ l ++ [dn]).
  { cbn. rewrite gain_items, items_set_perm by done. rewrite sf_items0. apply Permutation_cons_append. }
  pose proof (stolen_content dn f sf_content0 Hdn Hf) as [].
  split; try done.
  - by apply gain_counted.
  - change (stat_ok (account_dentry dn (fnode f)) (l ++ [dn])). eapply stat_perm; [|by apply account_stat]. apply Permutation_cons_append.
  - cbn. unfold account_dentry. destruct (negb _); [done|]. by destruct (linkage dn).
Qed.

Definition taken_by (i : inode) (c : Z) (l : list dentry) : list dentry :=
  List.filter (fun x => holds_name i c (name x)) l.

Definition waits_in (i : inode) (c : Z) (dw : dentry_waiters) : dentry_waiters :=
  add_waiters [] (List.filter (fun p => holds_name i c p.1.1) dw).

(** What the pieces of [d0] are when the dentries [l] and the waiters [dw] have
    been handed out. *)
Definition filled (replay : bool) (r nb : Z) d0 (l : list dentry) (dw : dentry_waiters) s : Prop :=
  forall c, c ∈ pieces (dfrag d0) nb -> exists f, get_dirfrag c s = Some f /\
    subfrag_ok replay r nb d0 c (taken_by (ino s) c l) f /\
    waiting_on_dentry (waits_ f) = waits_in (ino s) c dw.

Lemma taken_by_snoc i c l dn :
  taken_by i c (l ++ [dn]) = if holds_name i c (name dn) then taken_by i c l ++ [dn] else taken_by i c l.
Proof.
  unfold taken_by. rewrite List.filter_app. cbn [List.filter]. destruct (holds_name _ _ _); [done|apply app_nil_r].
Qed.

Lemma Forall_filter {A} (P : A -> Prop) (g : A -> bool) l : Forall P l -> Forall P (List.filter g l).
Proof. induction 1; cbn; [done|]. destruct (g _); [by constructor|done]. Qed.

Lemma repartition_ok k replay r nb d0 n l done_ d s :
  let fg := dfrag d0 in
  ready nb fg s -> sok k s -> calm d0 -> get_dirfrag fg s = Some d -> shrunk d0 l d ->
  distinct (done_ ++ l) -> Forall (fun dn => holds_name (ino s) fg (name dn) = true) l ->
  filled replay r nb d0 done_ [] s -> (length l <= n)%nat ->
  exists s' d', repartition n fg (pieces fg nb) s = Some s' /\ sok k s' /\ same_inode s s' /\
    get_dirfrag fg s' = Some d' /\ shrunk d0 [] d' /\ filled replay r nb d0 (done_ ++ l) [] s' /\
    forall x, x <> fg -> x ∉ pieces fg nb -> get_dirfrag x s' = get_dirfrag x s.
Proof.
  cbn zeta. intros Hr Hs Hc. set (fg := dfrag d0) in *. revert l done_ d s Hr Hs.
  induction n as [|n IH]; intros [|dn l] done_ d s Hr Hs Hd Hsh Hdi Hh Hf Hn; cbn [length] in Hn; [|lia| |];
    cbn [repartition]; rewrite Hd; obind; rewrite (sh_items _ _ _ Hsh);
    [exists s, d; rewrite app_nil_r; split_and!; [done..|apply same_refl|done|done|done|done]..|].
  apply Forall_cons in Hh as [Hn1 Hh].
  destruct (subfrag_of_ok nb fg s (name dn) Hr Hn1) as (c & -> & Hcp & Hch). obind.
  destruct (Hf c Hcp) as (f & Ef & Sf & Wf). rewrite Ef. obind.
  destruct (piece_wf _ _ _ _ Hr Hcp) as (_ & _ & Ne).
  destruct (steal_ok false f d (ino s) dn l (sok_backed2 k s fg c d f Hs ltac:(done) Hd Ef)
    (sf_pins _ _ _ _ _ _ _ Sf) (sh_pins _ _ _ Hsh) (sub_calm _ _ _ _ _ _ _ Sf) (shrunk_calm _ _ _ Hsh Hc)
    (sf_content _ _ _ _ _ _ _ Sf) (sf_counted _ _ _ _ _ _ _ Sf) (sh_content _ _ _ Hsh) (sh_items _ _ _ Hsh))
    as (pf & pd & i1 & -> & Pf & Pd & M). obind.
  pose proof (shrunk_step _ _ _ _ _ Hsh Pd) as Sd. set (f' := set_pins pf _) in *. set (d' := set_pins pd _) in *.
  assert (Ed' : dfrag d' = fg) by (by apply shrunk_state in Sd as [_ ->]).
  assert (Ef' : dfrag f' = c) by apply Sf. set (s1 := store d' i1 (store f' i1 s)).
  assert (Hg : forall x, get_dirfrag x s1 = if x =? fg then Some d' else if x =? c then Some f' else get_dirfrag x s).
  { intros x. unfold s1. by rewrite !get_store, Ed', Ef'. }
  assert (Hm : same_inode s s1) by (by eapply same_moved).
  destruct (IH l (done_ ++ [dn]) d' s1) as (s' & d1 & -> & Hs' & Hm' & Hd' & Sh' & Hf' & Ho).
  { by eapply ready_same. } { by eapply (sok_store2 k s fg c). } { by rewrite Hg, Z.eqb_refl. } { done. }
  { by rewrite <- app_assoc. } { by rewrite (holds_name_same _ _ Hm). }
  { intros x Hx. rewrite Hg. destruct (piece_wf _ _ _ _ Hr Hx) as (_ & _ & Nx).
    rewrite (proj2 (Z.eqb_neq _ _)), taken_by_snoc by done. unfold taken_by. rewrite (holds_name_same _ _ Hm).
    fold (taken_by (ino s) x done_). destruct (Z.eqb_spec x c) as [->|Hxc].
    - exists f'. rewrite Hch. split_and!; [done| |done]. apply subfrag_step; [done| | |done].
      + pose proof (ct_dentries _ (sh_content _ _ _ Hsh)) as Hk. rewrite (sh_items _ _ _ Hsh) in Hk.
        by apply Forall_cons in Hk as [? _].
      + apply Forall_filter. by eapply distinct_mid.
    - destruct (Hf x Hx) as (fx & ? & ? & ?). exists fx.
      destruct (holds_name (ino s) x (name dn)) eqn:Ex; [|done]. by destruct Hxc; eapply piece_unique. }
  { lia. }
  exists s', d1. rewrite <- app_assoc in Hf'. split_and!; [done|done|by eapply same_trans|done|done|done|].
  intros x H1 H2. rewrite Ho by done. rewrite Hg, !(proj2 (Z.eqb_neq _ _)); [done| |done]. by intros ->.
Qed.

(** ** Handing the waiters out *)

Lemma add_dentry_waiters_some m k l : some (add_dentry_waiters m k l) = true.
Proof. destruct m as [|[k' l'] m]; [done|]. cbn. destruct (snap_lt k' k); [done|]. by destruct (snap_lt k k'). Qed.

Lemma waits_in_snoc i c dw k l :
  waits_in i c (dw ++ [(k, l)]) =
  if holds_name i c k.1 then add_dentry_waiters (waits_in i c dw) k l else waits_in i c dw.
Proof.
  unfold waits_in, add_waiters. rewrite List.filter_app. cbn [List.filter fst snd].
  destruct (holds_name i c k.1); [by rewrite foldl_app|by rewrite app_nil_r].
Qed.

(** A fragment gets waiters for a dentry. *)
Lemma wait_dentry_ok f i k l :
  iok i -> pins_ok false f ->
  exists ps i', let f' := set_waits (MkWaits (add_dentry_waiters (waiting_on_dentry (waits_ f)) k l)
                            (waiting (waits_ f))) (set_pins ps f) in
    (match waiting_on_dentry (waits_ f) with
     | [] => get PIN_DNWAITER f i | _ :: _ => (f, i) end) = (set_pins ps f, i') /\
    pins_ok false f' /\ moved f i f' i'.
Proof.
  intros Hi Hp. set (w := MkWaits _ _). pose proof (add_dentry_waiters_some (waiting_on_dentry (waits_ f)) k l) as Hs.
  destruct (waiting_on_dentry (waits_ f)) as [|x m] eqn:Ew.
  - destruct (get_ok PIN_DNWAITER f i Hi (pins_ref _ _ Hp)) as (i' & -> & Hm). exists (pin_get PIN_DNWAITER (pins f)).1, i'.
    split_and!; [done| |exact Hm]. eapply pins_are_ext; [|apply (pin_get_are _ PIN_DNWAITER _ Hp); is_pin].
    intros p. unfold bump, expected. rewrite Ew. cbn -[b2z Z.eqb]. pin_split p; done.
  - exists (pins f), i. assert (E : set_pins (pins f) f = f) by (by destruct f). rewrite E. split_and!; [done| |].
    + apply (pins_same false f); [done..|]. intros p. unfold expected. rewrite Ew. unfold w. cbn [waits_ waiting_on_dentry set_waits set_pins].
      rewrite Hs. pin_split p; done.
    + by apply moved_same.
Qed.

Lemma subfrag_waits replay r nb d0 c l f m ps :
  let f' := set_waits (MkWaits m (waiting (waits_ f))) (set_pins ps f) in
  subfrag_ok replay r nb d0 c l f -> pins_ok false f' -> subfrag_ok replay r nb d0 c l f'.
Proof. cbn zeta. intros [? ? ? [] ?] Hp. split; done. Qed.

Lemma move_waiters_ok k replay r nb d0 l dw done_ s :
  let fg := dfrag d0 in
  ready nb fg s -> sok k s -> Forall (fun p => holds_name (ino s) fg p.1.1 = true) dw ->
  filled replay r nb d0 l done_ s ->
  exists s', move_waiters fg (pieces fg nb) dw s = Some s' /\ sok k s' /\ same_inode s s' /\
    filled replay r nb d0 l (done_ ++ dw) s' /\
    forall x, x ∉ pieces fg nb -> get_dirfrag x s' = get_dirfrag x s.
Proof.
  cbn zeta. set (fg := dfrag d0). revert done_ s.
  induction dw as [|[key cs] dw IH]; intros done_ s Hr Hs Hh Hf; cbn [move_waiters].
  { exists s. rewrite app_nil_r. split_and!; [done..|apply same_refl|done|done]. }
  apply Forall_cons in Hh as [Hn Hh]. cbn [fst snd] in Hn |- *.
  destruct (subfrag_of_ok nb fg s key.1 Hr Hn) as (c & -> & Hcp & Hch). obind.
  destruct (Hf c Hcp) as (f & Ef & Sf & Wf). rewrite Ef. obind.
  destruct (wait_dentry_ok f (ino s) key cs (so_ok _ _ Hs) (sf_pins _ _ _ _ _ _ _ Sf)) as (ps & i1 & -> & Hp & M).
  cbn zeta in *. change (waits_ (set_pins ps f)) with (waits_ f). set (f' := set_waits _ _) in *.
  pose proof (subfrag_waits _ _ _ _ _ _ _ _ _ Sf Hp) as Sf'. change (set_waits _ (set_pins ps f)) with f' in Sf'.
  set (s1 := store f' i1 s).
  assert (Hg : forall x, get_dirfrag x s1 = if x =? c then Some f' else get_dirfrag x s).
  { intros x. unfold s1. by rewrite get_store, (sf_frag _ _ _ _ _ _ _ Sf'). }
  assert (Hm : same_inode s s1) by (by eapply same_moved).
  destruct (IH (done_ ++ [(key, cs)]) s1) as (s' & -> & Hs' & Hm' & Hf' & Ho).
  { by eapply ready_same. } { eapply (sok_store k s c); [done|exact Ef|apply Sf'|exact M]. }
  { by rewrite (holds_name_same _ _ Hm). }
  { intros x Hx. rewrite Hg, waits_in_snoc. unfold taken_by, waits_in. rewrite (holds_name_same _ _ Hm).
    fold (taken_by (ino s) x l) (waits_in (ino s) x done_). destruct (Z.eqb_spec x c) as [->|Hxc].
    - exists f'. rewrite Hch, <- Wf. done.
    - destruct (Hf x Hx) as (fx & ? & ? & ?). exists fx.
      destruct (holds_name (ino s) x key.1) eqn:Ex; [|done]. by destruct Hxc; eapply piece_unique. }
  exists s'. rewrite <- app_assoc in Hf'. split_and!; [done|done|by eapply same_trans|done|].
  intros x Hx. rewrite Ho, Hg, (proj2 (Z.eqb_neq _ _)); [done|by intros ->|done].
Qed.

(** ** The statistics *)

(** The fragments of a list have their fnode changed. *)
Lemma on_fnodes_ok k g frags s :
  sok k s -> NoDup frags -> Forall (fun c => is_Some (get_dirfrag c s)) frags ->
  exists s', on_fnodes g frags s = Some s' /\ sok k s' /\ ino s' = ino s /\ same_inode s s' /\
    forall x, get_dirfrag x s' = if bool_decide (x ∈ frags) then on_fnode g <$> get_dirfrag x s else get_dirfrag x s.
Proof.
  revert s. induction frags as [|c frags IH]; intros s Hs Hnd Hf; cbn [on_fnodes].
  { exists s. split_and!; [done..|apply same_refl|]. intros x. rewrite bool_decide_eq_false_2; [done|].
    apply not_elem_of_nil. }
  apply NoDup_cons in Hnd as [Hni Hnd]. apply Forall_cons in Hf as [[f Ef] Hf]. rewrite Ef. obind.
  set (s1 := store _ _ s). assert (Ec : dfrag (on_fnode g f) = c) by exact (so_frag _ _ Hs c f Ef).
  assert (Hg : forall x, get_dirfrag x s1 = if x =? c then Some (on_fnode g f) else get_dirfrag x s).
  { intros x. unfold s1. by rewrite get_store, Ec. }
  destruct (IH s1) as (s' & -> & Hs' & Ei & Hm & Hx).
  - eapply (sok_store k s c); [done|exact Ef|done|]. by apply moved_same; [apply Hs|..].
  - done.
  - rewrite Forall_forall in Hf |- *. intros x Hx. rewrite Hg. destruct (x =? c); [done|auto].
  - exists s'. split_and!; [done|done|by rewrite Ei|destruct Hm; by split|].
    intros x. rewrite Hx, Hg. destruct (Z.eqb_spec x c) as [->|Hne].
    + rewrite bool_decide_eq_false_2, bool_decide_eq_true_2, Ef; [done|by left|done].
    + destruct (decide (x ∈ frags)).
      * rewrite !bool_decide_eq_true_2; [done|by right|done].
      * rewrite !bool_decide_eq_false_2; [done| |done]. by intros [?|?]%elem_of_cons.
Qed.

(** The accounted statistics of a new fragment: its own, with what the old one
    had not accounted for where it is the first. *)
Record settled (i : inode) (rd : nest_info_t) (fd : frag_info_t) (first : bool) (n : fnode_t) : Prop := {
  se_fragstat : fi_version (fragstat n) = dirstat_version (env i);
  se_rstat : ni_version (rstat n) = rstat_version (env i);
  se_accounted_fragstat : accounted_fragstat n = if first then frag_add fd (fragstat n) else fragstat n;
  se_accounted_rstat : accounted_rstat n = if first then nest_add rd (rstat n) else rstat n
}.

Lemma settle_ok i rd fd n : settled i rd fd false (settle_fnode i n).
Proof. by split. Qed.

Lemma give_ok i rd fd n : settled i rd fd true (give_diff rd fd (settle_fnode i n)).
Proof. by split. Qed.

Lemma settle_stat i n l : stat_ok n l -> stat_ok (settle_fnode i n) l.
Proof.
  intros [Hz Hs]. split; [done|]. unfold sums in *. repeat (apply Forall_cons in Hs as [? Hs]).
  by repeat constructor.
Qed.

Lemma subfrag_fnode replay r nb d0 c l f g :
  (forall n, stat_ok n l -> stat_ok (g n) l) -> (forall n, version (g n) = version n) ->
  subfrag_ok replay r nb d0 c l f -> subfrag_ok replay r nb d0 c l (on_fnode g f).
Proof.
  intros Hg Hv [? ? ? [] ?]. split; try done.
  - by apply Hg.
  - cbn. by rewrite Hv.
Qed.

Lemma NoDup_pieces nb fg s : ready nb fg s -> NoDup (pieces fg nb).
Proof.
  intros []. unfold pieces. apply NoDup_fmap_2_strong; [|apply NoDup_seqZ]. intros x y Hx Hy E.
  apply elem_of_seqZ in Hx, Hy.
  destruct (child_spec fg nb x) as (_ & Ex & _); [done|lia|lia|lia|].
  destruct (child_spec fg nb y) as (_ & Ey & _); [done|lia|lia|lia|]. rewrite E in Ex.
  pose proof (Z.pow_pos_nonneg 2 (24 - (ceph_frag_bits fg + nb))). nia.
Qed.

Lemma first_piece nb fg : 0 <= nb -> take 1 (pieces fg nb) = [ceph_frag_make_child fg nb 0].
Proof.
  intros Hn. unfold pieces. pose proof (Z.pow_pos_nonneg 2 nb ltac:(lia) Hn). by rewrite seqZ_cons by lia.
Qed.

(** Both changes of the statistics. *)
Lemma settle_pieces_ok k replay r nb d0 l dw rd fd s :
  let fg := dfrag d0 in let first := ceph_frag_make_child fg nb 0 in
  ready nb fg s -> sok k s -> filled replay r nb d0 l dw s ->
  exists s1 s', on_fnodes (settle_fnode (ino s)) (pieces fg nb) s = Some s1 /\
    on_fnodes (give_diff rd fd) (take 1 (pieces fg nb)) s1 = Some s' /\ sok k s' /\ same_inode s s' /\
    (forall c, c ∈ pieces fg nb -> exists f, get_dirfrag c s' = Some f /\
       subfrag_ok replay r nb d0 c (taken_by (ino s) c l) f /\
       waiting_on_dentry (waits_ f) = waits_in (ino s) c dw /\
       settled (ino s) rd fd (c =? first) (fnode f)) /\
    forall x, x ∉ pieces fg nb -> get_dirfrag x s' = get_dirfrag x s.
Proof.
  cbn zeta. set (fg := dfrag d0). set (first := ceph_frag_make_child fg nb 0). intros Hr Hs Hf.
  assert (Hin : first ∈ pieces fg nb).
  { destruct Hr. apply elem_of_pieces. exists 0. pose proof (Z.pow_pos_nonneg 2 nb). split; [lia|done]. }
  destruct (on_fnodes_ok k (settle_fnode (ino s)) (pieces fg nb) s Hs (NoDup_pieces _ _ _ Hr))
    as (s1 & E1 & Hs1 & Ei1 & M1 & G1).
  { apply Forall_forall. intros c Hc. destruct (Hf c Hc) as (f & -> & _). done. }
  destruct (on_fnodes_ok k (give_diff rd fd) [first] s1 Hs1) as (s2 & E2 & Hs2 & Ei2 & M2 & G2).
  { apply NoDup_singleton. }
  { apply Forall_singleton. rewrite G1, bool_decide_eq_true_2 by done. destruct (Hf first Hin) as (f & -> & _). done. }
  exists s1, s2. rewrite first_piece by (destruct Hr; lia). fold first.
  split_and!; [done|done|done|by eapply same_trans|..].
  - intros c Hc. destruct (Hf c Hc) as (f & Ef & Sf & Wf). rewrite G2, G1, (bool_decide_eq_true_2 (c ∈ pieces _ _)), Ef by done.
    cbn [fmap option_fmap option_map].
    assert (S1 : subfrag_ok replay r nb d0 c (taken_by (ino s) c l) (on_fnode (settle_fnode (ino s)) f)).
    { apply subfrag_fnode; [|done|done]. intros n. apply settle_stat. }
    destruct (Z.eqb_spec c first) as [->|Hne].
    + rewrite bool_decide_eq_true_2 by (by left). eexists. split_and!; [done| |done|by apply give_ok].
      apply subfrag_fnode; [|done|done]. intros n []. by split.
    + rewrite bool_decide_eq_false_2 by (by intros ?%list_elem_of_singleton). eexists. split_and!; [done..|by apply settle_ok].
  - intros x Hx. rewrite G2, G1, !bool_decide_eq_false_2; [done|done|]. by intros ->%list_elem_of_singleton.
Qed.

(** ** Splitting *)

(** A fragment that can be split or merged: frozen if the operation is live. *)
Record frag_ok (replay : bool) d : Prop := {
  fo_complete : replay || is_complete d || negb (is_auth d) = true;
  fo_pins : pins_ok false d;
  fo_content : content_ok d;
  fo_calm : calm d;
  fo_auth_pins : auth_pins (pinned d) = 0;
  fo_frozen : is_frozen_dir d = live replay d;
  fo_waiters : waiters_ok d;
  fo_replay : replay = true -> waiting (waits_ d) = [];
  fo_replicas : is_auth d = false -> replicas d = []
}.

(** What is left of it: nothing but the sticky pin. *)
Record husk (replay : bool) d d' : Prop := {
  hk_frag : dfrag d' = dfrag d;
  hk_items : items (holds d') = [];
  hk_counts : get_num_any d' = 0 /\ num_head_null (holds d') = 0 /\ num_snap_null (holds d') = 0;
  hk_auths : pinned d' = MkAuths 0 0 0;
  hk_waits : waits_ d' = MkWaits [] [];
  hk_replicas : replicas d' = [];
  hk_state : state d' = clean_state (thawed_state replay d);
  hk_auth : dir_auth d' = dir_auth d;
  hk_dens : dens d' = dens d /\ beat_epoch d' = beat_epoch d;
  hk_pins : pins_are (sticky_only d) (pins d')
}.

(** Every name of the fragment is of it. *)
Record placed (i : inode) d : Prop := {
  pl_items : Forall (fun dn => holds_name i (dfrag d) (name dn) = true) (items (holds d));
  pl_waits : Forall (fun p => holds_name i (dfrag d) p.1.1 = true) (waiting_on_dentry (waits_ d))
}.

Definition prepared (replay : bool) d ps : cdir :=
  set_waits (MkWaits [] (waiting (waits_ d)))
    (set_pinned (MkAuths (auth_pins (pinned d) + b2z (live replay d)) (nested_auth_pins (pinned d))
                   (dir_auth_pins (pinned d))) (set_pins ps d)).

Lemma prepared_content replay d ps : content_ok d -> content_ok (prepared replay d ps).
Proof. intros []. split; try done. cbn. pose proof (b2z_range (live replay d)). lia. Qed.

Lemma add_waiters_Forall (P : string_snap_t -> Prop) dw m :
  Forall (fun p => P p.1) dw -> Forall (fun p => P p.1) m -> Forall (fun p => P p.1) (add_waiters dw m).
Proof.
  unfold add_waiters. revert dw. induction m as [|[k l] m IH]; intros dw Hd Hm; [done|]. cbn [foldl fst snd].
  apply Forall_cons in Hm as [Hk Hm]. apply IH; [|done]. clear IH Hm m. cbn in Hk.
  induction Hd as [|[k' l'] dw Hk' Hd IH]; cbn; [by repeat constructor|].
  destruct (snap_lt k' k); [by constructor|]. destruct (snap_lt k k'); by repeat constructor.
Qed.

(** What is left of a fragment from which everything was taken. *)
Lemma finish_husk k replay ws d ps d' s :
  sok k s -> get_dirfrag (dfrag d) s = Some d' -> frag_ok replay d -> shrunk (prepared replay d ps) [] d' ->
  exists i' dh, finish_old_fragment ws replay d' (ino s) = Some (dh, i', woken replay ws d) /\
    husk replay d dh /\ moved d' (ino s) dh i'.
Proof.
  intros Hs Hd Hf Hsh. pose proof (sh_content _ _ _ Hsh) as [_ _ Hn Hr _]. rewrite (sh_items _ _ _ Hsh) in Hn, Hr.
  pose proof (sh_rest _ _ _ Hsh) as E. pose proof (sh_items _ _ _ Hsh) as Ei.
  set (d1 := set_pins _ _) in E. assert (Es : state d' = state d) by (rewrite E; done).
  assert (Ew : waits_ d' = MkWaits [] (waiting (waits_ d))) by (rewrite E; done).
  assert (El : live replay d' = live replay d) by (unfold live, is_auth, state_test; by rewrite Es).
  destruct (finish_old_ok ws replay d' (ino s)) as (p & i' & -> & Hp & M);
    [by eapply sok_backed|apply Hsh| |].
  { destruct Hf. split; rewrite ?Ew; try done.
    - destruct (pinned d') as [a b c] eqn:Ep. rewrite E in Ep. cbn in Ep, Hn, Hr. rewrite El. f_equal; [|done|done].
      injection Ep. lia.
    - rewrite El, <- fo_frozen0. unfold is_frozen_dir, state_test. by rewrite Es.
    - unfold calm, state_test. by rewrite Es.
    - unfold waiters_ok. by rewrite Ew.
    - unfold is_auth, state_test. rewrite Es, E. exact fo_replicas0. }
  exists i'. eexists. split_and!; [| |exact M].
  - unfold woken. by rewrite Ew.
  - assert (Et : thawed_state replay d' = thawed_state replay d) by (unfold thawed_state; by rewrite El, Es).
    split; try done.
    + rewrite E. done.
    + cbn. by rewrite Et.
    + rewrite E. done.
    + rewrite E. done.
    + eapply pins_are_ext; [|exact Hp]. intros q. unfold sticky_only, state_test. by rewrite Es.
Qed.

(** Up to the waiters: the pieces have everything, the old fragment nothing. *)
Lemma split_filled k nb replay now mem d s :
  let fg := dfrag d in let ds := items (holds d) in let m := waiting_on_dentry (waits_ d) in
  ready nb fg s -> sok k s -> get_dirfrag fg s = Some d -> frag_ok replay d -> placed (ino s) d ->
  Forall (fun c => get_dirfrag c s = None) (pieces fg nb) ->
  exists ps i1 s2 s3 s4 d', let d0 := prepared replay d ps in
    prepare_old_fragment [] replay d (ino s) = Some (d0, i1, add_waiters [] m) /\
    create_subfrags nb replay now mem d0 (pieces fg nb) (store d0 i1 s) = Some s2 /\
    repartition (length ds) fg (pieces fg nb) s2 = Some s3 /\
    move_waiters fg (pieces fg nb) (add_waiters [] m) s3 = Some s4 /\
    sok k s4 /\ same_inode s s4 /\ get_dirfrag fg s4 = Some d' /\ shrunk d0 [] d' /\
    filled replay (stickydir_ref s) nb d0 ds (add_waiters [] m) s4 /\
    forall x, x <> fg -> x ∉ pieces fg nb -> get_dirfrag x s4 = get_dirfrag x s.
Proof.
  cbn zeta. intros Hr Hs Hd Hf Hp Hn. destruct Hf as [Hco Hpi Hct Hca Hap Hfr Hwt Hre Hrp].
  pose proof (content_nested _ Hct) as [N1 N2].
  destruct (prepare_old_ok [] replay d (ino s)) as (ps & i1 & E0 & P0 & M0);
    [by eapply sok_backed|done|lia|done|]. cbn zeta in *. fold (prepared replay d ps) in *.
  exists ps, i1. set (d0 := prepared replay d ps) in *. set (fg := dfrag d) in *. set (s1 := store d0 i1 s).
  assert (Hg1 : forall x, get_dirfrag x s1 = if x =? fg then Some d0 else get_dirfrag x s) by (intros; apply get_store).
  assert (Hs1 : sok k s1) by (by eapply sok_store). assert (Q1 : same_inode s s1) by (by eapply same_moved).
  assert (Hni : fg ∉ pieces fg nb) by (intros Hx; by destruct (piece_wf _ _ _ _ Hr Hx) as (_ & _ & ?)).
  destruct (create_subfrags_ok k nb replay now mem d0 (pieces fg nb) s1 Hs1 (NoDup_pieces _ _ _ Hr))
    as (s2 & E2 & Hs2 & Q2 & O2 & C2).
  { rewrite Forall_forall in Hn |- *. intros c Hc. destruct (piece_wf _ _ _ _ Hr Hc) as (Wc & _ & Nc).
    rewrite Hg1, (proj2 (Z.eqb_neq _ _)) by done. split; [auto|by apply wf_nonneg]. }
  pose proof (same_trans _ _ _ Q1 Q2) as Q12. destruct Hp as [Hp1 Hp2].
  destruct (repartition_ok k replay (stickydir_ref s) nb d0 (length (items (holds d))) (items (holds d)) [] d0 s2)
    as (s3 & d' & E3 & Hs3 & Q3 & G3 & S3 & F3 & O3).
  { by eapply ready_same. } { done. } { done. }
  { change (dfrag d0) with fg. rewrite O2, Hg1, Z.eqb_refl by done. done. }
  { split; [|done|by apply prepared_content|done]. unfold d0, prepared. done. }
  { apply Hct. } { by rewrite (holds_name_same _ _ Q12). }
  { intros c Hc. destruct (C2 c Hc) as (f & ? & ? & Hw). by exists f. } { done. }
  cbn [app] in F3. pose proof (same_trans _ _ _ Q12 Q3) as Q13.
  destruct (move_waiters_ok k replay (stickydir_ref s) nb d0 (items (holds d))
    (add_waiters [] (waiting_on_dentry (waits_ d))) [] s3) as (s4 & E4 & Hs4 & Q4 & F4 & O4); [|done| |done|].
  { by eapply ready_same. }
  { rewrite (holds_name_same _ _ Q13). by apply (add_waiters_Forall (fun key => holds_name (ino s) fg key.1 = true)). }
  cbn [app] in F4. change (dfrag d0) with fg in *. exists s2, s3, s4, d'.
  split_and!; [done|done|done|done|done|by eapply same_trans|by rewrite O4|done|done|].
  intros x H1 H2. rewrite O4, O3, O2, Hg1, (proj2 (Z.eqb_neq _ _)) by done. done.
Qed.

Lemma subfrag_prepared replay r nb d ps c l f :
  subfrag_ok replay r nb (prepared replay d ps) c l f -> subfrag_ok replay r nb d c l f.
Proof. intros []. by split. Qed.

(** [split] fails no assertion. Each piece has the dentries and the waiters of
    the names it holds, with pins, counts and statistics that agree; nothing is
    left of the old fragment, and the others are as they were. *)
Lemma split_ok k nb replay now mem ws d s :
  let fg := dfrag d in
  ready nb fg s -> sok k s -> get_dirfrag fg s = Some d -> frag_ok replay d -> placed (ino s) d ->
  Forall (fun c => get_dirfrag c s = None) (pieces fg nb) ->
  exists s' dh,
    split nb fg replay now mem ws s = Some (s', pieces fg nb, woken replay ws d) /\
    sok k s' /\ same_inode s s' /\ get_dirfrag fg s' = Some dh /\ husk replay d dh /\
    (forall c, c ∈ pieces fg nb -> exists f, get_dirfrag c s' = Some f /\
       subfrag_ok replay (stickydir_ref s) nb d c (taken_by (ino s) c (items (holds d))) f /\
       waiting_on_dentry (waits_ f) = waits_in (ino s) c (add_waiters [] (waiting_on_dentry (waits_ d))) /\
       settled (ino s) (rstatdiff (ino s) (fnode d) new_nest_info) (fragstatdiff (ino s) (fnode d) new_frag_info)
         (c =? ceph_frag_make_child fg nb 0) (fnode f)) /\
    forall x, x <> fg -> x ∉ pieces fg nb -> get_dirfrag x s' = get_dirfrag x s.
Proof.
  cbn zeta. intros Hr Hs Hd Hf Hp Hn.
  destruct (split_filled k nb replay now mem d s Hr Hs Hd Hf Hp Hn)
    as (ps & i1 & s2 & s3 & s4 & d' & E0 & E2 & E3 & E4 & Hs4 & Q4 & G4 & S4 & F4 & O4).
  cbn zeta in *. set (fg := dfrag d) in *. set (rd := rstatdiff _ _ _). set (fd := fragstatdiff _ _ _).
  destruct (settle_pieces_ok k replay (stickydir_ref s) nb (prepared replay d ps) (items (holds d))
    (add_waiters [] (waiting_on_dentry (waits_ d))) rd fd s4) as (s5 & s6 & E5 & E6 & Hs6 & Q6 & C6 & O6);
    [by eapply ready_same|done|done|]. change (dfrag (prepared replay d ps)) with fg in *.
  assert (Hni : fg ∉ pieces fg nb) by (intros Hx; by destruct (piece_wf _ _ _ _ Hr Hx) as (_ & _ & ?)).
  assert (G6 : get_dirfrag fg s6 = Some d') by (by rewrite O6).
  destruct (finish_husk k replay ws d ps d' s6 Hs6 G6 Hf S4) as (i7 & dh & E7 & Hk & M7).
  pose proof (same_trans _ _ _ Q4 Q6) as Q. assert (Ek : dfrag dh = fg) by apply Hk.
  assert (Hg : forall x, get_dirfrag x (store dh i7 s6) = if x =? fg then Some dh else get_dirfrag x s6).
  { intros x. by rewrite get_store, Ek. }
  exists (store dh i7 s6), dh. split_and!.
  - unfold split. rewrite Hd. obind. rewrite (fo_complete _ _ Hf). cbn zeta.
    rewrite split_spec by apply Hr. obind. change (map _ (seqZ 0 (2 ^ nb))) with (pieces fg nb).
    rewrite E0. obind. rewrite E2. obind. change (holds (prepared replay d ps)) with (holds d). rewrite E3. obind. rewrite E4. obind. fold rd fd. rewrite E5. obind. rewrite E6. obind. rewrite G6. obind. rewrite E7. done.
  - by eapply sok_store.
  - eapply same_trans; [exact Q|]. by eapply same_moved.
  - by rewrite Hg, Z.eqb_refl.
  - done.
  - intros c Hc. rewrite Hg, (proj2 (Z.eqb_neq _ _)) by (by intros ->). destruct (C6 c Hc) as (f & Ef & Sf & Wf & Ff).
    unfold taken_by, waits_in in *. rewrite (holds_name_same _ _ Q4) in *. exists f.
    split_and!; [done|by apply subfrag_prepared in Sf|done|]. destruct Ff, Q4. split; try done; congruence.
  - intros x H1 H2. rewrite Hg, (proj2 (Z.eqb_neq _ _)), O6, O4 by done. done.
Qed.

(** ** Closing what is left *)

(** The fragments above lose the counts of one that is closed. *)
Definition lighten (e : ienv) (n : density) (l : list density) : list density :=
  match i_parent e with
  | Some _ => map (fun x => MkDensity (num_dentries_nested x - num_dentries_nested n)
      (num_dentries_auth_subtree x - num_dentries_auth_subtree n)
      (num_dentries_auth_subtree_nested x - num_dentries_auth_subtree_nested n)) l
  | None => l
  end.

Lemma clean_bits replay d k :
  0 <= k -> Z.testbit (clean_state (thawed_state replay d)) k =
    Z.testbit (state d) k && negb (live replay d && (4 =? k)) && negb (29 =? k).
Proof.
  intros Hk. rewrite clean_bit by done. f_equal. unfold thawed_state, STATE_FROZENDIR.
  destruct (live replay d); cbn [andb negb]; [by apply bit_clear|by rewrite andb_true_r].
Qed.

(** The pins of the husk are those it calls for, so [put] of the sticky one is
    the last. *)
Lemma husk_loads replay d dh :
  frag_ok replay d -> husk replay d dh -> nl dh = 0 /\ fl dh = 0 /\ is_dirty dh = false /\
    state_test dh STATE_STICKY = state_test d STATE_STICKY.
Proof.
  intros Hf Hk.
  assert (Et : forall j, 0 <= j -> state_test dh (2 ^ j) =
    state_test d (2 ^ j) && negb (live replay d && (4 =? j)) && negb (29 =? j)).
  { intros j Hj. rewrite !state_test_bit, (hk_state _ _ _ Hk) by done. by apply clean_bits. }
  pose proof (fo_frozen _ _ Hf) as E. unfold nl, fl, get_cum_auth_pins, is_frozen_dir, is_dirty in *.
  unfold STATE_FROZENDIR, STATE_DIRTY, STATE_STICKY in *. rewrite (hk_auths _ _ _ Hk), !Et, E by lia. cbn -[state_test live].
  rewrite !andb_false_r, !andb_true_r. by destruct (live replay d).
Qed.

(** The sticky pin is the last. *)
Lemma unstick_ok d (dh : cdir (D := D)) s :
  backed dh (ino s) -> pins_are (sticky_only d) (pins dh) -> state_test d STATE_STICKY = (0 <? stickydir_ref s) ->
  exists ps i1 st,
    (if 0 <? stickydir_ref s then put PIN_STICKY (state_clear STATE_STICKY dh) (ino s) else Some (dh, ino s)) =
      Some (set_pins ps (set_state st dh), i1) /\ ref ps = 0 /\ imoves (ino s) i1 (- rl dh) 0 0.
Proof.
  intros Hb Hpi Hst.
  rewrite <- Hst in *. destruct (state_test d STATE_STICKY) eqn:Ek.
  - destruct (put_ok _ PIN_STICKY dh (ino s) Hb Hpi) as (ps & i1 & E & Hps & Hm);
      [is_pin|unfold sticky_only; by rewrite Ek|].
    exists ps, i1, (Z.ldiff (state dh) STATE_STICKY).
    assert (Er : ref ps = 0).
    { rewrite (pa_ref _ _ Hps), sum_bump by is_pin. rewrite sum_sticky, Ek. done. }
    split_and!; [|done|].
    + unfold put in *. change (pins (state_clear STATE_STICKY dh)) with (pins dh).
      destruct (pin_put _ _) as [[p last_]|]; [|done]. cbn in E |- *. destruct last_; cbn in E |- *.
      * destruct (i_put _ _); [|done]. cbn in E |- *. by simplify_eq.
      * by simplify_eq.
    + unfold moved in Hm. change (nl (set_pins ps dh)) with (nl dh) in Hm. change (fl (set_pins ps dh)) with (fl dh) in Hm.
      assert (E0 : rl (set_pins ps dh) = 0) by (unfold rl; cbn; by rewrite Er).
      rewrite E0, !Z.sub_diag, Z.sub_0_l in Hm. exact Hm.
  - exists (pins dh), (ino s), (state dh). destruct dh. cbn in *. split_and!; [done| |].
    + rewrite (pa_ref _ _ Hpi), sum_sticky, Ek. done.
    + unfold rl. cbn. rewrite (pa_ref _ _ Hpi), sum_sticky, Ek. apply imoves_refl, Hb.
Qed.

Lemma close_ok k replay d (dh : cdir (D := D)) s :
  sok k s -> get_dirfrag (dfrag d) s = Some dh -> frag_ok replay d -> husk replay d dh ->
  state_test d STATE_STICKY = (0 <? stickydir_ref s) ->
  exists s', close_dirfrag (dfrag d) s = Some s' /\ sok k s' /\ env (ino s') = env (ino s) /\
    stickydir_ref s' = stickydir_ref s /\ dirfragtree s' = dirfragtree s /\
    above (ino s') = lighten (env (ino s)) (dens d) (above (ino s)) /\
    forall x, get_dirfrag x s' = if x =? dfrag d then None else get_dirfrag x s.
Proof.
  intros Hs Hd Hf Hk Hst. destruct (husk_loads _ _ _ Hf Hk) as (En & Ef & Edi & Est).
  destruct Hk as [Hfr Hi (Hc & Hn1 & Hn2) Hau Hw Hre Hsta Hda [Hde Hbe] Hpi].
  unfold close_dirfrag. rewrite Hd. obind. unfold remove_null_dentries. rewrite Hi. cbn [remove_nulls]. obind.
  rewrite Hn1, Hn2, Hc, Hi. cbn [length andb]. change (Z.of_nat 0) with 0. cbn [Z.eqb andb]. obind.
  rewrite Edi. obind.
  destruct (unstick_ok d dh s (sok_backed _ _ _ _ Hs Hd) Hpi Hst) as (ps & i1 & st & -> & Er & M).
  obind. set (d2 := set_pins ps _).
  assert (Ed : dens (_maybe_update_epoch (-1) d2) = dens d) by (unfold _maybe_update_epoch; by destruct (_ <? -1)).
  assert (Epi : ref (pins (_maybe_update_epoch (-1) d2)) = 0) by (unfold _maybe_update_epoch; by destruct (_ <? -1)).
  rewrite Epi, Ed. cbn [Z.eqb]. eexists. split; [done|].
  assert (Hl : forall (g : cdir -> Z), loads g (map_erase (dirfrags s) (dfrag d)) = loads g (dirfrags s) - g dh).
  { intros g. rewrite (loads_erase g 0) by apply Hs. unfold get_dirfrag in Hd. by rewrite Hd. }
  destruct Hs, M. set (i2 := match i_parent (env i1) with Some _ => _ | None => _ end).
  assert (Ei : env i2 = env i1 /\ i_pins i2 = i_pins i1 /\ i_auth_pins i2 = i_auth_pins i1 /\
    i_nested_auth_pins i2 = i_nested_auth_pins i1 /\ iok i2).
  { unfold i2. destruct (i_parent _); [|done]. split_and!; try done. destruct im_ok0. by split. }
  destruct Ei as (E1 & E2 & E3 & E4 & Hok). split_and!.
  - split; cbn [ino dirfrags]; rewrite ?Hl, ?E2, ?E3, ?E4; try done; try lia.
    + by apply map_erase_keys.
    + intros x e. unfold get_dirfrag. cbn. rewrite map_find_erase_any. destruct (x =? dfrag d); [done|]. apply so_frag0.
  - cbn. by rewrite E1.
  - done.
  - done.
  - cbn. unfold i2, lighten. rewrite im_env0. destruct (i_parent (env (ino s))); cbn; by rewrite im_above0.
  - intros x. unfold get_dirfrag. cbn. by rewrite map_find_erase_any.
Qed.

End dir.
End DirFragment.
