(* ===== verification/DirMerge.v ===== *)
(** * What merging fragments does

    [CDir::merge]: the fragments that are merged give all they have to the new
    one and are closed. *)

From S2P Require Import Prelude Encoding Frag FragTree Double Load StrHash CacheDir CacheDirFacts DirSplit DirFragment.
Import Encoding.

Module DirMerge.
Import Frag FragTree FragFacts FragTreeFacts StrHash CacheDir CacheDirFacts DirSplit DirFragment.

(** ** Names that differ *)

Lemma name_compare_eq x y : name_compare x y = Eq -> x = y.
Proof.
  revert y. induction x as [|a x IH]; intros [|b y]; try done. cbn.
  destruct (Z.compare_spec a b); try done. intros E. subst. f_equal. by apply IH.
Qed.

Lemma name_compare_opp x y : name_compare y x = CompOpp (name_compare x y).
Proof.
  revert y. induction x as [|a x IH]; intros [|b y]; try done. cbn. rewrite (Z.compare_antisym a b).
  destruct (a ?= b); cbn; [apply IH|done..].
Qed.

Lemma name_differ x y : name x <> name y -> differ x y = true.
Proof.
  intros Hn. unfold differ, dn_lt. rewrite (name_compare_opp (name x)).
  set (a := ceph_frag_value (hash x)). set (b := ceph_frag_value (hash y)).
  destruct (Z.eqb_spec (a - b) 0); destruct (Z.eqb_spec (b - a) 0); cbn [negb]; try lia.
  destruct (name_compare (name x) (name y)) eqn:E; try done. by apply name_compare_eq in E.
Qed.

Section dir.
Context {D} `{Double D}.
Implicit Types d f : cdir (D := D).
Implicit Types s : diri (D := D).
Implicit Types ds : list (cdir (D := D)).

(** ** The fragment that grows *)

(** The new fragment, of authority [au], popularity [pp], state [st],
    replicas [rep] and version [v], when it has taken the dentries [l]. *)
Record growing (fg : Z) (au : Z * Z) (pp : pops (D := D)) (st : Z) (rep : list (Z * Z)) (v : Z) (l : list dentry) f : Prop := {
  gr_frag : dfrag f = fg;
  gr_items : items (holds f) ≡ₚ l;
  gr_counted : counted (holds f);
  gr_content : content_ok f;
  gr_pins : pins_ok true f;
  gr_auth_pins : auth_pins (pinned f) = 0;
  gr_calm : calm f;
  gr_auth : dir_auth f = au;
  gr_state : state f = st;
  gr_replicas : replicas f = rep;
  gr_stat : stat_ok (fnode f) l;
  gr_version : version (fnode f) = v;
  gr_waits : waits_ f = MkWaits [] [];
  gr_pop : pop f = pp;
  gr_dens : dens f = MkDensity 0 0 0;
  gr_projected : is_projected f = false
}.

Lemma growing_step fg au pp st rep v l f dn pf :
  growing fg au pp st rep v l f -> dn_ok dn -> Forall (fun x => differ x dn = true) l ->
  pins_ok true (set_pins pf (stolen dn f)) -> growing fg au pp st rep v (l ++ [dn]) (set_pins pf (stolen dn f)).
Proof.
  intros [] Hdn Hl Hp. assert (Hf : Forall (fun x => differ x dn = true) (items (holds f))) by (by rewrite gr_items0).
  assert (Ei : items (holds (set_pins pf (stolen dn f))) ≡ₚ l ++ [dn]).
  { cbn. rewrite gain_items, items_set_perm by done. rewrite gr_items0. apply Permutation_cons_append. }
  pose proof (stolen_content dn f gr_content0 Hdn Hf) as [].
  split; try done.
  - by apply gain_counted.
  - change (stat_ok (account_dentry dn (fnode f)) (l ++ [dn])).
    eapply stat_perm; [|by apply account_stat]. apply Permutation_cons_append.
  - cbn. unfold account_dentry. destruct (negb _); [done|]. by destruct (linkage dn).
Qed.

Lemma steal_all_ok k fg au pp st rep v d0 n l done_ f d s :
  let from := dfrag d0 in
  sok k s -> calm d0 -> fg <> from -> get_dirfrag from s = Some d -> shrunk d0 l d ->
  get_dirfrag fg s = Some f -> growing fg au pp st rep v done_ f -> distinct (done_ ++ l) -> (length l <= n)%nat ->
  exists s' f' d', steal_all n fg from s = Some s' /\ sok k s' /\ same_inode s s' /\
    get_dirfrag from s' = Some d' /\ shrunk d0 [] d' /\
    get_dirfrag fg s' = Some f' /\ growing fg au pp st rep v (done_ ++ l) f' /\
    forall x, x <> fg -> x <> from -> get_dirfrag x s' = get_dirfrag x s.
Proof.
  cbn zeta. intros Hs Hc Hne. set (from := dfrag d0) in *. revert l done_ f d s Hs.
  induction n as [|n IH]; intros [|dn l] done_ f d s Hs Hd Hsh Ef Gf Hdi Hn; cbn [length] in Hn; [|lia| |];
    cbn [steal_all]; rewrite Hd; obind; rewrite (sh_items _ _ _ Hsh);
    [exists s, f, d; rewrite app_nil_r; split_and!; [done..|apply same_refl|done|done|done|done|done]..|].
  rewrite Ef. obind.
  destruct (steal_ok true f d (ino s) dn l (sok_backed2 k s from fg d f Hs ltac:(done) Hd Ef)
    (gr_pins _ _ _ _ _ _ _ _ Gf) (sh_pins _ _ _ Hsh) (gr_calm _ _ _ _ _ _ _ _ Gf) (shrunk_calm _ _ _ Hsh Hc)
    (gr_content _ _ _ _ _ _ _ _ Gf) (gr_counted _ _ _ _ _ _ _ _ Gf) (sh_content _ _ _ Hsh) (sh_items _ _ _ Hsh))
    as (pf & pd & i1 & -> & Pf & Pd & M). obind.
  pose proof (shrunk_step _ _ _ _ _ Hsh Pd) as Sd.
  assert (Gf' : growing fg au pp st rep v (done_ ++ [dn]) (set_pins pf (stolen dn f))).
  { apply growing_step; [done| |by eapply distinct_mid|done].
    pose proof (ct_dentries _ (sh_content _ _ _ Hsh)) as Hk. rewrite (sh_items _ _ _ Hsh) in Hk.
    by apply Forall_cons in Hk as [? _]. }
  set (f' := set_pins pf _) in *. set (d' := set_pins pd _) in *.
  assert (Ed' : dfrag d' = from) by (by apply shrunk_state in Sd as [_ ->]).
  assert (Ef' : dfrag f' = fg) by apply Gf'. set (s1 := store d' i1 (store f' i1 s)).
  assert (Hg : forall x, get_dirfrag x s1 = if x =? from then Some d' else if x =? fg then Some f' else get_dirfrag x s).
  { intros x. unfold s1. by rewrite !get_store, Ed', Ef'. }
  assert (Hm : same_inode s s1) by (by eapply same_moved).
  destruct (IH l (done_ ++ [dn]) f' d' s1) as (s' & f1 & d1 & -> & Hs' & Hm' & Hd' & Sh' & Hf' & Gf1 & Ho).
  { by eapply (sok_store2 k s from fg). } { by rewrite Hg, Z.eqb_refl. } { done. }
  { by rewrite Hg, (proj2 (Z.eqb_neq _ _)), Z.eqb_refl by done. } { done. } { by rewrite <- app_assoc. } { lia. }
  exists s', f1, d1. rewrite <- app_assoc in Gf1. split_and!; [done|done|by eapply same_trans|done..|].
  intros x H1 H2. rewrite Ho, Hg, !(proj2 (Z.eqb_neq _ _)) by done. done.
Qed.

(** ** Merging one fragment *)

Definition kept (st : Z) d : Z := Z.lor st (Z.land (state d) MASK_STATE_FRAGMENT_KEPT).

Lemma keep_bit st d k :
  0 <= k -> Z.testbit (kept st d) k =
    Z.testbit st k || Z.testbit (state d) k && ((29 =? k) || (11 =? k) || (10 =? k) || (20 =? k) || (26 =? k)).
Proof.
  intros Hk. unfold kept, MASK_STATE_FRAGMENT_KEPT, STATE_DIRTY, STATE_EXPORTBOUND, STATE_IMPORTBOUND,
    STATE_AUXSUBTREE, STATE_REJOINUNDEF.
  rewrite Z.lor_spec, Z.land_spec, !Z.lor_spec, !Z.pow2_bits_eqb by lia. by rewrite !orb_assoc.
Qed.

(** The new fragment takes over what is not a dentry. *)
Lemma merge_state_ok fg au pp st rep v l d f :
  growing fg au pp st rep v l f ->
  exists f', merge_state d f = Some f' /\
    growing fg au pp (kept st d) (merge_replicas (replicas d) rep) (Z.max v (version (fnode d))) l f' /\
    forall i, iok i -> moved f i f' i.
Proof.
  intros [? ? ? [] ? ? [Hc1 Hc2] ? Es Er [] Ev ? ? ? Ep]. unfold merge_state. rewrite Er.
  set (f1 := set_replicas _ f). set (v' := Z.max v (version (fnode d))).
  assert (E : exists n pv, (if version (fnode f1) <? version (fnode d) then set_version (version (fnode d)) f1 else Some f1)
    = Some (set_fnode n pv f1) /\ version n = v' /\ fragstat n = fragstat (fnode f) /\ rstat n = rstat (fnode f)).
  { change (version (fnode f1)) with (version (fnode f)). rewrite Ev. unfold set_version. change (is_projected f1) with (is_projected f).
    rewrite Ep. destruct (Z.ltb_spec v (version (fnode d))).
    - do 2 eexists. split_and!; [done|cbn; lia|done|done].
    - exists (fnode f), (projected_version f). split_and!; [by destruct f|lia|done|done]. }
  destruct E as (n & pv & -> & E1 & E2 & E3). obind. eexists. split; [done|]. set (f' := state_set _ _).
  assert (Et : forall j, 0 <= j -> state_test f' (2 ^ j) = state_test f (2 ^ j) ||
    state_test d (2 ^ j) && ((29 =? j) || (11 =? j) || (10 =? j) || (20 =? j) || (26 =? j))).
  { intros j Hj. rewrite !state_test_bit by done. by apply keep_bit. }
  split; [split; try done|].
  - apply (pins_same true f); [done..|]. intros p. unfold expected, is_frozen_dir, STATE_FROZENDIR, STATE_STICKY.
    rewrite !Et by lia. cbn -[b2z Z.eqb state_test]. rewrite !andb_false_r, !orb_false_r. pin_split p; done.
  - unfold calm, STATE_FREEZINGDIR, STATE_FREEZINGTREE in *. rewrite !Et by lia. cbn -[state_test].
    by rewrite !andb_false_r, !orb_false_r.
  - cbn [state f' state_set set_state set_fnode set_replicas f1]. by rewrite Es.
  - split; cbn [fnode f' state_set set_state set_fnode]; [by rewrite E2|by rewrite E3].
  - intros i Hi. apply moved_same; [done..|]. unfold fl, is_frozen_dir, is_auth, STATE_FROZENDIR, STATE_AUTH.
    rewrite !Et by lia. cbn -[b2z state_test]. by rewrite !andb_false_r, !orb_false_r.
Qed.

(** What no step of a merge changes. *)
Record same_dir s s' : Prop := {
  sd_env : env (ino s') = env (ino s);
  sd_sticky : stickydir_ref s' = stickydir_ref s;
  sd_tree : dirfragtree s' = dirfragtree s
}.

Lemma same_dir_trans s1 s2 s3 : same_dir s1 s2 -> same_dir s2 s3 -> same_dir s1 s3.
Proof. intros [] []. split; congruence. Qed.

Definition gather (i : inode) (replay : bool) (g : gathered) d : gathered :=
  MkGathered (rstatdiff i (fnode d) (g_rstat g)) (fragstatdiff i (fnode d) (g_fragstat g))
    (add_waiters (g_waiters g) (waiting_on_dentry (waits_ d))) (woken replay (g_queue g) d).

(** A fragment that can be closed, too. *)
Definition closable (replay : bool) s d : Prop :=
  get_dirfrag (dfrag d) s = Some d /\ frag_ok replay d /\ state_test d STATE_STICKY = (0 <? stickydir_ref s).

(** All it has is taken. *)
Lemma take_all_ok k fg au pp st rep v l replay g d f s :
  let from := dfrag d in
  sok k s -> fg <> from -> closable replay s d -> get_dirfrag fg s = Some f ->
  growing fg au pp st rep v l f -> distinct (l ++ items (holds d)) ->
  exists ps i1 s2 d' f2 f3 dh i4, let d0 := prepared replay d ps in
    prepare_old_fragment (g_waiters g) replay d (ino s) =
      Some (d0, i1, add_waiters (g_waiters g) (waiting_on_dentry (waits_ d))) /\
    steal_all (length (items (holds d))) fg from (store d0 i1 s) = Some s2 /\
    get_dirfrag from s2 = Some d' /\ get_dirfrag fg s2 = Some f2 /\ merge_state d' f2 = Some f3 /\
    finish_old_fragment (g_queue g) replay d' (ino s2) = Some (dh, i4, woken replay (g_queue g) d) /\
    husk replay d dh /\ sok k (store dh i4 (store f3 i4 s2)) /\ same_inode s (store dh i4 (store f3 i4 s2)) /\
    growing fg au pp (kept st d) (merge_replicas (replicas d) rep) (Z.max v (version (fnode d)))
      (l ++ items (holds d)) f3 /\
    forall x, x <> fg -> x <> from -> get_dirfrag x s2 = get_dirfrag x s.
Proof.
  cbn zeta. intros Hs Hne (Hd & Hf & Hst) Ef Gf Hdi. pose proof Hf as [Hco Hpi Hct Hca Hap Hfr Hwt Hre Hrp].
  pose proof (content_nested _ Hct) as [N1 N2].
  destruct (prepare_old_ok (g_waiters g) replay d (ino s)) as (ps & i1 & E0 & P0 & M0);
    [by eapply sok_backed|done|lia|done|]. cbn zeta in *. fold (prepared replay d ps) in *.
  set (d0 := prepared replay d ps) in *. set (from := dfrag d) in *. set (s1 := store d0 i1 s).
  assert (Hg1 : forall x, get_dirfrag x s1 = if x =? from then Some d0 else get_dirfrag x s) by (intros; apply get_store).
  assert (Hs1 : sok k s1) by (by eapply (sok_store k s from d)). assert (Q1 : same_inode s s1) by (by eapply same_moved).
  destruct (steal_all_ok k fg au pp st rep v d0 (length (items (holds d))) (items (holds d)) l f d0 s1)
    as (s2 & f2 & d' & E2 & Hs2 & Q2 & G2 & S2 & F2 & Gf2 & O2); try done.
  { change (dfrag d0) with from. by rewrite Hg1, Z.eqb_refl. }
  { split; [|done|by apply prepared_content|done]. unfold d0, prepared. done. }
  { by rewrite Hg1, (proj2 (Z.eqb_neq _ _)) by done. }
  change (dfrag d0) with from in *.
  destruct (merge_state_ok _ _ _ _ _ _ _ d' f2 Gf2) as (f3 & E3 & Gf3 & M3).
  assert (Er : state d' = state d /\ replicas d' = replicas d /\ fnode d' = fnode d) by (rewrite (sh_rest _ _ _ S2); done).
  destruct Er as (Er1 & Er2 & Er3). unfold kept in Gf3. rewrite Er1, Er2, Er3 in Gf3. fold (kept st d) in Gf3.
  destruct (finish_husk k replay (g_queue g) d ps d' s2 Hs2 G2 Hf S2) as (i4 & dh & E4 & Hk & M4).
  assert (Mv : moved2 f2 d' (ino s2) f3 dh i4).
  { eapply moved2_trans; [apply moved2_l, M3, Hs2|by apply moved2_r]. }
  exists ps, i1, s2, d', f2, f3, dh, i4. split_and!; try done.
  - eapply (sok_store2 k s2 from fg); try done; [apply Hk|apply Gf3].
  - eapply same_trans; [exact Q1|]. eapply same_trans; [exact Q2|]. by eapply same_moved.
  - intros x H1 H2. by rewrite O2, Hg1, (proj2 (Z.eqb_neq _ _)) by done.
Qed.

Lemma merge_frag_ok k fg au pp st rep v l replay g d f s :
  sok k s -> fg <> dfrag d -> closable replay s d -> get_dirfrag fg s = Some f ->
  growing fg au pp st rep v l f -> distinct (l ++ items (holds d)) ->
  exists s' f', merge_frag fg replay (dfrag d) g s = Some (s', gather (ino s) replay g d) /\
    sok k s' /\ same_dir s s' /\ above (ino s') = lighten (env (ino s)) (dens d) (above (ino s)) /\
    get_dirfrag fg s' = Some f' /\
    growing fg au pp (kept st d) (merge_replicas (replicas d) rep) (Z.max v (version (fnode d)))
      (l ++ items (holds d)) f' /\
    forall x, x <> fg -> get_dirfrag x s' = if x =? dfrag d then None else get_dirfrag x s.
Proof.
  intros Hs Hne Hcl Ef Gf Hdi.
  destruct (take_all_ok k fg au pp st rep v l replay g d f s Hs Hne Hcl Ef Gf Hdi)
    as (ps & i1 & s2 & d' & f2 & f3 & dh & i4 & E0 & E2 & G2 & F2 & E3 & E4 & Hk & Hs4 & Q & Gf3 & O2).
  cbn zeta in *. destruct Hcl as (Hd & Hf & Hst). set (from := dfrag d) in *. set (s4 := store dh i4 _) in *.
  assert (Edh : dfrag dh = from) by apply Hk. assert (Ef3 : dfrag f3 = fg) by apply Gf3.
  assert (Hg : forall x, get_dirfrag x s4 = if x =? from then Some dh else if x =? fg then Some f3 else get_dirfrag x s2).
  { intros x. unfold s4. by rewrite !get_store, Edh, Ef3. }
  destruct (close_ok k replay d dh s4) as (s' & E5 & Hs' & Q1 & Q2 & Q3 & Ha & Hg'); try done.
  { change (dfrag d) with from. by rewrite Hg, Z.eqb_refl. } { by rewrite (sm_sticky _ _ Q). }
  fold from in E5, Hg'. exists s', f3. split_and!; try done.
  - unfold merge_frag. rewrite Hd. obind.
    replace (negb (is_auth d) || is_complete d || replay) with true
      by (rewrite <- (fo_complete _ _ Hf); by destruct replay, (is_auth d), (is_complete d)).
    cbn zeta. rewrite E0. obind. change (holds (prepared replay d ps)) with (holds d). rewrite E2. obind.
    rewrite G2. obind. rewrite F2. obind. rewrite E3. obind. rewrite E4. obind. fold s4. by rewrite E5.
  - destruct Q. split; congruence.
  - destruct Q. congruence.
  - rewrite Hg', (proj2 (Z.eqb_neq _ _)), Hg, (proj2 (Z.eqb_neq _ _)), Z.eqb_refl by done. done.
  - intros x Hx. rewrite Hg', Hg. destruct (Z.eqb_spec x from); [done|]. by rewrite (proj2 (Z.eqb_neq _ _)), O2.
Qed.

(** ** Merging them all *)

Definition all_items ds : list dentry := concat (map (fun d => items (holds d)) ds).
Definition kept_all (st : Z) ds : Z := foldl kept st ds.
Definition replicas_all (rep : list (Z * Z)) ds : list (Z * Z) := foldl (fun m d => merge_replicas (replicas d) m) rep ds.
Definition version_all (v : Z) ds : Z := foldl (fun v d => Z.max v (version (fnode d))) v ds.
Definition lighten_all (e : ienv) (l : list density) ds : list density :=
  foldl (fun l d => lighten e (dens d) l) l ds.

Lemma gather_env i i' replay g d : env i' = env i -> gather i' replay g d = gather i replay g d.
Proof. intros E. unfold gather, rstatdiff, fragstatdiff. by rewrite E. Qed.

Lemma gather_all_env i i' replay ds g :
  env i' = env i -> foldl (gather i' replay) g ds = foldl (gather i replay) g ds.
Proof. intros E. revert g. induction ds as [|d ds IH]; intros g; [done|]. cbn. by rewrite (gather_env i), IH. Qed.

Lemma merge_frags_ok k fg au pp replay ds st rep v l g f s :
  sok k s -> Forall (closable replay s) ds -> NoDup (map dfrag ds) -> fg ∉ map dfrag ds ->
  get_dirfrag fg s = Some f -> growing fg au pp st rep v l f -> distinct (l ++ all_items ds) ->
  exists s' f', merge_frags fg replay (map dfrag ds) g s = Some (s', foldl (gather (ino s) replay) g ds) /\
    sok k s' /\ same_dir s s' /\ above (ino s') = lighten_all (env (ino s)) (above (ino s)) ds /\
    get_dirfrag fg s' = Some f' /\
    growing fg au pp (kept_all st ds) (replicas_all rep ds) (version_all v ds) (l ++ all_items ds) f' /\
    forall x, x <> fg -> get_dirfrag x s' = if bool_decide (x ∈ map dfrag ds) then None else get_dirfrag x s.
Proof.
  revert st rep v l g f s. induction ds as [|d ds IH]; intros st rep v l g f s Hs Hcl Hnd Hni Ef Gf Hdi.
  { exists s, f. unfold all_items in *. cbn in *. rewrite app_nil_r in *. by split_and!. }
  apply Forall_cons in Hcl as [Hd Hcl]. cbn in Hnd, Hni. apply NoDup_cons in Hnd as [Hnd1 Hnd].
  apply not_elem_of_cons in Hni as [Hne Hni]. unfold all_items in *. cbn [map concat] in *. rewrite app_assoc in Hdi.
  assert (Hdi1 : distinct (l ++ items (holds d))).
  { clear -Hdi. set (m := l ++ _) in *. clearbody m. induction m as [|x m IH]; [done|]. cbn in *.
    destruct Hdi as [[? _]%Forall_app ?]. auto. }
  destruct (merge_frag_ok k fg au pp st rep v l replay g d f s Hs Hne Hd Ef Gf Hdi1)
    as (s1 & f1 & E1 & Hs1 & Q1 & Ha1 & Ef1 & Gf1 & Hg1).
  destruct (IH (kept st d) (merge_replicas (replicas d) rep) (Z.max v (version (fnode d)))
    (l ++ items (holds d)) (gather (ino s) replay g d) f1 s1)
    as (s' & f' & E2 & Hs' & Q2 & Ha2 & Ef' & Gf' & Hg2); try done.
  { rewrite Forall_forall in Hcl |- *. intros e He. destruct (Hcl e He) as (Ge & Fe & Se).
    assert (In : dfrag e ∈ map dfrag ds) by (apply list_elem_of_fmap; by exists e).
    split_and!; [|done|by rewrite (sd_sticky _ _ Q1)].
    rewrite Hg1, (proj2 (Z.eqb_neq _ _)); [done| |]; intros E; rewrite E in In; done. }
  exists s', f'. cbn [merge_frags]. rewrite E1. obind. rewrite E2, (gather_all_env (ino s)) by apply Q1.
  split_and!; try done.
  - by eapply same_dir_trans.
  - rewrite Ha2, (sd_env _ _ Q1), Ha1. done.
  - by rewrite app_assoc.
  - intros x Hx. rewrite Hg2, Hg1 by done. destruct (Z.eqb_spec x (dfrag d)) as [->|Hxd].
    + rewrite (bool_decide_eq_true_2 (_ ∈ _ :: _)) by (by left). by destruct (bool_decide _).
    + destruct (decide (x ∈ map dfrag ds)).
      * rewrite !bool_decide_eq_true_2; [done|by right|done].
      * rewrite !bool_decide_eq_false_2; [done| |done]. by intros [?|?]%elem_of_cons.
Qed.

(** ** The whole of a merge *)

Lemma merged_auth_same ds au a :
  Forall (fun d => dir_auth d = au) ds -> a = CDIR_AUTH_DEFAULT \/ a = au -> ds <> [] \/ a = au ->
  merged_auth ds a = Some au.
Proof.
  intros Hd. revert a. induction Hd as [|d ds Ed _ IH]; intros a Ha Hn; cbn.
  { destruct Hn; [done|by subst]. }
  rewrite Ed. destruct (decide (au = CDIR_AUTH_DEFAULT)) as [E|E].
  - rewrite (bool_decide_eq_true_2 _ E). cbn. apply IH; [done|]. destruct Ha; right; congruence.
  - rewrite (bool_decide_eq_false_2 _ E). cbn. destruct (decide (au = a)) as [<-|E'].
    + rewrite bool_decide_eq_true_2 by done. apply IH; by right.
    + rewrite bool_decide_eq_false_2 by done. destruct Ha as [->|]; [|congruence].
      rewrite bool_decide_eq_true_2 by done. apply IH; by right.
Qed.

(** Giving a new fragment its authority changes nothing else. *)
Lemma set_dir_auth_new fg auth now mem a i :
  set_dir_auth a (new_cdir (D := D) fg auth now mem) i = Some (set_auth a (new_cdir fg auth now mem), i).
Proof.
  unfold set_dir_auth. set (f := new_cdir fg auth now mem).
  change (is_subtree_root f) with false. change (get_cum_auth_pins (set_auth a f)) with 0.
  assert (Ef : is_frozen_dir (set_auth a f) = false /\ state_test (set_auth a f) STATE_FROZENTREE = false) by (by destruct auth).
  destruct Ef as [-> ->]. cbn [negb andb Z.eqb]. destruct (is_subtree_root (set_auth a f)); obind; [|done].
  by destruct (i_auth (env i)).
Qed.

Lemma add_waiters_some m dw : some m = true -> some (add_waiters m dw) = true.
Proof.
  unfold add_waiters. revert m. induction dw as [|[k l] dw IH]; intros m Hm; [done|]. cbn. apply IH, add_dentry_waiters_some.
Qed.

(** The waiters that were gathered. *)
Lemma merge_waits_ok dw f i :
  iok i -> pins_ok true f -> waits_ f = MkWaits [] [] ->
  exists ps i', let f' := set_waits (MkWaits (add_waiters [] dw) []) (set_pins ps f) in
    (match dw with
     | [] => (f, i)
     | _ :: _ => let '(f, i) := get PIN_DNWAITER f i in
         let w := waits_ f in
         (set_waits (MkWaits (foldl (fun m p => add_dentry_waiters m p.1 p.2) (waiting_on_dentry w) dw) (waiting w)) f, i)
     end) = (f', i') /\ pins_ok true f' /\ moved f i f' i'.
Proof.
  intros Hi Hp Hw. destruct dw as [|[key l] dw].
  { exists (pins f), i. cbn zeta. assert (E : set_waits (MkWaits (add_waiters [] []) []) (set_pins (pins f) f) = f).
    { destruct f. cbn in *. by rewrite Hw. }
    rewrite E. split_and!; [done..|by apply moved_refl]. }
  destruct (get_ok PIN_DNWAITER f i Hi (pins_ref _ _ Hp)) as (i' & -> & Hm).
  exists (pin_get PIN_DNWAITER (pins f)).1, i'. change (waits_ (set_pins _ f)) with (waits_ f). rewrite Hw.
  split_and!; [done| |exact Hm]. eapply pins_are_ext; [|apply (pin_get_are _ PIN_DNWAITER _ Hp); is_pin].
  assert (Hs : some (add_waiters [] ((key, l) :: dw)) = true) by (by apply (add_waiters_some [(key, l)])).
  intros p. unfold bump, expected. cbn [waits_ waiting_on_dentry waiting set_waits set_pins]. rewrite Hs, Hw.
  cbn -[b2z Z.eqb]. pin_split p; done.
Qed.

Lemma kept_all_bit st ds k :
  0 <= k -> (29 =? k) || (11 =? k) || (10 =? k) || (20 =? k) || (26 =? k) = false ->
  Z.testbit (kept_all st ds) k = Z.testbit st k.
Proof.
  intros Hk Hn. unfold kept_all. revert st. induction ds as [|d ds IH]; intros st; [done|]. cbn [foldl].
  by rewrite IH, keep_bit, Hn, andb_false_r, orb_false_r.
Qed.

(** The end of [merge]: the fragment is complete, settled and pinned. *)
Lemma finish_merge_ok fg au pp st rep v l f i (dw : dentry_waiters) (b : bool) rd fd :
  iok i -> growing fg au pp st rep v l f -> 
  exists f' i',
    (let '(f, i) := match dw with
       | [] => (f, i)
       | _ :: _ => let '(f, i) := get PIN_DNWAITER f i in
           let w := waits_ f in
           (set_waits (MkWaits (foldl (fun m p => add_dentry_waiters m p.1 p.2) (waiting_on_dentry w) dw) (waiting w)) f, i)
       end in
     let f := if is_auth f && b then mark_complete f else f in
     init_fragment_pins (on_fnode (give_diff rd fd) (on_fnode (settle_fnode i) f)) i) = (f', i') /\
    moved f i f' i' /\ pins_ok false f' /\ waits_ f' = MkWaits (add_waiters [] dw) [] /\
    state f' = (if Z.testbit st 30 && b then Z.lor st STATE_COMPLETE else st) /\
    dfrag f' = dfrag f /\ holds f' = holds f /\ pinned f' = pinned f /\ dir_auth f' = dir_auth f /\
    replicas f' = replicas f /\ pop f' = pop f /\ stat_ok (fnode f') l /\ version (fnode f') = v /\
    settled i rd fd true (fnode f').
Proof.
  intros Hi [Gf ? ? [] Gp ? ? ? Gs ? Gst Gv Gw ? ? ?].
  destruct (merge_waits_ok dw f i Hi Gp Gw) as (ps & i1 & -> & P1 & M1). cbn zeta in *.
  set (f1 := set_waits _ _) in *. set (st' := if Z.testbit st 30 && b then _ else _).
  assert (E2 : (if is_auth f1 && b then mark_complete f1 else f1) = set_state st' f1).
  { unfold st', is_auth, STATE_AUTH. rewrite state_test_bit by lia. change (state f1) with (state f). rewrite Gs.
    destruct (_ && b); unfold mark_complete, state_set; [by rewrite <- Gs|]. rewrite <- Gs. by destruct f. }
  rewrite E2. set (f3 := on_fnode _ _).
  assert (Eb : forall j, 0 <= j -> (1 =? j) = false -> state_test f3 (2 ^ j) = state_test f1 (2 ^ j)).
  { intros j Hj Hn. rewrite !state_test_bit by done. change (state f3) with st'. change (state f1) with (state f).
    rewrite Gs. unfold st', STATE_COMPLETE. destruct (_ && b); [|done]. by rewrite bit_set, Hn, orb_false_r by lia. }
  assert (P3 : pins_ok true f3).
  { apply (pins_same true f1); [done..|]. intros p. unfold expected, is_frozen_dir, STATE_FROZENDIR, STATE_STICKY.
    rewrite !Eb by (done || lia). done. }
  assert (M3 : moved f1 i1 f3 i1).
  { apply moved_same; [apply M1|done..|]. unfold fl, is_frozen_dir, is_auth, STATE_FROZENDIR, STATE_AUTH.
    by rewrite !Eb by (done || lia). }
  destruct (init_pins_ok f3 i1 (im_ok _ _ _ _ _ M1) P3) as (p4 & i4 & -> & P4 & M4).
  exists (set_pins p4 f3), i4. split_and!; try done.
  - exact (moved_trans _ _ _ _ _ _ M1 (moved_trans _ _ _ _ _ _ M3 M4)).
  - destruct (settle_stat i1 _ _ Gst). by split.
  - destruct (give_ok i1 rd fd (fnode f)). rewrite (im_env _ _ _ _ _ M1) in *. by split.
Qed.

(** The state of a new fragment: frozen and complete if it is live. *)
Definition born (replay auth : bool) (r : Z) : Z :=
  stick r (if auth then if replay then STATE_AUTH else Z.lor (Z.lor STATE_AUTH STATE_FROZENDIR) STATE_COMPLETE
           else 0).

(** The fragment that [merge] makes of [ds], [g] being what it gathered. *)
Record merged (i : inode) (replay auth : bool) (r fg : Z) (au : Z * Z) (pp : pops (D := D)) (g : gathered) ds f : Prop := {
  mg_frag : dfrag f = fg;
  mg_items : items (holds f) ≡ₚ all_items ds;
  mg_counted : counted (holds f);
  mg_content : content_ok f;
  mg_pins : pins_ok false f;
  mg_auth_pins : auth_pins (pinned f) = 0;
  mg_state : state f = kept_all (born replay auth r) ds;
  mg_auth : dir_auth f = au;
  mg_replicas : replicas f = replicas_all [] ds;
  mg_stat : stat_ok (fnode f) (all_items ds);
  mg_version : version (fnode f) = version_all 0 ds;
  mg_settled : settled i (g_rstat g) (g_fragstat g) true (fnode f);
  mg_pop : pop f = pp;
  mg_waits : waits_ f = MkWaits (add_waiters [] (g_waiters g)) []
}.

Lemma lookup_all replay s ds :
  Forall (closable replay s) ds -> mapM (fun fg => get_dirfrag fg s) (map dfrag ds) = Some ds.
Proof.
  induction 1 as [|d ds [E _] _ IH]; [done|]. cbn. rewrite E. obind. rewrite IH. done.
Qed.

(** The new fragment is put in the cache. *)
Lemma start_merge_ok k fg auth now mem replay au s :
  sok k s -> 0 <= fg -> get_dirfrag fg s = None ->
  exists s1 f1, prepare_new_fragment replay (set_auth au (new_cdir fg auth now mem)) (ino s) s = Some s1 /\
    sok k s1 /\ same_inode s s1 /\ get_dirfrag fg s1 = Some f1 /\
    growing fg au (new_pops now) (born replay auth (stickydir_ref s)) [] 0 [] f1 /\
    forall x, x <> fg -> get_dirfrag x s1 = get_dirfrag x s.
Proof.
  intros Hs H0 Hn. set (f := set_auth au _).
  assert (Hb : is_frozen_dir f = false /\ state_test f STATE_STICKY = false) by (by destruct auth).
  destruct Hb as [Hfr Hst].
  destruct (prepare_new_ok true k replay s f (ino s)) as (ps & e & i' & E & P & Hs' & He & Ha); try done.
  - assert (E : rl f = 0 /\ nl f = 0 /\ fl f = 0).
    { split_and!; [done| |by unfold fl; rewrite Hfr]. unfold nl. cbn. by rewrite andb_false_r. }
    destruct E as (-> & -> & ->). apply imoves_refl, Hs.
  - apply (pins_are_ext (fun _ => 0)); [|by split]. intros p. unfold expected. rewrite Hfr, Hst. cbn -[Z.eqb].
    pin_split p; done.
  - cbn zeta in *. set (f' := set_dens _ e _) in *.
    assert (Es : added_state replay (stickydir_ref s) f = born replay auth (stickydir_ref s)) by (by destruct replay, auth).
    exists (store f' i' s), f'. split_and!; try done.
    + by rewrite get_store, Z.eqb_refl.
    + split; try done; try (by split); try (by split; [done|repeat constructor]).
      split; unfold STATE_FREEZINGDIR, STATE_FREEZINGTREE; rewrite state_test_bit by lia;
        change (state f') with (added_state replay (stickydir_ref s) f); rewrite Es; unfold born;
        rewrite stick_bit by lia; cbn; rewrite andb_false_r; by destruct auth, replay.
    + intros x Hx. rewrite get_store. change (dfrag f') with fg. by rewrite (proj2 (Z.eqb_neq _ _)).
Qed.

Lemma lor_set st k : 0 <= k -> Z.testbit st k = true -> Z.lor st (2 ^ k) = st.
Proof.
  intros Hk Hb. apply Z.bits_inj'. intros j Hj. rewrite bit_set by done.
  destruct (Z.eqb_spec k j); [subst; by rewrite Hb|by rewrite orb_false_r].
Qed.

(** A live fragment is complete from the start, and stays so. *)
Lemma born_complete replay auth r ds :
  let st := kept_all (born replay auth r) ds in
  (if Z.testbit st 30 && negb replay then Z.lor st STATE_COMPLETE else st) = st.
Proof.
  cbn zeta. destruct (_ && _) eqn:E; [|done]. apply andb_prop in E as [E1 E2]. apply lor_set; [lia|].
  rewrite kept_all_bit in E1 |- * by (done || lia). unfold born in *. rewrite stick_bit in E1 |- * by lia.
  destruct auth; [|by rewrite andb_false_r in E1]. by destruct replay.
Qed.

(** [merge] fails no assertion. The new fragment has all the dentries and the
    waiters, with pins, counts and statistics that agree, and the fragments it
    was made of are gone. *)
Lemma merge_ok k fg auth now mem replay au ds ws s :
  let g := foldl (gather (ino s) replay) (MkGathered new_nest_info new_frag_info [] ws) ds in
  sok k s -> 0 <= fg -> get_dirfrag fg s = None -> ds <> [] -> Forall (closable replay s) ds ->
  NoDup (map dfrag ds) -> distinct (all_items ds) -> Forall (fun d => dir_auth d = au) ds ->
  exists s' f', merge (new_cdir fg auth now mem) (map dfrag ds) replay ws s = Some (s', g_queue g) /\
    sok k s' /\ same_dir s s' /\ above (ino s') = lighten_all (env (ino s)) (above (ino s)) ds /\
    get_dirfrag fg s' = Some f' /\
    merged (ino s) replay auth (stickydir_ref s) fg au (new_pops now) g ds f' /\
    forall x, x <> fg -> get_dirfrag x s' = if bool_decide (x ∈ map dfrag ds) then None else get_dirfrag x s.
Proof.
  cbn zeta. intros Hs H0 Hn Hne Hcl Hnd Hdi Hau. set (g0 := MkGathered _ _ _ ws).
  set (g := foldl (gather (ino s) replay) g0 ds).
  assert (Hni : fg ∉ map dfrag ds).
  { intros (d & E & Hd)%list_elem_of_fmap. rewrite Forall_forall in Hcl. destruct (Hcl d Hd) as (Hg & _). congruence. }
  destruct (start_merge_ok k fg auth now mem replay au s Hs H0 Hn) as (s1 & f1 & E1 & Hs1 & Q1 & G1 & Gf1 & O1).
  destruct (merge_frags_ok k fg au (new_pops now) replay ds (born replay auth (stickydir_ref s)) [] 0 [] g0 f1 s1)
    as (s2 & f2 & E2 & Hs2 & Q2 & Ha2 & G2 & Gf2 & O2); try done.
  { rewrite Forall_forall in Hcl |- *. intros d Hd. destruct (Hcl d Hd) as (Gd & Fd & Sd).
    split_and!; [|done|by rewrite (sm_sticky _ _ Q1)]. rewrite O1; [done|]. intros E. apply Hni.
    apply list_elem_of_fmap. by exists d. }
  rewrite (gather_all_env (ino s)) in E2 by apply Q1. fold g in E2. cbn [app] in Gf2.
  destruct (finish_merge_ok _ _ _ _ _ _ _ f2 (ino s2) (g_waiters g) (negb replay) (g_rstat g) (g_fragstat g) (so_ok _ _ Hs2) Gf2)
    as (f3 & i3 & E3 & M3 & P3 & W3 & S3 & Fr3 & Ho3 & Pi3 & Au3 & Re3 & Po3 & St3 & Ve3 & Se3).
  rewrite born_complete in S3. destruct Gf2 as [Ffr Fit Fco [] Fpi Fap Fca Fau Fst Fre Fsta Fve Fwa Fpo Fde Fpr].
  exists (store f3 i3 s2), f3.
  assert (Hg : forall x, get_dirfrag x (store f3 i3 s2) = if x =? fg then Some f3 else get_dirfrag x s2).
  { intros x. by rewrite get_store, Fr3, Ffr. }
  split_and!.
  - unfold merge. rewrite (lookup_all replay) by done. obind.
    rewrite (merged_auth_same ds au) by (first [done|by left]). obind. rewrite set_dir_auth_new. obind.
    cbn zeta. rewrite E1. obind. change (dfrag (set_auth au (new_cdir fg auth now mem))) with fg. fold g0. rewrite E2.
    obind. rewrite G2. obind. cbn zeta in E3.
    revert E3. clear. destruct (g_waiters g); [by intros ->|]. destruct (get _ _ _). by intros ->.
  - eapply (sok_store k s2 fg f2); [done|done|congruence|exact M3].
  - destruct Q1, Q2, M3. split; cbn; congruence.
  - cbn. rewrite (im_above _ _ _ _ _ M3), Ha2, (sm_env _ _ Q1), (sm_above _ _ Q1). done.
  - by rewrite Hg, Z.eqb_refl.
  - split; try done; try congruence; rewrite ?Ho3, ?Pi3; try done.
    + split; by rewrite ?Ho3, ?Pi3.
    + destruct Se3, Q1, Q2. split; congruence.
  - intros x Hx. rewrite Hg, (proj2 (Z.eqb_neq _ _)), O2, O1 by done. done.
Qed.

End dir.
End DirMerge.
