(* ===== verification/Refragment.v ===== *)
(** * Changing the fragments of a directory, src/mds/MDCache.cc

    [adjust_dir_fragments] brings the fragment tree of an inode and the
    fragments of it that are in the cache to a new shape; [force_dir_fragment]
    uses it to get one fragment.  Not modelled: what they do to the map of
    subtrees when a fragment is the root of one ([None]). *)

From S2P Require Import Prelude Encoding Frag FragTree Double Load StrHash CacheDir CacheDirFacts DirSplit DirFragment DirMerge.
Import Encoding.

Module Refragment.
Import Frag FragTree StrHash CacheDir.

Section dir.
Context {D} `{Double D}.

Definition cached (s : diri (D := D)) (fg : Z) : bool := bool_decide (is_Some (get_dirfrag fg s)).

(** The two branches of [adjust_dir_fragments] for fragments that are no subtree
    roots.  The subtree map is not modelled: of a subtree root there is no
    result.  [result] and [ws] are the lists that are added to. *)
Definition split_src (first : Z) (more : list Z) (nb : Z) (replay : bool) (now : utime)
  (memory : Z -> Z) (result : list Z) (ws : list context) (s : diri (D := D))
  : option (diri * list Z * list context) :=
  assert! match more with [] => true | _ :: _ => false end;
  d ← get_dirfrag first s;
  '(s, frags, ws) ← CacheDir.split nb first replay now memory ws s;
  assert! negb (is_subtree_root d);
  s ← close_dirfrag first s;
  Some (s, result ++ frags, ws).

Definition merge_src (first : Z) (src : list Z) (basefrag : Z) (replay : bool) (now : utime)
  (memory : Z -> Z) (result : list Z) (ws : list context) (s : diri (D := D))
  : option (diri * list Z * list context) :=
  dirs ← mapM (fun fg => get_dirfrag fg s) src;
  assert! forallb (fun d => negb (is_subtree_root d)) dirs;
  d ← get_dirfrag first s;
  '(s, ws) ← CacheDir.merge (new_cdir basefrag (is_auth d) now (memory basefrag)) src replay ws s;
  Some (s, result ++ [basefrag], ws).

Definition adjust_dir_fragments (src : list Z) (basefrag nb : Z) (replay : bool) (now : utime)
  (memory : Z -> Z) (result : list Z) (ws : list context) (s : diri (D := D))
  : option (diri * list Z * list context) :=
  leaf ← is_leaf (dirfragtree s) basefrag;
  s ← (if (leaf : bool) then Some s
       else '(t, _) ← force_to_leaf (dirfragtree s) basefrag; Some (set_tree t s));
  s ← (if 0 <? nb then t ← FragTree.split (dirfragtree s) basefrag nb true; Some (set_tree t s)
       else Some s);
  match src with
  | [] => Some (s, result, ws)
  | first :: more =>
      if 0 <? nb then split_src first more nb replay now memory result ws s
      else merge_src first src basefrag replay now memory result ws s
  end.

(** The overload that finds the fragments itself. *)
Definition adjust_dir_fragments_under (basefrag nb : Z) (replay : bool) (now : utime) (memory : Z -> Z)
  (result : list Z) (ws : list context) (s : diri) : option (diri * list Z * list context) :=
  '(_, src) ← get_dirfrags_under basefrag s;
  adjust_dir_fragments src basefrag nb replay now memory result ws s.

(** [while (1)] of [force_dir_fragment], from [parent] up: whether it found the
    fragment, and the lists it fills.  A fragment has at most 255 ancestors. *)
Fixpoint split_parent (n : nat) (fg parent : Z) (replay : bool) (now : utime) (memory : Z -> Z)
  (src result : list Z) (ws : list context) (s : diri)
  : option (diri * bool * list Z * list Z * list context) :=
  match n with
  | O => None
  | S n =>
      '(s, found, src, result, ws) ← (if cached s parent then
          '(s', result, ws) ← adjust_dir_fragments (src ++ [parent]) parent
             (ceph_frag_bits fg - ceph_frag_bits parent) replay now memory result ws s;
          Some (s', cached s' fg, src ++ [parent], result, ws)
        else Some (s, false, src, result, ws));
      if (found : bool) then Some (s, true, src, result, ws)
      else if parent =? root then Some (s, false, src, result, ws)
      else parent ← Frag.parent parent;
           split_parent n fg parent replay now memory src result ws s
  end.

(** The fragment that is returned, if there is one. *)
Definition force_dir_fragment (fg : Z) (replay : bool) (now : utime) (memory : Z -> Z) (s : diri)
  : option (diri * option Z) :=
  if cached s fg then Some (s, Some fg)
  else
    parent ← get_branch_or_leaf (dirfragtree s) fg;
    '(s, found, src, result, ws) ← split_parent 256 fg parent replay now memory [] [] [] s;
    '(s, dir, ws) ← (if (found : bool) then Some (s, Some fg, ws)
      else
        '(_, ls) ← get_dirfrags_under fg s;
        match src ++ ls with
        | [] => Some (s, None, ws)
        | src =>
            '(s, result, ws) ← adjust_dir_fragments src fg 0 replay now memory result ws s;
            Some (s, head result, ws)
        end);
    Some (if replay then s else set_ino (i_call (QueueWaiters ws) (ino s)) s, dir).

(** [get_approx_dirfrag]: the fragment, one below it, or the one above. *)
Fixpoint approx_parent (n : nat) (fg : Z) (s : diri) : option (option Z) :=
  match n with
  | O => None
  | S n =>
      if 0 <? ceph_frag_bits fg then
        fg ← Frag.parent fg;
        if cached s fg then Some (Some fg) else approx_parent n fg s
      else Some None
  end.

Definition get_approx_dirfrag (fg : Z) (s : diri) : option (option Z) :=
  if cached s fg then Some (Some fg)
  else
    '(_, ls) ← get_dirfrags_under fg s;
    match ls with
    | x :: _ => Some (Some x)
    | [] => approx_parent 256 fg s
    end.

End dir.
End Refragment.

Module RefragmentFacts.
Import Frag FragTree FragFacts FragTreeFacts StrHash StrHashFacts CacheDir CacheDirFacts DirSplit DirFragment DirMerge Refragment.

Section dir.
Context {D} `{Double D}.
Implicit Types d f : cdir (D := D).
Implicit Types s : diri (D := D).
Implicit Types ds : list (cdir (D := D)).

(** What is in the cache are leaves of the tree: what [verify_dirfrags] asserts. *)
Record dir_ok (k : Z) s : Prop := {
  do_sok : sok k s;
  do_tree : wf_tree (dirfragtree s);
  do_hash : ceph_str_hash_valid (hash_type (ino s)) = true;
  do_leaves : forall x d, get_dirfrag x s = Some d -> leaf (dirfragtree s) x
}.

(** A fragment that the model can split, merge and close. *)
Record free (replay : bool) s d : Prop := {
  fr_closable : closable replay s d;
  fr_placed : placed (ino s) d;
  fr_root : is_subtree_root d = false
}.

Lemma sok_tree k t s : sok k s -> sok k (set_tree t s).
Proof. intros []. by split. Qed.

Lemma cached_true s x : cached s x = true <-> is_Some (get_dirfrag x s).
Proof. apply bool_decide_eq_true. Qed.

Lemma cached_some s x d : get_dirfrag x s = Some d -> cached s x = true.
Proof. intros E. apply cached_true. by rewrite E. Qed.

Lemma cached_false s x : cached s x = false <-> get_dirfrag x s = None.
Proof. unfold cached. rewrite bool_decide_eq_false. destruct (get_dirfrag x s); [|by split; [|intros _ []]].
  split; [intros Hn; by destruct Hn|done]. Qed.

(** ** The fragments below one *)

Lemma map_find_keys {V} (m : list (Z * V)) x : x ∈ map fst m <-> is_Some (map_find m x).
Proof.
  induction m as [|[k v] m IH]; cbn; [split; [by intros ?%elem_of_nil|by intros []]|].
  rewrite elem_of_cons, IH. destruct (Z.eqb_spec k x); naive_solver.
Qed.

(** The second pass adds the fragments that are no leaves of the tree. *)
Lemma visit_ok fg dft (dirs : list (Z * cdir (D := D))) t ls :
  wf_tree dft -> wf_tree t -> Forall (fun p => wf_frag p.1) dirs ->
  exists t' l, visit_dirfrags fg dft dirs t ls = Some (t', ls ++ l) /\ wf_tree t' /\
    (NoDup (map fst dirs) -> NoDup l) /\
    forall x, x ∈ l <-> x ∈ map fst dirs /\ ceph_frag_contains_frag fg x = true /\ ~ leaf dft x.
Proof.
  intros Hd. revert t ls. induction dirs as [|[x d] dirs IH]; intros t ls Ht Hw; cbn [visit_dirfrags].
  { exists t, []. rewrite app_nil_r. split_and!; [done..|constructor|]. intros x. split; [by intros ?%elem_of_nil|].
    by intros [?%elem_of_nil _]. }
  apply Forall_cons in Hw as [Wx Hw]. cbn in Wx.
  destruct (force_to_leaf_spec t x Ht Wx) as (t1 & b & -> & [Ht1 _ _] & _). obind.
  destruct (is_leaf_spec dft x Hd Wx) as (lf & -> & Hlf). obind.
  set (ls1 := if _ && _ then _ else _). destruct (IH t1 ls1 Ht1 Hw) as (t' & l & -> & Ht' & Hnd & Hl).
  assert (Hneg : negb lf = true <-> ~ leaf dft x) by (rewrite <- Hlf; by destruct lf).
  cbn [map fst]. unfold ls1. destruct (ceph_frag_contains_frag fg x && negb lf) eqn:E.
  - exists t', (x :: l). rewrite <- app_assoc. apply andb_prop in E as [E1 E2%Hneg]. split_and!; [done..| |].
    + intros [Hni Hn]%NoDup_cons. apply NoDup_cons. split; [|auto]. intros (? & _)%Hl. done.
    + intros y. rewrite !elem_of_cons, Hl. split.
      * intros [->|(? & ? & ?)]; auto.
      * intros ([->|?] & ? & ?); auto.
  - exists t', l. split_and!; [done..| |].
    + intros [_ Hn]%NoDup_cons. auto.
    + intros y. rewrite Hl, elem_of_cons. split; [intros (? & ? & ?); auto|]. intros ([->|?] & E1 & E2); [|auto].
      apply Hneg in E2. by rewrite E1, E2 in E.
Qed.

Lemma empty_wf : wf_tree [].
Proof. split; [by split|]. by intros f Hf. Qed.

(** The answer is whether the leaves below [fg] are all in the cache; the list
    has those that are and, unless they all are, the other fragments below. *)
Lemma get_dirfrags_under_ok k fg s :
  sok k s -> wf_tree (dirfragtree s) -> wf_frag fg -> Forall (fun p => wf_frag p.1) (dirfrags s) ->
  exists b ls, get_dirfrags_under fg s = Some (b, ls) /\ NoDup ls /\
    (b = true <-> forall g, leaf (dirfragtree s) g -> inside fg g -> is_Some (get_dirfrag g s)) /\
    forall x, x ∈ ls <-> is_Some (get_dirfrag x s) /\ inside fg x /\ (leaf (dirfragtree s) x \/ b = false).
Proof.
  intros Hs Ht Wf Hw. destruct (get_leaves_under_spec _ fg Ht Wf) as (l & El & Hl).
  pose proof (get_leaves_under_nodup _ _ _ Ht Wf El) as Hnl.
  unfold get_dirfrags_under. rewrite El. obind. set (have := fun x => bool_decide (is_Some (get_dirfrag x s))).
  assert (Hh : forall x, have x = true <-> is_Some (get_dirfrag x s)) by (intros; apply bool_decide_eq_true).
  assert (Hfil : forall x, x ∈ List.filter have l <-> is_Some (get_dirfrag x s) /\ inside fg x /\ leaf (dirfragtree s) x).
  { intros x. rewrite list_elem_of_In, filter_In, <- list_elem_of_In, Hl, Hh. tauto. }
  assert (Hall : forallb have l = true <-> forall g, leaf (dirfragtree s) g -> inside fg g -> is_Some (get_dirfrag g s)).
  { rewrite forallb_forall. setoid_rewrite <- list_elem_of_In. setoid_rewrite Hl. setoid_rewrite Hh.
    split; [intros Hx g Lg Ig|intros Hx g [Lg Ig]]; auto. }
  assert (Hnf : NoDup (List.filter have l)).
  { apply NoDup_ListNoDup, List.NoDup_filter. by apply NoDup_ListNoDup. }
  cbn zeta. fold have. destruct (forallb have l) eqn:Ea.
  { exists true. eexists. split_and!; [done|done|tauto|]. intros x. rewrite Hfil.
    split; [tauto|]. intros (? & ? & [?|?]); [tauto|done]. }
  destruct (force_to_leaf_spec [] fg empty_wf Wf) as (t0 & b0 & -> & [Ht0 _ _] & _). obind.
  destruct (visit_ok fg (dirfragtree s) (dirfrags s) t0 (List.filter have l) Ht Ht0 Hw) as (t' & m & -> & Ht' & Hnm & Hm). obind.
  destruct (get_leaves_under_spec t' fg Ht' Wf) as (l' & El' & _).
  rewrite get_leaves_under_acc, El'. cbn [fmap option_fmap option_map]. obind. rewrite forallb_app, Ea. cbn [andb].
  assert (Hkey : forall x, x ∈ map fst (dirfrags s) <-> is_Some (get_dirfrag x s)).
  { intros x. unfold get_dirfrag. apply map_find_keys. }
  exists false. eexists. split_and!; [done| |by rewrite <- Hall|].
  - apply NoDup_app. split_and!; [done| |apply Hnm, (keys_nodup 0), Hs].
    intros x Hx (_ & _ & Hn)%Hm. apply Hfil in Hx. tauto.
  - intros x. rewrite elem_of_app, Hfil, Hm, Hkey, contains_frag_inside by done.
    split; [tauto|]. intros (Hx & Hi & _).
    destruct (is_leaf_spec _ x Ht) as ([] & _ & Hb); [|left|right];
      [|split_and!; try done; by apply Hb|split_and!; try done; by intros ?%Hb].
    apply Hkey in Hx. rewrite Forall_forall in Hw. apply list_elem_of_fmap in Hx as (p & -> & Hp). by apply Hw.
Qed.

(** The pieces of a leaf are not in the cache. *)
Lemma pieces_absent k nb fg s :
  dir_ok k s -> leaf (dirfragtree s) fg -> 0 < nb -> ceph_frag_bits fg + nb <= 24 ->
  Forall (fun c => get_dirfrag c s = None) (pieces fg nb).
Proof.
  intros Hk Hl Hn Hb. apply Forall_forall. intros c Hc. destruct (get_dirfrag c s) as [d|] eqn:E; [|done].
  apply (do_leaves _ _ Hk) in E. pose proof (do_tree _ _ Hk) as Ht.
  pose proof (node_wf _ _ (wt_sane _ Ht) (proj1 Hl)) as Wf. apply elem_of_pieces in Hc.
  destruct (child_of_strict fg nb c Wf Hn Hb Hc) as (_ & Ic & Ne).
  by rewrite (leaf_minimal _ fg c Ht Hl (proj1 E) Ic) in Ne.
Qed.

(** A leaf in the cache is split: its pieces take its place in the tree and in
    the cache. *)
Lemma adjust_split_ok k nb replay now mem result ws d s :
  let fg := dfrag d in
  dir_ok k s -> free replay s d -> 0 < nb -> ceph_frag_bits fg + nb <= 24 ->
  exists s', adjust_dir_fragments [fg] fg nb replay now mem result ws s =
      Some (s', result ++ pieces fg nb, woken replay ws d) /\
    dir_ok k s' /\ env (ino s') = env (ino s) /\ stickydir_ref s' = stickydir_ref s /\
    above (ino s') = lighten (env (ino s)) (dens d) (above (ino s)) /\
    (forall g, leaf (dirfragtree s') g <-> leaf (dirfragtree s) g /\ g <> fg \/ g ∈ pieces fg nb) /\
    get_dirfrag fg s' = None /\
    (forall c, c ∈ pieces fg nb -> exists f, get_dirfrag c s' = Some f /\
       subfrag_ok replay (stickydir_ref s) nb d c (taken_by (ino s) c (items (holds d))) f /\
       waiting_on_dentry (waits_ f) = waits_in (ino s) c (add_waiters [] (waiting_on_dentry (waits_ d))) /\
       settled (ino s) (rstatdiff (ino s) (fnode d) new_nest_info) (fragstatdiff (ino s) (fnode d) new_frag_info)
         (c =? ceph_frag_make_child fg nb 0) (fnode f)) /\
    forall x, x <> fg -> x ∉ pieces fg nb -> get_dirfrag x s' = get_dirfrag x s.
Proof.
  cbn zeta. intros Hk [(Hd & Hf & Hst) Hp Hro] Hn Hb. set (fg := dfrag d) in *. pose proof Hk as [Hs Ht Hh Hle].
  pose proof (Hle _ _ Hd) as Hl. pose proof (node_wf _ _ (wt_sane _ Ht) (proj1 Hl)) as Wf.
  destruct (is_leaf_spec _ fg Ht Wf) as (b & Eb & Hbl). assert (b = true) as -> by (by apply Hbl).
  destruct (split_tree_spec _ fg nb true Ht Hl Hn Hb) as (t & Et & Ht' & Hlt).
  set (s1 := set_tree t s).
  assert (Hr : ready nb fg s1).
  { split; try done. intros c Hc. apply Hlt. by right. }
  destruct (split_ok k nb replay now mem ws d s1 Hr (sok_tree _ _ _ Hs) Hd Hf Hp (pieces_absent k nb fg s Hk Hl Hn Hb))
    as (s2 & dh & E2 & Hs2 & Q2 & G2 & Hh2 & C2 & O2). fold fg in E2, G2, C2, O2.
  destruct (close_ok k replay d dh s2 Hs2 G2 Hf Hh2) as (s3 & E3 & Hs3 & Q31 & Q32 & Q33 & Ha & Hg).
  { by rewrite (sm_sticky _ _ Q2). }
  fold fg in E3, Hg. destruct Q2 as [Qe Qa Qs Qt]. cbn in Qe, Qa, Qs, Qt.
  assert (Hni : fg ∉ pieces fg nb) by (intros Hx; by destruct (piece_wf _ _ _ _ Hr Hx) as (_ & _ & ?)).
  assert (Hl3 : forall g, leaf (dirfragtree s3) g <-> leaf (dirfragtree s) g /\ g <> fg \/ g ∈ pieces fg nb).
  { intros g. rewrite Q33, Qt, Hlt, elem_of_pieces. done. }
  assert (Hc3 : forall x, x <> fg -> get_dirfrag x s3 = get_dirfrag x s2).
  { intros x Hx. by rewrite Hg, (proj2 (Z.eqb_neq _ _)). }
  exists s3. split_and!; try congruence; try done.
  - unfold adjust_dir_fragments, split_src. rewrite Eb. obind. rewrite (proj2 (Z.ltb_lt _ _)) by done. rewrite Et. obind.
    fold s1. change (get_dirfrag fg s1) with (get_dirfrag fg s). rewrite Hd. obind. rewrite E2. obind.
    rewrite Hro. cbn [negb]. rewrite E3. done.
  - split; [done| | |].
    + by rewrite Q33, Qt.
    + unfold hash_type. by rewrite Q31, Qe.
    + intros x e Ee. apply Hl3. destruct (decide (x = fg)) as [->|Hx]; [by rewrite Hg, Z.eqb_refl in Ee|].
      rewrite Hc3 in Ee by done. destruct (decide (x ∈ pieces fg nb)) as [|Hni']; [by right|left].
      rewrite O2 in Ee by done. split; [by eapply Hle|done].
  - by rewrite Hg, Z.eqb_refl.
  - intros c Hc. rewrite Hc3 by (by intros ->). by apply C2.
  - intros x H1 H2. rewrite Hc3, O2 by done. done.
Qed.

Lemma distinct_app l l' :
  distinct l -> distinct l' -> (forall x y, x ∈ l -> y ∈ l' -> differ x y = true) -> distinct (l ++ l').
Proof.
  intros Hl Hl' Hd. induction l as [|x l IH]; [done|]. destruct Hl as [Hx Hl]. cbn. split.
  - apply Forall_app. split; [done|]. apply Forall_forall. intros y Hy. apply Hd; [by left|done].
  - apply IH; [done|]. intros y z Hy Hz. apply Hd; [by right|done].
Qed.

(** Fragments that are leaves have no name in common. *)
Lemma names_apart k s d e x y :
  dir_ok k s -> get_dirfrag (dfrag d) s = Some d -> get_dirfrag (dfrag e) s = Some e -> dfrag d <> dfrag e ->
  placed (ino s) d -> placed (ino s) e -> x ∈ items (holds d) -> y ∈ items (holds e) -> differ x y = true.
Proof.
  intros Hk Hd He Hne [Pd _] [Pe _] Hx Hy. rewrite Forall_forall in Pd, Pe. apply name_differ. intros E.
  specialize (Pd x Hx). specialize (Pe y Hy). cbn in Pd, Pe. rewrite E in Pd. unfold holds_name in Pd, Pe.
  apply (do_leaves _ _ Hk) in Hd, He. pose proof (do_tree _ _ Hk) as Ht.
  pose proof (str_hash_range (hash_type (ino s)) (name y)).
  rewrite contains_value_within in Pd, Pe by (lia || by eapply node_wf; [apply Ht|apply Hd || apply He]).
  by destruct Hne; apply (leaf_unique _ _ _ _ Ht Hd He Pd Pe).
Qed.

Lemma items_apart k replay s ds :
  dir_ok k s -> Forall (free replay s) ds -> NoDup (map dfrag ds) -> distinct (all_items ds).
Proof.
  intros Hk Hf. induction Hf as [|d ds Hd Hf IH]; intros Hnd; [done|]. cbn in Hnd.
  apply NoDup_cons in Hnd as [Hni Hnd]. pose proof Hd as [(Gd & Fd & _) Pd _].
  unfold all_items. cbn [map concat]. apply distinct_app; [apply Fd|by apply IH|].
  intros x y Hx Hy. apply list_elem_of_In, in_concat in Hy as (l & Hl & Hy).
  apply in_map_iff in Hl as (e & <- & He%list_elem_of_In). apply list_elem_of_In in Hy.
  rewrite Forall_forall in Hf. destruct (Hf e He) as [(Ge & _) Pe _].
  apply (names_apart k s d e); try done. intros E. apply Hni. rewrite E. apply list_elem_of_fmap. by exists e.
Qed.

(** The fragments of the cache below [fg]. *)
Record all_under (fg : Z) s ds : Prop := {
  au_nodup : NoDup (map dfrag ds);
  au_under : forall x, x ∈ map dfrag ds <-> is_Some (get_dirfrag x s) /\ inside fg x
}.

(** None in the cache is [fg] or above it when there are others below. *)
Lemma none_above k fg ds s x d :
  dir_ok k s -> wf_frag fg -> get_dirfrag fg s = None -> ds <> [] -> all_under fg s ds ->
  get_dirfrag x s = Some d -> ~ inside x fg.
Proof.
  intros [_ Ht _ Hle] Wf Hno Hne [_ Hun] Hx Hi. destruct ds as [|e ds]; [done|].
  assert (Hu : is_Some (get_dirfrag (dfrag e) s) /\ inside fg (dfrag e)) by (apply Hun; by left).
  destruct Hu as [[e' He] Ie]. pose proof (Hle _ _ Hx) as Lx. pose proof (Hle _ _ He) as Le.
  pose proof (node_wf _ _ (wt_sane _ Ht) (proj1 Lx)) as Wx. pose proof (node_wf _ _ (wt_sane _ Ht) (proj1 Le)) as We.
  assert (E : dfrag e = x) by (apply (leaf_minimal _ x (dfrag e) Ht Lx (proj1 Le)); by apply (inside_trans x fg)).
  rewrite E in Ie. assert (x = fg) by (by apply inside_antisym). congruence.
Qed.

Lemma not_leaf_above k fg ds s :
  dir_ok k s -> wf_frag fg -> get_dirfrag fg s = None -> ds <> [] -> all_under fg s ds -> ~ leaf (dirfragtree s) fg.
Proof.
  intros [_ Ht _ Hle] Wf Hno Hne [_ Hun] Hl. destruct ds as [|e ds]; [done|].
  assert (Hu : is_Some (get_dirfrag (dfrag e) s) /\ inside fg (dfrag e)) by (apply Hun; by left).
  destruct Hu as [[e' He] Ie]. pose proof (Hle _ _ He) as Le.
  rewrite (leaf_minimal _ fg (dfrag e) Ht Hl (proj1 Le) Ie) in He. congruence.
Qed.

(** The fragments below [fg] become one: [fg] is a leaf of the tree and in the
    cache, with all that they had. *)
(** A merged fragment is authoritative if the first that goes into it is. *)
Definition first_auth ds : bool := match ds with [] => false | d :: _ => is_auth d end.

Lemma adjust_merge_ok k fg nb replay now mem result ws ds s :
  dir_ok k s -> wf_frag fg -> nb <= 0 -> get_dirfrag fg s = None -> ds <> [] ->
  Forall (free replay s) ds -> all_under fg s ds ->
  exists s' f',
    let g := foldl (gather (ino s) replay) (MkGathered new_nest_info new_frag_info [] ws) ds in
    adjust_dir_fragments (map dfrag ds) fg nb replay now mem result ws s = Some (s', result ++ [fg], g_queue g) /\
    dir_ok k s' /\ env (ino s') = env (ino s) /\ stickydir_ref s' = stickydir_ref s /\
    above (ino s') = lighten_all (env (ino s)) (above (ino s)) ds /\
    leaf (dirfragtree s') fg /\
    get_dirfrag fg s' = Some f' /\
    merged (ino s) replay (first_auth ds) (stickydir_ref s) fg CDIR_AUTH_DEFAULT (new_pops now) g ds f' /\
    forall x, x <> fg -> get_dirfrag x s' = if bool_decide (x ∈ map dfrag ds) then None else get_dirfrag x s.
Proof.
  intros Hk Wf Hn Hno Hne Hf [Hnd Hun]. pose proof Hk as [Hs Ht Hh Hle].
  pose proof (none_above k fg ds s) as Hov. pose proof (not_leaf_above k fg ds s Hk Wf Hno Hne ltac:(by split)) as Hnl.
  destruct (is_leaf_spec _ fg Ht Wf) as (b & Eb & Hbl). assert (b = false) as -> by (destruct b; [by destruct Hnl; apply Hbl|done]).
  destruct (force_to_leaf_spec _ fg Ht Wf) as (t & b' & Et & [Ht' Hl' Hkept] & _). set (s1 := set_tree t s).
  assert (Hcl : Forall (closable replay s1) ds) by (eapply Forall_impl; [exact Hf|]; by intros d []).
  assert (Hda : Forall (fun d => dir_auth d = CDIR_AUTH_DEFAULT) ds).
  { eapply Forall_impl; [exact Hf|]. intros d [_ _ Hr]. unfold is_subtree_root in Hr.
    by apply negb_false_iff, bool_decide_eq_true in Hr. }
  destruct ds as [|d0 ds'] eqn:Eds; [done|]. rewrite <- Eds in *.
  destruct (merge_ok k fg (is_auth d0) now (mem fg) replay CDIR_AUTH_DEFAULT ds ws s1 (sok_tree _ _ _ Hs) (wf_nonneg _ Wf) Hno
    ltac:(by rewrite Eds) Hcl Hnd (items_apart k replay s ds Hk Hf Hnd) Hda)
    as (s2 & f' & E2 & Hs2 & Q2 & Ha & G2 & Mg & O2).
  change (ino s1) with (ino s) in *. change (stickydir_ref s1) with (stickydir_ref s) in *. destruct Q2 as [Qe Qs Qt].
  change (ino s1) with (ino s) in Qe. change (stickydir_ref s1) with (stickydir_ref s) in Qs. change (dirfragtree s1) with t in Qt.
  exists s2, f'. cbn zeta. split_and!; try done.
  - unfold adjust_dir_fragments, merge_src. rewrite Eb. obind. rewrite Et. obind. rewrite (proj2 (Z.ltb_ge _ _)) by done. obind. fold s1.
    rewrite (lookup_all replay) by done. obind.
    assert (Er : forallb (fun d => negb (is_subtree_root d)) ds = true).
    { apply forallb_forall. intros d Hd%list_elem_of_In. rewrite Forall_forall in Hf. by rewrite (fr_root _ _ _ (Hf d Hd)). }
    rewrite Er. rewrite Eds in *. cbn [map]. apply Forall_cons in Hcl as [(Hd0 & _) _]. rewrite Hd0. obind.
    cbn [map] in E2. rewrite E2. done.
  - split; [done| | |].
    + by rewrite Qt.
    + unfold hash_type. by rewrite Qe.
    + intros x e Ee. rewrite Qt. destruct (decide (x = fg)) as [->|Hx]; [done|]. rewrite O2 in Ee by done.
      destruct (decide (x ∈ map dfrag ds)) as [|Hni]; [by rewrite bool_decide_eq_true_2 in Ee|].
      rewrite bool_decide_eq_false_2 in Ee by done. change (get_dirfrag x s1) with (get_dirfrag x s) in Ee.
      apply Hkept; [by eapply Hle| |].
      * intros Hi. apply Hni, Hun. split; [by rewrite Ee|done].
      * by apply (Hov x e); rewrite Eds in *.
  - by rewrite Qt.
  - by rewrite Eds in *.
Qed.

(** ** Getting one fragment *)

(** Where nothing is in the cache from [parent] up, the search finds nothing. *)
Lemma walk_none n fg parent replay now mem src result ws s :
  wf_frag parent -> (forall p, wf_frag p -> inside p parent -> get_dirfrag p s = None) ->
  ceph_frag_bits parent < Z.of_nat n ->
  split_parent n fg parent replay now mem src result ws s = Some (s, false, src, result, ws).
Proof.
  revert parent. induction n as [|n IH]; intros parent Wp Hn Hb; destruct (wf_bits _ Wp); [lia|]. cbn [split_parent].
  rewrite (proj2 (cached_false s parent)) by (apply Hn; [done|by apply inside_refl]). obind.
  destruct (Z.eqb_spec parent root) as [|Hne]; [done|].
  assert (Hpos : 0 < ceph_frag_bits parent).
  { destruct (Z.eq_dec (ceph_frag_bits parent) 0) as [E|]; [by apply bits_zero_root in E|lia]. }
  destruct (anc_spec parent (ceph_frag_bits parent - 1) Wp) as (Ea & Wa & Ia); [lia|].
  pose proof (parent_anc parent (ceph_frag_bits parent) Wp ltac:(lia)) as Ep. rewrite anc_self in Ep by done. rewrite Ep. obind.
  apply IH; [done| |lia]. intros p Wq Hq. apply Hn; [done|]. by apply (inside_trans p (anc parent (ceph_frag_bits parent - 1))).
Qed.

(** No leaf is above a node but itself. *)
Lemma leaf_above_node t fg p :
  wf_tree t -> wf_frag p -> is_node t fg -> leaf t p -> inside p fg -> p = fg.
Proof. intros Ht Wp Hn Hl Hi. symmetry. by apply (leaf_minimal t). Qed.

Lemma keys_wf k s : dir_ok k s -> Forall (fun p => wf_frag p.1) (dirfrags s).
Proof.
  intros [_ Ht _ Hle]. apply Forall_forall. intros p Hp.
  assert (Hk : p.1 ∈ map fst (dirfrags s)) by (apply list_elem_of_fmap; by exists p).
  apply map_find_keys in Hk as [d Hd]. apply (node_wf _ _ (wt_sane _ Ht)). by eapply Hle.
Qed.

Lemma dir_ok_call k c s : dir_ok k s -> dir_ok k (set_ino (i_call c (ino s)) s).
Proof.
  intros [[] Ht Hh Hle]. split; try done. destruct (i_call_ok c (ino s)); [done|]. split; cbn; try done; try lia.
Qed.

(** The fragments of a list that are all in the cache. *)
Lemma fetch_all k s ls :
  sok k s -> Forall (fun x => is_Some (get_dirfrag x s)) ls ->
  exists ds, map dfrag ds = ls /\ Forall (fun d => get_dirfrag (dfrag d) s = Some d) ds.
Proof.
  intros Hs. induction 1 as [|x ls [d Hd] _ (ds & <- & IH)]; [by exists []|].
  exists (d :: ds). pose proof (so_frag _ _ Hs _ _ Hd) as E. cbn. rewrite E. split; [done|]. constructor; [by rewrite E|done].
Qed.

(** One that overlaps [fg]. *)
Definition overlaps (fg x : Z) : Prop := inside fg x \/ inside x fg.

(** What comes of it: the fragment, if anything in the cache overlaps it. *)
Definition obtained (fg : Z) (r : option Z) s s' : Prop :=
  (exists x, is_Some (get_dirfrag x s) /\ overlaps fg x) /\ r = Some fg /\ is_Some (get_dirfrag fg s') \/
  (forall x, is_Some (get_dirfrag x s) -> ~ overlaps fg x) /\ r = None /\ dirfrags s' = dirfrags s.

(** The leaf around [fg] is in the cache: the search splits it. *)
Lemma walk_splits k fg t d replay now mem n s :
  dir_ok k s -> wf_frag fg -> get_dirfrag fg s = None -> get_dirfrag t s = Some d -> free replay s d -> inside t fg ->
  exists s' result ws, split_parent (S n) fg t replay now mem [] [] [] s = Some (s', true, [t], result, ws) /\
    dir_ok k s' /\ env (ino s') = env (ino s) /\ is_Some (get_dirfrag fg s').
Proof.
  intros Hk Wf Hno Hd Hf Hi. pose proof Hk as [Hs Ht _ Hle]. assert (Et : dfrag d = t) by (by eapply (so_frag _ _ Hs)).
  pose proof (node_wf _ _ (wt_sane _ Ht) (proj1 (Hle _ _ Hd))) as Wt.
  assert (Hlt : ceph_frag_bits t < ceph_frag_bits fg) by (apply inside_lt; try done; intros ->; congruence).
  destruct (wf_bits _ Wf). set (nb := ceph_frag_bits fg - ceph_frag_bits t).
  destruct (adjust_split_ok k nb replay now mem [] [] d s Hk Hf ltac:(lia)) as (s' & E & Hk' & Ee & _ & _ & _ & _ & Hc & _).
  { rewrite Et. lia. }
  rewrite Et in *.
  destruct (Hc fg) as (f & Ef & _).
  { apply elem_of_pieces, child_of_inside; [done|lia|lia|]. split_and!; [done|done|lia]. }
  do 3 eexists. split; [|split_and!; [exact Hk'|exact Ee|by rewrite Ef]].
  cbn [split_parent]. rewrite (cached_some s t d) by done. cbn [app]. fold nb. rewrite E. obind.
  rewrite (cached_some s' fg f) by done. done.
Qed.

(** Nothing in the cache is around [fg]: what is below becomes one. *)
Lemma gather_below k fg replay now mem s :
  dir_ok k s -> wf_frag fg -> (forall x, is_Some (get_dirfrag x s) -> ~ inside x fg) ->
  (forall x d, get_dirfrag x s = Some d -> inside fg x -> free replay s d) ->
  exists s' r ws,
    ('(_, ls) ← get_dirfrags_under fg s;
     match [] ++ ls with
     | [] => Some (s, None, [])
     | src => '(s, result, ws) ← adjust_dir_fragments src fg 0 replay now mem [] [] s; Some (s, head result, ws)
     end) = Some (s', r, ws) /\ dir_ok k s' /\ env (ino s') = env (ino s) /\ obtained fg r s s'.
Proof.
  intros Hk Wf Hab Hf. pose proof Hk as [Hs Ht _ Hle].
  destruct (get_dirfrags_under_ok k fg s Hs Ht Wf (keys_wf k s Hk)) as (b & ls & -> & Hnd & _ & Hls). obind. cbn [app].
  assert (Hls' : forall x, x ∈ ls <-> is_Some (get_dirfrag x s) /\ inside fg x).
  { intros x. rewrite Hls. split; [tauto|]. intros [[d Hd] Hi]. split_and!; [by rewrite Hd|done|left; by eapply Hle]. }
  destruct (fetch_all k s ls Hs) as (ds & <- & Hds).
  { apply Forall_forall. intros x Hx. by apply Hls'. }
  destruct ds as [|d0 ds'] eqn:Eds.
  - exists s, None, []. split_and!; [done..|]. right. split_and!; [|done|done]. intros x Hx [Hi|Hi]; [|by eapply Hab].
    assert (Hin : x ∈ map (dfrag (D := D)) []) by (by apply Hls'). by apply elem_of_nil in Hin.
  - rewrite <- Eds in *. assert (Hfr : Forall (free replay s) ds).
    { rewrite Forall_forall in Hds |- *. intros d Hd. apply (Hf (dfrag d)); [by apply Hds|].
      apply Hls', list_elem_of_fmap. by exists d. }
    assert (Hno : get_dirfrag fg s = None).
    { destruct (get_dirfrag fg s) as [e|] eqn:E; [|done]. destruct (Hab fg); [by rewrite E|by apply inside_refl]. }
    destruct (adjust_merge_ok k fg 0 replay now mem [] [] ds s Hk Wf ltac:(lia) Hno ltac:(by rewrite Eds) Hfr)
      as (s' & f' & E & Hk' & Ee & _ & _ & _ & Ef & _); [by split|].
    cbn zeta in E. rewrite Eds in E |- *. cbn [map] in E |- *. rewrite E. obind. do 3 eexists.
    split_and!; [done|done|done|]. left. split_and!; [|done|by rewrite Ef].
    exists (dfrag d0). assert (Hin : dfrag d0 ∈ map dfrag ds) by (rewrite Eds; by left).
    apply Hls' in Hin as [? ?]. split; [done|by left].
Qed.

Lemma force_dir_fragment_ok k fg replay now mem s :
  dir_ok k s -> wf_frag fg -> (forall x d, get_dirfrag x s = Some d -> overlaps fg x -> free replay s d) ->
  exists s' r, force_dir_fragment fg replay now mem s = Some (s', r) /\
    dir_ok k s' /\ env (ino s') = env (ino s) /\ obtained fg r s s'.
Proof.
  intros Hk Wf Hf. unfold force_dir_fragment. destruct (cached s fg) eqn:Ec.
  { apply cached_true in Ec. exists s, (Some fg). split_and!; [done..|]. left. split_and!; [|done..].
    exists fg. split; [done|left; by apply inside_refl]. }
  apply cached_false in Ec. pose proof Hk as [Hs Ht _ Hle].
  destruct (get_branch_or_leaf_spec _ fg (wt_sane _ Ht) Wf) as (t & -> & Wt & It & Hc). obind.
  assert (Nt : is_node (dirfragtree s) t) by (destruct Hc as [[? _]|[? _]]; [done|by apply wt_node]).
  assert (Hab : forall p, wf_frag p -> inside p t -> is_Some (get_dirfrag p s) -> p = t).
  { intros p Wp Ip [d Hd]. apply (leaf_above_node (dirfragtree s)); try done. by eapply Hle. }
  destruct (get_dirfrag t s) as [d|] eqn:Ed.
  - destruct (walk_splits k fg t d replay now mem 255 s Hk Wf Ec Ed) as (s1 & result & ws & -> & Hk1 & Ee & Hg);
      [apply (Hf t); [done|by right]|done|]. obind. do 2 eexists. split; [done|].
    split_and!; [destruct replay; [done|by apply dir_ok_call]|by destruct replay|].
    left. split_and!; [|done|by destruct replay]. exists t. split; [by rewrite Ed|by right].
  - assert (Hn : forall p, wf_frag p -> inside p t -> get_dirfrag p s = None).
    { intros p Wp Ip. destruct (get_dirfrag p s) as [d|] eqn:E; [|done].
      rewrite (Hab p Wp Ip) in E by (by rewrite E). congruence. }
    rewrite walk_none by (done || (destruct (wf_bits _ Wt); lia)). obind.
    destruct (gather_below k fg replay now mem s Hk Wf) as (s1 & r & ws & -> & Hk1 & Ee & Ho).
    { intros x Hx Hi. destruct Hx as [d Hd]. pose proof (node_wf _ _ (wt_sane _ Ht) (proj1 (Hle _ _ Hd))) as Wx.
      destruct (inside_both x t fg Wx Wt Hi It) as [Hxt|Htx]; [by rewrite Hn in Hd|].
      assert (x <> t) by (intros ->; congruence). pose proof (Hle _ _ Hd) as Lx.
      destruct Hc as [Lt|[Ht0 Htb]]; [by rewrite (leaf_minimal _ t x Ht Lt (proj1 Lx) Htx) in *|].
      pose proof (no_between _ x t Ht (proj1 Lx) Ht0 Htx ltac:(done)). destruct Hi. lia. }
    { intros x d Hd Hi. apply (Hf x); [done|by left]. }
    obind. do 2 eexists. split; [done|].
    split_and!; [destruct replay; [done|by apply dir_ok_call]|by destruct replay|].
    unfold obtained in *. by destruct replay.
Qed.

End dir.
End RefragmentFacts.
