(* ===== verification/DirTheorems.v ===== *)
(** * The fragments of a directory: what holds

    The theorems on [adjust_dir_fragments], [force_dir_fragment] and
    [get_dirfrags_under], put together from [DirSplit], [DirFragment],
    [DirMerge] and [Refragment], and a directory on which they are applied. *)

From Stdlib Require Import QArith.
From S2P Require Import Prelude Encoding Frag FragTree Double Load StrHash CacheDir CacheDirFacts DirSplit DirFragment DirMerge Refragment.
Import Encoding.

Module DirTheorems.
Import Frag FragTree FragFacts FragTreeFacts StrHash StrHashFacts CacheDir CacheDirFacts DirSplit DirFragment
  DirMerge Refragment RefragmentFacts.

(** ** Partitions *)

Lemma partition_insert {A} (h : Z -> A -> bool) (g : Z -> list A) x cs c :
  NoDup cs -> c ∈ cs -> (forall c', c' ∈ cs -> h c' x = true <-> c' = c) ->
  concat (map (fun c => if h c x then x :: g c else g c) cs) ≡ₚ x :: concat (map g cs).
Proof.
  intros Hnd Hc Hh. apply list_elem_of_split in Hc as (l1 & l2 & ->).
  assert (Hn : forall l, (forall y, y ∈ l -> y <> c /\ y ∈ l1 ++ c :: l2) ->
    map (fun c => if h c x then x :: g c else g c) l = map g l).
  { intros l Hl. apply map_ext_in. intros y Hy%list_elem_of_In. destruct (Hl y Hy) as [Hne Hin].
    destruct (h y x) eqn:E; [|done]. by apply Hh in E. }
  rewrite !map_app, !concat_app. cbn [map concat]. apply NoDup_app in Hnd as (_ & H1 & [H2 _]%NoDup_cons).
  rewrite (Hn l1), (Hn l2).
  - rewrite (proj2 (Hh c ltac:(apply elem_of_app; right; by left))) by done. cbn [app].
    symmetry. apply Permutation_middle.
  - intros y Hy. split; [by intros ->|]. apply elem_of_app. right. by right.
  - intros y Hy. split; [|apply elem_of_app; by left]. intros ->. apply (H1 c Hy). by left.
Qed.

(** What each of a list of places takes, where each thing has one place. *)
Lemma partition_perm {A} (h : Z -> A -> bool) cs (l : list A) :
  NoDup cs -> (forall x, x ∈ l -> exists c, c ∈ cs /\ forall c', c' ∈ cs -> h c' x = true <-> c' = c) ->
  concat (map (fun c => List.filter (h c) l) cs) ≡ₚ l.
Proof.
  intros Hnd. induction l as [|x l IH]; intros Hl; cbn [List.filter].
  { clear. induction cs as [|c cs IH]; [done|]. cbn. done. }
  destruct (Hl x ltac:(by left)) as (c & Hc & Hu).
  rewrite (partition_insert h (fun c => List.filter (h c) l) x cs c Hnd Hc Hu), IH; [done|].
  intros y Hy. apply Hl. by right.
Qed.

Section dir.
Context {D} `{Double D}.
Implicit Types d f : cdir (D := D).
Implicit Types s : diri (D := D).
Implicit Types ds : list (cdir (D := D)).

(** A name is looked up in the leaf that holds it. *)
Lemma pick_leaf k s c nm :
  dir_ok k s -> leaf (dirfragtree s) c -> holds_name (ino s) c nm = true -> pick_dirfrag nm s = Some c.
Proof.
  intros [_ Ht Hv _] Hl Hh. unfold holds_name in Hh. pose proof (str_hash_range (hash_type (ino s)) nm) as Hr.
  pose proof (node_wf _ _ (wt_sane _ Ht) (proj1 Hl)) as Wc. apply contains_value_within in Hh; [|done|lia].
  unfold pick_dirfrag. destruct (dirfragtree s) as [|x t] eqn:Et.
  { destruct Hl as [[->|(p & Hp & _)] _]; [done|]. by destruct Hp. }
  rewrite <- Et in *. unfold hash_dentry_name. fold (hash_type (ino s)). rewrite Hv. obind.
  destruct (at_value_spec _ (ceph_str_hash (hash_type (ino s)) nm) Ht ltac:(lia)) as (c' & -> & Lc' & Wc').
  f_equal. by apply (leaf_unique (dirfragtree s) c' c (ceph_str_hash (hash_type (ino s)) nm mod 2 ^ 24)).
Qed.

Lemma holds_env (i i' : inode) : env i' = env i -> holds_name i' = holds_name i.
Proof. intros E. unfold holds_name, hash_type. by rewrite E. Qed.

(** [ready] of the tree that has the pieces for leaves. *)
Lemma split_ready k nb fg s :
  dir_ok k s -> wf_frag fg -> 0 < nb -> ceph_frag_bits fg + nb <= 24 ->
  (forall c, c ∈ pieces fg nb -> leaf (dirfragtree s) c) -> ready nb fg s.
Proof. intros [] Wf Hn Hb Hl. split; try done. intros c Hc. by apply Hl, elem_of_pieces. Qed.

(** Where a name of [fg] has its place among the pieces. *)
Lemma piece_of k nb fg s nm :
  dir_ok k s -> ready nb fg s -> holds_name (ino s) fg nm = true ->
  exists c, c ∈ pieces fg nb /\ forall c', c' ∈ pieces fg nb -> holds_name (ino s) c' nm = true <-> c' = c.
Proof.
  intros Hk Hr Hh. destruct (pick_dirfrag_ok nb fg s nm Hr Hh) as (c & _ & Hc & Hch). exists c. split; [done|].
  intros c' Hc'. split; [intros Hch'; by eapply piece_unique|by intros ->].
Qed.

(** ** A fragment is split *)

(** A piece of a split fragment can itself be split or merged. *)
Lemma piece_free replay nb d c f s s' m :
  get_dirfrag c s' = Some f -> stickydir_ref s' = stickydir_ref s -> env (ino s') = env (ino s) -> free replay s d ->
  subfrag_ok replay (stickydir_ref s) nb d c (taken_by (ino s) c (items (holds d))) f ->
  waiting_on_dentry (waits_ f) = waits_in (ino s) c m -> free replay s' f.
Proof.
  intros Hf Hr He [(_ & Fd & _) _ Rd] Sf Wf. destruct (sub_flags _ _ _ _ _ _ _ Sf) as [Ea Ef].
  assert (El : live replay f = live replay d) by (unfold live; by rewrite Ea). pose proof (sf_frag _ _ _ _ _ _ _ Sf) as Ec.
  split; [split_and!| |].
  - by rewrite Ec.
  - split; try apply Sf.
    + destruct (live replay d) eqn:E; unfold live in E; destruct replay, (is_auth d) eqn:Ead; try done; rewrite Ea; cbn [negb orb].
      * unfold is_complete, STATE_COMPLETE. rewrite state_test_bit, (sf_state _ _ _ _ _ _ _ Sf), sub_bit by lia.
        unfold live. rewrite Ead. cbn. by rewrite !orb_true_r.
      * by rewrite orb_true_r.
    + by eapply sub_calm.
    + by rewrite Ef, El.
    + unfold waiters_ok. by rewrite (sf_waiting _ _ _ _ _ _ _ Sf).
    + intros _. apply Sf.
    + rewrite Ea, (sf_replicas _ _ _ _ _ _ _ Sf). apply Fd.
  - unfold STATE_STICKY. rewrite state_test_bit, (sf_state _ _ _ _ _ _ _ Sf), sub_bit, init_bit, Hr by lia.
    cbn. by rewrite !andb_false_r, !andb_true_r, ?orb_false_r, ?andb_false_r, ?orb_false_r.
  - split; rewrite Ec, (holds_env _ _ He).
    + rewrite (sf_items _ _ _ _ _ _ _ Sf). apply Forall_forall. intros x Hx.
      apply list_elem_of_In, filter_In in Hx. apply Hx.
    + rewrite Wf. unfold waits_in. apply (add_waiters_Forall (fun key => holds_name (ino s) c key.1 = true)); [constructor|].
      apply Forall_forall. intros x Hx. apply list_elem_of_In, filter_In in Hx. apply Hx.
  - unfold is_subtree_root in *. by rewrite (sf_auth _ _ _ _ _ _ _ Sf).
Qed.

(** What is so after the fragment [d] of [s] was split. *)
Record split_done (replay : bool) (nb : Z) d s s' : Prop := {
  sp_leaves : forall g, leaf (dirfragtree s') g <->
    leaf (dirfragtree s) g /\ g <> dfrag d \/ g ∈ pieces (dfrag d) nb;
  sp_gone : get_dirfrag (dfrag d) s' = None;
  sp_pieces : forall c, c ∈ pieces (dfrag d) nb -> exists f, get_dirfrag c s' = Some f /\
    subfrag_ok replay (stickydir_ref s) nb d c (taken_by (ino s) c (items (holds d))) f /\
    waiting_on_dentry (waits_ f) = waits_in (ino s) c (add_waiters [] (waiting_on_dentry (waits_ d))) /\
    settled (ino s) (rstatdiff (ino s) (fnode d) new_nest_info) (fragstatdiff (ino s) (fnode d) new_frag_info)
      (c =? ceph_frag_make_child (dfrag d) nb 0) (fnode f) /\ free replay s' f;
  sp_found : forall dn, dn ∈ items (holds d) -> exists c f,
    pick_dirfrag (name dn) s' = Some c /\ get_dirfrag c s' = Some f /\ dn ∈ items (holds f);
  sp_others : forall x, x <> dfrag d -> x ∉ pieces (dfrag d) nb -> get_dirfrag x s' = get_dirfrag x s;
  sp_density : above (ino s') = lighten (env (ino s)) (dens d) (above (ino s));
  sp_same : env (ino s') = env (ino s) /\ stickydir_ref s' = stickydir_ref s
}.

Lemma split_is_done k nb replay now mem result ws d s :
  dir_ok k s -> free replay s d -> 0 < nb -> ceph_frag_bits (dfrag d) + nb <= 24 ->
  exists s', adjust_dir_fragments [dfrag d] (dfrag d) nb replay now mem result ws s =
      Some (s', result ++ pieces (dfrag d) nb, woken replay ws d) /\ dir_ok k s' /\ split_done replay nb d s s'.
Proof.
  intros Hk Hf Hn Hb.
  destruct (adjust_split_ok k nb replay now mem result ws d s Hk Hf Hn Hb) as (s' & E & Hk' & Ee & Es & Ha & Hl & Hg & Hc & Ho).
  exists s'. split_and!; [done..|].
  assert (Wf : wf_frag (dfrag d)).
  { pose proof (do_tree _ _ Hk) as Ht. apply (node_wf _ _ (wt_sane _ Ht)), (do_leaves _ _ Hk _ d). apply Hf. }
  assert (Hr : ready nb (dfrag d) s') by (eapply split_ready; try done; intros c Hc'; apply Hl; by right).
  split; try done.
  - intros c Hc'. destruct (Hc c Hc') as (f & Ef & Sf & Wf' & Se). exists f. split_and!; [done..|].
    by eapply (piece_free replay nb d c f s).
  - intros dn Hdn. pose proof (pl_items _ _ (fr_placed _ _ _ Hf)) as Hp. rewrite Forall_forall in Hp.
    specialize (Hp dn Hdn). cbn in Hp. rewrite <- (holds_env _ _ Ee) in Hp.
    destruct (pick_dirfrag_ok nb (dfrag d) s' (name dn) Hr Hp) as (c & Ep & Hc' & Hch).
    destruct (Hc c Hc') as (f & Ef & Sf & _). exists c, f. split_and!; [done..|].
    rewrite (sf_items _ _ _ _ _ _ _ Sf). apply list_elem_of_In, filter_In. split; [by apply list_elem_of_In|].
    by rewrite <- (holds_env _ _ Ee).
Qed.

(** ** Fragments are merged *)

(** What is so after the fragments [ds] of [s] were merged into [fg]. *)
Record merge_done (replay : bool) (fg : Z) (now : utime) (g : gathered) ds s s' : Prop := {
  md_leaf : leaf (dirfragtree s') fg;
  md_merged : exists f, get_dirfrag fg s' = Some f /\
    merged (ino s) replay (first_auth ds) (stickydir_ref s) fg CDIR_AUTH_DEFAULT (new_pops now) g ds f;
  md_found : forall d dn, d ∈ ds -> dn ∈ items (holds d) -> pick_dirfrag (name dn) s' = Some fg;
  md_others : forall x, x <> fg ->
    get_dirfrag x s' = if bool_decide (x ∈ map dfrag ds) then None else get_dirfrag x s;
  md_density : above (ino s') = lighten_all (env (ino s)) (above (ino s)) ds;
  md_same : env (ino s') = env (ino s) /\ stickydir_ref s' = stickydir_ref s
}.

Definition gathers (i : inode) (replay : bool) (ws : list context) ds : gathered :=
  foldl (gather i replay) (MkGathered new_nest_info new_frag_info [] ws) ds.

(** A name of a fragment below [fg] is a name of [fg]. *)
Lemma holds_below k fg s x nm :
  dir_ok k s -> wf_frag fg -> is_Some (get_dirfrag x s) -> inside fg x ->
  holds_name (ino s) x nm = true -> holds_name (ino s) fg nm = true.
Proof.
  intros Hk Wf [d Hd] Hi Hh. unfold holds_name in *. pose proof (str_hash_range (hash_type (ino s)) nm).
  pose proof (do_tree _ _ Hk) as Ht. pose proof (node_wf _ _ (wt_sane _ Ht) (proj1 (do_leaves _ _ Hk _ _ Hd))) as Wx.
  rewrite contains_value_within in Hh |- * by (done || lia). by apply (inside_within fg x).
Qed.

Lemma merge_is_done k fg nb replay now mem result ws ds s :
  dir_ok k s -> wf_frag fg -> nb <= 0 -> get_dirfrag fg s = None -> ds <> [] ->
  Forall (free replay s) ds -> all_under fg s ds ->
  exists s', adjust_dir_fragments (map dfrag ds) fg nb replay now mem result ws s =
      Some (s', result ++ [fg], g_queue (gathers (ino s) replay ws ds)) /\ dir_ok k s' /\
    merge_done replay fg now (gathers (ino s) replay ws ds) ds s s'.
Proof.
  intros Hk Wf Hn Hno Hne Hf Hu.
  destruct (adjust_merge_ok k fg nb replay now mem result ws ds s Hk Wf Hn Hno Hne Hf Hu)
    as (s' & f & E & Hk' & Ee & Es & Ha & Hl & Hg & Hm & Ho).
  exists s'. split_and!; [done..|]. split; try done; [by exists f|].
  intros d dn Hd Hdn. apply (pick_leaf k); [done..|]. rewrite (holds_env _ _ Ee).
  rewrite Forall_forall in Hf. destruct (Hf d Hd) as [_ [Hp _] _]. rewrite Forall_forall in Hp.
  assert (Hx : dfrag d ∈ map dfrag ds) by (apply list_elem_of_fmap; by exists d).
  apply Hu in Hx as [Hx Hi]. by apply (holds_below k fg s (dfrag d)); [..|apply Hp].
Qed.

(** ** Split and merged again *)

(** The fragments of some of the pieces. *)
Lemma fetch_pieces replay nb d s s' cs :
  split_done replay nb d s s' -> (forall c, c ∈ cs -> c ∈ pieces (dfrag d) nb) ->
  exists ds, map dfrag ds = cs /\ Forall (free replay s') ds /\
    all_items ds ≡ₚ concat (map (fun c => taken_by (ino s) c (items (holds d))) cs).
Proof.
  intros Hsp. induction cs as [|c cs IH]; intros Hc; [by exists []|].
  destruct IH as (ds & Em & Hf & Hp); [intros c' Hc'; apply Hc; by right|].
  destruct (sp_pieces _ _ _ _ _ Hsp c) as (f & _ & Sf & _ & _ & Ff); [apply Hc; by left|].
  exists (f :: ds). unfold all_items in *. cbn [map concat]. rewrite Em, (sf_frag _ _ _ _ _ _ _ Sf).
  split_and!; [done|by constructor|]. by rewrite (sf_items _ _ _ _ _ _ _ Sf), Hp.
Qed.

(** The pieces are all that is below the fragment they are of, and together
    they have what it had. *)
Lemma pieces_under k replay nb d s s' :
  dir_ok k s -> dir_ok k s' -> free replay s d -> 0 < nb -> ceph_frag_bits (dfrag d) + nb <= 24 ->
  split_done replay nb d s s' ->
  exists ds, map dfrag ds = pieces (dfrag d) nb /\ Forall (free replay s') ds /\ all_under (dfrag d) s' ds /\
    all_items ds ≡ₚ items (holds d).
Proof.
  intros Hk Hk' Hf Hn Hb Hsp. set (fg := dfrag d) in *. pose proof (do_tree _ _ Hk) as Ht.
  assert (Lf : leaf (dirfragtree s) fg) by (apply (do_leaves _ _ Hk _ d), Hf).
  pose proof (node_wf _ _ (wt_sane _ Ht) (proj1 Lf)) as Wf.
  assert (Hr : ready nb fg s') by (eapply split_ready; try done; intros c Hc; apply (sp_leaves _ _ _ _ _ Hsp); by right).
  destruct (fetch_pieces replay nb d s s' (pieces fg nb) Hsp) as (ds & Em & Fd & Hp); [done|].
  exists ds. split_and!; [done|done| |].
  - split; rewrite Em; [by eapply NoDup_pieces|]. intros x. split.
    + intros Hx. destruct (sp_pieces _ _ _ _ _ Hsp x Hx) as (f & Ef & _). destruct (piece_wf _ _ _ _ Hr Hx) as (_ & Hi & _).
      by rewrite Ef.
    + intros [[f Ef] Hi]. pose proof (do_leaves _ _ Hk' _ _ Ef) as Lx.
      apply (sp_leaves _ _ _ _ _ Hsp) in Lx as [[Lx Hne]|Hx]; [|done].
      by rewrite (leaf_minimal _ fg x Ht Lf (proj1 Lx) Hi) in Hne.
  - rewrite Hp. apply (partition_perm (fun c dn => holds_name (ino s) c (name dn))); [by eapply NoDup_pieces|].
    intros dn Hdn. rewrite <- (holds_env _ _ (proj1 (sp_same _ _ _ _ _ Hsp))). apply (piece_of k); [done..|].
    rewrite (holds_env _ _ (proj1 (sp_same _ _ _ _ _ Hsp))). pose proof (pl_items _ _ (fr_placed _ _ _ Hf)) as Hpl.
    rewrite Forall_forall in Hpl. by apply Hpl.
Qed.

(** ** The theorems *)

(** C8: [adjust_dir_fragments] splits a fragment of the cache that can be split
    without failing an assertion.  Its pieces take its place among the leaves of
    the tree and in the cache, each with the dentries and the waiters whose
    names hash into it and with pins, counts and statistics that agree with
    them; every dentry is found in the fragment where its name is looked up; the
    first piece is given what the statistics had not accounted for; the other
    fragments are as they were.  The counts of dentries kept in the fragments
    above lose those of the old fragment. *)
Theorem adjust_split_correct k nb replay now mem result ws d s :
  dir_ok k s -> free replay s d -> 0 < nb -> ceph_frag_bits (dfrag d) + nb <= 24 ->
  exists s', adjust_dir_fragments [dfrag d] (dfrag d) nb replay now mem result ws s =
      Some (s', result ++ pieces (dfrag d) nb, woken replay ws d) /\ dir_ok k s' /\ split_done replay nb d s s'.
Proof. apply split_is_done. Qed.

(** C9: [adjust_dir_fragments] merges the fragments of the cache that lie below
    one that is not there, without failing an assertion.  The new fragment is a
    leaf of the tree and in the cache; it has the dentries, the waiters, the
    replicas and the statistics of all of them, and every name of theirs is
    looked up in it; they are gone and the others as they were. *)
Theorem adjust_merge_correct k fg nb replay now mem result ws ds s :
  dir_ok k s -> wf_frag fg -> nb <= 0 -> get_dirfrag fg s = None -> ds <> [] ->
  Forall (free replay s) ds -> all_under fg s ds ->
  exists s', adjust_dir_fragments (map dfrag ds) fg nb replay now mem result ws s =
      Some (s', result ++ [fg], g_queue (gathers (ino s) replay ws ds)) /\ dir_ok k s' /\
    merge_done replay fg now (gathers (ino s) replay ws ds) ds s s'.
Proof. apply merge_is_done. Qed.

(** A fragment that is split and whose pieces are merged again comes back
    with the same dentries and statistics of them, and the rest of the cache is
    as it was. *)
Theorem split_merge_roundtrip k nb replay now mem ws d s :
  dir_ok k s -> free replay s d -> 0 < nb -> ceph_frag_bits (dfrag d) + nb <= 24 ->
  exists s1 ws1 s2 ws2 f,
    adjust_dir_fragments [dfrag d] (dfrag d) nb replay now mem [] ws s = Some (s1, pieces (dfrag d) nb, ws1) /\
    adjust_dir_fragments (pieces (dfrag d) nb) (dfrag d) (- nb) replay now mem [] ws1 s1 = Some (s2, [dfrag d], ws2) /\
    dir_ok k s2 /\ get_dirfrag (dfrag d) s2 = Some f /\
    items (holds f) ≡ₚ items (holds d) /\ counted (holds f) /\ stat_ok (fnode f) (items (holds d)) /\ pins_ok false f /\
    forall x, x <> dfrag d -> get_dirfrag x s2 = get_dirfrag x s.
Proof.
  intros Hk Hf Hn Hb. set (fg := dfrag d).
  destruct (split_is_done k nb replay now mem [] ws d s Hk Hf Hn Hb) as (s1 & E1 & Hk1 & Hsp).
  destruct (pieces_under k replay nb d s s1 Hk Hk1 Hf Hn Hb Hsp) as (ds & Em & Fd & Hu & Hp). fold fg in Em, Hu.
  assert (Lf : leaf (dirfragtree s) fg) by (apply (do_leaves _ _ Hk _ d), Hf).
  pose proof (node_wf _ _ (wt_sane _ (do_tree _ _ Hk)) (proj1 Lf)) as Wf.
  assert (Hne : ds <> []).
  { intros ->. assert (Hin : ceph_frag_make_child fg nb 0 ∈ pieces fg nb); [|rewrite <- Em in Hin; by apply elem_of_nil in Hin].
    apply elem_of_pieces. exists 0. pose proof (Z.pow_pos_nonneg 2 nb). split; [lia|done]. }
  destruct (merge_is_done k fg (- nb) replay now mem [] (woken replay ws d) ds s1 Hk1 Wf ltac:(lia)
    (sp_gone _ _ _ _ _ Hsp) Hne Fd Hu) as (s2 & E2 & Hk2 & [_ (f & Ef & Hm) _ Ho _ _]).
  rewrite Em in E2, Ho. exists s1. eexists. exists s2. eexists. exists f. split_and!; [exact E1|exact E2|done|done|..]; try apply Hm.
  - by rewrite (mg_items _ _ _ _ _ _ _ _ _ _ Hm).
  - eapply stat_perm; [exact Hp|apply Hm].
  - intros x Hx. rewrite Ho by done. destruct (decide (x ∈ pieces fg nb)) as [Hin|Hin].
    + rewrite bool_decide_eq_true_2 by done. pose proof (pieces_absent k nb fg s Hk Lf Hn Hb) as Ha.
      rewrite Forall_forall in Ha. by rewrite Ha.
    + rewrite bool_decide_eq_false_2 by done. by apply (sp_others _ _ _ _ _ Hsp).
Qed.

(** C19: [force_dir_fragment] fails no assertion where all the fragments of the
    cache are leaves of the tree and those that overlap the wanted one are free,
    that is complete, not auth pinned, no subtree roots, and frozen unless the
    journal is replayed. It returns the fragment, and has put it in the cache as
    a leaf, if and only if something in the cache overlaps it: the leaf around
    it was split, or those below it were merged. A cache that does not agree
    with the tree, such as [CInode::force_dirfrags] mends, is not covered. *)
Theorem force_dir_fragment_correct k fg replay now mem s :
  dir_ok k s -> wf_frag fg -> (forall x d, get_dirfrag x s = Some d -> overlaps fg x -> free replay s d) ->
  exists s' r, force_dir_fragment fg replay now mem s = Some (s', r) /\
    dir_ok k s' /\ env (ino s') = env (ino s) /\ obtained fg r s s'.
Proof. apply force_dir_fragment_ok. Qed.

(** C29: [get_dirfrags_under] says that all is there if and only if every leaf of
    the tree below the fragment is in the cache; so the second pass, which looks
    at the fragments of the cache that are no leaves, never makes it say so.
    The list has no fragment twice: it has the leaves of the cache below and,
    when they are not all there, the other fragments of the cache below. *)
Theorem get_dirfrags_under_correct k fg s :
  sok k s -> wf_tree (dirfragtree s) -> wf_frag fg -> Forall (fun p => wf_frag p.1) (dirfrags s) ->
  exists b ls, get_dirfrags_under fg s = Some (b, ls) /\ NoDup ls /\
    (b = true <-> forall g, leaf (dirfragtree s) g -> inside fg g -> is_Some (get_dirfrag g s)) /\
    forall x, x ∈ ls <-> is_Some (get_dirfrag x s) /\ inside fg x /\ (leaf (dirfragtree s) x \/ b = false).
Proof. apply get_dirfrags_under_ok. Qed.

End dir.
End DirTheorems.

(** ** A directory with one fragment *)

Module DirExample.
Import Frag FragTree FragFacts FragTreeFacts StrHash CacheDir CacheDirFacts DirSplit DirFragment
  DirMerge Refragment RefragmentFacts DirTheorems.

Definition a_name : bytes := [97].
Definition b_name : bytes := [108; 105; 110; 107].

(** A file that is auth pinned and a remote link. *)
Definition a_dentry : dentry :=
  MkDentry a_name (ceph_str_hash_linux a_name) CEPH_NOSNAP (Primary (MkChild 1000 false new_nest_info false 0))
    false 1 0 true false false 0.
Definition b_dentry : dentry :=
  MkDentry b_name (ceph_str_hash_linux b_name) CEPH_NOSNAP (Remote 1001 8) false 0 0 false false false 0.

(** The fragment, frozen to be split, and the pins it calls for. *)
Definition unpinned : cdir (D := Q) :=
  MkDir root (Z.lor STATE_AUTH (Z.lor STATE_COMPLETE STATE_FROZENDIR)) CDIR_AUTH_DEFAULT no_pins (MkAuths 0 1 1) []
    (MkContent [a_dentry; b_dentry] 2 0 0 0 1 [dn_key a_dentry] []) zero_fnode 0 false
    (MkWaits [((a_name, CEPH_NOSNAP), [7])] []) (MkDensity 5 5 5) 0 (new_pops (MkTime 0 0)).
Definition whole : cdir (D := Q) := set_pins (MkPins 3 (expected false unpinned)) unpinned.

Definition dir_inode : inode :=
  MkInode (MkEnv true (Some (false, false)) false 0 1 1 0 (-1) false)
    (MkPins 2 (fun p => if p =? PIN_DIRFRAG then 1 else if p =? PIN_AUTHPIN then 1 else 0))
    1 1 Thawed [] false [MkDensity 9 9 9] [].

Definition directory : diri (D := Q) := MkDiri dir_inode 0 [] [(root, whole)].

Lemma directory_only x d : get_dirfrag x directory = Some d -> x = root /\ d = whole.
Proof. unfold get_dirfrag, directory. cbn [dirfrags map_find]. destruct (Z.eqb_spec root x) as [<-|]; [by intros [= <-]|done]. Qed.

Lemma directory_ok : dir_ok 0 directory.
Proof.
  split; [split| | |]; try done.
  - by intros fg d [-> ->]%directory_only.
  - split; try done; cbn; try lia. intros p. destruct (p =? _); [lia|]. destruct (p =? _); lia.
  - intros x d [-> ->]%directory_only. split; [by left|done].
Qed.

Lemma whole_free : free false directory whole.
Proof.
  split; [split_and!| |]; try done.
  - split; try done.
    + split; [done|by vm_compute|]. intros p. unfold expected. repeat case_match; apply b2z_range || done.
    + split; try done; repeat constructor; cbn; try lia; done.
    + constructor.
  - split; repeat constructor.
Qed.

Definition left_half : Z := ceph_frag_make_child root 1 0.

Lemma left_half_wf : wf_frag left_half.
Proof. apply (child_spec root 1 0); [apply root_wf|done..]. Qed.

Lemma adjust_split_correct_witness :
  exists s', adjust_dir_fragments [root] root 1 false (MkTime 0 0) (fun _ => 0) [] [] directory =
      Some (s', pieces root 1, []) /\ dir_ok 0 s' /\ split_done false 1 whole directory s'.
Proof.
  exact (adjust_split_correct 0 1 false (MkTime 0 0) (fun _ => 0) [] [] whole directory directory_ok whole_free
    ltac:(done) ltac:(done)).
Defined.

Lemma adjust_merge_correct_witness :
  exists s (ds : list (cdir (D := Q))) s' ws', length ds = 2%nat /\
    adjust_dir_fragments (map dfrag ds) root (-1) false (MkTime 0 0) (fun _ => 0) [] [] s = Some (s', [root], ws') /\
    dir_ok (D := Q) 0 s'.
Proof.
  destruct (split_is_done 0 1 false (MkTime 0 0) (fun _ => 0) [] [] whole directory directory_ok whole_free
    ltac:(done) ltac:(done)) as (s & _ & Hk & Hsp).
  destruct (pieces_under 0 false 1 whole directory s directory_ok Hk whole_free ltac:(done) ltac:(done) Hsp)
    as (ds & Em & Hf & Hu & _).
  assert (Hl : length ds = 2%nat) by (rewrite <- (length_map dfrag), Em; done).
  destruct (adjust_merge_correct 0 root (-1) false (MkTime 0 0) (fun _ => 0) [] [] ds s Hk root_wf ltac:(done)
    (sp_gone _ _ _ _ _ Hsp) ltac:(intros ->; done) Hf Hu) as (s' & E & Hk' & _).
  exists s, ds, s'. eexists. split; [exact Hl|]. split; [exact E|exact Hk'].
Defined.

Lemma split_merge_roundtrip_witness :
  exists s1 ws1 s2 ws2 f,
    adjust_dir_fragments [root] root 1 false (MkTime 0 0) (fun _ => 0) [] [] directory = Some (s1, pieces root 1, ws1) /\
    adjust_dir_fragments (pieces root 1) root (-1) false (MkTime 0 0) (fun _ => 0) [] ws1 s1 = Some (s2, [root], ws2) /\
    get_dirfrag root s2 = Some f /\ items (holds f) ≡ₚ [a_dentry; b_dentry].
Proof.
  destruct (split_merge_roundtrip 0 1 false (MkTime 0 0) (fun _ => 0) [] whole directory directory_ok whole_free
    ltac:(done) ltac:(done)) as (s1 & ws1 & s2 & ws2 & f & E1 & E2 & _ & Ef & Hp & _).
  exists s1, ws1, s2, ws2, f. split; [exact E1|]. split; [exact E2|]. split; [exact Ef|exact Hp].
Defined.

Lemma force_dir_fragment_correct_witness :
  exists s' r, force_dir_fragment left_half false (MkTime 0 0) (fun _ => 0) directory = Some (s', r) /\ r = Some left_half.
Proof.
  destruct (force_dir_fragment_correct 0 left_half false (MkTime 0 0) (fun _ => 0) directory directory_ok left_half_wf
    ltac:(intros x d Hd _; apply directory_only in Hd as [-> ->]; exact whole_free))
    as (s' & r & E & _ & _ & [(_ & Hr & _)|(Hn & _)]).
  - exists s', r. split; [exact E|exact Hr].
  - destruct (Hn root); [done|]. right. apply root_inside, left_half_wf.
Defined.

Lemma get_dirfrags_under_correct_witness :
  exists ls, get_dirfrags_under root directory = Some (true, ls) /\ root ∈ ls.
Proof.
  destruct (get_dirfrags_under_correct 0 root directory (do_sok _ _ directory_ok) (do_tree _ _ directory_ok) root_wf
    (keys_wf 0 directory directory_ok)) as (b & ls & E & _ & Hb & Hl).
  assert (Hr : forall g, leaf (dirfragtree directory) g -> inside root g -> is_Some (get_dirfrag g directory)).
  { intros g [[->|(p & Hp & _)] _] _; [done|]. by destruct Hp. }
  assert (b = true) as -> by (apply Hb, Hr). exists ls. split; [exact E|]. apply Hl.
  split; [done|]. split; [apply root_inside, root_wf|]. left. split; [by left|done].
Defined.

End DirExample.
