(* ===== verification/Fragmenting.v ===== *)
(** * Requests to split or merge fragments, src/mds/MDCache.cc

    The balancer asks [split_dir] or [merge_dir] to refragment a directory.  The
    fragments are frozen and their dentries marked; when they all are frozen
    [dispatch_fragment_dir] takes locks, calls [adjust_dir_fragments] and
    journals the change; when that is on disk the new fragments are stored
    ([_fragment_logged]), unfrozen ([_fragment_stored]) and at last the old
    objects are removed ([_fragment_committed], [_fragment_finish]).  A request
    that cannot get its locks gives the fragments back
    ([fragment_unmark_unfreeze_dirs]).

    The requests are those of one directory, keyed by their fragment.  What the
    code asks of the journal, of the object store and of other ranks is a list
    of effects; the calls that run when they complete are the functions here.
    Not modelled: the content of journal entries beyond the fragments, the
    projected inode that is journalled, and the log segment. *)

From S2P Require Import Prelude Encoding Frag FragTree Double Load StrHash CacheDir CacheDirFacts DirSplit DirFragment DirMerge Refragment.
Import Encoding.

Module Fragmenting.
Import Frag FragTree StrHash CacheDir Refragment.

(** What the requests ask of others. *)
Inductive effect :=
  | FetchDir (fg : Z) | CommitDir (fg : Z)
  | FlushLog | DropLocks (mdr : Z) | RequestFinish (mdr : Z)
  | QueueSplit (fg : Z) | QueueMerge (fg : Z) | MaybeFragment (fg : Z)
  | JournalPrepare (basefrag nb : Z) (orig_frags : list (Z * fnode_t)) (result : list Z)
  | JournalCommit (basefrag nb : Z) | JournalFinish (basefrag nb : Z)
  | FragmentNotify (rank basefrag nb : Z)
  | RemoveObject (fg : Z) | TruncateObject (fg : Z).

(** What a request reads that is not in the directory: [frozen_above] is what
    [is_frozen_tree] answers of the fragment above, [unsuitable] that the inode is
    in a stray directory or is one, the [mdsdir] or [.ceph]; [is_new] is
    [CDir::is_new]; [told] are the ranks that a notification goes to. *)
Record outside := MkOutside {
  readonly : bool; degraded : bool; unsuitable : bool; scrubbing : bool;
  frozen_above : bool; freezing_above : bool;
  is_new : Z -> bool; told : Z -> bool; mds_debug_frag : bool
}.

(** What [acquire_locks] does: it takes them, waits, or aborts the request. *)
Inductive locking := Acquired | Waiting | Aborted.

Record fragment_info := MkInfo {
  f_bits : Z; f_dirs : list Z; resultfrags : list Z; f_mdr : Z; all_frozen : bool;
  last_cum_auth_pins_change : utime; last_cum_auth_pins : Z; num_remote_waiters : Z
}.

Record ufragment := MkUfragment { u_bits : Z; committed : bool; old_frags : list Z }.

(** ** Dentries *)

Definition set_marks (b : bool) (n : Z) (dn : dentry) : dentry :=
  MkDentry (name dn) (hash dn) (last dn) (linkage dn) (dn_is_projected dn) (dn_auth_pins dn)
    (dn_nested_auth_pins dn) (dn_dirty dn) (client_leases dn) b n.

Definition mark_dentry (dn : dentry) : option dentry :=
  assert! negb (dn_fragmenting dn); Some (set_marks true (dn_pinned dn + 1) dn).
Definition unmark_dentry (dn : dentry) : option dentry :=
  assert! dn_fragmenting dn;
  assert! negb (dn_pinned dn =? 0); Some (set_marks false (dn_pinned dn - 1) dn).

Section dir.
Context {D} `{Double D}.
Abbreviation cdir := (CacheDir.cdir (D := D)).
Abbreviation diri := (CacheDir.diri (D := D)).

Definition set_items (l : list dentry) (d : cdir) : cdir :=
  let c := holds d in
  set_holds (MkContent l (num_head_items c) (num_head_null c) (num_snap_items c) (num_snap_null c)
    (num_dirty c) (dirty_dentries c) (dirty_rstat_inodes c)) d.

(** ** Freezing *)

Definition is_frozen_tree (o : outside) (d : cdir) : bool :=
  state_test d STATE_FROZENTREE || negb (is_subtree_root d) && frozen_above o.
Definition is_freezing_tree (o : outside) (d : cdir) : bool :=
  state_test d STATE_FREEZINGTREE || negb (is_subtree_root d) && freezing_above o.
Definition is_frozen (o : outside) (d : cdir) : bool := is_frozen_dir d || is_frozen_tree o d.
Definition is_freezing (o : outside) (d : cdir) : bool := is_freezing_tree o d || is_freezing_dir d.

Definition freeze_dir (o : outside) (d : cdir) (i : inode) : option (cdir * inode * bool) :=
  assert! negb (is_frozen o d);
  assert! negb (is_freezing o d);
  '(d, i) ← auth_pin d i;
  if is_freezeable_dir 1 d i then
    let '(d, i) := _freeze_dir d i in
    '(d, i) ← auth_unpin d i;
    Some (d, i, true)
  else Some (state_set STATE_FREEZINGDIR d, i, false).

(** [insert] of a [multimap]: after the entries of the same mask. *)
Fixpoint waiting_insert (l : list waiter) (w : waiter) : list waiter :=
  match l with
  | [] => [w]
  | x :: l' => if w_mask w <? w_mask x then w :: l else x :: waiting_insert l' w
  end.

(** [add_waiter] with a mask that is neither ordered nor for a root. *)
Definition add_waiter (tag : Z) (c : context) (d : cdir) (i : inode) : option (cdir * inode) :=
  assert! (Z.land tag WAIT_CREATED =? 0) || state_test d STATE_CREATING;
  let '(d, i) := match waiting (waits_ d) with [] => get PIN_WAITER d i | _ :: _ => (d, i) end in
  let w := waits_ d in
  Some (set_waits (MkWaits (waiting_on_dentry w) (waiting_insert (waiting w) (MkWaiter tag 0 c))) d, i).

(** ** One fragment of a request *)

(** A step on a fragment of the cache, and on each of a list. *)
Definition on_frag (op : cdir -> inode -> option (cdir * inode)) (fg : Z) (s : diri) : option diri :=
  d ← get_dirfrag fg s;
  '(d, i) ← op d (ino s);
  Some (store d i s).

Fixpoint on_frags (op : cdir -> inode -> option (cdir * inode)) (l : list Z) (s : diri) : option diri :=
  match l with
  | [] => Some s
  | fg :: l => s ← on_frag op fg s; on_frags op l s
  end.

Definition freeze_one (o : outside) (d : cdir) (i : inode) : option (cdir * inode) :=
  '(d, i) ← auth_pin d i;
  '(d, i, _) ← freeze_dir o (state_set STATE_FRAGMENTING d) i;
  assert! is_freezing_dir d;
  Some (d, i).

Definition fragment_freeze_dirs (o : outside) (dirs : list Z) (s : diri) : option diri :=
  on_frags (freeze_one o) dirs s.

(** The dentries of a complete fragment are marked, once. *)
Definition mark_one (d : cdir) (i : inode) : option (cdir * inode) :=
  if negb (state_test d STATE_DNPINNEDFRAG) then
    l ← mapM mark_dentry (items (holds d));
    auth_unpin (state_set STATE_DNPINNEDFRAG (set_items l d)) i
  else Some (d, i).

Definition unmark_one (d : cdir) (i : inode) : option (cdir * inode) :=
  assert! state_test d STATE_FRAGMENTING;
  let d := state_clear STATE_FRAGMENTING d in
  '(d, i) ← (if state_test d STATE_DNPINNEDFRAG then
               l ← mapM unmark_dentry (items (holds d));
               Some (set_items l (state_clear STATE_DNPINNEDFRAG d), i)
             else auth_unpin d i);
  unfreeze_dir d i.

Definition fragment_unmark_unfreeze_dirs (dirs : list Z) (s : diri) : option diri :=
  on_frags unmark_one dirs s.

(** What a pass of [fragment_mark_and_complete] does to a fragment: what it is
    not ready for is asked for, with [sub] to run when it is there. *)
Definition mark_step (o : outside) (sub : context) (fg : Z) (s : diri) : option (diri * list effect * bool) :=
  d ← get_dirfrag fg s;
  if negb (is_complete d) then Some (s, [FetchDir fg], true)
  else if (fg =? root) && state_test d STATE_CREATING then
    '(d, i) ← add_waiter WAIT_CREATED sub d (ino s); Some (store d i s, [], true)
  else if (fg =? root) && is_new o fg then
    assert! is_dirty d; Some (s, [CommitDir fg], true)
  else s ← on_frag mark_one fg s; Some (s, [], false).

Fixpoint mark_pass (o : outside) (sub : context) (dirs : list Z) (s : diri)
  : option (diri * list effect * bool) :=
  match dirs with
  | [] => Some (s, [], false)
  | fg :: dirs =>
      '(s, e, wait) ← mark_step o sub fg s;
      '(s, e', wait') ← mark_pass o sub dirs s;
      Some (s, e ++ e', wait || wait')
  end.

(** The fragments that are not frozen yet are waited for. *)
Fixpoint wait_frozen (sub : context) (dirs : list Z) (s : diri) : option (diri * bool) :=
  match dirs with
  | [] => Some (s, false)
  | fg :: dirs =>
      d ← get_dirfrag fg s;
      if is_frozen_dir d then wait_frozen sub dirs s
      else
        assert! is_freezing_dir d;
        '(d, i) ← add_waiter WAIT_FROZEN sub d (ino s);
        '(s, _) ← wait_frozen sub dirs (store d i s);
        Some (s, true)
  end.

Definition logged_one (d : cdir) (i : inode) : option (cdir * inode) :=
  '(d, i) ← auth_pin d i; Some (state_set STATE_FRAGMENTING d, i).

Definition add_replica (who : Z) (d : cdir) (i : inode) : option (cdir * inode) :=
  match map_find (replicas d) who with
  | Some nonce => Some (set_replicas (map_set (replicas d) who (u32 (nonce + 1))) d, i)
  | None =>
      let '(d, i) := match replicas d with [] => get PIN_REPLICATED d i | _ :: _ => (d, i) end in
      Some (set_replicas (map_set (replicas d) who 1) d, i)
  end.

Definition thaw_one (d : cdir) (i : inode) : option (cdir * inode) :=
  l ← mapM unmark_dentry (items (holds d));
  unfreeze_dir (set_items l d) i.

Definition finish_one (d : cdir) (i : inode) : option (cdir * inode) :=
  auth_unpin (state_clear STATE_FRAGMENTING d) i.

(** ** Requests *)

Record cache := MkCache {
  dir : diri; fragments : list (Z * fragment_info);
  uncommitted_fragments : list (Z * ufragment); effects : list effect
}.

Definition set_dir (s : diri) (c : cache) : cache :=
  MkCache s (fragments c) (uncommitted_fragments c) (effects c).
Definition set_fragments (m : list (Z * fragment_info)) (c : cache) : cache :=
  MkCache (dir c) m (uncommitted_fragments c) (effects c).
Definition set_uncommitted (m : list (Z * ufragment)) (c : cache) : cache :=
  MkCache (dir c) (fragments c) m (effects c).
Definition emit (l : list effect) (c : cache) : cache :=
  MkCache (dir c) (fragments c) (uncommitted_fragments c) (effects c ++ l).

Definition can_fragment (o : outside) (dirs : list cdir) : bool :=
  negb (readonly o) && negb (degraded o) && negb (unsuitable o) && negb (scrubbing o) &&
  forallb (fun d => negb (state_test d STATE_FRAGMENTING) && is_auth d && negb (state_test d STATE_BADFRAG) &&
                    negb (is_frozen o d || is_freezing o d)) dirs.

(** The request [mdr] for [base], if it was not aborted. *)
Definition find_request (base mdr : Z) (c : cache) : option fragment_info :=
  match map_find (fragments c) base with
  | Some info => if f_mdr info =? mdr then Some info else None
  | None => None
  end.

Definition add_uncommitted_fragment (base nb : Z) (old : list Z) (c : cache) : option cache :=
  assert! negb (bool_decide (is_Some (map_find (uncommitted_fragments c) base)));
  Some (set_uncommitted (map_set (uncommitted_fragments c) base (MkUfragment nb false old)) c).

(** [finish_uncommitted_fragment], [finished] saying that the op is [OP_FINISH]. *)
Definition finish_uncommitted_fragment (base : Z) (finished : bool) (c : cache) : cache :=
  match map_find (uncommitted_fragments c) base with
  | None => c
  | Some uf =>
      if negb finished && match old_frags uf with [] => false | _ :: _ => true end
      then set_uncommitted (map_set (uncommitted_fragments c) base (MkUfragment (u_bits uf) true (old_frags uf))) c
      else set_uncommitted (map_erase (uncommitted_fragments c) base) c
  end.

(** No fragment that was there is a leaf of the new tree. *)
Definition none_leaf (orig : list Z) (s : diri) : option bool :=
  l ← mapM (fun fg => is_leaf (dirfragtree s) fg) orig; Some (forallb negb l).

(** The refragmentation, once the locks are held. *)
Definition refragment (o : outside) (now : utime) (memory : Z -> Z) (base : Z) (info : fragment_info) (c : cache)
  : option cache :=
  orig ← mapM (fun fg => d ← get_dirfrag fg (dir c); Some (fg, fnode d)) (f_dirs info);
  '(s, result, ws) ← adjust_dir_fragments (f_dirs info) base (f_bits info) false now memory
                       (resultfrags info) [] (dir c);
  _ ← (if mds_debug_frag o then verify_dirfrags s else Some tt);
  let s := set_ino (i_call (QueueWaiters ws) (ino s)) s in
  none ← none_leaf (map fst orig) s;
  assert! (none : bool);
  assert! match result with [] => false | _ :: _ => true end;
  s ← (if i_auth (env (ino s)) then Some s
       else on_frags (fun d i => Some (state_set STATE_DIRTYDFT d, i)) result s);
  let info := MkInfo (f_bits info) (f_dirs info) result (f_mdr info) (all_frozen info)
                (last_cum_auth_pins_change info) (last_cum_auth_pins info) (num_remote_waiters info) in
  let c := set_fragments (map_set (fragments c) base info) (set_dir s c) in
  c ← add_uncommitted_fragment base (f_bits info) (map fst orig) c;
  Some (emit [JournalPrepare base (f_bits info) orig result; FlushLog] c).

Definition dispatch_fragment_dir (o : outside) (lk : locking) (now : utime) (memory : Z -> Z) (base mdr : Z)
  (c : cache) : option cache :=
  match find_request base mdr c with
  | None => Some (emit [RequestFinish mdr] c)
  | Some info =>
      match lk with
      | Waiting => Some c
      | Aborted =>
          first ← head (f_dirs info);
          let c := emit [if 0 <? f_bits info then QueueSplit first else QueueMerge first] c in
          s ← fragment_unmark_unfreeze_dirs (f_dirs info) (dir c);
          Some (emit [RequestFinish mdr] (set_fragments (map_erase (fragments c) base) (set_dir s c)))
      | Acquired => refragment o now memory base info c
      end
  end.

Definition fragment_frozen (o : outside) (lk : locking) (now : utime) (memory : Z -> Z) (base mdr : Z)
  (c : cache) : option cache :=
  match find_request base mdr c with
  | None => Some (emit [RequestFinish mdr] c)
  | Some info =>
      let info := MkInfo (f_bits info) (f_dirs info) (resultfrags info) (f_mdr info) true
                    (last_cum_auth_pins_change info) (last_cum_auth_pins info) (num_remote_waiters info) in
      dispatch_fragment_dir o lk now memory base mdr (set_fragments (map_set (fragments c) base info) c)
  end.

Definition fragment_mark_and_complete (o : outside) (lk : locking) (now : utime) (memory : Z -> Z)
  (sub : context) (base mdr : Z) (c : cache) : option cache :=
  match find_request base mdr c with
  | None => Some (emit [RequestFinish mdr] c)
  | Some info =>
      '(s, e, wait) ← mark_pass o sub (f_dirs info) (dir c);
      let c := emit e (set_dir s c) in
      if (wait : bool) then Some c
      else
        '(s, wait) ← wait_frozen sub (f_dirs info) (dir c);
        let c := set_dir s c in
        if (wait : bool) then Some (emit [FlushLog] c)
        else fragment_frozen o lk now memory base mdr c
  end.

(** How a request for the fragments [dirs] begins. *)
Definition begin_fragment (o : outside) (lk : locking) (now : utime) (memory : Z -> Z) (sub : context)
  (base mdr nb : Z) (dirs : list Z) (c : cache) : option cache :=
  assert! negb (bool_decide (is_Some (map_find (fragments c) base)));
  let c := set_fragments (map_set (fragments c) base (MkInfo nb dirs [] mdr false now 0 0)) c in
  s ← fragment_freeze_dirs o dirs (dir c);
  fragment_mark_and_complete o lk now memory sub base mdr (set_dir s c).

Definition split_dir (o : outside) (lk : locking) (now : utime) (memory : Z -> Z) (sub : context)
  (fg nb mdr : Z) (c : cache) : option cache :=
  d ← get_dirfrag fg (dir c);
  assert! is_auth d;
  if negb (can_fragment o [d]) then Some c
  else if 24 <? ceph_frag_bits fg + nb then Some c
  else begin_fragment o lk now memory sub fg mdr nb [fg] c.

Definition merge_dir (o : outside) (lk : locking) (now : utime) (memory : Z -> Z) (sub : context)
  (fg mdr : Z) (c : cache) : option cache :=
  '(all, ls) ← get_dirfrags_under fg (dir c);
  if negb (all : bool) then Some c
  else
    leaf ← is_leaf (dirfragtree (dir c)) fg;
    if (leaf : bool) then Some c
    else
      dirs ← mapM (fun x => get_dirfrag x (dir c)) ls;
      if negb (can_fragment o dirs) then Some c
      else
        first ← head ls;
        begin_fragment o lk now memory sub fg mdr (- (ceph_frag_bits first - ceph_frag_bits fg)) ls c.

(** ** When the change is on disk *)

Definition _fragment_logged (base : Z) (c : cache) : option cache :=
  info ← map_find (fragments c) base;
  _ ← head (resultfrags info);
  s ← on_frags logged_one (resultfrags info) (dir c);
  Some (emit (map CommitDir (resultfrags info)) (set_dir s c)).

Fixpoint notify_replicas (base nb : Z) (ranks frags : list Z) (c : cache) : option cache :=
  match ranks with
  | [] => Some c
  | who :: ranks =>
      s ← on_frags (add_replica who) frags (dir c);
      notify_replicas base nb ranks frags (emit [FragmentNotify who base nb] (set_dir s c))
  end.

Definition _fragment_stored (o : outside) (base mdr : Z) (c : cache) : option cache :=
  info ← map_find (fragments c) base;
  first ← head (resultfrags info);
  d ← get_dirfrag first (dir c);
  c ← notify_replicas base (f_bits info) (List.filter (told o) (map fst (replicas d))) (resultfrags info) c;
  let c := emit [JournalCommit base (f_bits info); DropLocks mdr] c in
  s ← on_frags thaw_one (resultfrags info) (dir c);
  Some (emit [RequestFinish mdr] (set_fragments (map_erase (fragments c) base) (set_dir s c))).

Definition _fragment_committed (base : Z) (c : cache) : option cache :=
  uf ← map_find (uncommitted_fragments c) base;
  assert! match old_frags uf with [] => false | _ :: _ => true end;
  Some (emit (map (fun fg => if fg =? root then TruncateObject fg else RemoveObject fg) (old_frags uf)) c).

Definition _fragment_finish (base : Z) (result : list Z) (c : cache) : option cache :=
  uf ← map_find (uncommitted_fragments c) base;
  s ← on_frags finish_one result (dir c);
  let c := emit (map MaybeFragment result ++ [JournalFinish base (u_bits uf)]) (set_dir s c) in
  Some (finish_uncommitted_fragment base true c).

(** ** Requests that are waited for *)

(** The request that a fragment is frozen for. *)
Definition request_of (fg : Z) (c : cache) : option (Z * fragment_info) :=
  List.find (fun p => ceph_frag_contains_frag p.1 fg) (fragments c).

Definition fragment_are_all_frozen (fg : Z) (c : cache) : option bool :=
  d ← get_dirfrag fg (dir c);
  assert! is_frozen_dir d;
  '(_, info) ← request_of fg c;
  Some (all_frozen info).

Definition fragment_freeze_inc_num_waiters (fg : Z) (c : cache) : option cache :=
  '(base, info) ← request_of fg c;
  Some (set_fragments (map_set (fragments c) base
    (MkInfo (f_bits info) (f_dirs info) (resultfrags info) (f_mdr info) (all_frozen info)
      (last_cum_auth_pins_change info) (last_cum_auth_pins info) (num_remote_waiters info + 1))) c).

(** The auth pins that keep the fragments of a request from freezing, or -1 if
    one of them is not marked yet. *)
Fixpoint total_auth_pins (dirs : list Z) (n : Z) (s : diri) : option Z :=
  match dirs with
  | [] => Some n
  | fg :: dirs =>
      d ← get_dirfrag fg s;
      if negb (state_test d STATE_DNPINNEDFRAG) then Some (-1)
      else if is_frozen_dir d then total_auth_pins dirs n s
      else total_auth_pins dirs (n + (auth_pins (pinned d) + dir_auth_pins (pinned d))) s
  end.

Definition utime_lt (a b : utime) : bool := (sec a <? sec b) || (sec a =? sec b) && (nsec a <? nsec b).

(** What [find_stale_fragment_freeze] does with a request; [cutoff] is the time
    before [now] by the timeout, [parent_freezing] whether the fragment that the
    directory is in freezes. *)
Definition find_stale_one (now cutoff : utime) (parent_freezing : bool) (base : Z) (c : cache) : option cache :=
  info ← map_find (fragments c) base;
  if all_frozen info then Some c
  else
    n ← total_auth_pins (f_dirs info) 0 (dir c);
    if n <? 0 then Some c
    else if negb (last_cum_auth_pins info =? n) then
      Some (set_fragments (map_set (fragments c) base
        (MkInfo (f_bits info) (f_dirs info) (resultfrags info) (f_mdr info) (all_frozen info) now n
          (num_remote_waiters info))) c)
    else if negb (utime_lt (last_cum_auth_pins_change info) cutoff) then Some c
    else if (0 <? num_remote_waiters info) || parent_freezing then
      let c := set_fragments (map_erase (fragments c) base) c in
      s ← fragment_unmark_unfreeze_dirs (f_dirs info) (dir c);
      Some (set_dir s c)
    else Some c.

Fixpoint find_stale_loop (now cutoff : utime) (parent_freezing : bool) (bases : list Z) (c : cache) : option cache :=
  match bases with
  | [] => Some c
  | base :: bases => c ← find_stale_one now cutoff parent_freezing base c; find_stale_loop now cutoff parent_freezing bases c
  end.

Definition find_stale_fragment_freeze (now cutoff : utime) (parent_freezing : bool) (c : cache) : option cache :=
  find_stale_loop now cutoff parent_freezing (map fst (fragments c)) c.

(** [rollback_uncommitted_fragment] with the fragments that there were before. *)
Definition rollback_uncommitted_fragment (base : Z) (old : list Z) (c : cache) : cache :=
  match map_find (uncommitted_fragments c) base with
  | None => c
  | Some uf =>
      if match old_frags uf with [] => false | _ :: _ => true end
      then set_uncommitted (map_set (uncommitted_fragments c) base (MkUfragment (u_bits uf) true old)) c
      else set_uncommitted (map_erase (uncommitted_fragments c) base) c
  end.

End dir.
End Fragmenting.

Module FragmentingFacts.
Import Frag FragTree StrHash CacheDir CacheDirFacts DirSplit DirFragment DirMerge Refragment RefragmentFacts Fragmenting.

Section dir.
Context {D} `{Double D}.
Abbreviation cdir := (CacheDir.cdir (D := D)).
Abbreviation diri := (CacheDir.diri (D := D)).
Implicit Types d f : cdir.
Implicit Types s : diri.

(** ** Bits that nothing counts *)

(** The bits that the pins and the inode follow. *)
Definition counted_bits : list Z := [4; 10; 11; 15; 29; 30].

Definition same_bits (st st' : Z) : Prop := Forall (fun k => Z.testbit st' k = Z.testbit st k) counted_bits.

Lemma bits_flags st d :
  same_bits (state d) st ->
  is_frozen_dir (set_state st d) = is_frozen_dir d /\ state_test (set_state st d) STATE_IMPORTBOUND = state_test d STATE_IMPORTBOUND /\
  state_test (set_state st d) STATE_EXPORTBOUND = state_test d STATE_EXPORTBOUND /\
  state_test (set_state st d) STATE_STICKY = state_test d STATE_STICKY /\
  state_test (set_state st d) STATE_DIRTY = state_test d STATE_DIRTY /\ is_auth (set_state st d) = is_auth d.
Proof.
  unfold same_bits, counted_bits. rewrite !Forall_cons. intros (E4 & E10 & E11 & E15 & E29 & E30 & _).
  unfold is_frozen_dir, is_auth, STATE_FROZENDIR, STATE_IMPORTBOUND, STATE_EXPORTBOUND, STATE_STICKY, STATE_DIRTY, STATE_AUTH.
  rewrite !state_test_bit by lia. cbn [state set_state]. done.
Qed.

Lemma bits_pins w st d : same_bits (state d) st -> pins_ok w d -> pins_ok w (set_state st d).
Proof.
  intros Hb Hp. apply (pins_same w d); [done..|]. intros p. destruct (bits_flags st d Hb) as (E1 & E2 & E3 & E4 & E5 & _).
  unfold expected. rewrite E1, E2, E3, E4, E5. done.
Qed.

Lemma bits_moved st d i : same_bits (state d) st -> iok i -> moved d i (set_state st d) i.
Proof.
  intros Hb Hi. apply moved_same; [done|done|done|]. destruct (bits_flags st d Hb) as (E1 & _ & _ & _ & _ & E6).
  unfold fl. rewrite E1, E6. done.
Qed.

Lemma bits_step w st d i :
  same_bits (state d) st -> backed d i -> pins_ok w d ->
  pins_ok w (set_state st d) /\ moved d i (set_state st d) i /\ backed (set_state st d) i.
Proof.
  intros Hb Hi Hp. pose proof (bits_moved st d i Hb (ba_ok _ _ Hi)) as Hm.
  split_and!; [by apply bits_pins|done|by eapply moved_backed].
Qed.

(** Setting or clearing a bit that is none of these. *)
Lemma set_same_bits st k : 0 <= k -> k ∉ counted_bits -> same_bits st (Z.lor st (2 ^ k)).
Proof.
  intros Hk Hn. apply Forall_forall. intros j Hj. rewrite bit_set by done.
  destruct (Z.eqb_spec k j); [by subst|by rewrite orb_false_r].
Qed.

Lemma clear_same_bits st k : 0 <= k -> k ∉ counted_bits -> same_bits st (Z.ldiff st (2 ^ k)).
Proof.
  intros Hk Hn. apply Forall_forall. intros j Hj. rewrite bit_clear by done.
  destruct (Z.eqb_spec k j); [by subst|by rewrite andb_true_r].
Qed.

(** ** Marks of dentries *)

Definition remarked (l l' : list dentry) : Prop := Forall2 (fun x y => exists b n, y = set_marks b n x) l l'.

Lemma remarked_map (g : dentry -> dentry) l : (forall x, exists b n, g x = set_marks b n x) -> remarked l (map g l).
Proof. intros Hg. induction l; constructor; auto. Qed.

Lemma remarked_total (g : dentry -> Z) l l' :
  (forall b n x, g (set_marks b n x) = g x) -> remarked l l' -> total g l' = total g l.
Proof. intros Hg. induction 1 as [|x y l l' (b & n & ->) _ IH]; [done|]. rewrite !total_cons, IH, Hg. done. Qed.

Lemma remarked_Forall (P : dentry -> Prop) l l' :
  (forall b n x, P x -> P (set_marks b n x)) -> remarked l l' -> Forall P l -> Forall P l'.
Proof.
  intros HP. induction 1 as [|x y l l' (b & n & ->) _ IH]; [done|]. rewrite !Forall_cons. intros []. auto.
Qed.

Lemma remarked_distinct l l' : remarked l l' -> distinct l -> distinct l'.
Proof.
  induction 1 as [|x y l l' (b & n & ->) Hr IH]; [done|]. intros [Hx Hd]. split; [|by apply IH].
  eapply (remarked_Forall (fun y => differ (set_marks b n x) y = true)); [done|exact Hr|exact Hx].
Qed.

Lemma remarked_content l d : remarked (items (holds d)) l -> content_ok d -> content_ok (set_items l d).
Proof.
  intros Hr []. split; cbn [items holds set_items set_holds pinned].
  - by eapply remarked_distinct.
  - eapply remarked_Forall; [|exact Hr|done]. intros b n x []. by split.
  - rewrite ct_nested0. symmetry. by apply remarked_total.
  - rewrite ct_dir0. symmetry. by apply remarked_total.
  - done.
Qed.

Lemma remarked_counted l c :
  remarked (items c) l -> counted c ->
  counted (MkContent l (num_head_items c) (num_head_null c) (num_snap_items c) (num_snap_null c) (num_dirty c)
             (dirty_dentries c) (dirty_rstat_inodes c)).
Proof.
  intros Hr []. split; cbn; [rewrite co_head_items0|rewrite co_head_null0|rewrite co_snap_items0|
    rewrite co_snap_null0|rewrite co_dirty0]; symmetry; by apply remarked_total.
Qed.

Lemma remarked_step w l d i :
  remarked (items (holds d)) l -> backed d i -> pins_ok w d ->
  pins_ok w (set_items l d) /\ moved d i (set_items l d) i /\ backed (set_items l d) i.
Proof.
  intros Hr Hb Hp. assert (Hm : moved d i (set_items l d) i) by (by apply moved_same; [apply Hb|..]).
  split_and!; [|done|by eapply moved_backed]. apply (pins_same w d); [done..|]. intros p.
  unfold expected. cbn -[b2z Z.eqb]. destruct Hr; done.
Qed.

Definition unmarked (dn : dentry) : Prop := dn_fragmenting dn = false /\ 0 <= dn_pinned dn.
Definition is_marked (dn : dentry) : Prop := dn_fragmenting dn = true /\ 0 < dn_pinned dn.
Definition marked (dn : dentry) : dentry := set_marks true (dn_pinned dn + 1) dn.
Definition cleared (dn : dentry) : dentry := set_marks false (dn_pinned dn - 1) dn.

Lemma mark_all l : Forall unmarked l -> mapM mark_dentry l = Some (map marked l) /\ Forall is_marked (map marked l).
Proof.
  induction 1 as [|dn l [E Hn] _ [IH IH']]; [done|].
  assert (Em : mark_dentry dn = Some (marked dn)) by (unfold mark_dentry; by rewrite E).
  cbn. rewrite Em. obind. rewrite IH. split; [done|]. constructor; [|done]. split; [done|cbn; lia].
Qed.

Lemma unmark_all l : Forall is_marked l -> mapM unmark_dentry l = Some (map cleared l) /\ Forall unmarked (map cleared l).
Proof.
  induction 1 as [|dn l [E Hn] _ [IH IH']]; [done|].
  assert (Em : unmark_dentry dn = Some (cleared dn)).
  { unfold unmark_dentry. rewrite E. by rewrite (proj2 (Z.eqb_neq _ _)) by lia. }
  cbn. rewrite Em. obind. rewrite IH. split; [done|]. constructor; [|done]. split; [done|cbn; lia].
Qed.

Lemma cleared_marked l : Forall unmarked l -> map cleared (map marked l) = l.
Proof.
  induction 1 as [|dn l [E _] _ IH]; [done|]. cbn [map]. rewrite IH. f_equal.
  destruct dn. unfold cleared, marked, set_marks. cbn in *. f_equal; [done|lia].
Qed.

Lemma remarked_marked l : remarked l (map marked l).
Proof. apply remarked_map. intros x. by exists true, (dn_pinned x + 1). Qed.
Lemma remarked_cleared l : remarked l (map cleared l).
Proof. apply remarked_map. intros x. by exists false, (dn_pinned x - 1). Qed.

(** ** One fragment *)

Lemma not_counted k : bool_decide (k ∈ counted_bits) = false -> k ∉ counted_bits.
Proof. by intros ?%bool_decide_eq_false. Qed.

(** Whether anything around it is frozen does not depend on the bit [k]. *)
Lemma frozen_same o d d' :
  is_subtree_root d' = is_subtree_root d -> is_frozen_dir d' = is_frozen_dir d -> is_freezing_dir d' = is_freezing_dir d ->
  state_test d' STATE_FROZENTREE = state_test d STATE_FROZENTREE ->
  state_test d' STATE_FREEZINGTREE = state_test d STATE_FREEZINGTREE ->
  is_frozen o d' = is_frozen o d /\ is_freezing o d' = is_freezing o d.
Proof. intros E1 E2 E3 E4 E5. unfold is_frozen, is_freezing, is_frozen_tree, is_freezing_tree. by rewrite E1, E2, E3, E4, E5. Qed.

Lemma freeze_one_ok o d i :
  backed d i -> pins_ok false d -> is_frozen o d = false -> is_freezing o d = false ->
  0 <= auth_pins (pinned d) -> 0 <= nested_auth_pins (pinned d) ->
  exists ps i', let d' := set_state (Z.lor (Z.lor (state d) STATE_FRAGMENTING) STATE_FREEZINGDIR)
      (set_pinned (MkAuths (auth_pins (pinned d) + 2) (nested_auth_pins (pinned d)) (dir_auth_pins (pinned d))) (set_pins ps d)) in
    freeze_one o d i = Some (d', i') /\ pins_ok false d' /\ moved d i d' i'.
Proof.
  intros Hb Hp Hz Hg Ha Hn. unfold freeze_one.
  destruct (auth_pin_ok false d i Hb Hp ltac:(lia) Hn) as (p1 & i1 & -> & H1 & M1). obind. cbn zeta in *.
  set (d1 := set_pinned _ _) in *. pose proof (moved_backed _ _ _ _ Hb M1) as B1.
  destruct (bits_step false (Z.lor (state d1) STATE_FRAGMENTING) d1 i1) as (H2 & M2 & B2);
    [by apply set_same_bits; [|apply not_counted]|done..|]. set (d2 := set_state _ d1) in *.
  change (state_set STATE_FRAGMENTING d1) with d2. unfold freeze_dir.
  destruct (frozen_same o d d2) as [-> ->]; [done|..]; [unfold d2, d1; flags; by rewrite orb_false_r..|].
  rewrite Hz, Hg. cbn [negb].
  destruct (auth_pin_ok false d2 i1 B2 H2) as (p3 & i3 & -> & H3 & M3); [cbn; lia..|]. obind. cbn zeta in *.
  set (d3 := set_pinned _ (set_pins p3 d2)) in *. pose proof (moved_backed _ _ _ _ B2 M3) as B3.
  unfold is_freezeable_dir. assert (E3 : auth_pins (pinned d3) = auth_pins (pinned d) + 2) by (cbn; lia). rewrite E3.
  rewrite (proj2 (Z.ltb_lt 0 _)) by lia. cbn [orb]. obind.
  destruct (bits_step false (Z.lor (state d3) STATE_FREEZINGDIR) d3 i3) as (H4 & M4 & B4);
    [by apply set_same_bits; [|apply not_counted]|done..|].
  assert (Ef : is_freezing_dir (state_set STATE_FREEZINGDIR d3) = true) by (flags; by rewrite orb_true_r).
  rewrite Ef. exists p3, i3. assert (Ed : state_set STATE_FREEZINGDIR d3 =
    set_state (Z.lor (Z.lor (state d) STATE_FRAGMENTING) STATE_FREEZINGDIR)
      (set_pinned (MkAuths (auth_pins (pinned d) + 2) (nested_auth_pins (pinned d)) (dir_auth_pins (pinned d))) (set_pins p3 d))).
  { rewrite <- E3. reflexivity. }
  rewrite <- Ed. split_and!; [done|exact H4|].
  eapply moved_trans; [exact M1|]. eapply moved_trans; [exact M2|]. eapply moved_trans; [exact M3|exact M4].
Qed.

(** The auth pin that keeps a fragment from freezing is dropped. *)
Lemma unpin_freezes w d i :
  backed d i -> pins_ok w d -> state_test d STATE_FREEZINGDIR = true -> state_test d STATE_FREEZINGTREE = false ->
  is_frozen_dir d = false -> auth_pins (pinned d) = 2 -> 0 <= nested_auth_pins (pinned d) -> dir_auth_pins (pinned d) = 0 ->
  exists ps i', let d' := set_state (Z.lor (Z.ldiff (state d) STATE_FREEZINGDIR) STATE_FROZENDIR)
      (set_waits (MkWaits (waiting_on_dentry (waits_ d)) (left_waiting WAIT_FROZEN (waiting (waits_ d))))
        (set_pinned (MkAuths 0 (nested_auth_pins (pinned d)) 0) (set_pins ps d))) in
    auth_unpin d i = Some (d', i') /\ pins_ok w d' /\ moved d i d' i'.
Proof.
  intros Hb Hp Hg Ht Hz Ha Hn Hd. unfold auth_unpin.
  remember 1%nat as one eqn:E1. cbn [auth_unpin_n]. rewrite Ha. set (d1 := set_pinned _ d).
  assert (H1 : pins_ok w d1).
  { apply (pins_same w d); [done..|]. intros p. unfold expected. cbn -[b2z Z.eqb]. by rewrite Ha. }
  assert (M1 : moved d i d1 i).
  { apply moved_same; [apply Hb|done| |done]. unfold nl, get_cum_auth_pins.
    cbn [d1 pinned set_pinned auth_pins nested_auth_pins]. rewrite Ha, !(proj2 (Z.ltb_lt _ _)) by lia. done. }
  pose proof (moved_backed _ _ _ _ Hb M1) as B1. change (auth_pins (pinned d1)) with (2 - 1).
  change (2 - 1 =? 0) with false. change (0 <=? 2 - 1) with true. obind.
  unfold maybe_finish_freeze_with. change (auth_pins (pinned d1) =? 1) with true.
  change (dir_auth_pins (pinned d1)) with (dir_auth_pins (pinned d)). rewrite Hd. cbn [negb orb Z.eqb].
  change (state_test d1 STATE_FREEZINGDIR) with (state_test d STATE_FREEZINGDIR). rewrite Hg.
  destruct (freeze_dir_ok w d1 i B1 H1 Hz) as (p2 & i2 & -> & H2 & M2). cbn zeta in *. set (d2 := set_pins p2 _) in *.
  pose proof (moved_backed _ _ _ _ B1 M2) as B2. subst one.
  assert (C2 : calm d2).
  { split; unfold d2; flags; rewrite ?andb_false_r, ?orb_false_r; [done|]. cbn [d1 state set_pinned]. by rewrite Ht. }
  destruct (auth_unpin_n_ok 0 w d2 i2 B2 H2 C2) as (p3 & i3 & -> & H3 & M3); [cbn; lia|done|]. obind. cbn zeta in *.
  set (d3 := set_pinned _ (set_pins p3 d2)) in *. pose proof (moved_backed _ _ _ _ B2 M3) as B3.
  destruct (finish_waiting_ok w WAIT_FROZEN 0 d3 i3 B3 H3) as (p4 & i4 & -> & H4 & M4). obind. cbn zeta in *.
  set (d4 := set_waits _ _) in *.
  assert (Et : state_test d4 STATE_FREEZINGTREE = false) by (apply C2). rewrite Et.
  change (0 <=? auth_pins (pinned d1)) with true.
  assert (Er : (if negb (nested_auth_pins (pinned d4) =? 0) then Some (d4, i4) else Some (d4, i4)) = Some (d4, i4))
    by (by destruct (negb _)). rewrite Er. obind.
  assert (En : get_cum_auth_pins d1 =? 0 = false) by (unfold get_cum_auth_pins; cbn; lia). rewrite En, andb_false_r. obind.
  assert (Ed : d4 = set_state (Z.lor (Z.ldiff (state d) STATE_FREEZINGDIR) STATE_FROZENDIR)
      (set_waits (MkWaits (waiting_on_dentry (waits_ d)) (left_waiting WAIT_FROZEN (waiting (waits_ d))))
        (set_pinned (MkAuths 0 (nested_auth_pins (pinned d)) (dir_auth_pins (pinned d))) (set_pins p4 d)))) by reflexivity.
  rewrite Hd in Ed.
  exists p4, i4. cbn zeta. rewrite <- Ed. split_and!; [done|exact H4|].
  eapply moved_trans; [exact M1|]. eapply moved_trans; [exact M2|]. eapply moved_trans; [exact M3|exact M4].
Qed.

(** A fragment that a request can take: authoritative, complete, not frozen, and
    with no auth pin that would keep it from freezing. *)
Record quiet (o : outside) d : Prop := {
  q_auth : is_auth d = true;
  q_complete : is_complete d = true;
  q_frozen : is_frozen o d = false;
  q_freezing : is_freezing o d = false;
  q_auth_pins : auth_pins (pinned d) = 0;
  q_dir_pins : dir_auth_pins (pinned d) = 0;
  q_pins : pins_ok false d;
  q_content : content_ok d;
  q_waiters : waiters_ok d;
  q_idle : state_test d STATE_FRAGMENTING = false /\ state_test d STATE_DNPINNEDFRAG = false /\
    state_test d STATE_BADFRAG = false;
  q_unmarked : Forall unmarked (items (holds d));
  q_root : is_subtree_root d = false
}.

Lemma quiet_flags o d :
  quiet o d -> is_frozen_dir d = false /\ is_freezing_dir d = false /\ calm d /\ 0 <= nested_auth_pins (pinned d).
Proof.
  intros Hq. pose proof (q_frozen _ _ Hq) as Hz. pose proof (q_freezing _ _ Hq) as Hg.
  unfold is_frozen, is_freezing, is_freezing_tree in *. apply orb_false_iff in Hz as [Hz _].
  apply orb_false_iff in Hg as [[Ht _]%orb_false_iff Hg]. split_and!; [done..|].
  by apply content_nested, Hq.
Qed.

Lemma quiet_pinned o d : quiet o d -> MkAuths 0 (nested_auth_pins (pinned d)) 0 = pinned d.
Proof. intros []. destruct (pinned d). cbn in *. by subst. Qed.

(** The fragment while it freezes, while it is held, and after it was given back. *)
Definition freezing_form ps d : cdir :=
  set_state (Z.lor (Z.lor (state d) STATE_FRAGMENTING) STATE_FREEZINGDIR)
    (set_pinned (MkAuths (auth_pins (pinned d) + 2) (nested_auth_pins (pinned d)) (dir_auth_pins (pinned d))) (set_pins ps d)).

Definition held_state d : Z :=
  Z.lor (Z.lor (Z.lor (state d) STATE_FRAGMENTING) STATE_DNPINNEDFRAG) STATE_FROZENDIR.
Definition held_waits d : waits :=
  MkWaits (waiting_on_dentry (waits_ d)) (left_waiting WAIT_FROZEN (waiting (waits_ d))).
Definition held ps d : cdir :=
  set_items (map marked (items (holds d))) (set_state (held_state d) (set_waits (held_waits d) (set_pins ps d))).

Definition released ps d : cdir :=
  set_waits (MkWaits (waiting_on_dentry (waits_ d)) (left_waiting WAIT_UNFREEZE (left_waiting WAIT_FROZEN (waiting (waits_ d)))))
    (set_pins ps d).

Lemma held_bit d k :
  0 <= k -> Z.testbit (held_state d) k = Z.testbit (state d) k || (14 =? k) || (16 =? k) || (4 =? k).
Proof. intros. unfold held_state, STATE_FRAGMENTING, STATE_DNPINNEDFRAG, STATE_FROZENDIR. by rewrite !bit_set by lia. Qed.

Lemma mark_one_ok o d ps i :
  quiet o d -> backed (freezing_form ps d) i -> pins_ok false (freezing_form ps d) ->
  exists ps' i', mark_one (freezing_form ps d) i = Some (held ps' d, i') /\ pins_ok false (held ps' d) /\
    moved (freezing_form ps d) i (held ps' d) i'.
Proof.
  intros Hq Hb Hp. destruct (quiet_flags o d Hq) as (Hz & Hg & [_ Ht] & Hn). destruct (q_idle _ _ Hq) as (_ & Hdn & _).
  set (d1 := freezing_form ps d) in *. unfold mark_one.
  assert (E1 : state_test d1 STATE_DNPINNEDFRAG = false) by (unfold d1, freezing_form; flags; by rewrite !orb_false_r).
  rewrite E1. cbn [negb]. change (items (holds d1)) with (items (holds d)).
  destruct (mark_all _ (q_unmarked _ _ Hq)) as [-> _]. obind.
  destruct (remarked_step false (map marked (items (holds d))) d1 i) as (H2 & M2 & B2); [apply remarked_marked|done..|].
  set (d2 := set_items _ d1) in *.
  destruct (bits_step false (Z.lor (state d2) STATE_DNPINNEDFRAG) d2 i) as (H3 & M3 & B3);
    [by apply set_same_bits; [|apply not_counted]|done..|]. set (d3 := set_state _ d2) in *.
  change (state_set STATE_DNPINNEDFRAG d2) with d3.
  assert (Eb : forall k, 0 <= k -> state_test d3 (2 ^ k) = state_test d (2 ^ k) || (14 =? k) || (5 =? k) || (16 =? k)).
  { intros k Hk. rewrite !state_test_bit by done. unfold d3, d2, d1, freezing_form. cbn [state set_state set_items set_holds].
    unfold STATE_FRAGMENTING, STATE_DNPINNEDFRAG, STATE_FREEZINGDIR. by rewrite !bit_set by lia. }
  destruct (unpin_freezes false d3 i B3 H3) as (p4 & i4 & -> & H4 & M4);
    [unfold is_frozen_dir, STATE_FREEZINGDIR, STATE_FREEZINGTREE, STATE_FROZENDIR in *; rewrite Eb by lia..| |done| |].
  { cbn. by rewrite orb_true_r. } { by rewrite Ht. } { by rewrite Hz. }
  { cbn. by rewrite (q_auth_pins _ _ Hq). } { apply (q_dir_pins _ _ Hq). }
  cbn zeta in *. exists p4, i4. match type of H4 with pins_ok _ ?x => set (d4 := x) in * end.
  assert (Ed : d4 = held p4 d).
  { unfold held. change (set_pins p4 d) with (set_pinned (pinned d) (set_pins p4 d)). rewrite <- (quiet_pinned o d Hq).
    assert (Es : state d4 = held_state d).
    { apply Z.bits_inj'. intros k Hk. rewrite held_bit by done. unfold is_freezing_dir, STATE_FREEZINGDIR in Hg.
      rewrite state_test_bit in Hg by lia. unfold d4, d3, d2, d1, freezing_form. cbn [state set_state set_items set_holds].
      unfold STATE_FRAGMENTING, STATE_DNPINNEDFRAG, STATE_FROZENDIR, STATE_FREEZINGDIR.
      rewrite !bit_set, bit_clear, !bit_set by lia. destruct (Z.eqb_spec 5 k); [subst; rewrite Hg|]; cbn;
        rewrite ?andb_true_r, ?orb_false_r; done. }
    rewrite <- Es. reflexivity. }
  rewrite <- Ed. split_and!; [done|exact H4|].
  eapply moved_trans; [exact M2|]. eapply moved_trans; [exact M3|exact M4].
Qed.

(** The state when the marks are undone. *)
Lemma unheld_bit o d k :
  quiet o d -> 0 <= k ->
  Z.testbit (Z.ldiff (Z.ldiff (held_state d) STATE_FRAGMENTING) STATE_DNPINNEDFRAG) k = Z.testbit (state d) k || (4 =? k).
Proof.
  intros Hq Hk. destruct (q_idle _ _ Hq) as (Hf & Hdn & _). unfold STATE_DNPINNEDFRAG, STATE_FRAGMENTING in *.
  rewrite !bit_clear, held_bit by lia. rewrite state_test_bit in Hf, Hdn by lia.
  destruct (Z.eqb_spec 14 k); [subst; by rewrite Hf|]. destruct (Z.eqb_spec 16 k); [subst; by rewrite Hdn|].
  by rewrite !andb_true_r, !orb_false_r.
Qed.

Lemma unmark_one_ok o d ps i :
  quiet o d -> backed (held ps d) i -> pins_ok false (held ps d) ->
  exists ps' i', unmark_one (held ps d) i = Some (released ps' d, i') /\ pins_ok false (released ps' d) /\
    moved (held ps d) i (released ps' d) i'.
Proof.
  intros Hq Hb Hp. destruct (quiet_flags o d Hq) as (Hz & _).
  set (d1 := held ps d) in *. unfold unmark_one.
  assert (Eb : forall k, 0 <= k -> state_test d1 (2 ^ k) = state_test d (2 ^ k) || (14 =? k) || (16 =? k) || (4 =? k)).
  { intros k Hk. rewrite !state_test_bit by done. by apply held_bit. }
  unfold STATE_FRAGMENTING at 1. rewrite Eb by lia. cbn [Z.eqb Pos.eqb]. rewrite orb_true_r. cbn [orb].
  destruct (bits_step false (Z.ldiff (state d1) STATE_FRAGMENTING) d1 i) as (H2 & M2 & B2);
    [by apply clear_same_bits; [|apply not_counted]|done..|]. set (d2 := set_state _ d1) in *.
  change (state_clear STATE_FRAGMENTING d1) with d2.
  assert (E2 : state_test d2 STATE_DNPINNEDFRAG = true).
  { unfold d2, STATE_DNPINNEDFRAG, STATE_FRAGMENTING. rewrite state_test_bit by lia. cbn [state set_state].
    rewrite bit_clear, (held_bit d) by lia. cbn. by rewrite !orb_true_r. }
  rewrite E2. destruct (mark_all _ (q_unmarked _ _ Hq)) as [_ Hm].
  destruct (unmark_all (items (holds d2)) Hm) as [-> _]. change (items (holds d2)) with (map marked (items (holds d))).
  rewrite (cleared_marked _ (q_unmarked _ _ Hq)). obind.
  destruct (bits_step false (Z.ldiff (state d2) STATE_DNPINNEDFRAG) d2 i) as (H3 & M3 & B3);
    [by apply clear_same_bits; [|apply not_counted]|done..|]. set (d3 := set_state _ d2) in *.
  change (state_clear STATE_DNPINNEDFRAG d2) with d3.
  destruct (remarked_step false (items (holds d)) d3 i) as (H4 & M4 & B4); [|done..|].
  { change (items (holds d3)) with (map marked (items (holds d))).
    rewrite <- (cleared_marked _ (q_unmarked _ _ Hq)) at 2. apply remarked_cleared. }
  set (d4 := set_items _ d3) in *.
  assert (E4 : forall k, 0 <= k -> Z.testbit (state d4) k = Z.testbit (state d) k || (4 =? k)) by (intros k Hk; by apply (unheld_bit o)).
  destruct (unfreeze_dir_ok false d4 i B4 H4) as (p5 & i5 & -> & H5 & M5).
  { unfold is_frozen_dir, STATE_FROZENDIR. rewrite state_test_bit, E4 by lia. by rewrite orb_true_r. }
  cbn zeta in *. exists p5, i5. match type of H5 with pins_ok _ ?x => set (d5 := x) in * end.
  assert (Ed : d5 = released p5 d).
  { assert (Es : state d5 = state d).
    { apply Z.bits_inj'. intros k Hk. unfold d5, STATE_FROZENDIR. cbn [state set_waits set_pins state_clear set_state].
      rewrite bit_clear, E4 by lia. unfold is_frozen_dir, STATE_FROZENDIR in Hz. rewrite state_test_bit in Hz by lia.
      destruct (Z.eqb_spec 4 k); [subst; by rewrite Hz|by rewrite andb_true_r, orb_false_r]. }
    assert (Er : d5 = set_state (state d5) (set_items (items (holds d)) (released p5 d))) by reflexivity.
    rewrite Er, Es. by destruct d as [? ? ? ? ? ? [] ? ? ? ? ? ? ?]. }
  rewrite <- Ed. split_and!; [done|exact H5|].
  eapply moved_trans; [exact M2|]. eapply moved_trans; [exact M3|]. eapply moved_trans; [exact M4|exact M5].
Qed.

(** The steps on a new fragment. *)
Lemma logged_one_ok f i :
  backed f i -> pins_ok false f -> content_ok f ->
  exists ps i', let f' := set_state (Z.lor (state f) STATE_FRAGMENTING)
      (set_pinned (MkAuths (auth_pins (pinned f) + 1) (nested_auth_pins (pinned f)) (dir_auth_pins (pinned f))) (set_pins ps f)) in
    logged_one f i = Some (f', i') /\ pins_ok false f' /\ moved f i f' i'.
Proof.
  intros Hb Hp Hc. unfold logged_one.
  destruct (auth_pin_ok false f i Hb Hp (ct_own _ Hc)) as (ps & i1 & -> & H1 & M1); [by apply content_nested|].
  obind. cbn zeta in *. set (f1 := set_pinned _ _) in *.
  destruct (bits_step false (Z.lor (state f1) STATE_FRAGMENTING) f1 i1) as (H2 & M2 & _);
    [by apply set_same_bits; [|apply not_counted]|by eapply moved_backed|done|].
  exists ps, i1. split_and!; [done|exact H2|]. eapply moved_trans; [exact M1|exact M2].
Qed.

Lemma add_replica_ok who f i :
  backed f i -> pins_ok false f ->
  exists r ps i', let f' := set_replicas r (set_pins ps f) in
    add_replica who f i = Some (f', i') /\ pins_ok false f' /\ moved f i f' i'.
Proof.
  intros Hb Hp. unfold add_replica.
  assert (Hs : forall v, some (map_set (replicas f) who v) = true).
  { intros v. destruct (replicas f) as [|[k x] l]; [done|]. cbn. by repeat case_match. }
  assert (Hr : forall r d, is_replicated (set_replicas r d) = some r) by (intros r d; by destruct r).
  assert (Hsame : forall v, replicas f <> [] -> pins_ok false (set_replicas (map_set (replicas f) who v) f)).
  { intros v Hne. apply (pins_same false f); [done..|]. intros p. unfold expected. rewrite Hr, Hs.
    assert (is_replicated f = true) as -> by (unfold is_replicated; by destruct (replicas f)). done. }
  destruct (map_find (replicas f) who) as [nonce|] eqn:Ef.
  { eexists _, (pins f), i. split_and!; [by destruct f| |by apply moved_same; [apply Hb|..]].
    apply Hsame. by destruct (replicas f). }
  destruct (replicas f) as [|q l] eqn:El.
  - destruct (get_step false f (set_replicas (map_set [] who 1) f) PIN_REPLICATED i) as (ps & i1 & Eg & H1 & M1);
      [apply Hb|done..|is_pin| |].
    { intros p. unfold bump, expected, is_replicated. rewrite El. cbn -[b2z Z.eqb state_test]. pin_split p; done. }
    unfold get in *. cbn [pin_get] in *. injection Eg as E1 E2. eexists _, ps, i1. rewrite E2. cbn [replicas set_pins].
    rewrite El. split_and!; [|exact H1|].
    + do 2 f_equal. change (pins (set_replicas (map_set [] who 1) f)) with (pins f) in E1. unfold set_replicas, set_pins. cbn. by rewrite E1.
    + eapply moved_trans; [|exact M1]. by apply moved_same; [apply Hb|..].
  - rewrite El. eexists _, (pins f), i. split_and!; [by destruct f| |by apply moved_same; [apply Hb|..]]. by apply Hsame.
Qed.

Lemma thaw_one_ok f i :
  backed f i -> pins_ok false f -> is_frozen_dir f = true -> Forall is_marked (items (holds f)) ->
  exists ps i', let f' := set_waits (MkWaits (waiting_on_dentry (waits_ f)) (left_waiting WAIT_UNFREEZE (waiting (waits_ f))))
      (set_state (Z.ldiff (state f) STATE_FROZENDIR) (set_items (map cleared (items (holds f))) (set_pins ps f))) in
    thaw_one f i = Some (f', i') /\ pins_ok false f' /\ moved f i f' i'.
Proof.
  intros Hb Hp Hz Hm. unfold thaw_one. destruct (unmark_all _ Hm) as [-> _]. obind.
  destruct (remarked_step false (map cleared (items (holds f))) f i) as (H1 & M1 & B1); [apply remarked_cleared|done..|].
  set (f1 := set_items _ f) in *. destruct (unfreeze_dir_ok false f1 i B1 H1 Hz) as (ps & i2 & -> & H2 & M2).
  exists ps, i2. cbn zeta in *. split_and!; [done|exact H2|]. eapply moved_trans; [exact M1|exact M2].
Qed.

Lemma finish_one_ok f i :
  backed f i -> pins_ok false f -> content_ok f -> calm f -> 1 <= auth_pins (pinned f) ->
  exists ps i', let f' := set_state (Z.ldiff (state f) STATE_FRAGMENTING)
      (set_pinned (MkAuths (auth_pins (pinned f) - 1) (nested_auth_pins (pinned f)) (dir_auth_pins (pinned f))) (set_pins ps f)) in
    finish_one f i = Some (f', i') /\ pins_ok false f' /\ moved f i f' i'.
Proof.
  intros Hb Hp Hc [C1 C2] Ha. unfold finish_one.
  destruct (bits_step false (Z.ldiff (state f) STATE_FRAGMENTING) f i) as (H1 & M1 & B1);
    [by apply clear_same_bits; [|apply not_counted]|done..|]. set (f1 := set_state _ f) in *.
  change (state_clear STATE_FRAGMENTING f) with f1.
  assert (Cf : calm f1).
  { unfold calm, STATE_FREEZINGDIR, STATE_FREEZINGTREE in *. rewrite state_test_bit in C1, C2 by lia.
    unfold f1, STATE_FRAGMENTING. rewrite !state_test_bit by lia. cbn [state set_state].
    rewrite !bit_clear by lia. by rewrite C1, C2. }
  destruct (auth_unpin_ok false f1 i B1 H1 Cf Ha) as (ps & i2 & -> & H2 & M2); [by apply (content_nested f Hc)|].
  exists ps, i2. cbn zeta in *. split_and!; [done|exact H2|]. eapply moved_trans; [exact M1|exact M2].
Qed.

(** ** Each of a list of fragments *)

Lemma on_frags_ok (op : cdir -> inode -> option (cdir * inode)) (Pre : cdir -> Prop) (Post : cdir -> cdir -> Prop) :
  (forall d i, backed d i -> Pre d ->
    exists d' i', op d i = Some (d', i') /\ moved d i d' i' /\ dfrag d' = dfrag d /\ Post d d') ->
  forall k l s, sok k s -> NoDup l -> (forall x, x ∈ l -> exists d, get_dirfrag x s = Some d /\ Pre d) ->
  exists s', on_frags op l s = Some s' /\ sok k s' /\ same_inode s s' /\
    (forall x, x ∈ l -> exists d d', get_dirfrag x s = Some d /\ get_dirfrag x s' = Some d' /\ Pre d /\ Post d d') /\
    (forall x, x ∉ l -> get_dirfrag x s' = get_dirfrag x s).
Proof.
  intros Hop k l. induction l as [|fg l IH]; intros s Hs Hnd Hl.
  { exists s. split_and!; [done..|apply same_refl| |done]. by intros x ?%elem_of_nil. }
  apply NoDup_cons in Hnd as [Hni Hnd]. destruct (Hl fg) as (d & Hd & Pd); [by left|].
  destruct (Hop d (ino s) (sok_backed _ _ _ _ Hs Hd) Pd) as (d' & i' & E & Hm & Ef & Hpost).
  assert (Edf : dfrag d' = fg) by (rewrite Ef; by apply (so_frag _ _ Hs)).
  pose proof (sok_store k s fg d d' i' Hs Hd Edf Hm) as Hs1. set (s1 := store d' i' s) in *.
  assert (Hg : forall x, get_dirfrag x s1 = if x =? fg then Some d' else get_dirfrag x s) by (intros x; unfold s1; by rewrite get_store, Edf).
  destruct (IH s1 Hs1 Hnd) as (s' & E' & Hs' & Hsm & Hin & Hout).
  { intros x Hx. rewrite Hg. destruct (Z.eqb_spec x fg) as [->|]; [done|]. apply Hl. by right. }
  exists s'. cbn [on_frags]. unfold on_frag. rewrite Hd. obind. rewrite E. obind. fold s1. split_and!; [done|done| | |].
  - eapply same_trans; [|exact Hsm]. split; try done; apply Hm.
  - intros x [->|Hx]%elem_of_cons.
    + exists d, d'. rewrite Hout, Hg, Z.eqb_refl by done. done.
    + destruct (Hin x Hx) as (e & e' & He & He' & Pe & Po). rewrite Hg in He.
      destruct (Z.eqb_spec x fg) as [->|]; [done|]. by exists e, e'.
  - intros x Hx. rewrite not_elem_of_cons in Hx. rewrite Hout, Hg by tauto.
    by rewrite (proj2 (Z.eqb_neq _ _)) by tauto.
Qed.

End dir.
End FragmentingFacts.
