(* ===== verification/FragmentRun.v ===== *)
(** * What becomes of a request to split or merge fragments

    From [split_dir] or [merge_dir] to [_fragment_finish]: no assertion fails,
    the fragments are replaced by new ones with all their dentries, and those
    are as ready for requests as the old ones were.  A request that is aborted
    leaves the fragments as they were. *)

From Stdlib Require Import QArith.
From S2P Require Import Prelude Encoding Frag FragTree Double Load StrHash CacheDir CacheDirFacts DirSplit DirFragment DirMerge Refragment DirTheorems Fragmenting.
Import Encoding.
#[local] Open Scope Z_scope.

Module FragmentRun.
Import Frag FragTree FragFacts FragTreeFacts StrHash StrHashFacts CacheDir CacheDirFacts DirSplit DirFragment
  DirMerge Refragment RefragmentFacts DirTheorems Fragmenting FragmentingFacts.

Section dir.
Context {D} `{Double D}.
Abbreviation cdir := (CacheDir.cdir (D := D)).
Abbreviation diri := (CacheDir.diri (D := D)).
Abbreviation cache := (Fragmenting.cache (D := D)).
Implicit Types d f : cdir.
Implicit Types s : diri.
Implicit Types c : cache.

(** ** New fragments *)

Definition bits_are (l : list (Z * bool)) (st : Z) : Prop := Forall (fun p => Z.testbit st p.1 = p.2) l.

(** Complete, authoritative, in no frozen tree; frozen is [z], fragmenting [m]. *)
Definition fresh_bits (z m : bool) : list (Z * bool) :=
  [(1, true); (2, false); (3, false); (4, z); (5, false); (14, m); (16, false); (19, false); (30, true)].

(** A new fragment with [a] auth pins. *)
Record fresh (a : Z) (z m : bool) f : Prop := {
  fs_bits : bits_are (fresh_bits z m) (state f);
  fs_pins : pins_ok false f;
  fs_content : content_ok f;
  fs_counted : counted (holds f);
  fs_auth_pins : auth_pins (pinned f) = a;
  fs_dir_pins : dir_auth_pins (pinned f) = 0;
  fs_waiters : waiters_ok f;
  fs_marks : Forall (if z then is_marked else unmarked) (items (holds f));
  fs_root : is_subtree_root f = false
}.

(** What the steps leave alone, the dentries changed by [g]. *)
Definition kin (g : dentry -> dentry) f f' : Prop :=
  dfrag f' = dfrag f /\ dir_auth f' = dir_auth f /\ fnode f' = fnode f /\ pop f' = pop f /\ dens f' = dens f /\
  waiting_on_dentry (waits_ f') = waiting_on_dentry (waits_ f) /\ items (holds f') = map g (items (holds f)) /\
  Z.testbit (state f') 15 = Z.testbit (state f) 15.

Ltac is_kin := repeat split; first [by (cbn; rewrite map_id)|
  unfold STATE_FRAGMENTING, STATE_FROZENDIR, STATE_DIRTYDFT;
  cbn [state set_state set_pinned set_holds set_waits set_pins state_set state_clear];
  first [by rewrite bit_set, orb_false_r by lia|by rewrite bit_clear, andb_true_r by lia]].

Lemma bit_of l st k b : bits_are l st -> (k, b) ∈ l -> Z.testbit st k = b.
Proof. unfold bits_are. rewrite Forall_forall. intros Hl Hk. apply (Hl (k, b) Hk). Qed.

(** A bit that is set or cleared. *)
Lemma bits_lor k l st : 0 <= k -> bits_are l st -> bits_are (map (fun p => (p.1, p.2 || (k =? p.1))) l) (Z.lor st (2 ^ k)).
Proof.
  intros Hk Hl. unfold bits_are in *. induction Hl as [|p l Hp _ IH]; [done|]. constructor; [|done].
  cbn. by rewrite bit_set, Hp.
Qed.

Lemma bits_ldiff k l st :
  0 <= k -> bits_are l st -> bits_are (map (fun p => (p.1, p.2 && negb (k =? p.1))) l) (Z.ldiff st (2 ^ k)).
Proof.
  intros Hk Hl. unfold bits_are in *. induction Hl as [|p l Hp _ IH]; [done|]. constructor; [|done].
  cbn. by rewrite bit_clear, Hp.
Qed.

Lemma fresh_flags a z m f :
  fresh a z m f -> is_auth f = true /\ is_complete f = true /\ is_frozen_dir f = z /\ calm f /\
  state_test f STATE_FRAGMENTING = m.
Proof.
  intros [Hb _ _ _ _ _ _ _ _]. unfold calm, is_auth, is_complete, is_frozen_dir, STATE_AUTH, STATE_COMPLETE, STATE_FROZENDIR,
    STATE_FREEZINGDIR, STATE_FREEZINGTREE, STATE_FRAGMENTING. rewrite !state_test_bit by lia.
  unfold bits_are, fresh_bits in Hb. rewrite !Forall_cons in Hb. cbn in Hb. tauto.
Qed.

Lemma fresh_fragmenting z st : bits_are (fresh_bits z false) st -> bits_are (fresh_bits z true) (Z.lor st STATE_FRAGMENTING).
Proof. intros Hb%(bits_lor 14); [|done]. by destruct z. Qed.

Lemma fresh_finished z st : bits_are (fresh_bits z true) st -> bits_are (fresh_bits z false) (Z.ldiff st STATE_FRAGMENTING).
Proof. intros Hb%(bits_ldiff 14); [|done]. by destruct z. Qed.

Lemma fresh_thawed m st : bits_are (fresh_bits true m) st -> bits_are (fresh_bits false m) (Z.ldiff st STATE_FROZENDIR).
Proof. intros Hb%(bits_ldiff 4); [|done]. by destruct m. Qed.

Lemma fresh_dirtydft z m st : bits_are (fresh_bits z m) st -> bits_are (fresh_bits z m) (Z.lor st STATE_DIRTYDFT).
Proof. intros Hb%(bits_lor 18); [|done]. by destruct z, m. Qed.

(** The steps, one after the other. *)

Lemma logged_stage f i :
  backed f i -> fresh 0 true false f ->
  exists f' i', logged_one f i = Some (f', i') /\ moved f i f' i' /\ dfrag f' = dfrag f /\ (fresh 1 true true f' /\ kin id f f').
Proof.
  intros Hb [Hbt Hp Hc Hn Ha Hd Hw Hm Hr]. destruct (logged_one_ok f i Hb Hp Hc) as (ps & i' & -> & H1 & M1). cbn zeta in *.
  match type of H1 with pins_ok _ ?x => exists x end. exists i'. split_and!; [done..| |].
  - split; try done; cbn; [by apply fresh_fragmenting| |by rewrite Ha]. destruct Hc. split; try done. cbn. lia.
  - is_kin.
Qed.

Lemma replica_stage who f i :
  backed f i -> fresh 1 true true f ->
  exists f' i', add_replica who f i = Some (f', i') /\ moved f i f' i' /\ dfrag f' = dfrag f /\ (fresh 1 true true f' /\ kin id f f').
Proof.
  intros Hb [Hbt Hp Hc Hn Ha Hd Hw Hm Hr]. destruct (add_replica_ok who f i Hb Hp) as (r & ps & i' & -> & H1 & M1). cbn zeta in *.
  match type of H1 with pins_ok _ ?x => exists x end. exists i'. split_and!; [done..| |].
  - split; try done. by destruct Hc.
  - is_kin.
Qed.

Lemma thaw_stage f i :
  backed f i -> fresh 1 true true f ->
  exists f' i', thaw_one f i = Some (f', i') /\ moved f i f' i' /\ dfrag f' = dfrag f /\ (fresh 1 false true f' /\ kin cleared f f').
Proof.
  intros Hb Hf. pose proof (fresh_flags _ _ _ _ Hf) as (_ & _ & Hz & _). destruct Hf as [Hbt Hp Hc Hn Ha Hd Hw Hm Hr].
  destruct (thaw_one_ok f i Hb Hp Hz Hm) as (ps & i' & -> & H1 & M1). cbn zeta in *.
  match type of H1 with pins_ok _ ?x => exists x end. exists i'. split_and!; [done..| |is_kin].
  split; try done.
  - by apply fresh_thawed.
  - destruct (remarked_content _ f (remarked_cleared _) Hc). by split.
  - apply (remarked_counted _ (holds f)); [apply remarked_cleared|done].
  - unfold waiters_ok, left_waiting in *. cbn. by apply Forall_filter.
  - by apply unmark_all.
Qed.

Lemma finish_stage f i :
  backed f i -> fresh 1 false true f ->
  exists f' i', finish_one f i = Some (f', i') /\ moved f i f' i' /\ dfrag f' = dfrag f /\ (fresh 0 false false f' /\ kin id f f').
Proof.
  intros Hb Hf. pose proof (fresh_flags _ _ _ _ Hf) as (_ & _ & _ & Hca & _). destruct Hf as [Hbt Hp Hc Hn Ha Hd Hw Hm Hr].
  destruct (finish_one_ok f i Hb Hp Hc Hca ltac:(lia)) as (ps & i' & -> & H1 & M1). cbn zeta in *.
  match type of H1 with pins_ok _ ?x => exists x end. exists i'. split_and!; [done..| |].
  - split; try done; cbn; [by apply fresh_finished| |by rewrite Ha]. destruct Hc. split; try done. cbn. lia.
  - is_kin.
Qed.

Lemma dirtydft_stage f i :
  backed f i -> fresh 0 true false f ->
  exists f' i', Some (state_set STATE_DIRTYDFT f, i) = Some (f', i') /\ moved f i f' i' /\ dfrag f' = dfrag f /\
    (fresh 0 true false f' /\ kin id f f').
Proof.
  intros Hb [Hbt Hp Hc Hn Ha Hd Hw Hm Hr].
  destruct (bits_step false (Z.lor (state f) STATE_DIRTYDFT) f i) as (H1 & M1 & _);
    [by apply set_same_bits; [|apply not_counted]|done..|].
  exists (state_set STATE_DIRTYDFT f), i. split_and!; [done..| |].
  - split; try done; [by apply fresh_dirtydft|by destruct Hc].
  - is_kin.
Qed.

Lemma kin_id f f' f'' g : kin id f f' -> kin g f' f'' -> kin g f f''.
Proof.
  intros (E1 & E2 & E3 & E4 & E5 & E6 & E7 & E8) (F1 & F2 & F3 & F4 & F5 & F6 & F7 & F8). rewrite map_id in E7.
  unfold kin. by rewrite F1, F2, F3, F4, F5, F6, F7, F8, E1, E2, E3, E4, E5, E6, E7, E8.
Qed.

Lemma kin_then f f' f'' g : kin g f f' -> kin id f' f'' -> kin g f f''.
Proof.
  intros (E1 & E2 & E3 & E4 & E5 & E6 & E7 & E8) (F1 & F2 & F3 & F4 & F5 & F6 & F7 & F8). rewrite map_id in F7.
  unfold kin. by rewrite F1, F2, F3, F4, F5, F6, F7, F8, E1, E2, E3, E4, E5, E6, E7, E8.
Qed.

Lemma kin_refl f : kin id f f.
Proof. is_kin. Qed.

(** A new fragment is ready for the next request. *)
Lemma fresh_quiet o f : frozen_above o = false -> freezing_above o = false -> fresh 0 false false f -> quiet o f.
Proof.
  intros Ho1 Ho2 Hf. pose proof (fresh_flags _ _ _ _ Hf) as (Ha & Hc & Hz & [Hg Ht] & Hm). destruct Hf as [Hb Hp Hct Hn Hap Hd Hw Hmk Hr].
  unfold bits_are, fresh_bits in Hb. rewrite !Forall_cons in Hb. cbn [fst snd] in Hb. destruct Hb as (_ & B2 & _ & _ & _ & _ & B16 & B19 & _).
  split; try done.
  - unfold is_frozen, is_frozen_tree, STATE_FROZENTREE. rewrite state_test_bit, Hz, B2, Ho1 by lia. by rewrite andb_false_r.
  - unfold is_freezing, is_freezing_tree. rewrite Ht, Ho2. cbn [orb]. by rewrite andb_false_r.
  - unfold STATE_DNPINNEDFRAG, STATE_BADFRAG. rewrite !state_test_bit by lia. done.
Qed.

(** ** From the journal to the end *)

Lemma dir_ok_same k s s' :
  dir_ok k s -> sok k s' -> same_inode s s' -> (forall x, is_Some (get_dirfrag x s') -> is_Some (get_dirfrag x s)) -> dir_ok k s'.
Proof.
  intros [_ Ht Hh Hl] Hs [He _ _ Et] Hx. split; [done|by rewrite Et|by unfold hash_type in *; rewrite He|].
  intros x d Hd. rewrite Et. destruct (Hx x) as [d' Hd']; [by rewrite Hd|]. by eapply Hl.
Qed.

(** A pass over the new fragments, which takes them from stage [P] to stage [Q]. *)
Definition passed (P Q : cdir -> Prop) (g : dentry -> dentry) (k : Z) (l : list Z) s s' : Prop :=
  dir_ok k s' /\ same_inode s s' /\
  (forall x, x ∈ l -> exists f f', get_dirfrag x s = Some f /\ get_dirfrag x s' = Some f' /\ P f /\ Q f' /\ kin g f f') /\
  (forall x, x ∉ l -> get_dirfrag x s' = get_dirfrag x s).

Lemma pass_ok op P Q g k l s :
  (forall f i, backed f i -> P f ->
    exists f' i', op f i = Some (f', i') /\ moved f i f' i' /\ dfrag f' = dfrag f /\ (Q f' /\ kin g f f')) ->
  dir_ok k s -> NoDup l -> (forall x, x ∈ l -> exists f, get_dirfrag x s = Some f /\ P f) ->
  exists s', on_frags op l s = Some s' /\ passed P Q g k l s s'.
Proof.
  intros Hop Hk Hnd Hl.
  destruct (on_frags_ok op P (fun f f' => Q f' /\ kin g f f') Hop k l s (do_sok _ _ Hk) Hnd Hl) as (s' & E & Hs & Hsm & Hin & Hout).
  exists s'. split; [done|]. split_and!; [|done| |done].
  - apply (dir_ok_same k s); [done..|]. intros x Hx. destruct (decide (x ∈ l)) as [Hxl|Hxl]; [|by rewrite Hout in Hx].
    destruct (Hin x Hxl) as (f & _ & -> & _). done.
  - intros x Hx. destruct (Hin x Hx) as (f & f' & ? & ? & ? & ? & ?). by exists f, f'.
Qed.

Lemma passed_trans P Q R g k l s s' s'' :
  passed P Q g k l s s' -> passed Q R id k l s' s'' -> passed P R g k l s s''.
Proof.
  intros (_ & S1 & I1 & O1) (K2 & S2 & I2 & O2). split_and!; [done|by eapply same_trans| |].
  - intros x Hx. destruct (I1 x Hx) as (f & f' & E & E' & Hp & _ & K). destruct (I2 x Hx) as (h & f'' & Eh & E'' & _ & Hr & K').
    rewrite E' in Eh. injection Eh as <-. exists f, f''. split_and!; [done..|by eapply kin_then].
  - intros x Hx. by rewrite O2, O1.
Qed.

Lemma passed_then P Q R g k l s s' s'' :
  passed P Q id k l s s' -> passed Q R g k l s' s'' -> passed P R g k l s s''.
Proof.
  intros (_ & S1 & I1 & O1) (K2 & S2 & I2 & O2). split_and!; [done|by eapply same_trans| |].
  - intros x Hx. destruct (I1 x Hx) as (f & f' & E & E' & Hp & _ & K). destruct (I2 x Hx) as (h & f'' & Eh & E'' & _ & Hr & K').
    rewrite E' in Eh. injection Eh as <-. exists f, f''. split_and!; [done..|by eapply kin_id].
  - intros x Hx. by rewrite O2, O1.
Qed.

Lemma passed_here P Q g k l s s' : passed P Q g k l s s' -> forall x, x ∈ l -> exists f, get_dirfrag x s' = Some f /\ Q f.
Proof. intros (_ & _ & Hi & _) x Hx. destruct (Hi x Hx) as (_ & f & _ & E & _ & Hq & _). by exists f. Qed.

Lemma passed_refl (P : cdir -> Prop) k l s :
  dir_ok k s -> (forall x, x ∈ l -> exists f, get_dirfrag x s = Some f /\ P f) -> passed P P id k l s s.
Proof.
  intros Hk Hl. split_and!; [done|apply same_refl| |done]. intros x Hx. destruct (Hl x Hx) as (f & E & Hp).
  exists f, f. split_and!; [done..|apply kin_refl].
Qed.

Lemma notify_ok base nb ranks l k c :
  dir_ok k (dir c) -> NoDup l -> (forall x, x ∈ l -> exists f, get_dirfrag x (dir c) = Some f /\ fresh 1 true true f) ->
  exists s', notify_replicas base nb ranks l c =
      Some (MkCache s' (fragments c) (uncommitted_fragments c) (effects c ++ map (fun who => FragmentNotify who base nb) ranks)) /\
    passed (fresh 1 true true) (fresh 1 true true) id k l (dir c) s'.
Proof.
  revert c. induction ranks as [|who ranks IH]; intros c Hk Hnd Hl; cbn [notify_replicas].
  { exists (dir c). rewrite app_nil_r. split; [by destruct c|by apply passed_refl]. }
  destruct (pass_ok (add_replica who) _ _ _ k l (dir c) (replica_stage who) Hk Hnd Hl) as (s1 & -> & P1). obind.
  destruct (IH (emit [FragmentNotify who base nb] (set_dir s1 c)) (proj1 P1) Hnd (passed_here _ _ _ _ _ _ _ P1)) as (s2 & -> & P2).
  exists s2. cbn. rewrite <- app_assoc. split; [done|by eapply passed_trans].
Qed.

(** What the later steps do to a request whose fragments are in the cache. *)
Lemma finish_run o base mdr result info uf k c :
  dir_ok k (dir c) -> NoDup result -> result <> [] ->
  (forall x, x ∈ result -> exists f, get_dirfrag x (dir c) = Some f /\ fresh 0 true false f) ->
  map_find (fragments c) base = Some info -> resultfrags info = result ->
  map_find (uncommitted_fragments c) base = Some uf -> old_frags uf <> [] ->
  exists c2 c3 c4 c5,
    _fragment_logged base c = Some c2 /\ _fragment_stored o base mdr c2 = Some c3 /\
    _fragment_committed base c3 = Some c4 /\ _fragment_finish base result c4 = Some c5 /\
    fragments c5 = map_erase (fragments c) base /\ uncommitted_fragments c5 = map_erase (uncommitted_fragments c) base /\
    passed (fresh 0 true false) (fresh 0 false false) cleared k result (dir c) (dir c5).
Proof.
  intros Hk Hnd Hne Hl Hi Er Hu Ho. destruct result as [|first rest] eqn:Eres; [done|]. rewrite <- Eres in *.
  assert (Eh : head (resultfrags info) = Some first) by (by rewrite Er, Eres).
  assert (Hfst : first ∈ result) by (rewrite Eres; by left).
  destruct (pass_ok logged_one _ _ _ k result (dir c) logged_stage Hk Hnd Hl) as (s2 & E2 & P2).
  set (c2 := emit (map CommitDir result) (set_dir s2 c)).
  assert (L2 : _fragment_logged base c = Some c2).
  { unfold _fragment_logged. rewrite Hi. obind. rewrite Eh. obind. by rewrite Er, E2. }
  destruct (passed_here _ _ _ _ _ _ _ P2 first Hfst) as (f0 & Ef0 & _).
  destruct (notify_ok base (f_bits info) (List.filter (told o) (map fst (replicas f0))) result k c2 (proj1 P2) Hnd
    (passed_here _ _ _ _ _ _ _ P2)) as (s3 & E3 & P3).
  destruct (pass_ok thaw_one _ _ _ k result s3 thaw_stage (proj1 P3) Hnd (passed_here _ _ _ _ _ _ _ P3)) as (s4 & E4 & P4).
  assert (L3 : exists e, _fragment_stored o base mdr c2 =
    Some (MkCache s4 (map_erase (fragments c) base) (uncommitted_fragments c) e)).
  { eexists. unfold _fragment_stored. change (fragments c2) with (fragments c). rewrite Hi. obind. rewrite Eh. obind.
    change (dir c2) with s2. rewrite Ef0. obind. rewrite Er, E3. obind. cbn [dir emit]. rewrite E4. done. }
  destruct L3 as (e3 & L3). set (c3 := MkCache _ _ _ e3) in L3.
  assert (L4 : exists e, _fragment_committed base c3 = Some (emit e c3)).
  { eexists. unfold _fragment_committed. change (uncommitted_fragments c3) with (uncommitted_fragments c). rewrite Hu. obind.
    assert (Eo : match old_frags uf with [] => false | _ :: _ => true end = true) by (by destruct (old_frags uf)).
    by rewrite Eo. }
  destruct L4 as (e4 & L4).
  destruct (pass_ok finish_one _ _ _ k result s4 finish_stage (proj1 P4) Hnd (passed_here _ _ _ _ _ _ _ P4)) as (s5 & E5 & P5).
  assert (L5 : exists e, _fragment_finish base result (emit e4 c3) =
    Some (MkCache s5 (map_erase (fragments c) base) (map_erase (uncommitted_fragments c) base) e)).
  { eexists. unfold _fragment_finish. change (uncommitted_fragments (emit e4 c3)) with (uncommitted_fragments c).
    rewrite Hu. obind. change (dir (emit e4 c3)) with s4. rewrite E5. obind. unfold finish_uncommitted_fragment.
    change (uncommitted_fragments (emit _ _)) with (uncommitted_fragments c). rewrite Hu. done. }
  destruct L5 as (e5 & L5). exists c2, c3, (emit e4 c3). eexists. split_and!; [exact L2|exact L3|exact L4|exact L5|done|done|].
  eapply passed_then; [exact P2|]. eapply passed_then; [exact P3|]. eapply passed_trans; [exact P4|exact P5].
Qed.

(** ** The fragments are held *)

(** A root fragment is not being created. *)
Definition ripe (o : outside) d : Prop :=
  dfrag d = root -> state_test d STATE_CREATING = false /\ is_new o root = false.

Definition all_held (o : outside) (k : Z) (l : list Z) s s' : Prop :=
  sok k s' /\ same_inode s s' /\
  (forall x, x ∈ l -> exists d ps, get_dirfrag x s = Some d /\ quiet o d /\ get_dirfrag x s' = Some (held ps d) /\
    pins_ok false (held ps d)) /\
  (forall x, x ∉ l -> get_dirfrag x s' = get_dirfrag x s).

Lemma freeze_all o k l s :
  sok k s -> NoDup l -> (forall x, x ∈ l -> exists d, get_dirfrag x s = Some d /\ quiet o d) ->
  exists s1, fragment_freeze_dirs o l s = Some s1 /\ sok k s1 /\ same_inode s s1 /\
    (forall x, x ∈ l -> exists d d', get_dirfrag x s = Some d /\ get_dirfrag x s1 = Some d' /\ quiet o d /\
      exists ps, d' = freezing_form ps d /\ pins_ok false d') /\
    (forall x, x ∉ l -> get_dirfrag x s1 = get_dirfrag x s).
Proof.
  intros Hs Hnd Hl. apply (on_frags_ok (freeze_one o) (quiet o)); [|done..].
  intros d i Hb Hq. pose proof (quiet_flags o d Hq) as (_ & _ & _ & Hn).
  destruct (freeze_one_ok o d i Hb (q_pins _ _ Hq) (q_frozen _ _ Hq) (q_freezing _ _ Hq) (ct_own _ (q_content _ _ Hq)) Hn) as (ps & i' & E & H1 & M1).
  exists (freezing_form ps d), i'. split_and!; [done..|by exists ps].
Qed.

(** The fragments of [l] that are in [s0] freeze in [s]. *)
Definition freezing_from (o : outside) s0 d1 : Prop := exists d ps,
  get_dirfrag (dfrag d1) s0 = Some d /\ quiet o d /\ d1 = freezing_form ps d /\ pins_ok false d1.
Definition held_from (o : outside) s0 d1 d2 : Prop := exists d ps,
  get_dirfrag (dfrag d1) s0 = Some d /\ quiet o d /\ d2 = held ps d /\ pins_ok false d2.

Lemma mark_frags o s0 d1 i :
  backed d1 i -> freezing_from o s0 d1 ->
  exists d2 i', mark_one d1 i = Some (d2, i') /\ moved d1 i d2 i' /\ dfrag d2 = dfrag d1 /\ held_from o s0 d1 d2.
Proof.
  intros Hb (d & ps & E & Hq & -> & Hp). destruct (mark_one_ok o d ps i Hq Hb Hp) as (ps' & i' & Em & Hp' & Hm).
  exists (held ps' d), i'. split_and!; [done..|]. by exists d, ps'.
Qed.

Lemma freezing_bit d ps k : 0 <= k -> k <> 5 -> k <> 14 -> state_test (freezing_form ps d) (2 ^ k) = state_test d (2 ^ k).
Proof.
  intros. rewrite !state_test_bit by done. unfold freezing_form, STATE_FRAGMENTING, STATE_FREEZINGDIR. cbn [state set_state].
  rewrite !bit_set, !(proj2 (Z.eqb_neq _ _)) by lia. by rewrite !orb_false_r.
Qed.

Lemma mark_pass_ok o sub k s0 l s :
  sok k s -> NoDup l -> (forall x d, x ∈ l -> get_dirfrag x s0 = Some d -> ripe o d) ->
  (forall x, x ∈ l -> exists d1, get_dirfrag x s = Some d1 /\ freezing_from o s0 d1) ->
  exists s', mark_pass o sub l s = Some (s', [], false) /\ on_frags mark_one l s = Some s'.
Proof.
  revert s. induction l as [|fg l IH]; intros s Hs Hnd Hr Hl; [by exists s|].
  apply NoDup_cons in Hnd as [Hni Hnd]. destruct (Hl fg) as (d1 & Hd & Hf); [by left|].
  assert (Edf : dfrag d1 = fg) by (by apply (so_frag _ _ Hs)).
  destruct (mark_frags o s0 d1 (ino s) (sok_backed _ _ _ _ Hs Hd) Hf) as (d2 & i2 & E & Hm & Ef & _). rewrite Edf in Ef.
  pose proof (sok_store k s fg d1 d2 i2 Hs Hd Ef Hm) as Hs1.
  assert (Hg : forall x, get_dirfrag x (store d2 i2 s) = if x =? fg then Some d2 else get_dirfrag x s) by (intros x; by rewrite get_store, Ef).
  destruct (IH (store d2 i2 s) Hs1 Hnd) as (s' & E1 & E2).
  { intros x d Hx. apply Hr. by right. }
  { intros x Hx. rewrite Hg. destruct (Z.eqb_spec x fg) as [->|]; [done|]. apply Hl. by right. }
  assert (Eo : on_frag mark_one fg s = Some (store d2 i2 s)) by (unfold on_frag; rewrite Hd; obind; by rewrite E).
  exists s'. cbn [mark_pass on_frags]. rewrite Eo. obind. split; [|done].
  destruct Hf as (d & ps & E0 & Hq & Ed1 & _). rewrite Edf in E0.
  assert (Ec : is_complete d1 = true).
  { unfold is_complete, STATE_COMPLETE. rewrite Ed1, freezing_bit by lia. apply (q_complete _ _ Hq). }
  assert (Er : (fg =? root) && state_test d1 STATE_CREATING = false /\ (fg =? root) && is_new o fg = false).
  { destruct (Z.eqb_spec fg root) as [->|]; [|done]. destruct (Hr root d) as [Hc Hw]; [by left|done|by rewrite <- Edf, Ed1|].
    unfold STATE_CREATING in *. rewrite Ed1, freezing_bit by lia. by rewrite Hc, Hw. }
  destruct Er as [Er1 Er2]. unfold mark_step. rewrite Hd. obind. rewrite Ec, Er1, Er2. cbn [negb]. rewrite Eo. obind. rewrite E1. done.
Qed.

Lemma wait_none sub l s :
  (forall x, x ∈ l -> exists d, get_dirfrag x s = Some d /\ is_frozen_dir d = true) -> wait_frozen sub l s = Some (s, false).
Proof.
  induction l as [|fg l IH]; intros Hl; [done|]. cbn [wait_frozen]. destruct (Hl fg) as (d & -> & Hz); [by left|]. obind.
  rewrite Hz. apply IH. intros x Hx. apply Hl. by right.
Qed.

Lemma held_frozen ps d : is_frozen_dir (held ps d) = true.
Proof. unfold is_frozen_dir, STATE_FROZENDIR. rewrite state_test_bit by lia. cbn [held set_items set_holds state set_state].
  rewrite held_bit by lia. by rewrite orb_true_r. Qed.

(** The request as it is when the locks are asked for. *)
Definition held_info (now : utime) (nb mdr : Z) (l : list Z) : fragment_info := MkInfo nb l [] mdr true now 0 0.
Definition held_cache (now : utime) (base nb mdr : Z) (l : list Z) s c : cache :=
  MkCache s (map_set (map_set (fragments c) base (MkInfo nb l [] mdr false now 0 0)) base (held_info now nb mdr l))
    (uncommitted_fragments c) (effects c).

Lemma held_request now base nb mdr l s c : find_request base mdr (held_cache now base nb mdr l s c) = Some (held_info now nb mdr l).
Proof. unfold find_request. cbn. by rewrite map_find_set_any, !Z.eqb_refl. Qed.

Lemma begin_ok o lk now mem sub base mdr nb l k c :
  sok k (dir c) -> NoDup l -> map_find (fragments c) base = None ->
  (forall x, x ∈ l -> exists d, get_dirfrag x (dir c) = Some d /\ quiet o d /\ ripe o d) ->
  exists s', all_held o k l (dir c) s' /\
    begin_fragment o lk now mem sub base mdr nb l c =
      dispatch_fragment_dir o lk now mem base mdr (held_cache now base nb mdr l s' c).
Proof.
  intros Hs Hnd Hno Hl. unfold begin_fragment. rewrite bool_decide_eq_false_2 by (rewrite Hno; by intros []). cbn [negb].
  destruct (freeze_all o k l (dir c) Hs Hnd) as (s1 & E1 & Hs1 & S1 & I1 & O1).
  { intros x Hx. destruct (Hl x Hx) as (d & ? & ? & _). by exists d. }
  cbn [dir set_fragments]. rewrite E1. obind. set (info := MkInfo nb l [] mdr false now 0 0).
  assert (Hf : forall x, x ∈ l -> exists d1, get_dirfrag x s1 = Some d1 /\ freezing_from o (dir c) d1).
  { intros x Hx. destruct (I1 x Hx) as (d & d1 & Ed & Ed1 & Hq & ps & -> & Hp). eexists. split; [done|]. exists d, ps.
    by rewrite (so_frag _ _ Hs1 _ _ Ed1). }
  destruct (mark_pass_ok o sub k (dir c) l s1 Hs1 Hnd) as (s2 & E2 & E2'); [|done|].
  { intros x d Hx Hd. destruct (Hl x Hx) as (d' & Hd' & _ & Hr). rewrite Hd in Hd'. by injection Hd' as <-. }
  destruct (on_frags_ok mark_one (freezing_from o (dir c)) (held_from o (dir c)) (mark_frags o (dir c)) k l s1 Hs1 Hnd Hf)
    as (s2' & E2'' & Hs2 & S2 & I2 & O2). rewrite E2' in E2''. injection E2'' as <-.
  assert (Ih : forall x, x ∈ l -> exists d ps, get_dirfrag x (dir c) = Some d /\ quiet o d /\ get_dirfrag x s2 = Some (held ps d) /\
    pins_ok false (held ps d)).
  { intros x Hx. destruct (I2 x Hx) as (d1 & d2 & Ed1 & Ed2 & _ & d & ps & Ed & Hq & -> & Hp).
    rewrite (so_frag _ _ Hs1 _ _ Ed1) in Ed. by exists d, ps. }
  exists s2. split.
  { split_and!; [done|by eapply same_trans|done|]. intros x Hx. by rewrite O2, O1. }
  unfold fragment_mark_and_complete.
  assert (Ef : find_request base mdr (set_dir s1 (set_fragments (map_set (fragments c) base info) c)) = Some info).
  { unfold find_request. cbn. by rewrite map_find_set_any, !Z.eqb_refl. }
  rewrite Ef. cbn [f_dirs info dir set_dir emit]. rewrite E2. obind. cbn [dir emit set_dir].
  rewrite wait_none. 2: { intros x Hx. destruct (Ih x Hx) as (d & ps & _ & _ & Ed & _). rewrite Ed. eexists. split; [done|apply held_frozen]. }
  obind. unfold fragment_frozen, find_request. cbn. rewrite map_find_set_any, !Z.eqb_refl. cbn [f_mdr info].
  rewrite ?Z.eqb_refl. f_equal. unfold held_cache, set_fragments, emit. cbn. by rewrite app_nil_r.
Qed.

(** ** A request that is aborted *)

(** The fragments of a list as they were, but for the waiters that were woken. *)
Definition given_back (l : list Z) s s' : Prop :=
  (forall x, x ∈ l -> exists d ps, get_dirfrag x s = Some d /\ get_dirfrag x s' = Some (released ps d) /\
    pins_ok false (released ps d)) /\
  (forall x, x ∉ l -> get_dirfrag x s' = get_dirfrag x s).

Lemma give_back_ok o k l s0 s :
  dir_ok k s0 -> NoDup l -> all_held o k l s0 s ->
  exists s', fragment_unmark_unfreeze_dirs l s = Some s' /\ dir_ok k s' /\ same_inode s0 s' /\ given_back l s0 s'.
Proof.
  intros Hk Hnd (Hs & Hsm & Hh & Ho).
  set (Pre := fun d1 => exists d ps, get_dirfrag (dfrag d1) s0 = Some d /\ quiet o d /\ d1 = held ps d /\ pins_ok false d1).
  set (Post := fun d1 d2 => exists d ps, get_dirfrag (dfrag d1) s0 = Some d /\ d2 = released ps d /\ pins_ok false d2).
  destruct (on_frags_ok unmark_one Pre Post) with (k := k) (l := l) (s := s) as (s' & E & Hs' & Hsm' & Hi & Ho'); [|done..| |].
  { intros d1 i Hb (d & ps & E0 & Hq & -> & Hp). destruct (unmark_one_ok o d ps i Hq Hb Hp) as (ps' & i' & E & Hp' & Hm).
    exists (released ps' d), i'. split_and!; [done..|]. by exists d, ps'. }
  { intros x Hx. destruct (Hh x Hx) as (d & ps & E0 & Hq & E1 & Hp). eexists. split; [done|]. exists d, ps.
    by rewrite (so_frag _ _ Hs _ _ E1). }
  assert (Hg : given_back l s0 s').
  { split; [|intros x Hx; by rewrite Ho', Ho]. intros x Hx. destruct (Hi x Hx) as (d1 & d2 & E1 & E2 & _ & d & ps & E0 & -> & Hp).
    rewrite (so_frag _ _ Hs _ _ E1) in E0. by exists d, ps. }
  exists s'. pose proof (same_trans _ _ _ Hsm Hsm') as Hss. split_and!; [done| |done|done].
  apply (dir_ok_same k s0); [done..|]. intros x Hx. destruct (decide (x ∈ l)) as [Hxl|Hxl].
  - destruct (proj1 Hg x Hxl) as (d & ps & -> & _). done.
  - by rewrite (proj2 Hg) in Hx.
Qed.

(** Whatever is asked of the directory, it is not refused from outside. *)
Definition allowed (o : outside) : Prop :=
  readonly o = false /\ degraded o = false /\ unsuitable o = false /\ scrubbing o = false.

Lemma can_fragment_quiet o (ds : list cdir) : allowed o -> Forall (quiet o) ds -> can_fragment o ds = true.
Proof.
  intros (E1 & E2 & E3 & E4) Hq. unfold can_fragment. rewrite E1, E2, E3, E4. cbn [negb andb].
  apply forallb_forall. intros d Hd%list_elem_of_In. rewrite Forall_forall in Hq. destruct (Hq d Hd).
  destruct q_idle0 as (F1 & _ & F2). by rewrite F1, q_auth0, F2, q_frozen0, q_freezing0.
Qed.

Lemma split_dir_begins o lk now mem sub fg nb mdr d c :
  get_dirfrag fg (dir c) = Some d -> quiet o d -> allowed o -> ceph_frag_bits fg + nb <= 24 ->
  split_dir o lk now mem sub fg nb mdr c = begin_fragment o lk now mem sub fg mdr nb [fg] c.
Proof.
  intros Hd Hq Ha Hb. unfold split_dir. rewrite Hd. obind. rewrite (q_auth _ _ Hq), (can_fragment_quiet o [d]) by (done || by constructor).
  cbn [negb]. by rewrite (proj2 (Z.ltb_ge _ _)).
Qed.

(** The request is gone and the fragments are given back. *)
Lemma abort_ok o now mem sub base mdr nb l k c :
  dir_ok k (dir c) -> NoDup l -> map_find (fragments c) base = None ->
  (forall x, x ∈ l -> exists d, get_dirfrag x (dir c) = Some d /\ quiet o d /\ ripe o d) ->
  forall first, head l = Some first ->
  exists s', begin_fragment o Aborted now mem sub base mdr nb l c =
      Some (MkCache s' (map_erase (fragments (held_cache now base nb mdr l s' c)) base) (uncommitted_fragments c)
        (effects c ++ [if 0 <? nb then QueueSplit first else QueueMerge first; RequestFinish mdr])) /\
    dir_ok k s' /\ same_inode (dir c) s' /\ given_back l (dir c) s'.
Proof.
  intros Hk Hnd Hno Hl first Hfst.
  destruct (begin_ok o Aborted now mem sub base mdr nb l k c (do_sok _ _ Hk) Hnd Hno Hl) as (s1 & Hh & ->).
  destruct (give_back_ok o k l (dir c) s1 Hk Hnd Hh) as (s' & E & Hk' & Hs & Hg).
  exists s'. split_and!; [|done..]. unfold dispatch_fragment_dir. rewrite held_request. cbn [f_dirs f_bits held_info]. rewrite Hfst. obind.
  cbn [dir emit held_cache]. rewrite E. obind. unfold emit. cbn. by rewrite <- app_assoc.
Qed.

Lemma held_gone now base nb mdr l s c :
  map_find (fragments c) base = None ->
  forall b, map_find (map_erase (fragments (held_cache now base nb mdr l s c)) base) b = map_find (fragments c) b.
Proof.
  intros Hno b. rewrite map_find_erase_any. cbn. rewrite !map_find_set_any. by destruct (Z.eqb_spec b base) as [->|].
Qed.

(** ** What is held can be replaced *)

(** A fragment that a request may be for. *)
Record idle (o : outside) s d : Prop := {
  id_quiet : quiet o d;
  id_placed : placed (ino s) d;
  id_sticky : state_test d STATE_STICKY = (0 <? stickydir_ref s)
}.

Lemma held_test ps d k :
  0 <= k -> k <> 4 -> k <> 14 -> k <> 16 -> state_test (held ps d) (2 ^ k) = state_test d (2 ^ k).
Proof.
  intros. rewrite !state_test_bit by done. cbn [held set_items set_holds state set_state].
  rewrite held_bit, !(proj2 (Z.eqb_neq _ _)) by lia. by rewrite !orb_false_r.
Qed.

Lemma held_auth o ps d : quiet o d -> is_auth (held ps d) = true.
Proof. intros Hq. unfold is_auth, STATE_AUTH. rewrite held_test by lia. apply Hq. Qed.

Lemma held_free o s s' ps d :
  idle o s d -> same_inode s s' -> get_dirfrag (dfrag d) s' = Some (held ps d) -> pins_ok false (held ps d) ->
  free false s' (held ps d).
Proof.
  intros [Hq Hpl Hst] [He _ Er _] Hg Hp. destruct (quiet_flags o d Hq) as (_ & _ & [C1 C2] & _).
  split; [split_and!; [done| |]| |apply Hq].
  - split; try done.
    + unfold is_complete, STATE_COMPLETE. rewrite held_test, (held_auth o) by (done || lia).
      pose proof (q_complete _ _ Hq) as Hc. unfold is_complete, STATE_COMPLETE in Hc. by rewrite Hc.
    + pose proof (remarked_content _ d (remarked_marked _) (q_content _ _ Hq)) as []. by split.
    + split; [unfold STATE_FREEZINGDIR|unfold STATE_FREEZINGTREE]; rewrite held_test by lia; done.
    + apply Hq.
    + unfold live. by rewrite held_frozen, (held_auth o).
    + unfold waiters_ok, left_waiting. cbn. apply Forall_filter, (q_waiters _ _ Hq).
    + by rewrite (held_auth o).
  - unfold STATE_STICKY. rewrite held_test, Er by lia. apply Hst.
  - destruct Hpl as [H1 H2]. split; rewrite (holds_env _ _ He); [|done]. cbn.
    eapply (remarked_Forall (fun dn => holds_name (ino s) (dfrag d) (name dn) = true)); [done|apply remarked_marked|done].
Qed.

(** No dentry of it pins the directory, and each is marked. *)
Definition bare (dn : dentry) : Prop := is_marked dn /\ dap dn = 0.

Lemma total_none {A} (g : A -> Z) l : Forall (fun x => 0 <= g x) l -> total g l = 0 -> Forall (fun x => g x = 0) l.
Proof.
  induction 1 as [|x l Hx Hl IH]; [done|]. rewrite total_cons. pose proof (total_over_nonneg g l Hl). intros.
  constructor; [|apply IH]; lia.
Qed.

Lemma held_bare o ps d : quiet o d -> Forall bare (items (holds (held ps d))).
Proof.
  intros Hq. change (items (holds (held ps d))) with (map marked (items (holds d))).
  apply Forall_and. split; [by apply mark_all, (q_unmarked _ _ Hq)|].
  eapply (remarked_Forall (fun dn => dap dn = 0)); [done|apply remarked_marked|]. destruct (q_content _ _ Hq) as [_ Hd _ Hr _].
  apply total_none; [|by rewrite <- Hr, (q_dir_pins _ _ Hq)]. eapply Forall_impl; [exact Hd|]. by intros dn [_ _ [? _] _].
Qed.

Lemma fresh_new f :
  bits_are (fresh_bits true false) (state f) -> pins_ok false f -> content_ok f -> counted (holds f) ->
  auth_pins (pinned f) = 0 -> waiting (waits_ f) = [] -> Forall bare (items (holds f)) -> dir_auth f = CDIR_AUTH_DEFAULT ->
  fresh 0 true false f.
Proof.
  intros Hb Hp Hc Hn Ha Hw [Hm Hd]%Forall_and Hr. split; try done.
  - rewrite (ct_dir _ Hc). clear -Hd. induction Hd as [|x l E _ IH]; [done|]. rewrite total_cons. lia.
  - unfold waiters_ok. by rewrite Hw.
  - unfold is_subtree_root. by rewrite Hr, bool_decide_eq_true_2.
Qed.

Lemma root_default d : is_subtree_root d = false -> dir_auth d = CDIR_AUTH_DEFAULT.
Proof. unfold is_subtree_root. by intros ?%negb_false_iff%bool_decide_eq_true. Qed.

Lemma piece_fresh o r nb ps d fg i f :
  quiet o d -> subfrag_ok false r nb (held ps d) fg (taken_by i fg (items (holds (held ps d)))) f -> fresh 0 true false f.
Proof.
  intros Hq []. pose proof (held_auth o ps d Hq) as Ha. apply fresh_new; try done.
  - rewrite sf_state0. unfold bits_are, fresh_bits. rewrite !Forall_cons. cbn [fst snd].
    rewrite !sub_bit, !init_bit by lia. unfold live. rewrite Ha. cbn [negb andb].
    split_and!; [..|done]; rewrite ?orb_true_r, ?andb_false_r, ?andb_true_r; cbn; rewrite ?andb_false_r, ?orb_true_r; done.
  - rewrite sf_items0. unfold taken_by. apply Forall_forall. intros dn Hdn%list_elem_of_In. apply filter_In in Hdn as [Hdn _].
    apply list_elem_of_In in Hdn. pose proof (held_bare o ps d Hq) as Hb. rewrite Forall_forall in Hb. by apply Hb.
  - rewrite sf_auth0. apply root_default, (q_root _ _ Hq).
Qed.

(** Fragments that are held. *)
Definition held_dirs (o : outside) (ds hs : list cdir) : Prop :=
  Forall2 (fun d h => quiet o d /\ exists ps, h = held ps d) ds hs.

Lemma merged_fresh o i r fg pp g ds hs f :
  held_dirs o ds hs -> ds <> [] -> merged i false (first_auth hs) r fg CDIR_AUTH_DEFAULT pp g hs f -> fresh 0 true false f.
Proof.
  intros Hh Hne []. assert (Ha : first_auth hs = true).
  { destruct Hh as [|d h ds hs [Hq (ps & ->)] _]; [done|]. cbn. by apply (held_auth o). }
  rewrite Ha in *. apply fresh_new; try done.
  - rewrite mg_state0. unfold bits_are, fresh_bits. rewrite !Forall_cons. cbn [fst snd].
    rewrite !kept_all_bit by (done || lia). unfold born. rewrite !stick_bit by lia. split_and!; [..|done]; by rewrite andb_false_r.
  - by rewrite mg_waits0.
  - rewrite mg_items0. unfold all_items. clear -Hh. induction Hh as [|d h ds hs [Hq (ps & ->)] _ IH]; [constructor|].
    cbn [map concat]. apply Forall_app. split; [by apply (held_bare o)|done].
Qed.

(** ** The refragmentation *)

Lemma verify_ok k s : dir_ok k s -> verify_dirfrags s = Some tt.
Proof.
  intros Hk. unfold verify_dirfrags. assert (Hw := keys_wf k s Hk).
  assert (Hl : Forall (fun p => leaf (dirfragtree s) p.1) (dirfrags s)).
  { apply Forall_forall. intros p Hp. assert (Hx : p.1 ∈ map fst (dirfrags s)) by (apply list_elem_of_fmap; by exists p).
    apply map_find_keys in Hx as [d Hd]. by apply (do_leaves _ _ Hk _ d). }
  assert (E : mapM (fun p => leaf ← is_leaf (dirfragtree s) p.1; Some (negb leaf)) (dirfrags s) =
    Some (map (fun _ => false) (dirfrags s))).
  { revert Hw Hl. generalize (dirfrags s). intros l. induction 1 as [|p l Wp _ IH]; intros Hl; [done|].
    apply Forall_cons in Hl as [Lp Hl]. destruct (is_leaf_spec _ p.1 (do_tree _ _ Hk) Wp) as (b & Eb & Hb).
    assert (b = true) as -> by (by apply Hb). cbn. rewrite Eb. obind. by rewrite (IH Hl). }
  rewrite E. obind. assert (Ef : forallb negb (map (fun _ => false) (dirfrags s)) = true); [|by rewrite Ef].
  apply forallb_forall. intros b Hb. apply in_map_iff in Hb as (_ & <- & _). done.
Qed.

Lemma none_leaf_ok l s :
  wf_tree (dirfragtree s) -> (forall x, x ∈ l -> wf_frag x /\ ~ leaf (dirfragtree s) x) -> none_leaf l s = Some true.
Proof.
  intros Ht Hl. unfold none_leaf.
  assert (E : mapM (fun fg => is_leaf (dirfragtree s) fg) l = Some (map (fun _ => false) l)).
  { induction l as [|x l IH]; [done|]. destruct (Hl x) as [Wx Nx]; [by left|].
    destruct (is_leaf_spec _ x Ht Wx) as (b & Eb & Hb). assert (b = false) as -> by (destruct b; [by destruct Nx; apply Hb|done]).
    cbn. rewrite Eb. obind. rewrite IH; [done|]. intros y Hy. apply Hl. by right. }
  rewrite E. obind. f_equal. apply forallb_forall. intros b Hb. apply in_map_iff in Hb as (_ & <- & _). done.
Qed.

(** The request goes to the journal with the old and the new fragments. *)
Lemma refragment_ok o now mem base info k s' result ws c :
  (forall x, x ∈ f_dirs info -> is_Some (get_dirfrag x (dir c))) ->
  adjust_dir_fragments (f_dirs info) base (f_bits info) false now mem (resultfrags info) [] (dir c) = Some (s', result, ws) ->
  dir_ok k s' -> (forall x, x ∈ f_dirs info -> wf_frag x /\ ~ leaf (dirfragtree s') x) -> NoDup result -> result <> [] ->
  (forall x, x ∈ result -> exists f, get_dirfrag x s' = Some f /\ fresh 0 true false f) ->
  map_find (uncommitted_fragments c) base = None ->
  exists c1 info1 uf, refragment o now mem base info c = Some c1 /\
    passed (fresh 0 true false) (fresh 0 true false) id k result s' (dir c1) /\
    fragments c1 = map_set (fragments c) base info1 /\ resultfrags info1 = result /\
    uncommitted_fragments c1 = map_set (uncommitted_fragments c) base uf /\ old_frags uf = f_dirs info.
Proof.
  intros Hin Ha Hk Hnl Hnd Hne Hf Hu. unfold refragment.
  assert (Ho : exists orig, mapM (fun fg => d ← get_dirfrag fg (dir c); Some (fg, fnode d)) (f_dirs info) = Some orig /\
    map fst orig = f_dirs info).
  { clear -Hin. induction (f_dirs info) as [|x l IH]; [by exists []|]. destruct (Hin x) as [d Hd]; [by left|].
    destruct IH as (orig & E & Em); [intros y Hy; apply Hin; by right|]. exists ((x, fnode d) :: orig). cbn. rewrite Hd. obind.
    rewrite E. obind. by rewrite Em. }
  destruct Ho as (orig & -> & Em). obind. rewrite Ha. obind.
  assert (Ev : (if mds_debug_frag o then verify_dirfrags s' else Some tt) = Some tt) by (rewrite (verify_ok k) by done; by destruct (mds_debug_frag o)).
  rewrite Ev. obind. set (s2 := set_ino (i_call (QueueWaiters ws) (ino s')) s').
  assert (Hk2 : dir_ok k s2) by (by apply dir_ok_call). rewrite none_leaf_ok; [|apply Hk2|by rewrite Em]. obind.
  assert (Er : match result with [] => false | _ :: _ => true end = true) by (by destruct result). rewrite Er.
  assert (E3 : exists s3, (if i_auth (env (ino s2)) then Some s2
      else on_frags (fun d i => Some (state_set STATE_DIRTYDFT d, i)) result s2) = Some s3 /\
    passed (fresh 0 true false) (fresh 0 true false) id k result s2 s3).
  { destruct (i_auth (env (ino s2))); [exists s2; split; [done|by apply passed_refl]|]. by apply (pass_ok _ _ _ _ k result s2 dirtydft_stage). }
  destruct E3 as (s3 & -> & P3). obind. unfold add_uncommitted_fragment.
  cbn [uncommitted_fragments set_fragments set_dir]. rewrite bool_decide_eq_false_2 by (rewrite Hu; by intros []). cbn [negb].
  obind. eexists _, _, _. split_and!; [reflexivity| |reflexivity|done|reflexivity|done].
  destruct P3 as (K3 & [] & I3 & O3). by split_and!.
Qed.

(** ** A request from the beginning to the end *)

(** What runs as the journal and the store complete what they were asked. *)
Definition carried_out (o : outside) (base mdr : Z) (result : list Z) c1 c5 : Prop := exists c2 c3 c4,
  _fragment_logged base c1 = Some c2 /\ _fragment_stored o base mdr c2 = Some c3 /\
  _fragment_committed base c3 = Some c4 /\ _fragment_finish base result c4 = Some c5.

(** The requests are as they were. *)
Definition same_requests c c' : Prop := forall b,
  map_find (fragments c') b = map_find (fragments c) b /\
  map_find (uncommitted_fragments c') b = map_find (uncommitted_fragments c) b.

Lemma request_run o t now mem base mdr nb l k s1 s2 result ws c :
  (forall x, x ∈ l -> is_Some (get_dirfrag x s1)) ->
  adjust_dir_fragments l base nb false now mem [] [] s1 = Some (s2, result, ws) ->
  dir_ok k s2 -> (forall x, x ∈ l -> wf_frag x /\ ~ leaf (dirfragtree s2) x) -> l <> [] -> NoDup result -> result <> [] ->
  (forall x, x ∈ result -> exists f, get_dirfrag x s2 = Some f /\ fresh 0 true false f) ->
  map_find (fragments c) base = None -> map_find (uncommitted_fragments c) base = None ->
  exists c1 c5, dispatch_fragment_dir o Acquired now mem base mdr (held_cache t base nb mdr l s1 c) = Some c1 /\
    carried_out o base mdr result c1 c5 /\
    passed (fresh 0 true false) (fresh 0 false false) cleared k result s2 (dir c5) /\ same_requests c c5.
Proof.
  intros Hh Ha Hk Hnl Hl Hnd Hne Hf Hno Hun. unfold dispatch_fragment_dir. rewrite held_request.
  set (ch := held_cache t base nb mdr l s1 c).
  destruct (refragment_ok o now mem base (held_info t nb mdr l) k s2 result ws ch) as (c1 & info & uf & -> & P1 & F1 & R1 & U1 & O1); try done.
  destruct (finish_run o base mdr result info uf k c1) as (c2 & c3 & c4 & c5 & L2 & L3 & L4 & L5 & F5 & U5 & P5); try done.
  - apply P1.
  - by eapply passed_here.
  - by rewrite F1, map_find_set_any, Z.eqb_refl.
  - by rewrite U1, map_find_set_any, Z.eqb_refl.
  - by rewrite O1.
  - exists c1, c5. split_and!; [done|by exists c2, c3, c4|by eapply passed_then|]. intros b. rewrite F5, U5, F1, U1, !map_find_erase_any, !map_find_set_any.
    cbn. rewrite !map_find_set_any. by destruct (Z.eqb_spec b base) as [->|].
Qed.

Lemma kin_idle o s s' f f' :
  frozen_above o = false -> freezing_above o = false -> fresh 0 false false f' -> kin cleared f f' ->
  same_inode s s' -> placed (ino s) f -> state_test f STATE_STICKY = (0 <? stickydir_ref s) -> idle o s' f'.
Proof.
  intros Ho1 Ho2 Hf (E1 & _ & _ & _ & _ & E6 & E7 & E8) [He _ Er _] [P1 P2] Hst. split; [by apply fresh_quiet| |].
  - split; rewrite E1, (holds_env _ _ He); [|by rewrite E6]. rewrite E7.
    eapply (remarked_Forall (fun dn => holds_name (ino s) (dfrag f) (name dn) = true)); [done|apply remarked_cleared|done].
  - unfold STATE_STICKY in *. rewrite state_test_bit in Hst |- * by lia. by rewrite E8, Er.
Qed.

Lemma quiet_outside o d : quiet o d -> frozen_above o = false /\ freezing_above o = false.
Proof.
  intros Hq. pose proof (q_frozen _ _ Hq) as Hz. pose proof (q_freezing _ _ Hq) as Hg.
  unfold is_frozen, is_freezing, is_frozen_tree, is_freezing_tree in *. rewrite (q_root _ _ Hq) in *. cbn [negb andb] in *.
  apply orb_false_iff in Hz as [_ [_ Hz]%orb_false_iff]. apply orb_false_iff in Hg as [[_ Hg]%orb_false_iff _]. done.
Qed.

(** Marks are no matter to where a dentry goes and what it counts. *)
Lemma taken_marked i p l : taken_by i p (map marked l) = map marked (taken_by i p l).
Proof.
  unfold taken_by. induction l as [|dn l IH]; [done|]. cbn [map List.filter]. change (name (marked dn)) with (name dn).
  destruct (holds_name i p (name dn)); cbn [map]; by rewrite IH.
Qed.

Lemma remarked_stat n l l' : remarked l l' -> stat_ok n l' -> stat_ok n l.
Proof.
  intros Hr [Hz Hs]. split; [by rewrite Hz; apply remarked_total|]. eapply Forall_impl; [exact Hs|].
  intros g ->. by apply remarked_total.
Qed.

Lemma taken_unmarked i p l : Forall unmarked l -> Forall unmarked (taken_by i p l).
Proof. intros Hl. by apply Forall_filter. Qed.

(** A piece of [d], after the request. *)
Record split_piece (o : outside) s s' (nb : Z) d (p : Z) f : Prop := {
  sq_idle : idle o s' f;
  sq_items : items (holds f) ≡ₚ taken_by (ino s) p (items (holds d));
  sq_waits : waiting_on_dentry (waits_ f) = waits_in (ino s) p (add_waiters [] (waiting_on_dentry (waits_ d)));
  sq_counted : counted (holds f);
  sq_stat : stat_ok (fnode f) (taken_by (ino s) p (items (holds d)));
  sq_pop : pop f = scale_pops (d_int 1 / d_int (Z.shiftl 1 nb))%D (pop d)
}.

Lemma split_piece_ok o s s1 s2 s5 nb ps d p f f' :
  quiet o d -> same_inode s s1 -> same_inode s2 s5 ->
  subfrag_ok false (stickydir_ref s1) nb (held ps d) p (taken_by (ino s1) p (items (holds (held ps d)))) f ->
  waiting_on_dentry (waits_ f) = waits_in (ino s1) p (add_waiters [] (waiting_on_dentry (waits_ d))) ->
  free false s2 f -> kin cleared f f' -> fresh 0 false false f' -> split_piece o s s5 nb d p f'.
Proof.
  intros Hq S1 S5 Sf Hw Hf Hk Hfr. destruct (quiet_outside o d Hq) as [Ho1 Ho2]. pose proof Hk as (E1 & E2 & E3 & E4 & E5 & E6 & E7 & E8).
  change (items (holds (held ps d))) with (map marked (items (holds d))) in Sf. rewrite taken_marked in Sf.
  assert (Et : taken_by (ino s1) p (items (holds d)) = taken_by (ino s) p (items (holds d))).
  { unfold taken_by. by rewrite (holds_env _ _ (sm_env _ _ S1)). }
  rewrite Et in Sf. split.
  - destruct Hf as [(_ & _ & Hst) Hpl _]. by apply (kin_idle o s2 s5 f).
  - rewrite E7, (sf_items _ _ _ _ _ _ _ Sf), cleared_marked; [done|]. apply taken_unmarked, Hq.
  - rewrite E6, Hw. unfold waits_in. by rewrite (holds_env _ _ (sm_env _ _ S1)).
  - apply Hfr.
  - rewrite E3. apply (remarked_stat _ _ _ (remarked_marked _)), Sf.
  - rewrite E4. apply Sf.
Qed.

Lemma held_dir_ok o k l s s1 : dir_ok k s -> all_held o k l s s1 -> dir_ok k s1.
Proof.
  intros Hk (Hs1 & S1 & I1 & O1). apply (dir_ok_same k s); [done..|]. intros x Hx. destruct (decide (x ∈ l)) as [Hxl|Hxl].
  - destruct (I1 x Hxl) as (d & _ & -> & _). done.
  - by rewrite O1 in Hx.
Qed.

Lemma pieces_some fg nb : 0 < nb -> pieces fg nb <> [].
Proof.
  intros Hn E. assert (Hx : 0 ∈ seqZ 0 (2 ^ nb)) by (apply elem_of_seqZ; pose proof (Z.pow_pos_nonneg 2 nb); lia).
  unfold pieces in E. apply fmap_nil_inv in E. rewrite E in Hx. by apply elem_of_nil in Hx.
Qed.

(** What a request to split [d], that was the fragment [fg], leaves. *)
Record split_by_request (o : outside) (k fg nb : Z) d s s' : Prop := {
  sr_ok : dir_ok k s';
  sr_leaves : forall g, leaf (dirfragtree s') g <-> leaf (dirfragtree s) g /\ g <> fg \/ g ∈ pieces fg nb;
  sr_gone : get_dirfrag fg s' = None;
  sr_pieces : forall p, p ∈ pieces fg nb -> exists f, get_dirfrag p s' = Some f /\ split_piece o s s' nb d p f;
  sr_others : forall x, x <> fg -> x ∉ pieces fg nb -> get_dirfrag x s' = get_dirfrag x s;
  sr_same : env (ino s') = env (ino s) /\ stickydir_ref s' = stickydir_ref s /\
    above (ino s') = lighten (env (ino s)) (dens d) (above (ino s))
}.

(** A fragment that is held for a request, [s] being the directory before. *)
Record seized (o : outside) (k fg : Z) d s s1 : Prop := {
  tk_ok : dir_ok k s1;
  tk_same : same_inode s s1;
  tk_held : exists ps, get_dirfrag fg s1 = Some (held ps d) /\ pins_ok false (held ps d);
  tk_others : forall x, x <> fg -> get_dirfrag x s1 = get_dirfrag x s;
  tk_idle : idle o s d
}.

(** It is split, stored and given back in pieces. *)
Lemma split_dispatched o t now mem fg nb mdr k d s s1 c :
  seized o k fg d s s1 -> 0 < nb -> ceph_frag_bits fg + nb <= 24 ->
  map_find (fragments c) fg = None -> map_find (uncommitted_fragments c) fg = None ->
  exists c1 c5, dispatch_fragment_dir o Acquired now mem fg mdr (held_cache t fg nb mdr [fg] s1 c) = Some c1 /\
    carried_out o fg mdr (pieces fg nb) c1 c5 /\ same_requests c c5 /\ split_by_request o k fg nb d s (dir c5).
Proof.
  intros [Hk1 S1 (ps & E1 & Hp) O1 Hi] Hn Hb Hno Hun. pose proof (id_quiet _ _ _ Hi) as Hq.
  assert (Ef : dfrag d = fg) by apply (so_frag _ _ (do_sok _ _ Hk1) _ _ E1).
  assert (Hf : free false s1 (held ps d)) by (apply (held_free o s); [done|done|by rewrite Ef|done]).
  destruct (split_is_done k nb false now mem [] [] (held ps d) s1 Hk1 Hf Hn) as (s2 & E2 & Hk2 & Sp); [by rewrite <- Ef in Hb|].
  destruct Sp as [Sl Sg Spi _ So Sa [Se Ss]]. change (dfrag (held ps d)) with (dfrag d) in *. rewrite Ef in *. cbn [app] in E2.
  assert (Wf : wf_frag fg) by (apply (node_wf _ _ (wt_sane _ (do_tree _ _ Hk1))), (do_leaves _ _ Hk1 _ _ E1)).
  assert (Hrd : ready nb fg s2) by (eapply split_ready; try done; intros x Hx; apply Sl; by right).
  assert (Hnf : fg ∉ pieces fg nb) by (intros Hx; by apply (piece_wf _ _ _ _ Hrd) in Hx as (_ & _ & ?)).
  destruct (request_run o t now mem fg mdr nb [fg] k s1 s2 (pieces fg nb) (woken false [] (held ps d)) c) as (c1 & c5 & Ec & Hco & P5 & Hsr); try done.
  { intros x ->%list_elem_of_singleton. by rewrite E1. }
  { intros x ->%list_elem_of_singleton. split; [done|]. intros [[_ ?]|?]%Sl; done. }
  { by apply (NoDup_pieces nb fg s2). }
  { by apply pieces_some. }
  { intros x Hx. destruct (Spi x Hx) as (f & E & Sf & _). exists f. split; [done|]. by eapply piece_fresh. }
  destruct P5 as (Hk5 & S5 & I5 & O5). exists c1, c5. split_and!; try done. split; try done.
  - intros g. rewrite (sm_tree _ _ S5), Sl. by rewrite (sm_tree _ _ S1).
  - by rewrite O5.
  - intros p Hpi. destruct (I5 p Hpi) as (f & f' & E & E' & _ & Hfr & Hkn). destruct (Spi p Hpi) as (f0 & E0 & Sf & Hw & _ & Hff).
    rewrite E in E0. injection E0 as <-. exists f'. split; [done|]. by apply (split_piece_ok o s s1 s2 (dir c5) nb ps d p f).
  - intros x Hx Hxp. by rewrite O5, So, O1.
  - destruct S1 as [T1 T2 T3 _], S5 as [T5 T6 T7 _]. by rewrite T5, T6, T7, Sa, Se, Ss, T1, T2, T3.
Qed.

Lemma split_request_ok o now mem sub fg nb mdr k d c :
  dir_ok k (dir c) -> get_dirfrag fg (dir c) = Some d -> idle o (dir c) d -> ripe o d -> allowed o ->
  0 < nb -> ceph_frag_bits fg + nb <= 24 ->
  map_find (fragments c) fg = None -> map_find (uncommitted_fragments c) fg = None ->
  exists c1 c5, split_dir o Acquired now mem sub fg nb mdr c = Some c1 /\ carried_out o fg mdr (pieces fg nb) c1 c5 /\
    same_requests c c5 /\ split_by_request o k fg nb d (dir c) (dir c5).
Proof.
  intros Hk Hd Hi Hr Ha Hn Hb Hno Hun. pose proof (id_quiet _ _ _ Hi) as Hq. rewrite (split_dir_begins o _ _ _ _ _ _ _ d) by done.
  destruct (begin_ok o Acquired now mem sub fg mdr nb [fg] k c) as (s1 & Hh & ->); [apply Hk|apply NoDup_singleton|done| |].
  { intros x ->%list_elem_of_singleton. by exists d. }
  apply (split_dispatched o now now mem fg nb mdr k d (dir c)); try done. pose proof (held_dir_ok o k _ _ _ Hk Hh) as Hk1.
  destruct Hh as (_ & S1 & I1 & O1). destruct (I1 fg) as (d' & ps & Ed & _ & E1 & Hp); [by left|].
  rewrite Hd in Ed. injection Ed as <-. split; try done; [by exists ps|]. intros x Hx. apply O1. by intros ?%list_elem_of_singleton.
Qed.

(** ** Merging *)

Lemma held_all o k ds l s s1 :
  all_held o k l s s1 -> (forall d, d ∈ ds -> dfrag d ∈ l) -> Forall (fun d => get_dirfrag (dfrag d) s = Some d /\ idle o s d) ds ->
  exists hs, held_dirs o ds hs /\ map dfrag hs = map dfrag ds /\ Forall (free false s1) hs.
Proof.
  intros (_ & S1 & I1 & _) Hl Hds. induction Hds as [|d ds [Hd Hi] _ IH]; [exists []; split_and!; done || constructor|].
  destruct IH as (hs & H1 & H2 & H3); [intros e He; apply Hl; by right|].
  destruct (I1 (dfrag d)) as (d' & ps & Ed & Hq & E1 & Hp); [apply Hl; by left|]. rewrite Hd in Ed. injection Ed as <-.
  exists (held ps d :: hs). split_and!.
  - constructor; [|done]. split; [done|by exists ps].
  - cbn [map]. by rewrite H2.
  - constructor; [|done]. by apply (held_free o s).
Qed.

Lemma held_all_items o ds hs : held_dirs o ds hs -> all_items hs = map marked (all_items ds).
Proof.
  unfold all_items. induction 1 as [|d h ds hs [_ (ps & ->)] _ IH]; [done|]. cbn [map concat]. by rewrite map_app, IH.
Qed.

(** The waiters of all of them. *)
Definition all_waits (ds : list cdir) : dentry_waiters :=
  foldl (fun w d => add_waiters w (waiting_on_dentry (waits_ d))) [] ds.

Lemma held_all_waits o i ds hs g :
  held_dirs o ds hs -> g_waiters (foldl (gather i false) g hs) =
    foldl (fun w d => add_waiters w (waiting_on_dentry (waits_ d))) (g_waiters g) ds.
Proof. intros Hh. revert g. induction Hh as [|d h ds hs [_ (ps & ->)] _ IH]; intros g; [done|]. cbn [foldl]. by rewrite IH. Qed.

Lemma all_waits_in (P : string_snap_t -> Prop) ds :
  Forall (fun d => Forall (fun p => P p.1) (waiting_on_dentry (waits_ d))) ds -> Forall (fun p => P p.1) (all_waits ds).
Proof.
  intros Hd. unfold all_waits. assert (Hn : Forall (fun p : string_snap_t * list context => P p.1) []) by constructor. revert Hn.
  generalize (@nil (string_snap_t * list context)). induction Hd as [|d ds Hd _ IH]; intros w Hw; [done|]. cbn [foldl].
  apply IH. by apply add_waiters_Forall.
Qed.

Lemma merged_placed k fg ds s i2 f :
  dir_ok k s -> wf_frag fg -> all_under fg s ds -> Forall (placed (ino s)) ds -> env i2 = env (ino s) -> dfrag f = fg ->
  items (holds f) ≡ₚ map marked (all_items ds) -> waiting_on_dentry (waits_ f) = add_waiters [] (all_waits ds) -> placed i2 f.
Proof.
  intros Hk Wf [_ Hu] Hp He Ef Hi Hw.
  assert (Hb : forall d nm, d ∈ ds -> holds_name (ino s) (dfrag d) nm = true -> holds_name (ino s) fg nm = true).
  { intros d nm Hd. assert (Hx : dfrag d ∈ map dfrag ds) by (apply list_elem_of_fmap; by exists d).
    apply Hu in Hx as [Hx Hin]. by apply (holds_below k fg s (dfrag d)). }
  rewrite Forall_forall in Hp. split; rewrite Ef, (holds_env _ _ He).
  - rewrite Hi. eapply (remarked_Forall (fun dn => holds_name (ino s) fg (name dn) = true)); [done|apply remarked_marked|].
    apply Forall_forall. intros dn Hdn. unfold all_items in Hdn. apply list_elem_of_In, in_concat in Hdn as (l & Hl & Hdn).
    apply in_map_iff in Hl as (d & <- & Hd%list_elem_of_In). apply list_elem_of_In in Hdn.
    pose proof (pl_items _ _ (Hp d Hd)) as Hpd. rewrite Forall_forall in Hpd. by apply (Hb d), Hpd.
  - rewrite Hw. apply (add_waiters_Forall (fun key => holds_name (ino s) fg key.1 = true)); [constructor|].
    apply (all_waits_in (fun key => holds_name (ino s) fg key.1 = true)). apply Forall_forall. intros d Hd.
    eapply Forall_impl; [apply (pl_waits _ _ (Hp d Hd))|]. intros p. by apply (Hb d).
Qed.

(** The fragment that [ds] became, after the request. *)
Record merge_result (o : outside) s' ds f : Prop := {
  mr_idle : idle o s' f;
  mr_items : items (holds f) ≡ₚ all_items ds;
  mr_waits : waiting_on_dentry (waits_ f) = add_waiters [] (all_waits ds);
  mr_counted : counted (holds f);
  mr_stat : stat_ok (fnode f) (all_items ds)
}.

Lemma all_unmarked o (ds : list cdir) : Forall (quiet o) ds -> Forall unmarked (all_items ds).
Proof.
  unfold all_items. induction 1 as [|d ds Hq _ IH]; [constructor|]. cbn [map concat]. apply Forall_app. split; [apply Hq|done].
Qed.

Lemma merge_result_ok o k fg now s s1 s2 s5 ds hs f f' :
  dir_ok k s -> wf_frag fg -> all_under fg s ds -> ds <> [] -> Forall (idle o s) ds -> held_dirs o ds hs -> same_inode s s1 ->
  env (ino s2) = env (ino s1) -> stickydir_ref s2 = stickydir_ref s1 -> same_inode s2 s5 ->
  merged (ino s1) false (first_auth hs) (stickydir_ref s1) fg CDIR_AUTH_DEFAULT (new_pops now) (gathers (ino s1) false [] hs) hs f ->
  kin cleared f f' -> fresh 0 false false f' -> merge_result o s5 ds f'.
Proof.
  intros Hk Wf Hu Hne Hi Hh S1 Ee Er S5 Mg Hkn Hfr. pose proof Hkn as (E1 & E2 & E3 & E4 & E5 & E6 & E7 & E8).
  assert (Hq : Forall (quiet o) ds) by (eapply Forall_impl; [exact Hi|]; by intros d []).
  pose proof (mg_items _ _ _ _ _ _ _ _ _ _ Mg) as Hit. rewrite (held_all_items o ds) in Hit by done.
  pose proof (mg_waits _ _ _ _ _ _ _ _ _ _ Mg) as Hw. unfold gathers in Hw. rewrite (held_all_waits o _ ds) in Hw by done.
  cbn [g_waiters] in Hw. fold (all_waits ds) in Hw.
  assert (Hw' : waiting_on_dentry (waits_ f) = add_waiters [] (all_waits ds)) by (by rewrite Hw).
  split.
  - destruct ds as [|d0 ds']; [done|]. pose proof Hq as Hq'. apply Forall_cons in Hq' as [Hq0 _].
    destruct (quiet_outside o d0 Hq0). apply (kin_idle o s2 s5 f); try done.
    + apply (merged_placed k fg (d0 :: ds') s); try done; [|by rewrite Ee, (sm_env _ _ S1)|apply Mg].
      eapply Forall_impl; [exact Hi|]. by intros d [].
    + unfold STATE_STICKY. rewrite state_test_bit, (mg_state _ _ _ _ _ _ _ _ _ _ Mg), kept_all_bit, Er by (done || lia).
      unfold born. rewrite stick_bit by lia. destruct (first_auth hs); cbn; by rewrite andb_true_r.
  - rewrite E7, Hit, cleared_marked; [done|]. by apply (all_unmarked o).
  - by rewrite E6.
  - apply Hfr.
  - rewrite E3. apply (remarked_stat _ _ _ (remarked_marked _)). rewrite <- (held_all_items o ds hs) by done. apply Mg.
Qed.

(** The leaves below [fg] are in the cache and a request may be for them. *)
Record mergeable (o : outside) (k fg : Z) s : Prop := {
  me_ok : dir_ok k s;
  me_wf : wf_frag fg;
  me_some : exists x, leaf (dirfragtree s) x /\ inside fg x /\ x <> fg;
  me_leaves : forall x, leaf (dirfragtree s) x -> inside fg x -> exists d, get_dirfrag x s = Some d /\ idle o s d /\ ripe o d
}.

Lemma mergeable_top o k fg s : mergeable o k fg s -> ~ leaf (dirfragtree s) fg /\ get_dirfrag fg s = None.
Proof.
  intros [Hk Wf (x & Lx & Ix & Ne) _]. assert (Hn : ~ leaf (dirfragtree s) fg).
  { intros Lf. by rewrite (leaf_minimal _ fg x (do_tree _ _ Hk) Lf (proj1 Lx) Ix) in Ne. }
  split; [done|]. destruct (get_dirfrag fg s) as [d|] eqn:E; [|done]. by apply (do_leaves _ _ Hk) in E.
Qed.

(** What [merge_dir] finds below. *)
Lemma mergeable_dirs o k fg s :
  mergeable o k fg s ->
  exists ds, get_dirfrags_under fg s = Some (true, map dfrag ds) /\ ds <> [] /\ all_under fg s ds /\
    Forall (fun d => get_dirfrag (dfrag d) s = Some d /\ idle o s d /\ ripe o d) ds.
Proof.
  intros Hm. pose proof Hm as [Hk Wf (x0 & L0 & I0 & _) Hl].
  destruct (get_dirfrags_under_ok k fg s (do_sok _ _ Hk) (do_tree _ _ Hk) Wf (keys_wf k s Hk)) as (b & ls & E & Hnd & Hb & Hls).
  assert (b = true) as ->. { apply Hb. intros g Lg Ig. destruct (Hl g Lg Ig) as (d & -> & _). done. }
  destruct (fetch_all k s ls (do_sok _ _ Hk)) as (ds & Em & Hds). { apply Forall_forall. by intros x [? _]%Hls. }
  exists ds. rewrite Em. split_and!; [done| | |].
  - intros ->. cbn in Em. assert (Hx : x0 ∈ ls); [|by rewrite <- Em in Hx; apply elem_of_nil in Hx].
    apply Hls. destruct (Hl x0 L0 I0) as (d & -> & _). split_and!; [done..|by left].
  - split; rewrite Em; [done|]. intros x. rewrite Hls. split; [tauto|]. intros [[d Hd] Hi]. split_and!; [by rewrite Hd|done|].
    left. by apply (do_leaves _ _ Hk _ d).
  - rewrite Forall_forall in Hds |- *. intros d Hd. pose proof (Hds d Hd) as Eg. split; [done|].
    assert (Hx : dfrag d ∈ ls) by (rewrite <- Em; apply list_elem_of_fmap; by exists d).
    apply Hls in Hx as (_ & Hi & _). destruct (Hl (dfrag d) (do_leaves _ _ Hk _ _ Eg) Hi) as (d' & Ed & Hid).
    rewrite Eg in Ed. by injection Ed as <-.
Qed.

Lemma merge_dir_begins o lk now mem sub fg mdr k c ds :
  mergeable o k fg (dir c) -> get_dirfrags_under fg (dir c) = Some (true, map dfrag ds) -> ds <> [] -> allowed o ->
  all_under fg (dir c) ds -> Forall (fun d => get_dirfrag (dfrag d) (dir c) = Some d /\ idle o (dir c) d /\ ripe o d) ds ->
  exists nb, nb <= 0 /\ merge_dir o lk now mem sub fg mdr c = begin_fragment o lk now mem sub fg mdr nb (map dfrag ds) c.
Proof.
  intros Hm E Hne Ha [_ Hu] Hds. pose proof (mergeable_top _ _ _ _ Hm) as [Nl _]. pose proof Hm as [Hk Wf _ _].
  unfold merge_dir. rewrite E. obind. cbn [negb]. destruct (is_leaf_spec _ fg (do_tree _ _ Hk) Wf) as (b & -> & Hb). obind.
  assert (b = false) as -> by (destruct b; [by destruct Nl; apply Hb|done]).
  assert (Em : mapM (fun x => get_dirfrag x (dir c)) (map dfrag ds) = Some ds).
  { clear -Hds. induction Hds as [|d ds [Ed _] _ IH]; [done|]. cbn. rewrite Ed. obind. by rewrite IH. }
  rewrite Em. obind. rewrite can_fragment_quiet; [|done|eapply Forall_impl; [exact Hds|]; by intros d (_ & [] & _)]. cbn [negb].
  destruct ds as [|d0 ds']; [done|]. cbn [map head]. obind. eexists. split; [|done].
  assert (Hi : inside fg (dfrag d0)) by (apply Hu; by left). destruct Hi. lia.
Qed.

Lemma held_under o k fg ds hs s s1 :
  all_held o k (map dfrag ds) s s1 -> map dfrag hs = map dfrag ds -> all_under fg s ds -> all_under fg s1 hs.
Proof.
  intros (_ & _ & I1 & O1) Em [Hnd Hu]. split; rewrite Em; [done|]. intros x. split.
  - intros Hx. pose proof (proj1 (Hu x) Hx) as [_ Hi]. destruct (I1 x Hx) as (d & ps & _ & _ & -> & _). done.
  - intros [Hx Hi]. destruct (decide (x ∈ map dfrag ds)) as [|Hn]; [done|]. rewrite O1 in Hx by done. by apply Hu.
Qed.

Lemma merge_begun o now mem sub fg nb mdr k ds c :
  mergeable o k fg (dir c) -> ds <> [] -> all_under fg (dir c) ds -> nb <= 0 ->
  Forall (fun d => get_dirfrag (dfrag d) (dir c) = Some d /\ idle o (dir c) d /\ ripe o d) ds -> map_find (fragments c) fg = None ->
  exists s1 hs s2 ws, all_held o k (map dfrag ds) (dir c) s1 /\ held_dirs o ds hs /\ map dfrag hs = map dfrag ds /\
    begin_fragment o Acquired now mem sub fg mdr nb (map dfrag ds) c =
      dispatch_fragment_dir o Acquired now mem fg mdr (held_cache now fg nb mdr (map dfrag ds) s1 c) /\
    adjust_dir_fragments (map dfrag ds) fg nb false now mem [] [] s1 = Some (s2, [fg], ws) /\ dir_ok k s2 /\
    merge_done false fg now (gathers (ino s1) false [] hs) hs s1 s2.
Proof.
  intros Hm Hne Hu Hn Hds Hno. pose proof (mergeable_top _ _ _ _ Hm) as [_ Hg]. pose proof Hm as [Hk Wf _ _].
  destruct (begin_ok o Acquired now mem sub fg mdr nb (map dfrag ds) k c) as (s1 & Hh & Eb); [apply Hk|apply Hu|done| |].
  { intros x Hx. apply list_elem_of_fmap in Hx as (d & -> & Hd). rewrite Forall_forall in Hds. destruct (Hds d Hd) as (E & [] & Hr). by exists d. }
  destruct (held_all o k ds (map dfrag ds) (dir c) s1 Hh) as (hs & H1 & H2 & H3).
  { intros d Hd. apply list_elem_of_fmap. by exists d. }
  { eapply Forall_impl; [exact Hds|]. by intros d (? & ? & _). }
  assert (Hne' : hs <> []) by (intros ->; cbn in H2; by destruct ds).
  assert (Hg1 : get_dirfrag fg s1 = None).
  { destruct Hh as (_ & _ & _ & O1). rewrite O1; [done|]. intros Hx%(au_under _ _ _ Hu). destruct Hx as [[e He] _]. by rewrite Hg in He. }
  destruct (merge_is_done k fg nb false now mem [] [] hs s1 (held_dir_ok _ _ _ _ _ Hk Hh) Wf Hn Hg1 Hne' H3 (held_under o k fg ds hs _ _ Hh H2 Hu))
    as (s2 & E2 & Hk2 & Md). rewrite H2 in E2. cbn [app] in E2. eexists s1, hs, s2, _. split_and!; done.
Qed.

Lemma held_all_dens o e ds hs l : held_dirs o ds hs -> lighten_all e l hs = lighten_all e l ds.
Proof.
  unfold lighten_all. intros Hh. revert l. induction Hh as [|d h ds hs [_ (ps & ->)] _ IH]; intros l; [done|]. cbn [foldl]. by rewrite IH.
Qed.

(** What a request to merge the fragments [ds] into [fg] leaves. *)
Record merge_by_request (o : outside) (k fg : Z) (ds : list cdir) s s' : Prop := {
  mq_ok : dir_ok k s';
  mq_leaf : leaf (dirfragtree s') fg;
  mq_below : all_under fg s ds;
  mq_dirs : Forall (fun d => get_dirfrag (dfrag d) s = Some d) ds;
  mq_merged : exists f, get_dirfrag fg s' = Some f /\ merge_result o s' ds f;
  mq_others : forall x, x <> fg -> get_dirfrag x s' = if bool_decide (x ∈ map dfrag ds) then None else get_dirfrag x s;
  mq_same : env (ino s') = env (ino s) /\ stickydir_ref s' = stickydir_ref s /\
    above (ino s') = lighten_all (env (ino s)) (above (ino s)) ds
}.

Lemma merge_request_ok o now mem sub fg mdr k c :
  mergeable o k fg (dir c) -> allowed o ->
  map_find (fragments c) fg = None -> map_find (uncommitted_fragments c) fg = None ->
  exists c1 c5 ds, merge_dir o Acquired now mem sub fg mdr c = Some c1 /\ carried_out o fg mdr [fg] c1 c5 /\
    same_requests c c5 /\ merge_by_request o k fg ds (dir c) (dir c5).
Proof.
  intros Hm Ha Hno Hun. destruct (mergeable_dirs _ _ _ _ Hm) as (ds & Eu & Hne & Hu & Hds). pose proof Hm as [Hk Wf _ _].
  destruct (merge_dir_begins o Acquired now mem sub fg mdr k c ds) as (nb & Hnb & ->); [done..|].
  destruct (merge_begun o now mem sub fg nb mdr k ds c) as (s1 & hs & s2 & ws & Hh & Hhd & Em & Eb & E2 & Hk2 & Md); [done..|].
  destruct Md as [Ml (f & Ef & Mg) _ Mo Ma [Me Ms]].
  assert (Hff : forall x, x ∈ [fg] -> exists f, get_dirfrag x s2 = Some f /\ fresh 0 true false f).
  { intros x ->%list_elem_of_singleton. exists f. split; [done|]. by eapply merged_fresh. }
  rewrite Eb.
  destruct (request_run o now now mem fg mdr nb (map dfrag ds) k s1 s2 [fg] ws c) as (c1 & c5 & Ec & Hco & P5 & Hsr); try done.
  { intros x Hx. destruct Hh as (_ & _ & I1 & _). destruct (I1 x Hx) as (d & ps & _ & _ & -> & _). done. }
  { intros x Hx. pose proof (proj1 (au_under _ _ _ Hu x) Hx) as [[d Hd] Hi]. pose proof (do_leaves _ _ Hk _ _ Hd) as Lx.
    split; [by apply (node_wf _ _ (wt_sane _ (do_tree _ _ Hk))), Lx|]. intros Lx2.
    assert (x = fg) as -> by (by apply (leaf_minimal _ fg x (do_tree _ _ Hk2) Ml (proj1 Lx2))). by apply (mergeable_top _ _ _ _ Hm) in Lx. }
  { by intros ->%fmap_nil_inv. }
  { apply NoDup_singleton. }
  destruct P5 as (Hk5 & S5 & I5 & O5). pose proof Hh as (_ & S1 & _ & O1).
  destruct (I5 fg) as (f0 & f' & E0 & E' & _ & Hfr & Hkn); [by left|]. rewrite Ef in E0. injection E0 as <-.
  exists c1, c5, ds. split_and!; try done. split; try done.
  - by rewrite (sm_tree _ _ S5).
  - eapply Forall_impl; [exact Hds|]. by intros d [? _].
  - exists f'. split; [done|]. eapply (merge_result_ok o k fg now (dir c) s1 s2 (dir c5) ds hs f f'); try done. eapply Forall_impl; [exact Hds|]. by intros d (_ & ? & _).
  - intros x Hx. rewrite O5 by (by intros ?%list_elem_of_singleton). rewrite Mo, Em by done.
    case_bool_decide; [done|]. by rewrite O1.
  - destruct S1 as [T1 T2 T3 _], S5 as [T5 T6 T7 _]. by rewrite T5, T6, T7, Ma, (held_all_dens o _ ds), Me, Ms, T1, T2, T3.
Qed.

End dir.
End FragmentRun.
