(* ===== verification/FragmentWait.v ===== *)
(** * Requests that have to wait

    A fragment that someone has auth pinned does not freeze at once: the request
    waits.  When the last auth pin is dropped the fragment freezes and the request
    goes on as if it had not waited; if that takes too long and other ranks wait
    for the fragment, [find_stale_fragment_freeze] gives the fragment back. *)

From S2P Require Import Prelude Encoding Frag FragTree Double Load StrHash CacheDir CacheDirFacts DirSplit DirFragment DirMerge Refragment DirTheorems Fragmenting FragmentRun.
Import Encoding.

Module FragmentWait.
Import Frag FragTree FragFacts FragTreeFacts StrHash StrHashFacts CacheDir CacheDirFacts DirSplit DirFragment
  DirMerge Refragment RefragmentFacts DirTheorems Fragmenting FragmentingFacts FragmentRun.

Section dir.
Context {D} `{Double D}.
Abbreviation cdir := (CacheDir.cdir (D := D)).
Abbreviation diri := (CacheDir.diri (D := D)).
Abbreviation cache := (Fragmenting.cache (D := D)).
Implicit Types d f : cdir.
Implicit Types s : diri.
Implicit Types c : cache.

(** ** One fragment *)

(** The fragment without its auth pins. *)
Definition let_go d : cdir :=
  let e := set_pinned (MkAuths 0 (nested_auth_pins (pinned d)) 0) d in
  set_pins (MkPins (sum_pins (expected false e)) (expected false e)) e.

(** A request may be for it once its auth pins are gone. *)
Record busy (o : outside) d : Prop := {
  bu_quiet : quiet o (let_go d);
  bu_pins : pins_ok false d;
  bu_own : 0 < auth_pins (pinned d);
  bu_dir : dir_auth_pins (pinned d) = 0
}.

(** It is marked and freezes. *)
Definition stalled_state d : Z :=
  Z.lor (Z.lor (Z.lor (state d) STATE_FRAGMENTING) STATE_FREEZINGDIR) STATE_DNPINNEDFRAG.
Definition stalled ps (w : waits) d : cdir :=
  set_items (map marked (items (holds d))) (set_state (stalled_state d) (set_waits w
    (set_pinned (MkAuths (auth_pins (pinned d) + 1) (nested_auth_pins (pinned d)) (dir_auth_pins (pinned d))) (set_pins ps d)))).

(** Someone waits until it is frozen. *)
Definition waits_frozen (sub : context) d : waits :=
  MkWaits (waiting_on_dentry (waits_ d)) (waiting_insert (waiting (waits_ d)) (MkWaiter WAIT_FROZEN 0 sub)).

Lemma stalled_bit d k :
  0 <= k -> Z.testbit (stalled_state d) k = Z.testbit (state d) k || (14 =? k) || (5 =? k) || (16 =? k).
Proof. intros. unfold stalled_state, STATE_FRAGMENTING, STATE_DNPINNEDFRAG, STATE_FREEZINGDIR. by rewrite !bit_set by lia. Qed.

Lemma stalled_test ps w d k :
  0 <= k -> state_test (stalled ps w d) (2 ^ k) = state_test d (2 ^ k) || (14 =? k) || (5 =? k) || (16 =? k).
Proof. intros Hk. rewrite !state_test_bit by done. by apply stalled_bit. Qed.

Lemma busy_flags o d :
  busy o d -> is_frozen_dir d = false /\ is_freezing_dir d = false /\ calm d /\ 0 <= nested_auth_pins (pinned d) /\
    is_frozen o d = false /\ is_freezing o d = false.
Proof.
  intros [Hq _ _ _]. pose proof (quiet_flags o _ Hq) as (H1 & H2 & H3 & H4). split_and!; try done; apply Hq.
Qed.

Lemma busy_content o d : busy o d -> content_ok d.
Proof. intros [Hq _ Ha Hd]. destruct (q_content _ _ Hq) as [C1 C2 C3 C4 _]. split; try done; [by rewrite Hd|lia]. Qed.

(** An auth pin is dropped, and it is not the last that kept the fragment from freezing. *)
Lemma unpin_stalls w d i :
  backed d i -> pins_ok w d -> 2 < auth_pins (pinned d) -> 0 <= nested_auth_pins (pinned d) ->
  let d' := set_pinned (MkAuths (auth_pins (pinned d) - 1) (nested_auth_pins (pinned d)) (dir_auth_pins (pinned d))) d in
  auth_unpin d i = Some (d', i) /\ pins_ok w d' /\ moved d i d' i.
Proof.
  intros Hb Hp Ha Hn d1.
  assert (H1 : pins_ok w d1).
  { apply (pins_same w d); [done..|]. intros p. unfold expected. cbn -[b2z Z.eqb]. rewrite !(proj2 (Z.ltb_lt 0 _)) by lia. done. }
  assert (M1 : moved d i d1 i).
  { apply moved_same; [apply Hb|done| |done]. unfold nl, get_cum_auth_pins.
    cbn [d1 pinned set_pinned auth_pins nested_auth_pins]. rewrite !(proj2 (Z.ltb_lt 0 _)) by lia. done. }
  split_and!; [|done..]. unfold auth_unpin. remember 1%nat as one. cbn [auth_unpin_n]. fold d1.
  change (auth_pins (pinned d1)) with (auth_pins (pinned d) - 1). rewrite (proj2 (Z.eqb_neq _ _)) by lia. obind.
  change (auth_pins (pinned d1)) with (auth_pins (pinned d) - 1). rewrite (proj2 (Z.leb_le _ _)) by lia. unfold maybe_finish_freeze_with.
  change (auth_pins (pinned d1)) with (auth_pins (pinned d) - 1). rewrite (proj2 (Z.eqb_neq (_ - 1) 1)) by lia. cbn [negb orb]. obind.
  assert (En : get_cum_auth_pins d1 =? 0 = false) by (unfold get_cum_auth_pins; cbn; lia). by rewrite En, andb_false_r.
Qed.

Lemma mark_busy o d ps i :
  busy o d -> backed (freezing_form ps d) i -> pins_ok false (freezing_form ps d) ->
  mark_one (freezing_form ps d) i = Some (stalled ps (waits_ d) d, i) /\ pins_ok false (stalled ps (waits_ d) d) /\
    moved (freezing_form ps d) i (stalled ps (waits_ d) d) i.
Proof.
  intros Hbu Hb Hp. destruct (busy_flags o d Hbu) as (_ & _ & _ & Hn & _). pose proof (bu_own _ _ Hbu) as Ha. pose proof (bu_quiet _ _ Hbu) as Hq.
  destruct (q_idle _ _ Hq) as (_ & Hdn & _). change (state_test (let_go d)) with (state_test d) in Hdn.
  set (d1 := freezing_form ps d) in *. unfold mark_one.
  assert (E1 : state_test d1 STATE_DNPINNEDFRAG = false).
  { unfold STATE_DNPINNEDFRAG in *. unfold d1. rewrite state_test_bit in Hdn |- * by lia. unfold freezing_form, STATE_FRAGMENTING, STATE_FREEZINGDIR.
    cbn [state set_state]. by rewrite !bit_set, Hdn by lia. }
  rewrite E1. cbn [negb]. change (items (holds d1)) with (items (holds d)).
  destruct (mark_all _ (q_unmarked _ _ Hq)) as [Em _]. change (items (holds (let_go d))) with (items (holds d)) in Em. rewrite Em. obind.
  destruct (remarked_step false (map marked (items (holds d))) d1 i) as (H2 & M2 & B2); [apply remarked_marked|done..|].
  set (d2 := set_items _ d1) in *.
  destruct (bits_step false (Z.lor (state d2) STATE_DNPINNEDFRAG) d2 i) as (H3 & M3 & B3);
    [by apply set_same_bits; [|apply not_counted]|done..|]. set (d3 := set_state _ d2) in *.
  change (state_set STATE_DNPINNEDFRAG d2) with d3.
  destruct (unpin_stalls false d3 i B3 H3) as (-> & H4 & M4); [cbn; lia|done|].
  assert (Ed : set_pinned (MkAuths (auth_pins (pinned d3) - 1) (nested_auth_pins (pinned d3)) (dir_auth_pins (pinned d3))) d3 =
    stalled ps (waits_ d) d).
  { change (auth_pins (pinned d3)) with (auth_pins (pinned d) + 2). unfold stalled.
    replace (auth_pins (pinned d) + 2 - 1) with (auth_pins (pinned d) + 1) by lia. reflexivity. }
  rewrite Ed in *. split_and!; [done..|]. eapply moved_trans; [exact M2|]. eapply moved_trans; [exact M3|exact M4].
Qed.

Lemma insert_some l w : some (waiting_insert l w) = true.
Proof. destruct l as [|x l]; [done|]. cbn. by destruct (_ <? _). Qed.

(** Who waits until the fragment is frozen is woken when it is. *)
Lemma left_insert l sub : left_waiting WAIT_FROZEN (waiting_insert l (MkWaiter WAIT_FROZEN 0 sub)) = left_waiting WAIT_FROZEN l.
Proof.
  induction l as [|x l IH]; [done|]. cbn [waiting_insert]. destruct (_ <? _); [done|]. unfold left_waiting in *. cbn [List.filter]. by rewrite IH.
Qed.

Lemma add_frozen_waiter w sub d i :
  backed d i -> pins_ok w d ->
  exists ps i', add_waiter WAIT_FROZEN sub d i = Some (set_waits (waits_frozen sub d) (set_pins ps d), i') /\
    pins_ok w (set_waits (waits_frozen sub d) (set_pins ps d)) /\ moved d i (set_waits (waits_frozen sub d) (set_pins ps d)) i'.
Proof.
  intros Hb Hp. unfold add_waiter. assert (Ew : (Z.land WAIT_FROZEN WAIT_CREATED =? 0) = true) by (by vm_compute). rewrite Ew. cbn [orb].
  set (d1 := set_waits (waits_frozen sub d) d). assert (M1 : moved d i d1 i) by (apply moved_same; [apply Hb|done..]).
  destruct (waiting (waits_ d)) as [|x l] eqn:El.
  - destruct (get_step w d d1 PIN_WAITER i) as (ps & i1 & Eg & H1 & M2); [apply Hb|done|done|is_pin| |].
    { intros p. unfold bump, expected. cbn -[b2z Z.eqb some state_test]. rewrite insert_some, El. pin_split p; done. }
    exists ps, i1. split_and!; [|exact H1|eapply moved_trans; [exact M1|exact M2]]. unfold get in *. cbn [pin_get] in *. injection Eg as E1 E2. rewrite E2.
    change (pins d1) with (pins d) in E1. do 2 f_equal. unfold d1, waits_frozen, set_waits, set_pins. cbn. rewrite El. by rewrite E1.
  - exists (pins d), i. split_and!.
    + unfold waits_frozen. rewrite El. by destruct d.
    + apply (pins_same w d); [done..|]. intros p. unfold expected. cbn -[b2z Z.eqb some state_test]. by rewrite insert_some, El.
    + apply moved_same; [apply Hb|done..].
Qed.

(** ** In the directory *)

(** A step on one fragment. *)
Lemma store_ok k s fg d d' i' :
  dir_ok k s -> get_dirfrag fg s = Some d -> dfrag d' = dfrag d -> moved d (ino s) d' i' ->
  let s' := store d' i' s in dir_ok k s' /\ same_inode s s' /\
    forall x, get_dirfrag x s' = if x =? fg then Some d' else get_dirfrag x s.
Proof.
  intros Hk Hd Ef Hm s'. pose proof (so_frag _ _ (do_sok _ _ Hk) _ _ Hd) as Efg. rewrite Efg in Ef.
  assert (Hg : forall x, get_dirfrag x s' = if x =? fg then Some d' else get_dirfrag x s) by (intros x; unfold s'; by rewrite get_store, Ef).
  assert (Hs : same_inode s s') by (split; try done; apply Hm). split_and!; [|done..].
  apply (dir_ok_same k s); [done|exact (sok_store k s fg d d' i' (do_sok _ _ Hk) Hd Ef Hm)|done|]. intros x Hx. rewrite Hg in Hx.
  destruct (Z.eqb_spec x fg) as [E|]; [|done]. by rewrite E, Hd.
Qed.

(** The steps of a request that waits for its one fragment. *)
Lemma begin_steps o lk now mem sub fg mdr nb d p1 i1 p2 i2 p3 i3 c :
  let s1 := store (freezing_form p1 d) i1 (dir c) in let s2 := store (stalled p2 (waits_ d) d) i2 s1 in
  let e := stalled p3 (waits_frozen sub d) d in
  get_dirfrag fg (dir c) = Some d -> get_dirfrag fg s1 = Some (freezing_form p1 d) -> get_dirfrag fg s2 = Some (stalled p2 (waits_ d) d) ->
  freeze_one o d (ino (dir c)) = Some (freezing_form p1 d, i1) -> mark_one (freezing_form p1 d) (ino s1) = Some (stalled p2 (waits_ d) d, i2) ->
  add_waiter WAIT_FROZEN sub (stalled p2 (waits_ d) d) (ino s2) = Some (e, i3) ->
  quiet o (let_go d) -> (fg = root -> state_test d STATE_CREATING = false /\ is_new o root = false) -> map_find (fragments c) fg = None ->
  begin_fragment o lk now mem sub fg mdr nb [fg] c =
    Some (MkCache (store e i3 s2) (map_set (fragments c) fg (MkInfo nb [fg] [] mdr false now 0 0)) (uncommitted_fragments c)
      (effects c ++ [FlushLog])).
Proof.
  intros s1 s2 e Hd H1 H2 E1 E2 E3 Hq Hr Hno. unfold begin_fragment. rewrite bool_decide_eq_false_2 by (rewrite Hno; by intros []). cbn [negb].
  set (info := MkInfo nb [fg] [] mdr false now 0 0). unfold fragment_freeze_dirs. cbn [dir set_fragments on_frags]. unfold on_frag at 1.
  rewrite Hd. obind. rewrite E1. obind. fold s1. unfold fragment_mark_and_complete.
  assert (Ef : find_request fg mdr (set_dir s1 (set_fragments (map_set (fragments c) fg info) c)) = Some info).
  { unfold find_request. cbn. by rewrite map_find_set_any, !Z.eqb_refl. }
  rewrite Ef. cbn [f_dirs info dir set_dir emit mark_pass].
  assert (Ec : is_complete (freezing_form p1 d) = true).
  { unfold is_complete, STATE_COMPLETE. rewrite freezing_bit by lia. apply (q_complete _ _ Hq). }
  assert (Er : (fg =? root) && state_test (freezing_form p1 d) STATE_CREATING = false /\ (fg =? root) && is_new o fg = false).
  { destruct (Z.eqb_spec fg root) as [E|]; [|done]. destruct (Hr E) as [Hc Hw]. unfold STATE_CREATING in *.
    rewrite freezing_bit by lia. by rewrite Hc, E, Hw. }
  assert (Es : mark_step o sub fg s1 = Some (s2, [], false)).
  { destruct Er as [Er1 Er2]. unfold mark_step. rewrite H1. obind. rewrite Ec, Er1, Er2. cbn [negb]. unfold on_frag. rewrite H1. obind.
    by rewrite E2. }
  rewrite Es. obind. cbn [dir emit set_dir wait_frozen app orb]. rewrite H2. obind.
  assert (Ez : is_frozen_dir (stalled p2 (waits_ d) d) = false /\ is_freezing_dir (stalled p2 (waits_ d) d) = true).
  { unfold is_frozen_dir, is_freezing_dir, STATE_FROZENDIR, STATE_FREEZINGDIR. rewrite !stalled_test by lia.
    pose proof (quiet_flags _ _ Hq) as (Hz & _). unfold is_frozen_dir, STATE_FROZENDIR in Hz.
    change (state_test (let_go d)) with (state_test d) in Hz. rewrite Hz. cbn. by rewrite orb_true_r. }
  destruct Ez as [-> ->]. rewrite E3. obind. unfold emit. cbn. by rewrite app_nil_r.
Qed.

(** The request waits. *)
Lemma begin_stalls o lk now mem sub fg mdr nb k d c :
  dir_ok k (dir c) -> get_dirfrag fg (dir c) = Some d -> busy o d -> ripe o d -> map_find (fragments c) fg = None ->
  exists s1 ps, let e := stalled ps (waits_frozen sub d) d in
    begin_fragment o lk now mem sub fg mdr nb [fg] c =
      Some (MkCache s1 (map_set (fragments c) fg (MkInfo nb [fg] [] mdr false now 0 0)) (uncommitted_fragments c) (effects c ++ [FlushLog])) /\
    dir_ok k s1 /\ same_inode (dir c) s1 /\ pins_ok false e /\
    forall x, get_dirfrag x s1 = if x =? fg then Some e else get_dirfrag x (dir c).
Proof.
  intros Hk Hd Hbu Hr Hno. pose proof (so_frag _ _ (do_sok _ _ Hk) _ _ Hd) as Ef. pose proof (sok_backed _ _ _ _ (do_sok _ _ Hk) Hd) as Hb.
  destruct (busy_flags o d Hbu) as (Hz & _ & _ & Hn & Hf & Hg). pose proof (bu_own _ _ Hbu) as Ha.
  destruct (freeze_one_ok o d (ino (dir c)) Hb (bu_pins _ _ Hbu) Hf Hg ltac:(lia) Hn) as (p1 & i1 & E1 & H1 & M1). cbn zeta in *.
  fold (freezing_form p1 d) in E1, H1, M1. destruct (store_ok k (dir c) fg d (freezing_form p1 d) i1 Hk Hd eq_refl M1) as (K1 & S1 & G1).
  set (s1 := store (freezing_form p1 d) i1 (dir c)) in *. assert (Hd1 : get_dirfrag fg s1 = Some (freezing_form p1 d)) by (by rewrite G1, Z.eqb_refl).
  destruct (mark_busy o d p1 (ino s1) Hbu (sok_backed _ _ _ _ (do_sok _ _ K1) Hd1) H1) as (E2 & H2 & M2).
  destruct (store_ok k s1 fg _ (stalled p1 (waits_ d) d) (ino s1) K1 Hd1 eq_refl M2) as (K2 & S2 & G2).
  set (s2 := store (stalled p1 (waits_ d) d) (ino s1) s1) in *. assert (Hd2 : get_dirfrag fg s2 = Some (stalled p1 (waits_ d) d)) by (by rewrite G2, Z.eqb_refl).
  destruct (add_frozen_waiter false sub (stalled p1 (waits_ d) d) (ino s2) (sok_backed _ _ _ _ (do_sok _ _ K2) Hd2) H2) as (p3 & i3 & E3 & H3 & M3).
  change (set_waits (waits_frozen sub (stalled p1 (waits_ d) d)) (set_pins p3 (stalled p1 (waits_ d) d))) with (stalled p3 (waits_frozen sub d) d) in *.
  destruct (store_ok k s2 fg _ (stalled p3 (waits_frozen sub d) d) i3 K2 Hd2 eq_refl M3) as (K3 & S3 & G3).
  exists (store (stalled p3 (waits_frozen sub d) d) i3 s2), p3. cbn zeta. split_and!; [|done| |done|].
  - apply (begin_steps o lk now mem sub fg mdr nb d p1 i1 p1 (ino s1) p3 i3 c); try done; [apply Hbu|].
    intros ->. by apply Hr.
  - eapply same_trans; [exact S1|]. eapply same_trans; [exact S2|exact S3].
  - intros x. rewrite G3, G2, G1. by destruct (x =? fg).
Qed.
(** ** The last auth pin is dropped *)

Lemma unpin_last o sub ps d i :
  busy o d -> auth_pins (pinned d) = 1 -> let e := stalled ps (waits_frozen sub d) d in backed e i -> pins_ok false e ->
  exists ps' i', auth_unpin e i = Some (held ps' (let_go d), i') /\ pins_ok false (held ps' (let_go d)) /\ moved e i (held ps' (let_go d)) i'.
Proof.
  intros Hbu Ha e Hb Hp. destruct (busy_flags o d Hbu) as (Hz & Hg & [_ Ht] & Hn & _).
  destruct (unpin_freezes false e i Hb Hp) as (p1 & i1 & E & H1 & M1).
  { unfold e, STATE_FREEZINGDIR. rewrite stalled_test by lia. cbn. by rewrite orb_true_r. }
  { unfold e, STATE_FREEZINGTREE in *. rewrite stalled_test by lia. by rewrite Ht. }
  { unfold e, is_frozen_dir, STATE_FROZENDIR in *. rewrite stalled_test by lia. by rewrite Hz. }
  { cbn. by rewrite Ha. }
  { done. }
  { apply (bu_dir _ _ Hbu). }
  cbn zeta in *. exists p1, i1. match type of H1 with pins_ok _ ?x => set (d1 := x) in * end.
  assert (Ed : d1 = held p1 (let_go d)); [|by rewrite <- Ed].
  assert (Es : state d1 = held_state (let_go d)).
  { apply Z.bits_inj'. intros k Hk. rewrite held_bit by done. unfold is_freezing_dir, STATE_FREEZINGDIR in Hg.
    rewrite state_test_bit in Hg by lia. unfold d1, STATE_FROZENDIR, STATE_FREEZINGDIR. cbn [state set_state set_waits set_pinned set_pins].
    rewrite bit_set, bit_clear by lia. change (state e) with (stalled_state d). rewrite stalled_bit by done.
    change (state (let_go d)) with (state d). destruct (Z.eqb_spec 5 k); [subst; rewrite Hg|]; cbn; rewrite ?andb_true_r, ?orb_false_r; done. }
  unfold held. rewrite <- Es.
  assert (Ew : waits_ d1 = held_waits (let_go d)).
  { unfold d1, held_waits. cbn. f_equal. apply left_insert. }
  rewrite <- Ew. reflexivity.
Qed.

(** ** Who waits is woken *)

(** What is queued is only added to. *)
Definition grows (i i' : inode) : Prop := exists new, calls i' = calls i ++ new.

Lemma grows_refl i : grows i i.
Proof. exists []. by rewrite app_nil_r. Qed.
Lemma grows_trans i1 i2 i3 : grows i1 i2 -> grows i2 i3 -> grows i1 i3.
Proof. intros [a Ea] [b Eb]. exists (a ++ b). by rewrite Eb, Ea, app_assoc. Qed.
Lemma grows_parent x i : grows i (parent_call x i).
Proof. unfold parent_call. destruct (i_parent (env i)); [by exists [x]|apply grows_refl]. Qed.
Lemma grows_i_get p i : grows i (i_get p i).
Proof.
  unfold i_get. destruct (pin_get p (i_pins i)) as [q b]. destruct b; [|by exists []; rewrite app_nil_r].
  destruct (grows_parent ParentGet i) as [l E]. by exists l.
Qed.
Lemma grows_i_put p i i' : i_put p i = Some i' -> grows i i'.
Proof.
  unfold i_put. destruct (pin_put p (i_pins i)) as [[q b]|]; obind; [|done]. intros [= <-].
  set (j := if b then parent_call ParentPut i else i).
  assert (grows i j) as [l E] by (subst j; destruct b; [apply grows_parent|apply grows_refl]).
  destruct (_ && _); [exists (l ++ [EvalStray])|exists l]; cbn; by rewrite E, ?app_assoc.
Qed.
Lemma grows_i_auth_pin i : grows i (i_auth_pin i).
Proof.
  unfold i_auth_pin. set (j := if i_auth_pins i =? 0 then i_get PIN_AUTHPIN i else i).
  assert (grows i j) by (subst j; destruct (_ =? 0); [apply grows_i_get|apply grows_refl]).
  eapply grows_trans; [eassumption|]. exact (grows_parent _ (set_i_auths (i_auth_pins j + 1) (i_nested_auth_pins j) j)).
Qed.
Lemma grows_adjust a i i' : i_adjust_nested_auth_pins a i = Some i' -> grows i i'.
Proof.
  unfold i_adjust_nested_auth_pins. destruct (negb _); [|done]. destruct (0 <=? _); [|done]. intros [= <-].
  apply (grows_parent _ (set_i_auths (i_auth_pins i) (i_nested_auth_pins i + a) i)).
Qed.
Lemma grows_put p d i d' i' : put p d i = Some (d', i') -> grows i i' /\ waits_ d' = waits_ d /\ pinned d' = pinned d.
Proof.
  unfold put. destruct (pin_put p (pins d)) as [[q b]|]; obind; [|done]. destruct b; obind.
  - destruct (i_put PIN_DIRFRAG i) as [j|] eqn:E; [|done]. intros [= <- <-]. split_and!; [by eapply grows_i_put|done..].
  - intros [= <- <-]. split_and!; [apply grows_refl|done..].
Qed.
Lemma grows_freeze d i :
  grows i (_freeze_dir d i).2 /\ waits_ (_freeze_dir d i).1 = waits_ d /\ pinned (_freeze_dir d i).1 = pinned d.
Proof.
  unfold _freeze_dir, get. destruct (pin_get _ _) as [q b]. cbn [fst snd]. split_and!; [|done..].
  eapply grows_trans; [|destruct (_ && _); [apply grows_i_auth_pin|apply grows_refl]].
  destruct b; [apply grows_i_get|apply grows_refl].
Qed.

(** The context [sub] is queued on the way from [i] to [i']. *)
Definition wakes (sub : context) (i i' : inode) : Prop :=
  exists new l, calls i' = calls i ++ new /\ QueueWaiters l ∈ new /\ sub ∈ l.

Lemma wakes_after sub i1 i2 i3 : grows i1 i2 -> wakes sub i2 i3 -> wakes sub i1 i3.
Proof.
  intros [a Ea] (new & l & E & Hl & Hs). exists (a ++ new), l. rewrite E, Ea, app_assoc. split_and!; [done| |done].
  apply elem_of_app. by right.
Qed.
Lemma wakes_before sub i1 i2 i3 : wakes sub i1 i2 -> grows i2 i3 -> wakes sub i1 i3.
Proof.
  intros (new & l & E & Hl & Hs) [a Ea]. exists (new ++ a), l. rewrite Ea, E, app_assoc. split_and!; [done| |done].
  apply elem_of_app. by left.
Qed.

Lemma taken_insert l sub : sub ∈ taken WAIT_FROZEN (waiting_insert l (MkWaiter WAIT_FROZEN 0 sub)).
Proof.
  unfold taken. apply elem_of_app. left. apply list_elem_of_fmap. exists (MkWaiter WAIT_FROZEN 0 sub). split; [done|].
  apply list_elem_of_In, filter_In. split; [|done]. apply filter_In. split; [|done].
  induction l as [|x l IH]; [by left|]. cbn [waiting_insert]. destruct (_ <? _); [by left|by right].
Qed.

Lemma finish_wakes sub l d i d' i' :
  waiting (waits_ d) = waiting_insert l (MkWaiter WAIT_FROZEN 0 sub) ->
  finish_waiting WAIT_FROZEN 0 d i = Some (d', i') -> wakes sub i i'.
Proof.
  intros Hw. unfold finish_waiting.
  assert (E : take_waiting WAIT_FROZEN [] d i = take_waiting_base WAIT_FROZEN [] d i)
    by (unfold take_waiting; by destruct (waiting_on_dentry _)).
  rewrite E. clear E. unfold take_waiting_base. rewrite Hw. pose proof (insert_some l (MkWaiter WAIT_FROZEN 0 sub)) as Hs.
  pose proof (taken_insert l sub) as Hin. destruct (waiting_insert l (MkWaiter WAIT_FROZEN 0 sub)) as [|x k]; [done|].
  set (rest := left_waiting _ _). set (d1 := set_waits _ d).
  destruct (match rest with [] => put PIN_WAITER d1 i | _ :: _ => Some (d1, i) end) as [[d2 i2]|] eqn:E; [|done]. obind.
  intros [= <- <-]. eapply (wakes_after _ _ i2).
  - destruct rest; [by apply grows_put in E as [? _]|]. injection E as <- <-. apply grows_refl.
  - eexists _, _. split; [done|]. split; [by left|]. cbn. done.
Qed.

Lemma grows_unpin w i i' : (if w : bool then i_adjust_nested_auth_pins (-1) i else Some i) = Some i' -> grows i i'.
Proof. destruct w; [apply grows_adjust|intros [= <-]; apply grows_refl]. Qed.

(** The auth pin that froze it is dropped. *)
Lemma inner_unpin d i d' i' :
  auth_pins (pinned d) = 1 -> auth_unpin_n 1 d i = Some (d', i') -> grows i i' /\ waits_ d' = waits_ d.
Proof.
  intros Ha. remember 0%nat as zero. cbn [auth_unpin_n]. set (d1 := set_pinned _ d).
  assert (E : auth_pins (pinned d1) = 0) by (cbn; lia). rewrite E. cbn [Z.eqb].
  destruct (put PIN_AUTHPIN d1 i) as [[d2 i2]|] eqn:Ep; obind; [|done].
  apply grows_put in Ep as (G & W & P). rewrite P, E. cbn [Z.leb Z.compare]. unfold maybe_finish_freeze_with.
  rewrite P, E. cbn [Z.eqb negb orb]. obind.
  destruct (if negb (is_subtree_root d2) && _ then _ else _) as [i3|] eqn:Ei; obind; [|done].
  intros [= <- <-]. apply grows_unpin in Ei. split; [by eapply grows_trans|done].
Qed.

Lemma unpin_wakes sub l d i d' i' :
  waiting (waits_ d) = waiting_insert l (MkWaiter WAIT_FROZEN 0 sub) ->
  auth_pins (pinned d) = 2 -> dir_auth_pins (pinned d) = 0 -> state_test d STATE_FREEZINGDIR = true ->
  auth_unpin d i = Some (d', i') -> wakes sub i i'.
Proof.
  intros Hw Ha Hd Hf. unfold auth_unpin. remember 1%nat as one. cbn [auth_unpin_n]. set (d1 := set_pinned _ d).
  assert (E : auth_pins (pinned d1) = 1) by (cbn; lia). rewrite E. cbn [Z.eqb]. obind. rewrite E. cbn [Z.leb Z.compare].
  unfold maybe_finish_freeze_with. rewrite E. change (dir_auth_pins (pinned d1)) with (dir_auth_pins (pinned d)).
  rewrite Hd. cbn [Z.eqb Pos.eqb negb orb].
  change (state_test d1 STATE_FREEZINGDIR) with (state_test d STATE_FREEZINGDIR). rewrite Hf.
  pose proof (grows_freeze d1 i) as (G1 & W1 & P1). destruct (_freeze_dir d1 i) as [d2 i2]. cbn [fst snd] in *.
  destruct (auth_unpin_n one d2 i2) as [[d3 i3]|] eqn:Eu; obind; [|done]. subst one.
  apply inner_unpin in Eu as [G2 W2]; [|by rewrite P1].
  destruct (finish_waiting WAIT_FROZEN 0 d3 i3) as [[d4 i4]|] eqn:Ef; obind; [|done].
  apply (finish_wakes sub l) in Ef; [|by rewrite W2, W1].
  intros H4. assert (exists d5, (if negb (is_subtree_root d5) && (get_cum_auth_pins d1 =? 0)
    then i_adjust_nested_auth_pins (-1) i4 else Some i4) = Some i') as [d5 Ei].
  { destruct (negb (_ =? 0)); [|destruct (state_test d4 STATE_FREEZINGTREE)]; cbn [mbind option_bind] in H4; try done;
      exists d4; (destruct (if _ && _ then _ else _); [by injection H4 as _ ->|done]). }
  apply grows_unpin in Ei. eapply wakes_before; [|exact Ei]. eapply wakes_after; [|exact Ef]. by eapply grows_trans.
Qed.

Lemma split_dir_busy o lk now mem sub fg nb mdr d c :
  get_dirfrag fg (dir c) = Some d -> busy o d -> allowed o -> ceph_frag_bits fg + nb <= 24 ->
  split_dir o lk now mem sub fg nb mdr c = begin_fragment o lk now mem sub fg mdr nb [fg] c.
Proof.
  intros Hd Hbu Ha Hb. pose proof (bu_quiet _ _ Hbu) as Hq. unfold split_dir. rewrite Hd. obind.
  assert (Ea : is_auth d = true) by apply (q_auth _ _ Hq). rewrite Ea.
  assert (Ec : can_fragment o [d] = true) by (apply (can_fragment_quiet o [let_go d] Ha); by constructor). rewrite Ec.
  cbn [negb]. by rewrite (proj2 (Z.ltb_ge _ _)).
Qed.

(** What is so of [let_go d] and of [d]. *)
Lemma split_let_go o k fg nb d s s' : split_by_request o k fg nb (let_go d) s s' -> split_by_request o k fg nb d s s'.
Proof.
  intros [H1 H2 H3 H4 H5 H6]. split; try done. intros p Hp. destruct (H4 p Hp) as (f & Ef & []). exists f. split; [done|]. by split.
Qed.

(** ** The auth pins are dropped one after the other *)

Fixpoint drops (n : nat) (fg : Z) s : option diri :=
  match n with O => Some s | S n => s ← on_frag auth_unpin fg s; drops n fg s end.

(** The fragment with [a] auth pins of its own. *)
Definition with_pins (a : Z) d : cdir :=
  set_pinned (MkAuths a (nested_auth_pins (pinned d)) (dir_auth_pins (pinned d))) d.

Lemma with_own d : with_pins (auth_pins (pinned d)) d = d.
Proof. by destruct d as [? ? ? ? [] ? ? ? ? ? ? ? ? ?]. Qed.

Lemma busy_with o a d : busy o d -> 0 < a -> busy o (with_pins a d).
Proof.
  intros [B1 B2 B3 B4] Ha. split; [exact B1| |done|done].
  apply (pins_same false d); [done..|]. intros p. unfold expected. cbn -[b2z Z.eqb].
  by rewrite !(proj2 (Z.ltb_lt 0 _)) by lia.
Qed.

(** All but the last leave it waiting, and queue nothing. *)
Lemma drops_stalled o k sub fg ps n : forall d s,
  busy o d -> auth_pins (pinned d) = Z.of_nat (S n) -> dir_ok k s ->
  get_dirfrag fg s = Some (stalled ps (waits_frozen sub d) d) -> pins_ok false (stalled ps (waits_frozen sub d) d) ->
  exists s', let e := stalled ps (waits_frozen sub d) (with_pins 1 d) in
    drops n fg s = Some s' /\ dir_ok k s' /\ same_inode s s' /\ calls (ino s') = calls (ino s) /\
    pins_ok false e /\ forall x, get_dirfrag x s' = if x =? fg then Some e else get_dirfrag x s.
Proof.
  induction n as [|n IH]; intros d s Hbu Ha Hk Hd Hp.
  { exists s. cbn zeta. change 1 with (Z.of_nat 1). rewrite <- Ha, with_own. split_and!; try done.
    intros x. by destruct (Z.eqb_spec x fg) as [->|]. }
  destruct (busy_flags o d Hbu) as (_ & _ & _ & Hn & _). set (e := stalled ps (waits_frozen sub d) d) in *.
  destruct (unpin_stalls false e (ino s) (sok_backed _ _ _ _ (do_sok _ _ Hk) Hd) Hp) as (Eu & Hp1 & M1); [cbn; lia|done|].
  set (d1 := with_pins (auth_pins (pinned d) - 1) d).
  assert (Ed : set_pinned (MkAuths (auth_pins (pinned e) - 1) (nested_auth_pins (pinned e)) (dir_auth_pins (pinned e))) e =
    stalled ps (waits_frozen sub d1) d1).
  { change (auth_pins (pinned e)) with (auth_pins (pinned d) + 1). unfold stalled, d1. cbn [pinned with_pins set_pinned auth_pins].
    by replace (auth_pins (pinned d) + 1 - 1) with (auth_pins (pinned d) - 1 + 1) by lia. }
  cbn zeta in Eu, Hp1, M1. rewrite Ed in Eu, Hp1, M1.
  destruct (store_ok k s fg e (stalled ps (waits_frozen sub d1) d1) (ino s) Hk Hd eq_refl M1) as (Hk1 & S1 & G1).
  destruct (IH d1 (store (stalled ps (waits_frozen sub d1) d1) (ino s) s)) as (s' & E' & Hk' & S' & C' & P' & G');
    [by apply busy_with; [|lia]|cbn; lia|done|by rewrite G1, Z.eqb_refl|done|].
  exists s'. cbn zeta in *. split_and!; [|done| |done|done|].
  - cbn [drops]. unfold on_frag. rewrite Hd. obind. by rewrite Eu.
  - by eapply same_trans.
  - intros x. rewrite G'. destruct (Z.eqb_spec x fg) as [->|Hx]; [done|]. by rewrite G1, (proj2 (Z.eqb_neq _ _)).
Qed.

(** What a request that waits comes to: [c1] while it waits, [s1] with one auth
    pin left, [s2] with none, when its context is queued. *)
Lemma waited_ok o lk t now mem mem' sub fg nb mdr k n d c :
  dir_ok k (dir c) -> get_dirfrag fg (dir c) = Some d -> busy o d -> auth_pins (pinned d) = Z.of_nat (S n) -> placed (ino (dir c)) d ->
  state_test d STATE_STICKY = (0 <? stickydir_ref (dir c)) -> ripe o d -> allowed o -> 0 < nb -> ceph_frag_bits fg + nb <= 24 ->
  map_find (fragments c) fg = None -> map_find (uncommitted_fragments c) fg = None ->
  exists c1 s1 s2 c3 c5, split_dir o lk t mem sub fg nb mdr c = Some c1 /\ effects c1 = effects c ++ [FlushLog] /\
    drops n fg (dir c1) = Some s1 /\ calls (ino s1) = calls (ino (dir c1)) /\
    on_frag auth_unpin fg s1 = Some s2 /\ wakes sub (ino s1) (ino s2) /\
    fragment_frozen o Acquired now mem' fg mdr (set_dir s2 c1) = Some c3 /\
    carried_out o fg mdr (pieces fg nb) c3 c5 /\ same_requests c c5 /\ split_by_request o k fg nb d (dir c) (dir c5).
Proof.
  intros Hk Hd Hbu Ha Hpl Hst Hr Hal Hn Hb Hno Hun. rewrite (split_dir_busy o lk t mem sub fg nb mdr d) by done.
  destruct (begin_stalls o lk t mem sub fg mdr nb k d c Hk Hd Hbu Hr Hno) as (s0 & ps & -> & Hk0 & S0 & Hp0 & G0). cbn zeta in *.
  destruct (drops_stalled o k sub fg ps n d s0 Hbu Ha Hk0) as (s1 & E1 & Hk1 & S1 & C1 & Hp1 & G1); [by rewrite G0, Z.eqb_refl|done|].
  cbn zeta in *. set (d1 := with_pins 1 d) in *. assert (Hbu1 : busy o d1) by (by apply busy_with).
  change (waits_frozen sub d) with (waits_frozen sub d1) in *.
  assert (Hd1 : get_dirfrag fg s1 = Some (stalled ps (waits_frozen sub d1) d1)) by (by rewrite G1, Z.eqb_refl).
  destruct (unpin_last o sub ps d1 (ino s1) Hbu1 eq_refl (sok_backed _ _ _ _ (do_sok _ _ Hk1) Hd1) Hp1) as (p2 & i2 & E2 & Hp2 & M2).
  change (let_go d1) with (let_go d) in *.
  destruct (store_ok k s1 fg _ (held p2 (let_go d)) i2 Hk1 Hd1 eq_refl M2) as (Hk2 & S2 & G2).
  set (s2 := store (held p2 (let_go d)) i2 s1) in *.
  assert (Hs : seized o k fg (let_go d) (dir c) s2).
  { split; try done.
    - eapply same_trans; [exact S0|]. by eapply same_trans.
    - exists p2. by rewrite G2, Z.eqb_refl.
    - intros x Hx. by rewrite G2, G1, G0, (proj2 (Z.eqb_neq _ _)) by done.
    - split; [apply Hbu| |done]. destruct Hpl. by split. }
  destruct (split_dispatched o t now mem' fg nb mdr k (let_go d) (dir c) s2 (emit [FlushLog] c) Hs Hn Hb Hno Hun) as (c3 & c5 & E3 & R & Q & Sp).
  eexists _, s1, s2, c3, c5. split_and!; [done|done|exact E1|done| | | |done|done|by apply split_let_go].
  - unfold on_frag. rewrite Hd1. obind. by rewrite E2.
  - apply (unpin_wakes sub (waiting (waits_ d)) _ _ _ i2) in E2; [done|done|done|apply (bu_dir _ _ Hbu)|].
    unfold STATE_FREEZINGDIR. rewrite stalled_test by lia. cbn. by rewrite orb_true_r.
  - unfold fragment_frozen, find_request. cbn. rewrite map_find_set_any, !Z.eqb_refl. cbn. rewrite ?Z.eqb_refl. exact E3.
Qed.

(** ** The request is given up *)

(** The marks and the flags are undone. *)
Lemma unmarked_form o ps w d :
  busy o d ->
  let d1 := state_clear STATE_FRAGMENTING (stalled ps w d) in
  let d2 := set_items (items (holds d)) (state_clear STATE_DNPINNEDFRAG d1) in
  state_test (stalled ps w d) STATE_FRAGMENTING = true /\ state_test d1 STATE_DNPINNEDFRAG = true /\
  mapM unmark_dentry (items (holds d1)) = Some (items (holds d)) /\ state d2 = Z.lor (state d) STATE_FREEZINGDIR.
Proof.
  intros Hbu d1 d2. pose proof (bu_quiet _ _ Hbu) as Hq. destruct (q_idle _ _ Hq) as (Hf & Hdn & _).
  change (state_test (let_go d)) with (state_test d) in Hf, Hdn. unfold STATE_FRAGMENTING, STATE_DNPINNEDFRAG, STATE_FREEZINGDIR in *.
  split_and!.
  - rewrite stalled_test by lia. cbn. by rewrite orb_true_r.
  - rewrite state_test_bit by lia. unfold d1. cbn [state state_clear set_state]. rewrite bit_clear by lia.
    change (state (stalled ps w d)) with (stalled_state d). rewrite stalled_bit by lia. cbn. by rewrite orb_true_r.
  - change (items (holds d1)) with (map marked (items (holds d))). pose proof (q_unmarked _ _ Hq) as Hu.
    change (items (holds (let_go d))) with (items (holds d)) in Hu. destruct (mark_all _ Hu) as [_ Hm].
    destruct (unmark_all _ Hm) as [-> _]. by rewrite (cleared_marked _ Hu).
  - apply Z.bits_inj'. intros k Hk. unfold d2, d1. cbn [state set_items set_holds state_clear set_state].
    rewrite !bit_clear, bit_set by lia. change (state (stalled ps w d)) with (stalled_state d). rewrite stalled_bit by lia.
    rewrite state_test_bit in Hf, Hdn by lia. destruct (Z.eqb_spec 14 k); [subst; by rewrite Hf|].
    destruct (Z.eqb_spec 16 k); [subst; by rewrite Hdn|]. by rewrite !andb_true_r, !orb_false_r.
Qed.

(** A fragment that freezes is told not to. *)
Lemma unfreeze_freezing w d i :
  backed d i -> pins_ok w d -> is_frozen_dir d = false -> state_test d STATE_FREEZINGDIR = true -> state_test d STATE_FREEZINGTREE = false ->
  1 <= auth_pins (pinned d) -> 0 <= nested_auth_pins (pinned d) ->
  exists ps i', let d' := set_waits (MkWaits (waiting_on_dentry (waits_ d))
                            (left_waiting WAIT_UNFREEZE (left_waiting WAIT_FROZEN (waiting (waits_ d)))))
      (set_pinned (MkAuths (auth_pins (pinned d) - 1) (nested_auth_pins (pinned d)) (dir_auth_pins (pinned d)))
        (set_pins ps (state_clear STATE_FREEZINGDIR d))) in
    unfreeze_dir d i = Some (d', i') /\ pins_ok w d' /\ moved d i d' i'.
Proof.
  intros Hb Hp Hz Hg Ht Ha Hn. unfold unfreeze_dir. unfold is_frozen_dir in Hz. rewrite Hz.
  destruct (finish_waiting_ok w WAIT_FROZEN (-1) d i Hb Hp) as (p1 & i1 & -> & H1 & M1). obind. cbn zeta in *.
  set (d1 := set_waits _ _) in *. pose proof (moved_backed _ _ _ _ Hb M1) as B1.
  change (state_test d1 STATE_FREEZINGDIR) with (state_test d STATE_FREEZINGDIR). rewrite Hg.
  destruct (bits_step w (Z.ldiff (state d1) STATE_FREEZINGDIR) d1 i1) as (H2 & M2 & B2);
    [by apply clear_same_bits; [|apply not_counted]|done..|]. set (d2 := set_state _ d1) in *.
  change (state_clear STATE_FREEZINGDIR d1) with d2.
  assert (C2 : calm d2).
  { unfold calm, STATE_FREEZINGDIR, STATE_FREEZINGTREE in *. rewrite state_test_bit in Ht by lia.
    rewrite !state_test_bit by lia. unfold d2, STATE_FREEZINGDIR. cbn [state set_state]. rewrite !bit_clear by lia.
    change (state d1) with (state d). rewrite Ht. by rewrite andb_false_r. }
  destruct (auth_unpin_ok w d2 i1 B2 H2 C2 Ha Hn) as (p3 & i3 & -> & H3 & M3). obind. cbn zeta in *.
  set (d3 := set_pinned _ _) in *. pose proof (moved_backed _ _ _ _ B2 M3) as B3.
  destruct (finish_waiting_ok w WAIT_UNFREEZE 0 d3 i3 B3 H3) as (p4 & i4 & -> & H4 & M4). cbn zeta in *.
  exists p4, i4. split_and!; [done|exact H4|].
  eapply moved_trans; [exact M1|]. eapply moved_trans; [exact M2|]. eapply moved_trans; [exact M3|exact M4].
Qed.

Lemma unmark_stalled o sub ps d i :
  busy o d -> let e := stalled ps (waits_frozen sub d) d in backed e i -> pins_ok false e ->
  exists ps' i', unmark_one e i = Some (released ps' d, i') /\ pins_ok false (released ps' d) /\ moved e i (released ps' d) i'.
Proof.
  intros Hbu e Hb Hp. destruct (busy_flags o d Hbu) as (Hz & Hg & [_ Ht] & Hn & _). pose proof (bu_own _ _ Hbu) as Ha.
  destruct (unmarked_form o ps (waits_frozen sub d) d Hbu) as (E1 & E2 & E3 & E4). fold e in E1, E2, E3, E4. cbn zeta in *.
  unfold unmark_one. rewrite E1, E2, E3. obind.
  destruct (bits_step false (Z.ldiff (state e) STATE_FRAGMENTING) e i) as (H1 & M1 & B1);
    [by apply clear_same_bits; [|apply not_counted]|done..|].
  change (set_state (Z.ldiff (state e) STATE_FRAGMENTING) e) with (state_clear STATE_FRAGMENTING e) in *. set (e1 := state_clear STATE_FRAGMENTING e) in *.
  destruct (bits_step false (Z.ldiff (state e1) STATE_DNPINNEDFRAG) e1 i) as (H2 & M2 & B2);
    [by apply clear_same_bits; [|apply not_counted]|done..|].
  change (set_state (Z.ldiff (state e1) STATE_DNPINNEDFRAG) e1) with (state_clear STATE_DNPINNEDFRAG e1) in *. set (e2 := state_clear STATE_DNPINNEDFRAG e1) in *.
  destruct (remarked_step false (items (holds d)) e2 i) as (H3 & M3 & B3); [|done..|].
  { change (items (holds e2)) with (map marked (items (holds d))). pose proof (q_unmarked _ _ (bu_quiet _ _ Hbu)) as Hu.
    change (items (holds (let_go d))) with (items (holds d)) in Hu. rewrite <- (cleared_marked _ Hu) at 2. apply remarked_cleared. }
  set (e3 := set_items (items (holds d)) e2) in *.
  assert (Eb : forall k, 0 <= k -> state_test e3 (2 ^ k) = state_test d (2 ^ k) || (5 =? k)).
  { intros k Hk. rewrite !state_test_bit by done. rewrite E4. by apply bit_set. }
  destruct (unfreeze_freezing false e3 i B3 H3) as (p4 & i4 & -> & H4 & M4);
    [unfold is_frozen_dir, STATE_FROZENDIR, STATE_FREEZINGDIR, STATE_FREEZINGTREE in *; rewrite Eb by lia..|cbn; lia|done|].
  { by rewrite Hz. } { by rewrite orb_true_r. } { by rewrite Ht. }
  cbn zeta in *. exists p4, i4. match type of H4 with pins_ok _ ?x => set (e4 := x) in * end.
  assert (Ed : e4 = released p4 d).
  { assert (Es : Z.ldiff (state e3) STATE_FREEZINGDIR = state d).
    { rewrite E4. apply Z.bits_inj'. intros k Hk. unfold STATE_FREEZINGDIR. rewrite bit_clear, bit_set by lia.
      unfold is_freezing_dir, STATE_FREEZINGDIR in Hg. rewrite state_test_bit in Hg by lia.
      destruct (Z.eqb_spec 5 k); [subst; by rewrite Hg|by rewrite andb_true_r, orb_false_r]. }
    unfold e4. change (state_clear STATE_FREEZINGDIR e3) with (set_state (Z.ldiff (state e3) STATE_FREEZINGDIR) e3). rewrite Es.
    change (waiting (waits_ e3)) with (waiting_insert (waiting (waits_ d)) (MkWaiter WAIT_FROZEN 0 sub)). rewrite left_insert.
    change (auth_pins (pinned e3)) with (auth_pins (pinned d) + 1). replace (auth_pins (pinned d) + 1 - 1) with (auth_pins (pinned d)) by lia.
    unfold released. by destruct d as [? ? ? ? [] ? [] ? ? ? [] ? ? ?]. }
  rewrite <- Ed. split_and!; [done|exact H4|].
  eapply moved_trans; [exact M1|]. eapply moved_trans; [exact M2|]. eapply moved_trans; [exact M3|exact M4].
Qed.

Lemma stalled_total o sub ps d fg s :
  busy o d -> get_dirfrag fg s = Some (stalled ps (waits_frozen sub d) d) -> total_auth_pins [fg] 0 s = Some (auth_pins (pinned d) + 1).
Proof.
  intros Hbu Hd. destruct (busy_flags o d Hbu) as (Hz & _). cbn [total_auth_pins]. rewrite Hd. obind.
  unfold is_frozen_dir, STATE_DNPINNEDFRAG, STATE_FROZENDIR in *. rewrite !stalled_test, Hz by lia. cbn. rewrite orb_true_r. cbn.
  rewrite (bu_dir _ _ Hbu). f_equal. lia.
Qed.

(** A pass that sees how many auth pins there are. *)
Lemma stale_noted o sub ps d fg now cutoff pf info c :
  busy o d -> get_dirfrag fg (dir c) = Some (stalled ps (waits_frozen sub d) d) -> fragments c = [(fg, info)] ->
  f_dirs info = [fg] -> all_frozen info = false -> last_cum_auth_pins info = 0 ->
  find_stale_fragment_freeze now cutoff pf c = Some (set_fragments [(fg, MkInfo (f_bits info) [fg] (resultfrags info)
    (f_mdr info) false now (auth_pins (pinned d) + 1) (num_remote_waiters info))] c).
Proof.
  intros Hbu Hd Ef El Ea Ec. pose proof (bu_own _ _ Hbu) as Ho. unfold find_stale_fragment_freeze. rewrite Ef.
  cbn [map fst find_stale_loop]. unfold find_stale_one. rewrite Ef. cbn [map_find]. rewrite Z.eqb_refl. obind.
  rewrite Ea, El, (stalled_total o sub ps d) by done. obind. rewrite (proj2 (Z.ltb_ge _ _)), Ec by lia.
  rewrite (proj2 (Z.eqb_neq 0 _)) by lia. cbn [negb map_set]. obind. by rewrite Z.ltb_irrefl, Z.eqb_refl.
Qed.

(** A pass that sees as many as the last, long after. *)
Lemma stale_given_up o k sub ps d fg now cutoff pf info c :
  busy o d -> dir_ok k (dir c) -> let e := stalled ps (waits_frozen sub d) d in get_dirfrag fg (dir c) = Some e -> pins_ok false e ->
  fragments c = [(fg, info)] -> f_dirs info = [fg] -> all_frozen info = false ->
  last_cum_auth_pins info = auth_pins (pinned d) + 1 -> utime_lt (last_cum_auth_pins_change info) cutoff = true ->
  0 < num_remote_waiters info \/ pf = true ->
  exists s' ps', find_stale_fragment_freeze now cutoff pf c = Some (MkCache s' [] (uncommitted_fragments c) (effects c)) /\
    dir_ok k s' /\ same_inode (dir c) s' /\ pins_ok false (released ps' d) /\
    forall x, get_dirfrag x s' = if x =? fg then Some (released ps' d) else get_dirfrag x (dir c).
Proof.
  intros Hbu Hk e Hd Hp Ef El Ea Ec Et Hw. pose proof (bu_own _ _ Hbu) as Ho.
  destruct (unmark_stalled o sub ps d (ino (dir c)) Hbu (sok_backed _ _ _ _ (do_sok _ _ Hk) Hd) Hp) as (ps' & i' & Eu & Hp' & Hm). fold e in Eu, Hm.
  destruct (store_ok k (dir c) fg e (released ps' d) i' Hk Hd eq_refl Hm) as (Hk' & Hs & Hg).
  exists (store (released ps' d) i' (dir c)), ps'. split_and!; [|done..].
  unfold find_stale_fragment_freeze. rewrite Ef. cbn [map fst find_stale_loop]. unfold find_stale_one. rewrite Ef. cbn [map_find].
  rewrite Z.eqb_refl. obind. rewrite Ea, El, (stalled_total o sub ps d) by done. obind. rewrite (proj2 (Z.ltb_ge _ _)), Ec by lia.
  rewrite Z.eqb_refl, Et. cbn [negb].
  assert (Ew : (0 <? num_remote_waiters info) || pf = true) by (destruct Hw as [Hw| ->]; [by rewrite (proj2 (Z.ltb_lt _ _))|apply orb_true_r]).
  rewrite Ew. cbn [dir set_fragments]. unfold fragment_unmark_unfreeze_dirs. cbn [on_frags]. unfold on_frag. rewrite Hd. obind. rewrite Eu. obind.
  unfold set_dir. cbn. by rewrite Z.eqb_refl.
Qed.

Lemma stale_ok o lk t t1 t2 cut1 cut2 mem sub fg nb mdr k d c :
  dir_ok k (dir c) -> get_dirfrag fg (dir c) = Some d -> busy o d -> ripe o d -> allowed o -> ceph_frag_bits fg + nb <= 24 ->
  fragments c = [] -> utime_lt t1 cut2 = true ->
  exists c1 c2 c3 c4 ps, split_dir o lk t mem sub fg nb mdr c = Some c1 /\ fragment_freeze_inc_num_waiters fg c1 = Some c2 /\
    find_stale_fragment_freeze t1 cut1 false c2 = Some c3 /\ dir c3 = dir c1 /\
    find_stale_fragment_freeze t2 cut2 false c3 = Some c4 /\
    dir_ok k (dir c4) /\ same_inode (dir c) (dir c4) /\ pins_ok false (released ps d) /\
    (forall x, get_dirfrag x (dir c4) = if x =? fg then Some (released ps d) else get_dirfrag x (dir c)) /\
    fragments c4 = [] /\ uncommitted_fragments c4 = uncommitted_fragments c.
Proof.
  intros Hk Hd Hbu Hr Hal Hb Ef Et. rewrite (split_dir_busy o lk t mem sub fg nb mdr d) by done.
  destruct (begin_stalls o lk t mem sub fg mdr nb k d c Hk Hd Hbu Hr) as (s1 & ps & -> & Hk1 & S1 & Hp1 & G1); [by rewrite Ef|]. cbn zeta in *.
  rewrite Ef. cbn [map_set]. set (c1 := MkCache s1 _ _ _). assert (Hd1 : get_dirfrag fg s1 = Some (stalled ps (waits_frozen sub d) d)) by (by rewrite G1, Z.eqb_refl).
  pose proof (node_wf _ _ (wt_sane _ (do_tree _ _ Hk)) (proj1 (do_leaves _ _ Hk _ _ Hd))) as Wf.
  set (c2 := set_fragments [(fg, MkInfo nb [fg] [] mdr false t 0 1)] c1).
  assert (E2 : fragment_freeze_inc_num_waiters fg c1 = Some c2).
  { unfold fragment_freeze_inc_num_waiters, request_of. cbn [fragments c1 List.find fst].
    rewrite (proj2 (contains_frag_inside fg fg Wf) (inside_refl fg Wf)). obind. unfold set_fragments. cbn. by rewrite Z.ltb_irrefl, Z.eqb_refl. }
  assert (E3 := stale_noted o sub ps d fg t1 cut1 false (MkInfo nb [fg] [] mdr false t 0 1) c2 Hbu Hd1 eq_refl eq_refl eq_refl eq_refl).
  cbn [f_bits resultfrags f_mdr num_remote_waiters] in E3. set (c3 := set_fragments _ c2) in E3.
  destruct (stale_given_up o k sub ps d fg t2 cut2 false (MkInfo nb [fg] [] mdr false t1 (auth_pins (pinned d) + 1) 1) c3 Hbu Hk1 Hd1 Hp1
    eq_refl eq_refl eq_refl eq_refl Et ltac:(by left)) as (s4 & ps4 & E4 & Hk4 & S4 & Hp4 & G4).
  exists c1, c2, c3. eexists _, ps4. split_and!; [done..|exact E4|done| |done| |done|done].
  - by eapply same_trans.
  - intros x. cbn [dir]. rewrite G4. change (dir c3) with s1. rewrite G1. by destruct (x =? fg).
Qed.

End dir.
End FragmentWait.
