(* ===== verification/FragmentTheorems.v ===== *)
(** * Requests to split or merge fragments: what holds

    The theorems on [split_dir], [merge_dir] and the steps that follow them, put
    together from [FragmentRun], and a directory on which they are applied. *)

From Stdlib Require Import QArith.
From S2P Require Import Prelude Encoding Frag FragTree Double Load StrHash CacheDir CacheDirFacts DirSplit DirFragment DirMerge Refragment DirTheorems Fragmenting FragmentRun FragmentWait.
Import Encoding.
#[local] Open Scope Z_scope.

Module FragmentTheorems.
Import Frag FragTree FragFacts FragTreeFacts StrHash StrHashFacts CacheDir CacheDirFacts DirSplit DirFragment
  DirMerge Refragment RefragmentFacts DirTheorems Fragmenting FragmentingFacts FragmentRun FragmentWait.

Section dir.
Context {D} `{Double D}.
Abbreviation cdir := (CacheDir.cdir (D := D)).
Abbreviation diri := (CacheDir.diri (D := D)).
Abbreviation cache := (Fragmenting.cache (D := D)).
Implicit Types d f : cdir.
Implicit Types s : diri.
Implicit Types c : cache.
Implicit Types ds : list cdir.

(** A request to merge may follow. *)
Lemma split_mergeable o k fg nb d s s' :
  dir_ok k s -> get_dirfrag fg s = Some d -> 0 < nb -> ceph_frag_bits fg + nb <= 24 ->
  split_by_request o k fg nb d s s' -> mergeable o k fg s' /\ ready nb fg s'.
Proof.
  intros Hk Hd Hn Hb [Hk' Hl _ Hp _ _]. pose proof (do_tree _ _ Hk) as Ht. pose proof (do_leaves _ _ Hk _ _ Hd) as Lf.
  pose proof (node_wf _ _ (wt_sane _ Ht) (proj1 Lf)) as Wf.
  assert (Hr : ready nb fg s') by (eapply split_ready; try done; intros x Hx; apply Hl; by right).
  split; [|done]. split; try done.
  - destruct (pieces fg nb) as [|p ps] eqn:E; [by apply pieces_some in E|]. assert (Hpi : p ∈ pieces fg nb) by (rewrite E; by left).
    destruct (piece_wf _ _ _ _ Hr Hpi) as (_ & Hi & Hne). exists p. split_and!; [|done..]. apply Hl. right. by left.
  - intros x [[Lx Hne]|Hx]%Hl Hi; [by rewrite (leaf_minimal _ fg x Ht Lf (proj1 Lx) Hi) in Hne|].
    destruct (Hp x Hx) as (f & Ef & Sf). exists f. split_and!; [done|apply Sf|]. intros Er.
    rewrite (so_frag _ _ (do_sok _ _ Hk') _ _ Ef) in Er. destruct (piece_wf _ _ _ _ Hr Hx) as (Wx & Hix & Hne). subst x.
    destruct Hne. apply (inside_antisym root fg root_wf Wf); [by apply root_inside|done].
Qed.

(** The fragments below have together the dentries that there were. *)
Lemma pieces_together o k fg nb d s s' ds :
  dir_ok k s -> get_dirfrag fg s = Some d -> placed (ino s) d ->
  split_by_request o k fg nb d s s' -> ready nb fg s' -> all_under fg s' ds ->
  Forall (fun e => get_dirfrag (dfrag e) s' = Some e) ds -> all_items ds ≡ₚ items (holds d).
Proof.
  intros Hk Hd Hpl [Hk' Hl _ Hp _ (Ee & _)] Hr [Hnd Hu] Hds. pose proof (do_leaves _ _ Hk _ _ Hd) as Lf.
  assert (Hin : forall x, x ∈ map dfrag ds <-> x ∈ pieces fg nb).
  { intros x. rewrite Hu. split.
    - intros [[e Hx] Hi]. apply (do_leaves _ _ Hk'), Hl in Hx as [[Lx Hne]|Hx]; [|done].
      by rewrite (leaf_minimal _ fg x (do_tree _ _ Hk) Lf (proj1 Lx) Hi) in Hne.
    - intros Hx. destruct (Hp x Hx) as (f & Ef & _). destruct (piece_wf _ _ _ _ Hr Hx) as (_ & Hi & _). by rewrite Ef. }
  assert (E : all_items ds ≡ₚ concat (map (fun p => taken_by (ino s) p (items (holds d))) (map dfrag ds))).
  { assert (Hin' : forall x, x ∈ map dfrag ds -> x ∈ pieces fg nb) by (intros x; apply Hin). clear -Hds Hin' Hp. unfold all_items.
    induction Hds as [|e ds He _ IH]; [done|]. cbn [map concat] in *. rewrite IH by (intros x Hx; apply Hin'; by right).
    destruct (Hp (dfrag e)) as (f & Ef & Sf); [apply Hin'; by left|]. rewrite He in Ef. injection Ef as <-. by rewrite (sq_items _ _ _ _ _ _ _ Sf). }
  rewrite E. apply (partition_perm (fun p dn => holds_name (ino s) p (name dn))); [done|].
  intros dn Hdn. pose proof (so_frag _ _ (do_sok _ _ Hk) _ _ Hd) as Ef. pose proof (pl_items _ _ Hpl) as Hh. rewrite Forall_forall in Hh.
  specialize (Hh dn Hdn). cbn in Hh. rewrite Ef, <- (holds_env _ _ Ee) in Hh.
  destruct (piece_of k nb fg s' (name dn) Hk' Hr Hh) as (p & Hpi & Hun). exists p. rewrite Hin. split; [done|].
  intros p' Hp'%Hin. rewrite <- (holds_env _ _ Ee). by apply Hun.
Qed.

(** A request to merge what is below a fragment that is itself below a leaf passes
    all the tests, as there is nothing below it that is not in the cache; it then
    takes the first of no fragments.  The command [dirfrag merge] passes on any
    fragment that it is given. *)
Lemma merge_below_leaf o lk now mem sub fg x mdr k c :
  dir_ok k (dir c) -> wf_frag fg -> leaf (dirfragtree (dir c)) x -> inside x fg -> x <> fg -> allowed o ->
  merge_dir o lk now mem sub fg mdr c = None.
Proof.
  intros Hk Wf Lx Hi Hne (A1 & A2 & A3 & A4). pose proof (do_tree _ _ Hk) as Ht.
  pose proof (node_wf _ _ (wt_sane _ Ht) (proj1 Lx)) as Wx.
  assert (Hno : forall g, leaf (dirfragtree (dir c)) g -> inside fg g -> False).
  { intros g Lg Ig. assert (E : g = x) by (apply (leaf_minimal _ x g Ht Lx (proj1 Lg)); by apply (inside_trans x fg)).
    subst g. destruct Hne. by apply inside_antisym. }
  destruct (get_dirfrags_under_ok k fg (dir c) (do_sok _ _ Hk) Ht Wf (keys_wf k _ Hk)) as (b & ls & E & _ & Hb & Hls).
  assert (b = true) as -> by (apply Hb; intros g Lg Ig; by destruct (Hno g)).
  assert (ls = []) as ->. { destruct ls as [|y ls]; [done|]. destruct (proj1 (Hls y) ltac:(by left)) as (_ & Iy & [Ly|?]); [by destruct (Hno y)|done]. }
  unfold merge_dir. rewrite E. obind. cbn [negb]. destruct (is_leaf_spec _ fg Ht Wf) as (b & -> & Hlf). obind.
  destruct b; [destruct (Hno fg); [by apply Hlf|by apply inside_refl]|]. cbn [mapM]. obind. unfold can_fragment. by rewrite A1, A2, A3, A4.
Qed.

(** ** The theorems *)

(** C6: a request to split a fragment that is in the cache as a leaf,
    authoritative, complete, not frozen, no subtree root, not auth pinned and in
    no other request, and that gets its locks at once, runs from [split_dir] to
    [_fragment_finish] and fails no assertion, when nothing else happens to the
    directory between the steps. In the end the pieces are in the place of the
    fragment, in the tree and in the cache, each with the dentries and the
    waiters whose names hash into it, statistics that agree with them and its
    share of the popularity, unfrozen, unmarked and ready for another request;
    the other fragments of the directory and the other requests are as they
    were; and the fragments above have lost the counts of the old fragment
    ([lighten]). *)
Theorem split_request_correct o now mem sub fg nb mdr k d c :
  dir_ok k (dir c) -> get_dirfrag fg (dir c) = Some d -> idle o (dir c) d -> ripe o d -> allowed o ->
  0 < nb -> ceph_frag_bits fg + nb <= 24 ->
  map_find (fragments c) fg = None -> map_find (uncommitted_fragments c) fg = None ->
  exists c1 c5, split_dir o Acquired now mem sub fg nb mdr c = Some c1 /\ carried_out o fg mdr (pieces fg nb) c1 c5 /\
    same_requests c c5 /\ split_by_request o k fg nb d (dir c) (dir c5).
Proof. apply split_request_ok. Qed.

(** C7: a request to merge the fragments below one, when all the leaves there
    are in the cache, authoritative, complete, not frozen, no subtree roots and
    not auth pinned, and the locks are got at once, runs from [merge_dir] to
    [_fragment_finish] and fails no assertion, when nothing else happens to the
    directory between the steps. In the end the one fragment is in their place,
    with the dentries and the waiters of all of them, statistics that agree,
    unfrozen, unmarked and ready for another request; the other fragments of the
    directory and the other requests are as they were. *)
Theorem merge_request_correct o now mem sub fg mdr k c :
  mergeable o k fg (dir c) -> allowed o ->
  map_find (fragments c) fg = None -> map_find (uncommitted_fragments c) fg = None ->
  exists c1 c5 ds, merge_dir o Acquired now mem sub fg mdr c = Some c1 /\ carried_out o fg mdr [fg] c1 c5 /\
    same_requests c c5 /\ merge_by_request o k fg ds (dir c) (dir c5).
Proof. apply merge_request_ok. Qed.

(** C21: a fragment that is split by one request, as in the theorem before, is
    merged again by the next one, when nothing else happens to the directory:
    the fragment then has the dentries that it had. *)
Theorem requests_roundtrip o now mem sub fg nb mdr now' mem' sub' mdr' k d c :
  dir_ok k (dir c) -> get_dirfrag fg (dir c) = Some d -> idle o (dir c) d -> ripe o d -> allowed o ->
  0 < nb -> ceph_frag_bits fg + nb <= 24 ->
  map_find (fragments c) fg = None -> map_find (uncommitted_fragments c) fg = None ->
  exists c1 c2 c3 c4 f,
    split_dir o Acquired now mem sub fg nb mdr c = Some c1 /\ carried_out o fg mdr (pieces fg nb) c1 c2 /\
    merge_dir o Acquired now' mem' sub' fg mdr' c2 = Some c3 /\ carried_out o fg mdr' [fg] c3 c4 /\
    same_requests c c4 /\ get_dirfrag fg (dir c4) = Some f /\ idle o (dir c4) f /\ items (holds f) ≡ₚ items (holds d).
Proof.
  intros Hk Hd Hi Hr Ha Hn Hb Hno Hun.
  destruct (split_request_ok o now mem sub fg nb mdr k d c Hk Hd Hi Hr Ha Hn Hb Hno Hun) as (c1 & c2 & E1 & R1 & Q1 & Sp).
  destruct (split_mergeable o k fg nb d (dir c) (dir c2) Hk Hd Hn Hb Sp) as [Hm Hrd].
  destruct (merge_request_ok o now' mem' sub' fg mdr' k c2 Hm Ha) as (c3 & c4 & ds & E3 & R3 & Q3 & Mq).
  { by rewrite (proj1 (Q1 fg)). }
  { by rewrite (proj2 (Q1 fg)). }
  destruct (mq_merged _ _ _ _ _ _ Mq) as (f & Ef & Mr). exists c1, c2, c3, c4, f. split_and!; try done.
  - intros b. destruct (Q1 b) as [E E'], (Q3 b) as [-> ->]. done.
  - apply Mr.
  - rewrite (mr_items _ _ _ _ Mr). eapply pieces_together; try done; [apply Hi|apply Mq..].
Qed.

(** C18: a request to split that cannot get its locks gives the fragment back as it
    was, its dentries unmarked and unpinned, but for the waiters that the
    freezing and the unfreezing woke; the balancer is asked to queue the split
    again and the request is gone. *)
Theorem aborted_split_restores o now mem sub fg nb mdr k d c :
  dir_ok k (dir c) -> get_dirfrag fg (dir c) = Some d -> quiet o d -> ripe o d -> allowed o ->
  0 < nb -> ceph_frag_bits fg + nb <= 24 -> map_find (fragments c) fg = None ->
  exists c' ps, split_dir o Aborted now mem sub fg nb mdr c = Some c' /\ dir_ok k (dir c') /\
    get_dirfrag fg (dir c') = Some (released ps d) /\ pins_ok false (released ps d) /\
    (forall x, x <> fg -> get_dirfrag x (dir c') = get_dirfrag x (dir c)) /\ same_inode (dir c) (dir c') /\
    same_requests c c' /\ effects c' = effects c ++ [QueueSplit fg; RequestFinish mdr].
Proof.
  intros Hk Hd Hq Hr Ha Hn Hb Hno. rewrite (split_dir_begins o _ _ _ _ _ _ _ d) by done.
  destruct (abort_ok o now mem sub fg mdr nb [fg] k c Hk (NoDup_singleton _) Hno) with (first := fg) as (s' & -> & Hk' & Hs & Hi & Ho); [|done|].
  { intros x ->%list_elem_of_singleton. by exists d. }
  destruct (Hi fg) as (d' & ps & Ed & Eg & Hp); [by left|]. rewrite Hd in Ed. injection Ed as <-.
  eexists _, ps. split_and!; try done.
  - intros x Hx. apply Ho. by intros ?%list_elem_of_singleton.
  - intros b. split; [by apply held_gone|done].
  - cbn. by rewrite (proj2 (Z.ltb_lt 0 nb)).
Qed.

(** C15: a request for a fragment that is auth pinned, itself and not through a
    dentry of it, waits, whatever the number of its pins. Dropping them one
    after the other queues nothing before the last; dropping the last freezes
    the fragment and queues the context that the request left, and the request
    that then goes on, gets its locks and is not disturbed splits the fragment
    as it would have, had there been no auth pin. *)
Theorem waiting_request_goes_on o lk t now mem mem' sub fg nb mdr k n d c :
  dir_ok k (dir c) -> get_dirfrag fg (dir c) = Some d -> busy o d -> auth_pins (pinned d) = Z.of_nat (S n) -> placed (ino (dir c)) d ->
  state_test d STATE_STICKY = (0 <? stickydir_ref (dir c)) -> ripe o d -> allowed o -> 0 < nb -> ceph_frag_bits fg + nb <= 24 ->
  map_find (fragments c) fg = None -> map_find (uncommitted_fragments c) fg = None ->
  exists c1 s1 s2 c3 c5, split_dir o lk t mem sub fg nb mdr c = Some c1 /\ effects c1 = effects c ++ [FlushLog] /\
    drops n fg (dir c1) = Some s1 /\ calls (ino s1) = calls (ino (dir c1)) /\
    on_frag auth_unpin fg s1 = Some s2 /\ wakes sub (ino s1) (ino s2) /\
    fragment_frozen o Acquired now mem' fg mdr (set_dir s2 c1) = Some c3 /\
    carried_out o fg mdr (pieces fg nb) c3 c5 /\ same_requests c c5 /\ split_by_request o k fg nb d (dir c) (dir c5).
Proof. apply waited_ok. Qed.

(** C20: a request that waits for a fragment is given up by
    [find_stale_fragment_freeze] when another rank waits for the fragment and the
    auth pins have not changed for longer than the timeout: the first pass that
    sees them only notes them, a later one gives the fragment back as it was, with
    its auth pins, and the request is gone. *)
Theorem stale_request_given_up o lk t t1 t2 cut1 cut2 mem sub fg nb mdr k d c :
  dir_ok k (dir c) -> get_dirfrag fg (dir c) = Some d -> busy o d -> ripe o d -> allowed o -> ceph_frag_bits fg + nb <= 24 ->
  fragments c = [] -> utime_lt t1 cut2 = true ->
  exists c1 c2 c3 c4 ps, split_dir o lk t mem sub fg nb mdr c = Some c1 /\ fragment_freeze_inc_num_waiters fg c1 = Some c2 /\
    find_stale_fragment_freeze t1 cut1 false c2 = Some c3 /\ dir c3 = dir c1 /\
    find_stale_fragment_freeze t2 cut2 false c3 = Some c4 /\
    dir_ok k (dir c4) /\ same_inode (dir c) (dir c4) /\ pins_ok false (released ps d) /\
    (forall x, get_dirfrag x (dir c4) = if x =? fg then Some (released ps d) else get_dirfrag x (dir c)) /\
    fragments c4 = [] /\ uncommitted_fragments c4 = uncommitted_fragments c.
Proof. apply stale_ok. Qed.

End dir.
End FragmentTheorems.

(** A directory of one fragment, with a replica, that is split and merged. *)
Module FragmentExample.
Import Frag FragTree FragFacts FragTreeFacts StrHash CacheDir CacheDirFacts DirSplit DirFragment
  DirMerge Refragment RefragmentFacts Fragmenting FragmentingFacts FragmentRun FragmentWait FragmentTheorems.

Definition file_name : bytes := [97].
Definition link_name : bytes := [108; 105; 110; 107].

Definition file_dentry : dentry :=
  MkDentry file_name (ceph_str_hash_linux file_name) CEPH_NOSNAP (Primary (MkChild 1000 false new_nest_info false 0))
    false 0 0 true false false 1.
Definition link_dentry : dentry :=
  MkDentry link_name (ceph_str_hash_linux link_name) CEPH_NOSNAP (Remote 1001 8) false 0 0 false false false 0.

Definition bare_frag : cdir (D := Q) :=
  MkDir root (Z.lor STATE_AUTH STATE_COMPLETE) CDIR_AUTH_DEFAULT no_pins (MkAuths 0 0 0) [(1, 1)]
    (MkContent [file_dentry; link_dentry] 2 0 0 0 1 [dn_key file_dentry] []) zero_fnode 0 false
    (MkWaits [((file_name, CEPH_NOSNAP), [7])] []) (MkDensity 5 5 5) 0 (new_pops (MkTime 0 0)).
Definition the_frag : cdir (D := Q) := set_pins (MkPins 3 (expected false bare_frag)) bare_frag.

Definition the_inode : inode :=
  MkInode (MkEnv true (Some (false, false)) false 0 1 1 0 (-1) false)
    (MkPins 1 (fun p => if p =? PIN_DIRFRAG then 1 else 0)) 0 0 Thawed [] false [MkDensity 9 9 9] [].

Definition the_dir : diri (D := Q) := MkDiri the_inode 0 [] [(root, the_frag)].
Definition the_cache : cache (D := Q) := MkCache the_dir [] [] [].
Definition calm_outside : outside := MkOutside false false false false false false (fun _ => false) (fun _ => true) true.

Lemma the_only x d : get_dirfrag x the_dir = Some d -> x = root /\ d = the_frag.
Proof. unfold get_dirfrag, the_dir. cbn [dirfrags map_find]. destruct (Z.eqb_spec root x) as [<-|]; [by intros [= <-]|done]. Qed.

Lemma the_dir_ok : dir_ok 0 the_dir.
Proof.
  split; [split| | |]; try done.
  - by intros fg d [-> ->]%the_only.
  - split; try done; cbn; try lia. intros p. destruct (p =? _); lia.
  - intros x d [-> ->]%the_only. split; [by left|done].
Qed.

Lemma the_frag_idle : idle calm_outside the_dir the_frag.
Proof.
  split; [|split; repeat constructor|done]. split; try done.
  - split; [done|by vm_compute|]. intros p. unfold expected. repeat case_match; apply b2z_range || done.
  - split; try done; repeat constructor; cbn; try lia; done.
  - constructor.
  - repeat constructor; done.
Qed.

Lemma split_request_correct_witness :
  exists c1 c5 : cache (D := Q), split_dir calm_outside Acquired (MkTime 0 0) (fun _ => 0) 0 root 1 5 the_cache = Some c1 /\
    carried_out calm_outside root 5 (pieces root 1) c1 c5 /\
    split_by_request calm_outside 0 root 1 the_frag the_dir (dir c5).
Proof.
  destruct (split_request_correct calm_outside (MkTime 0 0) (fun _ => 0) 0 root 1 5 0 the_frag the_cache the_dir_ok
    ltac:(reflexivity) the_frag_idle ltac:(done) ltac:(done) ltac:(done) ltac:(done) ltac:(reflexivity) ltac:(reflexivity))
    as (c1 & c5 & E & R & _ & S).
  exists c1, c5. split; [exact E|]. split; [exact R|exact S].
Defined.

Lemma merge_request_correct_witness :
  exists c c1 c5 : cache (D := Q), exists ds, merge_dir calm_outside Acquired (MkTime 1 0) (fun _ => 0) 0 root 6 c = Some c1 /\
    carried_out calm_outside root 6 [root] c1 c5 /\ merge_by_request calm_outside 0 root ds (dir c) (dir c5).
Proof.
  destruct (split_request_ok calm_outside (MkTime 0 0) (fun _ => 0) 0 root 1 5 0 the_frag the_cache the_dir_ok
    ltac:(reflexivity) the_frag_idle ltac:(done) ltac:(done) ltac:(done) ltac:(done) ltac:(reflexivity) ltac:(reflexivity))
    as (c0 & c & _ & _ & Hq & S).
  destruct (split_mergeable calm_outside 0 root 1 the_frag the_dir (dir c) the_dir_ok ltac:(reflexivity) ltac:(done) ltac:(done) S) as [Hm _].
  destruct (merge_request_correct calm_outside (MkTime 1 0) (fun _ => 0) 0 root 6 0 c Hm ltac:(done)
    (proj1 (Hq root)) (proj2 (Hq root))) as (c1 & c5 & ds & E & R & _ & M).
  exists c, c1, c5, ds. split; [exact E|]. split; [exact R|exact M].
Defined.

Lemma requests_roundtrip_witness :
  exists (c4 : cache (D := Q)) f, get_dirfrag root (dir c4) = Some f /\ idle calm_outside (dir c4) f /\
    items (holds f) ≡ₚ [file_dentry; link_dentry].
Proof.
  destruct (requests_roundtrip calm_outside (MkTime 0 0) (fun _ => 0) 0 root 2 5 (MkTime 9 0) (fun _ => 1) 0 6 0 the_frag the_cache the_dir_ok
    ltac:(reflexivity) the_frag_idle ltac:(done) ltac:(done) ltac:(done) ltac:(done) ltac:(reflexivity) ltac:(reflexivity))
    as (_ & _ & _ & c4 & f & _ & _ & _ & _ & _ & E & I & P).
  exists c4, f. split; [exact E|]. split; [exact I|exact P].
Defined.

Lemma aborted_split_restores_witness :
  exists (c' : cache (D := Q)) ps, split_dir calm_outside Aborted (MkTime 0 0) (fun _ => 0) 0 root 1 5 the_cache = Some c' /\
    get_dirfrag root (dir c') = Some (released ps the_frag) /\ effects c' = [QueueSplit root; RequestFinish 5].
Proof.
  destruct (aborted_split_restores calm_outside (MkTime 0 0) (fun _ => 0) 0 root 1 5 0 the_frag the_cache the_dir_ok
    ltac:(reflexivity) (id_quiet _ _ _ the_frag_idle) ltac:(done) ltac:(done) ltac:(done) ltac:(done) ltac:(reflexivity))
    as (c' & ps & E & _ & G & _ & _ & _ & _ & F).
  exists c', ps. split; [exact E|]. split; [exact G|exact F].
Defined.

(** The fragment with three auth pins. *)
Definition pinned_bare : cdir (D := Q) := set_pinned (MkAuths 3 0 0) bare_frag.
Definition pinned_frag : cdir (D := Q) := set_pins (MkPins 4 (expected false pinned_bare)) pinned_bare.
Definition pinned_inode : inode :=
  MkInode (MkEnv true (Some (false, false)) false 0 1 1 0 (-1) false)
    (MkPins 1 (fun p => if p =? PIN_DIRFRAG then 1 else 0)) 0 1 Thawed [] false [MkDensity 9 9 9] [].
Definition pinned_dir : diri (D := Q) := MkDiri pinned_inode 0 [] [(root, pinned_frag)].
Definition pinned_cache : cache (D := Q) := MkCache pinned_dir [] [] [].

Lemma pinned_only x d : get_dirfrag x pinned_dir = Some d -> x = root /\ d = pinned_frag.
Proof. unfold get_dirfrag, pinned_dir. cbn [dirfrags map_find]. destruct (Z.eqb_spec root x) as [<-|]; [by intros [= <-]|done]. Qed.

Lemma pinned_dir_ok : dir_ok 0 pinned_dir.
Proof.
  split; [split| | |]; try done.
  - by intros fg d [-> ->]%pinned_only.
  - split; try done; cbn; try lia. intros p. destruct (p =? _); lia.
  - intros x d [-> ->]%pinned_only. split; [by left|done].
Qed.

Lemma pinned_busy : busy calm_outside pinned_frag.
Proof.
  split; try done.
  - destruct (id_quiet _ _ _ the_frag_idle). by split.
  - split; [done|by vm_compute|]. intros p. unfold expected. repeat case_match; apply b2z_range || done.
Qed.

Lemma waiting_request_goes_on_witness :
  exists (c1 : cache (D := Q)) s1 s2 c3 c5,
    split_dir calm_outside Acquired (MkTime 0 0) (fun _ => 0) 77 root 1 5 pinned_cache = Some c1 /\
    drops 2 root (dir c1) = Some s1 /\ on_frag auth_unpin root s1 = Some s2 /\ wakes 77 (ino s1) (ino s2) /\
    fragment_frozen calm_outside Acquired (MkTime 3 0) (fun _ => 0) root 5 (set_dir s2 c1) = Some c3 /\
    carried_out calm_outside root 5 (pieces root 1) c3 c5 /\ split_by_request calm_outside 0 root 1 pinned_frag pinned_dir (dir c5).
Proof.
  destruct (waiting_request_goes_on calm_outside Acquired (MkTime 0 0) (MkTime 3 0) (fun _ => 0) (fun _ => 0) 77 root 1 5 0 2 pinned_frag pinned_cache
    pinned_dir_ok ltac:(reflexivity) pinned_busy ltac:(reflexivity) ltac:(split; repeat constructor) ltac:(reflexivity) ltac:(done) ltac:(done)
    ltac:(done) ltac:(done) ltac:(reflexivity) ltac:(reflexivity)) as (c1 & s1 & s2 & c3 & c5 & E1 & _ & E2 & _ & E3 & W & E4 & R & _ & S).
  exists c1, s1, s2, c3, c5. split; [exact E1|]. split; [exact E2|]. split; [exact E3|]. split; [exact W|]. split; [exact E4|]. split; [exact R|exact S].
Defined.

Lemma stale_request_given_up_witness :
  exists (c4 : cache (D := Q)) ps, get_dirfrag root (dir c4) = Some (released ps pinned_frag) /\ fragments c4 = [].
Proof.
  destruct (stale_request_given_up calm_outside Acquired (MkTime 0 0) (MkTime 5 0) (MkTime 40 0) (MkTime 0 0) (MkTime 10 0) (fun _ => 0) 77 root 1 5 0
    pinned_frag pinned_cache pinned_dir_ok ltac:(reflexivity) pinned_busy ltac:(done) ltac:(done) ltac:(done) ltac:(reflexivity) ltac:(reflexivity))
    as (_ & _ & _ & c4 & ps & _ & _ & _ & _ & _ & _ & _ & _ & G & F & _).
  exists c4, ps. split; [exact (G root)|exact F].
Defined.

(** The directory has one fragment, and half of it is asked to be merged. *)
Example merge_below_root :
  merge_dir calm_outside Acquired (MkTime 0 0) (fun _ => 0) 0 (ceph_frag_make_child root 1 0) 5 the_cache = None.
Proof. vm_compute. reflexivity. Qed.

(** The whole run, computed. *)
Definition ran : option (cache (D := Q)) :=
  c ← split_dir calm_outside Acquired (MkTime 0 0) (fun _ => 0) 0 root 1 5 the_cache;
  c ← _fragment_logged root c;
  c ← _fragment_stored calm_outside root 5 c;
  c ← _fragment_committed root c;
  _fragment_finish root (pieces root 1) c.

Example run_effects :
  (fun c => map (fun e => match e with JournalPrepare _ _ _ _ => 1 | CommitDir _ => 2 | FragmentNotify _ _ _ => 3
                     | JournalCommit _ _ => 4 | RequestFinish _ => 5 | TruncateObject _ => 6 | MaybeFragment _ => 7
                     | JournalFinish _ _ => 8 | FlushLog => 9 | DropLocks _ => 10 | _ => 0 end) (effects c)) <$> ran =
  Some [1; 9; 2; 2; 3; 4; 10; 5; 6; 7; 7; 8].
Proof. vm_compute. reflexivity. Qed.

End FragmentExample.
