(* ===== verification/SplitQueue.v ===== *)
(** * When fragments are split and merged, src/mds/MDBalancer.cc

    The balancer looks at a fragment when it is hit, and after a request for it
    has ended ([maybe_fragment]).  A split or a merge that is due is noted
    ([queue_split], [queue_merge]) and a context is scheduled, on a timer or, when
    the fragment grows fast, at once.  When it runs it makes a request to the
    cache; a merge first goes up from the fragment as long as what is on the
    other side should be merged as well. *)

From Stdlib Require Import QArith.
From S2P Require Import Prelude Encoding Frag FragTree FragSet Double Load StrHash CacheDir CacheDirFacts DirSplit DirFragment DirMerge Refragment DirTheorems Fragmenting FragmentRun FragmentWait FragmentTheorems.
Import Encoding.
#[local] Open Scope Z_scope.

Module SplitQueue.
Import Frag FragTree FragFacts FragTreeFacts StrHash CacheDir Refragment RefragmentFacts Fragmenting.

(** What is scheduled: on the timer, or among the waiters that run next. *)
Inductive scheduled := SplitTimer (fg : Z) | SplitNow (fg : Z) | MergeTimer (fg : Z).

(** The configuration, whether the map of the cluster allows fragments, and
    whether the directory is a base of the tree.  [fast_limit] is
    [mds_bal_split_size * mds_bal_fragment_fast_factor]. *)
Record settings := MkSettings {
  mds_bal_frag : bool; mds_bal_fragment_interval : Z; mds_bal_split_size : Z; mds_bal_merge_size : Z;
  mds_bal_split_bits : Z; fast_limit : Z; allows_dirfrags : bool; is_base : bool
}.

Record queue := MkQueue { split_pending : list Z; merge_pending : list Z; contexts : list scheduled }.

Definition pending (fg : Z) (l : list Z) : bool := bool_decide (fg ∈ l).
Definition set_add (fg : Z) (l : list Z) : list Z := if pending fg l then l else fg :: l.
Definition set_del (fg : Z) (l : list Z) : list Z := List.filter (fun x => negb (x =? fg)) l.

Definition schedule (x : scheduled) (q : queue) : queue :=
  MkQueue (split_pending q) (merge_pending q) (contexts q ++ [x]).

Definition queue_split (cf : settings) (fg : Z) (fast : bool) (q : queue) : option queue :=
  assert! allows_dirfrags cf;
  let is_new := negb (pending fg (split_pending q)) in
  let q := MkQueue (set_add fg (split_pending q)) (merge_pending q) (contexts q) in
  Some (if fast then schedule (SplitNow fg) q
        else if is_new then schedule (SplitTimer fg) q else q).

Definition queue_merge (fg : Z) (q : queue) : queue :=
  if negb (pending fg (merge_pending q))
  then schedule (MergeTimer fg) (MkQueue (split_pending q) (set_add fg (merge_pending q)) (contexts q))
  else q.

Section dir.
Context {D} `{Double D}.
Abbreviation cdir := (CacheDir.cdir (D := D)).
Abbreviation diri := (CacheDir.diri (D := D)).
Abbreviation cache := (Fragmenting.cache (D := D)).

(** The size in a projected fnode, and whether a projected linkage is null. *)
Context (projected_size : cdir -> Z) (projected_null : dentry -> bool).

Definition get_frag_size (d : cdir) : Z := if is_projected d then projected_size d else size (fragstat (fnode d)).
Definition should_split (cf : settings) (d : cdir) : bool := mds_bal_split_size cf <? s32 (get_frag_size d).
Definition should_merge (cf : settings) (d : cdir) : bool := s32 (get_frag_size d) <? mds_bal_merge_size cf.

Definition linked (dn : dentry) : bool :=
  negb (if dn_is_projected dn then projected_null dn else is_null (linkage dn)).

Definition should_split_fast (cf : settings) (d : cdir) : bool :=
  if get_frag_size d + num_head_null (holds d) <=? fast_limit cf then false
  else if fast_limit cf <? get_frag_size d then true
  else fast_limit cf <? Z.of_nat (length (List.filter linked (items (holds d)))).

Definition maybe_fragment (cf : settings) (d : cdir) (hot : bool) (q : queue) : option queue :=
  if mds_bal_frag cf && (0 <? mds_bal_fragment_interval cf) && negb (is_base cf) && is_auth d then
    q ← (if (0 <? mds_bal_split_size cf) && allows_dirfrags cf && (should_split cf d || hot) then
           if negb (pending (dfrag d) (split_pending q)) then queue_split cf (dfrag d) false q
           else if should_split_fast cf d then queue_split cf (dfrag d) true q
           else Some q
         else Some q);
    Some (if negb (dfrag d =? root) && should_merge cf d && negb (pending (dfrag d) (merge_pending q))
          then queue_merge (dfrag d) q else q)
  else Some q.

(** What a context for a split does. *)
Definition split_due (cf : settings) (o : outside) (lk : locking) (now : utime) (memory : Z -> Z) (sub : context)
  (mdr fg : Z) (q : queue) (c : cache) : option (queue * cache) :=
  if negb (pending fg (split_pending q)) then Some (q, c)
  else
    let q := MkQueue (set_del fg (split_pending q)) (merge_pending q) (contexts q) in
    match get_dirfrag fg (dir c) with
    | None => Some (q, c)
    | Some d =>
        if negb (is_auth d) then Some (q, c)
        else c ← split_dir o lk now memory sub fg (mds_bal_split_bits cf) mdr c; Some (q, c)
    end.

(** Whether all that is below a fragment is there and should be merged. *)
Definition all_small (cf : settings) (sibfg : Z) (s : diri) : option bool :=
  '(complete, ls) ← get_dirfrags_under sibfg s;
  if negb (complete : bool) then Some false
  else
    sibs ← mapM (fun x => get_dirfrag x s) ls;
    Some (forallb (fun d => is_auth d && should_merge cf d) sibs).

(** How far up the fragments should be merged. *)
Fixpoint merge_up (n : nat) (cf : settings) (fg : Z) (s : diri) : option Z :=
  match n with
  | O => None
  | S n =>
      if fg =? root then Some fg
      else
        sibfg ← get_sibling fg;
        all ← all_small cf sibfg s;
        if negb (all : bool) then Some fg
        else up ← parent fg; merge_up n cf up s
  end.

Definition merge_due (cf : settings) (o : outside) (lk : locking) (now : utime) (memory : Z -> Z) (sub : context)
  (mdr fg : Z) (q : queue) (c : cache) : option (queue * cache) :=
  assert! negb (fg =? root);
  let q := MkQueue (split_pending q) (set_del fg (merge_pending q)) (contexts q) in
  match get_dirfrag fg (dir c) with
  | None => Some (q, c)
  | Some d =>
      if negb (is_auth d) then Some (q, c)
      else
        up ← merge_up 256 cf fg (dir c);
        if negb (up =? fg) then c ← merge_dir o lk now memory sub up mdr c; Some (q, c)
        else Some (q, c)
  end.

Definition run_context (cf : settings) (o : outside) (lk : locking) (now : utime) (memory : Z -> Z) (sub : context)
  (mdr : Z) (x : scheduled) (q : queue) (c : cache) : option (queue * cache) :=
  match x with
  | SplitTimer fg | SplitNow fg => split_due cf o lk now memory sub mdr fg q c
  | MergeTimer fg => merge_due cf o lk now memory sub mdr fg q c
  end.

(** [fg] is the first of the fragments that [merge_dir] finds below [up], in the
    directory [s]; a request for them that is aborted queues [fg] again. *)
Definition found_first (s : diri) (up fg : Z) : Prop :=
  exists k ls, dir_ok k s /\ wf_frag up /\
    get_dirfrags_under up s = Some (true, fg :: ls) /\ is_leaf (dirfragtree s) up = Some false.

(** The balancer and the directory: fragments are looked at, requests that are
    aborted queue them again, fragments are thrashed ([MDSRank::tick], which
    queues none but those below the whole directory), contexts run in any order,
    and the directory may change in any way. *)
Inductive step (cf : settings) : queue * cache -> queue * cache -> Prop :=
  | step_maybe q q' c fg d hot :
      get_dirfrag fg (dir c) = Some d -> maybe_fragment cf d hot q = Some q' -> step cf (q, c) (q', c)
  | step_split q q' c fg fast : queue_split cf fg fast q = Some q' -> step cf (q, c) (q', c)
  | step_aborted q c s up fg : found_first s up fg -> step cf (q, c) (queue_merge fg q, c)
  | step_thrash q c fg : negb (fg =? root) = true -> step cf (q, c) (queue_merge fg q, c)
  | step_run q q' c c' x l1 l2 o lk now memory sub mdr :
      contexts q = l1 ++ x :: l2 ->
      run_context cf o lk now memory sub mdr x (MkQueue (split_pending q) (merge_pending q) (l1 ++ l2)) c = Some (q', c') ->
      step cf (q, c) (q', c')
  | step_change q c c' : step cf (q, c) (q, c').

End dir.
End SplitQueue.

Module SplitQueueFacts.
Import Frag FragTree FragFacts FragTreeFacts StrHash CacheDir CacheDirFacts DirSplit DirFragment DirMerge Refragment
  RefragmentFacts DirTheorems Fragmenting FragmentingFacts FragmentRun SplitQueue.

(** ** What is noted is scheduled *)

Definition merge_of (x : scheduled) : option Z := match x with MergeTimer fg => Some fg | _ => None end.
Definition merges (l : list scheduled) : list Z := omap merge_of l.
Definition split_of (x : scheduled) : option Z := match x with SplitTimer fg | SplitNow fg => Some fg | MergeTimer _ => None end.

(** A split that is noted has a context, a merge that is noted exactly one, and
    nothing is scheduled to merge the whole directory. *)
Record queue_ok (q : queue) : Prop := {
  qo_split : forall fg, fg ∈ split_pending q -> exists x, x ∈ contexts q /\ split_of x = Some fg;
  qo_merge : merges (contexts q) ≡ₚ merge_pending q;
  qo_nodup : NoDup (merge_pending q);
  qo_root : root ∉ merge_pending q
}.

Lemma set_add_in fg l x : x ∈ set_add fg l <-> x = fg \/ x ∈ l.
Proof.
  unfold set_add, pending. case_bool_decide as E; [|by rewrite elem_of_cons]. split; [by right|]. by intros [->|].
Qed.

Lemma set_del_in fg l x : x ∈ set_del fg l <-> x ∈ l /\ x <> fg.
Proof. unfold set_del. rewrite list_elem_of_In, filter_In, <- list_elem_of_In, negb_true_iff, Z.eqb_neq. done. Qed.

Lemma set_del_absent fg l : fg ∉ l -> set_del fg l = l.
Proof.
  unfold set_del. induction l as [|y l IH]; [done|]. rewrite not_elem_of_cons. intros [Hn Hl]. cbn.
  rewrite (proj2 (Z.eqb_neq y fg)) by congruence. cbn. by rewrite IH.
Qed.

Lemma set_del_perm fg l l' : l ≡ₚ l' -> set_del fg l ≡ₚ set_del fg l'.
Proof. unfold set_del. induction 1; cbn; repeat case_match; try done; [by constructor|apply perm_swap|by etransitivity]. Qed.

Lemma queue_split_ok cf fg fast q q' : queue_ok q -> queue_split cf fg fast q = Some q' -> queue_ok q'.
Proof.
  unfold queue_split. destruct (allows_dirfrags cf); [|done]. intros [H1 H2 H3 H4] [= <-].
  set (ok := negb (pending fg (split_pending q))).
  assert (Hs : forall x, x ∈ set_add fg (split_pending q) -> x = fg \/ x ∈ split_pending q) by (intros x; apply set_add_in).
  assert (Hn : ok = false -> fg ∈ split_pending q) by (by intros ?%negb_false_iff%bool_decide_eq_true).
  destruct fast; [|destruct ok eqn:E]; (split; cbn; unfold merges; rewrite ?omap_app; cbn; rewrite ?app_nil_r; try done).
  - intros x [->|Hx]%Hs; [exists (SplitNow fg)|destruct (H1 x Hx) as (y & ? & ?); exists y]; rewrite elem_of_app; split; auto; right; by left.
  - intros x [->|Hx]%Hs; [exists (SplitTimer fg)|destruct (H1 x Hx) as (y & ? & ?); exists y]; rewrite elem_of_app; split; auto; right; by left.
  - intros x [->|Hx]%Hs; apply H1; auto.
Qed.

Lemma queue_merge_ok fg q : fg <> root -> queue_ok q -> queue_ok (queue_merge fg q).
Proof.
  intros Hr [H1 H2 H3 H4]. unfold queue_merge. destruct (negb (pending fg (merge_pending q))) eqn:E; [|by split].
  apply negb_true_iff, bool_decide_eq_false in E. unfold set_add, pending. rewrite bool_decide_eq_false_2 by done.
  split; cbn.
  - intros x Hx. destruct (H1 x Hx) as (y & ? & ?). exists y. rewrite elem_of_app. auto.
  - unfold merges in *. rewrite omap_app, H2. cbn. by rewrite Permutation_app_comm.
  - by constructor.
  - rewrite not_elem_of_cons. split; [congruence|done].
Qed.

Section dir.
Context {D} `{Double D}.
Abbreviation cdir := (CacheDir.cdir (D := D)).
Abbreviation diri := (CacheDir.diri (D := D)).
Abbreviation cache := (Fragmenting.cache (D := D)).
Context (projected_size : cdir -> Z) (projected_null : dentry -> bool).
Implicit Types d : cdir.
Implicit Types s : diri.
Implicit Types c : cache.

Lemma maybe_fragment_ok cf d hot q q' :
  queue_ok q -> maybe_fragment projected_size projected_null cf d hot q = Some q' -> queue_ok q'.
Proof.
  intros Hq. unfold maybe_fragment. destruct (_ && is_auth d); [|by intros [= <-]].
  match goal with |- mbind _ ?e = _ -> _ => set (m := e) end. assert (Hm : forall q1, m = Some q1 -> queue_ok q1).
  { intros q1. unfold m. destruct (_ && (_ || hot)); [|by intros [= <-]]. destruct (negb _).
    - by apply queue_split_ok.
    - destruct (should_split_fast _ _ _ _); [by apply queue_split_ok|by intros [= <-]]. }
  destruct m as [q1|]; [|done]. specialize (Hm q1 eq_refl). obind. intros [= <-].
  destruct (_ && negb _) eqn:E; [|done]. apply queue_merge_ok; [|done].
  apply andb_prop in E as [[E _]%andb_prop _]. by apply negb_true_iff, Z.eqb_neq in E.
Qed.

(** What is merged is below what it is merged into. *)
Lemma found_first_below s up fg : found_first s up fg -> fg <> root.
Proof.
  intros (k & ls & Hk & Wu & Eu & El) ->. pose proof (do_tree _ _ Hk) as Ht.
  destruct (get_dirfrags_under_ok k up s (do_sok _ _ Hk) Ht Wu (keys_wf k s Hk)) as (b & l & E & _ & _ & Hl).
  rewrite Eu in E. injection E as <- <-. destruct (proj1 (Hl root) (list_elem_of_here _ _)) as (_ & Hi & [Lr|?]); [|done].
  apply inside_root in Hi as ->; [|done]. destruct (is_leaf_spec _ root Ht root_wf) as (b & E & Hb).
  rewrite El in E. injection E as <-. by apply Hb in Lr.
Qed.

(** What running a context does to what is noted. *)
Definition after (x : scheduled) (q : queue) : queue :=
  match x with
  | SplitTimer fg | SplitNow fg => MkQueue (set_del fg (split_pending q)) (merge_pending q) (contexts q)
  | MergeTimer fg => MkQueue (split_pending q) (set_del fg (merge_pending q)) (contexts q)
  end.

Lemma run_after cf o lk now mem sub mdr x q c q' c' :
  run_context projected_size cf o lk now mem sub mdr x q c = Some (q', c') -> q' = after x q.
Proof.
  assert (Hs : forall fg, split_due cf o lk now mem sub mdr fg q c = Some (q', c') ->
    q' = MkQueue (set_del fg (split_pending q)) (merge_pending q) (contexts q)).
  { intros fg. unfold split_due. destruct (negb (pending fg (split_pending q))) eqn:E.
    { intros [= <- <-]. apply negb_true_iff, bool_decide_eq_false in E. rewrite set_del_absent by done. by destruct q. }
    destruct (get_dirfrag fg (dir c)) as [d|]; [|by intros [= <- _]]. destruct (negb (is_auth d)); [by intros [= <- _]|].
    destruct (split_dir _ _ _ _ _ _ _ _ _); [|done]. obind. by intros [= <- _]. }
  destruct x as [fg|fg|fg]; cbn; [apply Hs|apply Hs|]. unfold merge_due. destruct (fg =? root); [done|]. cbn [negb].
  destruct (get_dirfrag fg (dir c)) as [d|]; [|by intros [= <- _]]. destruct (negb (is_auth d)); [by intros [= <- _]|].
  destruct (merge_up _ _ _ _ _) as [up|]; [|done]. obind. destruct (negb (up =? fg)); [|by intros [= <- _]].
  destruct (merge_dir _ _ _ _ _ _ _ _); [|done]. obind. by intros [= <- _].
Qed.

Lemma run_ok x q l1 l2 :
  queue_ok q -> contexts q = l1 ++ x :: l2 -> queue_ok (after x (MkQueue (split_pending q) (merge_pending q) (l1 ++ l2))).
Proof.
  intros [H1 H2 H3 H4] Ec. rewrite Ec in H1, H2. unfold merges in *. rewrite omap_app in H2.
  assert (Hin : forall y fg, y ∈ l1 ++ x :: l2 -> split_of y = Some fg -> split_of x <> Some fg -> y ∈ l1 ++ l2).
  { intros y fg. rewrite !elem_of_app, elem_of_cons. intros [?|[->|?]]; auto. by intros. }
  assert (Hsp : forall fg, split_of x = Some fg -> forall fg', fg' ∈ set_del fg (split_pending q) ->
    exists y, y ∈ l1 ++ l2 /\ split_of y = Some fg').
  { intros fg Ex fg' [Hf Hne]%set_del_in. destruct (H1 fg' Hf) as (y & Hy & Ey). exists y. split; [|done]. apply (Hin y fg'); [done..|congruence]. }
  destruct x as [fg|fg|fg]; cbn in *; (split; cbn; [|unfold merges; rewrite omap_app|..]); try done; try by apply (Hsp fg).
  - intros fg' Hf. destruct (H1 fg' Hf) as (y & Hy & Ey). exists y. split; [by apply (Hin y fg')|done].
  - assert (Hnd : NoDup (omap merge_of l1 ++ fg :: omap merge_of l2)) by (by rewrite H2).
    rewrite <- (set_del_perm fg _ _ H2). apply NoDup_app in Hnd as (_ & Hd & [Hn2 _]%NoDup_cons).
    assert (Hn1 : fg ∉ omap merge_of l1) by (intros Hx; apply (Hd fg Hx); by left).
    unfold set_del. rewrite List.filter_app. cbn. rewrite Z.eqb_refl. cbn. fold (set_del fg (omap merge_of l1)). fold (set_del fg (omap merge_of l2)).
    by rewrite !set_del_absent.
  - unfold set_del. apply NoDup_ListNoDup, List.NoDup_filter. by apply NoDup_ListNoDup.
  - by intros [? _]%set_del_in.
Qed.

(** ** How far a merge goes *)

(** A fragment that should be merged. *)
Definition small (cf : settings) s (x : Z) : Prop :=
  exists d, get_dirfrag x s = Some d /\ is_auth d = true /\ should_merge projected_size cf d = true.

(** All the leaves below [fg] but [fg0] should be. *)
Definition small_but (cf : settings) s (fg0 fg : Z) : Prop :=
  forall x, leaf (dirfragtree s) x -> inside fg x -> x <> fg0 -> small cf s x.

(** What is below a fragment is below one of its halves, or it itself. *)
Lemma inside_halves fg x :
  wf_frag fg -> wf_frag x -> 0 < ceph_frag_bits fg -> inside (anc fg (ceph_frag_bits fg - 1)) x -> x <> anc fg (ceph_frag_bits fg - 1) ->
  inside fg x \/ inside (ceph_frag_sibling fg) x.
Proof.
  intros Wf Wx Hb Hi Hne. destruct (FragSet.sibling_props fg Wf Hb) as [_ Bs _ _ Hc]. destruct (wf_bits _ Wf).
  destruct (anc_spec fg (ceph_frag_bits fg - 1) Wf) as (Ba & Wa & _); [lia|].
  assert (Hlt : ceph_frag_bits fg <= ceph_frag_bits x).
  { destruct (Z.eq_dec (ceph_frag_bits x) (ceph_frag_bits fg - 1)) as [E|]; [|destruct Hi; lia]. destruct Hne. symmetry.
    apply inside_same_bits; try done. lia. }
  destruct Hi as [_ Hw]. apply Hc in Hw as [Hw|Hw]; [left|right]; split; rewrite ?Bs; done.
Qed.

Lemma all_small_ok k cf sib s :
  dir_ok k s -> wf_frag sib ->
  exists b, all_small projected_size cf sib s = Some b /\
    (b = true <-> forall x, leaf (dirfragtree s) x -> inside sib x -> small cf s x).
Proof.
  intros Hk Wsib. unfold all_small.
  destruct (get_dirfrags_under_ok k sib s (do_sok _ _ Hk) (do_tree _ _ Hk) Wsib (keys_wf k s Hk)) as (b & ls & -> & _ & Hbl & Hls). obind.
  destruct b; cbn [negb].
  2: { exists false. split; [done|]. split; [done|]. intros Hall. apply Hbl. intros g Lg Ig. by destruct (Hall g Lg Ig) as (d & -> & _). }
  destruct (fetch_all k s ls (do_sok _ _ Hk)) as (ds & Em & Hds). { apply Forall_forall. by intros x [? _]%Hls. }
  assert (El : mapM (fun x => get_dirfrag x s) ls = Some ds).
  { rewrite <- Em. clear -Hds. induction Hds as [|d ds Ed _ IH]; [done|]. cbn. rewrite Ed. obind. by rewrite IH. }
  rewrite El. obind. eexists. split; [done|]. rewrite forallb_forall. rewrite Forall_forall in Hds. split.
  - intros Ha x Lx Ix. destruct (proj1 Hbl eq_refl x Lx Ix) as [d Hd]. assert (Hx : x ∈ ls) by (apply Hls; split_and!; [by rewrite Hd|done|by left]).
    rewrite <- Em in Hx. apply list_elem_of_fmap in Hx as (e & -> & He). apply list_elem_of_In in He as He'.
    apply Ha, andb_prop in He' as [? ?]. exists e. split_and!; [by apply Hds|done..].
  - intros Hall d Hd%list_elem_of_In. assert (Hx : dfrag d ∈ ls) by (rewrite <- Em; apply list_elem_of_fmap; by exists d).
    apply Hls in Hx as (_ & Ix & [Lx|?]); [|done]. destruct (Hall _ Lx Ix) as (d' & E' & A' & S').
    rewrite (Hds d Hd) in E'. injection E' as <-. by rewrite A', S'.
Qed.

(** The answer is above [fg0], all the leaves below it should be merged with
    [fg0], and not all of those on its other side. *)
Lemma merge_up_ok k cf s fg0 :
  dir_ok k s -> leaf (dirfragtree s) fg0 ->
  forall n fg, wf_frag fg -> inside fg fg0 -> ceph_frag_bits fg < Z.of_nat n -> small_but cf s fg0 fg ->
  exists up, merge_up projected_size n cf fg s = Some up /\ wf_frag up /\ inside up fg0 /\ small_but cf s fg0 up /\
    (up = root \/ ~ forall x, leaf (dirfragtree s) x -> inside (ceph_frag_sibling up) x -> small cf s x).
Proof.
  intros Hk L0 n. pose proof (do_tree _ _ Hk) as Ht. pose proof (node_wf _ _ (wt_sane _ Ht) (proj1 L0)) as W0.
  induction n as [|n IH]; intros fg Wf Hi Hb Hs; destruct (wf_bits _ Wf); [lia|]. cbn [merge_up].
  destruct (Z.eqb_spec fg root) as [Er|Hr]; [exists fg; split_and!; try done; by left|].
  assert (Hpos : 0 < ceph_frag_bits fg).
  { destruct (Z.eq_dec (ceph_frag_bits fg) 0) as [E|]; [by apply bits_zero_root in E|lia]. }
  assert (Es : get_sibling fg = Some (ceph_frag_sibling fg)) by (unfold get_sibling, is_root; by rewrite (proj2 (Z.eqb_neq _ _)) by lia).
  rewrite Es. obind. destruct (FragSet.sibling_props fg Wf Hpos) as [Wsib Bsib _ _ _].
  destruct (all_small_ok k cf (ceph_frag_sibling fg) s Hk Wsib) as (b & -> & Hsib). obind.
  destruct b; cbn [negb]; [|exists fg; split_and!; try done; right; by intros ?%Hsib].
  destruct (anc_spec fg (ceph_frag_bits fg - 1) Wf) as (Ba & Wa & Ia); [lia|].
  pose proof (parent_anc fg (ceph_frag_bits fg) Wf ltac:(lia)) as Ep. rewrite anc_self in Ep by done. rewrite Ep. obind.
  set (p := anc fg (ceph_frag_bits fg - 1)) in *. assert (Ip : inside p fg0) by (by apply (inside_trans p fg)).
  apply IH; [done..|lia|]. intros x Lx Ix Nx. pose proof (node_wf _ _ (wt_sane _ Ht) (proj1 Lx)) as Wx.
  destruct (inside_halves fg x Wf Wx Hpos Ix) as [Hf|Hf].
  - intros ->. fold p in Lx, Nx. destruct Nx. symmetry. apply (leaf_minimal _ p fg0 Ht Lx (proj1 L0) Ip).
  - by apply Hs.
  - by apply Hsib.
Qed.

(** What is below the answer can be merged. *)
Lemma up_mergeable o k cf s fg0 d0 up :
  dir_ok k s -> get_dirfrag fg0 s = Some d0 -> wf_frag up -> inside up fg0 -> up <> fg0 -> small_but cf s fg0 up ->
  (forall x d, get_dirfrag x s = Some d -> inside up x -> idle o s d /\ ripe o d) -> mergeable o k up s.
Proof.
  intros Hk Hd Wu Iu Hne Hs Hid. split; try done.
  - exists fg0. split_and!; [by apply (do_leaves _ _ Hk _ d0)|done|congruence].
  - intros x Lx Ix. destruct (decide (x = fg0)) as [->|Hx].
    + exists d0. by destruct (Hid fg0 d0 Hd Ix).
    + destruct (Hs x Lx Ix Hx) as (d & E & _). exists d. by destruct (Hid x d E Ix).
Qed.

(** ** The theorems *)

(** C17: whatever is hit, aborted and run, and in whatever order, a split that is
    noted as pending has a context that is still to run, and a merge exactly one:
    so none is forgotten, and the context that runs finds its merge noted, as the
    comment there says; no context is for merging the whole directory, which
    would fail an assertion. *)
Theorem pending_is_scheduled cf c0 q c :
  rtc (step projected_size projected_null cf) (MkQueue [] [] [], c0) (q, c) -> queue_ok q.
Proof.
  assert (Hst : forall a b, step projected_size projected_null cf a b -> queue_ok a.1 -> queue_ok b.1).
  { intros a b []; cbn; intros Hq; [by eapply maybe_fragment_ok|by eapply queue_split_ok| | | |done].
    { apply queue_merge_ok; [by eapply found_first_below|done]. }
    { apply queue_merge_ok; [by apply Z.eqb_neq, negb_true_iff|done]. }
    match goal with E : run_context _ _ _ _ _ _ _ _ _ _ _ = _ |- _ => apply run_after in E as -> end. by apply run_ok. }
  intros Hr. assert (H0 : queue_ok (MkQueue [] [] [], c0).1) by (split; cbn; [by intros fg ?%elem_of_nil|done|constructor|by intros ?%elem_of_nil]).
  revert H0. change (queue_ok q) with (queue_ok (q, c).1). induction Hr as [|a b e Hab _ IH]; [done|]. intros Ha. apply IH. by eapply Hst.
Qed.

(** C16: a context for a merge, whose fragment is cached and authoritative, goes
    up from it as far as all the fragments on the other side are in the cache,
    authoritative and small, and no further; if that is higher than the fragment
    it asks for a merge there, and otherwise for nothing.  If the fragments below
    are idle and no request is under way for the one they make, that merge, given
    its locks, runs to its end. *)
Theorem merge_due_correct cf o lk now mem sub mdr fg d k q c :
  dir_ok k (dir c) -> get_dirfrag fg (dir c) = Some d -> is_auth d = true -> fg <> root ->
  exists up, inside up fg /\ small_but cf (dir c) fg up /\
    (up = root \/ ~ forall x, leaf (dirfragtree (dir c)) x -> inside (ceph_frag_sibling up) x -> small cf (dir c) x) /\
    merge_due projected_size cf o lk now mem sub mdr fg q c =
      (if up =? fg then Some (after (MergeTimer fg) q, c)
       else c1 ← merge_dir o lk now mem sub up mdr c; Some (after (MergeTimer fg) q, c1)) /\
    (up <> fg -> allowed o ->
     (forall x e, get_dirfrag x (dir c) = Some e -> inside up x -> idle o (dir c) e /\ ripe o e) ->
     map_find (fragments c) up = None -> map_find (uncommitted_fragments c) up = None ->
     exists c1 c5 ds, merge_due projected_size cf o Acquired now mem sub mdr fg q c = Some (after (MergeTimer fg) q, c1) /\
       carried_out o up mdr [up] c1 c5 /\ same_requests c c5 /\ merge_by_request o k up ds (dir c) (dir c5)).
Proof.
  intros Hk Hd Ha Hr. pose proof (do_leaves _ _ Hk _ _ Hd) as L0. pose proof (node_wf _ _ (wt_sane _ (do_tree _ _ Hk)) (proj1 L0)) as W0.
  destruct (wf_bits _ W0). destruct (merge_up_ok k cf (dir c) fg Hk L0 256 fg W0) as (up & Eu & Wu & Iu & Su & Hst); [by apply inside_refl|lia| |].
  { intros x Lx Ix Hne. by rewrite (leaf_minimal _ fg x (do_tree _ _ Hk) L0 (proj1 Lx) Ix) in Hne. }
  assert (Hm : forall lk', merge_due projected_size cf o lk' now mem sub mdr fg q c =
    (if up =? fg then Some (after (MergeTimer fg) q, c)
     else c1 ← merge_dir o lk' now mem sub up mdr c; Some (after (MergeTimer fg) q, c1))).
  { intros lk'. unfold merge_due. rewrite (proj2 (Z.eqb_neq fg root)), Hd, Ha by done. cbn [negb]. rewrite Eu. obind. by destruct (up =? fg). }
  exists up. split_and!; try done. intros Hne Hal Hid Hno Hun. rewrite Hm, (proj2 (Z.eqb_neq _ _)) by done.
  destruct (merge_request_ok o now mem sub up mdr k c) as (c1 & c5 & ds & -> & R & Q & M); [by eapply up_mergeable|done..|].
  exists c1, c5, ds. by split_and!.
Qed.

End dir.
End SplitQueueFacts.

Module SplitQueueExample.
Import Frag FragTree FragFacts FragTreeFacts CacheDir CacheDirFacts DirFragment Refragment RefragmentFacts Fragmenting
  FragmentingFacts FragmentRun FragmentTheorems FragmentExample SplitQueue SplitQueueFacts DirSplit.

Definition defaults : settings := MkSettings true 5 10000 50 3 15000 true false.

(** A split is queued, and queued again when the fragment grows fast. *)
Lemma pending_is_scheduled_witness : queue_ok (MkQueue [root] [] [SplitTimer root; SplitNow root]).
Proof.
  apply (pending_is_scheduled (D := Q) (fun _ => 0) (fun _ => false) defaults the_cache _ the_cache).
  eapply rtc_l; [apply (step_split _ _ _ _ (MkQueue [root] [] [SplitTimer root]) _ root false); reflexivity|].
  eapply rtc_l; [apply (step_split _ _ _ _ (MkQueue [root] [] [SplitTimer root; SplitNow root]) _ root true); reflexivity|]. apply rtc_refl.
Defined.

(** Both halves of the directory that was split are small. *)
Lemma halves_small s :
  split_by_request calm_outside 0 root 1 the_frag the_dir s ->
  forall x, leaf (dirfragtree s) x -> small (fun _ => 0) defaults s x.
Proof.
  intros S x Lx. assert (Hx : x ∈ pieces root 1).
  { apply (sr_leaves _ _ _ _ _ _ _ S) in Lx as [[Lx Hne]|?]; [|done]. pose proof (do_tree _ _ the_dir_ok) as Ht.
    assert (Lr : leaf (dirfragtree the_dir) root) by (by apply (do_leaves _ _ the_dir_ok root the_frag)).
    pose proof (node_wf _ _ (wt_sane _ Ht) (proj1 Lx)) as Wx.
    by rewrite (leaf_minimal _ root x Ht Lr (proj1 Lx) (root_inside x Wx)) in Hne. }
  destruct (sr_pieces _ _ _ _ _ _ _ S x Hx) as (d & Hd & Sp). exists d. split_and!; [done|apply Sp|].
  unfold should_merge, get_frag_size. destruct (is_projected d); [done|]. rewrite (st_size _ _ (sq_stat _ _ _ _ _ _ _ Sp)).
  apply Z.ltb_lt. apply elem_of_cons in Hx as [->|Hx]; [vm_compute; reflexivity|].
  apply list_elem_of_singleton in Hx as ->. vm_compute. reflexivity.
Qed.

(** So the context for the left half asks for all of it to be merged. *)
Lemma merge_due_correct_witness :
  exists (c c1 c5 : cache (D := Q)) ds,
    merge_due (fun _ => 0) defaults calm_outside Acquired (MkTime 9 0) (fun _ => 0) 0 6 (ceph_frag_make_child root 1 0)
      (MkQueue [] [ceph_frag_make_child root 1 0] []) c = Some (MkQueue [] [] [], c1) /\
    carried_out calm_outside root 6 [root] c1 c5 /\ merge_by_request calm_outside 0 root ds (dir c) (dir c5).
Proof.
  destruct (split_request_ok calm_outside (MkTime 0 0) (fun _ => 0) 0 root 1 5 0 the_frag the_cache the_dir_ok
    ltac:(reflexivity) the_frag_idle ltac:(done) ltac:(done) ltac:(done) ltac:(done) ltac:(reflexivity) ltac:(reflexivity))
    as (c0 & c & _ & _ & Hq & S).
  destruct (split_mergeable calm_outside 0 root 1 the_frag the_dir (dir c) the_dir_ok ltac:(reflexivity) ltac:(done) ltac:(done) S) as [Hm Hrd].
  assert (Hid : forall x e, get_dirfrag x (dir c) = Some e -> inside root x -> idle calm_outside (dir c) e /\ ripe calm_outside e).
  { intros x e He Hi. destruct (me_leaves _ _ _ _ Hm x (do_leaves _ _ (me_ok _ _ _ _ Hm) _ _ He) Hi) as (d & Ed & Hi').
    rewrite He in Ed. by injection Ed as <-. }
  assert (Hin : ceph_frag_make_child root 1 0 ∈ pieces root 1) by (by left).
  destruct (sr_pieces _ _ _ _ _ _ _ S _ Hin) as (d & Hd & Sp).
  destruct (merge_due_correct (fun _ => 0) defaults calm_outside Acquired (MkTime 9 0) (fun _ => 0) 0 6 (ceph_frag_make_child root 1 0) d 0
    (MkQueue [] [ceph_frag_make_child root 1 0] []) c (me_ok _ _ _ _ Hm) Hd (q_auth _ _ (id_quiet _ _ _ (sq_idle _ _ _ _ _ _ _ Sp)))
    ltac:(done)) as (up & _ & _ & Hst & _ & Hgo).
  destruct Hst as [->|Hst]; [|destruct Hst; intros x Lx _; by apply halves_small].
  destruct (Hgo ltac:(done) ltac:(done) Hid (proj1 (Hq root)) (proj2 (Hq root))) as (c1 & c5 & ds & E & R & _ & M).
  exists c, c1, c5, ds. split; [exact E|]. split; [exact R|exact M].
Defined.

(** All of it, run: the halves are small, so the merge goes up to the whole. *)
Example merge_goes_up :
  (c ← ran; up ← merge_up (fun _ => 0) 256 defaults (ceph_frag_make_child root 1 0) (dir c); Some up) = Some root.
Proof. vm_compute. reflexivity. Qed.

End SplitQueueExample.
