(* ===== verification/Matching.v ===== *)
(** * Matching exporters with importers, src/mds/MDBalancer.cc

    [prep_rebalance], the balancer's own policy: the load of every rank, the
    target load, who exports and who imports, and how much of the load goes from
    whom to whom.  Maps whose [operator[]] inserts a missing key are threaded
    through, and a [multimap] is the list of its pairs in order. *)

From Stdlib Require Import QArith Lqa.
From stdpp Require Import list sorting.
From S2P Require Import Prelude Double HitCount Load.

Module Matching.
Section matching.
Context {D} `{Double D}.

(** [m[k]] of a map of doubles. *)
Definition at_key (m : list (Z * D)) (k : Z) : D * list (Z * D) :=
  match map_find m k with
  | Some v => (v, m)
  | None => (d_int 0, map_set m k (d_int 0))
  end.

(** [m[k] += v] *)
Definition add_key (m : list (Z * D)) (k : Z) (v : D) : list (Z * D) :=
  let '(x, m) := at_key m k in map_set m k (x + v)%D.

Record balance_state := MkState {
  targets : list (Z * D); imported : list (Z * D); exported : list (Z * D)
}.
Definition empty_state : balance_state := MkState [] [] [].

(** The balancer's members that the policy reads and changes. *)
Record mstate := MkM {
  mds_meta_load : list (Z * D);
  mds_import_map : list (Z * list (Z * D));
  state : balance_state
}.

Definition set_imported (m : mstate) meta l : mstate :=
  MkM meta (mds_import_map m) (MkState (targets (state m)) l (exported (state m))).
Definition set_exported (m : mstate) meta l : mstate :=
  MkM meta (mds_import_map m) (MkState (targets (state m)) (imported (state m)) l).

Definition get_maxim (target_load : D) (m : mstate) (im : Z) : D * mstate :=
  let '(x, meta) := at_key (mds_meta_load m) im in
  let '(y, l) := at_key (imported (state m)) im in
  ((target_load - x - y)%D, set_imported m meta l).

Definition get_maxex (target_load : D) (m : mstate) (ex : Z) : D * mstate :=
  let '(x, meta) := at_key (mds_meta_load m) ex in
  let '(y, l) := at_key (exported (state m)) ex in
  ((x - target_load - y)%D, set_exported m meta l).

(** The macro MIN. *)
Definition dmin (a b : D) : D := if (a <? b)%D then a else b.

(** [try_match]: [maxex] and [maxim] as they are afterwards, and the state. *)
Definition try_match (whoami : Z) (m : mstate) (ex : Z) (maxex : D) (im : Z) (maxim : D)
  : D * D * mstate :=
  if (maxex <=? d_int 0)%D || (maxim <=? d_int 0)%D then (maxex, maxim, m)
  else
    let howmuch := dmin maxex maxim in
    if (howmuch <=? d_int 0)%D then (maxex, maxim, m)
    else
      let s := state m in
      let t := if ex =? whoami then add_key (targets s) im howmuch else targets s in
      ((maxex - howmuch)%D, (maxim - howmuch)%D,
       MkM (mds_meta_load m) (mds_import_map m)
         (MkState t (add_key (imported s) im howmuch) (add_key (exported s) ex howmuch))).

Definition small : D := d_ratio 1 1000.

(** ** The ranks *)

(** [multimap::insert], after the keys that are not greater. *)
Fixpoint multi_insert {V} (k : D) (v : V) (l : list (D * V)) : list (D * V) :=
  match l with
  | [] => [(k, v)]
  | (k', v') :: l' => if (k <? k')%D then (k, v) :: l else (k', v') :: multi_insert k v l'
  end.

Fixpoint split_ranks (target_load : D) (load_map : list (D * Z)) (importers exporters : list (D * Z))
  : list (D * Z) * list (D * Z) :=
  match load_map with
  | [] => (importers, exporters)
  | (l, i) :: load_map =>
      if (l <? target_load)%D
      then split_ranks target_load load_map (multi_insert l i importers) exporters
      else split_ranks target_load load_map importers (multi_insert l i exporters)
  end.

(** ** Matching exporters to import sources *)

Fixpoint match_sources (whoami : Z) (target_load : D) (ex : Z) (sources : list (Z * D))
  (maxex : D) (m : mstate) : mstate :=
  match sources with
  | [] => m
  | (im, _) :: sources =>
      let '(maxim, m) := get_maxim target_load m im in
      if (maxim <=? small)%D then match_sources whoami target_load ex sources maxex m
      else
        let '(maxex, _, m) := try_match whoami m ex maxex im maxim in
        if (maxex <=? small)%D then m
        else match_sources whoami target_load ex sources maxex m
  end.

(** [mds_import_map[ex]] *)
Definition sources_of (m : mstate) (ex : Z) : list (Z * D) * mstate :=
  match map_find (mds_import_map m) ex with
  | Some l => (l, m)
  | None => ([], MkM (mds_meta_load m) (map_set (mds_import_map m) ex []) (state m))
  end.

(** Big to small exporters. *)
Fixpoint match_exporters (whoami : Z) (target_load : D) (exporters : list (D * Z)) (m : mstate) : mstate :=
  match exporters with
  | [] => m
  | (_, ex) :: exporters =>
      let '(maxex, m) := get_maxex target_load m ex in
      let m :=
        if (maxex <=? small)%D then m
        else let '(sources, m) := sources_of m ex in
             match_sources whoami target_load ex sources maxex m in
      match_exporters whoami target_load exporters m
  end.

(** ** Matching exporters to importers *)

(** One turn of the loop over two iterators. *)
Definition pair_step (whoami : Z) (target_load : D) (x : list (D * Z) * list (D * Z) * mstate)
  : (list (D * Z) * list (D * Z) * mstate) + option mstate :=
  let '(exs, ims, m) := x in
  match exs, ims with
  | (_, ex) :: exs', (_, im) :: ims' =>
      let '(maxex, m) := get_maxex target_load m ex in
      let '(maxim, m) := get_maxim target_load m im in
      if (maxex <? small)%D || (maxim <? small)%D then inr (Some m)
      else
        let '(maxex, maxim, m) := try_match whoami m ex maxex im maxim in
        inl (if (maxex <=? small)%D then exs' else exs,
             if (maxim <=? small)%D then ims' else ims, m)
  | _, _ => inr (Some m)
  end.

(** The loop; [None] when it does not end within [2 ^ n] turns. *)
Definition match_pairs (whoami : Z) (target_load : D) (exs ims : list (D * Z)) (m : mstate) : option mstate :=
  while (length exs + length ims) (pair_step whoami target_load) (exs, ims, m).

(** The big exporters first on odd beats, the small ones on even beats. *)
Definition match_ranks (whoami : Z) (target_load : D) (beat : Z)
  (importers exporters : list (D * Z)) (m : mstate) : option mstate :=
  let m := match_exporters whoami target_load (rev exporters) m in
  if Z.rem beat 2 =? 1
  then match_pairs whoami target_load (rev exporters) importers m
  else match_pairs whoami target_load exporters importers m.

(** ** The loads *)

(** An authoritative subtree root, with what [CDir::get_load] answers for it. *)
Record candidate := MkCand { freezing : bool; frozen : bool; stray : bool; cand_load : D }.

(** [calc_mds_load] does not use the load it is given. *)
Definition calc_mds_load (root : bool) (cands : list candidate) (load : Load.mds_load_t D) (auth : bool) : D :=
  if negb root then d_int 0
  else fold_left (fun s c => if freezing c || frozen c || stray c then s else (s + cand_load c)%D)
         cands (d_int 0).

(** The loop over the ranks: [mds_load], [mds_meta_load], [my_load],
    [total_load] and [load_map]. *)
Fixpoint rank_loads (calc : Load.mds_load_t D -> bool -> D) (now : utime) (whoami : Z) (load_fac : D)
  (ranks : list Z) (mds_load : list (Z * Load.mds_load_t D)) (meta : list (Z * D))
  (my_load total : D) (load_map : list (D * Z))
  : list (Z * Load.mds_load_t D) * list (Z * D) * D * D * list (D * Z) :=
  match ranks with
  | [] => (mds_load, meta, my_load, total, load_map)
  | i :: ranks =>
      let mds_load := map_emplace mds_load i (Load.new_load now) in
      let load := default (Load.new_load now) (map_find mds_load i) in
      let l := (calc load false * load_fac)%D in
      rank_loads calc now whoami load_fac ranks mds_load (map_set meta i l)
        (if whoami =? i then l else my_load) (total + l)%D (multi_insert l i load_map)
  end.

(** The members of MDBalancer that [prep_rebalance] works on. *)
Record balancer := MkBal {
  beat_epoch : Z; last_epoch_under : Z;
  mds_load : list (Z * Load.mds_load_t D); meta_load : list (Z * D);
  import_map : list (Z * list (Z * D));
  my_load : D; target_load : D
}.

Inductive outcome := Thrash (s : balance_state) | Underloaded | Recent | Rebalance (s : balance_state).

Definition prep_rebalance (thrash root : bool) (cands : list candidate) (min_rebalance : D)
  (now : utime) (up : list Z) (cluster_size whoami beat : Z) (b : balancer)
  : option (outcome * balancer) :=
  if thrash then
    Some (Thrash (MkState (fold_left (fun m r => map_set m r (d_int 0)) up []) [] []), b)
  else
    let calc := calc_mds_load root cands in
    let load_fac :=
      match map_find (mds_load b) whoami with
      | Some l => if (calc l false >? d_int 0)%D then (calc l true / calc l false)%D else d_int 1
      | None => d_int 1
      end in
    let ranks := seqZ 0 cluster_size in
    let '(loads, meta, mine, total, load_map) :=
      rank_loads calc now whoami load_fac ranks (mds_load b) (meta_load b) (my_load b) (d_int 0) [] in
    let target := (total / d_int cluster_size)%D in
    if (mine <? target * (d_int 1 + min_rebalance))%D then
      Some (Underloaded, MkBal (beat_epoch b) (beat_epoch b) loads meta (import_map b) mine target)
    else
      let b' := MkBal (beat_epoch b) (last_epoch_under b) loads meta (import_map b) mine target in
      if negb (last_epoch_under b =? 0) && (s32 (beat_epoch b - last_epoch_under b) <? 2)
      then Some (Recent, b')
      else
        let '(importers, exporters) := split_ranks target load_map [] [] in
        m ← match_ranks whoami target beat importers exporters (MkM meta (import_map b) empty_state);
        Some (Rebalance (state m),
              MkBal (beat_epoch b) (last_epoch_under b) loads (mds_meta_load m) (mds_import_map m) mine target).
End matching.
Arguments mstate : clear implicits.
Arguments balance_state : clear implicits.
Arguments balancer : clear implicits.
Arguments candidate : clear implicits.
End Matching.

(** ** The matching in exact arithmetic *)

Module MatchingFacts.
Import Matching.
Open Scope Q_scope.

Definition ordered {V} (m : list (Z * V)) : Prop := exists lo, keys_from lo m.
Definition value (m : list (Z * Q)) (k : Z) : Q := default 0 (map_find m k).
Definition total (m : list (Z * Q)) : Q := fold_right (fun p s => p.2 + s) 0 m.

Lemma ordered_set {V} (m : list (Z * V)) k v : ordered m -> ordered (map_set m k v).
Proof.
  intros [lo Hk]. exists (Z.min lo k). apply map_set_keys; [|lia].
  eapply keys_from_weaken; [|done]. lia.
Qed.

Lemma find_set {V} (m : list (Z * V)) k v k' :
  ordered m -> map_find (map_set m k v) k' = if (k' =? k)%Z then Some v else map_find m k'.
Proof. intros [lo Hk]. by eapply map_find_set. Qed.

Lemma rank_total_app m1 m2 : total (m1 ++ m2) == total m1 + total m2.
Proof. induction m1 as [|p m1 IH]; simpl; [ring|]. rewrite IH. ring. Qed.

Lemma total_set m k v : ordered m -> total (map_set m k v) == total m - value m k + v.
Proof.
  intros [lo Hk]. destruct (map_set_find lo m k v Hk) as (m1 & m2 & o & E & -> & Ho).
  unfold value. destruct (map_find m k); subst o; rewrite E, !rank_total_app; simpl; ring.
Qed.

Lemma at_key_spec m k :
  ordered m ->
  exists m', at_key m k = (value m k, m') /\ ordered m' /\
    (forall k', value m' k' = value m k') /\ total m' == total m.
Proof.
  intros Ho. unfold at_key, value. destruct (map_find m k) as [v|] eqn:E; [by exists m|].
  eexists. split; [done|]. split; [by apply ordered_set|]. split.
  - intros k'. rewrite find_set by done. destruct (Z.eqb_spec k' k) as [->|]; [|done]. by rewrite E.
  - rewrite total_set by done. unfold value. rewrite E. simpl. change (inject_Z 0) with 0. ring.
Qed.

Lemma add_key_spec m k v :
  ordered m ->
  ordered (add_key m k v) /\ total (add_key m k v) == total m + v /\
  forall k', value (add_key m k v) k' = if (k' =? k)%Z then value m k + v else value m k'.
Proof.
  intros Ho. unfold add_key. destruct (at_key_spec m k Ho) as (m' & -> & Ho' & Hv & Ht).
  split; [by apply ordered_set|]. split.
  - rewrite total_set, Ht, Hv by done. simpl. ring.
  - intros k'. unfold value at 1. rewrite find_set by done. destruct (k' =? k)%Z; [done|]. apply Hv.
Qed.

Section rank.
Context (whoami : Z) (target_load : Q) (load : Z -> Q).

Definition room_ex (m : mstate Q) (k : Z) : Q := load k - target_load - value (exported (state m)) k.
Definition room_im (m : mstate Q) (k : Z) : Q := target_load - load k - value (imported (state m)) k.

(** What is exported is imported, by ranks that have it to give and room to
    take it; the targets are this rank's share. *)
Definition matched (m : mstate Q) : Prop :=
  (ordered (mds_meta_load m) /\ ordered (imported (state m)) /\
   ordered (exported (state m)) /\ ordered (targets (state m))) /\
  (forall k, value (mds_meta_load m) k = load k) /\
  total (exported (state m)) == total (imported (state m)) /\
  total (targets (state m)) == value (exported (state m)) whoami /\
  (forall k, value (exported (state m)) k == 0 \/ 0 <= room_ex m k) /\
  (forall k, value (imported (state m)) k == 0 \/ 0 <= room_im m k) /\
  (forall k, 0 <= value (exported (state m)) k) /\
  (forall k, 0 <= value (targets (state m)) k <= value (imported (state m)) k).

Lemma get_maxim_spec m im :
  matched m ->
  exists m', get_maxim target_load m im = (room_im m im, m') /\ matched m' /\
    (forall k, room_im m' k = room_im m k) /\ (forall k, room_ex m' k = room_ex m k) /\
    mds_import_map m' = mds_import_map m.
Proof.
  intros ((O1 & O2 & O3 & O4) & Hl & Ht & Hw & He & Hi & Hp & Hg). unfold get_maxim.
  destruct (at_key_spec (mds_meta_load m) im O1) as (meta & -> & O1' & V1 & _).
  destruct (at_key_spec (imported (state m)) im O2) as (l & -> & O2' & V2 & T2).
  eexists. split; [by rewrite Hl|].
  assert (R : forall k, room_im (set_imported m meta l) k = room_im m k).
  { intros k. unfold room_im. simpl. by rewrite V2. }
  split; [|done]. split; [done|]. simpl.
  split; [intros; by rewrite V1|]. split; [by rewrite T2|]. split; [done|]. split; [done|].
  split; [intros k; rewrite V2, R; apply Hi|]. split; [done|]. intros k. rewrite V2. apply Hg.
Qed.

Lemma get_maxex_spec m ex :
  matched m ->
  exists m', get_maxex target_load m ex = (room_ex m ex, m') /\ matched m' /\
    (forall k, room_im m' k = room_im m k) /\ (forall k, room_ex m' k = room_ex m k) /\
    mds_import_map m' = mds_import_map m.
Proof.
  intros ((O1 & O2 & O3 & O4) & Hl & Ht & Hw & He & Hi & Hp & Hg). unfold get_maxex.
  destruct (at_key_spec (mds_meta_load m) ex O1) as (meta & -> & O1' & V1 & _).
  destruct (at_key_spec (exported (state m)) ex O3) as (l & -> & O3' & V3 & T3).
  eexists. split; [by rewrite Hl|].
  assert (R : forall k, room_ex (set_exported m meta l) k = room_ex m k).
  { intros k. unfold room_ex. simpl. by rewrite V3. }
  split; [|done]. split; [done|]. simpl.
  split; [intros; by rewrite V1|]. split; [by rewrite T3|]. split; [by rewrite V3|].
  split; [intros k; rewrite V3, R; apply He|]. split; [done|]. split; [|done].
  intros k. by rewrite V3.
Qed.

Lemma dmin_spec (a b : Q) : (dmin a b = a /\ a <= b) \/ (dmin a b = b /\ b <= a).
Proof.
  unfold dmin. destruct (dlt a b) eqn:E; [left|right]; (split; [done|]).
  - apply dlt_Q in E. by apply Qlt_le_weak.
  - by apply dlt_Q_false in E.
Qed.

(** A match moves the smaller of the two rooms. *)
Lemma try_match_spec m ex im maxex maxim :
  matched m -> maxex == room_ex m ex -> maxim == room_im m im -> 0 < maxex -> 0 < maxim ->
  exists maxex' maxim' m',
    try_match whoami m ex maxex im maxim = (maxex', maxim', m') /\ matched m' /\
    maxex' == room_ex m' ex /\ maxim' == room_im m' im /\
    0 <= maxex' /\ 0 <= maxim' /\ (maxex' == 0 \/ maxim' == 0) /\
    (forall k, k <> ex -> room_ex m' k = room_ex m k) /\
    (forall k, k <> im -> room_im m' k = room_im m k) /\
    mds_import_map m' = mds_import_map m.
Proof.
  intros ((O1 & O2 & O3 & O4) & Hl & Ht & Hw & He & Hi & Hp & Hg) Hx Hy Px Py.
  unfold try_match. cbn [d_int Q_double]. change (inject_Z 0) with 0.
  rewrite (proj2 (dle_Q_false maxex 0)), (proj2 (dle_Q_false maxim 0)) by done. cbn [orb].
  set (h := dmin maxex maxim).
  assert (Hh : 0 < h /\ h <= maxex /\ h <= maxim /\ (maxex - h == 0 \/ maxim - h == 0)).
  { destruct (dmin_spec maxex maxim) as [[E ?]|[E ?]]; unfold h; rewrite E;
      (split; [done|]); split; [lra|split; [lra|]|lra|split; [lra|]]; [left|right]; ring. }
  destruct Hh as (Ph & Hhx & Hhy & Hz). rewrite (proj2 (dle_Q_false h 0)) by done.
  destruct (add_key_spec (imported (state m)) im h O2) as (OI & TI & VI).
  destruct (add_key_spec (exported (state m)) ex h O3) as (OE & TE & VE).
  destruct (add_key_spec (targets (state m)) im h O4) as (OT & TT & VT).
  eexists _, _, _. split; [done|]. unfold room_ex, room_im in *. cbn [state imported exported targets].
  split; [|split_and!].
  - unfold matched, room_ex, room_im. cbn [state imported exported targets mds_meta_load].
    split; [split_and!; try done; by destruct (ex =? whoami)%Z|]. split; [done|].
    split; [by rewrite TI, TE, Ht|]. split; [|split; [|split; [|split]]].
    + rewrite VE, (Z.eqb_sym whoami ex). destruct (Z.eqb_spec ex whoami) as [->|]; [rewrite TT, Hw; ring|done].
    + intros k. rewrite !VE. destruct (Z.eqb_spec k ex) as [->|]; [right; lra|apply He].
    + intros k. rewrite !VI. destruct (Z.eqb_spec k im) as [->|]; [right; lra|apply Hi].
    + intros k. rewrite VE. specialize (Hp k). destruct (Z.eqb_spec k ex) as [->|]; lra.
    + intros k. rewrite VI. specialize (Hg k). destruct (ex =? whoami)%Z; [rewrite VT|];
        destruct (Z.eqb_spec k im) as [->|]; lra.
  - rewrite VE, Z.eqb_refl. cbn [dsub Q_double]. lra.
  - rewrite VI, Z.eqb_refl. cbn [dsub Q_double]. lra.
  - cbn [dsub Q_double]. lra.
  - cbn [dsub Q_double]. lra.
  - done.
  - intros k Hk. rewrite VE. by rewrite (proj2 (Z.eqb_neq _ _)).
  - intros k Hk. rewrite VI. by rewrite (proj2 (Z.eqb_neq _ _)).
  - done.
Qed.

Lemma small_pos (x : Q) : dle x small = false -> 0 < x.
Proof. intros E%dle_Q_false. unfold small in E. cbn in E. lra. Qed.

Lemma small_ge (x : Q) : dlt x small = false -> 0 < x.
Proof. intros E%dlt_Q_false. unfold small in E. cbn in E. lra. Qed.

Lemma match_sources_matched ex sources maxex m :
  matched m -> maxex == room_ex m ex -> 0 < maxex ->
  matched (match_sources whoami target_load ex sources maxex m).
Proof.
  revert maxex m. induction sources as [|[im x] sources IH]; intros maxex m Hm Hx Px; cbn [match_sources]; [done|].
  destruct (get_maxim_spec m im Hm) as (m1 & -> & Hm1 & R1 & R2 & _).
  destruct (dle (room_im m im) small) eqn:E; [apply IH; [done|by rewrite R2|done]|].
  destruct (try_match_spec m1 ex im maxex (room_im m im)) as (a & b & m2 & -> & Hm2 & Ha & _);
    [done|by rewrite R2|by rewrite R1|done|by apply small_pos|].
  destruct (dle a small) eqn:Ea; [done|]. apply IH; [done|done|by apply small_pos].
Qed.

Lemma sources_of_matched m ex : matched m -> matched (sources_of m ex).2 /\
  room_ex (sources_of m ex).2 ex = room_ex m ex.
Proof. intros Hm. unfold sources_of. by destruct (map_find (mds_import_map m) ex). Qed.

Lemma match_exporters_matched exporters m :
  matched m -> matched (match_exporters whoami target_load exporters m).
Proof.
  revert m. induction exporters as [|[l ex] exporters IH]; intros m Hm; cbn [match_exporters]; [done|].
  destruct (get_maxex_spec m ex Hm) as (m1 & -> & Hm1 & _ & R & _). apply IH.
  destruct (dle (room_ex m ex) small) eqn:E; [done|].
  destruct (sources_of_matched m1 ex Hm1) as [Hs Rs].
  destruct (sources_of m1 ex) as [sources m2]. simpl in Hs, Rs.
  apply match_sources_matched; [done|by rewrite Rs, R|by apply small_pos].
Qed.

(** A turn of the loop ends it, or moves on in one of the lists at least. *)
Lemma pair_step_spec exs ims m :
  matched m ->
  match pair_step whoami target_load (exs, ims, m) with
  | inl (exs', ims', m') => matched m' /\ (length exs' + length ims' < length exs + length ims)%nat
  | inr r => exists m', r = Some m' /\ matched m'
  end.
Proof.
  intros Hm. unfold pair_step. destruct exs as [|[lx ex] exs]; [by eauto|].
  destruct ims as [|[li im] ims]; [by eauto|].
  destruct (get_maxex_spec m ex Hm) as (m1 & -> & Hm1 & _ & RX1 & _).
  destruct (get_maxim_spec m1 im Hm1) as (m2 & -> & Hm2 & RI2 & RX2 & _).
  destruct (dlt (room_ex m ex) small) eqn:Ex; cbn [orb]; [by eauto|].
  destruct (dlt (room_im m1 im) small) eqn:Ei; [by eauto|].
  destruct (try_match_spec m2 ex im (room_ex m ex) (room_im m1 im))
    as (a & b & m3 & -> & Hm3 & _ & _ & _ & _ & Hz & _);
    [done|by rewrite RX2, RX1|by rewrite RI2|by apply small_ge|by apply small_ge|].
  split; [done|]. assert (0 <= small) as Hs by (by vm_compute).
  destruct Hz as [Hz|Hz].
  - rewrite (proj2 (dle_Q a small)) by (by rewrite Hz). destruct (dle b small); simpl; lia.
  - rewrite (proj2 (dle_Q b small)) by (by rewrite Hz). destruct (dle a small); simpl; lia.
Qed.

Lemma match_pairs_matched exs ims m :
  matched m -> exists m', match_pairs whoami target_load exs ims m = Some m' /\ matched m'.
Proof.
  intros Hm. unfold match_pairs.
  apply (while_ends (fun x => matched x.2) (fun x => Z.of_nat (length x.1.1 + length x.1.2))).
  - intros [[exs' ims'] m'] Hm'. simpl in Hm'. pose proof (pair_step_spec exs' ims' m' Hm') as H.
    destruct (pair_step _ _ _) as [[[a b] c]|r]; [|done]. simpl. destruct H. split; [done|lia].
  - intros. lia.
  - done.
  - simpl. apply Z.pow_gt_lin_r; lia.
Qed.

Lemma match_ranks_matched beat importers exporters m :
  matched m -> exists m', match_ranks whoami target_load beat importers exporters m = Some m' /\ matched m'.
Proof.
  intros Hm. unfold match_ranks. pose proof (match_exporters_matched (rev exporters) m Hm).
  destruct (_ =? _)%Z; by apply match_pairs_matched.
Qed.
End rank.

Lemma matched_empty whoami target_load meta imports :
  ordered meta -> matched whoami target_load (value meta) (MkM meta imports empty_state).
Proof.
  intros Ho. split; [split_and!; [done|by exists 0%Z..]|]. split; [done|].
  split; [done|]. split; [done|]. split; [intros; by left|]. split; [intros; by left|].
  split; [done|]. intros k. by split.
Qed.

(** C10: With the loads as exact rationals, and so but for the rounding of
    [double], the matching of exporters with importers ends, whatever the loads
    and the imports of the ranks; what is exported in all is what is imported in
    all; no rank exports more than its load exceeds the target by, or imports
    more than its load falls short of it; and the targets add up to what this
    rank exports. *)
Theorem matching_conserves whoami (target_load : Q) beat importers exporters meta imports :
  ordered meta ->
  exists m, match_ranks whoami target_load beat importers exporters (MkM meta imports empty_state) = Some m /\
    let s := state m in
    total (exported s) == total (imported s) /\
    total (targets s) == value (exported s) whoami /\
    (forall k, 0 <= value (exported s) k /\
       (value (exported s) k == 0 \/ value (exported s) k <= value meta k - target_load)) /\
    (forall k, 0 <= value (targets s) k <= value (imported s) k /\
       (value (imported s) k == 0 \/ value (imported s) k <= target_load - value meta k)).
Proof.
  intros Ho.
  destruct (match_ranks_matched whoami target_load (value meta) beat importers exporters
    (MkM meta imports empty_state)) as (m & Hm & _ & _ & Ht & Hw & He & Hi & Hp & Hg);
    [by apply matched_empty|].
  exists m. split; [done|]. unfold room_ex, room_im in *. split; [done|]. split; [done|]. split.
  - intros k. split; [apply Hp|]. destruct (He k); [by left|right; lra].
  - intros k. split; [apply Hg|]. destruct (Hi k); [by left|right; lra].
Qed.

Lemma matching_conserves_witness :
  exists m, match_ranks 0 (4 : Q) 1 [(1, 1%Z)] [(7, 0%Z)]
              (MkM [(0%Z, 7); (1%Z, 1)] [] empty_state) = Some m /\
    total (exported (state m)) == total (imported (state m)) /\
    total (targets (state m)) == value (exported (state m)) 0.
Proof.
  destruct (matching_conserves 0 4 1 [(1, 1%Z)] [(7, 0%Z)] [(0%Z, 7); (1%Z, 1)] [])
    as (m & H & H1 & H2 & _); [exists 0%Z; simpl; lia|].
  exists m. split; [exact H|]. split; [exact H1|exact H2].
Defined.

(** An exporter whose load is the target ends the matching of an even beat
    before the others have had a turn. *)
Example even_beat_stops_at_balanced :
  let meta := [(0%Z, 9 : Q); (1%Z, 5); (2%Z, 1)] in
  let run beat := match_ranks 0 5 beat [(1, 2%Z)] [(5, 1%Z); (9, 0%Z)] (MkM meta [] empty_state) in
  (m ← run 1%Z; Some (targets (state m))) = Some [(2%Z, inject_Z 0 + 4)] /\
  (m ← run 2%Z; Some (targets (state m))) = Some [].
Proof. by vm_compute. Qed.

(** An exporter that its import sources have drained ends it likewise. *)
Example drained_exporter_stops_matching :
  let meta := [(0%Z, 8 : Q); (1%Z, 9); (2%Z, 1); (3%Z, 2)] in
  let run imports := match_ranks 0 5 1 [(1, 2%Z); (2, 3%Z)] [(8, 0%Z); (9, 1%Z)]
                       (MkM meta imports empty_state) in
  (m ← run [(1%Z, [(2%Z, 1)])]; Some (targets (state m))) = Some [] /\
  (m ← run []; Some (bool_decide (targets (state m) = []))) = Some false.
Proof. by vm_compute. Qed.

(** ** How far the matching goes *)

Section exhaust.
Context (whoami : Z) (target_load : Q) (load : Z -> Q).
Notation matched := (matched whoami target_load load).
Notation room_ex := (room_ex target_load load).
Notation room_im := (room_im target_load load).

(** The entries of the list from where an iterator is: only the first one may
    have been matched, and has room left then. *)
Definition pending (room : Z -> Q) (fresh : Q * Z -> Q) (l : list (Q * Z)) : Prop :=
  match l with
  | [] => True
  | x :: l => (room x.2 == fresh x \/ small < room x.2) /\ Forall (fun y => room y.2 == fresh y) l
  end.

Definition over (x : Q * Z) : Q := x.1 - target_load.
Definition under (x : Q * Z) : Q := target_load - x.1.

Definition spent (room : Z -> Q) (l : list (Q * Z)) : Prop := Forall (fun x => room x.2 <= small) l.

Lemma pending_tail room room' fresh x l :
  pending room fresh (x :: l) -> (forall y, y ∈ l -> room' y.2 = room y.2) -> pending room' fresh l.
Proof.
  intros [_ Hf] Hr. rewrite Forall_forall in Hf. destruct l as [|y l]; [done|].
  assert (Hy : forall z, z ∈ y :: l -> room' z.2 == fresh z) by (intros z Hz; rewrite Hr by done; by apply Hf).
  split; [left; apply Hy; set_solver|]. apply Forall_forall. intros z Hz. apply Hy. set_solver.
Qed.

Lemma pending_head room room' fresh x l :
  pending room fresh (x :: l) -> small < room' x.2 ->
  (forall y, y ∈ l -> room' y.2 = room y.2) -> pending room' fresh (x :: l).
Proof.
  intros [_ Hf] Hx Hr. split; [by right|]. rewrite Forall_forall in Hf. apply Forall_forall.
  intros y Hy. rewrite Hr by done. by apply Hf.
Qed.

(** A list sorted away from the target with no room at its head has none. *)
Lemma pending_spent room fresh x l :
  pending room fresh (x :: l) -> room x.2 < small ->
  Forall (fun y => fresh y <= fresh x) l -> spent room (x :: l).
Proof.
  intros [[Hx|Hx] Hf] Hs Hl; [|lra]. constructor; [by apply Qlt_le_weak|].
  rewrite Forall_forall in Hf, Hl. apply Forall_forall. intros y Hy. rewrite (Hf y Hy).
  specialize (Hl y Hy). lra.
Qed.

Lemma spent_app_r room room' l x :
  spent room l -> (forall y, y ∈ l -> room' y.2 = room y.2) -> room' x.2 <= small -> spent room' (l ++ [x]).
Proof.
  unfold spent. rewrite !Forall_forall. intros Hl Hr Hx y [Hy|Hy]%elem_of_app.
  - rewrite Hr by done. by apply Hl.
  - apply list_elem_of_singleton in Hy as ->. done.
Qed.

Lemma spent_same room room' l :
  spent room l -> (forall y, y ∈ l -> room' y.2 = room y.2) -> spent room' l.
Proof. unfold spent. rewrite !Forall_forall. intros Hl Hr y Hy. rewrite Hr by done. by apply Hl. Qed.

(** Where an iterator over [all] is: what is before it is spent. *)
Definition cursor (room : Z -> Q) (fresh : Q * Z -> Q) (all rest : list (Q * Z)) : Prop :=
  exists before, all = before ++ rest /\ spent room before /\ pending room fresh rest.

(** One list's part of a turn: the room of the head changes, the iterator moves
    on when little is left. *)
Lemma cursor_step room room' fresh all x rest :
  NoDup (map snd all) -> cursor room fresh all (x :: rest) ->
  (forall k, k <> x.2 -> room' k = room k) ->
  cursor room' fresh all (if dle (room' x.2) small then rest else x :: rest).
Proof.
  intros Hn (before & -> & Hs & Hp) Hr.
  assert (Hb : forall y, y ∈ before -> room' y.2 = room y.2).
  { intros y Hy. apply Hr. intros E. rewrite map_app in Hn.
    apply NoDup_app in Hn as (_ & Hd & _). apply (Hd y.2); [by apply list_elem_of_fmap_2|].
    rewrite E. simpl. set_solver. }
  assert (Ha : forall y, y ∈ rest -> room' y.2 = room y.2).
  { intros y Hy. apply Hr. intros E. rewrite map_app in Hn. apply NoDup_app in Hn as (_ & _ & Hd).
    simpl in Hd. apply NoDup_cons in Hd as [Hd _]. apply Hd. rewrite <- E. by apply list_elem_of_fmap_2. }
  destruct (dle (room' x.2) small) eqn:E.
  - apply dle_Q in E. exists (before ++ [x]). split; [by rewrite <- app_assoc|].
    split; [by eapply spent_app_r|]. by eapply pending_tail.
  - apply dle_Q_false in E. exists before. split; [done|].
    split; [by eapply spent_same|]. by eapply pending_head.
Qed.

Lemma cursor_stop room fresh all x rest :
  StronglySorted (fun a b => fresh b <= fresh a) all -> cursor room fresh all (x :: rest) ->
  room x.2 < small -> spent room all.
Proof.
  intros Hs (before & -> & Hb & Hp) Hx. apply Forall_app. split; [done|].
  eapply pending_spent; [done|done|].
  clear -Hs. induction before as [|y l IH]; simpl in Hs; apply StronglySorted_inv in Hs as [? ?]; auto.
Qed.

Lemma cursor_ext room room' fresh all rest :
  (forall k, room' k = room k) -> cursor room fresh all rest -> cursor room' fresh all rest.
Proof.
  intros Hr (before & -> & Hs & Hp). exists before. split; [done|]. split; [by eapply spent_same|].
  destruct rest as [|x rest]; [done|]. destruct Hp as [H1 H2]. split; [by rewrite Hr|].
  eapply Forall_impl; [done|]. intros y Hy. by rewrite Hr.
Qed.

Definition exhausted (exs ims : list (Q * Z)) (m : mstate Q) : Prop :=
  spent (room_ex m) exs \/ spent (room_im m) ims.

Section pairs.
Context (exs ims : list (Q * Z)).
Hypothesis exs_ranks : NoDup (map snd exs).
Hypothesis ims_ranks : NoDup (map snd ims).
Hypothesis exs_sorted : StronglySorted (fun a b => over b <= over a) exs.
Hypothesis ims_sorted : StronglySorted (fun a b => under b <= under a) ims.

Lemma pair_step_cursor exs' ims' m :
  matched m -> cursor (room_ex m) over exs exs' -> cursor (room_im m) under ims ims' ->
  match pair_step whoami target_load (exs', ims', m) with
  | inl (exs'', ims'', m') =>
      cursor (room_ex m') over exs exs'' /\ cursor (room_im m') under ims ims''
  | inr r => exists m', r = Some m' /\ exhausted exs ims m'
  end.
Proof.
  intros Hm Cx Ci. unfold pair_step. destruct exs' as [|[lx ex] exs'].
  { exists m. split; [done|]. left. destruct Cx as (b & -> & Hs & _). by rewrite app_nil_r. }
  destruct ims' as [|[li im] ims'].
  { exists m. split; [done|]. right. destruct Ci as (b & -> & Hs & _). by rewrite app_nil_r. }
  destruct (get_maxex_spec whoami target_load load m ex Hm) as (m1 & -> & Hm1 & RI1 & RX1 & _).
  destruct (get_maxim_spec whoami target_load load m1 im Hm1) as (m2 & -> & Hm2 & RI2 & RX2 & _).
  assert (RX : forall k, room_ex m2 k = room_ex m k) by (intros; by rewrite RX2).
  assert (RI : forall k, room_im m2 k = room_im m k) by (intros; by rewrite RI2).
  apply (cursor_ext _ _ _ _ _ RX) in Cx. apply (cursor_ext _ _ _ _ _ RI) in Ci.
  destruct (dlt (room_ex m ex) small) eqn:Ex; cbn [orb].
  { exists m2. split; [done|]. left. eapply cursor_stop; [done|done|].
    simpl. rewrite RX. by apply dlt_Q. }
  destruct (dlt (room_im m1 im) small) eqn:Ei.
  { exists m2. split; [done|]. right. eapply cursor_stop; [done|done|].
    simpl. rewrite RI2. by apply dlt_Q. }
  destruct (try_match_spec whoami target_load load m2 ex im (room_ex m ex) (room_im m1 im))
    as (a & b & m3 & -> & Hm3 & Ha & Hb & _ & _ & _ & KX & KI & _);
    [done|by rewrite RX|by rewrite RI2|by apply small_ge|by apply small_ge|].
  assert (Ea : dle a small = dle (room_ex m3 ex) small) by (apply eq_true_iff_eq; rewrite !dle_Q; by rewrite Ha).
  assert (Eb : dle b small = dle (room_im m3 im) small) by (apply eq_true_iff_eq; rewrite !dle_Q; by rewrite Hb).
  rewrite Ea, Eb. split; eapply (cursor_step _ _ _ _ (_, _)); eauto.
Qed.

Lemma match_pairs_exhausted m :
  matched m -> (forall x, x ∈ exs -> room_ex m x.2 == over x) -> (forall x, x ∈ ims -> room_im m x.2 == under x) ->
  exists m', match_pairs whoami target_load exs ims m = Some m' /\ exhausted exs ims m'.
Proof.
  intros Hm Hx Hi. unfold match_pairs.
  assert (C : forall room fresh (l : list (Q * Z)), (forall x, x ∈ l -> room x.2 == fresh x) -> cursor room fresh l l).
  { intros room fresh l Hl. exists []. split; [done|]. split; [constructor|].
    destruct l as [|x l]; [done|]. split; [left; apply Hl; set_solver|].
    apply Forall_forall. intros y Hy. apply Hl. set_solver. }
  apply (while_ends
    (fun x => matched x.2 /\ cursor (room_ex x.2) over exs x.1.1 /\ cursor (room_im x.2) under ims x.1.2)
    (fun x => Z.of_nat (length x.1.1 + length x.1.2))).
  - intros [[exs' ims'] m'] (Hm' & Cx & Ci). cbn [fst snd] in *.
    pose proof (pair_step_cursor exs' ims' m' Hm' Cx Ci) as H1.
    pose proof (pair_step_spec whoami target_load load exs' ims' m' Hm') as H2.
    destruct (pair_step _ _ _) as [[[a b] c]|r]; [|done]. cbn [fst snd]. destruct H2. by split; [|lia].
  - intros. lia.
  - cbn [fst snd]. split; [done|]. split; by apply C.
  - simpl. apply Z.pow_gt_lin_r; lia.
Qed.
End pairs.

(** Without import sources the first pass matches nothing. *)
Lemma match_exporters_idle exporters m :
  matched m -> ordered (mds_import_map m) -> (forall k, default [] (map_find (mds_import_map m) k) = []) ->
  let m' := match_exporters whoami target_load exporters m in
  matched m' /\ (forall k, room_ex m' k = room_ex m k) /\ (forall k, room_im m' k = room_im m k).
Proof.
  revert m. induction exporters as [|[l ex] exporters IH]; intros m Hm Ho Hn; cbn [match_exporters]; [done|].
  destruct (get_maxex_spec whoami target_load load m ex Hm) as (m1 & -> & Hm1 & RI1 & RX1 & Em).
  rewrite <- Em in Ho, Hn.
  assert (exists m2, (if dle (room_ex m ex) small then m1
      else let '(sources, m2) := sources_of m1 ex in match_sources whoami target_load ex sources (room_ex m ex) m2) = m2 /\
      matched m2 /\ (forall k, room_ex m2 k = room_ex m1 k) /\ (forall k, room_im m2 k = room_im m1 k) /\
      ordered (mds_import_map m2) /\ (forall k, default [] (map_find (mds_import_map m2) k) = []))
    as (m2 & -> & Hm2 & RX2 & RI2 & Ho2 & Hn2).
  { destruct (dle _ _); [by exists m1|]. unfold sources_of. pose proof (Hn ex) as Hex.
    destruct (map_find (mds_import_map m1) ex) as [sources|]; simpl in Hex.
    - subst sources. by exists m1.
    - exists (MkM (mds_meta_load m1) (map_set (mds_import_map m1) ex []) (state m1)).
      split; [done|]. split; [done|]. split; [done|]. split; [done|]. split; [by apply ordered_set|].
      intros k. cbn [mds_import_map]. rewrite find_set by done. destruct (k =? ex)%Z; [done|apply Hn]. }
  destruct (IH m2 Hm2 Ho2 Hn2) as (Hm' & RX & RI). split; [done|].
  split; intros k; [by rewrite RX, RX2, RX1|by rewrite RI, RI2, RI1].
Qed.
End exhaust.

Lemma sorted_weaken {A} (R S : A -> A -> Prop) l :
  (forall a b, R a b -> S a b) -> StronglySorted R l -> StronglySorted S l.
Proof. intros Hrs. induction 1 as [|a l _ IH Hl]; constructor; [done|]. eapply Forall_impl; [done|]. auto. Qed.

Lemma elem_of_rev_list {A} (x : A) l : x ∈ rev l <-> x ∈ l.
Proof. rewrite !list_elem_of_In. symmetry. apply in_rev. Qed.

(** C34: With the loads as exact rationals: on an odd beat, when no rank has
    imports to give back, and with the ranks listed once each in the order of
    their loads, the matching stops only when every exporter is within a
    thousandth of the target or every importer is. *)
Theorem matching_exhaustive whoami (target_load : Q) beat importers exporters meta imports :
  Z.rem beat 2 = 1%Z -> ordered meta -> ordered imports ->
  (forall k, default [] (map_find imports k) = []) ->
  NoDup (map snd importers) -> NoDup (map snd exporters) ->
  Forall (fun x => x.1 = value meta x.2) importers -> Forall (fun x => x.1 = value meta x.2) exporters ->
  StronglySorted (fun a b => a.1 <= b.1) importers ->
  StronglySorted (fun a b => b.1 <= a.1) (rev exporters) ->
  exists m, match_ranks whoami target_load beat importers exporters (MkM meta imports empty_state) = Some m /\
    ((forall x, x ∈ exporters -> x.1 - target_load - value (exported (state m)) x.2 <= small) \/
     (forall x, x ∈ importers -> target_load - x.1 - value (imported (state m)) x.2 <= small)).
Proof.
  intros Hb Ho Hoi Hn Ni Ne Vi Ve Si Se. unfold match_ranks. rewrite Hb. cbn [Z.eqb].
  rewrite Forall_forall in Vi. rewrite Forall_forall in Ve.
  destruct (match_exporters_idle whoami target_load (value meta) (rev exporters)
    (MkM meta imports empty_state)) as (Hm & RX & RI); [by apply matched_empty|done|done|].
  destruct (match_pairs_exhausted whoami target_load (value meta) (rev exporters) importers)
    with (m := match_exporters whoami target_load (rev exporters) (MkM meta imports empty_state))
    as (m & E & He).
  - rewrite map_rev. apply NoDup_ListNoDup, List.NoDup_rev. by apply NoDup_ListNoDup.
  - done.
  - eapply sorted_weaken; [|done]. unfold over. simpl. intros; lra.
  - eapply sorted_weaken; [|done]. unfold under. simpl. intros; lra.
  - done.
  - intros x Hx. rewrite elem_of_rev_list in Hx. rewrite RX. unfold room_ex, over. rewrite <- (Ve x Hx). cbn. ring.
  - intros x Hx. rewrite RI. unfold room_im, under. rewrite <- (Vi x Hx). cbn. ring.
  - exists m. split; [exact E|]. unfold exhausted, spent, room_ex, room_im in He. rewrite !Forall_forall in He.
    destruct He as [He|He]; [left|right]; intros x Hx.
    + rewrite (Ve x Hx). apply He. by apply elem_of_rev_list.
    + rewrite (Vi x Hx). by apply He.
Qed.

Lemma matching_exhaustive_witness :
  exists m, match_ranks 0 (4 : Q) 1 [(1, 1%Z)] [(7, 0%Z)]
              (MkM [(0%Z, 7); (1%Z, 1)] [] empty_state) = Some m /\
    ((forall x, x ∈ [(7, 0%Z)] -> x.1 - 4 - value (exported (state m)) x.2 <= small) \/
     (forall x, x ∈ [(1, 1%Z)] -> 4 - x.1 - value (imported (state m)) x.2 <= small)).
Proof.
  apply (matching_exhaustive 0 4 1 [(1, 1%Z)] [(7, 0%Z)] [(0%Z, 7); (1%Z, 1)] []);
    [done|exists 0%Z; simpl; lia|by exists 0%Z|done|apply NoDup_singleton|apply NoDup_singleton|
     by repeat constructor|by repeat constructor|by repeat constructor|by repeat constructor].
Defined.

(** ** The balancer's own loads *)

Lemma calc_nonneg root (cands : list (candidate Q)) l a :
  Forall (fun c => 0 <= cand_load c) cands -> 0 <= calc_mds_load root cands l a.
Proof.
  intros Hc. unfold calc_mds_load. destruct root; simpl; [|done].
  assert (G : forall s, 0 <= s -> 0 <= fold_left (fun s c =>
    if freezing c || frozen c || stray c then s else s + cand_load c) cands s).
  { induction Hc as [|c cands H _ IH]; intros s Hs; simpl; [done|]. apply IH.
    destruct (_ || _); [done|]. lra. }
  by apply G.
Qed.

Lemma multi_insert_elem {V} (x : Q * V) k v l : x ∈ multi_insert k v l -> x = (k, v) \/ x ∈ l.
Proof.
  induction l as [|[k' v'] l IH]; cbn [multi_insert]; [set_solver|].
  destruct (dlt k k'); [set_solver|]. intros [->|Hx]%elem_of_cons; [set_solver|].
  destruct (IH Hx); set_solver.
Qed.

(** When every rank's load is the same. *)
Lemma rank_loads_same calc now whoami (f c : Q) ranks loads meta mine total load_map :
  (forall l, calc l false = c) -> ordered meta ->
  exists loads' meta' mine' total' load_map',
    rank_loads calc now whoami f ranks loads meta mine total load_map =
      (loads', meta', mine', total', load_map') /\
    ordered meta' /\ (forall k, k ∈ ranks -> value meta' k = c * f) /\
    (forall k, value meta k = c * f -> value meta' k = c * f) /\
    total' == total + inject_Z (Z.of_nat (length ranks)) * (c * f) /\
    mine' = (if bool_decide (whoami ∈ ranks) then c * f else mine) /\
    (forall x, x ∈ load_map' -> x ∈ load_map \/ (x.1 = c * f /\ x.2 ∈ ranks)).
Proof.
  intros Hc. revert loads meta mine total load_map.
  induction ranks as [|i ranks IH]; intros loads meta mine total load_map Ho; cbn [rank_loads].
  { eexists _, _, _, _, _. split; [done|]. split; [done|]. split; [set_solver|]. split; [done|].
    split; [simpl; change (inject_Z 0) with 0; ring|]. split; [|by left].
    by rewrite bool_decide_false by set_solver. }
  rewrite Hc. cbn [dmul dadd Q_double].
  edestruct (IH (map_emplace loads i (Load.new_load now)) (map_set meta i (c * f))
    (if (whoami =? i)%Z then c * f else mine) (total + c * f) (multi_insert (c * f) i load_map))
    as (l' & m' & mi' & t' & lm' & -> & Ho' & Hv & Hk & Ht & Hmi & Hlm); [by apply ordered_set|].
  assert (Hs : forall k, value (map_set meta i (c * f)) k = if (k =? i)%Z then c * f else value meta k).
  { intros k. unfold value. rewrite find_set by done. by destruct (k =? i)%Z. }
  eexists _, _, _, _, _. split; [done|]. split; [done|]. split; [|split; [|split; [|split]]].
  - intros k [->|Hin]%elem_of_cons; [apply Hk; by rewrite Hs, Z.eqb_refl|by apply Hv].
  - intros k E. apply Hk. rewrite Hs. by destruct (k =? i)%Z.
  - rewrite Ht. cbn [length]. rewrite Nat2Z.inj_succ, <- Z.add_1_r, inject_Z_plus.
    change (inject_Z 1) with 1. ring.
  - rewrite Hmi. destruct (Z.eqb_spec whoami i) as [->|Hne].
    + rewrite (bool_decide_true (i ∈ i :: ranks)) by set_solver. by destruct (bool_decide _).
    + assert (whoami ∈ i :: ranks <-> whoami ∈ ranks) as E by set_solver.
      by rewrite (bool_decide_ext _ _ E).
  - intros x Hx. destruct (Hlm x Hx) as [H|[H1 H2]]; [|right; set_solver].
    destruct (multi_insert_elem _ _ _ _ H) as [->|]; [right; set_solver|by left].
Qed.

Lemma split_ranks_all (t : Q) load_map ims exs :
  (forall x, x ∈ load_map -> t <= x.1) ->
  exists exs', split_ranks t load_map ims exs = (ims, exs') /\
    (forall x, x ∈ exs' -> x ∈ exs \/ x ∈ load_map).
Proof.
  revert exs. induction load_map as [|[l i] load_map IH]; intros exs Hl; cbn [split_ranks].
  { exists exs. split; [done|]. by left. }
  rewrite (proj2 (dlt_Q_false l t)) by (apply (Hl (l, i)); set_solver).
  destruct (IH (multi_insert l i exs)) as (exs' & -> & He); [intros; apply Hl; set_solver|].
  exists exs'. split; [done|]. intros x Hx. destruct (He x Hx) as [H|H]; [|set_solver].
  destruct (multi_insert_elem _ _ _ _ H); set_solver.
Qed.

(** Exporters without room are passed over. *)
Lemma match_exporters_none whoami t load exporters m :
  matched whoami t load m -> (forall x, x ∈ exporters -> room_ex t load m x.2 <= small) ->
  targets (state (match_exporters whoami t exporters m)) = targets (state m).
Proof.
  revert m. induction exporters as [|[l ex] exporters IH]; intros m Hm Hr; cbn [match_exporters]; [done|].
  destruct (get_maxex_spec whoami t load m ex Hm) as (m1 & E & Hm1 & _ & RX & _). rewrite E.
  assert (Et : targets (state m1) = targets (state m)).
  { unfold get_maxex in E. destruct (at_key (mds_meta_load m) ex), (at_key (exported (state m)) ex).
    apply (f_equal snd) in E. cbn [snd] in E. by rewrite <- E. }
  rewrite (proj2 (dle_Q _ _)) by (apply (Hr (l, ex)); set_solver).
  rewrite IH; [done|done|]. intros x Hx. rewrite RX. apply Hr. set_solver.
Qed.

Lemma match_pairs_no_importers whoami (t : Q) exs m : match_pairs whoami t exs [] m = Some m.
Proof.
  unfold match_pairs, while. assert (E : forall n, loop n (pair_step whoami t) (exs, [], m) = inr (Some m)).
  { induction n as [|n IH]; cbn [loop]; [by destruct exs as [|[]]|by rewrite IH]. }
  by rewrite E.
Qed.

(** C28: [calc_mds_load] answers the load of this rank whatever rank's load it is
    given, so the balancer's own policy never finds a target to export to,
    whatever loads the other ranks have reported. *)
Theorem prep_rebalance_never root cands min_rebalance now up cluster_size whoami beat (b : balancer Q) :
  Forall (fun c => 0 <= cand_load c) cands -> 0 < min_rebalance ->
  (0 <= whoami < cluster_size)%Z -> ordered (meta_load b) ->
  exists o b', prep_rebalance false root cands min_rebalance now up cluster_size whoami beat b = Some (o, b') /\
    match o with Thrash _ => False | Underloaded | Recent => True | Rebalance s => targets s = [] end.
Proof.
  intros Hc Hmin Hw Ho. unfold prep_rebalance.
  set (calc := calc_mds_load root cands). set (c := calc (Load.new_load now) false).
  assert (Pc : 0 <= c) by by apply calc_nonneg.
  set (f := match map_find (mds_load b) whoami with Some _ => _ | None => _ end).
  assert (Hf : c * f == c).
  { unfold f. destruct (map_find (mds_load b) whoami) as [l|]; [|cbn; change (inject_Z 1) with 1; ring].
    change (calc l false) with c. change (calc l true) with c.
    destruct (dlt (d_int 0) c) eqn:E; [|cbn; change (inject_Z 1) with 1; ring].
    apply dlt_Q in E. cbn in E |- *. change (inject_Z 0) with 0 in E. field. lra. }
  destruct (rank_loads_same calc now whoami f c (seqZ 0 cluster_size) (mds_load b) (meta_load b)
    (my_load b) (d_int 0) []) as (l' & m' & mi & t & lm & -> & Ho' & Hv & _ & Ht & -> & Hlm); [done|done|].
  rewrite bool_decide_true by (apply elem_of_seqZ; lia).
  set (tl := ddiv t (d_int cluster_size)).
  assert (Htl : tl == c).
  { unfold tl. cbn. rewrite Ht, length_seqZ, Z2Nat.id, Hf by lia. cbn. change (inject_Z 0) with 0. field.
    intros E. change 0 with (inject_Z 0) in E. rewrite inject_Z_injective in E. lia. }
  destruct (dlt _ _) eqn:E; [by eexists _, _|]. apply dlt_Q_false in E.
  cbn [dmul dadd d_int Q_double] in E. change (inject_Z 1) with 1 in E.
  rewrite Hf, Htl in E. assert (Ec : c == 0) by nra.
  destruct (_ && _); [by eexists _, _|].
  destruct (split_ranks_all tl lm [] []) as (exs & -> & Hex).
  { intros x Hx. destruct (Hlm x Hx) as [?|[-> _]]; [set_solver|]. rewrite Htl, Hf. lra. }
  set (m0 := MkM m' (import_map b) empty_state).
  assert (Hr : forall l, (forall x, x ∈ l -> x ∈ exs) ->
    targets (state (match_exporters whoami tl l m0)) = []).
  { intros l Hl. rewrite (match_exporters_none whoami tl (value m')); [done|by apply matched_empty|].
    intros x Hx. destruct (Hex x (Hl x Hx)) as [?|Hx']; [set_solver|].
    destruct (Hlm x Hx') as [?|[_ Hk]]; [set_solver|]. unfold room_ex.
    rewrite (Hv _ Hk), Hf, Htl. change (value _ _) with 0. change small with (1 # 1000). lra. }
  unfold match_ranks. rewrite !match_pairs_no_importers. destruct (_ =? _)%Z; obind;
    eexists _, _; (split; [done|]); apply Hr; intros x; by rewrite elem_of_rev_list.
Qed.

Lemma prep_rebalance_witness :
  exists o b', prep_rebalance false true [MkCand false false false 9] (1 # 10) (MkTime 0 0) [] 2 0 1
      (MkBal 5 0 [] [] [] 0 0) = Some (o, b') /\
    match o with Thrash _ => False | Underloaded | Recent => True | Rebalance s => targets s = [] end.
Proof.
  apply (prep_rebalance_never true [MkCand false false false 9] (1 # 10) (MkTime 0 0) [] 2 0 1
    (MkBal 5 0 [] [] [] 0 0)); [by repeat constructor|done|lia|by exists 0%Z].
Defined.
End MatchingFacts.
