(* ===== verification/Exports.v ===== *)
(** * Choosing what to export, src/mds/MDBalancer.cc

    [find_exports] searches a directory fragment for fragments below it whose
    load adds up to an amount, [find_exports_wrapper] chooses where to search,
    and [simple_determine_rebalance] turns the decisions of the imbalance factor
    into exports.  A fragment is a tree of the fragments of the directories in
    it, with what the code asks of each: its flags, and the answer of
    [CDir::get_load] in the epoch.  [std::hash] is a parameter. *)

From Stdlib Require Import QArith Lqa.
From stdpp Require Import list.
From S2P Require Import Prelude Double PathUtil Frag HitCount Load Matching.

Module Exports.
Section exports.
Context {D} `{Double D}.

(** [id] stands for the pointer. *)
Record dinfo := MkInfo {
  id : Z; is_auth : bool; is_frozen : bool; is_freezing : bool; is_stray : bool; is_rep : bool;
  ino : Z; dfrag : Z; load : D
}.

Inductive cdir := CDir (info : dinfo) (subdirs : list cdir).

Definition info (d : cdir) : dinfo := let '(CDir i _) := d in i.

(** The lists that the search fills. *)
Record found := MkFound { exports : list Z; have : D; already_exporting : list Z }.

Definition export (pop : D) (i : Z) (f : found) : found :=
  MkFound (exports f ++ [i]) (have f + pop)%D (i :: already_exporting f).

(** The options that [find_exports] reads. *)
Record config := MkConfig {
  mds_bal_min_start : D; mds_bal_need_min : D; mds_bal_need_max : D; mds_bal_midchunk : D;
  mds_bal_frag : bool; num_in_mds : Z
}.

(** What the scan of a fragment collects. *)
Record scan := MkScan {
  bigger_rep : list (cdir * (found -> found)); bigger_unrep : list (cdir * (found -> found));
  smaller : list (D * cdir); skip_pos : Z
}.

Definition minchunk : D := d_ratio 1 2.

Section find.
Context (hash_frag_func : Z -> Z) (c : config).

(** The rank that the hash mode gives a fragment to. *)
Definition frag_mod_dest (i : dinfo) : Z :=
  let frag_num := Z.shiftr (Frag.ceph_frag_value (dfrag i)) (24 - Frag.ceph_frag_bits (dfrag i)) in
  u32 (hash_frag_func (u32 (ino i + frag_num))) mod u32 (num_in_mds c).

(** Where a fragment with too little load goes. *)
Definition add_smaller (target : Z) (d : cdir) (s : scan) : scan :=
  let pop := load (info d) in
  let put pos := MkScan (bigger_rep s) (bigger_unrep s) (Matching.multi_insert pop d (smaller s)) pos in
  if negb (mds_bal_frag c) then
    if frag_mod_dest (info d) =? target then put 0
    else if num_in_mds c + 1 <=? skip_pos s + 1 then put 0
    else MkScan (bigger_rep s) (bigger_unrep s) (smaller s) (skip_pos s + 1)
  else put (skip_pos s).

Definition skipped (f : found) (i : dinfo) : bool :=
  negb (is_auth i) || existsb (Z.eqb (id i)) (already_exporting f) ||
  is_frozen i || is_freezing i || is_stray i.

(** The loop over the subdirectories; [inl] is the return of a lucky find. *)
Fixpoint scan_subdirs (need needmin needmax : D) (target : Z) (f : found)
  (subdirs : list (cdir * (found -> found))) (s : scan) : found + scan :=
  match subdirs with
  | [] => inr s
  | (d, search) :: subdirs =>
      if skipped f (info d) then scan_subdirs need needmin needmax target f subdirs s
      else
        let pop := load (info d) in
        if (pop <? minchunk)%D then scan_subdirs need needmin needmax target f subdirs s
        else if (pop >? needmin)%D && (pop <? needmax)%D then inl (export pop (id (info d)) f)
        else
          let s :=
            if (pop >? need)%D then
              if is_rep (info d)
              then MkScan (bigger_rep s ++ [(d, search)]) (bigger_unrep s) (smaller s) (skip_pos s)
              else MkScan (bigger_rep s) (bigger_unrep s ++ [(d, search)]) (smaller s) (skip_pos s)
            else add_smaller target d s in
          scan_subdirs need needmin needmax target f subdirs s
  end.

(** Searches the fragments in turn; the flag says that enough was found. *)
Fixpoint descend (need : D) (dirs : list (cdir * (found -> found))) (f : found) : found * bool :=
  match dirs with
  | [] => (f, false)
  | (_, search) :: dirs =>
      let f := search f in
      if (have f >? need)%D then (f, true) else descend need dirs f
  end.

Fixpoint take_smaller (need : D) (l : list (D * cdir)) (f : found) : found * bool :=
  match l with
  | [] => (f, false)
  | (pop, d) :: l =>
      let f := export pop (id (info d)) f in
      if (have f >? need)%D then (f, true) else take_smaller need l f
  end.

(** After the scan: one big enough small fragment, or the bigger fragments that
    are not replicated, the smaller ones, and the replicated ones. *)
Definition choose (need midchunk : D) (s : scan) (f : found) : found :=
  let l := rev (smaller s) in
  match l with
  | (pop, d) :: _ =>
      if negb (pop <? midchunk)%D then export pop (id (info d)) f
      else
        let '(f, enough) := descend need (bigger_unrep s) f in
        if enough then f
        else let '(f, enough) := take_smaller need l f in
             if enough then f else (descend need (bigger_rep s) f).1
  | [] =>
      let '(f, enough) := descend need (bigger_unrep s) f in
      if enough then f else (descend need (bigger_rep s) f).1
  end.

(** One fragment, given how to search those below; searches below have the
    default target. *)
Definition find_in (subdirs : list (cdir * (found -> found))) (amount : D) (target : Z) (f : found) : found :=
  let need := (amount - have f)%D in
  if (need <? amount * mds_bal_min_start c)%D then f
  else
    let needmax := (need * mds_bal_need_max c)%D in
    let needmin := (need * mds_bal_need_min c)%D in
    let midchunk := (need * mds_bal_midchunk c)%D in
    match scan_subdirs need needmin needmax target f subdirs (MkScan [] [] [] (num_in_mds c)) with
    | inl f => f
    | inr s => choose need midchunk s f
    end.

Fixpoint find_exports (amount : D) (target : Z) (d : cdir) (f : found) : found :=
  match d with
  | CDir _ subdirs => find_in (map (fun e => (e, find_exports amount 0 e)) subdirs) amount target f
  end.

(** ** find_exports_wrapper *)

(** A subtree root: the fragments of its directory, and that directory's parent. *)
Record subtree := MkSubtree {
  dir : cdir; root_stray : bool; path : str; dirfrags : list cdir; parent_dir : option cdir
}.

Definition dive (amount : D) (target : Z) (l : list cdir) (f : found) : found :=
  fold_left (fun f d => if (load (info d) >? d_ratio 1 10 * amount)%D
                        then find_exports amount target d f else f) l f.

(** [little_dfls] grows by the fragments for every fragment. *)
Fixpoint dive_all (amount : D) (target : Z) (dfls all little_dfls : list cdir) (f : found) : found :=
  match dfls with
  | [] => f
  | _ :: dfls =>
      let little_dfls := little_dfls ++ all in
      dive_all amount target dfls all little_dfls (dive amount target little_dfls f)
  end.

Definition find_exports_wrapper (nodeid : Z) (t : subtree) (amount : D) (target : Z) (f : found) : found :=
  if root_stray t then f
  else match PathUtil.workload2type (PathUtil.match_ (path t)) with
  | PathUtil.WLT_ROOT => dive_all amount target (dirfrags t) (dirfrags t) [] f
  | _ =>
      if nodeid =? 0 then find_exports amount target (dir t) f
      else match parent_dir t with
           | Some p => find_exports amount target p f
           | None => find_exports amount target (dir t) f
           end
  end.

(** ** simple_determine_rebalance *)

Record migration_decision := MkDecision {
  target_import_mds : Z; target_export_load : D; target_export_percent : D
}.

Fixpoint search_candidates (nodeid : Z) (ex_load : D) (target : Z) (candidates : list subtree) (f : found) : found :=
  match candidates with
  | [] => f
  | t :: candidates =>
      let i := info (dir t) in
      if is_freezing i || is_frozen i || root_stray t
      then search_candidates nodeid ex_load target candidates f
      else
        let f := find_exports_wrapper nodeid t ex_load target f in
        if (have f >=? d_ratio 8 10 * ex_load)%D then f
        else search_candidates nodeid ex_load target candidates f
  end.

(** The calls of [export_dir_nicely], in order; the export queue is cleared before. *)
Fixpoint determine (nodeid my_mds_load : Z) (candidates : list subtree)
  (decisions : list migration_decision) (already : list Z) : list (Z * Z) :=
  match decisions with
  | [] => []
  | it :: decisions =>
      let target := target_import_mds it in
      let ex_load := (target_export_percent it * d_int my_mds_load)%D in
      let f := search_candidates nodeid ex_load target candidates (MkFound [] (d_int 0) already) in
      map (fun e => (e, target)) (exports f) ++
        determine nodeid my_mds_load candidates decisions (already_exporting f)
  end.

Definition simple_determine_rebalance (nodeid : Z) (my_load : D) (candidates : list subtree)
  (decisions : list migration_decision) : list (Z * Z) :=
  determine nodeid (to_int my_load) candidates decisions [].
End find.
End exports.
Arguments dinfo : clear implicits.
Arguments cdir : clear implicits.
Arguments found : clear implicits.
Arguments config : clear implicits.
Arguments scan : clear implicits.
Arguments subtree : clear implicits.
Arguments migration_decision : clear implicits.
End Exports.

(** ** What the search finds *)

Module ExportsFacts.
Import Exports.
Open Scope Q_scope.

(** A fragment and all below it, and their pointers. *)
Fixpoint nodes (d : cdir Q) : list (cdir Q) :=
  match d with CDir _ subdirs => d :: flat_map nodes subdirs end.
Fixpoint ids (d : cdir Q) : list Z :=
  match d with CDir i subdirs => id i :: flat_map ids subdirs end.
Definition subdirs (d : cdir Q) : list (cdir Q) := let '(CDir _ l) := d in l.

Definition loads (l : list (cdir Q)) : Q := fold_right (fun d s => load (info d) + s) 0 l.

(** A fragment that can be exported: authoritative, neither frozen nor
    freezing, not stray, and with at least the smallest load. *)
Definition exportable (d : cdir Q) : Prop :=
  is_auth (info d) = true /\ is_frozen (info d) = false /\ is_freezing (info d) = false /\
  is_stray (info d) = false /\ minchunk <= load (info d).

(** From [f] to [f'] the exports grew by exportable fragments of the trees
    [pool], none of which was being exported, and no two of which overlap. *)
Definition adds (pool : list (cdir Q)) (f f' : found Q) : Prop :=
  exists new,
    exports f' = exports f ++ map (fun d => id (info d)) new /\
    have f' == have f + loads new /\
    (forall x, x ∈ already_exporting f' <->
       x ∈ already_exporting f \/ x ∈ map (fun d => id (info d)) new) /\
    (forall d, d ∈ new -> d ∈ flat_map nodes pool /\ exportable d /\
       id (info d) ∉ already_exporting f) /\
    flat_map ids new ⊆+ flat_map ids pool.

Lemma flat_map_submseteq {A B} (g : A -> list B) p q : p ⊆+ q -> flat_map g p ⊆+ flat_map g q.
Proof.
  intros [k Hk]%submseteq_Permutation.
  assert (flat_map g q ≡ₚ flat_map g p ++ flat_map g k) as ->.
  { rewrite <- flat_map_app. by apply Permutation_flat_map. }
  by apply submseteq_inserts_r.
Qed.

Lemma sub_nodup {A} (l k : list A) : l ⊆+ k -> NoDup k -> NoDup l.
Proof. intros [r Hr]%submseteq_Permutation. rewrite Hr. by intros [? _]%NoDup_app. Qed.

Lemma elem_of_flat_map {A B} (g : A -> list B) (l : list A) y :
  y ∈ flat_map g l <-> exists x, x ∈ l /\ y ∈ g x.
Proof.
  rewrite list_elem_of_In, in_flat_map. by setoid_rewrite list_elem_of_In.
Qed.

Lemma loads_app l1 l2 : loads (l1 ++ l2) == loads l1 + loads l2.
Proof. unfold loads. induction l1 as [|d l1 IH]; simpl; [ring|]. rewrite IH. ring. Qed.

Lemma adds_refl f : adds [] f f.
Proof.
  exists []. split; [by rewrite app_nil_r|]. split; [cbn; ring|].
  split; [intros x; set_solver|]. split; [set_solver|done].
Qed.

Lemma adds_mono p q f f' : p ⊆+ q -> adds p f f' -> adds q f f'.
Proof.
  intros Hp (new & H1 & H2 & H3 & H4 & H5). exists new. split; [done|]. split; [done|]. split; [done|].
  split.
  - intros d Hd. destruct (H4 d Hd) as (Hin & ?). split; [|done].
    eapply elem_of_submseteq; [done|]. by apply flat_map_submseteq.
  - etrans; [done|]. by apply flat_map_submseteq.
Qed.

Lemma adds_nil p f : adds p f f.
Proof. apply (adds_mono []); [apply submseteq_nil_l|apply adds_refl]. Qed.

Lemma adds_trans p1 p2 f f1 f2 : adds p1 f f1 -> adds p2 f1 f2 -> adds (p1 ++ p2) f f2.
Proof.
  intros (n1 & A1 & A2 & A3 & A4 & A5) (n2 & B1 & B2 & B3 & B4 & B5). exists (n1 ++ n2).
  split; [by rewrite B1, A1, map_app, <- app_assoc|].
  split; [rewrite B2, A2, loads_app; ring|].
  split; [intros x; rewrite B3, A3, map_app, elem_of_app; tauto|].
  rewrite !flat_map_app. split; [|by apply submseteq_app].
  intros d [Hd|Hd]%elem_of_app.
  - destruct (A4 d Hd) as (? & ? & ?). rewrite elem_of_app. tauto.
  - destruct (B4 d Hd) as (? & ? & Hn). rewrite elem_of_app. rewrite A3 in Hn. tauto.
Qed.

Lemma adds_export d f :
  exportable d -> id (info d) ∉ already_exporting f -> adds [d] f (export (load (info d)) (id (info d)) f).
Proof.
  intros He Hn. exists [d]. split; [done|]. split; [cbn; ring|].
  split; [intros x; cbn; set_solver|]. split; [|done].
  intros e ->%list_elem_of_singleton. split; [|done]. destruct d; cbn. set_solver.
Qed.

(** A search that adds to the fragments below [d] adds to [d]. *)
Lemma adds_below d f f' : adds (subdirs d) f f' -> adds [d] f f'.
Proof.
  destruct d as [i l]. intros (new & H1 & H2 & H3 & H4 & H5). exists new. cbn [subdirs] in *.
  split; [done|]. split; [done|]. split; [done|]. cbn [flat_map nodes ids]. rewrite !app_nil_r. split.
  - intros d Hd. destruct (H4 d Hd) as (? & ?). split; [|done]. set_solver.
  - by apply submseteq_cons.
Qed.

(** The exports of a search are among the fragments searched. *)
Lemma adds_within pool f f' x :
  adds pool f f' -> x ∈ already_exporting f' -> x ∈ already_exporting f \/ x ∈ flat_map ids pool.
Proof.
  intros (new & _ & _ & H3 & _ & H5) [Hx|Hx]%H3; [by left|right].
  eapply elem_of_submseteq; [|done].
  apply list_elem_of_fmap in Hx as (d & -> & Hd). apply elem_of_flat_map. exists d. split; [done|].
  destruct d. cbn. set_solver.
Qed.

Lemma id_in_ids d : id (info d) ∈ ids d.
Proof. destruct d. cbn. set_solver. Qed.

Lemma id_in_pool d pool : d ∈ pool -> id (info d) ∈ flat_map ids pool.
Proof. intros Hd. apply elem_of_flat_map. exists d. split; [done|apply id_in_ids]. Qed.

(** A search of the fragment it comes with. *)
Definition good (p : cdir Q * (found Q -> found Q)) : Prop := forall f, adds [p.1] f (p.2 f).

Lemma descend_adds need l f : Forall good l -> adds (map fst l) f (descend need l f).1.
Proof.
  intros Hl. revert f. induction Hl as [|[d search] l Hd _ IH]; intros f; cbn [descend map]; [apply adds_refl|].
  destruct (dlt _ _); cbn [fst].
  - apply (adds_mono [d]); [|apply Hd]. apply submseteq_skip, submseteq_nil_l.
  - eapply (adds_trans [d]); [apply Hd|apply IH].
Qed.

(** A fragment that can be taken, with its load. *)
Definition takeable (f : found Q) (p : Q * cdir Q) : Prop :=
  p.1 = load (info p.2) /\ exportable p.2 /\ id (info p.2) ∉ already_exporting f.

Lemma take_adds need l f :
  Forall (takeable f) l -> NoDup (flat_map ids (map snd l)) -> adds (map snd l) f (take_smaller need l f).1.
Proof.
  revert f. induction l as [|[pop d] l IH]; intros f Hl Hn; cbn [take_smaller map]; [apply adds_refl|].
  apply Forall_cons in Hl as [(Hp & He & Ha) Hl]. cbn [fst snd] in Hp, He, Ha. subst pop.
  cbn [map flat_map snd] in Hn. apply NoDup_app in Hn as (_ & Hd & Hn).
  destruct (dlt _ _); cbn [fst].
  - apply (adds_mono [d]); [|by apply adds_export]. apply submseteq_skip, submseteq_nil_l.
  - eapply (adds_trans [d]); [by apply adds_export|]. apply IH; [|done].
    rewrite Forall_forall in Hl. apply Forall_forall. intros [p e] Hin.
    destruct (Hl _ Hin) as (? & ? & Hne). split; [done|]. split; [done|].
    cbn [already_exporting export snd] in *. apply not_elem_of_cons. split; [|done]. intros E.
    apply (Hd (id (info d))); [apply id_in_ids|]. rewrite <- E. apply id_in_pool.
    apply list_elem_of_fmap. by exists (p, e).
Qed.

(** The fragments a scan holds. *)
Definition pool_of (s : scan Q) : list (cdir Q) :=
  map fst (bigger_unrep s) ++ map snd (smaller s) ++ map fst (bigger_rep s).

Definition scanned (f : found Q) (s : scan Q) : Prop :=
  Forall good (bigger_unrep s) /\ Forall good (bigger_rep s) /\ Forall (takeable f) (smaller s).

Lemma choose_rest need s f :
  scanned f s -> NoDup (flat_map ids (pool_of s)) ->
  adds (pool_of s) f
    (let '(f, enough) := descend need (bigger_unrep s) f in
     if enough then f
     else let '(f, enough) := take_smaller need (rev (smaller s)) f in
          if enough then f else (descend need (bigger_rep s) f).1).
Proof.
  intros (Hu & Hr & Hs) Hn. unfold pool_of in *.
  pose proof (descend_adds need _ f Hu) as A1. destruct (descend need (bigger_unrep s) f) as [f1 e1].
  cbn [fst] in A1. destruct e1.
  { eapply adds_mono; [|done]. by apply submseteq_inserts_r. }
  apply (adds_trans _ _ _ f1); [done|].
  assert (Hp : map snd (rev (smaller s)) ≡ₚ map snd (smaller s)) by (apply Permutation_map; symmetry; apply Permutation_rev).
  rewrite !flat_map_app in Hn. apply NoDup_app in Hn as (_ & Hd & Hn). apply NoDup_app in Hn as (Hns & _ & _).
  assert (A2 : adds (map snd (rev (smaller s))) f1 (take_smaller need (rev (smaller s)) f1).1).
  { apply take_adds; [|by rewrite (Permutation_flat_map ids Hp)].
    rewrite Forall_forall in Hs. apply Forall_forall. intros p Hin.
    assert (Hin' : p ∈ smaller s) by (rewrite list_elem_of_In in Hin |- *; by apply in_rev).
    destruct (Hs p Hin') as (? & ? & Hne). split; [done|]. split; [done|].
    intros Hx. destruct (adds_within _ _ _ _ A1 Hx) as [|Hx']; [done|].
    apply (Hd _ Hx'), elem_of_app. left. apply id_in_pool, list_elem_of_fmap. by exists p. }
  destruct (take_smaller need (rev (smaller s)) f1) as [f2 e2]. cbn [fst] in A2.
  apply (adds_mono _ (map snd (smaller s))) in A2; [|by rewrite Hp].
  destruct e2; [eapply adds_mono; [|done]; by apply submseteq_inserts_r|].
  apply (adds_trans _ _ _ f2); [done|]. by apply descend_adds.
Qed.

Lemma choose_adds need midchunk s f :
  scanned f s -> NoDup (flat_map ids (pool_of s)) -> adds (pool_of s) f (choose need midchunk s f).
Proof.
  intros Hs Hn. pose proof (choose_rest need s f Hs Hn) as A. unfold choose.
  destruct (rev (smaller s)) as [|[pop d] l] eqn:E.
  { cbn [take_smaller] in A. by destruct (descend need (bigger_unrep s) f) as [f1 []]. }
  destruct (negb _) eqn:En; [|exact A].
  assert (Hin : (pop, d) ∈ smaller s).
  { apply list_elem_of_In, in_rev. rewrite E. by left. }
  destruct Hs as (_ & _ & Hs). rewrite Forall_forall in Hs. destruct (Hs _ Hin) as (Hp & He & Ha).
  cbn [fst snd] in *. subst pop. apply (adds_mono [d]); [|by apply adds_export].
  apply singleton_submseteq_l. unfold pool_of. rewrite !elem_of_app. right. left.
  apply list_elem_of_fmap. by exists (load (info d), d).
Qed.

Lemma multi_insert_perm {V} (k : Q) (v : V) l : Matching.multi_insert k v l ≡ₚ (k, v) :: l.
Proof.
  induction l as [|[k' v'] l IH]; cbn [Matching.multi_insert]; [done|].
  destruct (dlt k k'); [done|]. rewrite IH. apply Permutation_swap.
Qed.

Section search.
Context (hash : Z -> Z) (c : config Q).

Lemma add_smaller_spec target d s f :
  scanned f s -> takeable f (load (info d), d) ->
  scanned f (add_smaller hash c target d s) /\ pool_of (add_smaller hash c target d s) ⊆+ d :: pool_of s.
Proof.
  intros (Hu & Hr & Hs) Ht. unfold add_smaller.
  assert (P : forall pos, scanned f (MkScan (bigger_rep s) (bigger_unrep s)
      (Matching.multi_insert (load (info d)) d (smaller s)) pos) /\
    pool_of (MkScan (bigger_rep s) (bigger_unrep s)
      (Matching.multi_insert (load (info d)) d (smaller s)) pos) ⊆+ d :: pool_of s).
  { intros pos. split.
    - split; [done|]. split; [done|]. cbn [smaller]. rewrite multi_insert_perm. by constructor.
    - unfold pool_of. cbn [bigger_unrep bigger_rep smaller].
      rewrite (Permutation_map snd (multi_insert_perm _ _ _)). cbn [map snd].
      apply Permutation_submseteq. cbn [app]. by rewrite <- Permutation_middle. }
  assert (N : forall pos, scanned f (MkScan (bigger_rep s) (bigger_unrep s) (smaller s) pos) /\
    pool_of (MkScan (bigger_rep s) (bigger_unrep s) (smaller s) pos) ⊆+ d :: pool_of s).
  { intros pos. split; [done|]. by apply submseteq_cons. }
  destruct (negb _); [|apply P]. destruct (_ =? _)%Z; [apply P|]. destruct (_ <=? _)%Z; [apply P|apply N].
Qed.

Lemma not_skipped (f : found Q) d :
  skipped f (info d) = false ->
  is_auth (info d) = true /\ is_frozen (info d) = false /\ is_freezing (info d) = false /\
  is_stray (info d) = false /\ id (info d) ∉ already_exporting f.
Proof.
  unfold skipped. rewrite !orb_false_iff, negb_false_iff. intros ((((? & Ha) & ?) & ?) & ?).
  split_and!; try done. intros Hin. apply not_true_iff_false in Ha. apply Ha, existsb_exists.
  exists (id (info d)). split; [by apply list_elem_of_In|apply Z.eqb_refl].
Qed.

Lemma scan_spec need needmin needmax target f l s :
  Forall good l -> scanned f s ->
  match scan_subdirs hash c need needmin needmax target f l s with
  | inl f' => adds (map fst l) f f'
  | inr s' => scanned f s' /\ pool_of s' ⊆+ pool_of s ++ map fst l
  end.
Proof.
  intros Hl. revert s. induction Hl as [|[d search] l Hd Hl IH]; intros s Hs; cbn [scan_subdirs map].
  { split; [done|]. by rewrite app_nil_r. }
  assert (W : forall s1, scanned f s1 -> pool_of s1 ⊆+ d :: pool_of s ->
    match scan_subdirs hash c need needmin needmax target f l s1 with
    | inl f' => adds (d :: map fst l) f f'
    | inr s' => scanned f s' /\ pool_of s' ⊆+ pool_of s ++ d :: map fst l
    end).
  { intros s1 Hs1 Hp. specialize (IH s1 Hs1). destruct (scan_subdirs _ _ _ _ _ _ _ _ _) as [f'|s'].
    - eapply adds_mono; [|done]. by apply submseteq_cons.
    - destruct IH as [? Hsub]. split; [done|]. etrans; [done|].
      rewrite <- Permutation_middle. change (d :: pool_of s ++ map fst l) with ((d :: pool_of s) ++ map fst l).
      by apply submseteq_app. }
  assert (Hc : pool_of s ⊆+ d :: pool_of s) by by apply submseteq_cons.
  cbn [fst]. destruct (skipped f (info d)) eqn:Esk; [by apply W|].
  destruct (dlt (load (info d)) minchunk) eqn:Em; [by apply W|].
  apply not_skipped in Esk as (E1 & E2 & E3 & E4 & E5). apply dlt_Q_false in Em.
  assert (He : exportable d) by by split_and!.
  destruct (_ && _).
  { apply (adds_mono [d]); [|by apply adds_export]. apply submseteq_skip, submseteq_nil_l. }
  destruct (dlt need _).
  - destruct Hs as (Hu & Hr & Ht). destruct (is_rep (info d)); apply W.
    + split; [done|]. split; [|done]. cbn [bigger_rep]. apply Forall_app. split; [done|by constructor].
    + unfold pool_of. cbn [bigger_unrep bigger_rep smaller]. rewrite map_app. cbn [map fst].
      apply Permutation_submseteq. by rewrite !app_assoc, <- Permutation_cons_append.
    + split; [|done]. cbn [bigger_unrep]. apply Forall_app. split; [done|by constructor].
    + unfold pool_of. cbn [bigger_unrep bigger_rep smaller]. rewrite map_app. cbn [map fst].
      apply Permutation_submseteq. rewrite <- app_assoc. cbn [app]. by rewrite <- Permutation_middle.
  - destruct (add_smaller_spec target d s f) as [? ?]; [done|done|]. by apply W.
Qed.

Lemma find_in_adds l amount target f :
  Forall good l -> NoDup (flat_map ids (map fst l)) ->
  adds (map fst l) f (find_in hash c l amount target f).
Proof.
  intros Hl Hn. unfold find_in. destruct (dlt _ _); [apply adds_nil|].
  set (need := dsub amount (have f)).
  pose proof (scan_spec need (dmul need (mds_bal_need_min c)) (dmul need (mds_bal_need_max c)) target f l
    (MkScan [] [] [] (num_in_mds c)) Hl) as H.
  destruct (scan_subdirs _ _ _ _ _ _ _ _ _) as [f'|s]; [apply H; by split_and!; constructor|].
  destruct H as [Hs Hp]; [by split_and!; constructor|]. cbn [pool_of map app bigger_unrep bigger_rep smaller] in Hp.
  eapply adds_mono; [exact Hp|]. apply choose_adds; [done|].
  eapply sub_nodup; [by apply flat_map_submseteq|done].
Qed.

Lemma cdir_ind' (P : cdir Q -> Prop) :
  (forall i l, Forall P l -> P (CDir i l)) -> forall d, P d.
Proof.
  intros HP. fix IH 1. intros [i l]. apply HP. induction l as [|d l IHl]; constructor; [apply IH|exact IHl].
Qed.

Lemma find_exports_adds amount target d f :
  NoDup (flat_map ids (subdirs d)) -> adds (subdirs d) f (find_exports hash c amount target d f).
Proof.
  revert target f. induction d as [i l IH] using cdir_ind'. intros target f Hn.
  cbn [find_exports subdirs] in *.
  set (l' := map (fun e => (e, find_exports hash c amount 0 e)) l).
  assert (E : map fst l' = l) by (unfold l'; rewrite map_map; apply map_id).
  rewrite <- E. apply find_in_adds; [|by rewrite E].
  apply Forall_forall. intros p (e & -> & He)%list_elem_of_fmap f'. cbn [fst snd].
  rewrite Forall_forall in IH. apply adds_below, IH; [done|].
  assert (Hsub : ids e ⊆+ flat_map ids l).
  { rewrite <- (app_nil_r (ids e)). change (ids e ++ []) with (flat_map ids [e]).
    by apply flat_map_submseteq, singleton_submseteq_l. }
  apply (sub_nodup _ _ Hsub) in Hn. destruct e. cbn in Hn |- *. by apply NoDup_cons in Hn as [_ ?].
Qed.

(** C5: The search below a fragment finds, whatever the amount and the options,
    fragments below it that are authoritative, neither frozen, freezing nor
    stray, not being exported and of at least the smallest load; none is in
    another; and what it has grows by just their loads. *)
Theorem find_exports_correct amount target d f :
  NoDup (ids d) ->
  exists new,
    let f' := find_exports hash c amount target d f in
    exports f' = exports f ++ map (fun e => id (info e)) new /\
    have f' == have f + loads new /\
    (forall x, x ∈ already_exporting f' <->
       x ∈ already_exporting f \/ x ∈ map (fun e => id (info e)) new) /\
    Forall (fun e => e ∈ flat_map nodes (subdirs d) /\ exportable e /\
              id (info e) ∉ already_exporting f) new /\
    NoDup (flat_map ids new).
Proof.
  intros Hn. assert (Hd : NoDup (flat_map ids (subdirs d))).
  { destruct d. cbn in Hn |- *. by apply NoDup_cons in Hn as [_ ?]. }
  destruct (find_exports_adds amount target d f Hd) as (new & H1 & H2 & H3 & H4 & H5). exists new.
  split; [done|]. split; [done|]. split; [done|]. split; [by apply Forall_forall|].
  by eapply sub_nodup.
Qed.
End search.

(** The exports grew by pointers that [ok] accepts, each new. *)
Definition extends (ok : Z -> Prop) (f f' : found Q) : Prop :=
  exists new, exports f' = exports f ++ new /\ NoDup new /\
    (forall x, x ∈ already_exporting f' <-> x ∈ already_exporting f \/ x ∈ new) /\
    (forall x, x ∈ new -> ok x /\ x ∉ already_exporting f).

Lemma extends_refl ok f : extends ok f f.
Proof.
  exists []. split; [by rewrite app_nil_r|]. split; [constructor|]. split; [intros x; set_solver|set_solver].
Qed.

Lemma extends_trans ok f f1 f2 : extends ok f f1 -> extends ok f1 f2 -> extends ok f f2.
Proof.
  intros (n1 & A1 & A2 & A3 & A4) (n2 & B1 & B2 & B3 & B4). exists (n1 ++ n2).
  split; [by rewrite B1, A1, app_assoc|]. split; [|split].
  - apply NoDup_app. split; [done|]. split; [|done]. intros x H1 H2.
    destruct (B4 x H2) as [_ Hn]. apply Hn, A3. by right.
  - intros x. rewrite B3, A3, elem_of_app. tauto.
  - intros x [Hx|Hx]%elem_of_app; [by apply A4|]. destruct (B4 x Hx) as [? Hn]. rewrite A3 in Hn. tauto.
Qed.

(** Where a subtree is searched. *)
Definition searched (t : subtree Q) : list (cdir Q) :=
  dir t :: dirfrags t ++ match parent_dir t with Some p => [p] | None => [] end.

(** The pointer of an exportable fragment below one that is searched. *)
Definition candidate_below (trees : list (cdir Q)) (x : Z) : Prop :=
  exists d, d ∈ flat_map nodes (flat_map subdirs trees) /\ exportable d /\ id (info d) = x.

Definition proper_trees (trees : list (cdir Q)) : Prop := Forall (fun d => NoDup (ids d)) trees.

Section rebalance.
Context (hash : Z -> Z) (c : config Q) (trees : list (cdir Q)).
Hypothesis trees_proper : proper_trees trees.
Notation ok := (candidate_below trees).

Lemma find_extends amount target d f : d ∈ trees -> extends ok f (find_exports hash c amount target d f).
Proof.
  intros Hd. pose proof trees_proper as Hp. unfold proper_trees in Hp. rewrite Forall_forall in Hp.
  assert (Hs : NoDup (flat_map ids (subdirs d))).
  { specialize (Hp d Hd). destruct d. cbn in Hp |- *. by apply NoDup_cons in Hp as [_ ?]. }
  destruct (find_exports_adds hash c amount target d f Hs) as (new & H1 & _ & H3 & H4 & H5).
  exists (map (fun e => id (info e)) new). split; [done|]. split; [|split; [done|]].
  - apply (sub_nodup _ _ H5) in Hs. clear -Hs. induction new as [|e new IH]; cbn in *; [constructor|].
    apply NoDup_app in Hs as (_ & Hd & Hs). constructor; [|by apply IH].
    intros (e' & E & Hin)%list_elem_of_fmap. apply (Hd (id (info e))); [apply id_in_ids|].
    rewrite E. by apply id_in_pool.
  - intros x (e & -> & He)%list_elem_of_fmap. destruct (H4 e He) as (Hin & ? & ?). split; [|done].
    exists e. split; [|done]. apply elem_of_flat_map in Hin as (b & Hb & Hin). apply elem_of_flat_map.
    exists b. split; [|done]. apply elem_of_flat_map. by exists d.
Qed.

Lemma dive_extends amount target l f :
  (forall d, d ∈ l -> d ∈ trees) -> extends ok f (dive hash c amount target l f).
Proof.
  unfold dive. revert f. induction l as [|d l IH]; intros f Hl; cbn [fold_left]; [apply extends_refl|].
  eapply extends_trans; [|apply IH; set_solver]. destruct (dlt _ _); [|apply extends_refl].
  apply find_extends. set_solver.
Qed.

Lemma dive_all_extends amount target dfls all little f :
  (forall d, d ∈ all -> d ∈ trees) -> (forall d, d ∈ little -> d ∈ trees) ->
  extends ok f (dive_all hash c amount target dfls all little f).
Proof.
  intros Ha. revert little f. induction dfls as [|d dfls IH]; intros little f Hl; cbn [dive_all];
    [apply extends_refl|].
  assert (Hla : forall d, d ∈ little ++ all -> d ∈ trees) by (intros e [?|?]%elem_of_app; auto).
  eapply extends_trans; [by apply dive_extends|by apply IH].
Qed.

Lemma wrapper_extends nodeid t amount target f :
  (forall d, d ∈ searched t -> d ∈ trees) -> extends ok f (find_exports_wrapper hash c nodeid t amount target f).
Proof.
  intros Ht. unfold find_exports_wrapper. destruct (root_stray t); [apply extends_refl|].
  assert (Hd : forall d, d ∈ dirfrags t -> d ∈ trees).
  { intros d Hd. apply Ht. unfold searched. rewrite elem_of_cons, elem_of_app. auto. }
  assert (E : extends ok f (if nodeid =? 0 then find_exports hash c amount target (dir t) f
      else match parent_dir t with
           | Some p => find_exports hash c amount target p f
           | None => find_exports hash c amount target (dir t) f
           end)%Z).
  { unfold searched in Ht. destruct (nodeid =? 0)%Z; [apply find_extends, Ht; set_solver|].
    destruct (parent_dir t) as [p|]; apply find_extends, Ht; set_solver. }
  destruct (PathUtil.workload2type _); [exact E..|]. by apply dive_all_extends; [|set_solver].
Qed.

Lemma candidates_extend nodeid ex_load target candidates f :
  (forall t d, t ∈ candidates -> d ∈ searched t -> d ∈ trees) ->
  extends ok f (search_candidates hash c nodeid ex_load target candidates f).
Proof.
  revert f. induction candidates as [|t l IH]; intros f Hl; cbn [search_candidates]; [apply extends_refl|].
  destruct (_ || _); [apply IH; intros; eapply Hl; [|done]; set_solver|].
  pose proof (wrapper_extends nodeid t ex_load target f (fun d => Hl t d ltac:(set_solver))) as Hw.
  destruct (dle _ _); [done|]. eapply extends_trans; [done|].
  apply IH. intros; eapply Hl; [|done]; set_solver.
Qed.

Lemma determine_spec nodeid mine candidates decisions already :
  (forall t d, t ∈ candidates -> d ∈ searched t -> d ∈ trees) ->
  let l := determine hash c nodeid mine candidates decisions already in
  NoDup (map fst l) /\
  (forall e, e ∈ l -> ok e.1 /\ e.1 ∉ already /\ e.2 ∈ map target_import_mds decisions).
Proof.
  intros Hc. revert already. induction decisions as [|it l IH]; intros already; cbn [determine].
  { split; [constructor|set_solver]. }
  set (f := search_candidates _ _ _ _ _ _ _).
  assert (E : extends ok (MkFound [] (d_int 0) already) f) by by apply candidates_extend.
  destruct E as (new & H1 & H2 & H3 & H4). cbn [exports already_exporting app] in *. rewrite H1.
  destruct (IH (already_exporting f)) as [N A]. rewrite map_app, map_map. cbn [fst]. rewrite map_id.
  split.
  - apply NoDup_app. split; [done|]. split; [|done].
    intros x Hx (e & -> & He)%list_elem_of_fmap. destruct (A e He) as (_ & Hn & _). apply Hn, H3. by right.
  - intros e [He|He]%elem_of_app.
    + apply list_elem_of_fmap in He as (x & -> & Hx). destruct (H4 x Hx). cbn. set_solver.
    + destruct (A e He) as (? & Hn & ?). rewrite H3 in Hn. cbn. set_solver.
Qed.
End rebalance.

(** C26: Carrying out the decisions of the imbalance factor exports no fragment
    twice, whichever ranks it goes to, and only authoritative fragments that
    are neither frozen, freezing nor stray, below those that are searched, to
    ranks that a decision names. *)
Theorem rebalance_exports_once hash c nodeid my_load candidates decisions :
  proper_trees (flat_map searched candidates) ->
  let l := simple_determine_rebalance hash c nodeid my_load candidates decisions in
  NoDup (map fst l) /\
  Forall (fun e => candidate_below (flat_map searched candidates) e.1 /\
            e.2 ∈ map target_import_mds decisions) l.
Proof.
  intros Hp l. destruct (determine_spec hash c (flat_map searched candidates) Hp nodeid (to_int my_load)
    candidates decisions []) as [H1 H2].
  { intros t d Ht Hd. apply elem_of_flat_map. by exists t. }
  split; [done|]. apply Forall_forall. intros e He. destruct (H2 e He) as (? & _ & ?). done.
Qed.

(** A fragment with two fragments below it, of loads 3 and 9. *)
Definition leaf (i : Z) (pop : Q) : cdir Q := CDir (MkInfo i true false false false false i 0 pop) [].
Definition small_dir : cdir Q :=
  CDir (MkInfo 1 true false false false false 1 0 12) [leaf 2 3; leaf 3 9].
Definition defaults : config Q := MkConfig (1 # 5) (4 # 5) (6 # 5) (3 # 10) true 2.

Lemma find_exports_witness :
  exists new, exports (find_exports (fun x => x) defaults 10 1 small_dir (MkFound [] 0 [])) =
      [] ++ map (fun e => id (info e)) new /\
    have (find_exports (fun x => x) defaults 10 1 small_dir (MkFound [] 0 [])) == 0 + loads new.
Proof.
  destruct (find_exports_correct (fun x => x) defaults 10 1 small_dir (MkFound [] 0 []))
    as (new & H1 & H2 & _); [by apply (bool_decide_unpack _)|].
  exists new. split; [exact H1|exact H2].
Defined.

Lemma rebalance_exports_witness :
  let t := MkSubtree small_dir false [] [small_dir] None in
  let l := simple_determine_rebalance (fun x => x) defaults 0 20 [t] [MkDecision 1 10 (1 # 2)] in
  l = [(3, 1)]%Z /\ NoDup (map fst l).
Proof.
  split; [by vm_compute|].
  apply (rebalance_exports_once (fun x => x) defaults 0 20 [MkSubtree small_dir false [] [small_dir] None]
    [MkDecision 1 10 (1 # 2)]). repeat (constructor; [by apply (bool_decide_unpack _)|]). constructor.
Defined.
End ExportsFacts.
