(* ===== verification/IfBeat.v ===== *)
(** * The imbalance factor, [MDBalancer::handle_ifbeat] of src/mds/MDBalancer.cc

    Rank 0 gathers the loads of all ranks, computes how uneven their request
    rates are, and decides how much of its load each busy rank sends to which
    idle one.  [sqrt], [exp] and [pow] are libm's, and [std::sort] leaves the
    order of equal elements open: all four are parameters. *)

From Stdlib Require Import QArith Lqa.
From stdpp Require Import list.
From S2P Require Import Prelude Double HitCount Load Matching Exports.

Module IfBeat.
Section ifbeat.
Context {D} `{Double D} (sqrt exp : D -> D) (pow : D -> D -> D).

Record summary := MkSummary {
  my_if : D; my_urgency : D; whoami : Z; my_iops : Z; is_bigger : bool
}.

Context (sort : list summary -> list summary).

(** [max_element] and [min_element]: the first of them, as its index. *)
Fixpoint extreme (better : D -> D -> bool) (l : list D) (i best : nat) (x : D) : nat * D :=
  match l with
  | [] => (best, x)
  | y :: l => if better x y then extreme better l (S i) i y else extreme better l (S i) best x
  end.
Definition max_element (l : list D) : option (nat * D) :=
  match l with [] => None | x :: l => Some (extreme dlt l 1 0 x) end.
Definition min_element (l : list D) : option (nat * D) :=
  match l with [] => None | x :: l => Some (extreme (fun x y => dlt y x) l 1 0 x) end.

Definition accumulate (l : list D) : D := fold_left dadd l (d_int 0).

(** The options. *)
Record config := MkConfig { mds_bal_ifthreshold : D; mds_bal_interval : Z; mds_bal_presetmax : Z }.

Context (c : config).

(** The loop over the ranks: the rate of each since its last report, and
    [old_req]; a rank without a load fails an assertion. *)
Fixpoint iops (mds_load : list (Z * Load.mds_load_t D)) (ranks : list Z) (old_req : list (Z * D))
  : option (list D * list (Z * D)) :=
  match ranks with
  | [] => Some ([], old_req)
  | i :: ranks =>
      load ← map_find mds_load i;
      let rate := Load.req_rate load in
      let x := match map_find old_req i with
               | Some old => ((rate - old) / d_int (mds_bal_interval c))%D
               | None => d_int 0
               end in
      '(l, old_req) ← iops mds_load ranks (map_set old_req i (to_float rate));
      Some (x :: l, old_req)
  end.

Definition urgency_of (x : D) : D :=
  (d_int 1 / (d_int 1 + pow (exp (d_int 1)) (d_int 5 - d_int 10 * (x / d_int (mds_bal_presetmax c)))))%D.

Definition summarize (cluster_size : Z) (avg_IOPS : D) (i : Z) (my_IOPS : D) : summary :=
  MkSummary
    (sqrt ((my_IOPS - avg_IOPS) * (my_IOPS - avg_IOPS) / d_int (u32 (cluster_size - 1))) /
       (sqrt (d_int cluster_size) * avg_IOPS))%D
    (urgency_of my_IOPS) i
    (if (my_IOPS =? d_int 0)%D then 1 else to_int my_IOPS)
    (my_IOPS >? avg_IOPS)%D.

Fixpoint summaries (cluster_size : Z) (avg_IOPS : D) (i : Z) (l : list D) : list summary :=
  match l with
  | [] => []
  | x :: l => summarize cluster_size avg_IOPS i x :: summaries cluster_size avg_IOPS (i + 1) l
  end.

Definition my_if_threshold (cluster_size : Z) : D :=
  (mds_bal_ifthreshold c / d_int (Z.min cluster_size 3))%D.

Definition imbalance_degree (l : list D) (avg_IOPS : D) : D :=
  let sum_quadratic := fold_left (fun s x => s + (x - avg_IOPS) * (x - avg_IOPS))%D l (d_int 0) in
  let n := Z.of_nat (length l) in
  let stdev_IOPS := sqrt (sum_quadratic / d_int (u64 (n - 1)))%D in
  if (sqrt (d_int n) * avg_IOPS =? d_int 0)%D then d_int 0
  else (stdev_IOPS / (sqrt (d_int n) * avg_IOPS))%D.

Definition LUNULE_MIG_AMOUNT : D := d_ratio 1 4.

(** An importer for the exporter [send_num]. *)
Definition imports_from (threshold : D) (send_num min_pos : Z) (s : summary) : bool :=
  negb (whoami s =? send_num) && negb (is_bigger s) &&
  ((my_if s >=? threshold)%D || (whoami s =? min_pos)).

(** The loop over the importers: decisions of the exporter [send_num] with the
    rate and load at index [p]; [inl] is the return for a rate of at most one. *)
Fixpoint decisions (iops_ loads : list D) (threshold : D) (send_num p min_pos : Z)
  (importers : list summary) (amount : D) (count : nat)
  : option (unit + list (Exports.migration_decision D)) :=
  match importers with
  | [] => Some (inr [])
  | s :: importers =>
      if (3 <=? count)%nat then Some (inr [])
      else if negb (imports_from threshold send_num min_pos s)
      then decisions iops_ loads threshold send_num p min_pos importers amount count
      else
        sent ← iops_ !! Z.to_nat send_num;
        if (sent <=? d_int 1)%D then Some (inl tt)
        else
          x ← iops_ !! Z.to_nat p;
          y ← iops_ !! Z.to_nat (whoami s);
          load ← loads !! Z.to_nat p;
          let percent := to_float (amount * ((x - y) / x))%D in
          let d := Exports.MkDecision (whoami s) (to_float (percent * load)%D) percent in
          let amount := (amount / d_int 2)%D in
          if (amount <=? threshold)%D then Some (inr [d])
          else
            r ← decisions iops_ loads threshold send_num p min_pos importers amount (S count);
            Some (match r with inl u => inl u | inr l => inr (d :: l) end)
  end.

(** An exporter. *)
Definition exports_load (threshold : D) (max_pos : Z) (s : summary) : bool :=
  ((max_pos =? whoami s) || (my_if s >? threshold)%D) && is_bigger s.

(** What the handler does. *)
Inductive action :=
| Send_ifbeat (target : Z) (value : D) (d : list (Exports.migration_decision D))
| Clear_export_queue
| Simple_determine_rebalance (d : list (Exports.migration_decision D)).

(** The loop over the ranks that are up; the flag says that the handler returns. *)
Fixpoint notify (iops_ loads : list D) (threshold factor : D) (max_pos min_pos : Z)
  (vec : list summary) (up : list Z) : option (list action * bool) :=
  match up with
  | [] => Some ([], false)
  | p :: up =>
      if p =? 0 then notify iops_ loads threshold factor max_pos min_pos vec up
      else
        s ← vec !! Z.to_nat p;
        if exports_load threshold max_pos s then
          r ← decisions iops_ loads threshold (whoami s) p min_pos vec LUNULE_MIG_AMOUNT 0;
          match r with
          | inl _ => Some ([], true)
          | inr d =>
              '(l, stop) ← notify iops_ loads threshold factor max_pos min_pos vec up;
              Some (Send_ifbeat (whoami s) factor d :: l, stop)
          end
        else notify iops_ loads threshold factor max_pos min_pos vec up
  end.

(** Rank 0 as an exporter. *)
Definition own_decision (iops_ loads : list D) (threshold urgency : D) (max_pos min_pos beat_epoch : Z)
  (vec : list summary) : option (list action * bool) :=
  s ← head vec;
  if exports_load threshold max_pos s then
    r ← decisions iops_ loads threshold 0 0 min_pos vec LUNULE_MIG_AMOUNT 0;
    match r with
    | inl _ => Some ([], true)
    | inr d =>
        Some ((if negb (urgency <=? d_ratio 1 10)%D && (Z.rem beat_epoch 2 =? 0)
               then [Clear_export_queue] else []) ++ [Simple_determine_rebalance d], false)
    end
  else Some ([], false).

(** [std::sort] from the second element on. *)
Definition sort_importers (l : list summary) : list summary :=
  match l with [] => [] | s :: l => s :: sort l end.

(** What rank 0 does once it has the rates and the loads of all ranks;
    [max_pos] and [min_pos] subtract the wrong way round.  The flag is that of
    [notify]. *)
Definition balance (iops_ loads : list D) (up : list Z) (beat_epoch : Z) : option (list action * bool) :=
  let cluster_size := Z.of_nat (length iops_) in
  let avg_IOPS := (accumulate iops_ / d_int cluster_size)%D in
  '(imax, max_IOPS) ← max_element iops_;
  '(imin, _) ← min_element iops_;
  let max_pos := - Z.of_nat imax in
  let min_pos := - Z.of_nat imin in
  let threshold := my_if_threshold cluster_size in
  let vec := summaries cluster_size avg_IOPS 0 iops_ in
  let urgency := urgency_of max_IOPS in
  let imbalance_factor := (imbalance_degree iops_ avg_IOPS * urgency)%D in
  if (imbalance_factor >=? mds_bal_ifthreshold c)%D then
    let vec := sort_importers vec in
    '(l, stop) ← notify iops_ loads threshold imbalance_factor max_pos min_pos vec up;
    if (stop : bool) then Some (l, true)
    else
      '(l', stop) ← own_decision iops_ loads threshold urgency max_pos min_pos beat_epoch vec;
      Some (l ++ l', stop)
  else Some ([], false).

(** The handler's view of the MDS. *)
Record mds := MkMds {
  nodeid : Z; is_active : bool; is_open : bool; is_degraded : bool; num_in_mds : Z; up : list Z;
  root : bool; candidates : list (Matching.candidate D)
}.

Record state := MkSt {
  beat_epoch : Z; mds_load : list (Z * Load.mds_load_t D); old_req : list (Z * D)
}.

Record ifbeat := MkIf {
  source : Z; beat : Z; load : Load.mds_load_t D; IFvalue : D;
  decision : list (Exports.migration_decision D)
}.

(** How the decisions travel: [encode_payload] and [decode_payload] of MIFBeat
    send a map from ranks to shares. *)
Definition decision_map (l : list (Exports.migration_decision D)) : list (Z * D) :=
  fold_left (fun m d => map_set m (Exports.target_import_mds d) (Exports.target_export_percent d)) l [].
Definition decode_decisions (m : list (Z * D)) : list (Exports.migration_decision D) :=
  map (fun '(rank, share) => Exports.MkDecision rank share share) m.

(** What becomes of the message: put, kept to be retried, or neither. *)
Inductive fate := Put | Retry | Kept.

Definition handle_ifbeat (m : mds) (i : ifbeat) (s : state) : option (list action * fate * state) :=
  if negb (is_active m) then Some ([], Put, s)
  else if negb (is_open m) then Some ([], Retry, s)
  else if is_degraded m then Some ([], Put, s)
  else if nodeid m =? 0 then
    if negb (beat i =? beat_epoch s) then Some ([], Kept, s)
    else
      let loads := map_emplace (mds_load s) (source i) (load i) in
      let s := MkSt (beat_epoch s) loads (old_req s) in
      if num_in_mds m =? Z.of_nat (length loads) then
        '(rates, old) ← iops loads (seqZ 0 (num_in_mds m)) (old_req s);
        let own := map (fun _ => Matching.calc_mds_load (root m) (candidates m) (load i) true) rates in
        '(l, stop) ← balance rates own (up m) (beat_epoch s);
        Some (l, if (stop : bool) then Kept else Put, MkSt (beat_epoch s) loads old)
      else Some ([], Put, s)
  else if (IFvalue i >=? mds_bal_ifthreshold c)%D
  then Some ([Simple_determine_rebalance (decision i)], Put, s)
  else Some ([], Put, s).
End ifbeat.
Arguments summary : clear implicits.
Arguments config : clear implicits.
Arguments action : clear implicits.
Arguments mds : clear implicits.
Arguments state : clear implicits.
Arguments ifbeat : clear implicits.
End IfBeat.

(** ** The decisions *)

Module IfBeatFacts.
Import IfBeat.
Open Scope Q_scope.

Definition percents (l : list (Exports.migration_decision Q)) : Q :=
  fold_right (fun d s => Exports.target_export_percent d + s) 0 l.

(** What is left of three halvings after [count]. *)
Definition cap (count : nat) : Q :=
  match count with O => 7 # 4 | 1%nat => 3 # 2 | 2%nat => 1 | _ => 0 end.

Lemma cap_step count : (count < 3)%nat -> 1 + cap (S count) / 2 == cap count.
Proof. intros. destruct count as [|[|[|]]]; [reflexivity..|lia]. Qed.

Lemma lookup_in {A} (l : list A) k : (0 <= k < Z.of_nat (length l))%Z -> is_Some (l !! Z.to_nat k).
Proof. intros. apply lookup_lt_is_Some. lia. Qed.

Section decide.
Context (rates own : list Q) (threshold : Q) (send_num p min_pos : Z).
Hypothesis same_length : length own = length rates.
Hypothesis send_in : (0 <= send_num < Z.of_nat (length rates))%Z.
Hypothesis p_in : (0 <= p < Z.of_nat (length rates))%Z.

(** The ranks of the importers have rates. *)
Definition ranked (s : summary Q) : Prop := (0 <= whoami s < Z.of_nat (length rates))%Z.

Lemma decisions_total importers amount count :
  Forall ranked importers ->
  is_Some (decisions rates own threshold send_num p min_pos importers amount count).
Proof.
  intros Hi. revert amount count. induction Hi as [|s l Hs _ IH]; intros amount count; cbn [decisions]; [done|].
  destruct (_ <=? _)%nat; [done|]. destruct (negb _); [apply IH|].
  destruct (lookup_in rates send_num send_in) as [sent ->]. obind. destruct (dle _ _); [done|].
  destruct (lookup_in rates p p_in) as [x ->]. obind.
  destruct (lookup_in rates (whoami s) Hs) as [y ->]. obind.
  destruct (lookup_in own p) as [z ->]; [by rewrite same_length|]. obind.
  destruct (dle _ _); [done|]. destruct (IH (ddiv amount (d_int 2)) (S count)) as [r ->]. by obind.
Qed.

(** When the exporter is the rank at index [p] and is busier than its importers. *)
Context (x : Q).
Hypothesis x_rate : rates !! Z.to_nat p = Some x.
Hypothesis same_rank : send_num = p.

Definition idle (s : summary Q) : Prop :=
  is_bigger s = false -> exists y, rates !! Z.to_nat (whoami s) = Some y /\ 0 <= y < x.

(** A decision: at most [amount] of the exporter's load, to another idle rank. *)
Definition sound (amount : Q) (d : Exports.migration_decision Q) : Prop :=
  0 <= Exports.target_export_percent d <= amount /\ Exports.target_import_mds d <> send_num /\
  exists y, rates !! Z.to_nat (Exports.target_import_mds d) = Some y /\ 0 <= y < x.

Lemma share_bounds amount y : 0 <= amount -> 0 <= y < x -> 0 <= amount * ((x - y) / x) <= amount.
Proof.
  intros Ha Hy. assert (Hx : 0 < x) by lra. assert (E : 0 <= (x - y) / x <= 1).
  { split; [apply Qle_shift_div_l; [done|lra]|apply Qle_shift_div_r; [done|lra]]. }
  set (t := (x - y) / x) in *. split; nra.
Qed.

Lemma decisions_sound importers amount count l :
  Forall idle importers -> 0 <= amount ->
  decisions rates own threshold send_num p min_pos importers amount count = Some (inr l) ->
  (length l + count <= Nat.max 3 count)%nat /\ percents l <= amount * cap count /\ Forall (sound amount) l.
Proof.
  clear same_length send_in p_in. intros Hi. revert amount count l. induction Hi as [|s ims Hs _ IH]; intros amount count l Ha; cbn [decisions].
  - intros [= <-]. cbn. split; [lia|]. split; [|constructor]. apply Qmult_le_0_compat; [done|].
    by destruct count as [|[|[|]]].
  - destruct (Nat.leb_spec 3 count).
    { intros [= <-]. cbn. split; [lia|]. split; [|constructor]. apply Qmult_le_0_compat; [done|].
      by destruct count as [|[|[|]]]. }
    destruct (imports_from threshold send_num min_pos s) eqn:Ei; cbn [negb]; [|by apply IH].
    unfold imports_from in Ei. apply andb_true_iff in Ei as [Ei _]. apply andb_true_iff in Ei as [Ew Eb].
    apply negb_true_iff in Ew. apply negb_true_iff in Eb. apply Z.eqb_neq in Ew.
    destruct (Hs Eb) as (y & Hy & By). rewrite same_rank, x_rate. obind.
    destruct (dle x _); [done|]. rewrite Hy. obind.
    destruct (own !! Z.to_nat p) as [z|]; [|done]. obind.
    pose proof (share_bounds amount y Ha By) as Hb. cbn [to_float dmul ddiv dsub Q_double d_int] in *.
    set (d := Exports.MkDecision (whoami s) _ _).
    assert (Hd : sound amount d) by (split; [exact Hb|]; split; [done|by exists y]).
    pose proof (cap_step count ltac:(lia)) as Hc.
    assert (H0 : 0 <= cap (S count)) by by destruct count as [|[|[|]]].
    destruct (dle _ _).
    { intros [= <-]. split; [cbn; lia|]. split; [|constructor; [exact Hd|constructor]].
      change (percents [d]) with (amount * ((x - y) / x) + 0). rewrite <- Hc. set (t := amount * ((x - y) / x)) in *. set (cc := cap (S count)) in *. clearbody t cc.
      assert (0 <= cc / 2) by (apply Qle_shift_div_l; [done|by rewrite Qmult_0_l]).
      assert (0 <= amount * (cc / 2)) by by apply Qmult_le_0_compat.
      assert (amount * (1 + cc / 2) == amount + amount * (cc / 2)) as -> by field. lra. }
    rewrite same_rank in IH. change (inject_Z 2) with 2.
    destruct (decisions _ _ _ _ _ _ ims _ _) as [[|l']|] eqn:El; [done| |done]. obind. intros [= <-].
    assert (Hh : 0 <= amount / 2 <= amount).
    { split; [apply Qle_shift_div_l; [done|by rewrite Qmult_0_l]|apply Qle_shift_div_r; [done|lra]]. }
    destruct (IH (amount / 2) (S count) l') as (L1 & L2 & L3); [apply Hh|done|].
    split; [cbn; lia|]. split.
    + cbn [percents fold_right]. fold (percents l'). rewrite <- Hc.
      change (Exports.target_export_percent d) with (amount * ((x - y) / x)).
      set (t := amount * ((x - y) / x)) in *. set (cc := cap (S count)) in *. clearbody t cc.
      assert (amount * (1 + cc / 2) == amount + amount / 2 * cc) as -> by field. lra.
    + constructor; [done|]. eapply Forall_impl; [exact L3|]. intros e ((? & ?) & ?). split; [|done]. lra.
Qed.
End decide.

Lemma summaries_elem sqrt exp pow c n avg i (l : list Q) s :
  s ∈ summaries sqrt exp pow c n avg i l ->
  exists k x, l !! k = Some x /\ s = summarize sqrt exp pow c n avg (i + Z.of_nat k) x.
Proof.
  revert i. induction l as [|x l IH]; intros i; cbn [summaries]; [set_solver|].
  intros [->|Hs]%elem_of_cons; [exists O, x; by rewrite Z.add_0_r|].
  destruct (IH _ Hs) as (k & y & Hk & ->). exists (S k), y. split; [done|]. f_equal. lia.
Qed.

Lemma summaries_length sqrt exp pow c n avg i (l : list Q) :
  length (summaries sqrt exp pow c n avg i l) = length l.
Proof. revert i. induction l as [|x l IH]; intros i; cbn; [done|]. by rewrite IH. Qed.

Section balance.
Context (sqrt exp : Q -> Q) (pow : Q -> Q -> Q) (sort : list (summary Q) -> list (summary Q)) (c : config Q).
Hypothesis sort_perm : forall l, sort l ≡ₚ l.

Lemma sort_importers_perm l : sort_importers sort l ≡ₚ l.
Proof. destruct l as [|s l]; [done|]. cbn. by rewrite sort_perm. Qed.

Lemma notify_total rates own threshold factor max_pos min_pos vec up :
  length own = length rates -> length vec = length rates -> Forall (ranked rates) vec ->
  Forall (fun p => 0 <= p < Z.of_nat (length rates))%Z up ->
  exists l stop, notify rates own threshold factor max_pos min_pos vec up = Some (l, stop) /\
    forall d, Simple_determine_rebalance d ∉ l.
Proof.
  intros Hl Hv Hr Hu. induction Hu as [|p up Hp _ IH]; cbn [notify]; [eexists _, _; split; [done|set_solver]|].
  destruct (p =? 0)%Z; [done|].
  destruct (lookup_in vec p) as [s Hs]; [by rewrite Hv|]. rewrite Hs. obind.
  destruct (exports_load _ _ _); [|done].
  assert (Hrs : ranked rates s) by (rewrite Forall_forall in Hr; apply Hr; by eapply list_elem_of_lookup_2).
  destruct (decisions_total rates own threshold (whoami s) p min_pos Hl Hrs Hp vec LUNULE_MIG_AMOUNT 0 Hr) as [r ->].
  obind. destruct r; [eexists _, _; split; [done|set_solver]|].
  destruct IH as (l' & stop & -> & Hn). obind. eexists _, _. split; [done|]. intros d. set_solver.
Qed.

Definition own_bounds (rates : list Q) (x : Q) (l : list (action Q)) : Prop :=
  forall d, Simple_determine_rebalance d ∈ l ->
    (length d <= 3)%nat /\ percents d <= 7 # 16 /\ Forall (sound rates 0 x (1 # 4)) d.

Lemma own_decision_sound rates own threshold urgency max_pos min_pos beat_epoch vec s x :
  length own = length rates -> rates !! 0%nat = Some x -> Forall (ranked rates) vec -> head vec = Some s ->
  (is_bigger s = true -> Forall (idle rates x) vec) ->
  exists l stop, own_decision rates own threshold urgency max_pos min_pos beat_epoch vec = Some (l, stop) /\
    own_bounds rates x l.
Proof.
  intros Hl Hx Hr Hh Hi. unfold own_decision, own_bounds. rewrite Hh. obind.
  destruct (exports_load _ _ _) eqn:Ex; [|eexists _, _; split; [done|set_solver]].
  apply andb_true_iff in Ex as [_ Eb].
  assert (H0 : (0 <= 0 < Z.of_nat (length rates))%Z) by (apply lookup_lt_Some in Hx; lia).
  destruct (decisions_total rates own threshold 0 0 min_pos Hl H0 H0 vec LUNULE_MIG_AMOUNT 0 Hr) as [r Er].
  rewrite Er. obind. destruct r as [|d0]; [eexists _, _; split; [done|set_solver]|].
  eexists _, _. split; [done|]. intros d Hd.
  assert (d = d0) as -> by (destruct (_ && _); set_solver).
  destruct (decisions_sound rates own threshold 0 0 min_pos x Hx eq_refl vec LUNULE_MIG_AMOUNT 0 d0)
    as (L1 & L2 & L3); [by apply Hi|done|done|].
  split; [lia|]. split; [|done]. eapply Qle_trans; [exact L2|]. by vm_compute.
Qed.

(** The vector that the decisions are made from. *)
Lemma importers_spec rates n avg :
  let vec := sort_importers sort (summaries sqrt exp pow c n avg 0 rates) in
  length vec = length rates /\ Forall (ranked rates) vec /\
  forall x, Forall (fun y => 0 <= y) rates -> avg < x -> Forall (idle rates x) vec.
Proof.
  intros vec. assert (Hv : vec ≡ₚ summaries sqrt exp pow c n avg 0 rates) by apply sort_importers_perm.
  assert (Hin : forall s, s ∈ vec -> exists k y, rates !! k = Some y /\
    s = summarize sqrt exp pow c n avg (0 + Z.of_nat k) y).
  { intros s Hs. rewrite Hv in Hs. by eapply summaries_elem. }
  split; [by rewrite Hv, summaries_length|]. split.
  - apply Forall_forall. intros s (k & y & Hk & ->)%Hin. apply lookup_lt_Some in Hk. unfold ranked. cbn. lia.
  - intros x Hp Ha. apply Forall_forall. intros s (k & y & Hk & ->)%Hin. unfold idle.
    cbn [is_bigger whoami summarize]. intros Ey%dlt_Q_false. exists y. rewrite Z.add_0_l, Nat2Z.id.
    split; [done|]. split; [|lra]. rewrite Forall_forall in Hp. apply Hp. by eapply list_elem_of_lookup_2.
Qed.

(** C13: Given a rate of every rank, none of them negative, as exact rationals,
    what rank 0 computes on an imbalance beat fails no assertion and reads no
    vector beyond its end. What it decides to export itself, if anything, goes
    to at most three other ranks, less busy than it, at most a quarter of its
    load to each and never a negative amount, and less than half of its load in
    all. *)
Theorem own_decisions_bounded (rates own : list Q) up beat_epoch x :
  length own = length rates -> rates !! 0%nat = Some x -> Forall (fun y => 0 <= y) rates ->
  Forall (fun p => 0 <= p < Z.of_nat (length rates))%Z up ->
  exists l stop, balance sqrt exp pow sort c rates own up beat_epoch = Some (l, stop) /\
    forall d, Simple_determine_rebalance d ∈ l ->
      (length d <= 3)%nat /\ percents d <= 7 # 16 /\ Forall (sound rates 0 x (1 # 4)) d.
Proof.
  intros Hl Hx Hp Hu. unfold balance. set (n := Z.of_nat (length rates)).
  set (avg := ddiv (accumulate rates) (d_int n)).
  destruct (max_element rates) as [[imax vmax]|] eqn:Emax; [|by destruct rates]. obind.
  destruct (min_element rates) as [[imin vmin]|] eqn:Emin; [|by destruct rates]. obind.
  destruct (dle _ _); [|eexists _, _; split; [done|set_solver]].
  destruct (importers_spec rates n avg) as (Hv & Hr & Hi). set (vec := sort_importers sort _) in *.
  assert (Eh : head vec = Some (summarize sqrt exp pow c n avg 0 x))
    by (unfold vec; destruct rates; [done|]; by injection Hx as ->).
  destruct (notify_total rates own (my_if_threshold c n) (dmul (imbalance_degree sqrt rates avg) (urgency_of exp pow c vmax))
    (- Z.of_nat imax) (- Z.of_nat imin) vec up) as (l & stop & -> & Hn); [done..|]. obind.
  destruct stop; [eexists _, _; split; [done|]; intros d Hd; by apply Hn in Hd|].
  destruct (own_decision_sound rates own (my_if_threshold c n) (urgency_of exp pow c vmax) (- Z.of_nat imax)
    (- Z.of_nat imin) beat_epoch vec _ x Hl Hx Hr Eh) as (l' & stop & -> & Hb).
  { cbn [is_bigger summarize]. intros Eb%dlt_Q. by apply Hi. }
  obind. eexists _, _. split; [done|]. intros d [Hd|Hd]%elem_of_app; [by apply Hn in Hd|by apply Hb].
Qed.
End balance.

(** ** The decisions on the wire *)

Definition decided (l : list (Exports.migration_decision Q)) (rank : Z) : option Q :=
  option_map Exports.target_export_percent
    (List.find (fun d => Exports.target_import_mds d =? rank)%Z (rev l)).

Lemma list_find_app {A} (f : A -> bool) l1 l2 :
  List.find f (l1 ++ l2) = match List.find f l1 with Some x => Some x | None => List.find f l2 end.
Proof. induction l1 as [|x l1 IH]; cbn; [done|]. by destruct (f x). Qed.

(** The map holds the last decision for each rank. *)
Lemma decision_map_find l rank : map_find (decision_map l) rank = decided l rank.
Proof.
  unfold decision_map, decided. assert (G : forall m lo, keys_from lo m ->
    map_find (fold_left (fun m d => map_set m (Exports.target_import_mds d)
                                      (Exports.target_export_percent d)) l m) rank =
    match List.find (fun d => Exports.target_import_mds d =? rank)%Z (rev l) with
    | Some d => Some (Exports.target_export_percent d) | None => map_find m rank end).
  { induction l as [|d l IH]; intros m lo Hm; cbn; [done|].
    rewrite (IH _ (Z.min lo (Exports.target_import_mds d))), list_find_app.
    - destruct (List.find _ (rev l)); [done|]. cbn. rewrite (map_find_set lo) by done.
      by rewrite (Z.eqb_sym rank); destruct (_ =? _)%Z.
    - apply map_set_keys; [|lia]. eapply keys_from_weaken; [|done]. lia. }
  rewrite (G [] 0%Z) by done. by destruct (List.find _ _).
Qed.

(** A rank with no requests in a busy cluster. *)
Lemma own_decisions_witness :
  exists l stop, balance (fun x => x) (fun x => x) (fun _ _ => 0) (fun l => l) (MkConfig (1 # 100) 10 100)
      [90; 10] [5; 5] [1%Z] 2 = Some (l, stop) /\
    forall d, Simple_determine_rebalance d ∈ l -> (length d <= 3)%nat /\ percents d <= 7 # 16.
Proof.
  destruct (own_decisions_bounded (fun x => x) (fun x => x) (fun _ _ => 0) (fun l => l)
    (MkConfig (1 # 100) 10 100) (fun l => Permutation_refl l) [90; 10] [5; 5] [1%Z] 2 90)
    as (l & stop & H & Hd); [done|done|by repeat constructor|by repeat constructor|].
  exists l, stop. split; [exact H|]. intros d Hin. destruct (Hd d Hin) as (H1 & H2 & _). split; [exact H1|exact H2].
Defined.

(** ** Findings *)

(** binary64, its square root, and a cluster so busy that the urgency is one. *)
Definition sqrt64 : binary64 -> binary64 := SpecFloat.SFsqrt b64_prec b64_emax.

Fixpoint insert_by_if (s : summary binary64) (l : list (summary binary64)) : list (summary binary64) :=
  match l with
  | [] => [s]
  | t :: l' => if dlt (my_if t) (my_if s) then s :: l else t :: insert_by_if s l'
  end.
Definition sort64 (l : list (summary binary64)) : list (summary binary64) := fold_right insert_by_if [] l.

Definition ints (l : list Z) : list binary64 := map d_int l.
Definition balance64 (l : list Z) : option (list (action binary64) * bool) :=
  balance sqrt64 (fun x => x) (fun _ _ => d_int 0) sort64 (MkConfig (d_ratio 75 1000) 10 100)
    (ints l) (ints l) [0; 1; 2; 3]%Z 1.

Definition negative_shares (l : list (action binary64)) : list (Z * Z) :=
  flat_map (fun a => match a with
    | Send_ifbeat target _ d => flat_map (fun e =>
        if dlt (Exports.target_export_percent e) (d_int 0)
        then [(target, Exports.target_import_mds e)] else []) d
    | _ => [] end) l.

(** The vector is sorted, but indexed by rank: rank 2 is told to send a negative
    share of its load to rank 0, computed with the rate of rank 1. *)
Example sorted_vector_indexed_by_rank :
  option_map (fun r => negative_shares r.1) (balance64 [1000; 10; 5000; 900]%Z) = Some [(2, 0); (2, 3)]%Z.
Proof. by vm_compute. Qed.
End IfBeatFacts.
