(* ===== verification/Heartbeat.v ===== *)
(** * Heartbeats, [send_heartbeat], [handle_heartbeat], [send_ifbeat] and [tick] of src/mds/MDBalancer.cc

    Rank 0 starts an epoch by its heartbeat; the others enter it and answer with
    their loads.  Each handler is a function from the state of the balancer to
    the messages it sends and the state after; the cluster is the balancers and
    the messages under way, which arrive in any order.  A load and an import map
    are what the rank measures when it sends, of types that do not matter here. *)

From stdpp Require Import list.
From S2P Require Import Prelude.

Module Heartbeat.
Section heartbeat.
Context {L I : Type}.

Record balancer := MkBal {
  nodeid : Z; is_active : bool; is_open : bool; is_degraded : bool;
  beat_epoch : Z; mds_load : list (Z * L); mds_import_map : list (Z * I)
}.

Definition set_epoch (e : Z) (l : list (Z * L)) (b : balancer) : balancer :=
  MkBal (nodeid b) (is_active b) (is_open b) (is_degraded b) e l (mds_import_map b).

Inductive body := Heartbeat (load : L) (imports : I) | Ifbeat (load : L) (value : Z).

Record message := MkMsg { from : Z; to : Z; beat : Z; content : body }.

(** What the rank measures, and the ranks that are up. *)
Record measure := MkMeasure { get_load : L; import_map : I; up : list Z }.

(** What a handler does besides sending: wait for the cache to open, switch the
    epoch of the request tracer, retry the message, or balance. *)
Inductive effect := Wait | Switch_epoch | Retry | Prep_rebalance (beat : Z).

Definition send_heartbeat (w : measure) (b : balancer) : balancer * list message * list effect :=
  if is_degraded b then (b, [], [])
  else if negb (is_open b) then (b, [], [Wait])
  else
    let first := nodeid b =? 0 in
    let b := if first then set_epoch (s32 (beat_epoch b + 1)) [] b else b in
    let loads := map_emplace (mds_load b) (nodeid b) (get_load w) in
    let b := MkBal (nodeid b) (is_active b) (is_open b) (is_degraded b) (beat_epoch b) loads
               (map_set (mds_import_map b) (nodeid b) (import_map w)) in
    (b, map (fun p => MkMsg (nodeid b) p (beat_epoch b) (Heartbeat (get_load w) (import_map w)))
          (List.filter (fun p => negb (p =? nodeid b)) (up w)),
     if first then [Switch_epoch] else []).

Definition send_ifbeat (w : measure) (target value : Z) (b : balancer) : list message * list effect :=
  if is_degraded b then ([], [])
  else if negb (is_open b) then ([], [Wait])
  else if existsb (Z.eqb target) (up w)
  then ([MkMsg (nodeid b) target (beat_epoch b) (Ifbeat (get_load w) value)], [])
  else ([], []).

(** [mantle] answers what [mantle_prep_rebalance] does, when a balancer is set. *)
Definition handle_heartbeat (ifenable : bool) (mantle : option Z) (num_in_mds : Z) (w : measure)
  (who m_beat : Z) (load : L) (imports : I) (b : balancer) : balancer * list message * list effect :=
  if negb (is_active b) then (b, [], [])
  else if negb (is_open b) then (b, [], [Retry])
  else if is_degraded b then (b, [], [])
  else
    let b := if negb (nodeid b =? 0) && (beat_epoch b <? m_beat) then set_epoch m_beat [] b else b in
    let '(b, msgs, effects) :=
      if who =? 0 then
        let b := set_epoch m_beat (if beat_epoch b =? m_beat then mds_load b else []) b in
        let '(b, hb, e1) := send_heartbeat w b in
        let '(ifb, e2) := send_ifbeat w 0 (-1) b in
        (b, hb ++ ifb, e1 ++ e2)
      else (b, [], []) in
    let b := MkBal (nodeid b) (is_active b) (is_open b) (is_degraded b) (beat_epoch b)
               (map_set (mds_load b) who load) (map_set (mds_import_map b) who imports) in
    if negb ifenable && (Z.of_nat (length (mds_load b)) =? num_in_mds) then
      match mantle with
      | Some 0 => (b, msgs, effects)
      | _ => (b, msgs, effects ++ [Prep_rebalance m_beat])
      end
    else (b, msgs, effects).

(** ** The cluster *)

(** A balancer as its constructor leaves it. *)
Definition new_balancer (id : Z) (active open degraded : bool) : balancer :=
  MkBal id active open degraded 0 [] [].

(** [begun] is the highest epoch that a rank 0 has begun; no handler sees it. *)
Record cluster := MkCluster { nodes : list balancer; network : list message; begun : Z }.

Definition retried (m : message) (effects : list effect) : list message :=
  omap (fun e => match e with Retry => Some m | _ => None end) effects.

(** A heartbeat, by [tick] on rank 0 or by a rank whose cache is open at last;
    the arrival of a heartbeat, which is kept if it is to be tried again; the
    loss of a message; a change of a rank's state; and a rank that fails, in
    whose place a new daemon comes up.  [fails] says which ranks may.  An
    [Ifbeat] does not change the epoch of its receiver; its handler is
    elsewhere. *)
Inductive step (fails : nat -> Prop) : cluster -> cluster -> Prop :=
| step_send n net e w i b b' msgs effects :
    n !! i = Some b -> beat_epoch b < 2 ^ 31 - 1 ->
    send_heartbeat w b = (b', msgs, effects) ->
    step fails (MkCluster n net e)
      (MkCluster (<[i := b']> n) (net ++ msgs) (if nodeid b =? 0 then Z.max e (beat_epoch b') else e))
| step_heartbeat n net1 net2 e m load imports ifenable mantle num_in w i b b' msgs effects :
    n !! i = Some b -> to m = nodeid b -> content m = Heartbeat load imports ->
    handle_heartbeat ifenable mantle num_in w (from m) (beat m) load imports b = (b', msgs, effects) ->
    step fails (MkCluster n (net1 ++ m :: net2) e)
      (MkCluster (<[i := b']> n) (net1 ++ net2 ++ msgs ++ retried m effects) e)
| step_lose n net1 net2 e m :
    step fails (MkCluster n (net1 ++ m :: net2) e) (MkCluster n (net1 ++ net2) e)
| step_state n net e i b active open degraded :
    n !! i = Some b ->
    step fails (MkCluster n net e)
      (MkCluster (<[i := MkBal (nodeid b) active open degraded (beat_epoch b) (mds_load b)
                           (mds_import_map b)]> n) net e)
| step_fail n net e i b active open degraded :
    fails i -> n !! i = Some b ->
    step fails (MkCluster n net e)
      (MkCluster (<[i := new_balancer (nodeid b) active open degraded]> n) net e).

Inductive reachable (fails : nat -> Prop) (c : cluster) : cluster -> Prop :=
| reach_refl : reachable fails c c
| reach_step c1 c2 : reachable fails c c1 -> step fails c1 c2 -> reachable fails c c2.

(** Ranks that have just come up, nothing under way. *)
Definition initial (n : list balancer) : cluster := MkCluster n [] 0.
End heartbeat.
Arguments balancer : clear implicits.
Arguments message : clear implicits.
Arguments measure : clear implicits.
Arguments cluster : clear implicits.
End Heartbeat.

Module HeartbeatFacts.
Import Heartbeat.

Section cluster.
Context {L I : Type}.

(** Messages of epoch [e], to other ranks. *)
Definition proper (e : Z) (msgs : list (message L I)) : Prop :=
  Forall (fun m => beat m = e /\ from m <> to m) msgs.

Lemma heartbeats_proper (b : balancer L I) e body ranks :
  proper e (map (fun p => MkMsg (nodeid b) p e body) (List.filter (fun p => negb (p =? nodeid b)) ranks)).
Proof.
  apply Forall_forall. intros m (p & -> & [_ Hp]%list_elem_of_In%filter_In)%list_elem_of_fmap. cbn.
  split; [done|]. intros E. by rewrite E, Z.eqb_refl in Hp.
Qed.

Lemma send_heartbeat_epoch w (b b' : balancer L I) msgs effects :
  send_heartbeat w b = (b', msgs, effects) -> 0 <= beat_epoch b < 2 ^ 31 - 1 ->
  nodeid b' = nodeid b /\
  (beat_epoch b' = beat_epoch b \/ (nodeid b = 0 /\ beat_epoch b' = beat_epoch b + 1)) /\
  proper (beat_epoch b') msgs.
Proof.
  intros H He. unfold send_heartbeat in H.
  destruct (is_degraded b); [injection H as <- <- <-; split; [done|]; split; [by left|constructor]|].
  destruct (is_open b); cbn [negb] in H; [|injection H as <- <- <-; split; [done|]; split; [by left|constructor]].
  destruct (Z.eqb_spec (nodeid b) 0); injection H as <- <- <-; cbn [nodeid beat_epoch set_epoch].
  - rewrite s32_small by lia. split; [done|]. split; [by right|]. apply heartbeats_proper.
  - split; [done|]. split; [by left|]. apply heartbeats_proper.
Qed.

Lemma send_heartbeat_other w (b b' : balancer L I) msgs effects :
  send_heartbeat w b = (b', msgs, effects) -> nodeid b <> 0 ->
  nodeid b' = nodeid b /\ beat_epoch b' = beat_epoch b /\ proper (beat_epoch b') msgs.
Proof.
  unfold send_heartbeat. intros H Hb. rewrite (proj2 (Z.eqb_neq _ _) Hb) in H.
  destruct (is_degraded b); [injection H as <- <- <-; split; [done|]; split; [done|constructor]|].
  destruct (negb (is_open b)); [injection H as <- <- <-; split; [done|]; split; [done|constructor]|].
  injection H as <- <- <-. split; [done|]. split; [done|]. apply heartbeats_proper.
Qed.

Lemma send_ifbeat_epoch w value (b : balancer L I) msgs effects :
  send_ifbeat w 0 value b = (msgs, effects) -> nodeid b <> 0 -> proper (beat_epoch b) msgs.
Proof.
  unfold send_ifbeat. intros H Hb. destruct (is_degraded b); [injection H as <- <-; constructor|].
  destruct (negb (is_open b)); [injection H as <- <-; constructor|].
  destruct (existsb _ _); injection H as <- <-; [|constructor]. by repeat constructor.
Qed.

(** The epoch part of [handle_heartbeat]: a rank other than 0 that receives a
    heartbeat is at its epoch, or where it was; so are the messages it sends. *)
Lemma handle_heartbeat_epoch ifenable mantle num_in w who m_beat load imports (b b' : balancer L I) msgs effects :
  handle_heartbeat ifenable mantle num_in w who m_beat load imports b = (b', msgs, effects) ->
  who <> nodeid b ->
  nodeid b' = nodeid b /\
  (beat_epoch b' = beat_epoch b \/ (nodeid b <> 0 /\ beat_epoch b' = m_beat)) /\
  proper (beat_epoch b') msgs.
Proof.
  unfold handle_heartbeat. intros H Hw.
  destruct (negb (is_active b)); [injection H as <- <- <-; split; [done|]; split; [by left|constructor]|].
  destruct (negb (is_open b)); [injection H as <- <- <-; split; [done|]; split; [by left|constructor]|].
  destruct (is_degraded b); [injection H as <- <- <-; split; [done|]; split; [by left|constructor]|].
  set (b1 := if negb (nodeid b =? 0) && (beat_epoch b <? m_beat) then set_epoch m_beat [] b else b) in H.
  assert (H1 : nodeid b1 = nodeid b /\ (beat_epoch b1 = beat_epoch b \/ (nodeid b <> 0 /\ beat_epoch b1 = m_beat))).
  { unfold b1. destruct (Z.eqb_spec (nodeid b) 0); cbn [negb andb]; [by split; [|left]|].
    destruct (_ <? _); [by split; [|right]|by split; [|left]]. }
  destruct H1 as [N1 E1]. clearbody b1. set (r := if who =? 0 then _ else _) in H.
  assert (H2 : nodeid r.1.1 = nodeid b /\
    (beat_epoch r.1.1 = beat_epoch b \/ (nodeid b <> 0 /\ beat_epoch r.1.1 = m_beat)) /\
    proper (beat_epoch r.1.1) r.1.2).
  { unfold r. destruct (Z.eqb_spec who 0) as [Ew|]; [|split; [done|]; split; [done|constructor]].
    destruct (send_heartbeat _ _) as [[b2 hb] e1] eqn:Eh. destruct (send_ifbeat _ _ _ _) as [ifb e2] eqn:Ei.
    destruct (send_heartbeat_other _ _ _ _ _ Eh) as (N2 & E2 & M2); [cbn; rewrite N1; congruence|].
    cbn in N2, E2 |- *. rewrite N2. split; [done|]. split; [right; split; [congruence|done]|].
    apply Forall_app. split; [done|]. eapply send_ifbeat_epoch; [done|]. rewrite N2, N1. congruence. }
  clearbody r. destruct r as [[b2 ms] es]. cbn [fst snd] in H2.
  assert (Hb' : beat_epoch b' = beat_epoch b2 /\ nodeid b' = nodeid b2 /\ msgs = ms).
  { destruct (_ && _); [destruct mantle as [[]|]|]; injection H as <- <- <-; done. }
  by destruct Hb' as (-> & -> & ->).
Qed.

(** No rank is ahead of what a rank 0 has begun, nor is a message; ranks are at
    their index, and no message is on its way to its sender.  A rank 0 that does
    not fail has itself begun it. *)
Definition led (fails : nat -> Prop) (c : cluster L I) : Prop :=
  0 <= begun c /\
  (forall i b, nodes c !! i = Some b -> nodeid b = Z.of_nat i /\ 0 <= beat_epoch b <= begun c) /\
  (~ fails 0%nat -> forall b, nodes c !! 0%nat = Some b -> beat_epoch b = begun c) /\
  Forall (fun m => 0 <= beat m <= begun c /\ from m <> to m) (network c).

Lemma proper_led e e' msgs : proper e' msgs -> 0 <= e' <= e ->
  Forall (fun m => 0 <= beat m <= e /\ from m <> to m) msgs.
Proof. intros Hm He. eapply Forall_impl; [done|]. cbn. intros m [-> ?]. done. Qed.

Lemma led_insert fails n net e i b b' :
  led fails (MkCluster n net e) -> n !! i = Some b -> nodeid b' = nodeid b -> 0 <= beat_epoch b' <= e ->
  (~ fails 0%nat -> i = 0%nat -> beat_epoch b' = e) -> led fails (MkCluster (<[i := b']> n) net e).
Proof.
  intros (He & Hn & H0 & Hm) Hb N E E0. split; [done|]. cbn [nodes network begun] in *. split; [|split; [|done]].
  - intros j x. rewrite list_lookup_insert. case_decide as Hd; [intros [= <-]|apply Hn].
    destruct Hd as [<- _]. rewrite N. split; [by apply (Hn i)|done].
  - intros Hf x. rewrite list_lookup_insert. case_decide as Hd; [intros [= <-]|by apply H0].
    destruct Hd as [? _]. by apply E0.
Qed.

Lemma led_network fails n net net' e :
  led fails (MkCluster n net e) -> Forall (fun m => 0 <= beat m <= e /\ from m <> to m) net' ->
  led fails (MkCluster n net' e).
Proof. by intros (He & Hn & H0 & _) Hm. Qed.

Lemma led_send fails n net e w i b b' msgs effects :
  led fails (MkCluster n net e) -> n !! i = Some b -> beat_epoch b < 2 ^ 31 - 1 ->
  send_heartbeat w b = (b', msgs, effects) ->
  led fails (MkCluster (<[i := b']> n) (net ++ msgs) (if nodeid b =? 0 then Z.max e (beat_epoch b') else e)).
Proof.
  intros Hl Hb Hlt Hs. pose proof Hl as (He & Hn & H0 & Hm). cbn [nodes network begun] in *.
  destruct (Hn i b Hb) as [Hid Hep]. destruct (send_heartbeat_epoch _ _ _ _ _ Hs) as (N & E & P); [lia|].
  set (e' := if nodeid b =? 0 then _ else _).
  assert (He' : e <= e' /\ 0 <= beat_epoch b' <= e').
  { subst e'. destruct (Z.eqb_spec (nodeid b) 0); [lia|]. destruct E as [E|[E _]]; [lia|done]. }
  assert (Hi0 : nodeid b = 0 <-> i = 0%nat) by lia.
  split; [cbn; lia|]. cbn [nodes network begun]. split; [|split].
  - intros j x. rewrite list_lookup_insert. case_decide as Hd; [intros [= <-]|intros Hx].
    + destruct Hd as [<- _]. rewrite N. split; [done|lia].
    + destruct (Hn j x Hx). split; [done|lia].
  - intros Hf x. rewrite list_lookup_insert. case_decide as Hd; [intros [= <-]|intros Hx].
    + destruct Hd as [-> _]. specialize (H0 Hf b Hb). subst e'. rewrite (proj2 Hi0), Z.eqb_refl by done.
      destruct E as [E|[_ E]]; lia.
    + rewrite (H0 Hf x Hx). subst e'. destruct (Z.eqb_spec (nodeid b) 0) as [E0|]; [|done].
      destruct Hd. split; [by apply Hi0|by eapply lookup_lt_Some].
  - apply Forall_app. split; [|eapply proper_led; [done|lia]].
    eapply Forall_impl; [done|]. cbn. intros m [? ?]. split; [lia|done].
Qed.

Lemma step_led fails (c c' : cluster L I) : step fails c c' -> led fails c -> led fails c'.
Proof.
  intros Hs Hl. destruct Hs as
    [n net e w i b b' msgs effects Hb Hlt Hsend
    |n net1 net2 e m load imports ife mantle num w i b b' msgs effects Hb Hto _ Hh
    |n net1 net2 e m|n net e i b a o d Hb|n net e i b a o d Hf Hb].
  - by eapply led_send.
  - pose proof Hl as (He & Hn & H0 & Hm). cbn [nodes network begun] in *. destruct (Hn _ _ Hb) as [Hid Hep].
    apply Forall_app in Hm as [M1 M2]. apply Forall_cons in M2 as [[Mb Mf] M2].
    destruct (handle_heartbeat_epoch _ _ _ _ _ _ _ _ _ _ _ _ Hh) as (N & E & P); [congruence|].
    assert (Hb' : 0 <= beat_epoch b' <= e) by (destruct E as [E|[_ E]]; lia).
    eapply led_network; [eapply (led_insert _ _ _ _ _ b); [exact Hl|done|done|done|]|].
    + intros Hf ->. destruct E as [->|[E _]]; [by apply H0|]. by rewrite Hid in E.
    + apply Forall_app. split; [done|]. apply Forall_app. split; [done|].
      apply Forall_app. split; [by eapply proper_led|]. apply Forall_forall.
      intros x (ef & _ & Hx)%list_elem_of_omap. destruct ef; try done. by injection Hx as <-.
  - eapply led_network; [done|]. destruct Hl as (_ & _ & _ & Hm). cbn in *.
    apply Forall_app in Hm as [? M2]. apply Forall_cons in M2 as [_ ?]. by apply Forall_app.
  - pose proof Hl as (He & Hn & H0 & Hm). eapply (led_insert _ _ _ _ _ b); [done|done|done|exact (proj2 (Hn i b Hb))|].
    intros Hf ->. by apply (H0 Hf b).
  - pose proof Hl as (He & _). eapply (led_insert _ _ _ _ _ b); [done|done|done|done|]. by intros Hf' ->.
Qed.

(** C31: From ranks that have just come up, whatever messages arrive in whatever
    order or are lost, and whichever ranks fail and are replaced by new daemons,
    which are at epoch 0, no rank and no message under way is at an epoch above
    those that rank 0 has begun, now or before it failed; and as long as rank 0
    has not failed, that is rank 0's own epoch, so it leads. *)
Theorem rank_0_leads fails (n : list (balancer L I)) c :
  (forall i b, n !! i = Some b -> nodeid b = Z.of_nat i /\ beat_epoch b = 0) ->
  reachable fails (initial n) c ->
  (forall i b, nodes c !! i = Some b -> 0 <= beat_epoch b <= begun c) /\
  (forall m, m ∈ network c -> 0 <= beat m <= begun c) /\
  (~ fails 0%nat -> forall b0, nodes c !! 0%nat = Some b0 -> beat_epoch b0 = begun c).
Proof.
  intros Hn Hr. assert (led fails c) as (He & H1 & H2 & H3).
  { induction Hr as [|c1 c2 _ IH Hs]; [|by eapply step_led].
    split; [done|]. split; [|split; [|constructor]].
    - intros i b Hb. destruct (Hn i b Hb) as [-> ->]. done.
    - intros _ b Hb. apply (Hn 0%nat b Hb). }
  split; [intros i b Hb; by apply (H1 i b)|]. split; [|done].
  rewrite Forall_forall in H3. intros m Hm. by apply H3.
Qed.
End cluster.

(** Three ranks that are up and active. *)
Definition rank (i e : Z) (l : list (Z * Z)) : balancer Z unit := MkBal i true true false e l [].
Definition all_up : measure Z unit := MkMeasure 7 tt [0; 1; 2].

(** Rank 0 begins epoch 1 and fails; the daemon in its place is at epoch 0, with
    its predecessor's heartbeats under way. *)
Definition beats : list (message Z unit) := [MkMsg 0 1 1 (Heartbeat 7 tt); MkMsg 0 2 1 (Heartbeat 7 tt)].
Definition replaced : cluster Z unit := MkCluster [rank 0 0 []; rank 1 0 []] beats 1.

Lemma replaced_reached : reachable (fun _ => True) (initial [rank 0 0 []; rank 1 0 []]) replaced.
Proof.
  eapply reach_step; [eapply reach_step; [constructor|]|].
  - apply (step_send _ [rank 0 0 []; rank 1 0 []] [] 0 all_up 0%nat (rank 0 0 [])
      (MkBal 0 true true false 1 [(0, 7)] [(0, tt)]) beats [Switch_epoch]); done.
  - apply (step_fail _ [MkBal 0 true true false 1 [(0, 7)] [(0, tt)]; rank 1 0 []] beats 1 0%nat
      (MkBal 0 true true false 1 [(0, 7)] [(0, tt)]) true true false); done.
Qed.

Lemma rank_0_leads_witness :
  length (network replaced) = 2%nat /\ forall m, m ∈ network replaced -> 0 <= beat m <= 1.
Proof.
  split; [done|].
  destruct (rank_0_leads (fun _ => True) [rank 0 0 []; rank 1 0 []] replaced) as (_ & H & _);
    [|exact replaced_reached|exact H].
  intros [|[|i]] x; cbn; [by intros [= <-]..|done].
Defined.

(** So a rank can be ahead of the rank 0 that has come up again. *)
Example behind_after_failure :
  let '(b, _, _) := handle_heartbeat true None 3 all_up 0 1 7 tt (rank 1 0 []) in
  beat_epoch b = 1 /\ exists b0, nodes replaced !! 0%nat = Some b0 /\ beat_epoch b0 = 0.
Proof. split; [done|]. by eexists. Qed.

(** A heartbeat of an epoch that is over is recorded as a load of this one. *)
Example stale_heartbeat_recorded :
  let '(b, _, _) := handle_heartbeat true None 3 all_up 2 4 99 tt (rank 1 5 [(1, 7)]) in
  beat_epoch b = 5 /\ mds_load b = [(1, 7); (2, 99)].
Proof. done. Qed.

(** Rank 0's heartbeat takes a rank back that a peer has moved ahead. *)
Example epoch_moves_back :
  let '(b, _, _) := handle_heartbeat true None 3 all_up 2 5 99 tt (rank 1 3 []) in
  let '(b', _, _) := handle_heartbeat true None 3 all_up 0 4 99 tt b in
  beat_epoch b = 5 /\ beat_epoch b' = 4.
Proof. done. Qed.
End HeartbeatFacts.
